(* ===== verification/_CoqProject ===== *)
-Q . S2P
Prelude.v
Config.v
Bytes.v
IntUtil.v
StringTools.v
Errors.v
WordList.v
Mnemonics.v
Types.v
WalletBlocks.v
Parser.v
Varint.v
Base58.v
TreeHash.v
TxExtra.v
Serialization.v
Addresses.v
Block.v
Search.v
Median.v
Currency.v
Difficulty.v
Upgrade.v
Mixins.v
Checkpoints.v
BlockchainCache.v
CacheFacts.v
CacheSteps.v
CacheTheorems.v
Validation.v
TransactionPool.v
PoolCleaner.v
ChainTree.v
Core.v
CoreFacts.v
CorePool.v
CoreChecks.v
CoreSteps.v
CoreTheorems.v
CoreQueries.v
QueryTheorems.v
BlockTemplate.v
TemplateTheorems.v
Utilities.v
WalletTypes.v
SubWallet.v
SubWallets.v
WalletFacts.v
ValidateParameters.v
WalletTheorems.v
WalletJson.v
WalletSync.v
WalletSyncFacts.v
WalletSyncTheorems.v
WalletBackend.v
WalletBackendTheorems.v
Transfer.v
TransferTheorems.v
KvBinary.v
KvFacts.v
Messages.v
MessageTheorems.v
Ipv4.v
PeerList.v
ProtocolHandler.v
NodeServer.v
ProtocolCore.v
ProtocolTheorems.v
NodeSync.v
