(* ===== verification/Prelude.v ===== *)
(** * Verification of the kryptokrona node

    A shallow embedding of the consensus code of kryptokrona, a CryptoNote
    currency: the code under src/src/cryptonote_core, the parts of
    src/src/common, src/src/crypto and src/src/serialization it stands on, the
    data types of src/include, the wallet of src/src/sub_wallets and
    src/src/wallet_backend, and the protocol between nodes of
    src/src/cryptonote_protocol and src/src/p2p.  Definitions keep the names of the source; where a name is
    taken twice the model adds the class or a suffix.

    ** The program

    A node keeps a tree of blocks.  [Core] (core.cpp) owns segments of that
    tree, each a [BlockchainCache] (blockchain_cache.cpp) with an index of its
    transactions, spent key images and outputs; a segment asks its parent for
    what lies below its first block.  One leaf of the tree is the main chain.  A
    block that arrives as bytes is parsed, checked against the chain below its
    predecessor with the rules of [Currency] (currency.cpp), and inserted;
    if its chain has become the heaviest, the core switches to it.
    Transactions wait in the pool (transaction_pool.cpp,
    transaction_pool_cleaner.cpp) until a block takes them.  Miners ask for block
    templates, other nodes and wallets for blocks.

    Nodes talk over connections.  A message is a structure in a key-value format
    (the kv_binary files of src/src/serialization), framed by a header (levin_protocol.cpp) and queued
    for the socket.  [NodeServer] (net_node.cpp) keeps the connections with their queues and
    the lists of peers (peer_list_manager.cpp), answers the commands of the peer
    protocol, and passes the others to [CryptoNoteProtocolHandler]
    (cryptonote_protocol_handler.cpp), which asks and feeds the core: a node that lacks
    blocks of its peer asks for them, new blocks and transactions are added and relayed.

    A wallet is a container of sub wallets ([SubWallets], sub_wallets.cpp), one
    for each spend key, which hold the outputs that were received as unspent, locked or
    spent inputs.  Before a transaction is made its parameters are checked
    against the container (validate_parameters.cpp), and the container chooses the
    inputs.  A synchroniser (wallet_synchronizer.cpp) asks the daemon for blocks,
    recognises the outputs that belong to the container and the key images that
    spend them, and stores both.  transfer.cpp makes transactions: it splits
    amounts, builds rings from outputs of the daemon, signs, checks, relays, and
    lets the container remember what was sent.  [WalletBackend] keeps container and
    synchroniser in an encrypted file as JSON, and makes wallets from seeds and keys.

    ** How the code is modelled

    A machine integer is a [Z] that is wrapped to its width where the code may
    leave the range ([wrap], [fits], the notations [u8] to [u64]).  Byte
    vectors, strings and plain structures are lists of bytes.  A function that may throw,
    follow a null pointer or index out of range answers [None] there; assertions
    are those of a release build, that is, not evaluated.  State is passed
    explicitly.  Hash functions, elliptic curve functions, the JSON library,
    the clock and random keys are arguments, and theorems that need something of
    them say so in a hypothesis.  Logging and notifications are left out.

    ** The files

    Foundations: [Config] (config/cryptonote_config.h), [Bytes], [IntUtil]
    (int_util.h, check_difficulty.cpp), [StringTools] (string_tools.cpp),
    [Types] (include/cryptonote.h), [Parser] (the reader monad and the notion of
    a codec), [Varint] (stream_tools.cpp, varint.h), [TreeHash] (tree-hash.c),
    [Search] (lower_bound, shuffle_generator.h), [Median] (math.h).

    Formats: [TxExtra] (transaction_extra.cpp), [Serialization] and [Block]
    (cryptonote_serialization.cpp, cached_block.cpp, cached_transaction.cpp).

    Rules: [Currency] (currency.cpp), [Difficulty] (difficulty.cpp),
    [Upgrade] (upgrade_manager.cpp, upgrade_detector.h), [Mixins] (mixins.h),
    [Checkpoints] (checkpoints.cpp), [Validation] (the validate functions of core.cpp).

    Chain segments: [BlockchainCache] has the data and the operations,
    [CacheFacts] the invariant [cache_ok] and the reading of a path of segments
    as one chain, [CacheSteps] the operations that change a segment,
    [CacheTheorems] the theorems.

    Pool: [TransactionPool] and [PoolCleaner], the latter written against the
    interface [ITransactionPool] that the former implements.

    Core: [ChainTree] (segments linked by pointers), [Core] ([addBlock] with
    everything it calls, admission to the pool), [CoreFacts], [CorePool],
    [CoreChecks] and [CoreSteps] (lemmas), [CoreTheorems] (theorems),
    [CoreQueries] and [QueryTheorems] (what peers and wallets ask), [BlockTemplate] and
    [TemplateTheorems] (what miners ask).

    Keys and addresses: [Errors] (errors.h), [WordList] and [Mnemonics]
    (src/src/mnemonics), [Base58] (base58.cpp), [Addresses]
    (cryptonote_basic_impl.cpp, addresses.cpp and the checks of addresses in
    validate_parameters.cpp).

    Wallets: [WalletBlocks] and [WalletTypes] (include/wallet_types.h),
    [Utilities] (utilities.cpp), [SubWallet] and [SubWallets]
    (src/src/sub_wallets), [WalletFacts] (the invariant [container_ok] and the steps of a
    container), [ValidateParameters] (errors/validate_parameters.cpp),
    [WalletTheorems], [WalletJson] (the container as JSON), [WalletSync]
    (synchronization_status.cpp and wallet_synchronizer.cpp) with [WalletSyncFacts]
    (the relation [scanned] between a container and the chain) and
    [WalletSyncTheorems], [WalletBackend] (wallet_backend.cpp) with
    [WalletBackendTheorems], [Transfer] (transfer.cpp) with
    [TransferTheorems].

    Network: [KvBinary] (the key-value format, written and read behind the class
    [ISerializer]) with [KvFacts], [Messages] (structures, frames, write queue,
    notifications) with [MessageTheorems], [Ipv4] (ipv4_address.cpp), [PeerList]
    (peerlist.cpp, peer_list_manager.cpp), [ProtocolHandler]
    (cryptonote_protocol_handler.cpp, against the class [ICore]), [NodeServer]
    (net_node.cpp), [ProtocolCore] (the core as an [ICore]), [ProtocolTheorems], and
    [NodeSync] (two nodes that synchronise).

    ** What is shown

    Formats.  Reading inverts writing, and what can be read is what was
    written: a transaction has one blob ([transaction_binary_canonical]), a block
    reads back ([block_roundtrip], [raw_block_canonical]); for the extra field the
    round trip holds for well-formed fields.  The tree hash agrees
    with the branch hash of every leaf.

    Rules.  The proof-of-work test is the comparison of 320-bit integers; the block
    reward, the decomposition of amounts, fusion transactions, the next difficulty and the
    voting of upgrades are compared with their definitions on integers.
    Validation rejects exactly what breaks a rule ([validateSemantic_correct]),
    and no key image is spent twice by the transactions of a block.

    Segments.  Queries answer for the whole chain, splitting a segment cannot be
    observed, and a pushed block is found again.

    Core.  [addBlock] always answers and keeps the invariant [core_ok]: the
    tree is well formed, every chain is in order, the main chain is the
    heaviest, the storage holds its blocks, the pool is in order
    ([addBlock_correct]).  Along every run of blocks, transactions and cleanings the
    work of the main chain never falls and the pool never holds a key image that
    the main chain has spent ([node_run_safe]).  A block that passes the checks is
    added ([addBlock_accepts]).  These hold for blocks that fit the containers, and not for
    a switch to a fork that hangs off another fork.  Two nodes that exchange a sparse
    chain find a common block ([sync_supplement_correct]), and a block template, with any nonce,
    passes the checks of [addBlock] up to the work, if its size is not above the limit and
    the signatures of its transactions verify ([getBlockTemplate_correct]).

    Keys and addresses.  Seed words, Base58 texts, account addresses and integrated
    addresses are read back as they were written.

    Wallets.  Along every run of the operations of a container no key
    image is held twice and the indices of the sub wallets agree
    ([wallet_run_ok]); the inputs chosen for an amount are spendable, distinct
    and enough, and none of them is superfluous at the end
    ([transaction_inputs_correct]); a transaction that passes the checks finds the
    money it needs ([validated_transaction_funded]); a wallet that
    follows a chain holds exactly the outputs that the senders of its transactions made for
    its keys, each as unspent, locked or spent as the chain says ([wallet_scan_correct]); sending fails without a
    trace or relays a transaction that spends the chosen inputs, with the amounts
    and the fee asked for ([sending_outcome]), and these inputs are
    locked against a second choice ([sent_inputs_locked]); the daemon takes the
    fusion transactions of the wallet for such
    ([fusion_transaction_accepted]); a wallet opens from the file it was saved to, and
    a seed gives back the keys it was made from ([saved_wallet_opens],
    [seed_restores_wallet]).

    Network.  The notifications a node queues for a peer are those the peer reads,
    however the bytes are cut on the way ([notifications_received]).  Whatever a peer
    sends changes the core only by attempts to add blocks and transactions, and touches no other
    connection ([message_effects]).  A node whose chain has forked from that of its peer
    asks for what it lacks and ends with the main chain of the peer, if each block that it
    lacks passes its checks when its turn comes ([nodes_synchronise]); a lite block becomes the block of its sender
    ([lite_block_completes]); a relayed block reaches each peer once
    ([block_relay_once]).  The lists of peers, empty at first, are bounded, disjoint and free of
    duplicates and of addresses that are not allowed ([peer_lists_ok]).

    A few theorems state what the code does where that is not what it means
    to do: a ring member may come from a later block than the one that is
    validated when it lies in another segment, [queryBlocks] leaves out the top
    block, and an expired transaction without fee makes the request for a block template
    read through an invalid iterator.  A peer that relays transactions while a lite block
    waits for others is dropped ([pending_lite_block_race]), and a connection refused at its
    handshake makes the count of peers fall ([refused_peer_uncounted]).  A container that is reset keeps its inputs, the inputs of a
    cancelled transaction stay locked, inputs received on an abandoned
    fork may come back, and a transaction that waits for its block makes the wallet
    throw after a restart.  A block with an output that the daemon has no index for is
    skipped, a fork forgets inputs that are locked, a rescan stores inputs a
    second time, a payment id of letters that are no digits is dropped, and rings keep the
    order of the daemon.

    ** Fuel

    Loops that are not structural take fuel.  Where the result does not tell an exception
    from fuel that ran out by itself, it is a [Run], with [OutOfFuel] beside [Raises].  The walk up the tree takes the number of
    segments, which [chain_walk_terminates] shows to be enough.  The sparse
    chain doubles a 32-bit step and ends in 33 rounds.  Decimal digits of a 64-bit
    amount need 21 rounds, base-128 digits 10.  The merging of outputs loses one
    amount per round.  The denominations of the wallet need 20 rounds, and the loop over
    fusion transactions one more than there are inputs, which is never too little
    ([fusion_loop_terminates]).  The rounds for the reward transaction are the ten tries of
    the code.  Parsers consume at least one byte per round and take the length of
    the input; nested values of the key-value format lose a byte per level and
    never run out ([kv_parse_terminates]).  A read from a connection loses a byte or a chunk per round.

    ** Not modelled

    The field arithmetic and ring signatures of src/src/crypto, the slow
    hashes, the RocksDB implementation of the cache, sockets, coroutines and
    threads (a connection is a sequence of rounds, and what other connections do meanwhile
    is an argument), the choice of peers to connect to and the second node of
    p2p_node.cpp, the RPC servers, the command line programs, the thread and the events of
    the synchroniser, and the older wallet of the service.  The daemon of a wallet, its
    encryption and the text of its JSON are arguments.  They
    need either a model of an external library or of concurrency, or are not part of
    the rules of the chain.  In core.cpp the import of stored blocks on
    start, the merging of segments and the detailed answers for explorers are left
    out. *)

From stdpp Require Export base tactics option list sorting numbers gmap.
From Stdlib Require Export ZArith Lia.
From Stdlib Require Import ZifyNat.

#[global] Open Scope Z_scope.

(** ** Machine integers

    A [w]-bit unsigned integer of the code is a [Z]; every operation that can
    leave the range is followed by [wrap w], the reduction the hardware does.
    [fits w z] is the type invariant of such a variable. *)

Definition wrap (w z : Z) : Z := z mod 2 ^ w.
Definition fits (w z : Z) : Prop := 0 <= z < 2 ^ w.

(** Two's complement reading of a [w]-bit pattern (casts to [int64_t]). *)
Definition swrap (w z : Z) : Z := (z + 2 ^ (w - 1)) mod 2 ^ w - 2 ^ (w - 1).

Declare Scope word_scope.
Delimit Scope word_scope with word.
Notation "'u8' z" := (wrap 8 z) (at level 10, z at level 9) : word_scope.
Notation "'u16' z" := (wrap 16 z) (at level 10, z at level 9) : word_scope.
Notation "'u32' z" := (wrap 32 z) (at level 10, z at level 9) : word_scope.
Notation "'u64' z" := (wrap 64 z) (at level 10, z at level 9) : word_scope.
Notation "'s64' z" := (swrap 64 z) (at level 10, z at level 9) : word_scope.
#[global] Open Scope word_scope.

Definition UINT64_MAX : Z := 2 ^ 64 - 1.
Definition UINT32_MAX : Z := 2 ^ 32 - 1.

#[global] Instance fits_dec w z : Decision (fits w z).
Proof. unfold fits. apply _. Defined.

(** Division stays uninterpreted in plain [lia], as it is by default. *)
Ltac Zify.zify_convert_to_euclidean_division_equations_flag ::= constr:(false).

(** [zlia] is [lia] extended with division and remainder by constants. *)
Ltac zlia := Z.to_euclidean_division_equations; lia.

(** The same for natural numbers, indices of vectors in particular. *)
Ltac nlia := zify; Z.to_euclidean_division_equations; lia.

(** [words] exposes the ranges behind [fits], [wrap] and the constants. *)
Ltac words := unfold fits, wrap, swrap, UINT64_MAX, UINT32_MAX in *.
Ltac wordlia := words; zlia.

(** Boolean tests of the code turned into the propositions they decide. *)
Ltac bool_to_prop :=
  repeat match goal with
  | H : (_ <? _) = true |- _ => apply Z.ltb_lt in H
  | H : (_ <? _) = false |- _ => apply Z.ltb_ge in H
  | H : (_ <=? _) = true |- _ => apply Z.leb_le in H
  | H : (_ <=? _) = false |- _ => apply Z.leb_gt in H
  | H : (_ =? _) = true |- _ => apply Z.eqb_eq in H
  | H : (_ =? _) = false |- _ => apply Z.eqb_neq in H
  | H : (_ && _)%bool = true |- _ => apply andb_true_iff in H as [? ?]
  | H : (_ || _)%bool = false |- _ => apply orb_false_iff in H as [? ?]
  | H : negb _ = true |- _ => apply negb_true_iff in H
  | H : negb _ = false |- _ => apply negb_false_iff in H
  end.

(** Case analysis on the innermost conditional of the goal. *)
Ltac split_ifs :=
  repeat match goal with
  | |- context [if ?b then _ else _] =>
      lazymatch b with
      | context [if _ then _ else _] => fail
      | _ => let E := fresh "E" in destruct b eqn:E
      end
  end; bool_to_prop.

Create HintDb kk.
Create Rewrite HintDb kk.

Lemma wrap_small w z : fits w z -> wrap w z = z.
Proof. intros. by apply Z.mod_small. Qed.

Lemma fits_wrap w z : 0 <= w -> fits w (wrap w z).
Proof. intros. apply Z.mod_pos_bound. by apply Z.pow_pos_nonneg. Qed.

Lemma wrap_wrap w z : wrap w (wrap w z) = wrap w z.
Proof. unfold wrap. apply Zmod_mod. Qed.

Lemma fits_weaken v w z : 0 <= v <= w -> fits v z -> fits w z.
Proof.
  intros [? ?] [? ?]. split; [done|].
  eapply Z.lt_le_trans; [done|]. by apply Z.pow_le_mono_r.
Qed.

Lemma wrap_add_l w a b : wrap w (wrap w a + b) = wrap w (a + b).
Proof. unfold wrap. apply Zplus_mod_idemp_l. Qed.

Lemma wrap_add_r w a b : wrap w (a + wrap w b) = wrap w (a + b).
Proof. unfold wrap. apply Zplus_mod_idemp_r. Qed.

Lemma wrap_mul_l w a b : wrap w (wrap w a * b) = wrap w (a * b).
Proof. unfold wrap. apply Zmult_mod_idemp_l. Qed.

Lemma wrap_mul_r w a b : wrap w (a * wrap w b) = wrap w (a * b).
Proof. unfold wrap. apply Zmult_mod_idemp_r. Qed.

Lemma swrap_small w z :
  0 < w -> - 2 ^ (w - 1) <= z < 2 ^ (w - 1) -> swrap w z = z.
Proof.
  intros Hw Hz. unfold swrap.
  assert (2 ^ w = 2 * 2 ^ (w - 1)) as E.
  { rewrite <- Z.pow_succ_r by lia. f_equal. lia. }
  rewrite Z.mod_small by lia. lia.
Qed.

#[export] Hint Resolve fits_wrap : kk.

(** ** Sums *)

Definition sumZ (l : list Z) : Z := fold_right Z.add 0 l.

(** The sum as a loop over a 64-bit accumulator computes it. *)
Definition sum_u64 (l : list Z) : Z := fold_left (fun acc x => u64 (acc + x)) l 0.

Lemma sumZ_app l1 l2 : sumZ (l1 ++ l2) = sumZ l1 + sumZ l2.
Proof. induction l1; simpl; lia. Qed.

Lemma sumZ_nonneg l : Forall (fun x => 0 <= x) l -> 0 <= sumZ l.
Proof. induction 1; simpl; lia. Qed.

Lemma sumZ_Permutation l1 l2 : l1 ≡ₚ l2 -> sumZ l1 = sumZ l2.
Proof. induction 1; simpl; lia. Qed.

Lemma sum_u64_acc l acc :
  fold_left (fun a x => u64 (a + x)) l (u64 acc) = u64 (acc + sumZ l).
Proof.
  revert acc. induction l as [|x l IH]; intros acc; simpl.
  - f_equal. lia.
  - rewrite wrap_add_l, IH. f_equal. lia.
Qed.

Lemma sum_u64_wrap l : sum_u64 l = u64 (sumZ l).
Proof. exact (sum_u64_acc l 0). Qed.

Lemma sum_u64_exact l : fits 64 (sumZ l) -> sum_u64 l = sumZ l.
Proof. intros. rewrite sum_u64_wrap. by apply wrap_small. Qed.

(** ** Sorted lists *)

Lemma StronglySorted_snoc {A} (R : relation A) l x :
  StronglySorted R (l ++ [x]) <-> StronglySorted R l /\ Forall (fun y => R y x) l.
Proof.
  induction l as [|y l IH]; simpl.
  - split; repeat constructor.
  - rewrite !StronglySorted_cons, IH, Forall_cons, Forall_app, Forall_singleton. tauto.
Qed.

Lemma StronglySorted_take_drop {A} (R : relation A) n l :
  StronglySorted R l -> StronglySorted R (take n l) /\ StronglySorted R (drop n l).
Proof. intros H. rewrite <- (take_drop n l) in H. by apply StronglySorted_app in H as (_ & ? & ?). Qed.

Lemma filter_sorted {A} (R : relation A) (P : A -> Prop) `{!forall x, Decision (P x)} l :
  StronglySorted R l -> StronglySorted R (filter P l).
Proof.
  induction 1 as [|x l Hs IH Hx]; [constructor|]. destruct (decide (P x)).
  - rewrite filter_cons_True by done. constructor; [done|].
    apply Forall_forall. intros y [_ Hy]%list_elem_of_filter. rewrite Forall_forall in Hx. by apply Hx.
  - by rewrite filter_cons_False.
Qed.

Lemma StronglySorted_lookup {A} (R : relation A) l i j x y :
  StronglySorted R l -> (i < j)%nat -> l !! i = Some x -> l !! j = Some y -> R x y.
Proof.
  intros Hs. revert i j. induction Hs as [|z l Hs IH Hz]; intros i j Hij Hx Hy; [done|].
  destruct j as [|j]; [lia|]. destruct i as [|i]; cbn in Hx, Hy.
  - injection Hx as ->. rewrite Forall_lookup in Hz. by apply Hz in Hy.
  - apply (IH i j); [lia|done..].
Qed.

(** ** Filters and concatenations *)

Lemma filter_empty {A} (P : A -> Prop) `{forall x, Decision (P x)} l :
  Forall (fun x => ~ P x) l -> filter P l = [].
Proof. induction 1; [done|]. by rewrite filter_cons_False. Qed.

Lemma filter_all {A} (P : A -> Prop) `{forall x, Decision (P x)} l :
  Forall P l -> filter P l = l.
Proof. induction 1; [done|]. rewrite filter_cons_True by done. by f_equal. Qed.

Lemma filter_ext_in {A} (P Q : A -> Prop) `{forall x, Decision (P x)} `{forall x, Decision (Q x)} (l : list A) :
  (forall x, x ∈ l -> P x <-> Q x) -> filter P l = filter Q l.
Proof.
  induction l as [|x l IH]; intros Heq; [done|].
  assert (filter P l = filter Q l) as E by (apply IH; intros y Hy; apply Heq; by right).
  rewrite !filter_cons, E. specialize (Heq x (list_elem_of_here _ _)).
  destruct (decide (P x)), (decide (Q x)); tauto || done.
Qed.

Lemma concat_perm {A} (l k : list (list A)) : l ≡ₚ k -> concat l ≡ₚ concat k.
Proof.
  induction 1 as [|x l k _ IH|x y l|l k m _ IH1 _ IH2]; cbn; [done|by rewrite IH| |by rewrite IH1].
  rewrite !app_assoc. by rewrite (Permutation_app_comm x y).
Qed.

(** ** Functions with fuel

    Where the recursion of the code is not structural and its end is a property of its own, the
    model says whether the code returned, threw an exception, or was cut off because the
    fuel did not suffice. *)
Inductive Run (A : Type) : Type :=
  | Returns (a : A)
  | Raises
  | OutOfFuel.
Arguments Returns {A} a.
Arguments Raises {A}.
Arguments OutOfFuel {A}.

#[global] Instance Run_ret : MRet Run := fun A => Returns.
#[global] Instance Run_bind : MBind Run := fun A B f r =>
  match r with Returns a => f a | Raises => Raises | OutOfFuel => OutOfFuel end.

(** A call of a function without fuel, and a call from one. *)
Definition of_option {A} (o : option A) : Run A := match o with Some a => Returns a | None => Raises end.
Definition to_option {A} (r : Run A) : option A := match r with Returns a => Some a | _ => None end.
