(* ===== verification/Config.v ===== *)
(** * Configuration

    The constants of [src/config/cryptonote_config.h] that the modelled code
    reads, under the names they have there. *)

From S2P Require Import Prelude.

Module parameters.

Definition DIFFICULTY_TARGET : Z := 90.
Definition CRYPTONOTE_MAX_BLOCK_NUMBER : Z := 500000000.
Definition CRYPTONOTE_MAX_BLOCK_BLOB_SIZE : Z := 500000000.
Definition CRYPTONOTE_MAX_TX_SIZE : Z := 1000000000.
Definition CRYPTONOTE_PUBLIC_ADDRESS_BASE58_PREFIX : Z := 2239254.
Definition CRYPTONOTE_MINED_MONEY_UNLOCK_WINDOW : Z := 20.
Definition CRYPTONOTE_BLOCK_FUTURE_TIME_LIMIT : Z := 60 * 60 * 2.
Definition CRYPTONOTE_BLOCK_FUTURE_TIME_LIMIT_V3 : Z := 3 * DIFFICULTY_TARGET.
Definition CRYPTONOTE_BLOCK_FUTURE_TIME_LIMIT_V4 : Z := 6 * DIFFICULTY_TARGET.
Definition BLOCKCHAIN_TIMESTAMP_CHECK_WINDOW : Z := 60.
Definition BLOCKCHAIN_TIMESTAMP_CHECK_WINDOW_V3 : Z := 11.

Definition MONEY_SUPPLY : Z := 100000000000000.
Definition ZAWY_DIFFICULTY_BLOCK_INDEX : Z := 187000.
Definition ZAWY_DIFFICULTY_V2 : Z := 0.
Definition ZAWY_DIFFICULTY_DIFFICULTY_BLOCK_VERSION : Z := 3.
Definition LWMA_2_DIFFICULTY_BLOCK_INDEX : Z := 620000.
Definition LWMA_2_DIFFICULTY_BLOCK_INDEX_V2 : Z := 700000.
Definition LWMA_2_DIFFICULTY_BLOCK_INDEX_V3 : Z := 800000.
Definition LWMA_3_DIFFICULTY_BLOCK_INDEX : Z := 2200000.
Definition EMISSION_SPEED_FACTOR : Z := 21.
Definition GENESIS_BLOCK_REWARD : Z := 0.

Definition CRYPTONOTE_REWARD_BLOCKS_WINDOW : Z := 100.
Definition CRYPTONOTE_BLOCK_GRANTED_FULL_REWARD_ZONE : Z := 100000.
Definition CRYPTONOTE_BLOCK_GRANTED_FULL_REWARD_ZONE_V2 : Z := 20000.
Definition CRYPTONOTE_BLOCK_GRANTED_FULL_REWARD_ZONE_V1 : Z := 10000.
Definition GENESIS_BLOCK_TIMESTAMP : Z := 1512800692.
Definition CRYPTONOTE_COINBASE_BLOB_RESERVED_SIZE : Z := 600.
Definition CRYPTONOTE_DISPLAY_DECIMAL_POINT : Z := 5.
Definition MINIMUM_FEE : Z := 10.

Definition MINIMUM_MIXIN_V1 : Z := 0.
Definition MAXIMUM_MIXIN_V1 : Z := 100.
Definition MINIMUM_MIXIN_V2 : Z := 7.
Definition MAXIMUM_MIXIN_V2 : Z := 7.
Definition MINIMUM_MIXIN_V3 : Z := 3.
Definition MAXIMUM_MIXIN_V3 : Z := 3.
Definition MINIMUM_MIXIN_V4 : Z := 1.
Definition MAXIMUM_MIXIN_V4 : Z := 5.
Definition MIXIN_LIMITS_V1_HEIGHT : Z := 440000.
Definition MIXIN_LIMITS_V2_HEIGHT : Z := 620000.
Definition MIXIN_LIMITS_V3_HEIGHT : Z := 800000.
Definition MIXIN_LIMITS_V4_HEIGHT : Z := 1250000.
Definition DEFAULT_MIXIN_V0 : Z := 3.
Definition DEFAULT_MIXIN_V1 : Z := MAXIMUM_MIXIN_V1.
Definition DEFAULT_MIXIN_V2 : Z := MAXIMUM_MIXIN_V2.
Definition DEFAULT_MIXIN_V3 : Z := MAXIMUM_MIXIN_V3.
Definition DEFAULT_MIXIN_V4 : Z := MAXIMUM_MIXIN_V4.

Definition DEFAULT_DUST_THRESHOLD : Z := 10.
Definition DEFAULT_DUST_THRESHOLD_V2 : Z := 0.
Definition DUST_THRESHOLD_V2_HEIGHT : Z := MIXIN_LIMITS_V2_HEIGHT.
Definition FUSION_DUST_THRESHOLD_HEIGHT_V2 : Z := 800000.
Definition EXPECTED_NUMBER_OF_BLOCKS_PER_DAY : Z := 24 * 60 * 60 / DIFFICULTY_TARGET.

Definition DIFFICULTY_WINDOW : Z := 17.
Definition DIFFICULTY_WINDOW_V1 : Z := 2880.
Definition DIFFICULTY_WINDOW_V2 : Z := 2880.
Definition DIFFICULTY_WINDOW_V3 : Z := 60.
Definition DIFFICULTY_BLOCKS_COUNT_V3 : Z := DIFFICULTY_WINDOW_V3 + 1.
Definition DIFFICULTY_CUT : Z := 0.
Definition DIFFICULTY_CUT_V1 : Z := 60.
Definition DIFFICULTY_CUT_V2 : Z := 60.
Definition DIFFICULTY_LAG : Z := 0.
Definition DIFFICULTY_LAG_V1 : Z := 15.
Definition DIFFICULTY_LAG_V2 : Z := 15.

Definition MAX_BLOCK_SIZE_INITIAL : Z := 100000.
Definition MAX_BLOCK_SIZE_GROWTH_SPEED_NUMERATOR : Z := 100 * 1024.
Definition MAX_BLOCK_SIZE_GROWTH_SPEED_DENOMINATOR : Z :=
  365 * 24 * 60 * 60 / DIFFICULTY_TARGET.
Definition MAX_EXTRA_SIZE : Z := 2200.
Definition MAX_EXTRA_SIZE_POOL : Z := 2200.
Definition MAX_EXTRA_SIZE_BLOCK : Z := 128.
Definition BLOCK_BLOB_SHUFFLE_CHECK_HEIGHT : Z := 1750000.
Definition TRANSACTION_SIGNATURE_COUNT_VALIDATION_HEIGHT : Z := 1750000.

Definition CRYPTONOTE_LOCKED_TX_ALLOWED_DELTA_BLOCKS : Z := 1.
Definition CRYPTONOTE_LOCKED_TX_ALLOWED_DELTA_SECONDS : Z :=
  DIFFICULTY_TARGET * CRYPTONOTE_LOCKED_TX_ALLOWED_DELTA_BLOCKS.
Definition CRYPTONOTE_MEMPOOL_TX_LIVETIME : Z := 60 * 60 * 24.
Definition CRYPTONOTE_MEMPOOL_TX_FROM_ALT_BLOCK_LIVETIME : Z := 60 * 10.
Definition CRYPTONOTE_NUMBER_OF_PERIODS_TO_FORGET_TX_DELETED_FROM_POOL : Z := 7.

Definition FUSION_TX_MAX_SIZE : Z :=
  CRYPTONOTE_BLOCK_GRANTED_FULL_REWARD_ZONE * 30 / 100.
Definition FUSION_TX_MIN_INPUT_COUNT : Z := 12.
Definition FUSION_TX_MIN_IN_OUT_COUNT_RATIO : Z := 4.

Definition UPGRADE_HEIGHT_V2 : Z := 1.
Definition UPGRADE_HEIGHT_V3 : Z := 2.
Definition UPGRADE_HEIGHT_V4 : Z := 3.
Definition UPGRADE_HEIGHT_V5 : Z := 4.
Definition UPGRADE_VOTING_THRESHOLD : Z := 90.
Definition UPGRADE_VOTING_WINDOW : Z := EXPECTED_NUMBER_OF_BLOCKS_PER_DAY.
Definition UPGRADE_WINDOW : Z := EXPECTED_NUMBER_OF_BLOCKS_PER_DAY.

End parameters.

Definition TRANSACTION_VERSION_1 : Z := 1.
Definition TRANSACTION_VERSION_2 : Z := 2.
Definition CURRENT_TRANSACTION_VERSION : Z := TRANSACTION_VERSION_1.

Definition BLOCK_MAJOR_VERSION_1 : Z := 1.
Definition BLOCK_MAJOR_VERSION_2 : Z := 2.
Definition BLOCK_MAJOR_VERSION_3 : Z := 3.
Definition BLOCK_MAJOR_VERSION_4 : Z := 4.
Definition BLOCK_MAJOR_VERSION_5 : Z := 5.

Definition BLOCK_MINOR_VERSION_0 : Z := 0.
Definition BLOCK_MINOR_VERSION_1 : Z := 1.

Definition BLOCKS_IDS_SYNCHRONIZING_DEFAULT_COUNT : Z := 10000.
Definition BLOCKS_SYNCHRONIZING_DEFAULT_COUNT : Z := 100.
