(* ===== verification/Bytes.v ===== *)
(** * Byte strings

    [std::vector<uint8_t>], [std::string] and POD objects are lists of bytes,
    a byte being a [Z] below 256.  The little- and big-endian readings of such
    a list and their inverses are what [memcpy] and pointer casts compute on
    the integers of the code. *)

From S2P Require Import Prelude.

Definition byte_ok (b : Z) : Prop := fits 8 b.
Definition bytes_ok (l : list Z) : Prop := Forall byte_ok l.

#[global] Instance byte_ok_dec b : Decision (byte_ok b).
Proof. unfold byte_ok. apply _. Defined.
#[global] Instance bytes_ok_dec l : Decision (bytes_ok l).
Proof. unfold bytes_ok. apply _. Defined.

(** A POD object of [n] bytes ([crypto::Hash], [crypto::PublicKey], ...). *)
Definition pod_ok (n : nat) (l : list Z) : Prop := length l = n /\ bytes_ok l.

#[global] Instance pod_ok_dec n l : Decision (pod_ok n l).
Proof. unfold pod_ok. apply _. Defined.

Fixpoint le_combine (l : list Z) : Z :=
  match l with [] => 0 | b :: l' => b + 256 * le_combine l' end.

Fixpoint le_split (n : nat) (z : Z) : list Z :=
  match n with O => [] | S n' => z mod 256 :: le_split n' (z / 256) end.

Definition be_combine (l : list Z) : Z := fold_left (fun acc b => 256 * acc + b) l 0.
Definition be_split (n : nat) (z : Z) : list Z := rev (le_split n z).

Lemma bytes_ok_app l1 l2 : bytes_ok (l1 ++ l2) <-> bytes_ok l1 /\ bytes_ok l2.
Proof. apply Forall_app. Qed.

Lemma bytes_ok_take n l : bytes_ok l -> bytes_ok (take n l).
Proof. apply Forall_take. Qed.

Lemma bytes_ok_drop n l : bytes_ok l -> bytes_ok (drop n l).
Proof. apply Forall_drop. Qed.

Lemma length_le_split n z : length (le_split n z) = n.
Proof. revert z. induction n; simpl; auto. Qed.

Lemma le_split_ok n z : bytes_ok (le_split n z).
Proof.
  revert z. induction n; intros z; simpl; constructor; [|apply IHn].
  unfold byte_ok, fits. zlia.
Qed.

Lemma le_combine_bound l : bytes_ok l -> 0 <= le_combine l < 256 ^ Z.of_nat (length l).
Proof.
  induction 1 as [|b l Hb _ IH]; [simpl; lia|].
  cbn [le_combine length]. rewrite Nat2Z.inj_succ, Z.pow_succ_r by lia.
  unfold byte_ok, fits in Hb. lia.
Qed.

Lemma le_split_combine l n : bytes_ok l -> length l = n -> le_split n (le_combine l) = l.
Proof.
  intros Hl <-. induction Hl as [|b l Hb _ IH]; [done|].
  cbn [le_combine length le_split]. unfold byte_ok, fits in Hb.
  replace ((b + 256 * le_combine l) / 256) with (le_combine l) by zlia.
  rewrite IH. f_equal. zlia.
Qed.

Lemma le_combine_split n z : 0 <= z -> le_combine (le_split n z) = z mod 256 ^ Z.of_nat n.
Proof.
  revert z. induction n as [|n IH]; intros z Hz; [simpl; by rewrite Z.mod_1_r|].
  cbn [le_split le_combine]. rewrite IH by zlia.
  rewrite Nat2Z.inj_succ, Z.pow_succ_r by lia.
  rewrite Z.rem_mul_r by lia. lia.
Qed.

Lemma le_combine_app l1 l2 :
  le_combine (l1 ++ l2) = le_combine l1 + 256 ^ Z.of_nat (length l1) * le_combine l2.
Proof.
  induction l1 as [|b l1 IH]; cbn [le_combine app length]; [lia|].
  rewrite IH, Nat2Z.inj_succ, Z.pow_succ_r by lia. lia.
Qed.

Lemma be_combine_le l : be_combine l = le_combine (rev l).
Proof.
  induction l as [|b l IH] using rev_ind; [done|].
  unfold be_combine in *. rewrite fold_left_app, rev_app_distr, IH. simpl. lia.
Qed.

Lemma be_combine_app l1 l2 :
  be_combine (l1 ++ l2) = be_combine l1 * 256 ^ Z.of_nat (length l2) + be_combine l2.
Proof.
  rewrite !be_combine_le, rev_app_distr, le_combine_app, length_rev. lia.
Qed.

Lemma be_combine_bound l : bytes_ok l -> 0 <= be_combine l < 256 ^ Z.of_nat (length l).
Proof.
  intros. rewrite be_combine_le, <- length_rev.
  apply le_combine_bound. by apply Forall_rev.
Qed.

Lemma length_be_split n z : length (be_split n z) = n.
Proof. unfold be_split. by rewrite length_rev, length_le_split. Qed.

Lemma be_split_ok n z : bytes_ok (be_split n z).
Proof. apply Forall_rev, le_split_ok. Qed.

Lemma be_split_combine l n : bytes_ok l -> length l = n -> be_split n (be_combine l) = l.
Proof.
  intros. unfold be_split. rewrite be_combine_le, le_split_combine, rev_involutive; auto.
  - by apply Forall_rev.
  - by rewrite length_rev.
Qed.

Lemma be_combine_split n z :
  0 <= z < 256 ^ Z.of_nat n -> be_combine (be_split n z) = z.
Proof.
  intros. unfold be_split. rewrite be_combine_le, rev_involutive, le_combine_split by lia.
  by apply Z.mod_small.
Qed.

#[export] Hint Resolve le_split_ok be_split_ok bytes_ok_take bytes_ok_drop : kk.
#[export] Hint Rewrite length_le_split length_be_split : kk.
