(* ===== verification/IntUtil.v ===== *)
(** * 64-bit and 128-bit arithmetic

    [src/common/int_util.h] (double-word product, long division, rotations and
    byte swaps) and [src/cryptonote_core/check_difficulty.cpp] (the
    proof-of-work test).  The theorems compare each routine with exact
    arithmetic on [Z]. *)

From S2P Require Import Prelude Bytes.

(** ** Double words *)

Definition hi_dword (val : Z) : Z := Z.shiftr val 32.
Definition lo_dword (val : Z) : Z := Z.land val 0xFFFFFFFF.

(** [mul128] returns the pair (product_hi, product_lo). *)
Definition mul128 (multiplier multiplicand : Z) : Z * Z :=
  let a := hi_dword multiplier in
  let b := lo_dword multiplier in
  let c := hi_dword multiplicand in
  let d := lo_dword multiplicand in
  let ac := u64 (a * c) in
  let ad := u64 (a * d) in
  let bc := u64 (b * c) in
  let bd := u64 (b * d) in
  let adbc := u64 (ad + bc) in
  let adbc_carry := if adbc <? ad then 1 else 0 in
  let product_lo := u64 (bd + u64 (Z.shiftl adbc 32)) in
  let product_lo_carry := if product_lo <? bd then 1 else 0 in
  let product_hi :=
    u64 (u64 (u64 (ac + Z.shiftr adbc 32) + u64 (Z.shiftl adbc_carry 32))
         + product_lo_carry) in
  (product_hi, product_lo).

(** [div_with_reminder] returns (quotient, new value of [*remainder]); the
    quotient is a [uint64_t], the remainder is stored in a [uint32_t]. *)
Definition div_with_reminder (dividend divisor remainder : Z) : Z * Z :=
  let dividend := Z.lor dividend (u64 (Z.shiftl remainder 32)) in
  (dividend / divisor, u32 (dividend mod divisor)).

(** [div128_32] returns (quotient_hi, quotient_lo, remainder). *)
Definition div128_32 (dividend_hi dividend_lo divisor : Z) : Z * Z * Z :=
  let '(q3, r3) := div_with_reminder (hi_dword dividend_hi) divisor 0 in
  let '(q2, r2) := div_with_reminder (lo_dword dividend_hi) divisor r3 in
  let quotient_hi := Z.lor (u64 (Z.shiftl q3 32)) q2 in
  let '(q1, r1) := div_with_reminder (hi_dword dividend_lo) divisor r2 in
  let '(q0, r0) := div_with_reminder (lo_dword dividend_lo) divisor r1 in
  let quotient_lo := Z.lor (u64 (Z.shiftl q1 32)) q0 in
  (quotient_hi, quotient_lo, r0).

(** ** Rotations and byte swaps *)

Definition rol32 (x r : Z) : Z :=
  Z.lor (u32 (Z.shiftl x (Z.land r 31))) (Z.shiftr x (Z.land (- r) 31)).

Definition rol64 (x r : Z) : Z :=
  Z.lor (u64 (Z.shiftl x (Z.land r 63))) (Z.shiftr x (Z.land (- r) 63)).

(** The macro [SWAP64]. *)
Definition SWAP64 (x : Z) : Z :=
  Z.lor (Z.lor (Z.lor (Z.lor (Z.lor (Z.lor (Z.lor
    (u64 (Z.shiftl (Z.land x 0x00000000000000ff) 56))
    (u64 (Z.shiftl (Z.land x 0x000000000000ff00) 40)))
    (u64 (Z.shiftl (Z.land x 0x0000000000ff0000) 24)))
    (u64 (Z.shiftl (Z.land x 0x00000000ff000000) 8)))
    (Z.shiftr (Z.land x 0x000000ff00000000) 8))
    (Z.shiftr (Z.land x 0x0000ff0000000000) 24))
    (Z.shiftr (Z.land x 0x00ff000000000000) 40))
    (Z.shiftr (Z.land x 0xff00000000000000) 56).

Definition swap32 (x : Z) : Z :=
  let x := Z.lor (u32 (Z.shiftl (Z.land x 0x00ff00ff) 8))
                 (Z.shiftr (Z.land x 0xff00ff00) 8) in
  Z.lor (u32 (Z.shiftl x 16)) (Z.shiftr x 16).

Definition swap64 (x : Z) : Z :=
  let x := Z.lor (u64 (Z.shiftl (Z.land x 0x00ff00ff00ff00ff) 8))
                 (Z.shiftr (Z.land x 0xff00ff00ff00ff00) 8) in
  let x := Z.lor (u64 (Z.shiftl (Z.land x 0x0000ffff0000ffff) 16))
                 (Z.shiftr (Z.land x 0xffff0000ffff0000) 16) in
  Z.lor (u64 (Z.shiftl x 32)) (Z.shiftr x 32).

(** ** The proof-of-work test *)

(** The [__int128] variant of [mul]: (low, high). *)
Definition mul (a b : Z) : Z * Z :=
  let res := a * b in
  (u64 res, u64 (Z.shiftr res 64)).

Definition cadd (a b : Z) : bool := u64 (a + b) <? a.

Definition cadc (a b : Z) (c : bool) : bool :=
  (u64 (a + b) <? a) || (c && (u64 (a + b) =? UINT64_MAX)).

(** [((const uint64_t * )&hash)[i]] on a little-endian host. *)
Definition hash_word (hash : list Z) (i : nat) : Z :=
  le_combine (take 8 (drop (8 * i) hash)).

Definition check_hash (hash : list Z) (difficulty : Z) : bool :=
  let '(top, high) := mul (hash_word hash 3) difficulty in
  if negb (high =? 0) then false else
  let '(low, cur) := mul (hash_word hash 0) difficulty in
  let '(low, high) := mul (hash_word hash 1) difficulty in
  let carry := cadd cur low in
  let cur := high in
  let '(low, high) := mul (hash_word hash 2) difficulty in
  let carry := cadc cur low carry in
  let carry := cadc high top carry in
  negb carry.

(** ** Lemmas *)

Lemma hi_dword_div v : hi_dword v = v / 2 ^ 32.
Proof. unfold hi_dword. by rewrite Z.shiftr_div_pow2. Qed.

Lemma lo_dword_mod v : lo_dword v = v mod 2 ^ 32.
Proof. unfold lo_dword. change 0xFFFFFFFF with (Z.ones 32). by rewrite Z.land_ones. Qed.

(** Disjoint bit patterns: [or] is addition. *)
Lemma lor_shiftl_add k a b :
  0 <= k -> 0 <= a < 2 ^ k -> Z.lor a (Z.shiftl b k) = a + b * 2 ^ k.
Proof.
  intros Hk Ha. rewrite <- Z.shiftl_mul_pow2 by done.
  assert (Z.land a (Z.shiftl b k) = 0) as E.
  { rewrite <- (Z.mod_small a (2 ^ k)), <- Z.land_ones by done.
    apply Z.bits_inj'. intros n Hn. rewrite !Z.land_spec, Z.bits_0.
    destruct (Z.lt_ge_cases n k).
    - rewrite Z.shiftl_spec_low by done. apply andb_false_r.
    - rewrite Z.ones_spec_high by lia. by rewrite andb_false_r. }
  by rewrite Z.add_nocarry_lxor, Z.lxor_lor.
Qed.

Lemma mul128_aux ac ad bc bd :
  0 <= ac <= (2 ^ 32 - 1) * (2 ^ 32 - 1) -> 0 <= ad <= (2 ^ 32 - 1) * (2 ^ 32 - 1) ->
  0 <= bc <= (2 ^ 32 - 1) * (2 ^ 32 - 1) -> 0 <= bd <= (2 ^ 32 - 1) * (2 ^ 32 - 1) ->
  let adbc := u64 (ad + bc) in
  let lo := u64 (bd + u64 (adbc * 2 ^ 32)) in
  let hi := u64 (u64 (u64 (ac + adbc / 2 ^ 32)
                      + u64 ((if adbc <? ad then 1 else 0) * 2 ^ 32))
                 + (if lo <? bd then 1 else 0)) in
  ac * 2 ^ 64 + (ad + bc) * 2 ^ 32 + bd < 2 ^ 128 ->
  hi * 2 ^ 64 + lo = ac * 2 ^ 64 + (ad + bc) * 2 ^ 32 + bd.
Proof. intros ? ? ? ? adbc lo hi ?. subst adbc lo hi. split_ifs; wordlia. Qed.

Lemma mul128_spec a b :
  fits 64 a -> fits 64 b -> mul128 a b = (a * b / 2 ^ 64, a * b mod 2 ^ 64).
Proof.
  intros Ha Hb. unfold mul128. rewrite !hi_dword_div, !lo_dword_mod.
  rewrite !Z.shiftl_mul_pow2, !Z.shiftr_div_pow2 by lia.
  assert (0 <= a / 2 ^ 32 < 2 ^ 32) by wordlia. assert (0 <= b / 2 ^ 32 < 2 ^ 32) by wordlia.
  assert (0 <= a mod 2 ^ 32 < 2 ^ 32) by wordlia. assert (0 <= b mod 2 ^ 32 < 2 ^ 32) by wordlia.
  assert (a * b < 2 ^ 128) as Hab by (words; nia).
  assert (a = a / 2 ^ 32 * 2 ^ 32 + a mod 2 ^ 32) as Ea by wordlia.
  assert (b = b / 2 ^ 32 * 2 ^ 32 + b mod 2 ^ 32) as Eb by wordlia.
  set (ah := a / 2 ^ 32) in *. set (al := a mod 2 ^ 32) in *.
  set (bh := b / 2 ^ 32) in *. set (bl := b mod 2 ^ 32) in *.
  clearbody ah al bh bl.
  rewrite (wrap_small 64 (ah * bh)), (wrap_small 64 (ah * bl)),
    (wrap_small 64 (al * bh)), (wrap_small 64 (al * bl)) by (words; nia).
  assert (a * b = ah * bh * 2 ^ 64 + (ah * bl + al * bh) * 2 ^ 32 + al * bl) as E
    by (rewrite Ea, Eb; ring).
  rewrite E in Hab |- *.
  pose proof (mul128_aux (ah * bh) (ah * bl) (al * bh) (al * bl)
    ltac:(nia) ltac:(nia) ltac:(nia) ltac:(nia) Hab) as Hm. cbv zeta in Hm.
  f_equal; [eapply Z.div_unique_pos|eapply Z.mod_unique_pos];
    try (apply fits_wrap; lia); rewrite <- Hm; apply Z.add_cancel_r, Z.mul_comm.
Qed.

Lemma div_with_reminder_spec x d r :
  0 < d < 2 ^ 32 -> 0 <= x < 2 ^ 32 -> 0 <= r < d ->
  div_with_reminder x d r = ((r * 2 ^ 32 + x) / d, (r * 2 ^ 32 + x) mod d).
Proof.
  intros Hd Hx Hr. unfold div_with_reminder.
  rewrite (wrap_small 64) by (words; rewrite Z.shiftl_mul_pow2 by lia; lia).
  rewrite lor_shiftl_add by lia. rewrite (Z.add_comm x).
  pose proof (Z.mod_pos_bound (r * 2 ^ 32 + x) d ltac:(lia)).
  rewrite wrap_small by (words; lia). done.
Qed.

Lemma dwords z : fits 64 z ->
  z = z / 2 ^ 32 * 2 ^ 32 + z mod 2 ^ 32 /\ 0 <= z / 2 ^ 32 < 2 ^ 32 /\ 0 <= z mod 2 ^ 32 < 2 ^ 32.
Proof. wordlia. Qed.

Lemma join_dwords a b : 0 <= a < 2 ^ 32 -> 0 <= b < 2 ^ 32 ->
  Z.lor (u64 (Z.shiftl a 32)) b = b + a * 2 ^ 32.
Proof.
  intros. rewrite wrap_small by (rewrite Z.shiftl_mul_pow2 by lia; words; lia).
  rewrite Z.lor_comm. by apply lor_shiftl_add.
Qed.

Lemma long_division_digit r w d :
  0 <= r < d -> 0 <= w < 2 ^ 32 -> 0 <= (r * 2 ^ 32 + w) / d < 2 ^ 32.
Proof. intros. split; [apply Z.div_pos; lia|apply Z.div_lt_upper_bound; lia]. Qed.

Lemma long_division d q3 q2 q1 q0 r3 r2 r1 r0 h1 h0 l1 l0 :
  h1 = d * q3 + r3 -> r3 * 2 ^ 32 + h0 = d * q2 + r2 ->
  r2 * 2 ^ 32 + l1 = d * q1 + r1 -> r1 * 2 ^ 32 + l0 = d * q0 + r0 ->
  (h1 * 2 ^ 32 + h0) * 2 ^ 64 + (l1 * 2 ^ 32 + l0) =
  d * ((q2 + q3 * 2 ^ 32) * 2 ^ 64 + (q0 + q1 * 2 ^ 32)) + r0.
Proof. lia. Qed.

Lemma div128_32_spec hi lo d :
  fits 64 hi -> fits 64 lo -> 0 < d < 2 ^ 32 ->
  let n := hi * 2 ^ 64 + lo in
  let '(qh, ql, r) := div128_32 hi lo d in
  fits 64 qh /\ fits 64 ql /\ qh * 2 ^ 64 + ql = n / d /\ r = n mod d.
Proof.
  intros Hhi Hlo Hd n. unfold div128_32.
  destruct (dwords hi Hhi) as (Ehi & ? & ?), (dwords lo Hlo) as (Elo & ? & ?).
  rewrite !hi_dword_div, !lo_dword_mod.
  rewrite div_with_reminder_spec by (words; lia).
  set (x3 := 0 * 2 ^ 32 + hi / 2 ^ 32).
  pose proof (Z.mod_pos_bound x3 d ltac:(lia)).
  rewrite div_with_reminder_spec by (words; lia).
  set (x2 := x3 mod d * 2 ^ 32 + hi mod 2 ^ 32).
  pose proof (Z.mod_pos_bound x2 d ltac:(lia)).
  rewrite div_with_reminder_spec by (words; lia).
  set (x1 := x2 mod d * 2 ^ 32 + lo / 2 ^ 32).
  pose proof (Z.mod_pos_bound x1 d ltac:(lia)).
  rewrite div_with_reminder_spec by (words; lia).
  set (x0 := x1 mod d * 2 ^ 32 + lo mod 2 ^ 32).
  pose proof (Z.mod_pos_bound x0 d ltac:(lia)).
  assert (0 <= x3 / d < 2 ^ 32) by (apply long_division_digit; lia).
  assert (0 <= x2 / d < 2 ^ 32) by (apply long_division_digit; lia).
  assert (0 <= x1 / d < 2 ^ 32) by (apply long_division_digit; lia).
  assert (0 <= x0 / d < 2 ^ 32) by (apply long_division_digit; lia).
  rewrite !join_dwords by done.
  pose proof (long_division d (x3 / d) (x2 / d) (x1 / d) (x0 / d) (x3 mod d) (x2 mod d)
    (x1 mod d) (x0 mod d) (hi / 2 ^ 32) (hi mod 2 ^ 32) (lo / 2 ^ 32) (lo mod 2 ^ 32)
    ltac:(apply Z.div_mod; lia) ltac:(apply Z.div_mod; lia)
    ltac:(apply Z.div_mod; lia) ltac:(apply Z.div_mod; lia)) as En.
  rewrite <- Ehi, <- Elo in En. fold n in En. clearbody x0 x1 x2 x3. clear Ehi Elo.
  clearbody n. split; [clear En; words; lia|]. split; [clear En; words; lia|].
  split; [eapply Z.div_unique|eapply Z.mod_unique]; try exact En; clear En; lia.
Qed.

Lemma hash_word_fits h i : bytes_ok h -> fits 64 (hash_word h i).
Proof.
  intros H. unfold hash_word.
  pose proof (le_combine_bound (take 8 (drop (8 * i) h))) as B.
  destruct B as [B1 B2]; [auto with kk|]. split; [done|].
  eapply Z.lt_le_trans; [exact B2|]. change (2 ^ 64) with (256 ^ 8).
  apply Z.pow_le_mono_r; [lia|]. rewrite length_take. lia.
Qed.

Lemma hash_words h :
  pod_ok 32 h ->
  le_combine h = hash_word h 0 + 2 ^ 64 * hash_word h 1 + 2 ^ 128 * hash_word h 2
                 + 2 ^ 192 * hash_word h 3.
Proof.
  intros [Hl _]. unfold hash_word.
  do 32 (destruct h as [|? h]; [done|]). destruct h; [|done].
  cbn [take drop Nat.mul Nat.add le_combine]. lia.
Qed.

Lemma cadd_spec a b : fits 64 a -> fits 64 b -> cadd a b = (2 ^ 64 <=? a + b).
Proof.
  intros. unfold cadd. apply eq_bool_prop_intro. rewrite !Is_true_true.
  rewrite Z.ltb_lt, Z.leb_le. wordlia.
Qed.

Lemma cadc_spec a b c :
  fits 64 a -> fits 64 b -> cadc a b c = (2 ^ 64 <=? a + b + Z.b2z c).
Proof.
  intros. unfold cadc. apply eq_bool_prop_intro. rewrite !Is_true_true.
  rewrite orb_true_iff, andb_true_iff, Z.ltb_lt, Z.eqb_eq, Z.leb_le.
  destruct c; simpl; split; intros Hc; [wordlia| |wordlia|];
    (destruct (Z.lt_ge_cases (a + b) (2 ^ 64)); [right|left]; wordlia).
Qed.

(** The four carries of [check_hash] on exact products. *)
Lemma check_hash_carries p0 p1 p2 p3 :
  0 <= p0 < 2 ^ 128 -> 0 <= p1 < 2 ^ 128 -> 0 <= p2 < 2 ^ 128 -> 0 <= p3 < 2 ^ 64 ->
  cadc (p2 / 2 ^ 64) p3
    (cadc (p1 / 2 ^ 64) (p2 mod 2 ^ 64) (cadd (p0 / 2 ^ 64) (p1 mod 2 ^ 64))) = false <->
  p0 + 2 ^ 64 * p1 + 2 ^ 128 * p2 + 2 ^ 192 * p3 < 2 ^ 256.
Proof.
  intros H0 H1 H2 H3. rewrite !cadc_spec, cadd_spec by wordlia.
  destruct (2 ^ 64 <=? p0 / 2 ^ 64 + p1 mod 2 ^ 64) eqn:B1; simpl;
  (destruct (2 ^ 64 <=? p1 / 2 ^ 64 + p2 mod 2 ^ 64 + _) eqn:B2; simpl);
  rewrite Z.leb_gt; bool_to_prop; zlia.
Qed.

Lemma mul_spec a b : fits 64 a -> fits 64 b -> mul a b = (a * b mod 2 ^ 64, a * b / 2 ^ 64).
Proof.
  intros. unfold mul. rewrite Z.shiftr_div_pow2 by lia. f_equal.
  apply wrap_small. words. split; [apply Z.div_pos; nia|].
  apply Z.div_lt_upper_bound; nia.
Qed.

(** ** Properties *)

(** [mul128] computes the exact 128-bit product of two 64-bit words: the pair it
    returns consists of 64-bit words and represents [a * b]. *)
Theorem mul128_exact a b :
  fits 64 a -> fits 64 b ->
  let '(hi, lo) := mul128 a b in
  fits 64 hi /\ fits 64 lo /\ hi * 2 ^ 64 + lo = a * b.
Proof.
  intros Ha Hb. rewrite mul128_spec by done.
  assert (0 <= a * b < 2 ^ 128) by (words; nia). words. zlia.
Qed.

Lemma mul128_exact_witness :
  let '(hi, lo) := mul128 (2 ^ 64 - 1) (2 ^ 64 - 1) in
  fits 64 hi /\ fits 64 lo /\ hi * 2 ^ 64 + lo = (2 ^ 64 - 1) * (2 ^ 64 - 1).
Proof. apply (mul128_exact (2 ^ 64 - 1) (2 ^ 64 - 1)); vm_compute; split; congruence. Defined.

(** the long division [div128_32] of a 128-bit number by a non-zero 32-bit
    divisor returns the exact quotient, as two 64-bit words, and the exact
    remainder. *)
Theorem div128_32_exact hi lo d :
  fits 64 hi -> fits 64 lo -> 0 < d < 2 ^ 32 ->
  let '(qh, ql, r) := div128_32 hi lo d in
  fits 64 qh /\ fits 64 ql /\ 0 <= r < d /\
  hi * 2 ^ 64 + lo = (qh * 2 ^ 64 + ql) * d + r.
Proof.
  intros Hhi Hlo Hd. pose proof (div128_32_spec hi lo d Hhi Hlo Hd) as H.
  cbv zeta in H. destruct (div128_32 hi lo d) as [[qh ql] r].
  destruct H as (? & ? & E & ->). rewrite E.
  split_and!; try done; try apply Z.mod_pos_bound; try lia.
  rewrite (Z.mul_comm (_ / d)). apply Z.div_mod. lia.
Qed.

Lemma div128_32_exact_witness :
  let '(qh, ql, r) := div128_32 123456789 987654321 1000003 in
  fits 64 qh /\ fits 64 ql /\ 0 <= r < 1000003 /\
  123456789 * 2 ^ 64 + 987654321 = (qh * 2 ^ 64 + ql) * 1000003 + r.
Proof.
  apply (div128_32_exact 123456789 987654321 1000003);
    vm_compute; split; congruence.
Defined.

Lemma check_hash_spec hash difficulty :
  pod_ok 32 hash -> fits 64 difficulty ->
  check_hash hash difficulty = true <-> le_combine hash * difficulty < 2 ^ 256.
Proof.
  intros Hh Hd. rewrite hash_words by done. destruct Hh as [_ Hh].
  unfold check_hash.
  pose proof (hash_word_fits hash 0 Hh). pose proof (hash_word_fits hash 1 Hh).
  pose proof (hash_word_fits hash 2 Hh). pose proof (hash_word_fits hash 3 Hh).
  rewrite !mul_spec by done.
  set (w0 := hash_word hash 0) in *. set (w1 := hash_word hash 1) in *.
  set (w2 := hash_word hash 2) in *. set (w3 := hash_word hash 3) in *.
  assert (0 <= w0 * difficulty < 2 ^ 128) by (words; nia).
  assert (0 <= w1 * difficulty < 2 ^ 128) by (words; nia).
  assert (0 <= w2 * difficulty < 2 ^ 128) by (words; nia).
  assert (0 <= w3 * difficulty < 2 ^ 128) by (words; nia).
  rewrite !Z.mul_add_distr_r, <- !Z.mul_assoc.
  destruct (w3 * difficulty / 2 ^ 64 =? 0) eqn:E; simpl; bool_to_prop.
  - assert (w3 * difficulty < 2 ^ 64) by zlia.
    rewrite negb_true_iff, (Z.mod_small (w3 * difficulty)) by lia.
    apply check_hash_carries; lia.
  - split; [done|]. zlia.
Qed.

(** C24: the proof-of-work test accepts a 256-bit hash for a difficulty exactly
    when [hash * difficulty < 2^256], the hash read as a little-endian number:
    the four partial products and their carries lose nothing. *)
Theorem check_hash_correct hash difficulty :
  pod_ok 32 hash -> fits 64 difficulty ->
  check_hash hash difficulty = true <-> le_combine hash * difficulty < 2 ^ 256.
Proof. intros. by apply check_hash_spec. Qed.

Lemma check_hash_correct_witness :
  check_hash (replicate 31 0 ++ [1]) 255 = true /\
  (check_hash (replicate 31 0 ++ [1]) 255 = true <->
   le_combine (replicate 31 0 ++ [1]) * 255 < 2 ^ 256).
Proof.
  split; [reflexivity|].
  apply (check_hash_correct (replicate 31 0 ++ [1]) 255).
  - apply (bool_decide_unpack _). vm_compute. exact I.
  - vm_compute. split; congruence.
Defined.
