(* ===== verification/StringTools.v ===== *)
(** * Hexadecimal text

    [src/common/string_tools.cpp] and [string_tools.h]: the conversions
    between bytes and hexadecimal text behind hashes, keys and payment ids in
    configuration files and requests.  A [std::string] is the list of its
    character codes; [str] turns a literal into one. *)

From Stdlib Require Import String Ascii.
From S2P Require Import Prelude Bytes.
#[local] Open Scope list_scope.
#[local] Open Scope Z_scope.

Definition str (s : string) : list Z :=
  map (fun c => Z.of_nat (nat_of_ascii c)) (list_ascii_of_string s).

(** The table of 256 entries, row by row. *)
Definition characterValues : list Z :=
  replicate 48 0xff ++
  [0; 1; 2; 3; 4; 5; 6; 7; 8; 9] ++ replicate 6 0xff ++
  [0xff; 0x0a; 0x0b; 0x0c; 0x0d; 0x0e; 0x0f] ++ replicate 9 0xff ++
  replicate 16 0xff ++
  [0xff; 0x0a; 0x0b; 0x0c; 0x0d; 0x0e; 0x0f] ++ replicate 9 0xff ++
  replicate 144 0xff.

Definition characterValue (c : Z) : Z := characterValues !!! Z.to_nat c.

(** [fromHex(char, uint8_t &)]; [fromHex(char)] throws where this is [None]. *)
Definition fromHex_char (c : Z) : option Z :=
  if 0x0f <? characterValue c then None else Some (characterValue c).

(** One turn of the loops of the string versions: the characters at [2 i] and
    [2 i + 1] give byte [i]. *)
Definition fromHex_byte (text : list Z) (i : nat) : option Z :=
  value1 ← fromHex_char (text !!! (2 * i)%nat);
  value2 ← fromHex_char (text !!! (2 * i + 1)%nat);
  Some (u8 (Z.lor (Z.shiftl value1 4) value2)).

(** [fromHex(const std::string &)]: [None] is the exception. *)
Definition fromHex (text : list Z) : option (list Z) :=
  if Nat.odd (length text) then None
  else mapM (fromHex_byte text) (seq 0 (length text / 2)).

(** [fromHex(const std::string &, void *, uint64_t, uint64_t &)]: the bytes
    written to the buffer, whose number is [size]. *)
Definition fromHex_buffer (text : list Z) (bufferSize : Z) : option (list Z) :=
  if Nat.odd (length text) then None
  else if bufferSize <? Z.of_nat (length text / 2) then None
  else mapM (fromHex_byte text) (seq 0 (length text / 2)).

(** The loop of [fromHex(const std::string &, std::vector<uint8_t> &)], which
    leaves the bytes before a bad character appended to [data]. *)
Fixpoint fromHex_append_loop (text : list Z) (idx : list nat) (data : list Z) : bool * list Z :=
  match idx with
  | [] => (true, data)
  | i :: rest =>
      match fromHex_byte text i with
      | None => (false, data)
      | Some b => fromHex_append_loop text rest (data ++ [b])
      end
  end.

Definition fromHex_append (text data : list Z) : bool * list Z :=
  if Nat.odd (length text) then (false, data)
  else fromHex_append_loop text (seq 0 (length text / 2)) data.

Definition podFromHex (sizeof : nat) (text : list Z) : option (list Z) :=
  match fromHex_buffer text (Z.of_nat sizeof) with
  | Some val => if (length val =? sizeof)%nat then Some val else None
  | None => None
  end.

Definition hex_digit (v : Z) : Z := str "0123456789abcdef" !!! Z.to_nat v.

Definition toHex (data : list Z) : list Z :=
  concat (map (fun b => [hex_digit (Z.shiftr b 4); hex_digit (Z.land b 15)]) data).

Definition podToHex (s : list Z) : list Z := toHex s.

(** Lower-case form of a character, the one [toHex] writes. *)
Definition lower (c : Z) : Z := if (65 <=? c) && (c <=? 70) then c + 32 else c.

Lemma fromHex_char_digit v : 0 <= v < 16 -> fromHex_char (hex_digit v) = Some v.
Proof.
  intros Hv.
  assert (Forall (fun v => fromHex_char (hex_digit v) = Some v) (seqZ 0 16)) as H
    by (vm_compute; repeat constructor).
  rewrite Forall_forall in H. apply H. apply elem_of_seqZ. lia.
Qed.

Lemma hex_digit_fromHex_char c v :
  byte_ok c -> fromHex_char c = Some v -> 0 <= v < 16 /\ hex_digit v = lower c.
Proof.
  intros Hc.
  assert (Forall (fun c => match fromHex_char c with
    | Some v => bool_decide (0 <= v < 16 /\ hex_digit v = lower c) | None => true end = true)
    (seqZ 0 256)) as H.
  { apply (bool_decide_unpack _). vm_compute. exact I. }
  rewrite Forall_forall in H.
  specialize (H c ltac:(apply elem_of_seqZ; unfold byte_ok in Hc; wordlia)).
  intros E. rewrite E in H. by apply bool_decide_eq_true in H.
Qed.

(** The two nibbles of a byte, and the byte of two nibbles. *)
Lemma nibbles b : byte_ok b ->
  0 <= Z.shiftr b 4 < 16 /\ 0 <= Z.land b 15 < 16 /\
  u8 (Z.lor (Z.shiftl (Z.shiftr b 4) 4) (Z.land b 15)) = b.
Proof.
  intros Hb.
  assert (Forall (fun b => 0 <= Z.shiftr b 4 < 16 /\ 0 <= Z.land b 15 < 16 /\
    u8 (Z.lor (Z.shiftl (Z.shiftr b 4) 4) (Z.land b 15)) = b) (seqZ 0 256)) as H.
  { apply (bool_decide_unpack _). vm_compute. exact I. }
  rewrite Forall_forall in H. apply H, elem_of_seqZ. unfold byte_ok in Hb; wordlia.
Qed.

Lemma nibbles_join x y : 0 <= x < 16 -> 0 <= y < 16 ->
  let b := u8 (Z.lor (Z.shiftl x 4) y) in
  byte_ok b /\ Z.shiftr b 4 = x /\ Z.land b 15 = y.
Proof.
  intros Hx Hy.
  assert (Forall (fun x => Forall (fun y => byte_ok (u8 (Z.lor (Z.shiftl x 4) y)) /\
    Z.shiftr (u8 (Z.lor (Z.shiftl x 4) y)) 4 = x /\
    Z.land (u8 (Z.lor (Z.shiftl x 4) y)) 15 = y) (seqZ 0 16)) (seqZ 0 16)) as H.
  { apply (bool_decide_unpack _). vm_compute. exact I. }
  rewrite Forall_forall in H. specialize (H x ltac:(apply elem_of_seqZ; lia)).
  rewrite Forall_forall in H. apply H, elem_of_seqZ. lia.
Qed.

Lemma length_toHex data : length (toHex data) = (2 * length data)%nat.
Proof. unfold toHex. induction data as [|b data IH]; cbn [map concat length app]; [done|]. lia. Qed.

(** Looking past the two characters of the first byte. *)
Lemma fromHex_byte_skip c1 c2 text i :
  fromHex_byte (c1 :: c2 :: text) (S i) = fromHex_byte text i.
Proof.
  unfold fromHex_byte.
  replace (2 * S i)%nat with (S (S (2 * i))) by lia.
  replace (S (S (2 * i)) + 1)%nat with (S (S (2 * i + 1))) by lia. done.
Qed.

Lemma fromHex_cons c1 c2 text :
  mapM (fromHex_byte (c1 :: c2 :: text)) (seq 0 (S (length text / 2))) =
  (b ← fromHex_byte (c1 :: c2 :: text) 0;
   bs ← mapM (fromHex_byte text) (seq 0 (length text / 2)); Some (b :: bs)).
Proof.
  cbn [seq mapM]. rewrite <- fmap_S_seq.
  destruct (fromHex_byte _ 0) as [b|]; [|done]. cbn.
  assert (forall l, mapM (fromHex_byte (c1 :: c2 :: text)) (S <$> l) = mapM (fromHex_byte text) l)
    as ->; [|done].
  intros l. induction l as [|i l IH]; [done|]. cbn. by rewrite fromHex_byte_skip, IH.
Qed.

Lemma half_SS n : (S (S n) / 2 = S (n / 2))%nat.
Proof. nlia. Qed.

Lemma mapM_toHex data : bytes_ok data ->
  mapM (fromHex_byte (toHex data)) (seq 0 (length (toHex data) / 2)) = Some data.
Proof.
  induction 1 as [|b data Hb Hd IH]; [done|].
  unfold toHex in *. cbn [map concat app length]. rewrite half_SS.
  set (text := concat _) in *.
  rewrite fromHex_cons, IH. unfold fromHex_byte.
  destruct (nibbles b Hb) as (H1 & H2 & H3). cbn -[hex_digit Z.lor Z.shiftl Z.land].
  rewrite !fromHex_char_digit by done. cbn -[Z.lor Z.shiftl Z.land]. by rewrite H3.
Qed.

Lemma toHex_mapM text data : bytes_ok text -> Nat.odd (length text) = false ->
  mapM (fromHex_byte text) (seq 0 (length text / 2)) = Some data ->
  bytes_ok data /\ toHex data = map lower text /\ length data = (length text / 2)%nat.
Proof.
  remember (length text) as n eqn:En. revert text data En.
  induction n as [[|[|n]] IH] using lt_wf_ind; intros [|c1 [|c2 text]] data En Ht Ho; try done.
  { cbn. intros [= <-]. repeat split; constructor. }
  cbn in En. injection En as En. rewrite half_SS. subst n. rewrite fromHex_cons.
  apply Forall_cons in Ht as [H1 Ht]. apply Forall_cons in Ht as [H2 Ht].
  change (fromHex_byte (c1 :: c2 :: text) 0) with
    (value1 ← fromHex_char c1; value2 ← fromHex_char c2;
     Some (u8 (Z.lor (Z.shiftl value1 4) value2))).
  destruct (fromHex_char c1) as [v1|] eqn:E1; [|discriminate 1].
  destruct (fromHex_char c2) as [v2|] eqn:E2; [|discriminate 1].
  destruct (mapM _ _) as [bs|] eqn:E; [|discriminate 1]. intros [= <-].
  destruct (IH (length text) ltac:(lia) text bs eq_refl Ht Ho E) as (Hok & Hx & Hl).
  apply hex_digit_fromHex_char in E1 as [R1 L1]; [|done].
  apply hex_digit_fromHex_char in E2 as [R2 L2]; [|done].
  destruct (nibbles_join v1 v2 R1 R2) as (Hb & N1 & N2).
  split; [by constructor|]. cbn [length map]. split; [|by rewrite Hl].
  unfold toHex in *. cbn [map concat app]. by rewrite Hx, N1, N2, L1, L2.
Qed.

Lemma fromHex_toHex data : bytes_ok data -> fromHex (toHex data) = Some data.
Proof.
  intros H. unfold fromHex. rewrite mapM_toHex by done.
  rewrite length_toHex, Nat.odd_mul. done.
Qed.

Lemma podFromHex_toHex n p : pod_ok n p -> podFromHex n (podToHex p) = Some p.
Proof.
  intros [Hl Hp]. unfold podFromHex, podToHex, fromHex_buffer.
  rewrite mapM_toHex by done. rewrite length_toHex, Hl.
  replace (Nat.odd (2 * n)) with false by (by rewrite Nat.odd_mul).
  replace (2 * n / 2)%nat with n by nlia. rewrite Z.ltb_irrefl. by rewrite Hl, Nat.eqb_refl.
Qed.

Lemma fromHex_append_spec text data :
  fromHex_append text data =
    match fromHex text with
    | Some bytes => (true, data ++ bytes)
    | None => (false, (fromHex_append text data).2)
    end.
Proof.
  unfold fromHex_append, fromHex. destruct (Nat.odd _); [done|].
  generalize (seq 0 (length text / 2)) as idx. intros idx. revert data.
  induction idx as [|i idx IH]; intros data; cbn; [by rewrite app_nil_r|].
  destruct (fromHex_byte text i) as [b|]; [|done]. cbn. rewrite IH.
  destruct (mapM _ idx); cbn; [|done]. by rewrite <- app_assoc.
Qed.

(** a hash or key written by [podToHex] is
    read back by [podFromHex]; conversely every text that [podFromHex] accepts
    as a value of [n] bytes consists of exactly [2 n] hexadecimal digits and
    is, up to the case of its letters, the text [podToHex] writes for the
    value: no two values share a text and no shorter or longer text passes. *)
Theorem hex_roundtrip n :
  (forall p, pod_ok n p -> podFromHex n (podToHex p) = Some p) /\
  (forall text p, bytes_ok text -> podFromHex n text = Some p ->
     pod_ok n p /\ podToHex p = map lower text /\ length text = (2 * n)%nat).
Proof.
  split; [apply podFromHex_toHex|]. intros text p Ht. unfold podFromHex, fromHex_buffer.
  destruct (Nat.odd (length text)) eqn:Ho; [done|].
  destruct (_ <? _); [done|].
  destruct (mapM _ _) as [v|] eqn:E; [|done].
  destruct (_ =? _)%nat eqn:El; [|done]. intros [= <-]. apply Nat.eqb_eq in El.
  apply toHex_mapM in E as (Hv & Hx & Hl); [|done..].
  repeat split; try done.
  apply (f_equal length) in Hx. rewrite length_toHex, length_map in Hx. lia.
Qed.

Lemma hex_roundtrip_witness :
  podFromHex 4 (str "00fFA97e") = Some [0x00; 0xff; 0xa9; 0x7e] /\
  podToHex [0x00; 0xff; 0xa9; 0x7e] = str "00ffa97e" /\
  podFromHex 4 (podToHex [0x00; 0xff; 0xa9; 0x7e]) = Some [0x00; 0xff; 0xa9; 0x7e].
Proof.
  split; [reflexivity|]. split.
  - apply (proj2 (hex_roundtrip 4) (str "00fFA97e") [0x00; 0xff; 0xa9; 0x7e]);
      [apply (bool_decide_unpack _); vm_compute; exact I|reflexivity].
  - apply (proj1 (hex_roundtrip 4)). apply (bool_decide_unpack _). vm_compute. exact I.
Defined.

(** ** Splitting and trimming *)

(** [std::string::find(delimiter, offset)]: [None] is [npos]. *)
Definition find_from (delimiter : Z) (text : list Z) (offset : nat) : option nat :=
  match list_find (delimiter =.) (drop offset text) with
  | Some (i, _) => Some (offset + i)%nat
  | None => None
  end.

(** [std::string::substr(pos, count)]; [None] is [std::out_of_range]. *)
Definition substr (text : list Z) (pos count : nat) : option (list Z) :=
  if (length text <? pos)%nat then None else Some (take count (drop pos text)).

(** [extract(std::string &, char)]: the piece and the remaining text. *)
Definition extract (text : list Z) (delimiter : Z) : list Z * list Z :=
  match find_from delimiter text 0 with
  | Some delimiterPosition => (take delimiterPosition text, drop (delimiterPosition + 1) text)
  | None => (text, [])
  end.

(** [extract(const std::string &, char, uint64_t &)]: the piece and the new
    offset. *)
Definition extract_offset (text : list Z) (delimiter : Z) (offset : nat) : option (list Z) * nat :=
  match find_from delimiter text offset with
  | Some delimiterPosition =>
      let offset := (delimiterPosition + 1)%nat in (substr text offset delimiterPosition, offset)
  | None => let offset := length text in (substr text offset (length text), offset)
  end.

Definition whitespace (c : Z) : bool := bool_decide (c ∈ [32; 9; 10; 13; 12; 11]).

(** [::tolower] in the C locale. *)
Definition tolower (x : Z) : Z := if (65 <=? x) && (x <=? 90) then x + 32 else x.

(** [str.erase(0, str.find_first_not_of(whitespace))]; [npos] erases all. *)
Definition leftTrim (text : list Z) : list Z :=
  match list_find (fun c => whitespace c = false) text with
  | Some (i, _) => drop i text
  | None => []
  end.

(** [str.erase(str.find_last_not_of(whitespace) + 1)]; [npos + 1] is 0. *)
Definition rightTrim (text : list Z) : list Z :=
  match list_find (fun c => whitespace c = false) (rev text) with
  | Some (i, _) => take (length text - i) text
  | None => []
  end.

Definition trim (text : list Z) : list Z := leftTrim (rightTrim text).

(** The piece and the rest make up the text, and the piece has no delimiter. *)
Lemma extract_spec text d sub rest :
  extract text d = (sub, rest) ->
  (d ∉ sub) /\ (text = sub ++ d :: rest \/ (text = sub /\ rest = [])).
Proof.
  unfold extract, find_from. rewrite drop_0.
  destruct (list_find _ text) as [[i c]|] eqn:E; intros [= <- <-].
  - apply list_find_Some in E as (Hi & <- & Hb). split.
    + intros Hin. apply list_elem_of_lookup in Hin as [j Hj].
      pose proof (lookup_lt_Some _ _ _ Hj) as Hl. rewrite length_take in Hl.
      rewrite lookup_take_lt in Hj by lia. by apply (Hb j d Hj); [lia|].
    + left. cbn [Nat.add]. rewrite Nat.add_1_r. by rewrite take_drop_middle.
  - apply list_find_None in E. split; [|by right].
    intros Hin. by apply (proj1 (Forall_forall _ _) E d Hin).
Qed.

(** The version with an offset returns text after the delimiter instead of
    the piece before it: asked for the first field of ["7,12"], it returns
    the beginning of the second. *)
Lemma extract_offset_wrong_piece :
  extract_offset (str "7,12") 44 0 = (Some (str "1"), 2%nat) /\
  extract (str "7,12") 44 = (str "7", str "12").
Proof. split; reflexivity. Qed.

Lemma leftTrim_spec text :
  exists ws, text = ws ++ leftTrim text /\ Forall (fun c => whitespace c = true) ws /\
    forall c, head (leftTrim text) = Some c -> whitespace c = false.
Proof.
  unfold leftTrim. destruct (list_find _ text) as [[i c]|] eqn:E.
  - apply list_find_Some in E as (Hi & Hc & Hb). exists (take i text).
    rewrite take_drop. split; [done|]. split.
    + apply Forall_lookup. intros j x Hj.
      pose proof (lookup_lt_Some _ _ _ Hj) as Hl. rewrite length_take in Hl.
      rewrite lookup_take_lt in Hj by lia. apply not_false_is_true, (Hb j x Hj). lia.
    + intros x. rewrite head_lookup, lookup_drop, Nat.add_0_r, Hi. by intros [= <-].
  - apply list_find_None in E. exists text. rewrite app_nil_r.
    repeat split; [|by intros]. eapply Forall_impl; [exact E|]. intros x. apply not_false_is_true.
Qed.

Lemma rightTrim_rev text : rightTrim text = rev (leftTrim (rev text)).
Proof.
  unfold rightTrim, leftTrim. destruct (list_find _ _) as [[i c]|] eqn:E; [|done].
  change drop with (@skipn Z). change take with (@firstn Z).
  by rewrite skipn_rev, rev_involutive.
Qed.
