(* ===== verification/Errors.v ===== *)
(** * Error codes

    [enum ErrorCode] of src/src/errors/errors.h, which the wallet functions
    return.  An [Error] also carries a text; the texts are not modelled. *)

From S2P Require Import Prelude.

Inductive ErrorCode :=
  | SUCCESS | FILENAME_NON_EXISTENT | INVALID_WALLET_FILENAME | NOT_A_WALLET_FILE
  | WALLET_FILE_CORRUPTED | WRONG_PASSWORD | UNSUPPORTED_WALLET_FILE_FORMAT_VERSION
  | INVALID_MNEMONIC | WALLET_FILE_ALREADY_EXISTS | WILL_OVERFLOW | ADDRESS_NOT_IN_WALLET
  | NOT_ENOUGH_BALANCE | ADDRESS_WRONG_LENGTH | ADDRESS_WRONG_PREFIX | ADDRESS_NOT_BASE58
  | ADDRESS_NOT_VALID | INTEGRATED_ADDRESS_PAYMENT_ID_INVALID | FEE_TOO_SMALL
  | NO_DESTINATIONS_GIVEN | AMOUNT_IS_ZERO | FAILED_TO_CREATE_RING_SIGNATURE | MIXIN_TOO_SMALL
  | MIXIN_TOO_BIG | PAYMENT_ID_WRONG_LENGTH | PAYMENT_ID_INVALID | ADDRESS_IS_INTEGRATED
  | CONFLICTING_PAYMENT_IDS | CANT_GET_FAKE_OUTPUTS | NOT_ENOUGH_FAKE_OUTPUTS
  | INVALID_GENERATED_KEYIMAGE | DAEMON_OFFLINE | DAEMON_ERROR
  | TOO_MANY_INPUTS_TO_FIT_IN_BLOCK | MNEMONIC_INVALID_WORD | MNEMONIC_WRONG_LENGTH
  | MNEMONIC_INVALID_CHECKSUM | FULLY_OPTIMIZED | FUSION_MIXIN_TOO_LARGE
  | SUBWALLET_ALREADY_EXISTS | ILLEGAL_VIEW_WALLET_OPERATION
  | ILLEGAL_NON_VIEW_WALLET_OPERATION | KEYS_NOT_DETERMINISTIC | CANNOT_DELETE_PRIMARY_ADDRESS
  | TX_PRIVATE_KEY_NOT_FOUND | AMOUNTS_NOT_PRETTY | UNEXPECTED_FEE | NEGATIVE_VALUE_GIVEN
  | INVALID_KEY_FORMAT | HASH_WRONG_LENGTH | HASH_INVALID | NON_INTEGER_GIVEN.

#[global] Instance ErrorCode_eq_dec : EqDecision ErrorCode.
Proof. solve_decision. Defined.
