(* ===== verification/Mnemonics.v ===== *)
(** * Mnemonic seeds

    src/src/mnemonics: a private key as 24 words of a list of 1626 and a checksum
    word, and back ([mnemonics.cpp]), with the CRC of [crc32.h].  A word is
    the list of its character codes.  The theorems: every key is read back from its words, a
    sequence of words of the list that is accepted is the one its key is
    written as, and the table-driven CRC is the bitwise one. *)

From Stdlib Require Import String.
From stdpp Require Import base list.
From S2P Require Import Prelude Bytes StringTools Errors WordList.
#[local] Open Scope list_scope.
#[local] Open Scope Z_scope.

(** [WordList::English]. *)
Definition words_list : list (list Z) := str <$> English.

(** [WordList::English.size()] *)
Definition wlLen : Z := 1626.

(** ** [CRC32::crc32] *)

Definition table : list Z := [
  0; 1996959894; 3993919788; 2567524794; 124634137; 1886057615; 3915621685; 2657392035;
  249268274; 2044508324; 3772115230; 2547177864; 162941995; 2125561021; 3887607047; 2428444049;
  498536548; 1789927666; 4089016648; 2227061214; 450548861; 1843258603; 4107580753; 2211677639;
  325883990; 1684777152; 4251122042; 2321926636; 335633487; 1661365465; 4195302755; 2366115317;
  997073096; 1281953886; 3579855332; 2724688242; 1006888145; 1258607687; 3524101629; 2768942443;
  901097722; 1119000684; 3686517206; 2898065728; 853044451; 1172266101; 3705015759; 2882616665;
  651767980; 1373503546; 3369554304; 3218104598; 565507253; 1454621731; 3485111705; 3099436303;
  671266974; 1594198024; 3322730930; 2970347812; 795835527; 1483230225; 3244367275; 3060149565;
  1994146192; 31158534; 2563907772; 4023717930; 1907459465; 112637215; 2680153253; 3904427059;
  2013776290; 251722036; 2517215374; 3775830040; 2137656763; 141376813; 2439277719; 3865271297;
  1802195444; 476864866; 2238001368; 4066508878; 1812370925; 453092731; 2181625025; 4111451223;
  1706088902; 314042704; 2344532202; 4240017532; 1658658271; 366619977; 2362670323; 4224994405;
  1303535960; 984961486; 2747007092; 3569037538; 1256170817; 1037604311; 2765210733; 3554079995;
  1131014506; 879679996; 2909243462; 3663771856; 1141124467; 855842277; 2852801631; 3708648649;
  1342533948; 654459306; 3188396048; 3373015174; 1466479909; 544179635; 3110523913; 3462522015;
  1591671054; 702138776; 2966460450; 3352799412; 1504918807; 783551873; 3082640443; 3233442989;
  3988292384; 2596254646; 62317068; 1957810842; 3939845945; 2647816111; 81470997; 1943803523;
  3814918930; 2489596804; 225274430; 2053790376; 3826175755; 2466906013; 167816743; 2097651377;
  4027552580; 2265490386; 503444072; 1762050814; 4150417245; 2154129355; 426522225; 1852507879;
  4275313526; 2312317920; 282753626; 1742555852; 4189708143; 2394877945; 397917763; 1622183637;
  3604390888; 2714866558; 953729732; 1340076626; 3518719985; 2797360999; 1068828381; 1219638859;
  3624741850; 2936675148; 906185462; 1090812512; 3747672003; 2825379669; 829329135; 1181335161;
  3412177804; 3160834842; 628085408; 1382605366; 3423369109; 3138078467; 570562233; 1426400815;
  3317316542; 2998733608; 733239954; 1555261956; 3268935591; 3050360625; 752459403; 1541320221;
  2607071920; 3965973030; 1969922972; 40735498; 2617837225; 3943577151; 1913087877; 83908371;
  2512341634; 3803740692; 2075208622; 213261112; 2463272603; 3855990285; 2094854071; 198958881;
  2262029012; 4057260610; 1759359992; 534414190; 2176718541; 4139329115; 1873836001; 414664567;
  2282248934; 4279200368; 1711684554; 285281116; 2405801727; 4167216745; 1634467795; 376229701;
  2685067896; 3608007406; 1308918612; 956543938; 2808555105; 3495958263; 1231636301; 1047427035;
  2932959818; 3654703836; 1088359270; 936918000; 2847714899; 3736837829; 1202900863; 817233897;
  3183342108; 3401237130; 1404277552; 615818150; 3134207493; 3453421203; 1423857449; 601450431;
  3009837614; 3294710456; 1567103746; 711928724; 3020668471; 3272380065; 1510334235; 755167117
].

(** One round of the loop over the input. *)
Definition crc_step (crc c : Z) : Z :=
  let byteIndex := Z.land (Z.lxor c crc) 255 in
  Z.lxor (Z.shiftr crc 8) (table !!! Z.to_nat byteIndex).

Definition crc32 (input : list Z) : Z :=
  Z.lxor (fold_left crc_step input 4294967295) 4294967295.

(** ** Words *)

(** [stream >> word] until the stream ends. *)
Fixpoint split_words (text word : list Z) : list (list Z) :=
  match text with
  | [] => match word with [] => [] | _ => [word] end
  | c :: rest =>
      if whitespace c
      then match word with [] => split_words rest [] | _ => word :: split_words rest [] end
      else split_words rest (word ++ [c])
  end.

(** [words[hash % words.size()]]; without words the division fails: [None]. *)
Definition GetChecksumWord (words : list (list Z)) : option (list Z) :=
  match words with
  | [] => None
  | _ =>
      let trimmed := concat (take 3 <$> words) in
      let hash := crc32 trimmed in
      words !! Z.to_nat (hash mod Z.of_nat (length words))
  end.

Definition HasValidChecksum (words : list (list Z)) : bool :=
  let wordsNoChecksum := take (length words - 1) words in
  bool_decide (words !! (length words - 1)%nat = GetChecksumWord wordsNoChecksum).

(** [std::distance(begin, std::find(begin, end, word))]. *)
Definition word_index (word : list Z) : Z :=
  match list_find (fun w => w = word) words_list with
  | Some (i, _) => Z.of_nat i
  | None => wlLen
  end.

Definition GetWordIndexes (words : list (list Z)) : list Z := word_index <$> words.

(** [val] of three words. *)
Definition triple_value (w1 w2 w3 : Z) : Z :=
  u32 (u64 (w1 + u64 (wlLen * (u64 (u64 (wlLen - w1) + w2) mod wlLen))
            + u64 (u64 (wlLen * wlLen) * (u64 (u64 (wlLen - w2) + w3) mod wlLen)))).

(** The loop over the words, three at a time; the checksum word is left. *)
Fixpoint decode_words (wordIndexes : list Z) : option (list Z) :=
  match wordIndexes with
  | w1 :: w2 :: w3 :: rest =>
      let val := triple_value w1 w2 w3 in
      if negb (val mod wlLen =? w1) then None
      else data ← decode_words rest; Some (le_split 4 val ++ data)
  | _ => Some []
  end.

Definition MnemonicToPrivateKey_words (words : list (list Z)) : ErrorCode + list Z :=
  if negb (length words =? 25)%nat then inl MNEMONIC_WRONG_LENGTH
  else if negb (forallb (fun word => bool_decide ((tolower <$> word) ∈ words_list)) words)
  then inl MNEMONIC_INVALID_WORD
  else if negb (HasValidChecksum words) then inl MNEMONIC_INVALID_CHECKSUM
  else match decode_words (GetWordIndexes words) with
       | None => inl INVALID_MNEMONIC
       | Some data => inr data
       end.

Definition MnemonicToPrivateKey (words : list Z) : ErrorCode + list Z :=
  MnemonicToPrivateKey_words (split_words words []).

(** The loop over the key, four bytes at a time. *)
Fixpoint key_words (privateKey : list Z) : list (list Z) :=
  match privateKey with
  | b0 :: b1 :: b2 :: b3 :: rest =>
      let val := le_combine [b0; b1; b2; b3] in
      let w1 := val mod wlLen in
      let w2 := u32 (val / wlLen + w1) mod wlLen in
      let w3 := u32 (val / wlLen / wlLen + w2) mod wlLen in
      (words_list !!! Z.to_nat w1) :: (words_list !!! Z.to_nat w2) :: (words_list !!! Z.to_nat w3)
        :: key_words rest
  | _ => []
  end.

(** The words with a blank between them. *)
Fixpoint join_words (words : list (list Z)) : list Z :=
  match words with
  | [] => []
  | [word] => word
  | word :: rest => word ++ 32 :: join_words rest
  end.

Definition PrivateKeyToMnemonic (privateKey : list Z) : option (list Z) :=
  let words := key_words privateKey in
  checksum ← GetChecksumWord words;
  Some (join_words (words ++ [checksum])).

(** ** The word list *)

Definition plain_word (w : list Z) : bool :=
  negb (bool_decide (w = [])) && forallb (fun c => (97 <=? c) && (c <=? 122)) w.

Lemma words_list_length : length words_list = 1626%nat.
Proof. vm_compute. reflexivity. Qed.

Lemma words_list_plain : forallb plain_word words_list = true.
Proof. vm_compute. reflexivity. Qed.

Lemma words_list_NoDup : NoDup words_list.
Proof. apply (bool_decide_unpack _). vm_compute. exact I. Qed.

#[local] Opaque words_list.

Lemma word_plain w : w ∈ words_list -> plain_word w = true.
Proof.
  intros Hw. pose proof words_list_plain as H. rewrite forallb_forall in H.
  apply H. by apply list_elem_of_In.
Qed.

Lemma word_at i : 0 <= i < wlLen -> (words_list !!! Z.to_nat i) ∈ words_list /\ word_index (words_list !!! Z.to_nat i) = i.
Proof.
  intros Hi. unfold wlLen in Hi.
  destruct (lookup_lt_is_Some_2 words_list (Z.to_nat i)) as [w Hw]; [rewrite words_list_length; lia|].
  rewrite (list_lookup_total_correct _ _ _ Hw). split; [by eapply list_elem_of_lookup_2|].
  unfold word_index. destruct (list_find _ _) as [[j w']|] eqn:E.
  - apply list_find_Some in E as (Hj & -> & _). pose proof (NoDup_lookup _ _ _ _ words_list_NoDup Hj Hw). lia.
  - apply list_find_None in E. rewrite Forall_forall in E. by destruct (E w (list_elem_of_lookup_2 _ _ _ Hw)).
Qed.

Lemma word_index_in w : w ∈ words_list -> 0 <= word_index w < wlLen /\ words_list !!! Z.to_nat (word_index w) = w.
Proof.
  intros Hw. unfold word_index. destruct (list_find _ _) as [[j w']|] eqn:E.
  - apply list_find_Some in E as (Hj & -> & _). rewrite Nat2Z.id.
    pose proof (lookup_lt_Some _ _ _ Hj) as Hl. rewrite words_list_length in Hl.
    unfold wlLen. split; [lia|]. by apply list_lookup_total_correct.
  - apply list_find_None in E. rewrite Forall_forall in E. by destruct (E w Hw).
Qed.

Lemma tolower_plain w : plain_word w = true -> tolower <$> w = w.
Proof.
  unfold plain_word. rewrite andb_true_iff. intros [_ H]. rewrite forallb_forall in H.
  induction w as [|c w IH]; [done|]. cbn [fmap list_fmap]. rewrite IH by (intros x Hx; apply H; by right).
  f_equal. specialize (H c (or_introl eq_refl)). unfold tolower. bool_to_prop.
  destruct (Z.leb_spec c 90); [lia|]. by rewrite andb_false_r.
Qed.

(** ** Splitting and joining *)

Lemma split_plain w rest word :
  forallb (fun c => (97 <=? c) && (c <=? 122)) w = true ->
  split_words (w ++ rest) word = split_words rest (word ++ w).
Proof.
  revert word. induction w as [|c w IH]; intros word; [by rewrite app_nil_r|]. cbn [forallb app].
  rewrite andb_true_iff. intros [Hc Hw]. cbn [split_words].
  replace (whitespace c) with false.
  - rewrite IH by done. by rewrite <- app_assoc.
  - symmetry. unfold whitespace. apply bool_decide_eq_false. bool_to_prop. rewrite !elem_of_cons, elem_of_nil. lia.
Qed.

Lemma split_join words : Forall (fun w => plain_word w = true) words -> split_words (join_words words) [] = words.
Proof.
  induction words as [|w words IH]; intros Hw; [done|]. apply Forall_cons in Hw as [Hw Hrest].
  unfold plain_word in Hw. rewrite andb_true_iff in Hw. destruct Hw as [Hne Hw].
  destruct w as [|c w]; [done|]. destruct words as [|w' words].
  - cbn [join_words]. rewrite <- (app_nil_r (c :: w)) at 1. by rewrite split_plain.
  - change (join_words ((c :: w) :: w' :: words)) with ((c :: w) ++ 32 :: join_words (w' :: words)).
    rewrite split_plain by done. cbn [app split_words]. change (whitespace 32) with true. cbn iota.
    by rewrite IH.
Qed.

(** ** Three words and four bytes *)

Lemma triple_exact w1 w2 w3 :
  0 <= w1 < wlLen -> 0 <= w2 < wlLen -> 0 <= w3 < wlLen ->
  triple_value w1 w2 w3 =
    u32 (w1 + wlLen * ((wlLen - w1 + w2) mod wlLen) + wlLen * wlLen * ((wlLen - w2 + w3) mod wlLen)).
Proof.
  intros H1 H2 H3. unfold triple_value, wlLen in *.
  pose proof (Z.mod_pos_bound (1626 - w1 + w2) 1626 ltac:(lia)).
  pose proof (Z.mod_pos_bound (1626 - w2 + w3) 1626 ltac:(lia)).
  rewrite (wrap_small 64 (1626 - w1)), (wrap_small 64 (1626 - w2)) by (unfold fits; lia).
  rewrite (wrap_small 64 (1626 - w1 + w2)), (wrap_small 64 (1626 - w2 + w3)) by (unfold fits; lia).
  change (u64 (1626 * 1626)) with (1626 * 1626).
  rewrite (wrap_small 64 (1626 * _)), (wrap_small 64 (1626 * 1626 * _)) by (unfold fits; lia).
  by rewrite (wrap_small 64) by (unfold fits; lia).
Qed.

(** The three words of a 32-bit value. *)
Lemma value_triple val :
  fits 32 val ->
  let w1 := val mod wlLen in
  let w2 := u32 (val / wlLen + w1) mod wlLen in
  let w3 := u32 (val / wlLen / wlLen + w2) mod wlLen in
  triple_value w1 w2 w3 = val.
Proof.
  intros Hv w1 w2 w3. unfold fits in Hv.
  assert (0 <= w1 < wlLen) as H1 by (apply Z.mod_pos_bound; done).
  assert (0 <= w2 < wlLen) as H2 by (apply Z.mod_pos_bound; done).
  assert (0 <= w3 < wlLen) as H3 by (apply Z.mod_pos_bound; done).
  rewrite triple_exact by done.
  assert (0 <= val / wlLen < 2641457) as Hq by (unfold wlLen; split; [apply Z.div_pos; lia|apply Z.div_lt_upper_bound; lia]).
  assert (0 <= val / wlLen / wlLen < wlLen) as Hr
    by (unfold wlLen in *; split; [apply Z.div_pos; lia|apply Z.div_lt_upper_bound; lia]).
  assert ((wlLen - w1 + w2) mod wlLen = (val / wlLen) mod wlLen) as ->.
  { unfold w2. rewrite (wrap_small 32) by (unfold fits, wlLen in *; lia).
    rewrite Zplus_mod_idemp_r. replace (wlLen - w1 + _) with (val / wlLen + 1 * wlLen) by lia.
    by rewrite Z_mod_plus_full. }
  assert ((wlLen - w2 + w3) mod wlLen = val / wlLen / wlLen) as ->.
  { unfold w3. rewrite (wrap_small 32) by (unfold fits, wlLen in *; lia).
    rewrite Zplus_mod_idemp_r. replace (wlLen - w2 + _) with (val / wlLen / wlLen + 1 * wlLen) by lia.
    rewrite Z_mod_plus_full. by apply Z.mod_small. }
  unfold w1. rewrite (wrap_small 32); unfold fits;
    pose proof (Z.div_mod val wlLen ltac:(done)); pose proof (Z.div_mod (val / wlLen) wlLen ltac:(done)); lia.
Qed.

(** Three words that pass the check are those of their value. *)
Lemma triple_words w1 w2 w3 :
  0 <= w1 < wlLen -> 0 <= w2 < wlLen -> 0 <= w3 < wlLen ->
  let val := triple_value w1 w2 w3 in
  val mod wlLen = w1 ->
  fits 32 val /\ u32 (val / wlLen + w1) mod wlLen = w2 /\ u32 (val / wlLen / wlLen + w2) mod wlLen = w3.
Proof.
  intros H1 H2 H3. rewrite triple_exact by done.
  set (a := (wlLen - w1 + w2) mod wlLen). set (b := (wlLen - w2 + w3) mod wlLen).
  assert (0 <= a < wlLen) as Ha by (apply Z.mod_pos_bound; done).
  assert (0 <= b < wlLen) as Hb by (apply Z.mod_pos_bound; done).
  set (v := w1 + wlLen * a + wlLen * wlLen * b). intros val Hcheck.
  assert (0 <= v < 1626 * 1626 * 1626) as Hv by (unfold v, wlLen in *; nia).
  assert (v mod wlLen = w1) as Ev.
  { unfold v. replace (w1 + wlLen * a + wlLen * wlLen * b) with (w1 + (a + wlLen * b) * wlLen) by lia.
    rewrite Z_mod_plus_full. by apply Z.mod_small. }
  assert (v < 2 ^ 32) as Hlt.
  { destruct (Z.lt_ge_cases v (2 ^ 32)) as [|Hge]; [done|]. exfalso.
    assert (val = v - 2 ^ 32) as E.
    { unfold val, wrap. rewrite <- (Z_mod_plus_full v (-1)). apply Z.mod_small. lia. }
    rewrite E, <- Ev in Hcheck. clearbody v. unfold wlLen in *.
    pose proof (Z.div_mod v 1626 ltac:(lia)). pose proof (Z.div_mod (v - 2 ^ 32) 1626 ltac:(lia)). lia. }
  assert (val = v) as -> by (apply (wrap_small 32); unfold fits; lia).
  assert (v / wlLen = a + wlLen * b) as Eq.
  { unfold v. replace (w1 + wlLen * a + wlLen * wlLen * b) with (w1 + (a + wlLen * b) * wlLen) by lia.
    rewrite Z_div_plus_full by done. rewrite Z.div_small by lia. lia. }
  assert (v / wlLen / wlLen = b) as Eq2.
  { rewrite Eq. rewrite Z.mul_comm, Z_div_plus_full by done. rewrite Z.div_small by lia. lia. }
  split; [unfold fits; lia|]. rewrite Eq2, Eq, !(wrap_small 32) by (unfold fits, wlLen in *; nia). split.
  - replace (a + wlLen * b + w1) with (a + w1 + b * wlLen) by lia. rewrite Z_mod_plus_full. unfold a.
    rewrite Zplus_mod_idemp_l. replace (wlLen - w1 + w2 + w1) with (w2 + 1 * wlLen) by lia.
    rewrite Z_mod_plus_full. by apply Z.mod_small.
  - unfold b. rewrite Zplus_mod_idemp_l. replace (wlLen - w2 + w3 + w2) with (w3 + 1 * wlLen) by lia.
    rewrite Z_mod_plus_full. by apply Z.mod_small.
Qed.

(** ** Keys and words *)

Lemma list_quad_ind {A} (P : list A -> Prop) :
  P [] -> (forall a b c d l, P l -> P (a :: b :: c :: d :: l)) ->
  forall k l, length l = (4 * k)%nat -> P l.
Proof.
  intros H0 H4 k. induction k as [|k IH]; intros l Hl; [by destruct l|].
  destruct l as [|a [|b [|c [|d l]]]]; cbn in Hl; try lia. apply H4, IH. lia.
Qed.

Lemma key_words_spec k key :
  length key = (4 * k)%nat -> bytes_ok key ->
  Forall (fun w => w ∈ words_list) (key_words key) /\ (4 * length (key_words key) = 3 * length key)%nat /\
  forall last, decode_words (GetWordIndexes (key_words key ++ [last])) = Some key.
Proof.
  revert k key. apply (list_quad_ind (fun key => bytes_ok key -> _)).
  { intros _. split; [constructor|done]. }
  intros a b c d l IH Hb. assert (bytes_ok [a; b; c; d]) as Hq by (apply (bytes_ok_take 4) in Hb; exact Hb).
  apply (bytes_ok_drop 4) in Hb. change (drop 4 _) with l in Hb. destruct (IH Hb) as (IH1 & IH2 & IH3).
  pose proof (le_combine_bound _ Hq) as Hv. change (256 ^ _) with (2 ^ 32) in Hv. cbn [key_words].
  set (val := le_combine [a; b; c; d]) in *. pose proof (value_triple val Hv) as Ht. cbv zeta in Ht.
  set (w1 := val mod wlLen) in *. set (w2 := u32 (val / wlLen + w1) mod wlLen) in *.
  set (w3 := u32 (val / wlLen / wlLen + w2) mod wlLen) in *.
  destruct (word_at w1) as [I1 E1]; [by apply Z.mod_pos_bound|].
  destruct (word_at w2) as [I2 E2]; [by apply Z.mod_pos_bound|].
  destruct (word_at w3) as [I3 E3]; [by apply Z.mod_pos_bound|].
  split; [by repeat constructor|]. split; [cbn [length]; lia|]. intros last.
  unfold GetWordIndexes in *. cbn [app fmap list_fmap decode_words]. rewrite E1, E2, E3, Ht.
  unfold w1 at 1. rewrite Z.eqb_refl. cbn [negb]. rewrite IH3. cbn [mbind option_bind].
  unfold val. by rewrite le_split_combine.
Qed.

Lemma GetChecksumWord_in words :
  words <> [] -> exists w, GetChecksumWord words = Some w /\ w ∈ words.
Proof.
  intros Hne. unfold GetChecksumWord. set (i := Z.to_nat _).
  assert (i < length words)%nat as Hi.
  { destruct words; [done|]. unfold i. pose proof (Z.mod_pos_bound (crc32 (concat (take 3 <$> l :: words)))
      (Z.of_nat (length (l :: words))) ltac:(cbn; lia)). lia. }
  destruct (lookup_lt_is_Some_2 words i Hi) as [w Hw]. exists w.
  split; [by destruct words|by eapply list_elem_of_lookup_2].
Qed.

(** Words of the list that decode are the words of what they decode to. *)
Lemma decode_words_spec k words x key :
  length words = (3 * k)%nat -> Forall (fun w => w ∈ words_list) words ->
  decode_words (GetWordIndexes (words ++ [x])) = Some key ->
  key_words key = words /\ bytes_ok key /\ length key = (4 * k)%nat.
Proof.
  revert words key. induction k as [|k IH]; intros words key Hl Hw.
  { destruct words; [|done]. intros [= <-]. by split_and!; [|constructor|]. }
  destruct words as [|x1 [|x2 [|x3 words]]]; cbn in Hl; try lia.
  apply Forall_cons in Hw as [H1 Hw]. apply Forall_cons in Hw as [H2 Hw]. apply Forall_cons in Hw as [H3 Hw].
  destruct (word_index_in x1 H1) as [R1 E1]. destruct (word_index_in x2 H2) as [R2 E2].
  destruct (word_index_in x3 H3) as [R3 E3].
  unfold GetWordIndexes. cbn [app fmap list_fmap decode_words].
  set (val := triple_value _ _ _). destruct (Z.eqb_spec (val mod wlLen) (word_index x1)) as [Hc|]; [|done].
  cbn [negb]. destruct (decode_words _) as [data|] eqn:Ed; [|done]. cbn [mbind option_bind].
  intros E. assert (key = le_split 4 val ++ data) as -> by congruence. clear E.
  destruct (triple_words _ _ _ R1 R2 R3 Hc) as (Hv & T2 & T3). fold val in Hv, T2, T3.
  destruct (IH words data) as (IH1 & IH2 & IH3); [lia|done|done|].
  pose proof (le_split_ok 4 val) as Hb. pose proof (le_combine_split 4 val ltac:(apply Hv)) as Hcmb.
  change (256 ^ Z.of_nat 4) with (2 ^ 32) in Hcmb. rewrite Z.mod_small in Hcmb by done.
  split; [|split; [by apply bytes_ok_app|rewrite length_app, length_le_split; lia]].
  pose proof (length_le_split 4 val) as Hlen.
  destruct (le_split 4 val) as [|b0 [|b1 [|b2 [|b3 [|]]]]]; try done. cbn [app key_words].
  rewrite Hcmb, Hc, T2, T3, E1, E2, E3. by rewrite IH1.
Qed.

(** The words of a key are read back. *)
Lemma seed_back key : pod_ok 32 key ->
  exists text, PrivateKeyToMnemonic key = Some text /\ MnemonicToPrivateKey text = inr key.
Proof.
  intros [Hl Hb]. destruct (key_words_spec 8 key Hl Hb) as (Hw & Hlen & Hdec). rewrite Hl in Hlen.
  destruct (GetChecksumWord_in (key_words key)) as (w & Ew & Hin); [by destruct (key_words key)|].
  exists (join_words (key_words key ++ [w])). unfold PrivateKeyToMnemonic. rewrite Ew. split; [done|].
  assert (Forall (fun x => x ∈ words_list) (key_words key ++ [w])) as Hall.
  { apply Forall_app. split; [done|]. apply Forall_singleton. rewrite Forall_forall in Hw. by apply Hw. }
  unfold MnemonicToPrivateKey. rewrite split_join by (eapply Forall_impl; [exact Hall|apply word_plain]).
  unfold MnemonicToPrivateKey_words.
  assert (length (key_words key ++ [w]) = 25%nat) as -> by (rewrite length_app; cbn; lia). cbn [Nat.eqb negb].
  replace (forallb _ _) with true.
  2:{ symmetry. apply forallb_forall. intros x Hx%list_elem_of_In. rewrite Forall_forall in Hall.
      apply bool_decide_eq_true. rewrite tolower_plain by (by apply word_plain, Hall). by apply Hall. }
  cbn [negb]. assert (HasValidChecksum (key_words key ++ [w]) = true) as ->.
  { unfold HasValidChecksum. apply bool_decide_eq_true. rewrite length_app, Nat.add_sub.
    by rewrite take_app_length, list_lookup_middle. }
  cbn [negb]. by rewrite Hdec.
Qed.

(** the words that a private key is
    written as are read back as that key.  Conversely, 25 words of the list that
    are accepted as a seed are exactly the words of the key they are read as, so
    two different seeds never stand for the same key and a seed with a wrong
    checksum word stands for none. *)
Theorem mnemonic_seed_correct :
  (forall key, pod_ok 32 key -> exists text,
     PrivateKeyToMnemonic key = Some text /\ MnemonicToPrivateKey text = inr key) /\
  (forall words key, Forall (fun w => w ∈ words_list) words ->
     MnemonicToPrivateKey_words words = inr key ->
     pod_ok 32 key /\ PrivateKeyToMnemonic key = Some (join_words words)).
Proof.
  split; [exact seed_back|].
  intros words key Hall. unfold MnemonicToPrivateKey_words.
  destruct (Nat.eqb_spec (length words) 25) as [Hlen|]; [|done]. cbn [negb]. destruct (negb _); [done|].
  destruct (HasValidChecksum words) eqn:Ec; [|done]. cbn [negb].
  destruct (decode_words _) as [data|] eqn:Ed; [|done]. intros [= <-].
  destruct (rev words) as [|w l] eqn:Er; [by apply (f_equal length) in Er; rewrite length_rev, Hlen in Er|].
  apply (f_equal (@rev _)) in Er. rewrite rev_involutive in Er. cbn [rev] in Er. subst words.
  set (ws := rev l) in *. rewrite length_app in Hlen. cbn in Hlen. apply Forall_app in Hall as [Hws Hw].
  destruct (decode_words_spec 8 ws w data ltac:(lia) Hws Ed) as (Ek & Hb & Hl). split; [by split|].
  unfold PrivateKeyToMnemonic. rewrite Ek. unfold HasValidChecksum in Ec. apply bool_decide_eq_true in Ec.
  rewrite length_app, Nat.add_sub, take_app_length, list_lookup_middle in Ec by done. by rewrite <- Ec.
Qed.

(** The words of a seed. *)
Definition seed_words : list (list Z) :=
  split_words (str "phrases biplane bubble stockpile saucepan skew ailments journal listen elite chlorine dotted kernels thaw vapidly pram mouth paradise unfit elite guarded biplane vivid aspire biplane"%string) [].

Lemma mnemonic_seed_correct_witness :
  (exists text, PrivateKeyToMnemonic (repeat 7 32) = Some text /\ MnemonicToPrivateKey text = inr (repeat 7 32)) /\
  (exists key, pod_ok 32 key /\ PrivateKeyToMnemonic key = Some (join_words seed_words)).
Proof.
  split.
  - apply (proj1 mnemonic_seed_correct). split; [reflexivity|]. apply (bool_decide_unpack _). vm_compute. exact I.
  - eexists. apply (proj2 mnemonic_seed_correct).
    + apply (bool_decide_unpack _). vm_compute. exact I.
    + vm_compute. reflexivity.
Defined.

(** ** The CRC, bit by bit *)

(** Division of the reversed polynomial by one bit. *)
Definition crc_bit (crc : Z) : Z :=
  Z.lxor (Z.shiftr crc 1) (if Z.odd crc then 3988292384 else 0).

Definition crc_byte (crc c : Z) : Z := Nat.iter 8 crc_bit (Z.lxor c crc).

Lemma crc_bit_lxor a b : crc_bit (Z.lxor a b) = Z.lxor (crc_bit a) (crc_bit b).
Proof.
  unfold crc_bit. rewrite Z.shiftr_lxor, <- !Z.bit0_odd, Z.lxor_spec.
  destruct (Z.testbit a 0), (Z.testbit b 0); cbn [xorb]; apply Z.bits_inj'; intros n _;
    rewrite !Z.lxor_spec, ?Z.bits_0; destruct (Z.testbit _ n), (Z.testbit _ n); try done;
    by destruct (Z.testbit _ n).
Qed.

Lemma crc_bits_lxor n a b : Nat.iter n crc_bit (Z.lxor a b) = Z.lxor (Nat.iter n crc_bit a) (Nat.iter n crc_bit b).
Proof. induction n as [|n IH]; [done|]. by rewrite !Nat.iter_succ, IH, crc_bit_lxor. Qed.

Lemma crc_bit_even x : crc_bit (2 * x) = x.
Proof. unfold crc_bit. rewrite Z.odd_mul. cbn [Z.odd andb]. rewrite Z.lxor_0_r, Z.shiftr_div_pow2, Z.mul_comm by lia. by apply Z.div_mul. Qed.

Lemma crc_bits_shift n x : Nat.iter n crc_bit (2 ^ Z.of_nat n * x) = x.
Proof.
  revert x. induction n as [|n IH]; intros x; [cbn; lia|]. rewrite Nat.iter_succ_r.
  replace (2 ^ Z.of_nat (S n) * x) with (2 * (2 ^ Z.of_nat n * x)) by (rewrite Nat2Z.inj_succ, Z.pow_succ_r by lia; lia).
  by rewrite crc_bit_even.
Qed.

Lemma table_bits : (fun i => Nat.iter 8 crc_bit (Z.of_nat i)) <$> seq 0 256 = table.
Proof. vm_compute. reflexivity. Qed.

Lemma table_lookup (f : nat -> Z) n l i : f <$> seq 0 n = l -> (i < n)%nat -> l !!! i = f i.
Proof.
  intros <- Hi. apply list_lookup_total_correct. by rewrite list_lookup_fmap, lookup_seq_lt.
Qed.

Lemma low_byte x : 0 <= Z.land x 255 < 256.
Proof. change 255 with (Z.ones 8). rewrite Z.land_ones by lia. by apply Z.mod_pos_bound. Qed.

Lemma byte_split x : x = Z.lxor (Z.land x 255) (2 ^ Z.of_nat 8 * Z.shiftr x 8).
Proof.
  rewrite Z.mul_comm, <- Z.shiftl_mul_pow2 by lia. apply Z.bits_inj'. intros n Hn.
  change 255 with (Z.ones 8). rewrite Z.lxor_spec, Z.land_spec, Z.testbit_ones_nonneg by lia.
  rewrite Z.shiftl_spec by lia. destruct (Z.ltb_spec n 8).
  - rewrite (Z.testbit_neg_r _ (n - Z.of_nat 8)) by lia. by rewrite andb_true_r, xorb_false_r.
  - rewrite Z.shiftr_spec by lia. replace (n - Z.of_nat 8 + 8) with n by lia. by rewrite andb_false_r.
Qed.

Lemma crc_step_bits crc c : byte_ok c -> crc_step crc c = crc_byte crc c.
Proof.
  intros Hc. unfold crc_step, crc_byte.
  assert (Z.shiftr (Z.lxor c crc) 8 = Z.shiftr crc 8) as Ehi.
  { rewrite Z.shiftr_lxor, (Z.shiftr_div_pow2 c) by lia.
    unfold byte_ok, fits in Hc. rewrite Z.div_small by lia. by rewrite Z.lxor_0_l. }
  generalize dependent (Z.lxor c crc). intros x Ehi. pose proof (low_byte x) as Hlo.
  rewrite (table_lookup _ _ _ (Z.to_nat (Z.land x 255)) table_bits) by lia. rewrite Z2Nat.id by lia.
  rewrite <- Ehi, Z.lxor_comm. rewrite (byte_split x) at 3.
  rewrite crc_bits_lxor. by rewrite crc_bits_shift.
Qed.

Lemma fold_left_ext_Forall {A B} (f g : A -> B -> A) (P : B -> Prop) l a :
  (forall a x, P x -> f a x = g a x) -> Forall P l -> fold_left f l a = fold_left g l a.
Proof. intros Hfg Hl. revert a. induction Hl as [|x l Hx Hl IH]; intros a; [done|]. cbn. by rewrite Hfg. Qed.

(** the table-driven [crc32] computes the cyclic
    redundancy check with the reversed polynomial 0xEDB88320, bit by bit: each
    entry of the table is the remainder of its index, and a round of the loop is
    eight steps of the division. *)
Theorem crc32_bitwise input :
  bytes_ok input ->
  crc32 input = Z.lxor (fold_left crc_byte input (2 ^ 32 - 1)) (2 ^ 32 - 1).
Proof.
  intros Hb. unfold crc32. by rewrite (fold_left_ext_Forall _ _ _ _ _ crc_step_bits Hb).
Qed.

Lemma crc32_bitwise_witness :
  crc32 (str "123456789"%string) = 3421780262 /\
  crc32 (str "123456789"%string) = Z.lxor (fold_left crc_byte (str "123456789"%string) (2 ^ 32 - 1)) (2 ^ 32 - 1).
Proof.
  split; [vm_compute; reflexivity|]. apply crc32_bitwise. apply (bool_decide_unpack _). vm_compute. exact I.
Defined.

(** A seed of which one word is typed with a capital letter. *)
Definition seed_start : list Z := str "phrases biplane "%string.
Definition seed_end : list Z :=
  str " stockpile saucepan skew ailments journal listen elite chlorine dotted kernels thaw vapidly pram mouth paradise unfit elite guarded biplane vivid aspire biplane"%string.

(** the code lowers the case of a word
    to look it up in the list, but computes the checksum and the index of the word
    from what was typed: a word that is not found counts as the first of the
    list.  So a seed with a capital letter may be accepted as the seed of
    another key without an error. *)
Theorem mnemonic_capital_letter :
  exists key key', key <> key' /\
    MnemonicToPrivateKey (seed_start ++ str "bubble"%string ++ seed_end) = inr key /\
    MnemonicToPrivateKey (seed_start ++ str "Bubble"%string ++ seed_end) = inr key'.
Proof.
  eexists _, _. split; [|split; vm_compute; reflexivity]. vm_compute. discriminate.
Qed.
