(* ===== verification/Types.v ===== *)
(** * Transactions and blocks

    The data model of [include/cryptonote.h].  Hashes, keys, key images and
    signatures are byte strings; their lengths are part of the
    well-formedness predicates at the end of the file. *)

From S2P Require Import Prelude Bytes.

(** [crypto::Hash], [crypto::PublicKey], [crypto::KeyImage] (32 bytes) and
    [crypto::Signature] (64 bytes). *)
Abbreviation Hash := (list Z).
Abbreviation PublicKey := (list Z).
Abbreviation SecretKey := (list Z).
Abbreviation KeyImage := (list Z).
Abbreviation Signature := (list Z).
Abbreviation BinaryArray := (list Z).

(** [boost::variant<BaseInput, KeyInput>] *)
Inductive TransactionInput :=
  | BaseInput (blockIndex : Z)
  | KeyInput (amount : Z) (outputIndexes : list Z) (keyImage : KeyImage).

(** [boost::variant<KeyOutput>] *)
Inductive TransactionOutputTarget :=
  | KeyOutput (key : PublicKey).

Record TransactionOutput := mkTransactionOutput {
  amount : Z;
  target : TransactionOutputTarget }.

Record TransactionPrefix := mkTransactionPrefix {
  version : Z;
  unlockTime : Z;
  inputs : list TransactionInput;
  outputs : list TransactionOutput;
  extra : list Z }.

(** [struct Transaction : TransactionPrefix] *)
Record Transaction := mkTransaction {
  prefix : TransactionPrefix;
  signatures : list (list Signature) }.

(** [struct BaseTransaction : TransactionPrefix] adds no member. *)
Abbreviation BaseTransaction := TransactionPrefix.

Record ParentBlock := mkParentBlock {
  pb_majorVersion : Z;
  pb_minorVersion : Z;
  pb_previousBlockHash : Hash;
  pb_transactionCount : Z;
  pb_baseTransactionBranch : list Hash;
  pb_baseTransaction : BaseTransaction;
  pb_blockchainBranch : list Hash }.

Record BlockHeader := mkBlockHeader {
  majorVersion : Z;
  minorVersion : Z;
  nonce : Z;
  timestamp : Z;
  previousBlockHash : Hash }.

(** [struct BlockTemplate : BlockHeader] *)
Record BlockTemplate := mkBlockTemplate {
  header : BlockHeader;
  parentBlock : ParentBlock;
  baseTransaction : Transaction;
  transactionHashes : list Hash }.

Record RawBlock := mkRawBlock {
  block : BinaryArray;
  transactions : list BinaryArray }.

Record AccountPublicAddress := mkAccountPublicAddress {
  spendPublicKey : PublicKey;
  viewPublicKey : PublicKey }.

#[global] Instance TransactionInput_eq_dec : EqDecision TransactionInput.
Proof. solve_decision. Defined.
#[global] Instance TransactionOutputTarget_eq_dec : EqDecision TransactionOutputTarget.
Proof. solve_decision. Defined.
#[global] Instance TransactionOutput_eq_dec : EqDecision TransactionOutput.
Proof. solve_decision. Defined.
#[global] Instance TransactionPrefix_eq_dec : EqDecision TransactionPrefix.
Proof. solve_decision. Defined.
#[global] Instance Transaction_eq_dec : EqDecision Transaction.
Proof. solve_decision. Defined.
#[global] Instance ParentBlock_eq_dec : EqDecision ParentBlock.
Proof. solve_decision. Defined.
#[global] Instance BlockHeader_eq_dec : EqDecision BlockHeader.
Proof. solve_decision. Defined.
#[global] Instance BlockTemplate_eq_dec : EqDecision BlockTemplate.
Proof. solve_decision. Defined.

(** ** Well-formedness: every member holds a value of its C++ type. *)

Definition input_ok (i : TransactionInput) : Prop :=
  match i with
  | BaseInput b => fits 32 b
  | KeyInput a idx ki =>
      fits 64 a /\ Forall (fits 32) idx /\ fits 64 (Z.of_nat (length idx)) /\ pod_ok 32 ki
  end.

Definition output_ok (o : TransactionOutput) : Prop :=
  fits 64 (amount o) /\ match target o with KeyOutput k => pod_ok 32 k end.

Definition prefix_ok (p : TransactionPrefix) : Prop :=
  fits 8 (version p) /\ fits 64 (unlockTime p) /\
  Forall input_ok (inputs p) /\ fits 64 (Z.of_nat (length (inputs p))) /\
  Forall output_ok (outputs p) /\ fits 64 (Z.of_nat (length (outputs p))) /\
  bytes_ok (extra p) /\ fits 64 (Z.of_nat (length (extra p))).

Definition tx_ok (t : Transaction) : Prop :=
  prefix_ok (prefix t) /\ Forall (Forall (pod_ok 64)) (signatures t).

#[global] Instance input_ok_dec i : Decision (input_ok i).
Proof. destruct i; simpl; apply _. Defined.
#[global] Instance output_ok_dec o : Decision (output_ok o).
Proof. unfold output_ok. destruct (target o); apply _. Defined.
#[global] Instance prefix_ok_dec p : Decision (prefix_ok p).
Proof. unfold prefix_ok. apply _. Defined.
#[global] Instance tx_ok_dec t : Decision (tx_ok t).
Proof. unfold tx_ok. apply _. Defined.

(** The amounts and key images of a transaction. *)
Definition key_images (l : list TransactionInput) : list KeyImage :=
  omap (fun i => match i with KeyInput _ _ ki => Some ki | _ => None end) l.

Definition key_amounts (l : list TransactionInput) : list Z :=
  omap (fun i => match i with KeyInput a _ _ => Some a | _ => None end) l.

Definition output_amounts (l : list TransactionOutput) : list Z := map amount l.
