(* ===== verification/WalletBlocks.v ===== *)
(** * Blocks as wallets see them

    The structures of src/include/wallet_types.h in which a node sends blocks to
    a wallet: the core fills them ([CoreQueries]), the synchronizer of the wallet reads
    them. *)

From S2P Require Import Prelude Types.

(** [wallet_types::KeyOutput]; the daemon leaves out the index. *)
Record WalletKeyOutput := mkWalletKeyOutput {
  ko_key : PublicKey;
  ko_amount : Z;
  ko_globalOutputIndex : option Z }.

Record RawCoinbaseTransaction := mkRawCoinbaseTransaction {
  rc_keyOutputs : list WalletKeyOutput;
  rc_hash : Hash;
  rc_transactionPublicKey : PublicKey;
  rc_unlockTime : Z }.

(** A [RawTransaction] is a [RawCoinbaseTransaction] with the payment id and the
    inputs: amount, offsets and key image. *)
Record RawTransaction := mkRawTransaction {
  rt_base : RawCoinbaseTransaction;
  rt_paymentID : list Z;
  rt_keyInputs : list (Z * list Z * KeyImage) }.

Record WalletBlockInfo := mkWalletBlockInfo {
  wb_coinbaseTransaction : RawCoinbaseTransaction;
  wb_transactions : list RawTransaction;
  wb_blockHeight : Z;
  wb_blockHash : Hash;
  wb_blockTimestamp : Z }.
