(* ===== verification/Parser.v ===== *)
(** * Reading binary data

    The input side of the binary format: [IInputStream] with the exceptions of
    the readers as [None], as a state monad over the bytes that are left; and
    what it means for a reader to invert a writer. *)

From S2P Require Import Prelude Bytes.

Definition parser (A : Type) : Type := list Z -> option (A * list Z).

#[global] Instance parser_ret : MRet parser := fun A x s => Some (x, s).
#[global] Instance parser_bind : MBind parser := fun A B f p s =>
  match p s with
  | Some (x, s') => f x s'
  | None => None
  end.
Definition pfail {A} : parser A := fun _ => None.

(** [if (!b) throw]. *)
Definition pcheck (b : bool) : parser unit := if b then mret tt else pfail.

(** [read(in, piece)] for one byte. *)
Definition read_byte : parser Z := fun s =>
  match s with
  | b :: s => Some (b, s)
  | [] => None
  end.

(** [common::read(in, data, size)]: exactly [n] bytes, or an exception. *)
Definition read_bytes (n : Z) : parser (list Z) := fun s =>
  if n <=? Z.of_nat (length s) then Some (take (Z.to_nat n) s, drop (Z.to_nat n) s) else None.

(** [n] elements one after the other.  Every element takes at least one byte,
    so the length of the input is enough fuel. *)
Fixpoint read_loop {A} (p : parser A) (fuel : nat) (n : Z) : parser (list A) :=
  if n <=? 0 then mret []
  else match fuel with
       | O => pfail
       | S fuel => x ← p; xs ← read_loop p fuel (n - 1); mret (x :: xs)
       end.

Definition read_many {A} (p : parser A) (n : Z) : parser (list A) :=
  fun s => read_loop p (length s) n s.

Lemma pbind_Some {A B} (p : parser A) (f : A -> parser B) s r :
  (p ≫= f) s = Some r <-> exists x s', p s = Some (x, s') /\ f x s' = Some r.
Proof.
  unfold mbind, parser_bind. destruct (p s) as [[x s']|].
  - split; [eauto|]. intros (? & ? & [= -> ->] & ?). done.
  - split; [done|]. intros (? & ? & Hn & _). done.
Qed.

Lemma pret_Some {A} (x : A) s r : mret (M:=parser) x s = Some r <-> r = (x, s).
Proof. unfold mret, parser_ret. split; congruence. Qed.

Lemma pcheck_Some b s r : pcheck b s = Some r <-> b = true /\ r = (tt, s).
Proof. unfold pcheck, pfail, mret, parser_ret. destruct b; split; intuition congruence. Qed.

(** ** Readers with fuel *)

Definition runner (A : Type) : Type := list Z -> Run (A * list Z).

#[global] Instance runner_ret : MRet runner := fun A x s => Returns (x, s).
#[global] Instance runner_bind : MBind runner := fun A B f p s =>
  match p s with Returns (x, s') => f x s' | Raises => Raises | OutOfFuel => OutOfFuel end.

(** A reader without fuel inside one with it, and the other way round. *)
Definition throwing {A} (p : parser A) : runner A := fun s => of_option (p s).
Definition running {A} (p : runner A) : parser A := fun s => to_option (p s).

Lemma rbind_Returns {A B} (p : runner A) (f : A -> runner B) s r :
  (p ≫= f) s = Returns r <-> exists x s', p s = Returns (x, s') /\ f x s' = Returns r.
Proof.
  unfold mbind, runner_bind. destruct (p s) as [[x s']| |].
  - split; [eauto|]. intros (? & ? & [= -> ->] & ?). done.
  - split; [done|]. by intros (? & ? & Hn & _).
  - split; [done|]. by intros (? & ? & Hn & _).
Qed.

Lemma rbind_run {A B} (p : runner A) (f : A -> runner B) s x s' : p s = Returns (x, s') -> (p ≫= f) s = f x s'.
Proof. unfold mbind, runner_bind. by intros ->. Qed.

Lemma throwing_run {A B} (p : parser A) (f : A -> runner B) s x s' : p s = Some (x, s') -> (throwing p ≫= f) s = f x s'.
Proof. unfold mbind, runner_bind, throwing. by intros ->. Qed.

Lemma throwing_Returns {A} (p : parser A) s r : throwing p s = Returns r <-> p s = Some r.
Proof. unfold throwing. destruct (p s); cbn; split; congruence. Qed.

(** ** Readers that invert writers *)

(** [codec ok enc dec]: [dec] reads back what [enc] wrote, whatever follows,
    and accepts nothing else. *)
Record codec {A} (ok : A -> Prop) (enc : A -> list Z) (dec : parser A) : Prop := {
  codec_roundtrip x tl : ok x -> dec (enc x ++ tl) = Some (x, tl);
  codec_canonical s x tl : bytes_ok s -> dec s = Some (x, tl) -> ok x /\ s = enc x ++ tl;
  codec_bytes x : ok x -> bytes_ok (enc x);
}.

(** A codec whose code words are never empty. *)
Record codec_plus {A} (ok : A -> Prop) (enc : A -> list Z) (dec : parser A) : Prop := {
  plus_codec :> codec ok enc dec;
  plus_nonempty x : ok x -> enc x <> [];
}.

(** Inversion of a successful run, one reader at a time. *)
Ltac parse_inv :=
  repeat match goal with
  | H : (_ ≫= _) _ = Some _ |- _ => apply pbind_Some in H as (? & ? & ? & H)
  | H : mret _ _ = Some _ |- _ => apply pret_Some in H; simplify_eq
  | H : pcheck _ _ = Some _ |- _ => apply pcheck_Some in H as [? ?]; simplify_eq
  | H : pfail _ = Some _ |- _ => done
  end.

Lemma read_byte_codec : codec_plus byte_ok (fun b => [b]) read_byte.
Proof.
  split; [split|].
  - done.
  - intros [|b s] x tl Hs; simpl; [done|]. intros [= -> ->]. by apply Forall_cons in Hs as [? ?].
  - intros b Hb. by apply Forall_singleton.
  - done.
Qed.

Lemma read_bytes_codec n :
  0 <= n -> codec (pod_ok (Z.to_nat n)) (fun s => s) (read_bytes n).
Proof.
  intros Hn. split; unfold read_bytes.
  - intros x tl [Hlen Hok]. rewrite length_app.
    destruct (Z.leb_spec n (Z.of_nat (length x + length tl))); [|lia].
    by rewrite take_app_length', drop_app_length'.
  - intros s x tl Hs. destruct (Z.leb_spec n (Z.of_nat (length s))); [|done].
    intros [= <- <-]. rewrite take_drop. split; [|done].
    split; [rewrite length_take; lia|]. by apply Forall_take.
  - intros x [_ H]. done.
Qed.

Lemma read_loop_roundtrip {A} ok enc (dec : parser A) l fuel tl :
  codec_plus ok enc dec -> Forall ok l -> (length l <= fuel)%nat ->
  read_loop dec fuel (Z.of_nat (length l)) (concat (enc <$> l) ++ tl) = Some (l, tl).
Proof.
  intros Hc Hl. revert fuel. induction Hl as [|x l Hx Hl IH]; intros fuel Hf.
  - by destruct fuel.
  - destruct fuel as [|fuel]; simpl in Hf; [lia|]. cbn [read_loop length].
    destruct (Z.leb_spec (Z.of_nat (S (length l))) 0); [lia|].
    simpl. rewrite <- app_assoc. unfold mbind, parser_bind.
    rewrite (codec_roundtrip _ _ _ (plus_codec _ _ _ Hc)) by done.
    replace (Z.of_nat (S (length l)) - 1) with (Z.of_nat (length l)) by lia.
    rewrite IH by lia. done.
Qed.

Lemma read_loop_canonical {A} ok enc (dec : parser A) fuel n s l tl :
  codec ok enc dec -> bytes_ok s -> 0 <= n -> read_loop dec fuel n s = Some (l, tl) ->
  (Z.of_nat (length l) = n /\ Forall ok l) /\ s = concat (enc <$> l) ++ tl.
Proof.
  intros Hc. revert n s l. induction fuel as [|fuel IH]; intros n s l Hs Hn; cbn [read_loop];
    (destruct (Z.leb_spec n 0); [intros; parse_inv; split_and!; simpl; auto; lia|]).
  - done.
  - intros H'. parse_inv. destruct (codec_canonical _ _ _ Hc _ _ _ Hs ltac:(eassumption))
      as [Hok ->]. apply bytes_ok_app in Hs as [_ Hs].
    destruct (IH (n - 1) _ _ Hs ltac:(lia) ltac:(eassumption)) as [[Hlen Hall] ->].
    split; [split; [simpl; lia|by constructor]|]. simpl. by rewrite app_assoc.
Qed.

Lemma concat_length_ge {A} (enc : A -> list Z) l :
  Forall (fun x => enc x <> []) l -> (length l <= length (concat (enc <$> l)))%nat.
Proof.
  induction 1 as [|x l Hx _ IH]; [simpl; lia|]. rewrite fmap_cons. cbn [concat length].
  rewrite length_app. destruct (enc x); [done|]. cbn [length]. lia.
Qed.

Lemma bytes_ok_concat {A} ok enc (dec : parser A) l :
  codec ok enc dec -> Forall ok l -> bytes_ok (concat (enc <$> l)).
Proof.
  intros Hc. induction 1; simpl; [constructor|]. apply bytes_ok_app.
  split; [by apply (codec_bytes _ _ _ Hc)|done].
Qed.

Lemma read_many_codec {A} ok enc (dec : parser A) n :
  codec_plus ok enc dec -> 0 <= n ->
  codec (fun l => Z.of_nat (length l) = n /\ Forall ok l) (fun l => concat (enc <$> l))
    (read_many dec n).
Proof.
  intros Hc Hn. split.
  - intros l tl [<- Hl]. apply (read_loop_roundtrip ok); [done..|].
    rewrite length_app. etrans; [apply (concat_length_ge enc)|lia].
    eapply Forall_impl; [exact Hl|]. apply (plus_nonempty _ _ _ Hc).
  - intros s l tl Hs. apply (read_loop_canonical ok enc); [apply Hc|done..].
  - intros l [_ Hl]. eapply bytes_ok_concat; [apply Hc|done].
Qed.

(** ** Tactics for composed codecs *)

Lemma pbind_run {A B} (p : parser A) (f : A -> parser B) s x s' :
  p s = Some (x, s') -> (p ≫= f) s = f x s'.
Proof. intros H. unfold mbind, parser_bind. by rewrite H. Qed.

(** [read_back c]: the next reader of the goal inverts its writer, by codec [c]. *)
Ltac read_back c :=
  erewrite pbind_run; [|apply (codec_roundtrip _ _ _ c); try done].

(** [read_was c]: the run of the first reader recorded in the context consumed what
    its writer writes, by codec [c]. *)
Ltac read_was c :=
  match goal with
  | Hs : bytes_ok ?s, H : _ ?s = Some (_, _) |- _ =>
      apply (codec_canonical _ _ _ c _ _ _ Hs) in H as [? ->];
      apply bytes_ok_app in Hs as [_ Hs]
  end.
