(* ===== verification/Varint.v ===== *)
(** * Variable-length integers

    The two implementations of base-128 integers: [common::readVarint] and
    [common::writeVarint] of src/src/common/stream_tools.cpp, which the binary
    serializers use, and the [tools] templates of src/src/common/varint.h, used
    by addresses.  The width of the C++ type is the argument [bits]. *)

From S2P Require Import Prelude Bytes IntUtil Parser.

(** ** stream_tools.cpp *)

(** The loop of [readVarint]; 64 bits take at most ten rounds. *)
Fixpoint readVarint_loop (bits : Z) (fuel : nat) (shift temp : Z) : parser Z :=
  match fuel with
  | O => pfail
  | S fuel =>
      piece ← read_byte;
      if (bits - 7 <=? shift) && (Z.shiftl 1 (bits - shift) <=? piece) then pfail
      else
        let temp := wrap bits (Z.lor temp (u64 (Z.shiftl (Z.land piece 0x7f) shift))) in
        if Z.land piece 0x80 =? 0
        then if (piece =? 0) && negb (shift =? 0) then pfail else mret temp
        else readVarint_loop bits fuel (u8 (shift + 7)) temp
  end.

Definition readVarint (bits : Z) : parser Z := readVarint_loop bits 10 0 0.

Fixpoint writeVarint_loop (fuel : nat) (value : Z) : list Z :=
  match fuel with
  | O => []
  | S fuel =>
      if 0x80 <=? value
      then u8 (Z.lor value 0x80) :: writeVarint_loop fuel (Z.shiftr value 7)
      else [u8 value]
  end.

Definition writeVarint (value : Z) : list Z := writeVarint_loop 10 value.

(** ** varint.h *)

Fixpoint write_varint_loop (fuel : nat) (i : Z) : list Z :=
  match fuel with
  | O => []
  | S fuel =>
      if 0x80 <=? i
      then Z.lor (Z.land (u8 i) 0x7f) 0x80 :: write_varint_loop fuel (Z.shiftr i 7)
      else [u8 i]
  end.

Definition get_varint_data (v : Z) : list Z := write_varint_loop 10 v.

(** The outcomes of [tools::read_varint]: the number of bytes consumed with the
    value (also when the input ends inside a number), -1 or -2. *)
Inductive varint_result :=
  | varint_read (read : Z) (i : Z)
  | varint_overflow
  | varint_noncanonical.

Fixpoint read_varint_loop (bits : Z) (fuel : nat) (shift read i : Z) (s : list Z)
    : varint_result :=
  match fuel, s with
  | O, _ => varint_read read i
  | _, [] => varint_read read i
  | S fuel, byte :: s =>
      let read := read + 1 in
      if (bits <=? shift + 7) && (Z.shiftl 1 (bits - shift) <=? byte) then varint_overflow
      else if (byte =? 0) && negb (shift =? 0) then varint_noncanonical
      else
        let i := Z.lor i (wrap bits (Z.shiftl (Z.land byte 0x7f) shift)) in
        if Z.land byte 0x80 =? 0 then varint_read read i
        else read_varint_loop bits fuel (shift + 7) read i s
  end.

Definition read_varint (bits : Z) (s : list Z) : varint_result :=
  read_varint_loop bits 10 0 0 0 s.

(** ** Bytes of a number *)

Lemma land_7f b : Z.land b 0x7f = b mod 128.
Proof. exact (Z.land_ones b 7 ltac:(lia)). Qed.

Lemma land_80 b : 0 <= b < 256 -> Z.land b 0x80 = if b <? 128 then 0 else 0x80.
Proof.
  intros Hb. assert (forall k, (k < 256)%nat ->
    Z.land (Z.of_nat k) 0x80 = if Z.of_nat k <? 128 then 0 else 0x80) as H.
  { intros k Hk. do 256 (destruct k as [|k]; [reflexivity|]). lia. }
  specialize (H (Z.to_nat b)). rewrite Z2Nat.id in H by lia. apply H. lia.
Qed.

Lemma lor_80 v : u8 (Z.lor v 0x80) = v mod 128 + 128.
Proof.
  transitivity (Z.lor (v mod 2 ^ 7) (2 ^ 7)).
  2: { change (2 ^ 7) with (Z.shiftl 1 7) at 2.
       rewrite lor_shiftl_add by (try apply Z.mod_pos_bound; lia). done. }
  apply Z.bits_inj'. intros n Hn. change 0x80 with (2 ^ 7). unfold wrap.
  destruct (Z.ltb_spec n 7).
  - rewrite Z.mod_pow2_bits_low, !Z.lor_spec, Z.mod_pow2_bits_low by lia. done.
  - destruct (Z.eq_dec n 7) as [->|].
    + rewrite Z.mod_pow2_bits_low, !Z.lor_spec, Z.pow2_bits_true by lia. by rewrite !orb_true_r.
    + rewrite Z.mod_pow2_bits_high, Z.lor_spec, Z.mod_pow2_bits_high, Z.pow2_bits_false by lia.
      done.
Qed.

Lemma lor_7f_80 v : Z.lor (Z.land (u8 v) 0x7f) 0x80 = v mod 128 + 128.
Proof.
  rewrite land_7f. replace (u8 v mod 128) with (v mod 128) by (unfold wrap; zlia).
  change 0x80 with (Z.shiftl 1 7).
  rewrite lor_shiftl_add by (try apply (Z.mod_pos_bound v 128); lia). done.
Qed.

(** The digits [writeVarint] emits, without bit operations. *)
Fixpoint digits128 (fuel : nat) (v : Z) : list Z :=
  match fuel with
  | O => []
  | S fuel => if 128 <=? v then v mod 128 + 128 :: digits128 fuel (v / 128) else [v]
  end.

Lemma writeVarint_loop_digits fuel v :
  0 <= v -> writeVarint_loop fuel v = digits128 fuel v.
Proof.
  revert v. induction fuel as [|fuel IH]; intros v Hv; simpl; [done|].
  rewrite lor_80, Z.shiftr_div_pow2 by lia. destruct (Z.leb_spec 128 v).
  - f_equal. apply IH. zlia.
  - f_equal. apply wrap_small. words. lia.
Qed.

Lemma write_varint_loop_digits fuel v :
  0 <= v -> write_varint_loop fuel v = digits128 fuel v.
Proof.
  revert v. induction fuel as [|fuel IH]; intros v Hv; cbn [write_varint_loop digits128]; [done|].
  rewrite lor_7f_80, Z.shiftr_div_pow2 by lia. destruct (Z.leb_spec 128 v).
  - f_equal. apply IH. zlia.
  - f_equal. apply wrap_small. words. lia.
Qed.

Lemma readVarint_temp bits shift temp p :
  0 <= shift -> shift < bits <= 64 -> 0 <= temp < 2 ^ shift -> 0 <= p ->
  temp + p * 2 ^ shift < 2 ^ bits ->
  wrap bits (Z.lor temp (u64 (Z.shiftl p shift))) = temp + p * 2 ^ shift.
Proof.
  intros Hs Hb Ht Hp Hlt. assert (2 ^ bits <= 2 ^ 64) by (apply Z.pow_le_mono_r; lia).
  assert (0 <= p * 2 ^ shift) by (apply Z.mul_nonneg_nonneg; lia).
  rewrite (wrap_small 64) by (rewrite Z.shiftl_mul_pow2 by lia; words; lia).
  rewrite lor_shiftl_add by lia. apply wrap_small. words. lia.
Qed.

(** A piece that passes the overflow check keeps the value in range. *)
Lemma readVarint_bound bits shift temp piece :
  0 <= shift -> shift < bits <= 64 -> 0 <= temp < 2 ^ shift -> 0 <= piece < 256 ->
  (bits - 7 <=? shift) && (2 ^ (bits - shift) <=? piece) = false ->
  temp + piece mod 128 * 2 ^ shift < 2 ^ bits.
Proof.
  intros Hs Hb Ht Hp E.
  assert (2 ^ (shift + 7) = 128 * 2 ^ shift) as E7 by (rewrite Z.pow_add_r; lia).
  assert (2 ^ (bits - shift) * 2 ^ shift = 2 ^ bits) as Eb
    by (rewrite <- Z.pow_add_r by lia; f_equal; lia).
  destruct (Z.leb_spec (bits - 7) shift) as [Hc|Hc].
  - simpl in E. apply Z.leb_gt in E. assert (piece mod 128 <= piece) by zlia. nia.
  - assert (2 ^ (shift + 7) <= 2 ^ bits) by (apply Z.pow_le_mono_r; lia).
    assert (piece mod 128 <= 127) by zlia. nia.
Qed.

(** One round of the reader, as arithmetic. *)
Lemma readVarint_loop_step bits fuel shift temp piece s :
  0 <= shift -> shift < bits <= 64 -> 0 <= temp < 2 ^ shift -> 0 <= piece < 256 ->
  readVarint_loop bits (S fuel) shift temp (piece :: s) =
  if (bits - 7 <=? shift) && (2 ^ (bits - shift) <=? piece) then None
  else if piece <? 128
  then if (piece =? 0) && negb (shift =? 0) then None else Some (temp + piece * 2 ^ shift, s)
  else readVarint_loop bits fuel (shift + 7) (temp + (piece - 128) * 2 ^ shift) s.
Proof.
  intros Hs Hb Ht Hp. cbn [readVarint_loop]. unfold mbind, parser_bind; simpl read_byte.
  rewrite Z.shiftl_1_l. destruct (_ && _) eqn:E; [done|].
  pose proof (readVarint_bound bits shift temp piece Hs Hb Ht Hp E).
  rewrite land_7f, readVarint_temp by (try done; zlia).
  rewrite land_80 by done. destruct (Z.ltb_spec piece 128).
  - rewrite Z.mod_small by lia. change (0 =? 0) with true. cbv iota.
    by destruct ((piece =? 0) && _).
  - rewrite wrap_small by (words; lia).
    replace (piece mod 128) with (piece - 128) by zlia. done.
Qed.

Lemma readVarint_loop_digits bits fuel shift temp v tl :
  0 <= shift -> shift < bits <= 64 -> 0 <= temp < 2 ^ shift -> 0 <= v < 128 ^ Z.of_nat fuel ->
  v < 2 ^ (bits - shift) -> (v = 0 -> shift = 0) -> (0 < fuel)%nat ->
  readVarint_loop bits fuel shift temp (digits128 fuel v ++ tl) = Some (temp + v * 2 ^ shift, tl).
Proof.
  revert shift temp v. induction fuel as [|fuel IH]; intros shift temp v Hs Hb Ht Hv Hlt H0 Hf;
    [lia|].
  cbn [digits128]. destruct (Z.leb_spec 128 v).
  - cbn [app]. rewrite readVarint_loop_step by (try done; zlia).
    assert (~ (bits - 7 <= shift)).
    { intros Hc. assert (2 ^ (bits - shift) <= 2 ^ 7) by (apply Z.pow_le_mono_r; lia). lia. }
    destruct (Z.leb_spec (bits - 7) shift); [lia|]. cbn [andb].
    destruct (Z.ltb_spec (v mod 128 + 128) 128); [zlia|].
    assert (2 ^ (shift + 7) = 128 * 2 ^ shift) as E7 by (rewrite Z.pow_add_r; lia).
    assert (2 ^ (bits - shift) = 128 * 2 ^ (bits - (shift + 7))) as Eb.
    { replace (bits - shift) with (7 + (bits - (shift + 7))) by lia. by rewrite Z.pow_add_r by lia. }
    rewrite Nat2Z.inj_succ, Z.pow_succ_r in Hv by lia.
    replace (v mod 128 + 128 - 128) with (v mod 128) by lia.
    assert (0 <= v mod 128 <= 127) by zlia. assert (v = 128 * (v / 128) + v mod 128) by zlia.
    rewrite IH; try zlia.
    + f_equal. f_equal. rewrite E7. lia.
    + rewrite E7. nia.
    + destruct fuel; [|lia]. change (128 ^ Z.of_nat 0) with 1 in Hv. lia.
  - cbn [app]. rewrite readVarint_loop_step by (try done; lia).
    destruct (Z.leb_spec (2 ^ (bits - shift)) v); [lia|]. rewrite andb_false_r.
    destruct (Z.ltb_spec v 128); [|lia].
    destruct (Z.eqb_spec v 0) as [->|]; [|done]. by rewrite (H0 eq_refl).
Qed.

Lemma readVarint_loop_canonical bits fuel shift temp s r tl :
  0 <= shift -> shift < bits <= 64 -> 0 <= temp < 2 ^ shift -> bytes_ok s ->
  readVarint_loop bits fuel shift temp s = Some (r, tl) ->
  exists v, 0 <= v < 2 ^ (bits - shift) /\ (v = 0 -> shift = 0) /\
    r = temp + v * 2 ^ shift /\ s = digits128 fuel v ++ tl.
Proof.
  revert shift temp s. induction fuel as [|fuel IH]; intros shift temp s Hs Hb Ht Hok; [done|].
  destruct s as [|piece s]; [done|]. apply Forall_cons in Hok as [Hp Hok].
  rewrite readVarint_loop_step by done. destruct (_ && _) eqn:E; [done|].
  destruct (Z.ltb_spec piece 128).
  - destruct ((piece =? 0) && _) eqn:E0; [done|]. intros [= <- <-]. exists piece.
    split_and!; [apply Hp| |destruct (Z.eqb_spec piece 0), (Z.eqb_spec shift 0); done|done|].
    + destruct (Z.leb_spec (bits - 7) shift); [simpl in E; by apply Z.leb_gt in E|].
      assert (2 ^ 7 <= 2 ^ (bits - shift)) by (apply Z.pow_le_mono_r; lia). lia.
    + cbn [digits128]. by destruct (Z.leb_spec 128 piece); [lia|].
  - assert (shift < bits - 7).
    { destruct (Z.leb_spec (bits - 7) shift); [|done]. simpl in E. apply Z.leb_gt in E.
      assert (2 ^ (bits - shift) <= 2 ^ 7) by (apply Z.pow_le_mono_r; lia). lia. }
    assert (2 ^ (shift + 7) = 128 * 2 ^ shift) as E7 by (rewrite Z.pow_add_r; lia).
    intros H'. apply IH in H' as (v & Hv & Hv0 & -> & ->); [|lia|lia| |done].
    2: { rewrite E7. destruct Hp. nia. }
    exists (piece - 128 + 128 * v). destruct Hp as [Hp0 Hp1].
    replace (bits - shift) with (7 + (bits - (shift + 7))) by lia.
    rewrite Z.pow_add_r by lia. split_and!; [lia|lia|lia|rewrite E7; lia|].
    cbn [digits128]. destruct (Z.leb_spec 128 (piece - 128 + 128 * v)); [|lia].
    cbn [app]. f_equal; [zlia|]. do 2 f_equal. zlia.
Qed.

Lemma digits128_ok fuel v : 0 <= v -> bytes_ok (digits128 fuel v).
Proof.
  revert v. induction fuel as [|fuel IH]; intros v Hv; cbn [digits128]; [constructor|].
  destruct (Z.leb_spec 128 v); [|repeat constructor; lia].
  constructor; [split; zlia|]. apply IH. zlia.
Qed.

Lemma digits128_nonempty fuel v : digits128 (S fuel) v <> [].
Proof. cbn [digits128]. by destruct (_ <=? _). Qed.

Lemma readVarint_codec bits :
  0 < bits <= 64 -> codec_plus (fits bits) writeVarint (readVarint bits).
Proof.
  intros Hb. unfold readVarint, writeVarint. split; [split|].
  - intros v tl [Hv Hv']. assert (2 ^ bits <= 2 ^ 64) by (apply Z.pow_le_mono_r; lia).
    rewrite writeVarint_loop_digits by done.
    rewrite readVarint_loop_digits; rewrite ?Z.sub_0_r; try lia.
    by rewrite Z.mul_1_r.
  - intros s v tl Hs H. apply readVarint_loop_canonical in H as (v' & Hv & _ & -> & ->);
      [|lia|lia|lia|done].
    rewrite Z.sub_0_r in Hv. rewrite Z.mul_1_r, Z.add_0_l, writeVarint_loop_digits by lia.
    split; [exact Hv|done].
  - intros v [Hv _]. rewrite writeVarint_loop_digits by done. by apply digits128_ok.
  - intros v [Hv _]. rewrite writeVarint_loop_digits by done. apply (digits128_nonempty 9).
Qed.

(** for every unsigned type, [readVarint] reads back the value
    [writeVarint] wrote, whatever follows it in the stream, and it accepts no other
    encoding: a successful read of [v] consumed exactly [writeVarint v], and [v] fits
    the type (overlong and overflowing encodings are errors). *)
Theorem varint_canonical bits s v tl :
  0 < bits <= 64 -> bytes_ok s ->
  readVarint bits s = Some (v, tl) <-> fits bits v /\ s = writeVarint v ++ tl.
Proof.
  intros Hb Hs. destruct (readVarint_codec bits Hb) as [[Hr Hc _] _]. split; [by apply Hc|].
  intros [Hv ->]. by apply Hr.
Qed.

Lemma varint_canonical_witness :
  readVarint 32 [0xac; 0x02; 0x7f] = Some (300, [0x7f]) <->
  fits 32 300 /\ [0xac; 0x02; 0x7f] = writeVarint 300 ++ [0x7f].
Proof.
  apply (varint_canonical 32 [0xac; 0x02; 0x7f] 300 [0x7f]); [lia|].
  repeat constructor; vm_compute; congruence.
Defined.

(** ** The two implementations agree *)

Lemma read_varint_loop_step bits fuel shift temp n piece s :
  0 <= shift -> shift < bits <= 64 -> 0 <= temp < 2 ^ shift -> 0 <= piece < 256 ->
  read_varint_loop bits (S fuel) shift n temp (piece :: s) =
  if (bits - 7 <=? shift) && (2 ^ (bits - shift) <=? piece) then varint_overflow
  else if (piece =? 0) && negb (shift =? 0) then varint_noncanonical
  else if piece <? 128 then varint_read (n + 1) (temp + piece * 2 ^ shift)
  else read_varint_loop bits fuel (shift + 7) (n + 1) (temp + (piece - 128) * 2 ^ shift) s.
Proof.
  intros Hs Hb Ht Hp. cbn [read_varint_loop]. rewrite Z.shiftl_1_l.
  replace (bits <=? shift + 7) with (bits - 7 <=? shift)
    by (destruct (Z.leb_spec (bits - 7) shift), (Z.leb_spec bits (shift + 7)); lia).
  destruct ((_ <=? _) && _) eqn:E; [done|].
  pose proof (readVarint_bound bits shift temp piece Hs Hb Ht Hp E).
  assert (0 <= piece mod 128 * 2 ^ shift) by (apply Z.mul_nonneg_nonneg; zlia).
  rewrite land_7f. rewrite (wrap_small bits)
    by (rewrite Z.shiftl_mul_pow2 by lia; words; lia).
  rewrite lor_shiftl_add by lia. rewrite land_80 by done.
  destruct (_ && _); [done|]. destruct (Z.ltb_spec piece 128).
  - by rewrite Z.mod_small by lia.
  - change (0x80 =? 0) with false. cbv iota.
    by replace (piece mod 128) with (piece - 128) by zlia.
Qed.

Lemma read_varint_loop_agrees bits fuel shift temp n s r tl :
  0 <= shift -> shift < bits <= 64 -> 0 <= temp < 2 ^ shift -> bytes_ok s ->
  readVarint_loop bits fuel shift temp s = Some (r, tl) ->
  exists k, (k <= length s)%nat /\ s = take k s ++ tl /\
    read_varint_loop bits fuel shift n temp s = varint_read (n + Z.of_nat k) r.
Proof.
  revert shift temp n s. induction fuel as [|fuel IH]; intros shift temp n s Hs Hb Ht Hok; [done|].
  destruct s as [|piece s]; [done|]. apply Forall_cons in Hok as [Hp Hok].
  rewrite readVarint_loop_step, read_varint_loop_step by done.
  destruct ((bits - 7 <=? shift) && _) eqn:E; [done|].
  destruct (Z.ltb_spec piece 128).
  - destruct ((piece =? 0) && _); [done|]. intros ?; simplify_eq. exists 1%nat. split; [cbn; lia|]. split; [done|]. f_equal.
  - replace ((piece =? 0) && negb (shift =? 0)) with false
      by (destruct (Z.eqb_spec piece 0); [lia|done]).
    assert (shift < bits - 7).
    { destruct (Z.leb_spec (bits - 7) shift); [|done]. simpl in E. apply Z.leb_gt in E.
      assert (2 ^ (bits - shift) <= 2 ^ 7) by (apply Z.pow_le_mono_r; lia). lia. }
    assert (2 ^ (shift + 7) = 128 * 2 ^ shift) as E7 by (rewrite Z.pow_add_r; lia).
    intros H'. apply (IH _ _ (n + 1)) in H' as (k & Hl & Hk & ->); [|lia|lia| |done].
    2: { rewrite E7. destruct Hp. nia. }
    exists (S k). split; [cbn; lia|]. split; [simpl; by rewrite <- Hk|]. f_equal. lia.
Qed.

(** Unless the input ends inside the number, the two readers accept the same. *)
Lemma read_varint_loop_complete bits fuel shift temp n s m r :
  0 <= shift -> shift < bits <= 64 -> bits <= shift + 7 * Z.of_nat fuel -> 0 <= temp < 2 ^ shift -> bytes_ok s ->
  read_varint_loop bits fuel shift n temp s = varint_read m r -> m - n < Z.of_nat (length s) ->
  n < m /\ readVarint_loop bits fuel shift temp s = Some (r, drop (Z.to_nat (m - n)) s).
Proof.
  revert shift temp n s. induction fuel as [|fuel IH]; intros shift temp n s Hs Hb Hf Ht Hok; [lia|].
  destruct s as [|piece s]; [intros [= <- <-]; cbn; lia|]. apply Forall_cons in Hok as [Hp Hok].
  rewrite readVarint_loop_step, read_varint_loop_step by done.
  destruct ((bits - 7 <=? shift) && _) eqn:E; [done|].
  destruct (Z.ltb_spec piece 128).
  - destruct ((piece =? 0) && _); [done|]. intros ? _; simplify_eq. split; [lia|].
    by replace (Z.to_nat (n + 1 - n)) with 1%nat by lia.
  - replace ((piece =? 0) && negb (shift =? 0)) with false
      by (destruct (Z.eqb_spec piece 0); [lia|done]).
    assert (shift < bits - 7).
    { destruct (Z.leb_spec (bits - 7) shift); [|done]. simpl in E. apply Z.leb_gt in E.
      assert (2 ^ (bits - shift) <= 2 ^ 7) by (apply Z.pow_le_mono_r; lia). lia. }
    assert (2 ^ (shift + 7) = 128 * 2 ^ shift) as E7 by (rewrite Z.pow_add_r; lia).
    intros H' Hm. cbn [length] in Hm. apply IH in H' as [Hlt ->]; [|lia|lia|lia| |done|lia].
    2: { rewrite E7. destruct Hp. nia. }
    split; [lia|]. by replace (Z.to_nat (m - n)) with (S (Z.to_nat (m - (n + 1)))) by lia.
Qed.

(** the [tools] templates and the stream functions
    implement one format: they write the same bytes, and whatever [readVarint] accepts,
    [read_varint] accepts with the same value, reporting exactly the bytes consumed. *)
Theorem varint_implementations_agree bits :
  0 < bits <= 64 ->
  (forall v, fits bits v -> get_varint_data v = writeVarint v) /\
  (forall s v tl, bytes_ok s -> readVarint bits s = Some (v, tl) ->
     exists k, s = take k s ++ tl /\ read_varint bits s = varint_read (Z.of_nat k) v).
Proof.
  intros Hb. split.
  - intros v [Hv _]. unfold get_varint_data, writeVarint.
    by rewrite write_varint_loop_digits, writeVarint_loop_digits.
  - intros s v tl Hs H.
    destruct (read_varint_loop_agrees bits 10 0 0 0 s v tl) as (k & _ & Hk & E);
      [lia|lia|lia|exact Hs|exact H|].
    exists k. rewrite Z.add_0_l in E. split; [exact Hk|exact E].
Qed.

Lemma varint_implementations_agree_witness :
  get_varint_data 300 = writeVarint 300 /\
  (exists k, [0xac; 0x02; 0x7f] = take k [0xac; 0x02; 0x7f] ++ [0x7f] /\
     read_varint 64 [0xac; 0x02; 0x7f] = varint_read (Z.of_nat k) 300).
Proof.
  destruct (varint_implementations_agree 64 ltac:(lia)) as [Hw Hr]. split.
  - apply Hw. vm_compute. split; congruence.
  - apply Hr; [|vm_compute; reflexivity]. repeat constructor; vm_compute; congruence.
Defined.

Lemma writeVarint_length v : 0 <= v -> (length (writeVarint v) <= 10)%nat.
Proof.
  intros Hv. unfold writeVarint. rewrite writeVarint_loop_digits by done.
  generalize 10%nat. intros fuel. revert v Hv.
  induction fuel as [|fuel IH]; intros v Hv; cbn [digits128]; [simpl; lia|].
  destruct (128 <=? v); cbn [length]; [|lia]. specialize (IH (v / 128) ltac:(zlia)). lia.
Qed.
