(* ===== verification/Base58.v ===== *)
(** * Base 58

    src/src/common/base58.cpp: the text form of addresses.  Eight bytes at a
    time are written as eleven digits of base 58, the bytes that are left as
    fewer.  [encode_addr] puts a tag before the data and a checksum after it.
    The theorems show that each text has one reading and each byte string one
    text. *)

From Stdlib Require Import String.
From S2P Require Import Prelude Bytes IntUtil StringTools Parser Varint.
#[local] Open Scope list_scope.
#[local] Open Scope Z_scope.

(** ** Tables *)

Definition alphabet : list Z := str "123456789ABCDEFGHJKLMNPQRSTUVWXYZabcdefghijkmnopqrstuvwxyz"%string.

Definition alphabet_size : Z := 58.
Definition encoded_block_sizes : list Z := [0; 2; 3; 5; 6; 7; 9; 10; 11].
Definition full_block_size : nat := 8.
Definition full_encoded_block_size : nat := 11.
Definition addr_checksum_size : nat := 4.

(** The members [m_data] as the constructors fill them. *)
Definition reverse_alphabet_data : list Z :=
  fold_left (fun m i => <[Z.to_nat (alphabet !!! i - alphabet !!! 0%nat) := Z.of_nat i]> m)
    (seq 0 58) (replicate (Z.to_nat (alphabet !!! 57%nat - alphabet !!! 0%nat + 1)) (-1)).

Definition reverse_alphabet (letter : Z) : Z :=
  let idx := u64 (letter - alphabet !!! 0%nat) in
  if idx <? Z.of_nat (length reverse_alphabet_data) then reverse_alphabet_data !!! Z.to_nat idx else -1.

Definition decoded_block_sizes_data : list Z :=
  fold_left (fun m i => <[Z.to_nat (encoded_block_sizes !!! i) := Z.of_nat i]> m)
    (seq 0 9) (replicate 12 (-1)).

Definition decoded_block_sizes (encoded_block_size : nat) : Z :=
  decoded_block_sizes_data !!! encoded_block_size.

(** ** Numbers *)

(** The switch falls through from the case of the size to the last one. *)
Definition uint_8be_to_64 (data : list Z) : Z :=
  fold_left (fun res b => Z.lor (u64 (Z.shiftl res 8)) b) data 0.

Definition uint_64_to_8be (num : Z) (size : nat) : list Z :=
  let num_be := SWAP64 num in
  drop (8 - size) (le_split 8 num_be).

(** ** Blocks *)

(** The loop of [encode_block], from the last digit on; [None] is a write
    before the block. *)
Fixpoint encode_loop (fuel : nat) (num i : Z) (res : list Z) : option (list Z) :=
  match fuel with
  | O => None
  | S fuel =>
      if 0 <? num
      then
        let remainder := num mod alphabet_size in
        let num := num / alphabet_size in
        if i <? 0 then None
        else encode_loop fuel num (i - 1) (<[Z.to_nat i := alphabet !!! Z.to_nat remainder]> res)
      else Some res
  end.

(** A block and the piece of the result that is written for it, which the
    caller has filled with the first letter. *)
Definition encode_block (block : list Z) : option (list Z) :=
  let size := encoded_block_sizes !!! length block in
  let num := uint_8be_to_64 block in
  encode_loop 12 num (size - 1) (replicate (Z.to_nat size) (alphabet !!! 0%nat)).

(** The loop of [decode_block] over the letters from the last to the first. *)
Fixpoint decode_loop (letters : list Z) (res_num order : Z) : option Z :=
  match letters with
  | [] => Some res_num
  | letter :: letters =>
      let digit := reverse_alphabet letter in
      if digit <? 0 then None
      else
        let '(product_hi, product_lo) := mul128 order digit in
        let tmp := u64 (res_num + product_lo) in
        if (tmp <? res_num) || negb (0 =? product_hi) then None
        else decode_loop letters tmp (u64 (order * alphabet_size))
  end.

Definition decode_block (block : list Z) : option (list Z) :=
  let res_size := decoded_block_sizes (length block) in
  if res_size <=? 0 then None
  else
    match decode_loop (rev block) 0 1 with
    | None => None
    | Some res_num =>
        if (res_size <? Z.of_nat full_block_size) && (u64 (Z.shiftl 1 (8 * res_size)) <=? res_num) then None
        else Some (uint_64_to_8be res_num (Z.to_nat res_size))
    end.

(** ** Texts *)

(** The full blocks and the rest of the data after them. *)
Fixpoint encode_blocks (full_block_count : nat) (data : list Z) : option (list Z) :=
  match full_block_count with
  | O => if (0 <? length data)%nat then encode_block data else Some []
  | S count =>
      block ← encode_block (take full_block_size data);
      rest ← encode_blocks count (drop full_block_size data);
      Some (block ++ rest)
  end.

Definition encode (data : list Z) : option (list Z) :=
  match data with
  | [] => Some []
  | _ => encode_blocks (length data / full_block_size) data
  end.

Fixpoint decode_blocks (full_block_count : nat) (enc : list Z) : option (list Z) :=
  match full_block_count with
  | O => if (0 <? length enc)%nat then decode_block enc else Some []
  | S count =>
      block ← decode_block (take full_encoded_block_size enc);
      rest ← decode_blocks count (drop full_encoded_block_size enc);
      Some (block ++ rest)
  end.

Definition decode (enc : list Z) : option (list Z) :=
  match enc with
  | [] => Some []
  | _ =>
      if decoded_block_sizes (length enc mod full_encoded_block_size) <? 0 then None
      else decode_blocks (length enc / full_encoded_block_size) enc
  end.

(** ** Addresses *)

Section Addresses.
Context (cn_fast_hash : list Z -> list Z).

Definition encode_addr (tag : Z) (data : list Z) : option (list Z) :=
  let buf := get_varint_data tag ++ data in
  let hash := cn_fast_hash buf in
  encode (buf ++ take addr_checksum_size hash).

Definition decode_addr (addr : list Z) : option (Z * list Z) :=
  match decode addr with
  | None => None
  | Some addr_data =>
      if (length addr_data <=? addr_checksum_size)%nat then None
      else
        let size := (length addr_data - addr_checksum_size)%nat in
        let checksum := drop size addr_data in
        let addr_data := take size addr_data in
        let expected_checksum := take addr_checksum_size (cn_fast_hash addr_data) in
        if bool_decide (expected_checksum <> checksum) then None
        else
          match read_varint 64 addr_data with
          | varint_read read tag =>
              if read <=? 0 then None else Some (tag, drop (Z.to_nat read) addr_data)
          | _ => None
          end
  end.

End Addresses.

(** ** Positional notation *)

Fixpoint digits (n : nat) (v : Z) : list Z :=
  match n with O => [] | S n => digits n (v / 58) ++ [v mod 58] end.

(** The number of a list of digits, the last digit first. *)
Fixpoint digits_value (l : list Z) : Z :=
  match l with [] => 0 | d :: l => d + 58 * digits_value l end.

Definition digit_ok (d : Z) : Prop := 0 <= d < 58.

Lemma length_digits n v : length (digits n v) = n.
Proof. revert v. induction n as [|n IH]; intros v; [done|]. cbn [digits]. rewrite length_app, IH. cbn. lia. Qed.

Lemma digits_ok n v : Forall digit_ok (digits n v).
Proof.
  revert v. induction n as [|n IH]; intros v; [constructor|]. cbn [digits].
  apply Forall_app. split; [apply IH|]. apply Forall_singleton. unfold digit_ok. zlia.
Qed.

Lemma pow58_succ n : 58 ^ Z.of_nat (S n) = 58 * 58 ^ Z.of_nat n.
Proof. by rewrite Nat2Z.inj_succ, Z.pow_succ_r by lia. Qed.

Lemma digits_value_digits n v : 0 <= v < 58 ^ Z.of_nat n -> digits_value (rev (digits n v)) = v.
Proof.
  revert v. induction n as [|n IH]; intros v Hv; [cbn in *; lia|].
  cbn [digits]. rewrite rev_app_distr. cbn [rev app digits_value]. rewrite pow58_succ in Hv.
  rewrite IH by zlia. zlia.
Qed.

Lemma digits_value_bound l : Forall digit_ok l -> 0 <= digits_value l < 58 ^ Z.of_nat (length l).
Proof.
  induction 1 as [|d l Hd _ IH]; [cbn; lia|]. cbn [digits_value length]. rewrite pow58_succ.
  unfold digit_ok in Hd. lia.
Qed.

Lemma digits_digits_value l : Forall digit_ok l -> digits (length l) (digits_value l) = rev l.
Proof.
  induction 1 as [|d l Hd _ IH]; [done|]. cbn [digits_value length digits rev]. unfold digit_ok in Hd.
  replace ((d + 58 * digits_value l) / 58) with (digits_value l) by zlia. rewrite IH. do 2 f_equal. zlia.
Qed.

Lemma digits_zero n : digits n 0 = replicate n 0.
Proof.
  induction n as [|n IH]; [done|]. cbn [digits]. change (0 / 58) with 0. rewrite IH.
  change [0 mod 58] with [0]. by rewrite <- replicate_cons_app.
Qed.

(** ** Tables *)

Definition letter_of (d : Z) : Z := alphabet !!! Z.to_nat d.

(** The digits and the letters correspond. *)
Definition digits_checked : bool :=
  forallb (fun d => (reverse_alphabet (letter_of (Z.of_nat d)) =? Z.of_nat d) && (0 <=? letter_of (Z.of_nat d)) &&
    (letter_of (Z.of_nat d) <? 256)) (seq 0 58).
Definition letters_checked : bool :=
  forallb (fun c => let d := reverse_alphabet (Z.of_nat c) in
    (d <? 0) || ((d <? 58) && (letter_of d =? Z.of_nat c))) (seq 0 256).

Lemma forallb_seq n P : forallb P (seq 0 n) = true -> forall i, 0 <= i < Z.of_nat n -> P (Z.to_nat i) = true.
Proof. intros H i Hi. rewrite forallb_forall in H. apply H, in_seq. lia. Qed.

Lemma letter_of_digit d : digit_ok d -> reverse_alphabet (letter_of d) = d /\ byte_ok (letter_of d).
Proof.
  intros Hd. assert (digits_checked = true) as H by (vm_compute; reflexivity).
  unfold digits_checked in H. apply forallb_seq with (i := d) in H; [|exact Hd].
  rewrite Z2Nat.id in H by apply Hd. bool_to_prop. by repeat split.
Qed.

Lemma digit_of_letter c :
  byte_ok c -> 0 <= reverse_alphabet c ->
  digit_ok (reverse_alphabet c) /\ letter_of (reverse_alphabet c) = c.
Proof.
  intros Hc H0. assert (letters_checked = true) as H by (vm_compute; reflexivity).
  unfold letters_checked in H. apply forallb_seq with (i := c) in H; [|exact Hc].
  rewrite Z2Nat.id in H by apply Hc. cbv zeta in H. apply orb_true_iff in H as [H|H]; bool_to_prop; [lia|done].
Qed.

(** The sizes of blocks, full or not. *)
Lemma block_sizes n :
  (1 <= n <= 8)%nat -> exists m, encoded_block_sizes !!! n = Z.of_nat m /\ (n < m <= 11)%nat /\
    decoded_block_sizes m = Z.of_nat n /\ 256 ^ Z.of_nat n <= 58 ^ Z.of_nat m.
Proof.
  intros Hn. exists (Z.to_nat (encoded_block_sizes !!! n)).
  do 9 (destruct n as [|n]; [try lia; vm_compute; repeat split; congruence || lia|]). lia.
Qed.

Lemma block_sizes_inv m :
  (m <= 11)%nat -> 0 < decoded_block_sizes m ->
  exists n, decoded_block_sizes m = Z.of_nat n /\ (1 <= n <= 8)%nat /\ encoded_block_sizes !!! n = Z.of_nat m /\
    ((n < 8)%nat <-> (m < 11)%nat).
Proof.
  intros Hm H. exists (Z.to_nat (decoded_block_sizes m)).
  do 12 (destruct m as [|m]; [try (vm_compute in H; discriminate); vm_compute; repeat split; congruence || lia|]). lia.
Qed.

(** ** Numbers and bytes *)

Lemma shift_or_byte acc b : byte_ok b -> Z.lor (Z.shiftl acc 8) b = 256 * acc + b.
Proof.
  intros Hb. rewrite Z.lor_comm, lor_shiftl_add by (try lia; exact Hb). change (2 ^ 8) with 256. lia.
Qed.

Lemma uint_8be_acc data acc :
  bytes_ok data -> 0 <= acc -> acc * 256 ^ Z.of_nat (length data) + be_combine data < 2 ^ 64 ->
  fold_left (fun res b => Z.lor (u64 (Z.shiftl res 8)) b) data acc
  = acc * 256 ^ Z.of_nat (length data) + be_combine data.
Proof.
  intros Hd. revert acc. induction Hd as [|b l Hb Hl IH]; intros acc Ha Hlt.
  { change (be_combine []) with 0. cbn. lia. }
  cbn [fold_left length] in *. rewrite Nat2Z.inj_succ, Z.pow_succ_r in * by lia.
  change (b :: l) with ([b] ++ l) in *. rewrite be_combine_app in *. change (be_combine [b]) with b in *.
  pose proof (be_combine_bound l Hl). assert (0 < 256 ^ Z.of_nat (length l)) by lia.
  assert (byte_ok b) as [Hb0 Hb1] by done. rewrite wrap_small.
  2:{ split; [apply Z.shiftl_nonneg; lia|]. rewrite Z.shiftl_mul_pow2 by lia. change (2 ^ 8) with 256. nia. }
  rewrite shift_or_byte by done. rewrite IH by nia. lia.
Qed.

Lemma uint_8be_to_64_spec data : bytes_ok data -> (length data <= 8)%nat -> uint_8be_to_64 data = be_combine data.
Proof.
  intros Hd Hl. unfold uint_8be_to_64. rewrite uint_8be_acc; [lia|done|lia|].
  pose proof (be_combine_bound data Hd). assert (256 ^ Z.of_nat (length data) <= 256 ^ 8) by (apply Z.pow_le_mono_r; lia).
  change (2 ^ 64) with (256 ^ 8). lia.
Qed.

(** One byte of a word under its mask. *)
Lemma land_byte x k : 0 <= k -> Z.land x (Z.shiftl 255 k) = (x / 2 ^ k) mod 256 * 2 ^ k.
Proof.
  intros Hk. rewrite <- Z.shiftl_mul_pow2, <- Z.shiftr_div_pow2 by done. change 256 with (2 ^ 8).
  rewrite <- Z.land_ones by lia. change 255 with (Z.ones 8). apply Z.bits_inj'. intros n Hn.
  rewrite Z.land_spec, !Z.shiftl_spec, Z.land_spec by lia. destruct (Z.ltb_spec n k).
  - rewrite (Z.testbit_neg_r (Z.ones 8)), (Z.testbit_neg_r (Z.shiftr x k)) by lia. apply andb_false_r.
  - rewrite Z.shiftr_spec by lia. by replace (n - k + k) with n by lia.
Qed.

Lemma mask_up x k j : 0 <= k -> 0 <= j -> k + j <= 56 ->
  u64 (Z.shiftl (Z.land x (Z.shiftl 255 k)) j) = Z.shiftl ((x / 2 ^ k) mod 256) (k + j).
Proof.
  intros Hk Hj Hkj. rewrite land_byte, !Z.shiftl_mul_pow2, <- Z.mul_assoc, <- Z.pow_add_r by lia.
  apply wrap_small. pose proof (Z.mod_pos_bound (x / 2 ^ k) 256 ltac:(lia)).
  assert (2 ^ (k + j) <= 2 ^ 56) by (apply Z.pow_le_mono_r; lia). assert (0 < 2 ^ (k + j)) by lia.
  change (2 ^ 64) with (256 * 2 ^ 56). split; nia.
Qed.

Lemma mask_down x k j : 0 <= j <= k -> 
  Z.shiftr (Z.land x (Z.shiftl 255 k)) j = Z.shiftl ((x / 2 ^ k) mod 256) (k - j).
Proof.
  intros Hj. rewrite land_byte by lia. rewrite <- Z.shiftl_mul_pow2 by lia.
  rewrite Z.shiftr_shiftl_l by lia. done.
Qed.

Lemma lor_horner a b k : 0 <= k -> byte_ok b -> Z.lor (Z.shiftl a (k + 8)) (Z.shiftl b k) = Z.shiftl (256 * a + b) k.
Proof.
  intros Hk Hb. rewrite (Z.add_comm k), <- Z.shiftl_shiftl by lia. by rewrite <- Z.shiftl_lor, shift_or_byte.
Qed.

Lemma byte_mod z : byte_ok (z mod 256).
Proof. by apply Z.mod_pos_bound. Qed.

Lemma SWAP64_be x : SWAP64 x = be_combine (le_split 8 x).
Proof.
  unfold SWAP64.
  change 0x00000000000000ff with (Z.shiftl 255 0). change 0x000000000000ff00 with (Z.shiftl 255 8).
  change 0x0000000000ff0000 with (Z.shiftl 255 16). change 0x00000000ff000000 with (Z.shiftl 255 24).
  change 0x000000ff00000000 with (Z.shiftl 255 32). change 0x0000ff0000000000 with (Z.shiftl 255 40).
  change 0x00ff000000000000 with (Z.shiftl 255 48). change 0xff00000000000000 with (Z.shiftl 255 56).
  rewrite !mask_up, !mask_down by lia.
  change (0 + 56) with (8 + 40 + 8). rewrite (lor_horner _ _ (8 + 40)) by (lia || apply byte_mod).
  change (8 + 40) with (16 + 24 + 8). rewrite (lor_horner _ _ (16 + 24)) by (lia || apply byte_mod).
  change (16 + 24) with (24 + 8 + 8). rewrite (lor_horner _ _ (24 + 8)) by (lia || apply byte_mod).
  change (24 + 8) with (32 - 8 + 8). rewrite (lor_horner _ _ (32 - 8)) by (lia || apply byte_mod).
  change (32 - 8) with (40 - 24 + 8). rewrite (lor_horner _ _ (40 - 24)) by (lia || apply byte_mod).
  change (40 - 24) with (48 - 40 + 8). rewrite (lor_horner _ _ (48 - 40)) by (lia || apply byte_mod).
  change (48 - 40) with (56 - 56 + 8). rewrite (lor_horner _ _ (56 - 56)) by (lia || apply byte_mod).
  change (56 - 56) with 0. rewrite Z.shiftl_0_r, Z.div_1_r. unfold be_combine. cbn [le_split fold_left].
  rewrite !Z.div_div by lia. reflexivity.
Qed.

Lemma uint_64_to_8be_spec num size :
  fits 64 num -> (size <= 8)%nat -> num < 256 ^ Z.of_nat size -> uint_64_to_8be num size = be_split size num.
Proof.
  intros Hn Hs Hlt. unfold uint_64_to_8be. rewrite SWAP64_be.
  rewrite be_combine_le, le_split_combine; [|apply Forall_rev, le_split_ok|by rewrite length_rev, length_le_split].
  change (rev (le_split 8 num)) with (be_split 8 num).
  rewrite <- (be_split_combine (drop (8 - size) (be_split 8 num)) size); [|apply bytes_ok_drop, be_split_ok|].
  2:{ rewrite length_drop, length_be_split. lia. }
  f_equal. pose proof (be_combine_split 8 num Hn) as E.
  rewrite <- (take_drop (8 - size) (be_split 8 num)), be_combine_app in E.
  pose proof (be_combine_bound (drop (8 - size) (be_split 8 num)) ltac:(auto with kk)) as Hd.
  pose proof (be_combine_bound (take (8 - size) (be_split 8 num)) ltac:(auto with kk)) as Ht.
  rewrite length_drop, length_be_split in E, Hd. replace (8 - (8 - size))%nat with size in * by lia.
  destruct Hn as [Hn _]. set (t := be_combine (take _ _)) in *. assert (t <= 0) by nia. nia.
Qed.

(** ** Blocks *)

Lemma encode_loop_spec k fuel num tl :
  (k < fuel)%nat -> 0 <= num < 58 ^ Z.of_nat k ->
  encode_loop fuel num (Z.of_nat k - 1) (replicate k (alphabet !!! 0%nat) ++ tl)
  = Some (map letter_of (digits k num) ++ tl).
Proof.
  revert fuel num tl. induction k as [|k IH]; intros fuel num tl Hf Hn; (destruct fuel as [|fuel]; [lia|]); cbn [encode_loop].
  { assert (num = 0) as -> by (cbn in Hn; lia). done. }
  destruct (Z.ltb_spec 0 num) as [Hpos|].
  - destruct (Z.ltb_spec (Z.of_nat (S k) - 1) 0); [lia|]. rewrite pow58_succ in Hn.
    replace (Z.of_nat (S k) - 1) with (Z.of_nat k) by lia. rewrite Nat2Z.id, replicate_S_end, <- app_assoc.
    rewrite insert_app_r_alt by (rewrite length_replicate; lia). rewrite length_replicate, Nat.sub_diag. cbn [app].
    change (<[0%nat:=?x]> (?y :: ?l)) with (x :: l). unfold alphabet_size.
    change (<[0%nat:=alphabet !!! Z.to_nat (num mod 58)]> (alphabet !!! 0%nat :: tl)) with (letter_of (num mod 58) :: tl).
    rewrite IH by (zlia || lia). cbn [digits]. rewrite map_app, <- app_assoc. done.
  - assert (num = 0) as -> by lia. rewrite digits_zero. f_equal. f_equal.
    clear. induction (S k) as [|n IHn]; [done|]. cbn [replicate map]. by rewrite IHn.
Qed.

Lemma encode_block_spec block m :
  bytes_ok block -> (1 <= length block <= 8)%nat -> encoded_block_sizes !!! length block = Z.of_nat m ->
  encode_block block = Some (map letter_of (digits m (be_combine block))).
Proof.
  intros Hb Hl Hm. destruct (block_sizes _ Hl) as (m' & Hm' & Hle & _ & Hpow).
  assert (m' = m) as -> by lia. unfold encode_block. rewrite Hm, uint_8be_to_64_spec by (done || lia).
  rewrite Nat2Z.id, <- (app_nil_r (replicate _ _)). rewrite encode_loop_spec; [by rewrite app_nil_r|lia|].
  pose proof (be_combine_bound block Hb). lia.
Qed.

Lemma digits_value_nonneg letters :
  Forall (fun c => 0 <= reverse_alphabet c) letters -> 0 <= digits_value (map reverse_alphabet letters).
Proof. induction 1 as [|c l Hc _ IH]; cbn [map digits_value]; lia. Qed.

Lemma decode_loop_spec letters k r v :
  bytes_ok letters -> (k + length letters <= 11)%nat -> fits 64 r ->
  decode_loop letters r (u64 (58 ^ Z.of_nat k)) = Some v <->
  Forall (fun c => 0 <= reverse_alphabet c) letters /\
  v = r + 58 ^ Z.of_nat k * digits_value (map reverse_alphabet letters) /\ fits 64 v.
Proof.
  intros Hok. revert k r. induction Hok as [|c l Hc Hl IH]; intros k r Hk Hr; cbn [decode_loop map digits_value].
  { rewrite Z.mul_0_r, Z.add_0_r. split; [intros [= <-]; split_and!; [constructor|done|exact Hr]|by intros (_ & -> & _)]. }
  rewrite Forall_cons. destruct (Z.ltb_spec (reverse_alphabet c) 0) as [|Hd]; [split; [done|intros [[? _] _]; lia]|].
  destruct (digit_of_letter c Hc Hd) as [Hdig _]. cbn [length] in Hk.
  assert (58 ^ Z.of_nat k <= 58 ^ 10) as Hp by (apply Z.pow_le_mono_r; lia).
  assert (0 < 58 ^ Z.of_nat k) as Hp0 by lia.
  rewrite (wrap_small 64 (58 ^ Z.of_nat k)) by (words; lia). unfold digit_ok in Hdig.
  rewrite mul128_spec by (words; lia).
  unfold alphabet_size. rewrite (Z.mul_comm (58 ^ Z.of_nat k) 58), <- pow58_succ.
  set (d := reverse_alphabet c) in *. set (p := 58 ^ Z.of_nat k) in *.
  replace (r + p * (d + 58 * digits_value (map reverse_alphabet l)))
    with (r + p * d + 58 ^ Z.of_nat (S k) * digits_value (map reverse_alphabet l)) by (rewrite pow58_succ; subst p; lia).
  assert (0 <= p * d) by nia. destruct (Z.ltb_spec (r + p * d) (2 ^ 64)) as [Hlt|Hge].
  - rewrite Z.mod_small, Z.div_small by (words; lia). rewrite wrap_small by (words; lia).
    destruct (Z.ltb_spec (r + p * d) r); [lia|]. cbn [orb negb Z.eqb]. rewrite IH by (words; lia).
    split; [intros (? & ? & ?); by split_and!|intros ([_ ?] & ? & ?); by split_and!].
  - replace (_ || _) with true; [split; [done|]|].
    + intros ([_ Hf] & -> & [_ Hv]). exfalso.
      assert (0 <= digits_value (map reverse_alphabet l)) as Hnn by (by apply digits_value_nonneg).
      assert (0 < 58 ^ Z.of_nat (S k)) by lia. nia.
    + symmetry. destruct (Z.eqb_spec 0 (p * d / 2 ^ 64)) as [E|]; [|by rewrite orb_true_r].
      rewrite orb_false_r. apply Z.ltb_lt. words. assert (p * d < 2 ^ 64) by zlia.
      rewrite (Z.mod_small (p * d)) by lia. zlia.
Qed.

Lemma map_letters ds : Forall digit_ok ds -> map reverse_alphabet (map letter_of ds) = ds.
Proof. induction 1 as [|d l Hd _ IH]; [done|]. cbn [map]. rewrite IH. f_equal. by apply letter_of_digit. Qed.

Lemma map_digits letters :
  bytes_ok letters -> Forall (fun c => 0 <= reverse_alphabet c) letters ->
  map letter_of (map reverse_alphabet letters) = letters /\ Forall digit_ok (map reverse_alphabet letters).
Proof.
  intros Hb Hd. split.
  - induction Hd as [|c l Hc _ IH]; [done|]. apply Forall_cons in Hb as [Hb0 Hb]. cbn [map].
    rewrite IH by done. f_equal. by apply digit_of_letter.
  - apply Forall_map. apply Forall_forall. intros c Hc. unfold bytes_ok in Hb. rewrite Forall_forall in Hb, Hd.
    apply digit_of_letter; auto.
Qed.

Lemma letters_ok ds : Forall digit_ok ds -> bytes_ok (map letter_of ds).
Proof. intros H. apply Forall_map. eapply Forall_impl; [exact H|]. intros d Hd. by apply letter_of_digit. Qed.

Lemma decode_loop_start letters v :
  bytes_ok letters -> (length letters <= 11)%nat ->
  decode_loop letters 0 1 = Some v <->
  Forall (fun c => 0 <= reverse_alphabet c) letters /\ v = digits_value (map reverse_alphabet letters) /\ fits 64 v.
Proof.
  intros Hb Hl. change 1 with (u64 (58 ^ Z.of_nat 0)). rewrite (decode_loop_spec letters 0) by (done || words; lia).
  change (58 ^ Z.of_nat 0) with 1. by rewrite Z.mul_1_l, Z.add_0_l.
Qed.

Lemma pow256 n : 256 ^ Z.of_nat n = 2 ^ (8 * Z.of_nat n).
Proof. rewrite Z.pow_mul_r by lia. done. Qed.

Lemma decode_encode_block block m :
  bytes_ok block -> (1 <= length block <= 8)%nat -> encoded_block_sizes !!! length block = Z.of_nat m ->
  decode_block (map letter_of (digits m (be_combine block))) = Some block.
Proof.
  intros Hb Hl Hm. destruct (block_sizes _ Hl) as (m' & Hm' & Hle & Hdec & Hpow). assert (m' = m) as -> by lia.
  unfold decode_block. rewrite length_map, length_digits, Hdec. destruct (Z.leb_spec (Z.of_nat (length block)) 0); [lia|].
  pose proof (be_combine_bound block Hb) as Hbound.
  assert (256 ^ Z.of_nat (length block) <= 256 ^ 8) by (apply Z.pow_le_mono_r; lia).
  assert (fits 64 (be_combine block)) as Hfit by (split; [lia|change (2 ^ 64) with (256 ^ 8); lia]).
  rewrite <- map_rev. assert (Forall digit_ok (rev (digits m (be_combine block)))) as Hd by (apply Forall_rev, digits_ok).
  rewrite (proj2 (decode_loop_start (map letter_of (rev (digits m (be_combine block)))) (be_combine block)
    (letters_ok _ Hd) ltac:(rewrite length_map, length_rev, length_digits; lia))).
  2:{ rewrite map_letters by done. rewrite digits_value_digits by lia. split_and!; [|done|done].
      apply Forall_map. eapply Forall_impl; [exact Hd|]. cbn. intros d Hd'. rewrite (proj1 (letter_of_digit d Hd')). apply Hd'. }
  rewrite Z.shiftl_1_l. rewrite pow256 in Hbound. unfold full_block_size.
  replace ((_ <? _) && _) with false; [|symmetry; apply andb_false_iff].
  2:{ destruct (Z.ltb_spec (Z.of_nat (length block)) (Z.of_nat 8)); [right|by left]. rewrite wrap_small; [apply Z.leb_gt; lia|].
      split; [lia|]. apply Z.pow_lt_mono_r; lia. }
  rewrite Nat2Z.id, uint_64_to_8be_spec by (rewrite ?pow256; done || lia). by rewrite be_split_combine.
Qed.

Lemma encode_decode_block block data :
  bytes_ok block -> (length block <= 11)%nat -> decode_block block = Some data ->
  (1 <= length data <= 8)%nat /\ bytes_ok data /\ ((length data < 8)%nat <-> (length block < 11)%nat) /\
  encode_block data = Some block.
Proof.
  intros Hb Hl. unfold decode_block. destruct (Z.leb_spec (decoded_block_sizes (length block)) 0) as [|Hpos]; [done|].
  destruct (block_sizes_inv _ Hl Hpos) as (n & Hdec & Hn & Henc & Hiff). rewrite Hdec.
  destruct (decode_loop (rev block) 0 1) as [v|] eqn:E; [|done].
  apply decode_loop_start in E as (Hd & Hv & Hfit); [|by apply Forall_rev|by rewrite length_rev].
  destruct ((_ <? _) && _) eqn:Eo; [done|]. intros [= <-]. rewrite Nat2Z.id.
  assert (v < 256 ^ Z.of_nat n) as Hlt.
  { apply andb_false_iff in Eo as [Eo|Eo]; bool_to_prop.
    - unfold full_block_size in Eo. assert (n = 8%nat) as -> by lia. apply Hfit.
    - rewrite pow256. destruct (decide (n = 8%nat)) as [->|]; [apply Hfit|].
      rewrite Z.shiftl_1_l, wrap_small in Eo by (split; [lia|apply Z.pow_lt_mono_r; lia]). done. }
  rewrite uint_64_to_8be_spec by (done || lia). rewrite length_be_split.
  split; [done|]. split; [apply be_split_ok|]. split; [done|].
  rewrite (encode_block_spec _ (length block)) by (rewrite ?length_be_split; done || apply be_split_ok).
  rewrite be_combine_split by (destruct Hfit; lia). rewrite Hv. f_equal.
  destruct (map_digits (rev block)) as [E1 E2]; [by apply Forall_rev|done|].
  rewrite <- (length_rev block), <- (length_map reverse_alphabet (rev block)), digits_digits_value by done.
  by rewrite map_rev, E1, rev_involutive.
Qed.

(** ** Texts *)

Lemma encode_blocks_spec q data :
  bytes_ok data -> (length data / 8 = q)%nat ->
  exists enc, encode_blocks q data = Some enc /\ decode_blocks q enc = Some data /\ bytes_ok enc /\
    (length enc / 11 = q)%nat /\ 0 <= decoded_block_sizes (length enc mod 11).
Proof.
  revert data. induction q as [|q IH]; intros data Hb Hq; cbn [encode_blocks decode_blocks].
  - destruct data as [|b data]; [by exists []|]. assert (1 <= length (b :: data) <= 7)%nat as Hl by (cbn [length] in *; nlia).
    generalize dependent (b :: data). clear b data. intros data Hb Hq Hl.
    destruct (Nat.ltb_spec 0 (length data)); [|lia].
    destruct (block_sizes (length data)) as (m & Hm & Hle & Hdec & _); [lia|].
    pose proof (decode_encode_block data m Hb ltac:(lia) Hm) as Hback.
    exists (map letter_of (digits m (be_combine data))). rewrite (encode_block_spec _ m) by (done || lia).
    pose proof (letters_ok _ (digits_ok m (be_combine data))) as Hlok.
    apply encode_decode_block in Hback as Hiff; [|done|rewrite length_map, length_digits; lia].
    destruct Hiff as (_ & _ & Hiff & _). rewrite length_map, length_digits in *. destruct (Nat.ltb_spec 0 m); [|lia].
    rewrite Nat.div_small, Nat.mod_small by lia. rewrite Hdec. by split_and!; try lia.
  - destruct (IH (drop 8 data)) as (rest & E1 & E2 & Hrok & Hlen & Hmod); [auto with kk|rewrite length_drop; nlia|].
    assert (length (take 8 data) = 8%nat) as H8 by (rewrite length_take; nlia).
    assert (encoded_block_sizes !!! length (take 8 data) = Z.of_nat 11) as Hm by (by rewrite H8).
    pose proof (letters_ok _ (digits_ok 11 (be_combine (take 8 data)))) as Hlok.
    exists (map letter_of (digits 11 (be_combine (take 8 data))) ++ rest). unfold full_block_size, full_encoded_block_size.
    rewrite (encode_block_spec _ 11) by (auto with kk || lia). cbn [mbind option_bind]. rewrite E1. cbn [mbind option_bind].
    assert (length (map letter_of (digits 11 (be_combine (take 8 data)))) = 11%nat) as H11 by (by rewrite length_map, length_digits).
    rewrite take_app_length', drop_app_length' by done.
    rewrite decode_encode_block by (auto with kk || lia). cbn [mbind option_bind]. rewrite E2. cbn [mbind option_bind].
    rewrite take_drop, length_app, H11. split_and!; [done|done|by apply bytes_ok_app|nlia|].
    by replace ((11 + length rest) mod 11)%nat with (length rest mod 11)%nat by nlia.
Qed.

Lemma decode_blocks_spec q enc data :
  bytes_ok enc -> (length enc / 11 = q)%nat -> decode_blocks q enc = Some data ->
  bytes_ok data /\ (length data / 8 = q)%nat /\ encode_blocks q data = Some enc.
Proof.
  revert enc data. induction q as [|q IH]; intros enc data Hb Hq; cbn [encode_blocks decode_blocks].
  - destruct (Nat.ltb_spec 0 (length enc)) as [|He].
    + intros H'. apply encode_decode_block in H' as (Hl & Hok & Hiff & E); [|done|nlia].
      rewrite Nat.div_small by nlia. destruct (Nat.ltb_spec 0 (length data)); [done|lia].
    + intros [= <-]. assert (enc = []) as -> by (apply length_zero_iff_nil; lia). split_and!; [constructor|done|done].
  - unfold full_block_size, full_encoded_block_size.
    destruct (decode_block (take 11 enc)) as [b|] eqn:E1; [|done]. cbn [mbind option_bind].
    destruct (decode_blocks q (drop 11 enc)) as [r|] eqn:E2; [|done]. cbn [mbind option_bind]. intros [= <-].
    assert (length (take 11 enc) = 11%nat) as H11 by (rewrite length_take; nlia).
    apply encode_decode_block in E1 as (Hl & Hok & Hiff & E1); [|auto with kk|lia].
    apply IH in E2 as (Hrok & Hrl & E2); [|auto with kk|rewrite length_drop; nlia].
    assert (length b = 8%nat) as H8 by lia.
    rewrite take_app_length', drop_app_length' by done. rewrite E1. cbn [mbind option_bind]. rewrite E2. cbn [mbind option_bind].
    rewrite take_drop, length_app, H8. split_and!; [by apply bytes_ok_app|nlia|done].
Qed.

Lemma encode_eq data : encode data = encode_blocks (length data / 8) data.
Proof. by destruct data. Qed.

Lemma decode_eq enc :
  decode enc = if decoded_block_sizes (length enc mod 11) <? 0 then None else decode_blocks (length enc / 11) enc.
Proof. by destruct enc. Qed.

Lemma encode_decode data : bytes_ok data -> exists enc, encode data = Some enc /\ bytes_ok enc /\ decode enc = Some data.
Proof.
  intros Hb. destruct (encode_blocks_spec _ data Hb eq_refl) as (enc & E1 & E2 & Hok & Hlen & Hmod).
  exists enc. rewrite encode_eq, decode_eq, Hlen. destruct (Z.ltb_spec (decoded_block_sizes (length enc mod 11)) 0); [lia|done].
Qed.

Lemma decode_encode enc data : bytes_ok enc -> decode enc = Some data -> bytes_ok data /\ encode data = Some enc.
Proof.
  intros Hb. rewrite decode_eq. destruct (_ <? 0); [done|]. intros H'.
  apply decode_blocks_spec in H' as (Hok & Hl & E); [|done|done]. by rewrite encode_eq, Hl.
Qed.

(** The length of a text and its first letters. *)
Lemma encode_blocks_length q data enc :
  bytes_ok data -> (length data / 8 = q)%nat -> encode_blocks q data = Some enc ->
  length enc = (11 * q + Z.to_nat (encoded_block_sizes !!! (length data mod 8)))%nat.
Proof.
  revert data enc. induction q as [|q IH]; intros data enc Hb Hq; cbn [encode_blocks].
  - rewrite Nat.mod_small by nlia. destruct (Nat.ltb_spec 0 (length data)) as [|H0].
    + destruct (block_sizes (length data)) as (m & Hm & _); [nlia|].
      rewrite (encode_block_spec _ m) by (done || nlia). intros [= <-]. rewrite length_map, length_digits, Hm. lia.
    + intros [= <-]. by replace (length data) with 0%nat by lia.
  - unfold full_block_size. assert (length (take 8 data) = 8%nat) as H8 by (rewrite length_take; nlia).
    rewrite (encode_block_spec _ 11) by (auto with kk || lia || by rewrite H8). cbn [mbind option_bind].
    destruct (encode_blocks q (drop 8 data)) as [rest|] eqn:E; [|done]. cbn [mbind option_bind]. intros H'.
    apply (inj Some) in H' as <-. apply IH in E; [|auto with kk|rewrite length_drop; nlia].
    rewrite length_app, length_map, length_digits, E, length_drop.
    replace ((length data - 8) mod 8)%nat with (length data mod 8)%nat by nlia. lia.
Qed.

Lemma encode_length data enc :
  bytes_ok data -> encode data = Some enc ->
  length enc = (11 * (length data / 8) + Z.to_nat (encoded_block_sizes !!! (length data mod 8)))%nat.
Proof. intros Hb. rewrite encode_eq. by apply encode_blocks_length. Qed.

Lemma encode_front front data enc :
  bytes_ok (front ++ data) -> length front = 8%nat -> encode (front ++ data) = Some enc ->
  take 11 enc = map letter_of (digits 11 (be_combine front)).
Proof.
  intros Hb Hf. rewrite encode_eq. destruct (length (front ++ data) / 8)%nat as [|q] eqn:E;
    [rewrite length_app in E; nlia|]. cbn [encode_blocks]. unfold full_block_size.
  rewrite take_app_length', drop_app_length' by done. apply bytes_ok_app in Hb as [Hb _].
  rewrite (encode_block_spec _ 11) by (done || lia || by rewrite Hf). cbn [mbind option_bind].
  destruct (encode_blocks q data); [|done]. cbn [mbind option_bind]. intros H'. apply (inj Some) in H' as <-.
  apply take_app_length'. by rewrite length_map, length_digits.
Qed.

Lemma take_digits k j v : take k (digits (k + j) v) = digits k (v / 58 ^ Z.of_nat j).
Proof.
  revert v. induction j as [|j IH]; intros v.
  - rewrite Nat.add_0_r, Z.div_1_r. apply take_ge. by rewrite length_digits.
  - rewrite Nat.add_succ_r. cbn [digits]. rewrite take_app_le by (rewrite length_digits; lia). rewrite IH.
    f_equal. rewrite pow58_succ, Z.div_div by lia. done.
Qed.

(** every byte string has a text, which decodes to
    it; and a text that decodes is the text of what it decodes to, so no two texts
    stand for the same bytes: wrong lengths, foreign letters and blocks whose number
    is too large are refused. *)
Theorem base58_correct :
  (forall data, bytes_ok data -> exists enc, encode data = Some enc /\ decode enc = Some data) /\
  (forall enc data, bytes_ok enc -> decode enc = Some data -> encode data = Some enc).
Proof.
  split.
  - intros data Hb. destruct (encode_decode data Hb) as (enc & E1 & _ & E2). by exists enc.
  - intros enc data Hb E. by apply decode_encode.
Qed.

Lemma base58_correct_witness :
  (exists enc, encode (str "kryptokrona"%string) = Some enc /\ decode enc = Some (str "kryptokrona"%string)) /\
  encode [0; 0; 0; 0; 0; 0; 0; 1; 255] = Some (str "111111111125Q"%string).
Proof.
  split.
  - apply base58_correct. apply (bool_decide_unpack _). vm_compute. exact I.
  - apply base58_correct; [apply (bool_decide_unpack _); vm_compute; exact I|vm_compute; reflexivity].
Defined.

(** ** Addresses *)

Lemma get_varint_data_codec : codec_plus (fits 64) get_varint_data (readVarint 64).
Proof.
  destruct (readVarint_codec 64 ltac:(lia)) as [[Hr Hc Hok] Hne].
  assert (forall v, fits 64 v -> get_varint_data v = writeVarint v) as E.
  { intros v [Hv _]. unfold get_varint_data, writeVarint. by rewrite write_varint_loop_digits, writeVarint_loop_digits. }
  split; [split|].
  - intros v tl Hv. rewrite E by done. by apply Hr.
  - intros s v tl Hs H'. destruct (Hc s v tl Hs H') as [Hv ->]. by rewrite E.
  - intros v Hv. rewrite E by done. by apply Hok.
  - intros v Hv. rewrite E by done. by apply Hne.
Qed.

(** The tag at the front of the data of an address. *)
Lemma read_tag tag data :
  fits 64 tag -> bytes_ok data ->
  read_varint 64 (get_varint_data tag ++ data) = varint_read (Z.of_nat (length (get_varint_data tag))) tag.
Proof.
  intros Ht Hd. destruct get_varint_data_codec as [[Hr _ Hok] _].
  assert (bytes_ok (get_varint_data tag ++ data)) as Hs by (apply bytes_ok_app; auto).
  destruct (read_varint_loop_agrees 64 10 0 0 0 (get_varint_data tag ++ data) tag data) as (k & Hle & Hk & E);
    [lia|lia|lia|exact Hs|by apply Hr|].
  unfold read_varint. rewrite E. f_equal. apply (f_equal length) in Hk.
  rewrite !length_app, length_take, length_app in Hk. rewrite length_app in Hle. lia.
Qed.

Lemma read_tag_inv s read tag :
  bytes_ok s -> read_varint 64 s = varint_read read tag -> read < Z.of_nat (length s) ->
  fits 64 tag /\ s = get_varint_data tag ++ drop (Z.to_nat read) s.
Proof.
  intros Hs E Hlt. unfold read_varint in E.
  apply read_varint_loop_complete in E as [_ E]; [|lia..|exact Hs|lia]. rewrite Z.sub_0_r in E.
  by apply get_varint_data_codec in E.
Qed.

Section AddressTheorems.
Context (cn_fast_hash : list Z -> list Z) (hash_size : forall buf, pod_ok 32 (cn_fast_hash buf)).

Lemma checksum_length buf : length (take addr_checksum_size (cn_fast_hash buf)) = 4%nat.
Proof using hash_size. rewrite length_take. destruct (hash_size buf) as [-> _]. done. Qed.

Lemma encode_addr_decode tag data :
  fits 64 tag -> bytes_ok data ->
  exists addr, encode_addr cn_fast_hash tag data = Some addr /\ bytes_ok addr /\
    decode_addr cn_fast_hash addr = Some (tag, data).
Proof using hash_size.
  intros Ht Hd. destruct get_varint_data_codec as [[_ _ Hok] Hne]. pose proof (Hok tag Ht) as Htok.
  set (buf := get_varint_data tag ++ data). set (checksum := take 4 (cn_fast_hash buf)).
  assert (bytes_ok buf) as Hbuf by (by apply bytes_ok_app).
  assert (bytes_ok (buf ++ checksum)) as Hall by (apply bytes_ok_app; split; [done|apply bytes_ok_take, hash_size]).
  destruct (encode_decode _ Hall) as (addr & E1 & Haok & E2). exists addr. split; [exact E1|]. split; [done|].
  unfold decode_addr, addr_checksum_size. rewrite E2, length_app.
  assert (length checksum = 4%nat) as -> by apply checksum_length.
  assert (0 < length (get_varint_data tag))%nat as Htl by (specialize (Hne tag Ht); destruct (get_varint_data tag); [done|cbn; lia]).
  assert (length buf = length (get_varint_data tag) + length data)%nat as Hbl by apply length_app.
  destruct (Nat.leb_spec (length buf + 4) 4); [lia|].
  replace (length buf + 4 - 4)%nat with (length buf) by lia. rewrite take_app_length, drop_app_length.
  rewrite bool_decide_eq_false_2 by (intros Hn; by apply Hn). subst buf. rewrite read_tag by done.
  destruct (Z.leb_spec (Z.of_nat (length (get_varint_data tag))) 0); [lia|]. by rewrite Nat2Z.id, drop_app_length.
Qed.

Lemma decode_addr_encode addr tag data :
  bytes_ok addr -> decode_addr cn_fast_hash addr = Some (tag, data) -> data <> [] ->
  fits 64 tag /\ bytes_ok data /\ encode_addr cn_fast_hash tag data = Some addr.
Proof using Type.
  intros Ha. unfold decode_addr. destruct (decode addr) as [buf|] eqn:E; [|done].
  apply decode_encode in E as [Hbuf E]; [|done]. unfold addr_checksum_size.
  destruct (Nat.leb_spec (length buf) 4); [done|]. set (n := (length buf - 4)%nat).
  case_bool_decide as Hsum; [done|].
  destruct (read_varint 64 (take n buf)) as [read tag'| |] eqn:Er; [|done..].
  destruct (Z.leb_spec read 0) as [|Hpos]; [done|]. intros [= -> <-] Hne.
  assert (read < Z.of_nat (length (take n buf))) as Hlt.
  { apply Z.nle_gt. intros Hge. apply Hne. apply drop_ge. lia. }
  destruct (read_tag_inv (take n buf) read tag) as [Ht Es]; [auto with kk|done|done|].
  split; [done|]. split; [auto with kk|]. unfold encode_addr. rewrite <- Es. unfold addr_checksum_size.
  rewrite Hsum, take_drop. exact E.
Qed.

(** an address that [encode_addr] writes is read
    back with its tag and its data.  Conversely an address that [decode_addr]
    accepts, with data in it, is the one that [encode_addr] writes for that tag and
    data: no two texts stand for the same address, and a text of which the
    checksum is wrong is refused. *)
Theorem address_text_correct :
  (forall tag data, fits 64 tag -> bytes_ok data ->
     exists addr, encode_addr cn_fast_hash tag data = Some addr /\ decode_addr cn_fast_hash addr = Some (tag, data)) /\
  (forall addr tag data, bytes_ok addr -> decode_addr cn_fast_hash addr = Some (tag, data) -> data <> [] ->
     encode_addr cn_fast_hash tag data = Some addr).
Proof using hash_size.
  split.
  - intros tag data Ht Hd. destruct (encode_addr_decode tag data Ht Hd) as (addr & E1 & _ & E2). by exists addr.
  - intros addr tag data Ha E Hne. by apply decode_addr_encode.
Qed.

End AddressTheorems.

(** A function of the type of the hash: the first bytes of the input. *)
Definition toy_hash (buf : list Z) : list Z := map (fun b => b mod 256) (take 32 (buf ++ replicate 32 0)).

Lemma toy_hash_size buf : pod_ok 32 (toy_hash buf).
Proof.
  unfold toy_hash. split.
  - rewrite length_map, length_take, length_app, length_replicate. lia.
  - apply Forall_map, Forall_true. intros b. apply byte_mod.
Qed.

Lemma address_text_correct_witness :
  (exists addr, encode_addr toy_hash 2239254 (replicate 64 7) = Some addr /\
     decode_addr toy_hash addr = Some (2239254, replicate 64 7)) /\
  encode_addr toy_hash 0 [1; 2] = Some (str "111W7G9VSw"%string).
Proof.
  split.
  - apply (address_text_correct toy_hash toy_hash_size); [by split|]. apply (bool_decide_unpack _). vm_compute. exact I.
  - apply (address_text_correct toy_hash toy_hash_size).
    + apply (bool_decide_unpack _). vm_compute. exact I.
    + vm_compute. reflexivity.
    + discriminate.
Defined.
