(* ===== verification/TreeHash.v ===== *)
(** * Merkle trees of block transactions

    src/src/crypto/tree-hash.c: [tree_hash], [tree_depth], [tree_branch] and
    [tree_hash_from_branch].  [size_t] is 64 bits wide.  The functions only use
    [cn_fast_hash] on the concatenation of two hashes; it is the argument of
    the section, and the theorems hold for every function in its place. *)

From S2P Require Import Prelude.

(** The shift amounts of the loops [for (i = sizeof(size_t) << 2; i > 0; i >>= 1)]. *)
Definition shifts : list Z := [32; 16; 8; 4; 2; 1].

(** The largest power of two below [count], by smearing the top bit of [count - 1]. *)
Definition tree_hash_cnt (count : Z) : Z :=
  let cnt := fold_left (fun cnt i => Z.lor cnt (Z.shiftr cnt i)) [1; 2; 4; 8; 16; 32] (count - 1) in
  Z.ldiff cnt (Z.shiftr cnt 1).

Definition tree_depth (count : Z) : Z :=
  snd (fold_left (fun '(count, depth) i =>
         if 0 <? Z.shiftr count i then (Z.shiftr count i, depth + i) else (count, depth))
       shifts (count, 0)).

(** [cnt] and [depth] at the start of [tree_branch]. *)
Definition tree_branch_cnt (count : Z) : Z * Z :=
  fold_left (fun '(cnt, depth) i =>
      if u64 (Z.shiftl cnt i) <=? count then (u64 (Z.shiftl cnt i), depth + i) else (cnt, depth))
    shifts (1, 0).

Section Tree.
Context (cn_fast_hash : list Z -> list Z).

(** The loops that hash neighbours: [ints[j] = H(in[i], in[i+1])], [i += 2], [++j]. *)
Fixpoint hash_pairs (l : list (list Z)) : list (list Z) :=
  match l with
  | x :: y :: l => cn_fast_hash (x ++ y) :: hash_pairs l
  | _ => []
  end.

(** [while (cnt > 2)] of [tree_hash]; each round halves [cnt], 64 rounds are enough. *)
Fixpoint tree_hash_loop (fuel : nat) (cnt : Z) (ints : list (list Z)) : list (list Z) :=
  match fuel with
  | O => ints
  | S fuel =>
      if 2 <? cnt
      then
        let cnt := Z.shiftr cnt 1 in
        tree_hash_loop fuel cnt (hash_pairs (take (2 * Z.to_nat cnt) ints))
      else ints
  end.

Definition tree_hash (hashes : list (list Z)) : list Z :=
  let count := Z.of_nat (length hashes) in
  if count =? 1 then hashes !!! 0%nat
  else if count =? 2 then cn_fast_hash (hashes !!! 0%nat ++ hashes !!! 1%nat)
  else
    let cnt := tree_hash_cnt count in
    let start := Z.to_nat (2 * cnt - count) in
    let ints := take start hashes ++ hash_pairs (drop start hashes) in
    let ints := tree_hash_loop 64 cnt ints in
    cn_fast_hash (ints !!! 0%nat ++ ints !!! 1%nat).

(** The loop of [tree_branch] fills [branch[depth-1], ..., branch[0]]; the result
    lists [branch[0], branch[1], ...]. *)
Fixpoint tree_branch_loop (depth : nat) (ints : list (list Z)) (branch : list (list Z))
    : list (list Z) :=
  match depth with
  | O => branch
  | S depth => tree_branch_loop depth (hash_pairs (drop 1 ints)) (ints !!! 0%nat :: branch)
  end.

Definition tree_branch (hashes : list (list Z)) : list (list Z) :=
  let count := Z.of_nat (length hashes) in
  let '(cnt, depth) := tree_branch_cnt count in
  let start := Z.to_nat (2 * cnt - count) in
  let ints := take (start - 1) (drop 1 hashes) ++ hash_pairs (drop start hashes) in
  tree_branch_loop (Z.to_nat depth) ints [].

(** Bit [depth] of the path, [None] for a null pointer. *)
Definition path_bit (path : option (list Z)) (depth : nat) : bool :=
  match path with
  | None => false
  | Some p => Z.testbit (p !!! (depth / 8)%nat) (Z.of_nat (depth mod 8))
  end.

(** [buffer] is rebuilt in every round: the node so far on the side the path
    says, the branch hash on the other; the hash of a full buffer is taken at
    the start of the next round, or at the end. *)
Fixpoint tree_hash_from_branch_loop (depth : nat) (branch : list (list Z)) (node : list Z)
    (path : option (list Z)) : list Z :=
  match depth with
  | O => node
  | S depth =>
      let buffer := if path_bit path depth then branch !!! depth ++ node
                    else node ++ branch !!! depth in
      tree_hash_from_branch_loop depth branch (cn_fast_hash buffer) path
  end.

Definition tree_hash_from_branch (branch : list (list Z)) (depth : nat) (leaf : list Z)
    (path : option (list Z)) : list Z :=
  tree_hash_from_branch_loop depth branch leaf path.

End Tree.

(** ** The bit tricks *)

(** [[2^(n-1); ...; 2; 1]] *)
Fixpoint halvings (n : nat) : list Z :=
  match n with O => [] | S n => 2 ^ Z.of_nat n :: halvings n end.

Lemma pow2_double n : 2 ^ 2 ^ Z.of_nat (S n) = 2 ^ (2 ^ Z.of_nat n + 2 ^ Z.of_nat n).
Proof. f_equal. rewrite Nat2Z.inj_succ, Z.pow_succ_r; lia. Qed.

Lemma tree_depth_loop n count depth :
  0 < count < 2 ^ 2 ^ Z.of_nat n ->
  snd (fold_left (fun '(count, depth) i =>
         if 0 <? Z.shiftr count i then (Z.shiftr count i, depth + i) else (count, depth))
       (halvings n) (count, depth)) = depth + Z.log2 count.
Proof.
  revert count depth. induction n as [|n IH]; intros count depth Hc.
  - simpl in *. assert (count = 1) as -> by lia. simpl. lia.
  - rewrite pow2_double in Hc. cbn [halvings fold_left].
    set (i := 2 ^ Z.of_nat n) in *. assert (0 < i) by (apply Z.pow_pos_nonneg; lia).
    rewrite Z.pow_add_r in Hc by lia. assert (0 < 2 ^ i) by (apply Z.pow_pos_nonneg; lia).
    rewrite Z.shiftr_div_pow2 by lia. destruct (Z.ltb_spec 0 (count / 2 ^ i)) as [Hp|Hp].
    + rewrite IH by (split; [done|apply Z.div_lt_upper_bound; lia]).
      rewrite <- Z.shiftr_div_pow2, Z.log2_shiftr by lia.
      rewrite Z.max_r; [lia|]. enough (i <= Z.log2 count) by lia.
      apply (proj1 (Z.log2_le_pow2 count i ltac:(lia))).
      destruct (Z.le_gt_cases (2 ^ i) count); [done|]. rewrite Z.div_small in Hp; lia.
    + apply IH. split; [lia|]. destruct (Z.le_gt_cases (2 ^ i) count) as [Hle|]; [|done].
      apply (Z.div_le_mono _ _ (2 ^ i)) in Hle; [|done]. rewrite Z.div_same in Hle; lia.
Qed.

Lemma tree_depth_log2 count : 0 < count < 2 ^ 64 -> tree_depth count = Z.log2 count.
Proof. intros Hc. exact (tree_depth_loop 6 count 0 Hc). Qed.

Lemma tree_branch_cnt_loop n count depth :
  0 <= depth -> 2 ^ depth <= count < 2 ^ (depth + 2 ^ Z.of_nat n) -> count < 2 ^ 64 ->
  depth + 2 ^ Z.of_nat n <= 64 ->
  fold_left (fun '(cnt, depth) i =>
      if u64 (Z.shiftl cnt i) <=? count then (u64 (Z.shiftl cnt i), depth + i) else (cnt, depth))
    (halvings n) (2 ^ depth, depth) = (2 ^ Z.log2 count, Z.log2 count).
Proof.
  revert depth. induction n as [|n IH]; intros depth Hd Hc H64 Hd64.
  - change (2 ^ Z.of_nat 0) with 1 in *. cbn [halvings fold_left].
    by rewrite (Z.log2_unique count depth).
  - rewrite Nat2Z.inj_succ, Z.pow_succ_r in * by lia. cbn [halvings fold_left].
    set (i := 2 ^ Z.of_nat n) in *. assert (0 < i) by (apply Z.pow_pos_nonneg; lia).
    rewrite Z.shiftl_mul_pow2, <- Z.pow_add_r by lia.
    rewrite wrap_small.
    2: { split; [apply Z.pow_nonneg; lia|apply Z.pow_lt_mono_r; lia]. }
    destruct (Z.leb_spec (2 ^ (depth + i)) count).
    + apply IH; try lia. replace (depth + i + i) with (depth + 2 * i) by lia. lia.
    + apply IH; lia.
Qed.

Lemma tree_branch_cnt_log2 count :
  0 < count < 2 ^ 64 -> tree_branch_cnt count = (2 ^ Z.log2 count, Z.log2 count).
Proof. intros Hc. apply (tree_branch_cnt_loop 6 count 0); lia. Qed.

(** Bits of the smeared number: bit [n] is set when a bit of the original in
    [n .. n + w) is. *)
Definition smeared (x c w : Z) : Prop :=
  forall n, 0 <= n ->
    Z.testbit c n = true <-> exists m, n <= m < n + w /\ Z.testbit x m = true.

Lemma smeared_step x c w : 0 < w -> smeared x c w -> smeared x (Z.lor c (Z.shiftr c w)) (2 * w).
Proof.
  intros Hw H n Hn. rewrite Z.lor_spec, Z.shiftr_spec, orb_true_iff by lia.
  rewrite (H n), (H (n + w)) by lia. split.
  - intros [(m & ? & ?)|(m & ? & ?)]; exists m; (split; [lia|done]).
  - intros (m & ? & ?). destruct (Z.lt_ge_cases m (n + w)); [left|right]; exists m; (split; [lia|done]).
Qed.

Lemma smeared_all x :
  smeared x (fold_left (fun cnt i => Z.lor cnt (Z.shiftr cnt i)) [1; 2; 4; 8; 16; 32] x) 64.
Proof.
  cbn [fold_left]. apply (smeared_step x _ 32 ltac:(lia)), (smeared_step x _ 16 ltac:(lia)),
    (smeared_step x _ 8 ltac:(lia)), (smeared_step x _ 4 ltac:(lia)),
    (smeared_step x _ 2 ltac:(lia)), (smeared_step x _ 1 ltac:(lia)).
  intros n Hn. split; [intros; exists n; split; [lia|done]|].
  intros (m & ? & ?). by replace n with m by lia.
Qed.

Lemma testbit_above_log2 x m : 0 < x -> Z.testbit x m = true -> m <= Z.log2 x.
Proof.
  intros Hx Hm. destruct (Z.le_gt_cases m (Z.log2 x)); [done|].
  rewrite Z.bits_above_log2 in Hm; [done|lia|lia].
Qed.

Lemma tree_hash_cnt_log2 count :
  1 < count <= 2 ^ 64 -> tree_hash_cnt count = 2 ^ Z.log2 (count - 1).
Proof.
  intros Hc. unfold tree_hash_cnt. set (x := count - 1). set (c := fold_left _ _ _).
  assert (forall n, 0 <= n -> Z.testbit c n = true <-> n <= Z.log2 x) as Hbit.
  { intros n Hn. etrans; [exact (smeared_all x n Hn)|]. split.
    - intros (m & ? & ?%testbit_above_log2); unfold x in *; lia.
    - intros Hle. exists (Z.log2 x). split; [|apply Z.bit_log2; unfold x; lia].
      assert (Z.log2 x < 64) by (apply Z.log2_lt_pow2; unfold x; lia). lia. }
  apply Z.bits_inj'. intros n Hn. rewrite Z.ldiff_spec, Z.shiftr_spec by lia.
  rewrite Z.pow2_bits_eqb by apply Z.log2_nonneg. apply eq_true_iff_eq.
  rewrite andb_true_iff, negb_true_iff, <- not_true_iff_false, !Hbit, Z.eqb_eq by lia. lia.
Qed.

(** ** Perfect trees *)

Section TreeProofs.
Context (H : list Z -> list Z).

(** The root of a perfect tree over [2 ^ n] leaves: the reference. *)
Fixpoint root (n : nat) (l : list (list Z)) : list Z :=
  match n with O => l !!! 0%nat | S n => root n (hash_pairs H l) end.

Lemma list_pair_ind {A} (P : list A -> Prop) :
  P [] -> (forall x, P [x]) -> (forall x y l, P l -> P (x :: y :: l)) -> forall l, P l.
Proof.
  intros H0 H1 H2 l. enough (P l /\ forall x, P (x :: l)) by tauto.
  induction l as [|y l [IH1 IH2]]; [auto|]. split; [apply IH2|]. intros x. by apply H2.
Qed.

Lemma hash_pairs_length l : length (hash_pairs H l) = (length l / 2)%nat.
Proof.
  induction l as [| |x y l IH] using list_pair_ind; [done|done|].
  cbn [hash_pairs length]. rewrite IH. nlia.
Qed.

Lemma pow2_S n : (2 ^ S n = 2 * 2 ^ n)%nat.
Proof. by rewrite Nat.pow_succ_r'. Qed.

Lemma hash_pairs_pow2 n l : length l = (2 ^ S n)%nat -> length (hash_pairs H l) = (2 ^ n)%nat.
Proof. intros Hl. rewrite hash_pairs_length, Hl, pow2_S. nlia. Qed.

Lemma tree_hash_loop_root fuel k l :
  (k <= fuel)%nat -> length l = (2 ^ S k)%nat ->
  let r := tree_hash_loop H fuel (2 ^ Z.of_nat (S k)) l in
  H (r !!! 0%nat ++ r !!! 1%nat) = root (S k) l.
Proof.
  revert fuel l. induction k as [|k IH]; intros fuel l Hf Hl.
  - destruct l as [|a [|b [|? ?]]]; try done. by destruct fuel.
  - destruct fuel as [|fuel]; [lia|]. cbn [tree_hash_loop].
    rewrite (Nat2Z.inj_succ (S k)), Z.pow_succ_r by lia.
    assert (2 <= 2 ^ Z.of_nat (S k)).
    { rewrite Nat2Z.inj_succ, Z.pow_succ_r by lia.
      pose proof (Z.pow_pos_nonneg 2 (Z.of_nat k)). lia. }
    destruct (Z.ltb_spec 2 (2 * 2 ^ Z.of_nat (S k))); [|lia].
    rewrite Z.shiftr_div_pow2, (Z.mul_comm 2), Z.div_mul by lia.
    rewrite take_ge; [|rewrite Hl, pow2_S, <- (Nat2Z.id (2 ^ S k)), Nat2Z.inj_pow; lia].
    apply IH; [lia|]. by apply hash_pairs_pow2.
Qed.

(** The bottom level: the leaves the tree takes as they are, and the pairs. *)
Definition bottom (n : nat) (l : list (list Z)) : list (list Z) :=
  let start := (2 * 2 ^ n - length l)%nat in take start l ++ hash_pairs H (drop start l).

Lemma bottom_length n l :
  (2 ^ n <= length l <= 2 * 2 ^ n)%nat -> length (bottom n l) = (2 ^ n)%nat.
Proof.
  intros Hl. unfold bottom. rewrite length_app, hash_pairs_length, length_take, length_drop. nlia.
Qed.

Lemma Z_pow2_nat n : 2 ^ Z.of_nat n = Z.of_nat (2 ^ n).
Proof. by rewrite Nat2Z.inj_pow. Qed.

Lemma tree_hash_root n l :
  (2 ^ n < length l <= 2 * 2 ^ n)%nat -> Z.of_nat (length l) <= 2 ^ 64 ->
  tree_hash H l = root n (bottom n l).
Proof.
  intros Hl H64. unfold tree_hash. pose proof (Nat.pow_nonzero 2 n).
  destruct (Z.eqb_spec (Z.of_nat (length l)) 1); [lia|].
  destruct (Z.eqb_spec (Z.of_nat (length l)) 2) as [E|E].
  { destruct n as [|n]; [|pose proof (Nat.pow_nonzero 2 n); rewrite pow2_S in Hl; lia].
    by destruct l as [|a [|b [|? ?]]]. }
  destruct n as [|n]; [simpl in Hl; lia|].
  assert (Z.log2 (Z.of_nat (length l) - 1) = Z.of_nat (S n)) as Elog.
  { apply Z.log2_unique; [lia|]. rewrite Z.pow_succ_r, Z_pow2_nat by lia. lia. }
  rewrite tree_hash_cnt_log2, Elog by lia.
  replace (Z.to_nat (2 * 2 ^ Z.of_nat (S n) - Z.of_nat (length l)))
    with (2 * 2 ^ S n - length l)%nat by (rewrite Z_pow2_nat; lia).
  apply tree_hash_loop_root; [|by apply bottom_length; lia].
  assert (2 ^ Z.of_nat (S n) < 2 ^ 64) as Hlt%Z.pow_lt_mono_r_iff by (rewrite Z_pow2_nat; lia); lia.
Qed.

Lemma tree_branch_loop_root d leaf ints acc :
  length (leaf :: ints) = (2 ^ d)%nat ->
  exists B, tree_branch_loop H d ints acc = B ++ acc /\ length B = d /\
    forall tail, tree_hash_from_branch_loop H d (B ++ tail) leaf None = root d (leaf :: ints).
Proof.
  revert leaf ints acc. induction d as [|d IH]; intros leaf ints acc Hl.
  - exists []. split_and!; done.
  - destruct ints as [|i0 ints].
    { simpl length in Hl. rewrite pow2_S in Hl. lia. }
    destruct (IH (H (leaf ++ i0)) (hash_pairs H ints) (i0 :: acc)) as (B & E & HB & Hroot).
    { pose proof (hash_pairs_pow2 d (leaf :: i0 :: ints) Hl) as Hp. exact Hp. }
    exists (B ++ [i0]). split_and!.
    + cbn [tree_branch_loop drop]. rewrite drop_0. simpl lookup_total. rewrite E.
      by rewrite <- app_assoc.
    + rewrite length_app; simpl; lia.
    + intros tail. cbn [tree_hash_from_branch_loop path_bit root]. rewrite <- app_assoc. simpl app.
      rewrite (list_lookup_total_middle B tail i0 d) by done. apply Hroot.
Qed.

Lemma tree_branch_root n l :
  (2 ^ n <= length l < 2 * 2 ^ n)%nat -> Z.of_nat (length l) < 2 ^ 64 ->
  length (tree_branch H l) = n /\
  tree_hash_from_branch H (tree_branch H l) n (l !!! 0%nat) None = root n (bottom n l).
Proof.
  intros Hl H64. pose proof (Nat.pow_nonzero 2 n). unfold tree_branch.
  assert (Z.log2 (Z.of_nat (length l)) = Z.of_nat n) as Elog.
  { apply Z.log2_unique; [lia|]. rewrite Z.pow_succ_r, Z_pow2_nat by lia. lia. }
  rewrite tree_branch_cnt_log2, Elog, Nat2Z.id by lia.
  replace (Z.to_nat (2 * 2 ^ Z.of_nat n - Z.of_nat (length l)))
    with (2 * 2 ^ n - length l)%nat by (rewrite Z_pow2_nat; lia).
  assert (bottom n l = l !!! 0%nat ::
    (take (2 * 2 ^ n - length l - 1) (drop 1 l) ++ hash_pairs H (drop (2 * 2 ^ n - length l) l))) as Eb.
  { unfold bottom. destruct l as [|x l]; [simpl in Hl; lia|].
    destruct (2 * 2 ^ n - length (x :: l))%nat as [|st] eqn:Es; [lia|].
    simpl. by rewrite Nat.sub_0_r, drop_0. }
  destruct (tree_branch_loop_root n (l !!! 0%nat)
    (take (2 * 2 ^ n - length l - 1) (drop 1 l) ++ hash_pairs H (drop (2 * 2 ^ n - length l) l)) [])
    as (B & E & HB & Hroot); [rewrite <- Eb; apply bottom_length; lia|].
  rewrite E, app_nil_r, Eb. split; [done|]. rewrite <- (app_nil_r B). apply Hroot.
Qed.

End TreeProofs.

(** the branch [tree_branch] computes for the first leaf (the
    base transaction) proves it: for any number of hashes, hashing up from the first
    leaf along that branch gives the same root as [tree_hash] over all of them, the
    branch has [tree_depth] entries, which is the base-2 logarithm of the count, and
    this holds for every hash function. *)
Theorem tree_branch_correct (H : list Z -> list Z) hashes :
  hashes <> [] -> Z.of_nat (length hashes) < 2 ^ 64 ->
  let branch := tree_branch H hashes in
  let depth := tree_depth (Z.of_nat (length hashes)) in
  depth = Z.log2 (Z.of_nat (length hashes)) /\
  Z.of_nat (length branch) = depth /\
  tree_hash_from_branch H branch (Z.to_nat depth) (hashes !!! 0%nat) None = tree_hash H hashes.
Proof.
  intros Hne H64 branch depth.
  assert (0 < Z.of_nat (length hashes)) by (destruct hashes; simpl; [done|lia]).
  subst depth. rewrite tree_depth_log2 by lia. set (d := Z.log2 _).
  assert (0 <= d) by apply Z.log2_nonneg. set (n := Z.to_nat d).
  assert (2 ^ n <= length hashes < 2 * 2 ^ n)%nat as Hn.
  { pose proof (Z.log2_spec (Z.of_nat (length hashes)) ltac:(lia)) as Hs. fold d in Hs.
    rewrite Z.pow_succ_r in Hs by done. replace d with (Z.of_nat n) in Hs by lia.
    rewrite Z_pow2_nat in Hs. lia. }
  destruct (tree_branch_root H n hashes Hn H64) as [Hlen Hroot]. fold branch in Hlen, Hroot.
  split_and!; [done|lia|]. rewrite Hroot.
  destruct (decide (length hashes = 2 ^ n)%nat) as [E|E].
  - unfold bottom. rewrite E. replace (2 * 2 ^ n - 2 ^ n)%nat with (2 ^ n)%nat by lia.
    rewrite take_ge, drop_ge, app_nil_r by lia. destruct n as [|k].
    + destruct hashes as [|x [|? ?]]; done.
    + rewrite pow2_S in E. pose proof (Nat.pow_nonzero 2 k).
      rewrite (tree_hash_root H k) by lia.
      cbn [root]. unfold bottom. by rewrite E, Nat.sub_diag.
  - symmetry. apply tree_hash_root; lia.
Qed.

(** Witness with an injective toy hash on five leaves. *)
Lemma tree_branch_correct_witness :
  let H := fun l => 99 :: l in
  tree_hash_from_branch H (tree_branch H [[1]; [2]; [3]; [4]; [5]]) 2 [1] None
  = tree_hash H [[1]; [2]; [3]; [4]; [5]].
Proof.
  intros H. destruct (tree_branch_correct H [[1]; [2]; [3]; [4]; [5]]) as (_ & _ & E).
  - discriminate.
  - reflexivity.
  - exact E.
Defined.
