(* ===== verification/TxExtra.v ===== *)
(** * The extra field of transactions

    src/src/cryptonote_core/transaction_extra.{h,cpp}, with the serialization of
    the merge mining tag from cryptonote_serialization.cpp.  A parse result is
    the pair of the returned [bool] and the fields collected so far, which the
    callers also use when the parse failed. *)

From S2P Require Import Prelude Config Bytes Types Parser Varint.
Import parameters.

Definition TX_EXTRA_PADDING_MAX_COUNT : Z := 255.
Definition TX_EXTRA_NONCE_MAX_COUNT : Z := 255.
Definition TX_EXTRA_TAG_PADDING : Z := 0x00.
Definition TX_EXTRA_TAG_PUBKEY : Z := 0x01.
Definition TX_EXTRA_NONCE : Z := 0x02.
Definition TX_EXTRA_MERGE_MINING_TAG : Z := 0x03.
Definition TX_EXTRA_NONCE_PAYMENT_ID : Z := 0x00.

Record MergeMiningTag := mkMergeMiningTag { depth : Z; merkleRoot : Hash }.

Inductive TransactionExtraField :=
  | TransactionExtraPadding (size : Z)
  | TransactionExtraPublicKey (publicKey : PublicKey)
  | TransactionExtraNonce (nonce : list Z)
  | TransactionExtraMergeMiningTag (tag : MergeMiningTag).

(** ** Strings and the merge mining tag in the binary format *)

(** [BinaryOutputStreamSerializer::operator()(std::string &)] *)
Definition write_string (value : list Z) : list Z :=
  writeVarint (Z.of_nat (length value)) ++ value.

(** [BinaryInputStreamSerializer::operator()(std::string &, name)]; [mm_tag] says
    that the name is "mm_tag", where an oversized value is read and dropped. *)
Definition read_string (mm_tag : bool) : parser (list Z) :=
  size ← readVarint 64;
  if (MAX_EXTRA_SIZE <? size) && mm_tag
  then _ ← read_bytes size; mret []
  else read_bytes size.

(** [doSerialize(TransactionExtraMergeMiningTag &, ...)] in both directions. *)
Definition write_mm_fields (tag : MergeMiningTag) : list Z :=
  writeVarint (depth tag) ++ merkleRoot tag.

Definition read_mm_fields : parser MergeMiningTag :=
  depth ← readVarint 64;
  merkleRoot ← read_bytes 32;
  mret (mkMergeMiningTag depth merkleRoot).

Definition write_mm_tag (tag : MergeMiningTag) : list Z := write_string (write_mm_fields tag).

Definition read_mm_tag : parser MergeMiningTag :=
  field ← read_string true;
  match read_mm_fields field with
  | Some (tag, _) => mret tag
  | None => pfail
  end.

(** ** Parsing *)

(** [for (; !iss.endOfStream() && size <= TX_EXTRA_PADDING_MAX_COUNT; ++size)]: the
    final [size], or [None] when a byte is not zero. *)
Fixpoint padding_loop (size : Z) (s : list Z) : option Z :=
  match s with
  | [] => Some size
  | b :: s =>
      if size <=? TX_EXTRA_PADDING_MAX_COUNT
      then if negb (b =? 0) then None else padding_loop (size + 1) s
      else Some size
  end.

Record extra_seen := mkSeen {
  seen_padding : bool; seen_pubkey : bool; seen_nonce : bool; seen_merge_mining_tag : bool }.

(** [while (!iss.endOfStream())]: every round reads at least the tag byte. *)
Fixpoint parse_extra_loop (fuel : nat) (seen : extra_seen)
    (fields : list TransactionExtraField) (s : list Z) : bool * list TransactionExtraField :=
  match fuel, s with
  | O, _ => (false, fields)
  | S _, [] => (true, fields)
  | S fuel, c :: s =>
      let '(mkSeen padding pubkey nonce mm) := seen in
      if c =? TX_EXTRA_TAG_PADDING then
        if padding then (true, fields)
        else
          match padding_loop 1 s with
          | None => (false, fields)
          | Some size =>
              if TX_EXTRA_PADDING_MAX_COUNT <? size then (false, fields)
              else parse_extra_loop fuel (mkSeen true pubkey nonce mm)
                     (fields ++ [TransactionExtraPadding size]) []
          end
      else if c =? TX_EXTRA_TAG_PUBKEY then
        if pubkey then (true, fields)
        else
          match read_bytes 32 s with
          | None => (false, fields)
          | Some (key, s) =>
              parse_extra_loop fuel (mkSeen padding true nonce mm)
                (fields ++ [TransactionExtraPublicKey key]) s
          end
      else if c =? TX_EXTRA_NONCE then
        if nonce then (true, fields)
        else
          match (size ← read_byte; read_bytes size) s with
          | None => (false, fields)
          | Some (n, s) =>
              parse_extra_loop fuel (mkSeen padding pubkey true mm)
                (fields ++ [TransactionExtraNonce n]) s
          end
      else if c =? TX_EXTRA_MERGE_MINING_TAG then
        if mm then parse_extra_loop fuel seen fields s
        else
          match read_mm_tag s with
          | None => (false, fields)
          | Some (tag, s) =>
              parse_extra_loop fuel (mkSeen padding pubkey nonce true)
                (fields ++ [TransactionExtraMergeMiningTag tag]) s
          end
      else parse_extra_loop fuel seen fields s
  end.

Definition parseTransactionExtra (transactionExtra : list Z)
    : bool * list TransactionExtraField :=
  match transactionExtra with
  | [] => (true, [])
  | _ => parse_extra_loop (S (length transactionExtra))
           (mkSeen false false false false) [] transactionExtra
  end.

(** ** Writing *)

Definition addTransactionPublicKeyToExtra (tx_extra : list Z) (tx_pub_key : PublicKey)
    : list Z :=
  tx_extra ++ [TX_EXTRA_TAG_PUBKEY] ++ tx_pub_key.

Definition addExtraNonceToTransactionExtra (tx_extra extra_nonce : list Z)
    : option (list Z) :=
  if TX_EXTRA_NONCE_MAX_COUNT <? Z.of_nat (length extra_nonce) then None
  else Some (tx_extra ++ [TX_EXTRA_NONCE; u8 (Z.of_nat (length extra_nonce))] ++ extra_nonce).

Definition appendMergeMiningTagToExtra (tx_extra : list Z) (mm_tag : MergeMiningTag)
    : list Z :=
  tx_extra ++ [TX_EXTRA_MERGE_MINING_TAG] ++ write_mm_tag mm_tag.

(** [ExtraSerializerVisitor]; [None] for [false]. *)
Definition visit_extra (extra : list Z) (f : TransactionExtraField) : option (list Z) :=
  match f with
  | TransactionExtraPadding size =>
      if TX_EXTRA_PADDING_MAX_COUNT <? size then None
      else Some (extra ++ replicate (Z.to_nat size) 0)
  | TransactionExtraPublicKey key => Some (addTransactionPublicKeyToExtra extra key)
  | TransactionExtraNonce nonce => addExtraNonceToTransactionExtra extra nonce
  | TransactionExtraMergeMiningTag tag => Some (appendMergeMiningTagToExtra extra tag)
  end.

Fixpoint writeTransactionExtra (tx_extra : list Z) (fields : list TransactionExtraField)
    : option (list Z) :=
  match fields with
  | [] => Some tx_extra
  | f :: fields =>
      match visit_extra tx_extra f with
      | Some tx_extra => writeTransactionExtra tx_extra fields
      | None => None
      end
  end.

(** ** Looking fields up *)

(** [findTransactionExtraFieldByType] at the three types it is used with. *)
Fixpoint find_public_key (l : list TransactionExtraField) : option PublicKey :=
  match l with
  | [] => None
  | TransactionExtraPublicKey k :: _ => Some k
  | _ :: l => find_public_key l
  end.

Fixpoint find_nonce (l : list TransactionExtraField) : option (list Z) :=
  match l with
  | [] => None
  | TransactionExtraNonce n :: _ => Some n
  | _ :: l => find_nonce l
  end.

Fixpoint find_mm_tag (l : list TransactionExtraField) : option MergeMiningTag :=
  match l with
  | [] => None
  | TransactionExtraMergeMiningTag t :: _ => Some t
  | _ :: l => find_mm_tag l
  end.

Definition null_key : PublicKey := replicate 32 0.

Definition getTransactionPublicKeyFromExtra (tx_extra : list Z) : PublicKey :=
  match find_public_key (snd (parseTransactionExtra tx_extra)) with
  | Some k => k
  | None => null_key
  end.

Definition getMergeMiningTagFromExtra (tx_extra : list Z) : option MergeMiningTag :=
  find_mm_tag (snd (parseTransactionExtra tx_extra)).

Definition setPaymentIdToTransactionExtraNonce (payment_id : Hash) : list Z :=
  TX_EXTRA_NONCE_PAYMENT_ID :: payment_id.

Definition getPaymentIdFromTransactionExtraNonce (extra_nonce : list Z) : option Hash :=
  if negb (32 + 1 =? Z.of_nat (length extra_nonce)) then None
  else if negb (TX_EXTRA_NONCE_PAYMENT_ID =? extra_nonce !!! 0%nat) then None
  else Some (drop 1 extra_nonce).

Definition getPaymentIdFromTxExtra (extra : list Z) : option Hash :=
  match parseTransactionExtra extra with
  | (false, _) => None
  | (true, fields) =>
      match find_nonce fields with
      | Some nonce => getPaymentIdFromTransactionExtraNonce nonce
      | None => None
      end
  end.

(** ** Round trips *)

Definition mm_tag_ok (t : MergeMiningTag) : Prop := fits 64 (depth t) /\ pod_ok 32 (merkleRoot t).

Lemma length_fits64 {A} (l : list A) n : Z.of_nat (length l) <= n -> n < 2 ^ 64 ->
  fits 64 (Z.of_nat (length l)).
Proof. intros. split; lia. Qed.

Lemma read_mm_fields_write t tl :
  mm_tag_ok t -> read_mm_fields (write_mm_fields t ++ tl) = Some (t, tl).
Proof.
  intros [Hd Hr]. unfold read_mm_fields, write_mm_fields. rewrite <- app_assoc.
  unfold mbind, parser_bind.
  rewrite (codec_roundtrip _ _ _ (readVarint_codec 64 ltac:(lia))) by done.
  rewrite (codec_roundtrip _ _ _ (read_bytes_codec 32 ltac:(lia))) by done.
  by destruct t.
Qed.

Lemma read_mm_tag_write t tl : mm_tag_ok t -> read_mm_tag (write_mm_tag t ++ tl) = Some (t, tl).
Proof.
  intros Ht. assert (length (write_mm_fields t) <= 42)%nat as Hlen.
  { unfold write_mm_fields. rewrite length_app. destruct Ht as [[Hd _] [-> _]].
    pose proof (writeVarint_length _ Hd). lia. }
  unfold read_mm_tag, read_string, write_mm_tag, write_string, mbind, parser_bind.
  rewrite <- app_assoc.
  rewrite (codec_roundtrip _ _ _ (readVarint_codec 64 ltac:(lia)))
    by (apply (length_fits64 _ 42); lia).
  destruct (Z.ltb_spec MAX_EXTRA_SIZE (Z.of_nat (length (write_mm_fields t)))) as [Hc|_].
  { change MAX_EXTRA_SIZE with 2200 in Hc. lia. }
  cbn [andb]. rewrite (codec_roundtrip _ _ _ (read_bytes_codec (Z.of_nat (length (write_mm_fields t))) ltac:(lia))).
  - rewrite <- (app_nil_r (write_mm_fields t)), read_mm_fields_write by done. done.
  - split; [lia|]. apply bytes_ok_app. destruct Ht as [Hd [_ Hr]]. split; [|done].
    by apply (codec_bytes _ _ _ (readVarint_codec 64 ltac:(lia))).
Qed.

(** The field lists the format can hold: every kind at most once ([seen] has the
    kinds already used), padding last. *)
Fixpoint extra_ok (seen : extra_seen) (fields : list TransactionExtraField) : Prop :=
  let '(mkSeen padding pubkey nonce mm) := seen in
  match fields with
  | [] => True
  | TransactionExtraPadding size :: fields =>
      padding = false /\ 1 <= size <= TX_EXTRA_PADDING_MAX_COUNT /\ fields = []
  | TransactionExtraPublicKey k :: fields =>
      pubkey = false /\ pod_ok 32 k /\ extra_ok (mkSeen padding true nonce mm) fields
  | TransactionExtraNonce n :: fields =>
      nonce = false /\ Z.of_nat (length n) <= TX_EXTRA_NONCE_MAX_COUNT /\ bytes_ok n /\
      extra_ok (mkSeen padding pubkey true mm) fields
  | TransactionExtraMergeMiningTag t :: fields =>
      mm = false /\ mm_tag_ok t /\ extra_ok (mkSeen padding pubkey nonce true) fields
  end.

Definition field_bytes (f : TransactionExtraField) : list Z :=
  match f with
  | TransactionExtraPadding size => replicate (Z.to_nat size) 0
  | TransactionExtraPublicKey key => TX_EXTRA_TAG_PUBKEY :: key
  | TransactionExtraNonce nonce => TX_EXTRA_NONCE :: Z.of_nat (length nonce) :: nonce
  | TransactionExtraMergeMiningTag tag => TX_EXTRA_MERGE_MINING_TAG :: write_mm_tag tag
  end.

Lemma padding_loop_zeros k n :
  1 <= k -> k + Z.of_nat n <= 255 -> padding_loop k (replicate n 0) = Some (k + Z.of_nat n).
Proof.
  revert k. induction n as [|n IH]; intros k Hk Hn; cbn [replicate padding_loop].
  - f_equal. lia.
  - change TX_EXTRA_PADDING_MAX_COUNT with 255. destruct (Z.leb_spec k 255); [|lia]. simpl.
    rewrite IH by lia. f_equal. lia.
Qed.

Lemma writeTransactionExtra_bytes fields seen e :
  extra_ok seen fields ->
  writeTransactionExtra e fields = Some (e ++ concat (field_bytes <$> fields)).
Proof.
  revert seen e. induction fields as [|f fields IH]; intros [p k n m] e Hok; simpl.
  { by rewrite app_nil_r. }
  destruct f as [size|key|nonce|tag]; simpl in *.
  - destruct Hok as (_ & Hs & ->). destruct (Z.ltb_spec TX_EXTRA_PADDING_MAX_COUNT size); [lia|].
    simpl. by rewrite app_nil_r.
  - destruct Hok as (_ & _ & Hok). rewrite (IH _ _ Hok). unfold addTransactionPublicKeyToExtra.
    by rewrite <- !app_assoc.
  - destruct Hok as (_ & Hl & _ & Hok). unfold addExtraNonceToTransactionExtra.
    destruct (Z.ltb_spec TX_EXTRA_NONCE_MAX_COUNT (Z.of_nat (length nonce))); [lia|].
    change TX_EXTRA_NONCE_MAX_COUNT with 255 in Hl.
    rewrite (IH _ _ Hok), wrap_small by (words; lia). by rewrite <- !app_assoc.
  - destruct Hok as (_ & _ & Hok). rewrite (IH _ _ Hok). unfold appendMergeMiningTagToExtra.
    by rewrite <- !app_assoc.
Qed.

Lemma parse_extra_loop_fields fields fuel seen acc :
  extra_ok seen fields -> (length (concat (field_bytes <$> fields)) < fuel)%nat ->
  parse_extra_loop fuel seen acc (concat (field_bytes <$> fields)) = (true, acc ++ fields).
Proof.
  revert fuel seen acc. induction fields as [|f fields IH]; intros fuel [p k n m] acc Hok Hf;
    rewrite ?fmap_cons in *; cbn [concat] in *; rewrite ?length_app in Hf;
    (destruct fuel as [|fuel]; [simpl in Hf; lia|]).
  { by rewrite app_nil_r. }
  destruct f as [size|key|nonce|tag]; cbn [extra_ok field_bytes] in Hok, Hf |- *.
  - destruct Hok as (-> & Hs & ->). change TX_EXTRA_PADDING_MAX_COUNT with 255 in Hs.
    cbn [fmap list_fmap concat]. rewrite app_nil_r. rewrite length_replicate in Hf.
    destruct (Z.to_nat size) as [|j] eqn:Ej; [lia|]. cbn [replicate parse_extra_loop].
    change (0 =? TX_EXTRA_TAG_PADDING) with true. cbv iota. rewrite padding_loop_zeros by lia.
    destruct (Z.ltb_spec TX_EXTRA_PADDING_MAX_COUNT (1 + Z.of_nat j)) as [Hc|_];
      [change TX_EXTRA_PADDING_MAX_COUNT with 255 in Hc; lia|].
    replace (1 + Z.of_nat j) with size by lia. destruct fuel; [lia|done].
  - destruct Hok as (-> & Hk & Hok). cbn [app parse_extra_loop length] in *.
    change (TX_EXTRA_TAG_PUBKEY =? TX_EXTRA_TAG_PADDING) with false.
    change (TX_EXTRA_TAG_PUBKEY =? TX_EXTRA_TAG_PUBKEY) with true. cbv iota.
    rewrite (codec_roundtrip _ _ _ (read_bytes_codec 32 ltac:(lia))) by done.
    rewrite IH by (try done; lia). by rewrite <- app_assoc.
  - destruct Hok as (-> & Hl & Hn & Hok). cbn [app parse_extra_loop length] in *.
    change (TX_EXTRA_NONCE =? TX_EXTRA_TAG_PADDING) with false.
    change (TX_EXTRA_NONCE =? TX_EXTRA_TAG_PUBKEY) with false.
    change (TX_EXTRA_NONCE =? TX_EXTRA_NONCE) with true. cbv iota.
    unfold mbind, parser_bind. cbn [read_byte].
    rewrite (codec_roundtrip _ _ _ (read_bytes_codec (Z.of_nat (length nonce)) ltac:(lia)))
      by (split; [lia|done]).
    rewrite IH by (try done; lia). by rewrite <- app_assoc.
  - destruct Hok as (-> & Ht & Hok). cbn [app parse_extra_loop length] in *.
    change (TX_EXTRA_MERGE_MINING_TAG =? TX_EXTRA_TAG_PADDING) with false.
    change (TX_EXTRA_MERGE_MINING_TAG =? TX_EXTRA_TAG_PUBKEY) with false.
    change (TX_EXTRA_MERGE_MINING_TAG =? TX_EXTRA_NONCE) with false.
    change (TX_EXTRA_MERGE_MINING_TAG =? TX_EXTRA_MERGE_MINING_TAG) with true. cbv iota.
    rewrite read_mm_tag_write by done. rewrite IH by (try done; lia). by rewrite <- app_assoc.
Qed.

Lemma parse_extra_bytes fields :
  extra_ok (mkSeen false false false false) fields ->
  parseTransactionExtra (concat (field_bytes <$> fields)) = (true, fields).
Proof.
  intros Hok. pose proof (parse_extra_loop_fields fields
    (S (length (concat (field_bytes <$> fields)))) _ [] Hok ltac:(lia)) as Hp.
  unfold parseTransactionExtra. destruct (concat (field_bytes <$> fields)); [|exact Hp].
  by simpl in Hp.
Qed.

(** every list of extra fields the format can hold (each
    kind at most once, padding last, sizes in range) is written successfully, and
    parsing the written bytes succeeds and returns exactly these fields in order. *)
Theorem transaction_extra_roundtrip fields :
  extra_ok (mkSeen false false false false) fields ->
  exists e, writeTransactionExtra [] fields = Some e /\ parseTransactionExtra e = (true, fields).
Proof.
  intros Hok. eexists. split; [by eapply writeTransactionExtra_bytes|]. by apply parse_extra_bytes.
Qed.

Lemma transaction_extra_roundtrip_witness :
  let fields := [TransactionExtraPublicKey (replicate 32 7); TransactionExtraNonce [1; 2; 3];
                 TransactionExtraMergeMiningTag (mkMergeMiningTag 300 (replicate 32 9));
                 TransactionExtraPadding 4] in
  exists e, writeTransactionExtra [] fields = Some e /\ parseTransactionExtra e = (true, fields).
Proof.
  intros fields. apply (transaction_extra_roundtrip fields).
  repeat split; try (vm_compute; congruence); repeat constructor; vm_compute; congruence.
Defined.

(** a payment id put into the extra field of a transaction
    with a public key is what [getPaymentIdFromTxExtra] finds there, and the public key
    is still the one [getTransactionPublicKeyFromExtra] finds. *)
Theorem payment_id_roundtrip key payment_id :
  pod_ok 32 key -> pod_ok 32 payment_id ->
  exists e,
    addExtraNonceToTransactionExtra (addTransactionPublicKeyToExtra [] key)
      (setPaymentIdToTransactionExtraNonce payment_id) = Some e /\
    getPaymentIdFromTxExtra e = Some payment_id /\
    getTransactionPublicKeyFromExtra e = key.
Proof.
  intros Hk Hp. set (nonce := setPaymentIdToTransactionExtraNonce payment_id).
  set (fields := [TransactionExtraPublicKey key; TransactionExtraNonce nonce]).
  assert (Z.of_nat (length nonce) = 33) as Hlen by (destruct Hp; simpl; lia).
  assert (extra_ok (mkSeen false false false false) fields) as Hok.
  { unfold fields. cbn [extra_ok]. split_and!; try done; [rewrite Hlen; done|].
    constructor; [by vm_compute|apply Hp]. }
  exists (concat (field_bytes <$> fields)).
  split.
  - apply (writeTransactionExtra_bytes fields _ []) in Hok. simpl writeTransactionExtra in Hok.
    by destruct (addExtraNonceToTransactionExtra _ nonce); simplify_eq.
  - unfold getPaymentIdFromTxExtra, getTransactionPublicKeyFromExtra.
    rewrite parse_extra_bytes by done. simpl. split; [|done].
    unfold getPaymentIdFromTransactionExtraNonce. rewrite Hlen. simpl. by rewrite drop_0.
Qed.

Lemma payment_id_roundtrip_witness :
  exists e,
    addExtraNonceToTransactionExtra (addTransactionPublicKeyToExtra [] (replicate 32 5))
      (setPaymentIdToTransactionExtraNonce (replicate 32 6)) = Some e /\
    getPaymentIdFromTxExtra e = Some (replicate 32 6) /\
    getTransactionPublicKeyFromExtra e = replicate 32 5.
Proof.
  apply (payment_id_roundtrip (replicate 32 5) (replicate 32 6));
    (split; [reflexivity|repeat constructor; vm_compute; congruence]).
Defined.
