(* ===== verification/Serialization.v ===== *)
(** * The binary format of transactions and blocks

    src/src/cryptonote_core/cryptonote_serialization.cpp on top of the binary
    serializers of src/src/serialization.  Each [serialize] function of the code
    runs in both directions; here it is a pair [write_x], [read_x].  Exceptions
    are [None]. *)

From S2P Require Import Prelude Config Bytes Types Parser Varint TreeHash TxExtra.
Import parameters.

(** ** Containers *)

(** [serializeContainer] and [serializeVarintVector]. *)
Definition write_vector {A} (enc : A -> list Z) (l : list A) : list Z :=
  writeVarint (Z.of_nat (length l)) ++ concat (enc <$> l).

Definition read_vector {A} (dec : parser A) : parser (list A) :=
  size ← readVarint 64; read_many dec size.

(** ** Transactions *)

Definition getSignaturesCount (input : TransactionInput) : Z :=
  match input with
  | BaseInput _ => 0
  | KeyInput _ outputIndexes _ => Z.of_nat (length outputIndexes)
  end.

Definition write_input (i : TransactionInput) : list Z :=
  match i with
  | BaseInput blockIndex => [0xff] ++ writeVarint blockIndex
  | KeyInput amount outputIndexes keyImage =>
      [0x2] ++ writeVarint amount ++ write_vector writeVarint outputIndexes ++ keyImage
  end.

Definition read_input : parser TransactionInput :=
  tag ← read_byte;
  if tag =? 0xff then blockIndex ← readVarint 32; mret (BaseInput blockIndex)
  else if tag =? 0x2 then
    amount ← readVarint 64;
    outputIndexes ← read_vector (readVarint 32);
    keyImage ← read_bytes 32;
    mret (KeyInput amount outputIndexes keyImage)
  else pfail.

Definition write_target (t : TransactionOutputTarget) : list Z :=
  match t with KeyOutput key => [0x2] ++ key end.

Definition read_target : parser TransactionOutputTarget :=
  tag ← read_byte;
  if tag =? 0x2 then key ← read_bytes 32; mret (KeyOutput key) else pfail.

Definition write_output (o : TransactionOutput) : list Z :=
  writeVarint (amount o) ++ write_target (target o).

Definition read_output : parser TransactionOutput :=
  amount ← readVarint 64; target ← read_target; mret (mkTransactionOutput amount target).

Definition write_prefix (p : TransactionPrefix) : list Z :=
  writeVarint (version p) ++ writeVarint (unlockTime p) ++
  write_vector write_input (inputs p) ++ write_vector write_output (outputs p) ++
  write_string (extra p).

Definition read_prefix : parser TransactionPrefix :=
  version ← readVarint 8;
  _ ← pcheck (version <=? CURRENT_TRANSACTION_VERSION);
  unlockTime ← readVarint 64;
  inputs ← read_vector read_input;
  outputs ← read_vector read_output;
  extra ← read_string false;
  mret (mkTransactionPrefix version unlockTime inputs outputs extra).

(** [serialize(BaseTransaction &)]: no version check, and a number that is dropped. *)
Definition write_base_transaction (p : TransactionPrefix) : list Z :=
  write_prefix p ++ (if TRANSACTION_VERSION_2 <=? version p then writeVarint 0 else []).

Definition read_base_transaction : parser TransactionPrefix :=
  version ← readVarint 8;
  unlockTime ← readVarint 64;
  inputs ← read_vector read_input;
  outputs ← read_vector read_output;
  extra ← read_string false;
  _ ← (if TRANSACTION_VERSION_2 <=? version then readVarint 64 else mret 0);
  mret (mkTransactionPrefix version unlockTime inputs outputs extra).

(** The loop over the inputs of [serialize(Transaction &)] when writing. *)
Fixpoint write_signatures (ins : list TransactionInput) (sigs : list (list Signature))
    : option (list Z) :=
  match ins, sigs with
  | i :: ins, s :: sigs =>
      if getSignaturesCount i =? Z.of_nat (length s)
      then rest ← write_signatures ins sigs; Some (concat s ++ rest)
      else None
  | _, _ => Some []
  end.

Definition write_transaction (t : Transaction) : option (list Z) :=
  let ins := inputs (prefix t) in
  if decide (signatures t = [])
  then if forallb (fun i => getSignaturesCount i =? 0) ins
       then Some (write_prefix (prefix t)) else None
  else if Nat.eqb (length ins) (length (signatures t))
  then sigs ← write_signatures ins (signatures t); Some (write_prefix (prefix t) ++ sigs)
  else None.

Fixpoint read_signatures (ins : list TransactionInput) : parser (list (list Signature)) :=
  match ins with
  | [] => mret []
  | i :: ins =>
      s ← read_many (read_bytes 64) (getSignaturesCount i);
      sigs ← read_signatures ins;
      mret (s :: sigs)
  end.

(** No signatures are read for a base transaction: one input, a [BaseInput]. *)
Definition is_base (ins : list TransactionInput) : bool :=
  match ins with [BaseInput _] => true | _ => false end.

Definition read_transaction : parser Transaction :=
  p ← read_prefix;
  if is_base (inputs p) then mret (mkTransaction p [])
  else sigs ← read_signatures (inputs p); mret (mkTransaction p sigs).

(** [toBinaryArray(object)] is the writer; [fromBinaryArray] also wants the whole
    input consumed. *)
Definition fromBinaryArray {A} (dec : parser A) (binaryArray : list Z) : option A :=
  match dec binaryArray with
  | Some (object, []) => Some object
  | _ => None
  end.

(** ** Codecs of the parts of a transaction *)

Lemma vector_codec {A} (ok : A -> Prop) enc dec :
  codec_plus ok enc dec ->
  codec_plus (fun l => Forall ok l /\ fits 64 (Z.of_nat (length l)))
    (write_vector enc) (read_vector dec).
Proof.
  intros Hc. pose proof (readVarint_codec 64 ltac:(lia)) as Hv.
  unfold write_vector, read_vector. split; [split|].
  - intros l tl [Hl Hlen]. rewrite <- app_assoc. read_back Hv.
    by apply (codec_roundtrip _ _ _ (read_many_codec ok enc dec (Z.of_nat (length l)) Hc ltac:(lia))).
  - intros s l tl Hs H. parse_inv. read_was Hv.
    eapply codec_canonical in H; [|apply (read_many_codec ok enc); [exact Hc|words; lia]|exact Hs].
    destruct H as [[<- ?] ->]. by rewrite <- app_assoc.
  - intros l [Hl Hlen]. apply bytes_ok_app. split; [by apply (codec_bytes _ _ _ Hv)|].
    apply (bytes_ok_concat ok enc dec); [apply Hc|done].
  - intros l [_ Hlen] E. apply app_eq_nil in E as [E _]. by apply (plus_nonempty _ _ _ Hv) in E.
Qed.

(** Codecs the definitions below are built from, by name. *)
Definition c8 := readVarint_codec 8 ltac:(lia).
Definition c32 := readVarint_codec 32 ltac:(lia).
Definition c64 := readVarint_codec 64 ltac:(lia).
Definition cpod n := read_bytes_codec (Z.of_nat n) ltac:(lia).

Lemma string_codec :
  codec_plus (fun s => bytes_ok s /\ fits 64 (Z.of_nat (length s))) write_string (read_string false).
Proof.
  unfold write_string, read_string. split; [split|].
  - intros l tl [Hl Hlen]. rewrite <- app_assoc. read_back c64. rewrite andb_false_r.
    apply (codec_roundtrip _ _ _ (read_bytes_codec (Z.of_nat (length l)) ltac:(lia))).
    split; [lia|done].
  - intros s l tl Hs H. parse_inv. read_was c64. rewrite andb_false_r in H.
    eapply codec_canonical in H; [|apply read_bytes_codec; words; lia|exact Hs].
    destruct H as [[Hl ?] ->]. rewrite Hl, Z2Nat.id by (words; lia). by rewrite <- app_assoc.
  - intros l [Hl Hlen]. apply bytes_ok_app. split; [by apply (codec_bytes _ _ _ c64)|done].
  - intros l [_ Hlen] E. apply app_eq_nil in E as [E _]. by apply (plus_nonempty _ _ _ c64) in E.
Qed.

Lemma indexes_codec :
  codec_plus (fun l => Forall (fits 32) l /\ fits 64 (Z.of_nat (length l)))
    (write_vector writeVarint) (read_vector (readVarint 32)).
Proof. apply vector_codec, c32. Qed.

Lemma input_codec : codec_plus input_ok write_input read_input.
Proof.
  unfold read_input. split; [split|].
  - intros [h|a idx ki] tl Hok; unfold write_input; rewrite <- !app_assoc;
      read_back read_byte_codec; simpl in Hok.
    + simpl. by read_back c32.
    + simpl. destruct Hok as (Ha & Hi & Hl & Hk). read_back c64. read_back indexes_codec.
      by read_back (cpod 32).
  - intros s i tl Hs H. parse_inv. read_was read_byte_codec.
    destruct (Z.eqb_spec x 0xff) as [->|]; [|destruct (Z.eqb_spec x 0x2) as [->|]]; parse_inv.
    + read_was c32. split; [done|]. simpl. by rewrite <- ?app_assoc.
    + read_was c64. read_was indexes_codec. read_was (cpod 32). simpl.
      split; [tauto|]. by rewrite <- ?app_assoc.
  - intros [h|a idx ki] Hok; simpl in Hok |- *; (constructor; [by vm_compute|]).
    + by apply (codec_bytes _ _ _ c32).
    + destruct Hok as (Ha & Hi & Hl & Hk). rewrite !bytes_ok_app.
      split_and!; [by apply (codec_bytes _ _ _ c64)|by apply (codec_bytes _ _ _ indexes_codec)|].
      apply Hk.
  - by intros [].
Qed.

Lemma target_codec :
  codec_plus (fun t => match t with KeyOutput k => pod_ok 32 k end) write_target read_target.
Proof.
  unfold read_target. split; [split|].
  - intros [k] tl Hk; simpl. read_back read_byte_codec. simpl. by read_back (cpod 32).
  - intros s t tl Hs H. parse_inv. read_was read_byte_codec.
    destruct (Z.eqb_spec x 0x2) as [->|]; parse_inv. by read_was (cpod 32).
  - intros [k] [_ Hk]. by constructor.
  - by intros [].
Qed.

Lemma output_codec : codec_plus output_ok write_output read_output.
Proof.
  unfold read_output, write_output. split; [split|].
  - intros [a t] tl [Ha Ht]. simpl. rewrite <- app_assoc. read_back c64. by read_back target_codec.
  - intros s o tl Hs H. parse_inv. read_was c64. read_was target_codec. simpl.
    by rewrite <- app_assoc.
  - intros [a t] [Ha Ht]. apply bytes_ok_app.
    split; [by apply (codec_bytes _ _ _ c64)|by apply (codec_bytes _ _ _ target_codec)].
  - intros [a t] [Ha Ht] E. apply app_eq_nil in E as [E _]. by apply (plus_nonempty _ _ _ c64) in E.
Qed.

Definition inputs_codec := vector_codec _ _ _ input_codec.
Definition outputs_codec := vector_codec _ _ _ output_codec.

(** The prefixes the reader accepts. *)
Definition prefix_read_ok (p : TransactionPrefix) : Prop :=
  prefix_ok p /\ version p <= CURRENT_TRANSACTION_VERSION.

Lemma prefix_codec : codec_plus prefix_read_ok write_prefix read_prefix.
Proof.
  unfold read_prefix, write_prefix. split; [split|].
  - intros [v u ins outs ex] tl [(Hv & Hu & Hi & Hil & Ho & Hol & He & Hel) Hc]. simpl in *.
    rewrite <- !app_assoc. read_back c8.
    rewrite (pbind_run _ _ _ tt (writeVarint u ++ _)) by (apply pcheck_Some; split; [lia|done]).
    read_back c64. read_back inputs_codec. read_back outputs_codec. by read_back string_codec.
  - intros s p tl Hs H. parse_inv. read_was c8. read_was c64. read_was inputs_codec.
    read_was outputs_codec. read_was string_codec. bool_to_prop.
    unfold prefix_read_ok, prefix_ok; simpl. rewrite <- !app_assoc. tauto.
  - intros p [(Hv & Hu & Hi & Hil & Ho & Hol & He & Hel) _]. rewrite !bytes_ok_app.
    split_and!; [by apply (codec_bytes _ _ _ c8)|by apply (codec_bytes _ _ _ c64)
      |by apply (codec_bytes _ _ _ inputs_codec)|by apply (codec_bytes _ _ _ outputs_codec)
      |by apply (codec_bytes _ _ _ string_codec)].
  - intros p [(Hv & _) _] E. apply app_eq_nil in E as [E _].
    by apply (plus_nonempty _ _ _ c8) in E.
Qed.

(** ** Transactions *)

Definition sig_codec : codec_plus (pod_ok 64) (fun s => s) (read_bytes 64).
Proof. split; [exact (cpod 64)|]. intros [|] [Hl _]; done. Qed.

(** The signatures that go with the inputs. *)
Definition sig_shape (ins : list TransactionInput) (sigs : list (list Signature)) : Prop :=
  Forall2 (fun i s => Z.of_nat (length s) = getSignaturesCount i /\ Forall (pod_ok 64) s) ins sigs.

(** The transactions the reader produces. *)
Definition tx_read_ok (t : Transaction) : Prop :=
  prefix_read_ok (prefix t) /\
  if is_base (inputs (prefix t)) then signatures t = []
  else sig_shape (inputs (prefix t)) (signatures t).

#[global] Instance sig_shape_dec ins sigs : Decision (sig_shape ins sigs).
Proof. apply Forall2_dec. intros i s. apply _. Defined.
#[global] Instance tx_read_ok_dec t : Decision (tx_read_ok t).
Proof. unfold tx_read_ok, prefix_read_ok. destruct (is_base _); apply _. Defined.

Lemma getSignaturesCount_nonneg i : 0 <= getSignaturesCount i.
Proof. destruct i; simpl; lia. Qed.

Lemma signatures_roundtrip ins sigs :
  sig_shape ins sigs -> exists b, write_signatures ins sigs = Some b /\ bytes_ok b /\
    forall tl, read_signatures ins (b ++ tl) = Some (sigs, tl).
Proof.
  induction 1 as [|i s ins sigs [Hn Hs] _ (b & E & Hb & Hr)]; simpl.
  { exists []. split_and!; [done|constructor|done]. }
  pose proof (read_many_codec _ _ _ _ sig_codec (getSignaturesCount_nonneg i)) as Hc.
  exists (concat s ++ b). rewrite (proj2 (Z.eqb_eq _ _) (eq_sym Hn)), E. split_and!; [done| |].
  - apply bytes_ok_app. split; [|done]. rewrite <- (list_fmap_id s).
    by apply (codec_bytes _ _ _ Hc).
  - intros tl. rewrite <- app_assoc. rewrite <- (list_fmap_id s) at 1. read_back Hc.
    by rewrite (pbind_run _ _ _ _ _ (Hr tl)).
Qed.

Lemma signatures_canonical ins sigs s tl :
  bytes_ok s -> read_signatures ins s = Some (sigs, tl) ->
  sig_shape ins sigs /\ exists b, write_signatures ins sigs = Some b /\ s = b ++ tl.
Proof.
  revert sigs s. induction ins as [|i ins IH]; intros sigs s Hs H; simpl in H; parse_inv.
  { split; [constructor|]. by exists []. }
  pose proof (read_many_codec _ _ _ _ sig_codec (getSignaturesCount_nonneg i)) as Hc.
  read_was Hc. destruct (IH _ _ Hs ltac:(eassumption)) as (Hsh & b & E & ->).
  match goal with H : _ /\ Forall _ _ |- _ => destruct H as [Hn Hp] end.
  split; [by constructor|]. rewrite list_fmap_id. eexists. simpl.
  rewrite (proj2 (Z.eqb_eq _ _) (eq_sym Hn)), E. split; [done|]. by rewrite app_assoc.
Qed.

Lemma is_base_spec ins : is_base ins = true -> exists h, ins = [BaseInput h].
Proof. destruct ins as [|[h|] [|? ?]]; try done. by exists h. Qed.

Lemma transaction_roundtrip t :
  tx_read_ok t -> exists b, write_transaction t = Some b /\ bytes_ok b /\
    forall tl, read_transaction (b ++ tl) = Some (t, tl).
Proof.
  intros [Hp Hsig]. destruct t as [p sigs]. unfold write_transaction, read_transaction. simpl in *.
  pose proof (codec_bytes _ _ _ prefix_codec p Hp) as Hb.
  destruct (is_base (inputs p)) eqn:Ebase.
  - subst sigs. destruct (is_base_spec _ Ebase) as [h Eh]. rewrite decide_True, Eh by done. simpl.
    eexists. split_and!; [done|done|]. intros tl. read_back prefix_codec. by rewrite Ebase.
  - destruct (signatures_roundtrip _ _ Hsig) as (b & E & Hbb & Hr). destruct sigs as [|s sigs].
    + inversion Hsig as [Ei|]. rewrite decide_True by done. rewrite <- Ei in *. simpl.
      eexists. split_and!; [done|done|]. intros tl. read_back prefix_codec. by rewrite <- Ei.
    + rewrite decide_False by done. rewrite (Forall2_length _ _ _ Hsig), Nat.eqb_refl, E. simpl.
      eexists. split_and!; [done|by apply bytes_ok_app|].
      intros tl. rewrite <- app_assoc. read_back prefix_codec.
      rewrite Ebase. by rewrite (pbind_run _ _ _ _ _ (Hr tl)).
Qed.

Lemma transaction_read_canonical s t tl :
  bytes_ok s -> read_transaction s = Some (t, tl) ->
  tx_read_ok t /\ exists b, write_transaction t = Some b /\ s = b ++ tl.
Proof.
  intros Hs H. unfold read_transaction in H. parse_inv. read_was prefix_codec.
  destruct (is_base (inputs x)) eqn:Ebase; parse_inv.
  - split; [split; [done|]; simpl; by rewrite Ebase|]. eexists. split; [|done].
    unfold write_transaction. simpl. destruct (is_base_spec _ Ebase) as [h Eh]. by rewrite Eh.
  - destruct (signatures_canonical _ _ _ _ Hs ltac:(eassumption)) as (Hsig & b & E & ->).
    assert (tx_read_ok (mkTransaction x x1)) as Hok by (split; [done|]; simpl; by rewrite Ebase).
    split; [done|]. destruct (transaction_roundtrip _ Hok) as (b' & E' & _ & _).
    exists b'. split; [done|]. rewrite app_assoc. f_equal.
    unfold write_transaction in E'. simpl in E'. destruct x1 as [|sg sigs].
    + inversion Hsig as [Ei|]. rewrite decide_True, <- Ei in E' by done. rewrite <- Ei in E.
      simpl in E, E'. simplify_eq. by rewrite app_nil_r.
    + rewrite decide_False in E' by done.
      rewrite (Forall2_length _ _ _ Hsig), Nat.eqb_refl, E in E'. simpl in E'. by simplify_eq.
Qed.

(** C16: the binary format of transactions is a bijection
    between the well-formed transactions and their blobs: [fromBinaryArray] accepts a
    blob as transaction [t] exactly when [t] is well formed and [toBinaryArray] of [t]
    is that blob.  In particular no two blobs decode to the same transaction, so the
    transaction hash, taken over the received blob, does not depend on its encoding. *)
Theorem transaction_binary_canonical blob t :
  bytes_ok blob ->
  fromBinaryArray read_transaction blob = Some t <->
  tx_read_ok t /\ write_transaction t = Some blob.
Proof.
  intros Hb. unfold fromBinaryArray. split.
  - destruct (read_transaction blob) as [[t' [|? ?]]|] eqn:E; try done. intros [= ->].
    apply transaction_read_canonical in E as (Hok & b & Hw & ->); [|done].
    by rewrite app_nil_r.
  - intros [Hok Hw]. destruct (transaction_roundtrip t Hok) as (b & E & _ & Hr).
    simplify_eq. specialize (Hr []). rewrite app_nil_r in Hr. by rewrite Hr.
Qed.

Definition sample_tx : Transaction :=
  mkTransaction
    (mkTransactionPrefix 1 0
       [KeyInput 1000 [5; 7] (replicate 32 3); KeyInput 500 [300] (replicate 32 4)]
       [mkTransactionOutput 900 (KeyOutput (replicate 32 8))] [1; 2; 3])
    [[replicate 64 1; replicate 64 2]; [replicate 64 3]].

Lemma transaction_binary_canonical_witness :
  match write_transaction sample_tx with
  | Some blob => fromBinaryArray read_transaction blob = Some sample_tx
  | None => False
  end.
Proof.
  destruct (write_transaction sample_tx) as [blob|] eqn:E; [|vm_compute in E; discriminate].
  apply (transaction_binary_canonical blob sample_tx).
  - vm_compute in E. injection E as <-. repeat constructor; vm_compute; congruence.
  - split; [|exact E]. apply (bool_decide_unpack (tx_read_ok sample_tx)). vm_compute. exact I.
Defined.
