(* ===== verification/Addresses.v ===== *)
(** * Addresses

    The text form of account addresses: [getAccountAddressAsStr] and
    [parseAccountAddressString] of cryptonote_basic_impl.cpp, the conversions of
    src/src/utilities/addresses.cpp, the checks of addresses and payment ids in
    src/src/errors/validate_parameters.cpp, and [createIntegratedAddress] of
    wallet_backend.cpp, which puts a payment id into an address.  An exception is
    [None]. *)

From Stdlib Require Import String.
From S2P Require Import Prelude Config Bytes IntUtil StringTools Errors Types Parser Varint Base58 TxExtra Serialization.
Import parameters.
#[local] Open Scope list_scope.
#[local] Open Scope Z_scope.

(** ** wallet_config.h *)

Definition addressPrefix : list Z := str "SEKR"%string.
Definition standardAddressLength : nat := 99.
Definition integratedAddressLength : nat := 187.

(** ** The keys of an address *)

(** [serialize(AccountPublicAddress &, ISerializer &)] *)
Definition write_address (address : AccountPublicAddress) : list Z :=
  spendPublicKey address ++ viewPublicKey address.

Definition read_address : parser AccountPublicAddress :=
  spend ← read_bytes 32;
  view ← read_bytes 32;
  mret (mkAccountPublicAddress spend view).

Definition address_ok (address : AccountPublicAddress) : Prop :=
  pod_ok 32 (spendPublicKey address) /\ pod_ok 32 (viewPublicKey address).

(** ** Payment ids *)

(** [std::regex_match] with the expression [[a-zA-Z0-9]{64}]. *)
Definition hexRegex (text : list Z) : bool :=
  (length text =? 64)%nat &&
  forallb (fun c => ((97 <=? c) && (c <=? 122)) || ((65 <=? c) && (c <=? 90)) || ((48 <=? c) && (c <=? 57))) text.

Definition validatePaymentID (paymentID : list Z) : ErrorCode :=
  match paymentID with
  | [] => SUCCESS
  | _ =>
      if negb (length paymentID =? 64)%nat then PAYMENT_ID_WRONG_LENGTH
      else if negb (hexRegex paymentID) then PAYMENT_ID_INVALID
      else SUCCESS
  end.

Definition validateHash (hash : list Z) : ErrorCode :=
  if negb (length hash =? 64)%nat then HASH_WRONG_LENGTH
  else if negb (hexRegex hash) then HASH_INVALID
  else SUCCESS.

Definition parsePaymentId (paymentIdString : list Z) : option Hash := podFromHex 32 paymentIdString.

Definition createTxExtraWithPaymentId (paymentIdString extra : list Z) : option (list Z) :=
  paymentIdBin ← parsePaymentId paymentIdString;
  let extraNonce := setPaymentIdToTransactionExtraNonce paymentIdBin in
  addExtraNonceToTransactionExtra extra extraNonce.

Section Addresses.
Context (cn_fast_hash : list Z -> list Z) (check_key : PublicKey -> bool).
Context (secret_key_to_public_key : SecretKey -> option PublicKey).

(** ** Text and keys *)

Definition getAccountAddressAsStr (prefix : Z) (adr : AccountPublicAddress) : option (list Z) :=
  encode_addr cn_fast_hash prefix (write_address adr).

Definition parseAccountAddressString (text : list Z) : option (Z * AccountPublicAddress) :=
  '(prefix, data) ← decode_addr cn_fast_hash text;
  adr ← fromBinaryArray read_address data;
  if check_key (spendPublicKey adr) && check_key (viewPublicKey adr) then Some (prefix, adr) else None.

Definition addressToKeys (address : list Z) : option (PublicKey * PublicKey) :=
  '(prefix, parsedAddress) ← parseAccountAddressString address;
  if negb (prefix =? CRYPTONOTE_PUBLIC_ADDRESS_BASE58_PREFIX) then None
  else Some (spendPublicKey parsedAddress, viewPublicKey parsedAddress).

Definition addressesToSpendKeys (addresses : list (list Z)) : option (list PublicKey) :=
  mapM (fun address => '(spendKey, _) ← addressToKeys address; Some spendKey) addresses.

(** [decoded.substr(paymentIDLen)] throws on a shorter string; keys that cannot
    be read would leave the address uninitialised. *)
Definition extractIntegratedAddressData (address : list Z) : option (list Z * list Z) :=
  let decoded := match decode_addr cn_fast_hash address with Some (_, decoded) => decoded | None => [] end in
  let paymentIDLen := 64%nat in
  let paymentID := take paymentIDLen decoded in
  if (length decoded <? paymentIDLen)%nat then None
  else
    let keys := drop paymentIDLen decoded in
    addr ← fromBinaryArray read_address keys;
    actualAddress ← getAccountAddressAsStr CRYPTONOTE_PUBLIC_ADDRESS_BASE58_PREFIX addr;
    Some (actualAddress, paymentID).

Definition publicKeysToAddress (publicSpendKey publicViewKey : PublicKey) : option (list Z) :=
  getAccountAddressAsStr CRYPTONOTE_PUBLIC_ADDRESS_BASE58_PREFIX
    (mkAccountPublicAddress publicSpendKey publicViewKey).

Definition privateKeysToAddress (privateSpendKey privateViewKey : SecretKey) : option (list Z) :=
  publicSpendKey ← secret_key_to_public_key privateSpendKey;
  publicViewKey ← secret_key_to_public_key privateViewKey;
  publicKeysToAddress publicSpendKey publicViewKey.

(** ** Checks *)

(** The payment id and the keys of an integrated address; the address the
    round goes on with. *)
Definition integrated_part (address : list Z) : option (ErrorCode + list Z) :=
  match decode_addr cn_fast_hash address with
  | None => Some (inl ADDRESS_NOT_BASE58)
  | Some (_, decoded) =>
      let paymentIDLen := 64%nat in
      let paymentID := take paymentIDLen decoded in
      match createTxExtraWithPaymentId paymentID [] with
      | None => Some (inl INTEGRATED_ADDRESS_PAYMENT_ID_INVALID)
      | Some _ =>
          if (length decoded <? paymentIDLen)%nat then None
          else
            let keys := drop paymentIDLen decoded in
            match fromBinaryArray read_address keys with
            | None => Some (inl ADDRESS_NOT_VALID)
            | Some addr =>
                address ← getAccountAddressAsStr CRYPTONOTE_PUBLIC_ADDRESS_BASE58_PREFIX addr;
                Some (inr address)
            end
      end
  end.

(** One round of the loop of [validateAddresses]. *)
Definition validate_address (integratedAddressesAllowed : bool) (address : list Z) : option ErrorCode :=
  if negb (length address =? standardAddressLength)%nat && negb (length address =? integratedAddressLength)%nat
  then Some ADDRESS_WRONG_LENGTH
  else if bool_decide (take (length addressPrefix) address <> addressPrefix) then Some ADDRESS_WRONG_PREFIX
  else
    r ← (if (length address =? integratedAddressLength)%nat
         then if negb integratedAddressesAllowed then Some (inl ADDRESS_IS_INTEGRATED) else integrated_part address
         else Some (inr address));
    match r with
    | inl error => Some error
    | inr address =>
        match parseAccountAddressString address with
        | None => Some ADDRESS_NOT_VALID
        | Some _ => Some SUCCESS
        end
    end.

Fixpoint validateAddresses (addresses : list (list Z)) (integratedAddressesAllowed : bool) : option ErrorCode :=
  match addresses with
  | [] => Some SUCCESS
  | address :: rest =>
      error ← validate_address integratedAddressesAllowed address;
      if bool_decide (error <> SUCCESS) then Some error else validateAddresses rest integratedAddressesAllowed
  end.

(** The loop keeps the payment id that it met. *)
Fixpoint validateIntegratedAddresses (destinations : list (list Z * Z)) (paymentID : list Z) : option ErrorCode :=
  match destinations with
  | [] => Some SUCCESS
  | (address, _) :: rest =>
      if negb (length address =? integratedAddressLength)%nat then validateIntegratedAddresses rest paymentID
      else
        '(_, extractedPaymentID) ← extractIntegratedAddressData address;
        if bool_decide (paymentID = []) then validateIntegratedAddresses rest extractedPaymentID
        else if bool_decide (paymentID <> extractedPaymentID) then Some CONFLICTING_PAYMENT_IDS
        else validateIntegratedAddresses rest paymentID
  end.

Definition validateDestinations (destinations : list (list Z * Z)) : option ErrorCode :=
  match destinations with
  | [] => Some NO_DESTINATIONS_GIVEN
  | _ =>
      if existsb (fun d => d.2 =? 0) destinations then Some AMOUNT_IS_ZERO
      else validateAddresses (fst <$> destinations) true
  end.

(** ** Integrated addresses *)

(** An address that [validateAddresses] accepts can be parsed. *)
Definition createIntegratedAddress (address paymentID : list Z) : option (ErrorCode * list Z) :=
  if bool_decide (validatePaymentID paymentID <> SUCCESS) then Some (validatePaymentID paymentID, [])
  else
    error ← validateAddresses [address] false;
    if bool_decide (error <> SUCCESS) then Some (error, [])
    else
      '(_, addr) ← parseAccountAddressString address;
      let keys := write_address addr in
      integratedAddress ← encode_addr cn_fast_hash CRYPTONOTE_PUBLIC_ADDRESS_BASE58_PREFIX (paymentID ++ keys);
      Some (SUCCESS, integratedAddress).

End Addresses.

(** ** Keys *)

Lemma address_codec : codec address_ok write_address read_address.
Proof.
  split.
  - intros [s v] tl [Hs Hv]. unfold write_address, read_address. cbn [spendPublicKey viewPublicKey] in *.
    rewrite <- app_assoc. read_back (cpod 32). by read_back (cpod 32).
  - intros s adr tl Hs H'. unfold read_address in H'. parse_inv. read_was (cpod 32). read_was (cpod 32). cbn.
    rewrite <- app_assoc. done.
  - intros [s v] [[_ Hs] [_ Hv]]. by apply bytes_ok_app.
Qed.

Lemma address_back adr : address_ok adr -> fromBinaryArray read_address (write_address adr) = Some adr.
Proof.
  intros Hok. unfold fromBinaryArray. destruct address_codec as [Hr _ _].
  rewrite <- (app_nil_r (write_address adr)). by rewrite Hr.
Qed.

Lemma address_was data adr :
  bytes_ok data -> fromBinaryArray read_address data = Some adr -> address_ok adr /\ data = write_address adr.
Proof.
  intros Hb. unfold fromBinaryArray. destruct (read_address data) as [[adr' [|]]|] eqn:E; try done. intros [= ->].
  apply address_codec in E as [Hok ->]; [|done]. by rewrite app_nil_r.
Qed.

Lemma write_address_bytes adr : address_ok adr -> bytes_ok (write_address adr).
Proof. apply address_codec. Qed.

Lemma write_address_length adr : address_ok adr -> length (write_address adr) = 64%nat.
Proof. intros [[Hs _] [Hv _]]. unfold write_address. rewrite length_app. lia. Qed.

(** ** Payment ids *)

(** Letters that [fromHex] reads are letters of the expression. *)
Definition hex_letters_checked : bool :=
  forallb (fun c => let c := Z.of_nat c in match fromHex_char c with
    | Some _ => ((97 <=? c) && (c <=? 122)) || ((65 <=? c) && (c <=? 90)) || ((48 <=? c) && (c <=? 57))
    | None => true end) (seq 0 256).

Lemma hex_letter c v :
  byte_ok c -> fromHex_char c = Some v ->
  ((97 <=? c) && (c <=? 122)) || ((65 <=? c) && (c <=? 90)) || ((48 <=? c) && (c <=? 57)) = true.
Proof.
  intros Hc Hv. assert (hex_letters_checked = true) as H by (vm_compute; reflexivity).
  unfold hex_letters_checked in H. apply forallb_seq with (i := c) in H; [|exact Hc].
  rewrite Z2Nat.id in H by apply Hc. cbv zeta in H. by rewrite Hv in H.
Qed.

Lemma parsePaymentId_length paymentID h : parsePaymentId paymentID = Some h -> length paymentID = 64%nat.
Proof.
  unfold parsePaymentId, podFromHex, fromHex_buffer.
  destruct (Nat.odd (length paymentID)) eqn:Eo; [done|]. destruct (_ <? _); [done|].
  destruct (mapM _ _) as [val|] eqn:Em; [|done]. apply length_mapM in Em. rewrite length_seq in Em.
  destruct (Nat.eqb_spec (length val) 32) as [Hl|]; [|done]. intros _.
  apply Bool.negb_true_iff in Eo. rewrite Nat.negb_odd in Eo. apply Nat.even_spec in Eo as [k Hk]. nlia.
Qed.

Lemma parsePaymentId_regex paymentID h : bytes_ok paymentID -> parsePaymentId paymentID = Some h -> hexRegex paymentID = true.
Proof.
  intros Hb Hp. pose proof (parsePaymentId_length _ _ Hp) as Hl. unfold hexRegex. rewrite Hl. cbn [Nat.eqb andb].
  unfold parsePaymentId, podFromHex, fromHex_buffer in Hp. rewrite Hl in Hp. cbn [Nat.odd Nat.even negb] in Hp.
  change (64 / 2)%nat with 32%nat in Hp. destruct (_ <? _); [done|]. destruct (mapM _ _) as [val|] eqn:Em; [|done]. clear Hp.
  apply forallb_forall. intros c Hc%list_elem_of_In. apply list_elem_of_lookup_1 in Hc as [j Hj].
  assert (byte_ok c) as Hcb by (unfold bytes_ok in Hb; rewrite Forall_lookup in Hb; eauto).
  apply lookup_lt_Some in Hj as Hlt. rewrite Hl in Hlt.
  assert (is_Some (fromHex_byte paymentID (j / 2))) as [b Hbyte].
  { apply mapM_Some_1 in Em. destruct (Forall2_lookup_l _ _ _ (j / 2)%nat (j / 2)%nat Em) as (b & _ & E); [|by exists b].
    rewrite lookup_seq_lt by nlia. done. }
  unfold fromHex_byte in Hbyte. apply list_lookup_total_correct in Hj.
  assert (j = (2 * (j / 2))%nat \/ j = (2 * (j / 2) + 1)%nat) as [Ej|Ej] by nlia; rewrite <- Ej in Hbyte; rewrite Hj in Hbyte.
  - destruct (fromHex_char c) as [v|] eqn:E; [|done]. by apply (hex_letter c v).
  - destruct (fromHex_char (paymentID !!! (2 * (j / 2))%nat)); [|done]. cbn [mbind option_bind] in Hbyte.
    destruct (fromHex_char c) as [v|] eqn:E; [|done]. by apply (hex_letter c v).
Qed.

Lemma createTxExtra_parse paymentID h :
  parsePaymentId paymentID = Some h -> is_Some (createTxExtraWithPaymentId paymentID []).
Proof.
  intros Hp. unfold createTxExtraWithPaymentId. rewrite Hp. cbn [mbind option_bind].
  unfold addExtraNonceToTransactionExtra, setPaymentIdToTransactionExtraNonce.
  assert (length h = 32%nat) as Hl.
  { unfold parsePaymentId, podFromHex in Hp. destruct (fromHex_buffer _ _) as [val|]; [|done].
    destruct (Nat.eqb_spec (length val) 32); [|done]. by injection Hp as <-. }
  destruct (Z.ltb_spec TX_EXTRA_NONCE_MAX_COUNT (Z.of_nat (length (TX_EXTRA_NONCE_PAYMENT_ID :: h)))) as [Hlt|]; [|by eexists].
  unfold TX_EXTRA_NONCE_MAX_COUNT in Hlt. cbn [length] in Hlt. lia.
Qed.

(** ** Text and keys *)

Lemma front_letters b x :
  1 <= b <= 127 -> bytes_ok x -> length x = 4%nat ->
  take 4 (map letter_of (digits 11 (be_combine ([0x96; 0xd6; 0x88; b] ++ x)))) = addressPrefix.
Proof.
  intros Hb Hx Hl. rewrite firstn_map. change 11%nat with (4 + 7)%nat. rewrite take_digits.
  assert (be_combine ([0x96; 0xd6; 0x88; b] ++ x) / 58 ^ Z.of_nat 7 = 4922600) as ->.
  2:{ vm_compute. reflexivity. }
  rewrite be_combine_app, Hl. pose proof (be_combine_bound x Hx) as Hbound. rewrite Hl in Hbound.
  change (be_combine [0x96; 0xd6; 0x88; b]) with (256 * (256 * (256 * 0x96 + 0xd6) + 0x88) + b).
  change (256 ^ Z.of_nat 4) with 4294967296 in *. change (58 ^ Z.of_nat 7) with 2207984167552. zlia.
Qed.

Section Theorems.
Context (cn_fast_hash : list Z -> list Z) (hash_size : forall buf, pod_ok 32 (cn_fast_hash buf)).

(** The text of a tag of four bytes that starts with the three of the
    prefix of the currency. *)
Lemma encode_addr_text tag b data :
  fits 64 tag -> get_varint_data tag = [0x96; 0xd6; 0x88; b] -> 1 <= b <= 127 -> bytes_ok data -> (64 <= length data)%nat ->
  exists text, encode_addr cn_fast_hash tag data = Some text /\ bytes_ok text /\
    decode_addr cn_fast_hash text = Some (tag, data) /\ take 4 text = addressPrefix /\
    length text = (11 * (1 + length data / 8) + Z.to_nat (encoded_block_sizes !!! (length data mod 8)))%nat.
Proof using hash_size.
  intros Ht Htag Hb Hd Hl. destruct (encode_addr_decode cn_fast_hash hash_size tag data Ht Hd) as (text & E1 & Hok & E2).
  exists text. split; [done|]. split; [done|]. split; [done|]. unfold encode_addr in E1. rewrite Htag in E1.
  set (sum := take addr_checksum_size _) in E1. assert (pod_ok 4 sum) as [Hsl Hsb].
  { split; [by apply checksum_length|]. apply bytes_ok_take, hash_size. }
  assert (bytes_ok [0x96; 0xd6; 0x88; b]) as Htb by (repeat constructor; unfold byte_ok, fits; lia).
  rewrite <- app_assoc in E1. assert (bytes_ok ([0x96; 0xd6; 0x88; b] ++ data ++ sum)) as Hall by (by rewrite !bytes_ok_app).
  pose proof (encode_length _ _ Hall E1) as Hlen. rewrite !length_app, Hsl in Hlen. cbn [length] in Hlen.
  replace ((4 + (length data + 4)) mod 8)%nat with (length data mod 8)%nat in Hlen by nlia.
  split; [|rewrite Hlen; f_equal; f_equal; nlia].
  rewrite <- (take_drop 4 data), <- (app_assoc (take 4 data)), app_assoc in E1, Hall.
  apply encode_front in E1; [|done|rewrite length_app, length_take; cbn [length]; lia].
  change 4%nat with (4 `min` 11)%nat. rewrite <- take_take, E1. apply front_letters; [done|auto with kk|].
  rewrite length_take. lia.
Qed.

Lemma prefix_text data :
  bytes_ok data -> (64 <= length data)%nat ->
  exists text, encode_addr cn_fast_hash CRYPTONOTE_PUBLIC_ADDRESS_BASE58_PREFIX data = Some text /\ bytes_ok text /\
    decode_addr cn_fast_hash text = Some (CRYPTONOTE_PUBLIC_ADDRESS_BASE58_PREFIX, data) /\ take 4 text = addressPrefix /\
    length text = (11 * (1 + length data / 8) + Z.to_nat (encoded_block_sizes !!! (length data mod 8)))%nat.
Proof using hash_size. intros Hd Hl. by apply (encode_addr_text _ 1). Qed.

Context (check_key : PublicKey -> bool).

(** Both keys lie on the curve. *)
Definition keys_checked (adr : AccountPublicAddress) : Prop :=
  check_key (spendPublicKey adr) = true /\ check_key (viewPublicKey adr) = true.

Lemma parse_spec tag text adr :
  address_ok adr -> keys_checked adr -> decode_addr cn_fast_hash text = Some (tag, write_address adr) ->
  parseAccountAddressString cn_fast_hash check_key text = Some (tag, adr).
Proof using Type.
  intros Hok [Hs Hv] E. unfold parseAccountAddressString. rewrite E. cbn [mbind option_bind].
  rewrite address_back by done. cbn [mbind option_bind]. by rewrite Hs, Hv.
Qed.

Lemma parse_inv_spec text tag adr :
  bytes_ok text -> parseAccountAddressString cn_fast_hash check_key text = Some (tag, adr) ->
  address_ok adr /\ keys_checked adr /\ fits 64 tag /\ getAccountAddressAsStr cn_fast_hash tag adr = Some text.
Proof using Type.
  intros Ht. unfold parseAccountAddressString. destruct (decode_addr cn_fast_hash text) as [[tag' data]|] eqn:E; [|done].
  cbn [mbind option_bind]. destruct (fromBinaryArray read_address data) as [adr'|] eqn:Ea; [|done]. cbn [mbind option_bind].
  destruct (check_key _ && check_key _) eqn:Ek; [|done]. intros [= <- <-]. apply andb_true_iff in Ek as [Hs Hv].
  assert (data <> []) as Hne by (intros ->; done).
  destruct (decode_addr_encode _ _ _ _ Ht E Hne) as (Htag & Hd & Eenc).
  apply address_was in Ea as [Hok ->]; [|done]. by split_and!.
Qed.

(** A standard address passes the checks. *)
Lemma validate_standard tag b adr text allowed :
  fits 64 tag -> get_varint_data tag = [0x96; 0xd6; 0x88; b] -> 1 <= b <= 127 -> address_ok adr -> keys_checked adr ->
  getAccountAddressAsStr cn_fast_hash tag adr = Some text ->
  length text = 99%nat /\ bytes_ok text /\ parseAccountAddressString cn_fast_hash check_key text = Some (tag, adr) /\
  validateAddresses cn_fast_hash check_key [text] allowed = Some SUCCESS.
Proof using hash_size.
  intros Ht Htag Hb Hok Hk E. pose proof (write_address_length adr Hok) as Hl. unfold getAccountAddressAsStr in E.
  destruct (encode_addr_text tag b (write_address adr)) as (text' & E' & Htb & Ed & Hp & Hlen);
    [done|done|done|by apply write_address_bytes|lia|]. rewrite E in E'. injection E' as <-.
  rewrite Hl in Hlen. change (length text = 99%nat) in Hlen. pose proof (parse_spec tag text adr Hok Hk Ed) as Hparse.
  split_and!; [done..|]. cbn [validateAddresses]. unfold validate_address. rewrite Hlen. cbn [Nat.eqb negb andb standardAddressLength].
  change (length addressPrefix) with 4%nat. rewrite Hp, bool_decide_eq_false_2 by (intros Hn; by apply Hn).
  cbn [mbind option_bind Nat.eqb integratedAddressLength]. by rewrite Hparse.
Qed.

(** The address of two keys, and the keys of the address. *)
Lemma address_keys adr : address_ok adr -> keys_checked adr ->
  exists text, publicKeysToAddress cn_fast_hash (spendPublicKey adr) (viewPublicKey adr) = Some text /\
    length text = standardAddressLength /\
    validateAddresses cn_fast_hash check_key [text] false = Some SUCCESS /\
    addressToKeys cn_fast_hash check_key text = Some (spendPublicKey adr, viewPublicKey adr).
Proof using hash_size.
  intros Hok Hk. destruct (prefix_text (write_address adr)) as (text & E & _);
    [by apply write_address_bytes|by rewrite write_address_length|].
  destruct (validate_standard CRYPTONOTE_PUBLIC_ADDRESS_BASE58_PREFIX 1 adr text false) as (Hl & _ & Hp & Hv); [done..|].
  exists text. destruct adr as [spend view]. split; [exact E|]. split; [done|]. split; [done|].
  unfold addressToKeys. by rewrite Hp.
Qed.

(** the address of two keys has 99
    letters, begins with the prefix of the wallets, passes [validateAddresses] and is
    parsed into the same keys.  Conversely a text that can be parsed is the
    address of the keys it is parsed into, so every account has one address. *)
Theorem account_address_correct :
  (forall adr, address_ok adr -> keys_checked adr ->
     exists text, publicKeysToAddress cn_fast_hash (spendPublicKey adr) (viewPublicKey adr) = Some text /\
       length text = standardAddressLength /\
       validateAddresses cn_fast_hash check_key [text] false = Some SUCCESS /\
       addressToKeys cn_fast_hash check_key text = Some (spendPublicKey adr, viewPublicKey adr)) /\
  (forall text spend view, bytes_ok text -> addressToKeys cn_fast_hash check_key text = Some (spend, view) ->
     publicKeysToAddress cn_fast_hash spend view = Some text).
Proof using hash_size.
  split.
  - exact address_keys.
  - intros text spend view Hb. unfold addressToKeys.
    destruct (parseAccountAddressString _ _ text) as [[tag adr]|] eqn:E; [|done]. cbn [mbind option_bind].
    destruct (Z.eqb_spec tag CRYPTONOTE_PUBLIC_ADDRESS_BASE58_PREFIX) as [->|]; [|done]. cbn [negb]. intros [= <- <-].
    apply parse_inv_spec in E as (_ & _ & _ & E); [|done]. by destruct adr.
Qed.

(** [validateAddresses] looks at the first four
    letters of an address and not at its tag, while [addressToKeys] throws on
    any other tag than that of the currency.  There is another tag whose
    addresses have the same first letters: every account has an address that passes the
    checks and makes the functions that rely on them throw. *)
Theorem foreign_tag_accepted adr :
  address_ok adr -> keys_checked adr ->
  exists tag text, getAccountAddressAsStr cn_fast_hash tag adr = Some text /\
    validateAddresses cn_fast_hash check_key [text] false = Some SUCCESS /\
    addressToKeys cn_fast_hash check_key text = None.
Proof using hash_size.
  intros Hok Hk. exists 4336406.
  destruct (encode_addr_text 4336406 2 (write_address adr)) as (text & E & _);
    [done|done|done|by apply write_address_bytes|by rewrite write_address_length|].
  destruct (validate_standard 4336406 2 adr text false) as (_ & _ & Hp & Hv); [done..|].
  exists text. split; [exact E|]. split; [done|]. unfold addressToKeys. by rewrite Hp.
Qed.

(** An integrated address and what the functions see of it. *)
Lemma integrated_text paymentID adr :
  bytes_ok paymentID -> length paymentID = 64%nat -> address_ok adr ->
  exists text, encode_addr cn_fast_hash CRYPTONOTE_PUBLIC_ADDRESS_BASE58_PREFIX (paymentID ++ write_address adr) = Some text /\
    bytes_ok text /\ length text = 187%nat /\ take 4 text = addressPrefix /\
    decode_addr cn_fast_hash text = Some (CRYPTONOTE_PUBLIC_ADDRESS_BASE58_PREFIX, paymentID ++ write_address adr).
Proof using hash_size.
  intros Hb Hl Hok. pose proof (write_address_length adr Hok) as Hw.
  destruct (prefix_text (paymentID ++ write_address adr)) as (text & E & Htb & Ed & Hp & Hlen).
  - apply bytes_ok_app. split; [done|]. by apply write_address_bytes.
  - rewrite length_app. lia.
  - exists text. split_and!; [done..| |done|done]. rewrite Hlen, length_app, Hl, Hw. reflexivity.
Qed.

Lemma createIntegratedAddress_spec paymentID adr address :
  hexRegex paymentID = true -> address_ok adr -> keys_checked adr ->
  publicKeysToAddress cn_fast_hash (spendPublicKey adr) (viewPublicKey adr) = Some address ->
  createIntegratedAddress cn_fast_hash check_key address paymentID =
  (text ← encode_addr cn_fast_hash CRYPTONOTE_PUBLIC_ADDRESS_BASE58_PREFIX (paymentID ++ write_address adr); Some (SUCCESS, text)).
Proof using hash_size.
  intros Hhex Hok Hk E. unfold createIntegratedAddress.
  assert (validatePaymentID paymentID = SUCCESS) as ->.
  { unfold validatePaymentID. rewrite Hhex. unfold hexRegex in Hhex. apply andb_true_iff in Hhex as [-> _]. by destruct paymentID. }
  rewrite bool_decide_eq_false_2 by (intros Hn; by apply Hn).
  destruct (validate_standard CRYPTONOTE_PUBLIC_ADDRESS_BASE58_PREFIX 1 adr address false) as (_ & _ & Hp & ->);
    [done..|by destruct adr|]. cbn [mbind option_bind]. by rewrite Hp.
Qed.

(** What follows the length and the prefix in the check of an integrated address. *)
Lemma validate_integrated paymentID adr text :
  address_ok adr -> keys_checked adr -> length paymentID = 64%nat ->
  length text = 187%nat -> take 4 text = addressPrefix ->
  decode_addr cn_fast_hash text = Some (CRYPTONOTE_PUBLIC_ADDRESS_BASE58_PREFIX, paymentID ++ write_address adr) ->
  validateAddresses cn_fast_hash check_key [text] true =
  match createTxExtraWithPaymentId paymentID [] with
  | None => Some INTEGRATED_ADDRESS_PAYMENT_ID_INVALID
  | Some _ => Some SUCCESS
  end.
Proof using hash_size.
  intros Hok Hk Hl Htl Hp Ed. cbn [validateAddresses]. unfold validate_address. rewrite Htl.
  cbn [Nat.eqb negb andb standardAddressLength integratedAddressLength].
  change (length addressPrefix) with 4%nat. rewrite Hp, bool_decide_eq_false_2 by (intros Hn; by apply Hn).
  unfold integrated_part. rewrite Ed, take_app_length', drop_app_length' by done.
  destruct (createTxExtraWithPaymentId paymentID []); [|done].
  destruct (Nat.ltb_spec (length (paymentID ++ write_address adr)) 64) as [Hlt|]; [rewrite length_app in Hlt; lia|].
  rewrite address_back by done. destruct (prefix_text (write_address adr)) as (address & E & _);
    [by apply write_address_bytes|by rewrite write_address_length|].
  destruct (validate_standard CRYPTONOTE_PUBLIC_ADDRESS_BASE58_PREFIX 1 adr address true) as (_ & _ & Hparse & _); [done..|].
  unfold getAccountAddressAsStr. rewrite E. cbn [mbind option_bind]. by rewrite Hparse.
Qed.

(** the integrated address of an account and a
    payment id of 64 hexadecimal digits can be made, has 187 letters, passes
    [validateAddresses], and gives back the address of the account and the payment
    id. *)
Theorem integrated_address_correct adr paymentID h :
  address_ok adr -> keys_checked adr -> bytes_ok paymentID -> parsePaymentId paymentID = Some h ->
  exists address text,
    publicKeysToAddress cn_fast_hash (spendPublicKey adr) (viewPublicKey adr) = Some address /\
    createIntegratedAddress cn_fast_hash check_key address paymentID = Some (SUCCESS, text) /\
    length text = integratedAddressLength /\
    validateAddresses cn_fast_hash check_key [text] true = Some SUCCESS /\
    extractIntegratedAddressData cn_fast_hash text = Some (address, paymentID).
Proof using hash_size.
  intros Hok Hk Hb Hp. pose proof (parsePaymentId_length _ _ Hp) as Hl.
  destruct (prefix_text (write_address adr)) as (address & E & _);
    [by apply write_address_bytes|by rewrite write_address_length|].
  destruct (integrated_text paymentID adr Hb Hl Hok) as (text & Et & Htb & Htl & Htp & Ed).
  exists address, text. split_and!; [by destruct adr| |done| |].
  - rewrite (createIntegratedAddress_spec paymentID adr);
      [by rewrite Et|by eapply parsePaymentId_regex|done|done|by destruct adr].
  - rewrite (validate_integrated paymentID adr text) by done. by destruct (createTxExtra_parse _ _ Hp) as [? ->].
  - unfold extractIntegratedAddressData. rewrite Ed, take_app_length', drop_app_length' by done.
    destruct (Nat.ltb_spec (length (paymentID ++ write_address adr)) 64) as [Hlt|]; [rewrite length_app in Hlt; lia|].
    rewrite address_back by done. cbn [mbind option_bind]. unfold getAccountAddressAsStr. by rewrite E.
Qed.

(** [validatePaymentID] means to accept
    hexadecimal digits, but accepts every letter.  With a payment id of other letters
    [createIntegratedAddress] reports success, and the address that it
    returns is refused by [validateAddresses]. *)
Theorem payment_id_not_hexadecimal adr :
  address_ok adr -> keys_checked adr ->
  exists paymentID address text,
    validatePaymentID paymentID = SUCCESS /\ parsePaymentId paymentID = None /\
    createIntegratedAddress cn_fast_hash check_key address paymentID = Some (SUCCESS, text) /\
    validateAddresses cn_fast_hash check_key [text] true = Some INTEGRATED_ADDRESS_PAYMENT_ID_INVALID.
Proof using hash_size.
  intros Hok Hk. assert (bytes_ok (replicate 64 103)) as Hb by (apply (bool_decide_unpack _); vm_compute; exact I).
  destruct (prefix_text (write_address adr)) as (address & E & _);
    [by apply write_address_bytes|by rewrite write_address_length|].
  destruct (integrated_text (replicate 64 103) adr Hb eq_refl Hok) as (text & Et & Htb & Htl & Htp & Ed).
  exists (replicate 64 103), address, text. split_and!; [done|done| |].
  - rewrite (createIntegratedAddress_spec (replicate 64 103) adr) by (done || by destruct adr). by rewrite Et.
  - by rewrite (validate_integrated (replicate 64 103) adr text).
Qed.

End Theorems.

(** ** Instances *)

Definition sample_address : AccountPublicAddress := mkAccountPublicAddress (replicate 32 17) (replicate 32 29).

Lemma sample_address_ok : address_ok sample_address.
Proof. repeat split; apply (bool_decide_unpack _); vm_compute; exact I. Qed.

Lemma account_address_correct_witness :
  exists text, publicKeysToAddress toy_hash (replicate 32 17) (replicate 32 29) = Some text /\
    length text = standardAddressLength /\
    validateAddresses toy_hash (fun _ => true) [text] false = Some SUCCESS /\
    addressToKeys toy_hash (fun _ => true) text = Some (replicate 32 17, replicate 32 29).
Proof.
  apply (proj1 (account_address_correct toy_hash toy_hash_size (fun _ => true)) sample_address sample_address_ok).
  split; reflexivity.
Defined.

Lemma foreign_tag_accepted_witness :
  exists tag text, getAccountAddressAsStr toy_hash tag sample_address = Some text /\
    validateAddresses toy_hash (fun _ => true) [text] false = Some SUCCESS /\
    addressToKeys toy_hash (fun _ => true) text = None.
Proof.
  apply (foreign_tag_accepted toy_hash toy_hash_size (fun _ => true) sample_address sample_address_ok). split; reflexivity.
Defined.

Lemma integrated_address_correct_witness :
  exists address text,
    publicKeysToAddress toy_hash (replicate 32 17) (replicate 32 29) = Some address /\
    createIntegratedAddress toy_hash (fun _ => true) address (podToHex (replicate 32 255)) = Some (SUCCESS, text) /\
    length text = integratedAddressLength /\
    validateAddresses toy_hash (fun _ => true) [text] true = Some SUCCESS /\
    extractIntegratedAddressData toy_hash text = Some (address, podToHex (replicate 32 255)).
Proof.
  apply (integrated_address_correct toy_hash toy_hash_size (fun _ => true) sample_address
           (podToHex (replicate 32 255)) (replicate 32 255) sample_address_ok).
  - split; reflexivity.
  - apply (bool_decide_unpack _). vm_compute. exact I.
  - vm_compute. reflexivity.
Defined.

Lemma payment_id_not_hexadecimal_witness :
  exists paymentID address text,
    validatePaymentID paymentID = SUCCESS /\ parsePaymentId paymentID = None /\
    createIntegratedAddress toy_hash (fun _ => true) address paymentID = Some (SUCCESS, text) /\
    validateAddresses toy_hash (fun _ => true) [text] true = Some INTEGRATED_ADDRESS_PAYMENT_ID_INVALID.
Proof.
  apply (payment_id_not_hexadecimal toy_hash toy_hash_size (fun _ => true) sample_address sample_address_ok). split; reflexivity.
Defined.
