(* ===== verification/Block.v ===== *)
(** * Blocks: binary format, hashes and proof of work

    The block part of src/src/cryptonote_core/cryptonote_serialization.cpp, and
    cached_block.cpp, cached_transaction.cpp, [getBaseTransactionHash] of
    cryptonote_tools.h and the proof-of-work checks of currency.cpp.  The hash
    functions [cn_fast_hash] and the slow hashes are arguments; nothing below
    depends on what they compute.  [None] is an exception. *)

From S2P Require Import Prelude Config Bytes IntUtil Types Parser Varint TreeHash TxExtra.
From S2P Require Import Serialization.
Import parameters.

(** ** Block headers *)

(** [serializeBlockHeader]. *)
Definition write_header (h : BlockHeader) : option (list Z) :=
  if BLOCK_MAJOR_VERSION_5 <? majorVersion h then None
  else
    let versions := writeVarint (majorVersion h) ++ writeVarint (minorVersion h) in
    if majorVersion h =? BLOCK_MAJOR_VERSION_1
    then Some (versions ++ writeVarint (timestamp h) ++ previousBlockHash h
               ++ le_split 4 (nonce h))
    else if BLOCK_MAJOR_VERSION_2 <=? majorVersion h
    then Some (versions ++ previousBlockHash h)
    else None.

Definition read_nonce : parser Z := b ← read_bytes 4; mret (le_combine b).

(** From version 2 on, nonce and timestamp are not in the header; [0] stands for
    what the caller sets afterwards. *)
Definition read_header : parser BlockHeader :=
  majorVersion ← readVarint 8;
  _ ← pcheck (majorVersion <=? BLOCK_MAJOR_VERSION_5);
  minorVersion ← readVarint 8;
  if majorVersion =? BLOCK_MAJOR_VERSION_1 then
    timestamp ← readVarint 64;
    previousBlockHash ← read_bytes 32;
    nonce ← read_nonce;
    mret (mkBlockHeader majorVersion minorVersion nonce timestamp previousBlockHash)
  else if BLOCK_MAJOR_VERSION_2 <=? majorVersion then
    previousBlockHash ← read_bytes 32;
    mret (mkBlockHeader majorVersion minorVersion 0 0 previousBlockHash)
  else pfail.

(** ** Hashing objects *)

Section Hashing.
Context (cn_fast_hash : list Z -> list Z).

Definition NULL_HASH : Hash := replicate 32 0.

Definition getBinaryArrayHash (binaryArray : list Z) : Hash := cn_fast_hash binaryArray.

(** [getObjectHash(object, hash)] given the serialized object; [None] for [false]. *)
Definition getObjectHash (blob : option (list Z)) : option Hash := cn_fast_hash <$> blob.

(** The constant 96-byte buffer of [getBaseTransactionHash] after its first 32 bytes. *)
Definition base_hash_tail : list Z :=
  [0xbc; 0x36; 0x78; 0x9e; 0x7a; 0x1e; 0x28; 0x14; 0x36; 0x46; 0x42; 0x29; 0x82; 0x8f; 0x81; 0x7d;
   0x66; 0x12; 0xf7; 0xb4; 0x77; 0xd6; 0x65; 0x91; 0xff; 0x96; 0xa9; 0xe0; 0x64; 0xbc; 0xc9; 0x8a]
  ++ replicate 32 0.

Definition getBaseTransactionHash (tx : BaseTransaction) : Hash :=
  if version tx <? TRANSACTION_VERSION_2 then cn_fast_hash (write_base_transaction tx)
  else cn_fast_hash (cn_fast_hash (write_prefix tx) ++ base_hash_tail).

(** ** Parent blocks (merge mining) *)

(** [serialize(ParentBlockSerializer &)] when writing. *)
Definition write_parent (hashing headerOnly : bool) (timestamp nonce : Z) (pb : ParentBlock)
    : option (list Z) :=
  let start :=
    writeVarint (pb_majorVersion pb) ++ writeVarint (pb_minorVersion pb) ++
    writeVarint timestamp ++ pb_previousBlockHash pb ++ le_split 4 nonce ++
    (if hashing
     then tree_hash_from_branch cn_fast_hash (pb_baseTransactionBranch pb)
            (length (pb_baseTransactionBranch pb))
            (getBaseTransactionHash (pb_baseTransaction pb)) None
     else []) ++
    writeVarint (pb_transactionCount pb) in
  if pb_transactionCount pb <? 1 then None
  else if headerOnly then Some start
  else if negb (Z.of_nat (length (pb_baseTransactionBranch pb))
                =? tree_depth (pb_transactionCount pb)) then None
  else
    match getMergeMiningTagFromExtra (extra (pb_baseTransaction pb)) with
    | None => None
    | Some mmTag =>
        if 8 * 32 <? depth mmTag then None
        else if negb (depth mmTag =? Z.of_nat (length (pb_blockchainBranch pb))) then None
        else Some (start ++ concat (pb_baseTransactionBranch pb)
                   ++ write_base_transaction (pb_baseTransaction pb)
                   ++ concat (pb_blockchainBranch pb))
    end.

(** ... and when reading, with the timestamp and the nonce of the block. *)
Definition read_parent : parser (ParentBlock * Z * Z) :=
  majorVersion ← readVarint 8;
  minorVersion ← readVarint 8;
  timestamp ← readVarint 64;
  previousBlockHash ← read_bytes 32;
  nonce ← read_nonce;
  txNum ← readVarint 64;
  let transactionCount := u16 txNum in
  _ ← pcheck (1 <=? transactionCount);
  baseTransactionBranch ← read_many (read_bytes 32) (tree_depth transactionCount);
  baseTransaction ← read_base_transaction;
  match getMergeMiningTagFromExtra (extra baseTransaction) with
  | None => pfail
  | Some mmTag =>
      _ ← pcheck (depth mmTag <=? 8 * 32);
      blockchainBranch ← read_many (read_bytes 32) (depth mmTag);
      mret (mkParentBlock majorVersion minorVersion previousBlockHash transactionCount
              baseTransactionBranch baseTransaction blockchainBranch, timestamp, nonce)
  end.

(** ** Block templates *)

Definition write_block (b : BlockTemplate) : option (list Z) :=
  let h := header b in
  hdr ← write_header h;
  parent ← (if BLOCK_MAJOR_VERSION_2 <=? majorVersion h
            then write_parent false false (timestamp h) (nonce h) (parentBlock b)
            else Some []);
  tx ← write_transaction (baseTransaction b);
  Some (hdr ++ parent ++ tx ++ write_vector (fun h => h) (transactionHashes b)).

(** The parent block of a version 1 block is not in the blob. *)
Definition default_parent : ParentBlock :=
  mkParentBlock 0 0 NULL_HASH 0 [] (mkTransactionPrefix 0 0 [] [] []) [].

Definition read_block : parser BlockTemplate :=
  h ← read_header;
  '(parent, timestamp, nonce) ←
    (if BLOCK_MAJOR_VERSION_2 <=? majorVersion h then read_parent
     else mret (default_parent, timestamp h, nonce h));
  tx ← read_transaction;
  hashes ← read_vector (read_bytes 32);
  mret (mkBlockTemplate
          (mkBlockHeader (majorVersion h) (minorVersion h) nonce timestamp (previousBlockHash h))
          parent tx hashes).

(** Raw blocks, [serialize(RawBlock &)]. *)
Definition write_raw_block (r : RawBlock) : list Z :=
  writeVarint (Z.of_nat (length (block r))) ++ block r ++
  writeVarint (Z.of_nat (length (transactions r))) ++
  concat ((fun txBlob => writeVarint (Z.of_nat (length txBlob)) ++ txBlob) <$> transactions r).

Definition read_blob : parser (list Z) := size ← readVarint 64; read_bytes size.

Definition read_raw_block : parser RawBlock :=
  block ← read_blob;
  txCount ← readVarint 64;
  transactions ← read_many read_blob txCount;
  mret (mkRawBlock block transactions).

(** ** Cached blocks *)

(** [getObjectHash(block.baseTransaction)]: the null hash when serialization fails. *)
Definition base_transaction_hash (b : BlockTemplate) : Hash :=
  default NULL_HASH (getObjectHash (write_transaction (baseTransaction b))).

Definition getTransactionTreeHash (b : BlockTemplate) : Hash :=
  tree_hash cn_fast_hash (base_transaction_hash b :: transactionHashes b).

Definition getBlockHashingBinaryArray (b : BlockTemplate) : option (list Z) :=
  result ← write_header (header b);
  Some (result ++ getTransactionTreeHash b
        ++ get_varint_data (Z.of_nat (length (transactionHashes b)) + 1)).

Definition getParentBlockBinaryArray (headerOnly : bool) (b : BlockTemplate) : option (list Z) :=
  write_parent false headerOnly (timestamp (header b)) (nonce (header b)) (parentBlock b).

Definition getParentBlockHashingBinaryArray (headerOnly : bool) (b : BlockTemplate)
    : option (list Z) :=
  write_parent true headerOnly (timestamp (header b)) (nonce (header b)) (parentBlock b).

(** [getObjectHash] of a [BinaryArray] hashes it with its size in front. *)
Definition getBlockHash (b : BlockTemplate) : option Hash :=
  blockBinaryArray ← getBlockHashingBinaryArray b;
  parent ← (if BLOCK_MAJOR_VERSION_2 <=? majorVersion (header b)
            then getParentBlockHashingBinaryArray false b else Some []);
  Some (cn_fast_hash (write_string (blockBinaryArray ++ parent))).

Definition getAuxiliaryBlockHeaderHash (b : BlockTemplate) : option Hash :=
  blob ← getBlockHashingBinaryArray b; Some (cn_fast_hash (write_string blob)).

Definition getBlockIndex (b : BlockTemplate) : Z :=
  match inputs (prefix (baseTransaction b)) with
  | [BaseInput blockIndex] => blockIndex
  | _ => 0
  end.

(** ** Cached transactions *)

(** A transaction together with the blob its hash is taken over. *)
Definition CachedTransaction (blob : list Z) : option Transaction :=
  fromBinaryArray read_transaction blob.

Definition getTransactionHash (transactionBinaryArray : list Z) : Hash :=
  getBinaryArrayHash transactionBinaryArray.

Definition getTransactionPrefixHash (t : Transaction) : Hash :=
  cn_fast_hash (write_prefix (prefix t)).

Definition getTransactionFee (t : Transaction) : Z :=
  let ins := inputs (prefix t) in
  if existsb (fun i => match i with BaseInput _ => true | _ => false end) ins then 0
  else u64 (sum_u64 (key_amounts ins) - sum_u64 (output_amounts (outputs (prefix t)))).

(** ** Proof of work *)

Section ProofOfWork.
Context (cn_slow_hash_v0 cn_lite_slow_hash_v1 cn_turtle_lite_slow_hash_v2 : list Z -> list Z).

Definition getBlockLongHash (b : BlockTemplate) : option Hash :=
  let v := majorVersion (header b) in
  if v =? BLOCK_MAJOR_VERSION_1
  then cn_slow_hash_v0 <$> getBlockHashingBinaryArray b
  else if (v =? BLOCK_MAJOR_VERSION_2) || (v =? BLOCK_MAJOR_VERSION_3)
  then cn_slow_hash_v0 <$> getParentBlockHashingBinaryArray true b
  else if v =? BLOCK_MAJOR_VERSION_4
  then cn_lite_slow_hash_v1 <$> getParentBlockHashingBinaryArray true b
  else if BLOCK_MAJOR_VERSION_5 <=? v
  then cn_turtle_lite_slow_hash_v2 <$> getParentBlockHashingBinaryArray true b
  else None.

Context (genesisBlockHash : Hash).

Definition checkProofOfWorkV1 (b : BlockTemplate) (currentDifficulty : Z) : option bool :=
  if negb (BLOCK_MAJOR_VERSION_1 =? majorVersion (header b)) then Some false
  else h ← getBlockLongHash b; Some (check_hash h currentDifficulty).

Definition checkProofOfWorkV2 (b : BlockTemplate) (currentDifficulty : Z) : option bool :=
  if majorVersion (header b) <? BLOCK_MAJOR_VERSION_2 then Some false
  else
    h ← getBlockLongHash b;
    if negb (check_hash h currentDifficulty) then Some false
    else
      match getMergeMiningTagFromExtra (extra (pb_baseTransaction (parentBlock b))) with
      | None => Some false
      | Some mmTag =>
          let branch := pb_blockchainBranch (parentBlock b) in
          if 8 * 32 <? Z.of_nat (length branch) then Some false
          else
            aux ← getAuxiliaryBlockHeaderHash b;
            let auxBlocksMerkleRoot :=
              tree_hash_from_branch cn_fast_hash branch (length branch) aux
                (Some genesisBlockHash) in
            Some (bool_decide (auxBlocksMerkleRoot = merkleRoot mmTag))
      end.

Definition checkProofOfWork (b : BlockTemplate) (currentDiffic : Z) : option bool :=
  let v := majorVersion (header b) in
  if v =? BLOCK_MAJOR_VERSION_1 then checkProofOfWorkV1 b currentDiffic
  else if (v =? BLOCK_MAJOR_VERSION_2) || (v =? BLOCK_MAJOR_VERSION_3)
          || (v =? BLOCK_MAJOR_VERSION_4) || (v =? BLOCK_MAJOR_VERSION_5)
  then checkProofOfWorkV2 b currentDiffic
  else Some false.

End ProofOfWork.
End Hashing.

(** ** Raw blocks *)

Definition blob_ok (s : list Z) : Prop := bytes_ok s /\ fits 64 (Z.of_nat (length s)).

Lemma blob_codec :
  codec_plus blob_ok (fun s => writeVarint (Z.of_nat (length s)) ++ s) read_blob.
Proof.
  assert (forall s, read_blob s = read_string false s) as E.
  { intros s. unfold read_blob, read_string, mbind, parser_bind.
    destruct (readVarint 64 s) as [[n s']|]; [|done]. by rewrite andb_false_r. }
  destruct string_codec as [[Hr Hc Hb] Hn]. split; [split|done].
  - intros x tl Hx. rewrite E. by apply Hr.
  - intros s x tl Hs. rewrite E. by apply Hc.
  - done.
Qed.

Definition raw_block_ok (r : RawBlock) : Prop :=
  blob_ok (block r) /\ Forall blob_ok (transactions r) /\
  fits 64 (Z.of_nat (length (transactions r))).

Lemma raw_block_codec : codec raw_block_ok write_raw_block read_raw_block.
Proof.
  pose proof (vector_codec _ _ _ blob_codec) as Hv.
  assert (forall r, write_raw_block r = (writeVarint (Z.of_nat (length (block r))) ++ block r) ++
    write_vector (fun s => writeVarint (Z.of_nat (length s)) ++ s) (transactions r)) as Ew.
  { intros r. unfold write_raw_block, write_vector. by rewrite <- !app_assoc. }
  assert (forall s, read_raw_block s =
    (block ← read_blob; txs ← read_vector read_blob; mret (mkRawBlock block txs)) s) as Er.
  { intros s. unfold read_raw_block, read_vector, mbind, parser_bind.
    destruct (read_blob s) as [[? s']|]; [|done]. by destruct (readVarint 64 s') as [[? ?]|]. }
  split.
  - intros [b txs] tl (Hb & Ht & Hl). simpl in *. rewrite Er, Ew, <- app_assoc.
    read_back blob_codec. by read_back Hv.
  - intros s r tl Hs. rewrite Er. intros H. parse_inv. read_was blob_codec. read_was Hv.
    rewrite Ew. simpl. split; [|by rewrite app_assoc]. unfold raw_block_ok; simpl. tauto.
  - intros r (Hb & Ht & Hl). rewrite Ew. apply bytes_ok_app.
    split; [by apply (codec_bytes _ _ _ blob_codec)|by apply (codec_bytes _ _ _ Hv)].
Qed.

(** a raw block (block blob and transaction blobs) is read back
    exactly as it was written, and a blob is accepted as raw block [r] only if it is
    the serialization of [r]. *)
Theorem raw_block_canonical blob r :
  bytes_ok blob ->
  fromBinaryArray read_raw_block blob = Some r <-> raw_block_ok r /\ write_raw_block r = blob.
Proof.
  intros Hb. unfold fromBinaryArray. split.
  - destruct (read_raw_block blob) as [[r' [|? ?]]|] eqn:E; try done. intros [= ->].
    apply (codec_canonical _ _ _ raw_block_codec _ _ _ Hb) in E as [Hok ->].
    by rewrite app_nil_r.
  - intros [Hok <-]. pose proof (codec_roundtrip _ _ _ raw_block_codec r [] Hok) as Hr.
    rewrite app_nil_r in Hr. by rewrite Hr.
Qed.

Lemma raw_block_canonical_witness :
  let r := mkRawBlock [1; 2; 3] [[4; 5]; []; [6]] in
  fromBinaryArray read_raw_block (write_raw_block r) = Some r <->
  raw_block_ok r /\ write_raw_block r = write_raw_block r.
Proof.
  intros r. apply (raw_block_canonical (write_raw_block r) r).
  repeat constructor; vm_compute; congruence.
Defined.

(** ** Blocks *)

Definition hash_codec : codec_plus (pod_ok 32) (fun s => s) (read_bytes 32).
Proof. split; [exact (cpod 32)|]. intros [|] [Hl _]; done. Qed.

Lemma read_hashes_back n l tl :
  Z.of_nat (length l) = n -> Forall (pod_ok 32) l ->
  read_many (read_bytes 32) n (concat l ++ tl) = Some (l, tl).
Proof.
  intros <- Hl. rewrite <- (list_fmap_id l) at 2.
  by apply (codec_roundtrip _ _ _ (read_many_codec _ _ _ (Z.of_nat (length l)) hash_codec ltac:(lia))).
Qed.

Lemma read_nonce_back n tl : fits 32 n -> read_nonce (le_split 4 n ++ tl) = Some (n, tl).
Proof.
  intros Hn. unfold read_nonce. read_back (cpod 4).
  - rewrite le_combine_split by (words; lia). change (256 ^ Z.of_nat 4) with (2 ^ 32).
    by rewrite Z.mod_small.
  - split; [apply length_le_split|apply le_split_ok].
Qed.

Lemma read_base_back p tl :
  prefix_ok p -> read_base_transaction (write_base_transaction p ++ tl) = Some (p, tl).
Proof.
  destruct p as [v u ins outs ex]. intros (Hv & Hu & Hi & Hil & Ho & Hol & He & Hel).
  unfold write_base_transaction, write_prefix, read_base_transaction. simpl in *.
  rewrite <- !app_assoc. read_back c8. read_back c64. read_back inputs_codec.
  read_back outputs_codec. read_back string_codec.
  destruct (TRANSACTION_VERSION_2 <=? v); [|done]. by read_back c64.
Qed.

Definition parent_ok (pb : ParentBlock) : Prop :=
  fits 8 (pb_majorVersion pb) /\ fits 8 (pb_minorVersion pb) /\
  pod_ok 32 (pb_previousBlockHash pb) /\ 1 <= pb_transactionCount pb < 2 ^ 16 /\
  Z.of_nat (length (pb_baseTransactionBranch pb)) = tree_depth (pb_transactionCount pb) /\
  Forall (pod_ok 32) (pb_baseTransactionBranch pb) /\ prefix_ok (pb_baseTransaction pb) /\
  Forall (pod_ok 32) (pb_blockchainBranch pb) /\
  match getMergeMiningTagFromExtra (extra (pb_baseTransaction pb)) with
  | Some mmTag => depth mmTag = Z.of_nat (length (pb_blockchainBranch pb)) /\ depth mmTag <= 256
  | None => False
  end.

Definition block_ok (b : BlockTemplate) : Prop :=
  let h := header b in
  1 <= majorVersion h <= 5 /\ fits 8 (minorVersion h) /\ fits 64 (timestamp h) /\
  fits 32 (nonce h) /\ pod_ok 32 (previousBlockHash h) /\
  (if majorVersion h =? 1 then parentBlock b = default_parent else parent_ok (parentBlock b)) /\
  tx_read_ok (baseTransaction b) /\ Forall (pod_ok 32) (transactionHashes b) /\
  fits 64 (Z.of_nat (length (transactionHashes b))).

#[global] Instance parent_ok_dec pb : Decision (parent_ok pb).
Proof. unfold parent_ok. destruct (getMergeMiningTagFromExtra _); apply _. Defined.
#[global] Instance block_ok_dec b : Decision (block_ok b).
Proof. unfold block_ok. destruct (majorVersion (header b) =? 1); apply _. Defined.

Lemma read_parent_back H timestamp nonce pb :
  parent_ok pb -> fits 64 timestamp -> fits 32 nonce ->
  exists b, write_parent H false false timestamp nonce pb = Some b /\
    forall tl, read_parent (b ++ tl) = Some ((pb, timestamp, nonce), tl).
Proof.
  intros (Hma & Hmi & Hp & Hc & Hlen & Hbr & Htx & Hbb & Hmm) Ht Hn. unfold write_parent.
  destruct (Z.ltb_spec (pb_transactionCount pb) 1); [lia|].
  rewrite (proj2 (Z.eqb_eq _ _) Hlen). cbn [negb].
  destruct (getMergeMiningTagFromExtra _) as [mm|] eqn:Emm; [|done]. destruct Hmm as [Hd Hd'].
  destruct (Z.ltb_spec (8 * 32) (depth mm)); [lia|].
  rewrite (proj2 (Z.eqb_eq _ _) Hd). cbn [negb].
  eexists. split; [done|]. intros tl. unfold read_parent. cbn [app].
  rewrite <- !app_assoc.
  read_back c8. read_back c8. read_back c64. read_back (cpod 32).
  rewrite (pbind_run _ _ _ _ _ (read_nonce_back _ _ Hn)).
  read_back c64; [|words; lia]. rewrite wrap_small by (words; lia).
  rewrite (pbind_run _ _ _ tt _) by (apply pcheck_Some; split; [lia|reflexivity]).
  rewrite (pbind_run _ _ _ _ _ (read_hashes_back _ _ _ Hlen Hbr)).
  rewrite (pbind_run _ _ _ _ _ (read_base_back _ _ Htx)). rewrite Emm.
  rewrite (pbind_run _ _ _ tt _) by (apply pcheck_Some; split; [lia|reflexivity]).
  rewrite (pbind_run _ _ _ _ _ (read_hashes_back _ _ _ (eq_sym Hd) Hbb)).
  by destruct pb.
Qed.

Lemma read_header_back h :
  1 <= majorVersion h <= 5 -> fits 8 (minorVersion h) -> fits 64 (timestamp h) ->
  fits 32 (nonce h) -> pod_ok 32 (previousBlockHash h) ->
  exists b, write_header h = Some b /\
    forall tl, read_header (b ++ tl) =
      Some (mkBlockHeader (majorVersion h) (minorVersion h)
              (if majorVersion h =? 1 then nonce h else 0)
              (if majorVersion h =? 1 then timestamp h else 0) (previousBlockHash h), tl).
Proof.
  intros Hma Hmi Ht Hn Hp. unfold write_header, read_header.
  change BLOCK_MAJOR_VERSION_5 with 5. change BLOCK_MAJOR_VERSION_2 with 2.
  change BLOCK_MAJOR_VERSION_1 with 1.
  destruct (Z.ltb_spec 5 (majorVersion h)); [lia|].
  destruct (Z.eqb_spec (majorVersion h) 1) as [E1|E1];
    [|destruct (Z.leb_spec 2 (majorVersion h)); [|lia]].
  all: eexists; split; [done|]; intros tl; rewrite <- !app_assoc.
  all: (read_back c8; [|words; lia]).
  all: rewrite (pbind_run _ _ _ tt _) by (apply pcheck_Some; split; [lia|reflexivity]).
  all: read_back c8.
  - rewrite E1. change (1 =? 1) with true. cbv iota. read_back c64. read_back (cpod 32).
    by rewrite (pbind_run _ _ _ _ _ (read_nonce_back _ _ Hn)).
  - rewrite (proj2 (Z.eqb_neq _ _) E1). destruct (Z.leb_spec 2 (majorVersion h)); [|lia].
    by read_back (cpod 32).
Qed.

(** C31: every well-formed block, of any version from 1 to 5 and with any
    merge mining parent, is serialized, and reading the bytes back returns the block
    unchanged, whatever follows them. *)
Theorem block_roundtrip H b :
  block_ok b -> exists blob, write_block H b = Some blob /\
    forall tl, read_block (blob ++ tl) = Some (b, tl).
Proof.
  intros (Hma & Hmi & Ht & Hn & Hp & Hpar & Htx & Hh & Hhl). unfold write_block, read_block.
  destruct (read_header_back (header b)) as (hb & Eh & Rh); [done..|]. rewrite Eh.
  destruct (transaction_roundtrip _ Htx) as (tb & Et & _ & Rt). rewrite Et.
  pose proof (vector_codec _ _ _ hash_codec) as Hv.
  destruct (Z.eqb_spec (majorVersion (header b)) 1) as [E1|E1].
  - rewrite E1. simpl. eexists. split; [done|]. intros tl. rewrite <- !app_assoc.
    rewrite (pbind_run _ _ _ _ _ (Rh _)). rewrite E1. simpl.
    rewrite (pbind_run _ _ _ _ _ eq_refl).
    rewrite (pbind_run _ _ _ _ _ (Rt _)). read_back Hv. rewrite <- Hpar, <- E1.
    by destruct b as [[] ? ? ?].
  - destruct (read_parent_back H _ _ _ Hpar Ht Hn) as (pb & Ep & Rp).
    destruct (Z.leb_spec BLOCK_MAJOR_VERSION_2 (majorVersion (header b))) as [_|Hc];
      [|change BLOCK_MAJOR_VERSION_2 with 2 in Hc; lia].
    rewrite Ep. simpl. eexists. split; [done|]. intros tl. rewrite <- !app_assoc.
    rewrite (pbind_run _ _ _ _ _ (Rh _)). cbn [majorVersion minorVersion previousBlockHash].
    destruct (Z.leb_spec BLOCK_MAJOR_VERSION_2 (majorVersion (header b))) as [_|Hc];
      [|change BLOCK_MAJOR_VERSION_2 with 2 in Hc; lia].
    rewrite (pbind_run _ _ _ _ _ (Rp _)). rewrite (pbind_run _ _ _ _ _ (Rt _)). read_back Hv.
    by destruct b as [[] ? ? ?].
Qed.

Definition sample_base_tx (extra : list Z) : Transaction :=
  mkTransaction (mkTransactionPrefix 1 30 [BaseInput 10]
    [mkTransactionOutput 700 (KeyOutput (replicate 32 8))] extra) [].

Definition sample_parent : ParentBlock :=
  mkParentBlock 1 0 (replicate 32 2) 1 []
    (prefix (sample_base_tx
       (concat (field_bytes <$> [TransactionExtraMergeMiningTag (mkMergeMiningTag 0 (replicate 32 9))]))))
    [].

Definition sample_block : BlockTemplate :=
  mkBlockTemplate (mkBlockHeader 5 0 77 1540000000 (replicate 32 1)) sample_parent
    (sample_base_tx [1; 2]) [replicate 32 3; replicate 32 4].

Lemma sample_block_ok : block_ok sample_block.
Proof.
  apply (bool_decide_unpack (block_ok sample_block)). vm_compute. exact I.
Qed.

Lemma block_roundtrip_witness :
  exists blob, write_block (fun l => l) sample_block = Some blob /\
    forall tl, read_block (blob ++ tl) = Some (sample_block, tl).
Proof. apply (block_roundtrip (fun l => l) sample_block). exact sample_block_ok. Defined.

(** The blob of [sample_block] with the parent transaction count 1 written as 65537. *)
Definition shuffled_blob : list Z :=
  let pb := sample_parent in
  let h := header sample_block in
  writeVarint (majorVersion h) ++ writeVarint (minorVersion h) ++ previousBlockHash h ++
  writeVarint (pb_majorVersion pb) ++ writeVarint (pb_minorVersion pb) ++
  writeVarint (timestamp h) ++ pb_previousBlockHash pb ++ le_split 4 (nonce h) ++
  writeVarint 65537 ++ write_base_transaction (pb_baseTransaction pb) ++
  default [] (write_transaction (baseTransaction sample_block)) ++
  write_vector (fun h => h) (transactionHashes sample_block).

(** unlike transactions, blocks have several blobs: the parent
    transaction count is read as 64 bits and cut to 16, so two different blobs decode
    to the same block (with the same hash).  This is what the comparison of the received
    blob with the re-serialized block in [Core::addBlock] is there to exclude. *)
Theorem block_blob_malleable H :
  exists blob1 blob2, blob1 <> blob2 /\
    fromBinaryArray read_block blob1 = Some sample_block /\
    fromBinaryArray read_block blob2 = Some sample_block /\
    write_block H sample_block = Some blob1.
Proof.
  destruct (write_block H sample_block) as [blob|] eqn:E; [|vm_compute in E; done].
  exists blob, shuffled_blob. vm_compute in E. injection E as <-.
  split_and!; [vm_compute; congruence|vm_compute; reflexivity..].
Qed.

(** ** Proof of work *)

(** an accepted proof of work means: the version is one of the
    five known ones, the slow hash of the (parent) header, read as a little endian
    number, times the difficulty is below 2^256, and from version 2 on the hash of the
    block itself is bound to that work: the Merkle path through the blockchain branch
    from the block's own hash ends in the root of the merge mining tag in the parent's
    miner transaction, and the branch has at most 256 entries. *)
Theorem checkProofOfWork_sound H slow0 slow1 slow2 genesis b difficulty :
  fits 64 difficulty ->
  (forall s, pod_ok 32 (slow0 s)) -> (forall s, pod_ok 32 (slow1 s)) ->
  (forall s, pod_ok 32 (slow2 s)) ->
  checkProofOfWork H slow0 slow1 slow2 genesis b difficulty = Some true ->
  1 <= majorVersion (header b) <= 5 /\
  (exists h, getBlockLongHash H slow0 slow1 slow2 b = Some h /\
             le_combine h * difficulty < 2 ^ 256) /\
  (2 <= majorVersion (header b) ->
   exists tag aux,
     getMergeMiningTagFromExtra (extra (pb_baseTransaction (parentBlock b))) = Some tag /\
     getAuxiliaryBlockHeaderHash H b = Some aux /\
     (length (pb_blockchainBranch (parentBlock b)) <= 256)%nat /\
     tree_hash_from_branch H (pb_blockchainBranch (parentBlock b))
       (length (pb_blockchainBranch (parentBlock b))) aux (Some genesis) = merkleRoot tag).
Proof.
  intros Hd H0 H1 H2. unfold checkProofOfWork.
  assert (forall h, getBlockLongHash H slow0 slow1 slow2 b = Some h -> pod_ok 32 h) as Hlong.
  { intros h. unfold getBlockLongHash.
    repeat case_match; try done; intros (? & ? & ->)%fmap_Some; auto. }
  change BLOCK_MAJOR_VERSION_1 with 1. change BLOCK_MAJOR_VERSION_2 with 2.
  change BLOCK_MAJOR_VERSION_3 with 3. change BLOCK_MAJOR_VERSION_4 with 4.
  change BLOCK_MAJOR_VERSION_5 with 5.
  destruct (Z.eqb_spec (majorVersion (header b)) 1) as [E1|E1].
  - unfold checkProofOfWorkV1. rewrite E1. simpl.
    intros (h & Eh & [= Hc])%bind_Some. split; [lia|]. split; [|lia].
    exists h. split; [done|]. by apply check_hash_spec; auto.
  - destruct (_ || _) eqn:Ev; [|done]. unfold checkProofOfWorkV2.
    destruct (Z.ltb_spec (majorVersion (header b)) BLOCK_MAJOR_VERSION_2); [done|].
    intros (h & Eh & Hrest)%bind_Some.
    destruct (check_hash h difficulty) eqn:Ec; [|done]. cbn [negb] in Hrest.
    destruct (getMergeMiningTagFromExtra _) as [tag|] eqn:Et; [|done].
    destruct (Z.ltb_spec (8 * 32) (Z.of_nat (length (pb_blockchainBranch (parentBlock b)))));
      [done|].
    apply bind_Some in Hrest as (aux & Ea & [= Hroot%bool_decide_eq_true]).
    split; [rewrite !orb_true_iff, !Z.eqb_eq in Ev; lia|]. split.
    + exists h. split; [done|]. by apply check_hash_spec; auto.
    + intros _. exists tag, aux. split_and!; [done|done|lia|done].
Qed.

(** A block whose work is checked by a slow hash that always answers zero, with a
    merge mining tag made for it. *)
Definition pow_block : BlockTemplate :=
  let aux b := default [] (getAuxiliaryBlockHeaderHash (fun _ => replicate 32 7) b) in
  mkBlockTemplate (header sample_block)
    (mkParentBlock 1 0 (replicate 32 2) 1 []
      (prefix (sample_base_tx (concat (field_bytes <$>
        [TransactionExtraMergeMiningTag (mkMergeMiningTag 0 (aux sample_block))])))) [])
    (baseTransaction sample_block) (transactionHashes sample_block).

Lemma checkProofOfWork_sound_witness :
  (1 <= majorVersion (header pow_block) <= 5) /\
  checkProofOfWork (fun _ => replicate 32 7) (fun _ => replicate 32 0) (fun _ => replicate 32 0)
    (fun _ => replicate 32 0) (replicate 32 5) pow_block 1000000 = Some true.
Proof.
  assert (Hz : pod_ok 32 (replicate 32 0))
    by (split; [reflexivity|repeat constructor; vm_compute; congruence]).
  split; [|vm_compute; reflexivity].
  apply (checkProofOfWork_sound (fun _ => replicate 32 7) (fun _ => replicate 32 0)
           (fun _ => replicate 32 0) (fun _ => replicate 32 0) (replicate 32 5) pow_block 1000000);
    try (intros _; exact Hz); [vm_compute; split; congruence|vm_compute; reflexivity].
Defined.
