(* ===== verification/Search.v ===== *)
(** * Searching and shuffling

    [std::lower_bound], which the chain segments use on their sorted vectors,
    as the binary search the library implements, and the Fisher-Yates
    generator of [src/common/shuffle_generator.h]. *)

From S2P Require Import Prelude.

(** ** [std::lower_bound] *)

(** The loop over [first] and [len]; [len] halves every turn, so [len] itself
    is enough fuel. *)
Fixpoint lower_bound_loop {A} (less : A -> bool) (l : list A) (fuel first len : nat) : nat :=
  match fuel with
  | O => first
  | S fuel =>
      if (len =? 0)%nat then first
      else
        let half := (len / 2)%nat in
        let middle := (first + half)%nat in
        match l !! middle with
        | None => first
        | Some x =>
            if less x then lower_bound_loop less l fuel (middle + 1) (len - half - 1)
            else lower_bound_loop less l fuel first half
        end
  end.

Definition lower_bound {A} (less : A -> bool) (l : list A) : nat :=
  lower_bound_loop less l (length l) 0 (length l).

(** A list is partitioned by [less] when what satisfies it comes first. *)
Definition partitioned {A} (less : A -> bool) (l : list A) : Prop :=
  forall i j x y, (i <= j)%nat -> l !! i = Some x -> l !! j = Some y ->
    less y = true -> less x = true.

Lemma lower_bound_loop_spec {A} (less : A -> bool) l fuel first len :
  partitioned less l -> (len <= fuel)%nat -> (first + len <= length l)%nat ->
  let r := lower_bound_loop less l fuel first len in
  (first <= r <= first + len)%nat /\
  (forall i x, (first <= i < r)%nat -> l !! i = Some x -> less x = true) /\
  (forall i x, (r <= i < first + len)%nat -> l !! i = Some x -> less x = false).
Proof.
  intros Hp. revert first len. induction fuel as [|fuel IH]; intros first len Hf Hl; cbn [lower_bound_loop]; cbv zeta.
  { split; [lia|]. split; intros; lia. }
  destruct (len =? 0)%nat eqn:E0; [apply Nat.eqb_eq in E0; split; [lia|]; split; intros; lia|].
  apply Nat.eqb_neq in E0.
  assert (len / 2 < len)%nat as Hh by (apply Nat.div_lt; lia).
  set (half := (len / 2)%nat) in *. clearbody half.
  destruct (l !! (first + half)%nat) as [m|] eqn:Em.
  2:{ apply lookup_ge_None in Em. lia. }
  destruct (less m) eqn:Ex.
  - destruct (IH (first + half + 1)%nat (len - half - 1)%nat) as (H1 & H2 & H3); [lia..|].
    split; [lia|]. split; [|intros i x Hi; apply H3; lia].
    intros i x Hi Hx. destruct (decide (i <= first + half)%nat).
    + by eapply (Hp i (first + half)%nat).
    + apply (H2 i x); [lia|done].
  - destruct (IH first half) as (H1 & H2 & H3); [lia..|].
    split; [lia|]. split; [done|].
    intros i x Hi Hx. destruct (decide (i < first + half)%nat); [apply (H3 i x); [lia|done]|].
    destruct (less x) eqn:E; [|done].
    rewrite <- Ex. symmetry. eapply (Hp (first + half)%nat i); [lia|done..].
Qed.

(** On a partitioned list the search ends at the boundary. *)
Lemma lower_bound_spec {A} (less : A -> bool) l :
  partitioned less l ->
  (lower_bound less l <= length l)%nat /\
  (forall i x, (i < lower_bound less l)%nat -> l !! i = Some x -> less x = true) /\
  (forall i x, (lower_bound less l <= i)%nat -> l !! i = Some x -> less x = false).
Proof.
  intros Hp. destruct (lower_bound_loop_spec less l (length l) 0 (length l) Hp) as (H1 & H2 & H3);
    [lia..|]. unfold lower_bound. split; [lia|]. split.
  - intros i x Hi. apply H2. split; [lia|done].
  - intros i x Hi Hx. apply (H3 i x); [|done]. split; [done|]. by apply lookup_lt_Some in Hx.
Qed.

(** The boundary is determined by what lies on its two sides. *)
Lemma lower_bound_unique {A} (less : A -> bool) l n :
  partitioned less l -> (n <= length l)%nat ->
  (forall i x, (i < n)%nat -> l !! i = Some x -> less x = true) ->
  (forall i x, (n <= i)%nat -> l !! i = Some x -> less x = false) -> lower_bound less l = n.
Proof.
  intros Hp Hn H1 H2. destruct (lower_bound_spec less l Hp) as (L0 & L1 & L2).
  destruct (Nat.lt_trichotomy (lower_bound less l) n) as [H|[?|H]]; [|done|].
  - destruct (lookup_lt_is_Some_2 l (lower_bound less l)) as [x Hx]; [lia|].
    specialize (L2 _ x (le_n _) Hx). rewrite (H1 _ x H Hx) in L2. done.
  - destruct (lookup_lt_is_Some_2 l n) as [x Hx]; [lia|].
    specialize (L1 n x H Hx). rewrite (H2 n x (le_n _) Hx) in L1. done.
Qed.

Lemma partitioned_app {A} (less : A -> bool) l1 l2 :
  Forall (fun x => less x = true) l1 -> Forall (fun x => less x = false) l2 ->
  partitioned less (l1 ++ l2) /\ lower_bound less (l1 ++ l2) = length l1.
Proof.
  intros H1 H2. rewrite Forall_lookup in H1, H2.
  assert (partitioned less (l1 ++ l2)) as Hp.
  { intros i j x y Hij Hx Hy Hl. destruct (decide (i < length l1)%nat).
    - rewrite lookup_app_l in Hx by done. by apply (H1 i).
    - rewrite lookup_app_r in Hy by lia. by rewrite (H2 _ _ Hy) in Hl. }
  split; [done|]. apply lower_bound_unique; [done|rewrite length_app; lia| |].
  - intros i x Hi. rewrite lookup_app_l by done. apply H1.
  - intros i x Hi. rewrite lookup_app_r by done. apply H2.
Qed.

(** Sorted lists are partitioned by every bound. *)
Lemma partitioned_sorted {A} (key : A -> Z) (bound : Z) l :
  StronglySorted (fun x y => key x <= key y) l -> partitioned (fun x => key x <? bound) l.
Proof.
  intros Hs i j x y Hij Hx Hy Hl. apply Z.ltb_lt in Hl. apply Z.ltb_lt.
  destruct (decide (i = j)) as [->|]; [congruence|].
  assert (key x <= key y); [|lia].
  revert i j Hij n Hx Hy. induction Hs as [|z l Hs IH Hz]; intros i j Hij n Hx Hy; [done|].
  destruct j as [|j]; [lia|]. destruct i as [|i]; cbn in Hx, Hy.
  - injection Hx as <-. rewrite Forall_lookup in Hz. by apply Hz in Hy.
  - apply (IH i j); [lia|lia|done|done].
Qed.

(** ** [ShuffleGenerator] *)

Record ShuffleGenerator := mkShuffleGenerator {
  selected : gmap Z Z;
  count : Z;
  generator_N : Z }.

Definition new_generator (n : Z) : ShuffleGenerator := mkShuffleGenerator ∅ n n.

Definition generator_empty (g : ShuffleGenerator) : bool := count g =? 0.

Definition generator_reset (g : ShuffleGenerator) : ShuffleGenerator :=
  mkShuffleGenerator ∅ (generator_N g) (generator_N g).

(** One call, given the [value] drawn from [0 .. count - 1]; [None] is
    [SequenceEnded]. *)
Definition generate (random : Z -> Z) (g : ShuffleGenerator) : option (Z * ShuffleGenerator) :=
  if count g =? 0 then None
  else
    let count := count g - 1 in
    let value := random count in
    let rval := default count (selected g !! count) in
    Some (default value (selected g !! value),
          mkShuffleGenerator (<[value := rval]> (selected g)) count (generator_N g)).

(** [n] calls in a row, the [k]-th drawing with [random k]. *)
Fixpoint generate_n (random : nat -> Z -> Z) (n : nat) (g : ShuffleGenerator) : option (list Z) :=
  match n with
  | O => Some []
  | S n =>
      match generate (random n) g with
      | None => None
      | Some (v, g) =>
          match generate_n random n g with
          | None => None
          | Some l => Some (v :: l)
          end
      end
  end.

(** The array the map stands for: the values still to be drawn. *)
Definition remaining (g : ShuffleGenerator) : list Z :=
  (fun i => default i (selected g !! i)) <$> seqZ 0 (count g).

Lemma remaining_lookup g i :
  0 <= i < count g ->
  remaining g !! Z.to_nat i = Some (default i (selected g !! i)).
Proof.
  intros Hi. unfold remaining. rewrite list_lookup_fmap, lookup_seqZ_lt by lia. cbn.
  by rewrite Z2Nat.id by lia.
Qed.

(** A call takes one of the remaining values and leaves the others. *)
Lemma generate_remaining random g :
  0 < count g -> 0 <= random (count g - 1) <= count g - 1 ->
  exists v g', generate random g = Some (v, g') /\ count g' = count g - 1 /\
    v :: remaining g' ≡ₚ remaining g.
Proof.
  intros Hc Hr. unfold generate.
  replace (count g =? 0) with false by (symmetry; apply Z.eqb_neq; lia).
  eexists _, _. split; [reflexivity|]. cbn [count]. split; [done|].
  set (n := count g - 1) in *. set (r := random n) in *.
  assert (remaining g = ((fun i => default i (selected g !! i)) <$> seqZ 0 n)
            ++ [default n (selected g !! n)]) as Hsplit.
  { unfold remaining. replace (count g) with (n + 1) by lia.
    rewrite seqZ_app, fmap_app by lia. cbn. by rewrite Z.add_0_l. }
  set (a := (fun i => default i (selected g !! i)) <$> seqZ 0 n) in *.
  assert (remaining (mkShuffleGenerator (<[r := default n (selected g !! n)]> (selected g)) n (generator_N g))
          = <[Z.to_nat r := default n (selected g !! n)]> a) as ->.
  { unfold remaining, a. cbn [selected count]. apply list_eq. intros k.
    rewrite list_lookup_fmap. destruct (decide (k < Z.to_nat n)%nat) as [Hk|Hk].
    - rewrite lookup_seqZ_lt by lia. cbn. destruct (decide (k = Z.to_nat r)) as [->|Hne].
      + rewrite list_lookup_insert_eq by (rewrite length_fmap, length_seqZ; lia).
        rewrite Z2Nat.id by lia. by rewrite lookup_insert_eq.
      + rewrite list_lookup_insert_ne by done. rewrite list_lookup_fmap, lookup_seqZ_lt by lia. cbn.
        rewrite lookup_insert_ne by lia. done.
    - rewrite (proj2 (lookup_ge_None _ k)) by (rewrite length_seqZ; lia).
      symmetry. apply lookup_ge_None. rewrite length_insert, length_fmap, length_seqZ. lia. }
  rewrite Hsplit. destruct (decide (r = n)) as [->|Hne].
  - rewrite list_insert_ge by (unfold a; rewrite length_fmap, length_seqZ; lia).
    apply Permutation_cons_append.
  - assert (a !! Z.to_nat r = Some (default r (selected g !! r))) as Ha.
    { unfold a. rewrite list_lookup_fmap, lookup_seqZ_lt by lia. cbn. by rewrite Z2Nat.id by lia. }
    rewrite <- (take_drop_middle a _ _ Ha) at 2.
    rewrite insert_take_drop by (by apply lookup_lt_Some in Ha).
    solve_Permutation.
Qed.

(** whatever the random numbers drawn, as
    long as each lies in the range asked for, [n] calls of a generator for
    [n] values return every number below [n] exactly once; one more call
    ends the sequence. *)
Theorem shuffle_permutation (random : nat -> Z -> Z) n :
  (forall k bound, 0 <= bound -> 0 <= random k bound <= bound) ->
  (exists l, generate_n random n (new_generator (Z.of_nat n)) = Some l /\
    l ≡ₚ seqZ 0 (Z.of_nat n)) /\
  generate_n random (S n) (new_generator (Z.of_nat n)) = None.
Proof.
  intros Hr.
  assert (forall n random g, (forall k bound, 0 <= bound -> 0 <= random k bound <= bound) ->
    count g = Z.of_nat n ->
    (exists l, generate_n random n g = Some l /\ l ≡ₚ remaining g) /\
    generate_n random (S n) g = None) as H.
  { clear. induction n as [|n IH]; intros random g Hr Hc.
    - split; [exists []; split; [done|]; unfold remaining; by rewrite Hc|].
      cbn. unfold generate. by rewrite Hc.
    - split.
      + destruct (generate_remaining (random n) g) as (v & g' & E & Hg & Hp); [lia|apply Hr; lia|].
        destruct (IH random g' Hr ltac:(lia)) as [(l & El & Hl) _].
        exists (v :: l). cbn. rewrite E, El. split; [done|]. by rewrite Hl.
      + destruct (generate_remaining (random (S n)) g) as (v & g' & E & Hg & Hp);
          [lia|apply Hr; lia|].
        destruct (IH random g' Hr ltac:(lia)) as [_ En].
        cbn [generate_n] in *. by rewrite E, En. }
  destruct (H n random (new_generator (Z.of_nat n)) Hr eq_refl) as [(l & El & Hl) En].
  split; [exists l; split; [done|]|done]. rewrite Hl. unfold remaining.
  replace ((fun i => _) <$> _) with (seqZ 0 (Z.of_nat n)); [done|].
  cbn [count selected new_generator]. rewrite <- (list_fmap_id (seqZ 0 (Z.of_nat n))) at 1.
  apply list_fmap_ext. intros i x _. by rewrite lookup_empty.
Qed.

Lemma shuffle_permutation_witness :
  exists l, generate_n (fun k bound => Z.min bound (Z.of_nat k / 2)) 5 (new_generator 5) = Some l /\
    l ≡ₚ seqZ 0 5.
Proof.
  apply (shuffle_permutation (fun k bound => Z.min bound (Z.of_nat k / 2)) 5).
  intros k bound Hb. assert (0 <= Z.of_nat k / 2) by (apply Z.div_pos; lia). lia.
Defined.
