(* ===== verification/Median.v ===== *)
(** * Sorting and the median

    [std::sort] on 64-bit integers and [common::medianValue] of
    src/src/common/math.h, which consensus uses for block sizes and
    timestamps. *)

From S2P Require Import Prelude.

(** [std::sort] on integers. *)
Definition sortZ (l : list Z) : list Z := merge_sort Z.le l.

(** [common::medianValue]; the vector is a copy at every call. *)
Definition medianValue (v : list Z) : Z :=
  match v with
  | [] => 0
  | [x] => x
  | _ =>
      let n := (length v / 2)%nat in
      let v := sortZ v in
      if Nat.eqb (length v mod 2) 1 then v !!! n
      else u64 (v !!! (n - 1)%nat + v !!! n) / 2
  end.

Lemma Zlt_sorted_le l : StronglySorted Z.lt l -> StronglySorted Z.le l.
Proof.
  induction 1 as [|x l Hs IH Hall]; constructor; [done|].
  eapply Forall_impl; [exact Hall|]. intros; lia.
Qed.

Lemma sortZ_Permutation l : sortZ l ≡ₚ l.
Proof. apply merge_sort_Permutation. Qed.

Lemma sortZ_sorted l : StronglySorted Z.le (sortZ l).
Proof. apply (StronglySorted_merge_sort _). Qed.

Lemma sortZ_id l : StronglySorted Z.le l -> sortZ l = l.
Proof.
  intros. apply (StronglySorted_unique Z.le); [apply sortZ_sorted|done|apply sortZ_Permutation].
Qed.

(** ** The median splits the samples in halves *)

Definition below (m : Z) (l : list Z) : list Z := filter (fun x => x < m) l.
Definition above (m : Z) (l : list Z) : list Z := filter (fun x => m < x) l.

Lemma below_sorted l k b m :
  StronglySorted Z.le l -> l !! k = Some b -> m <= b -> (length (below m l) <= k)%nat.
Proof.
  intros Hs. revert k. induction Hs as [|x l Hs IH Hall]; intros k Hk Hm; [done|].
  destruct k as [|k]; simplify_eq/=.
  - unfold below. rewrite filter_empty; [simpl; lia|]. constructor; [lia|].
    eapply Forall_impl; [exact Hall|]. simpl; intros; lia.
  - unfold below in *. rewrite filter_cons. specialize (IH _ Hk Hm).
    destruct (decide _); simpl; lia.
Qed.

Lemma above_sorted l k a m :
  StronglySorted Z.le l -> l !! k = Some a -> a <= m ->
  (length (above m l) <= length l - S k)%nat.
Proof.
  intros Hs. revert k. induction Hs as [|x l Hs IH Hall]; intros k Hk Hm; [done|].
  unfold above in *. destruct k as [|k]; simplify_eq/=.
  - rewrite filter_cons_False by lia. rewrite Nat.sub_0_r. apply length_filter.
  - specialize (IH _ Hk Hm). apply list_elem_of_lookup_2 in Hk.
    rewrite Forall_forall in Hall. specialize (Hall _ Hk).
    rewrite filter_cons_False by lia. lia.
Qed.

Lemma below_perm m l l' : l ≡ₚ l' -> length (below m l) = length (below m l').
Proof. intros H. unfold below. by rewrite H. Qed.

Lemma above_perm m l l' : l ≡ₚ l' -> length (above m l) = length (above m l').
Proof. intros H. unfold above. by rewrite H. Qed.

Lemma sortZ_length l : length (sortZ l) = length l.
Proof. by rewrite sortZ_Permutation. Qed.

Lemma sorted_lookup_le l i j x y :
  StronglySorted Z.le l -> (i <= j)%nat -> l !! i = Some x -> l !! j = Some y -> x <= y.
Proof.
  intros Hs. revert i j. induction Hs as [|z l Hs IH Hall]; intros i j Hij Hi Hj; [done|].
  destruct i, j; simplify_eq/=; try lia; [|eapply (IH i j); [lia|done..]].
  rewrite Forall_forall in Hall. eapply Hall, list_elem_of_lookup_2, Hj.
Qed.

(** The median as the code reads it off the sorted vector. *)
Lemma medianValue_sorted v :
  v <> [] -> Forall (fits 63) v ->
  exists a b, sortZ v !! ((length v - 1) / 2)%nat = Some a /\
    sortZ v !! (length v / 2)%nat = Some b /\ a <= b /\ medianValue v = (a + b) / 2.
Proof.
  intros Hne Hall.
  assert (0 < length v)%nat by (destruct v; simpl; [done|lia]).
  assert (Forall (fits 63) (sortZ v)) as Hfits by by rewrite sortZ_Permutation.
  assert (forall k, (k < length v)%nat -> exists x, sortZ v !! k = Some x) as Hget.
  { intros k Hk. apply lookup_lt_is_Some. by rewrite sortZ_length. }
  destruct (Hget ((length v - 1) / 2)%nat) as [a Ha]; [nlia|].
  destruct (Hget (length v / 2)%nat) as [b Hb]; [nlia|].
  exists a, b. split_and!; try done.
  { eapply sorted_lookup_le; [apply sortZ_sorted| |done..]. nlia. }
  unfold medianValue. destruct v as [|x [|y v]]; [done| |].
  { rewrite (sortZ_id [x]) in * by repeat constructor. simplify_eq/=. zlia. }
  set (w := x :: y :: v) in *. rewrite sortZ_length.
  destruct (Nat.eqb_spec (length w mod 2) 1) as [E|E].
  - assert ((length w - 1) / 2 = length w / 2)%nat as Heq by nlia.
    rewrite Heq, Hb in Ha. simplify_eq. rewrite (list_lookup_total_correct _ _ _ Hb). zlia.
  - assert ((length w - 1) / 2 = length w / 2 - 1)%nat as Heq by nlia.
    rewrite Heq in Ha.
    rewrite (list_lookup_total_correct _ _ _ Ha), (list_lookup_total_correct _ _ _ Hb).
    rewrite wrap_small; [done|].
    rewrite Forall_lookup in Hfits. pose proof (Hfits _ _ Ha). pose proof (Hfits _ _ Hb).
    words. lia.
Qed.

(** the median of a non-empty vector has at most
    half of the samples below it and at most half above it, and it does not
    depend on the order of the samples. *)
Theorem medianValue_halves v :
  v <> [] -> Forall (fits 63) v ->
  (2 * length (below (medianValue v) v) <= length v)%nat /\
  (2 * length (above (medianValue v) v) <= length v)%nat /\
  (forall v', v' ≡ₚ v -> medianValue v' = medianValue v).
Proof.
  intros Hne Hall. destruct (medianValue_sorted v Hne Hall) as (a & b & Ha & Hb & Hab & E).
  rewrite <- (below_perm _ _ _ (sortZ_Permutation v)), <- (above_perm _ _ _ (sortZ_Permutation v)).
  pose proof (below_sorted _ _ _ (medianValue v) (sortZ_sorted v) Hb ltac:(rewrite E; zlia)).
  pose proof (above_sorted _ _ _ (medianValue v) (sortZ_sorted v) Ha ltac:(rewrite E; zlia)) as H2.
  rewrite sortZ_length in H2. split_and!; [nlia|nlia|].
  intros v' Hp.
  assert (sortZ v' = sortZ v) as Es.
  { apply (StronglySorted_unique Z.le); [apply sortZ_sorted..|]. by rewrite !sortZ_Permutation. }
  destruct (medianValue_sorted v') as (a' & b' & Ha' & Hb' & _ & E').
  { intros ->. by apply Permutation_nil_l in Hp. }
  { by rewrite Hp. }
  rewrite Es, Hp in Ha', Hb'. simplify_eq. congruence.
Qed.

Lemma medianValue_halves_witness :
  let v := [70; 10; 30; 51] in
  (2 * length (below (medianValue v) v) <= 4)%nat /\
  (2 * length (above (medianValue v) v) <= 4)%nat.
Proof.
  destruct (medianValue_halves [70; 10; 30; 51]) as (H1 & H2 & _).
  - discriminate.
  - repeat constructor; vm_compute; congruence.
  - split; [exact H1|exact H2].
Defined.
