(* ===== verification/Currency.v ===== *)
(** * Currency rules

    [src/cryptonote_core/currency.{h,cpp}], the amount helpers of
    [cryptonote_format_utils.h] and [cryptonote_tools.cpp], and
    [getPenalizedAmount] of [cryptonote_basic_impl.cpp]: block versions and
    windows, block reward and emission, amount decomposition, fusion
    transactions, the miner transaction. *)

From S2P Require Import Prelude Config Bytes IntUtil Types Median.
Import parameters.

(** ** The currency object and its builder *)

Record Currency := mkCurrency {
  m_maxBlockHeight : Z;
  m_maxBlockBlobSize : Z;
  m_maxTxSize : Z;
  m_publicAddressBase58Prefix : Z;
  m_minedMoneyUnlockWindow : Z;
  m_timestampCheckWindow : Z;
  m_blockFutureTimeLimit : Z;
  m_moneySupply : Z;
  m_emissionSpeedFactor : Z;
  m_genesisBlockReward : Z;
  m_rewardBlocksWindow : Z;
  m_zawyDifficultyBlockIndex : Z;
  m_zawyDifficultyV2 : Z;
  m_zawyDifficultyBlockVersion : Z;
  m_blockGrantedFullRewardZone : Z;
  m_minerTxBlobReservedSize : Z;
  m_numberOfDecimalPlaces : Z;
  m_coin : Z;
  m_mininumFee : Z;
  m_defaultDustThreshold : Z;
  m_difficultyTarget : Z;
  m_difficultyWindow : Z;
  m_difficultyLag : Z;
  m_difficultyCut : Z;
  m_maxBlockSizeInitial : Z;
  m_maxBlockSizeGrowthSpeedNumerator : Z;
  m_maxBlockSizeGrowthSpeedDenominator : Z;
  m_lockedTxAllowedDeltaSeconds : Z;
  m_lockedTxAllowedDeltaBlocks : Z;
  m_mempoolTxLiveTime : Z;
  m_mempoolTxFromAltBlockLiveTime : Z;
  m_numberOfPeriodsToForgetTxDeletedFromPool : Z;
  m_fusionTxMaxSize : Z;
  m_fusionTxMinInputCount : Z;
  m_fusionTxMinInOutCountRatio : Z;
  m_upgradeHeightV2 : Z;
  m_upgradeHeightV3 : Z;
  m_upgradeHeightV4 : Z;
  m_upgradeHeightV5 : Z;
  m_upgradeVotingThreshold : Z;
  m_upgradeVotingWindow : Z;
  m_upgradeWindow : Z;
  m_testnet : bool }.

(** [CurrencyBuilder::numberOfDecimalPlaces] also computes [m_coin]. *)
Definition coin_of_decimals (val : Z) : Z :=
  Nat.iter (Z.to_nat val) (fun c => u64 (c * 10)) 1.

(** The values the constructor [CurrencyBuilder::CurrencyBuilder] installs. *)
Definition CurrencyBuilder : Currency := {|
  m_maxBlockHeight := CRYPTONOTE_MAX_BLOCK_NUMBER;
  m_maxBlockBlobSize := CRYPTONOTE_MAX_BLOCK_BLOB_SIZE;
  m_maxTxSize := CRYPTONOTE_MAX_TX_SIZE;
  m_publicAddressBase58Prefix := CRYPTONOTE_PUBLIC_ADDRESS_BASE58_PREFIX;
  m_minedMoneyUnlockWindow := CRYPTONOTE_MINED_MONEY_UNLOCK_WINDOW;
  m_timestampCheckWindow := BLOCKCHAIN_TIMESTAMP_CHECK_WINDOW;
  m_blockFutureTimeLimit := CRYPTONOTE_BLOCK_FUTURE_TIME_LIMIT;
  m_moneySupply := MONEY_SUPPLY;
  m_emissionSpeedFactor := EMISSION_SPEED_FACTOR;
  m_genesisBlockReward := GENESIS_BLOCK_REWARD;
  m_rewardBlocksWindow := CRYPTONOTE_REWARD_BLOCKS_WINDOW;
  m_zawyDifficultyBlockIndex := ZAWY_DIFFICULTY_BLOCK_INDEX;
  m_zawyDifficultyV2 := ZAWY_DIFFICULTY_V2;
  m_zawyDifficultyBlockVersion := ZAWY_DIFFICULTY_DIFFICULTY_BLOCK_VERSION;
  m_blockGrantedFullRewardZone := CRYPTONOTE_BLOCK_GRANTED_FULL_REWARD_ZONE;
  m_minerTxBlobReservedSize := CRYPTONOTE_COINBASE_BLOB_RESERVED_SIZE;
  m_numberOfDecimalPlaces := CRYPTONOTE_DISPLAY_DECIMAL_POINT;
  m_coin := coin_of_decimals CRYPTONOTE_DISPLAY_DECIMAL_POINT;
  m_mininumFee := MINIMUM_FEE;
  m_defaultDustThreshold := DEFAULT_DUST_THRESHOLD;
  m_difficultyTarget := DIFFICULTY_TARGET;
  m_difficultyWindow := DIFFICULTY_WINDOW;
  m_difficultyLag := DIFFICULTY_LAG;
  m_difficultyCut := DIFFICULTY_CUT;
  m_maxBlockSizeInitial := MAX_BLOCK_SIZE_INITIAL;
  m_maxBlockSizeGrowthSpeedNumerator := MAX_BLOCK_SIZE_GROWTH_SPEED_NUMERATOR;
  m_maxBlockSizeGrowthSpeedDenominator := MAX_BLOCK_SIZE_GROWTH_SPEED_DENOMINATOR;
  m_lockedTxAllowedDeltaSeconds := CRYPTONOTE_LOCKED_TX_ALLOWED_DELTA_SECONDS;
  m_lockedTxAllowedDeltaBlocks := CRYPTONOTE_LOCKED_TX_ALLOWED_DELTA_BLOCKS;
  m_mempoolTxLiveTime := CRYPTONOTE_MEMPOOL_TX_LIVETIME;
  m_mempoolTxFromAltBlockLiveTime := CRYPTONOTE_MEMPOOL_TX_FROM_ALT_BLOCK_LIVETIME;
  m_numberOfPeriodsToForgetTxDeletedFromPool :=
    CRYPTONOTE_NUMBER_OF_PERIODS_TO_FORGET_TX_DELETED_FROM_POOL;
  m_fusionTxMaxSize := FUSION_TX_MAX_SIZE;
  m_fusionTxMinInputCount := FUSION_TX_MIN_INPUT_COUNT;
  m_fusionTxMinInOutCountRatio := FUSION_TX_MIN_IN_OUT_COUNT_RATIO;
  m_upgradeHeightV2 := UPGRADE_HEIGHT_V2;
  m_upgradeHeightV3 := UPGRADE_HEIGHT_V3;
  m_upgradeHeightV4 := UPGRADE_HEIGHT_V4;
  m_upgradeHeightV5 := UPGRADE_HEIGHT_V5;
  m_upgradeVotingThreshold := UPGRADE_VOTING_THRESHOLD;
  m_upgradeVotingWindow := UPGRADE_VOTING_WINDOW;
  m_upgradeWindow := UPGRADE_WINDOW;
  m_testnet := false |}.

(** The move constructor, member by member; [uninit] is the indeterminate value
    of a member that is in no initialiser. *)
Definition Currency_move (uninit : Z) (currency : Currency) : Currency := {|
  m_maxBlockHeight := m_maxBlockHeight currency;
  m_maxBlockBlobSize := m_maxBlockBlobSize currency;
  m_maxTxSize := m_maxTxSize currency;
  m_publicAddressBase58Prefix := m_publicAddressBase58Prefix currency;
  m_minedMoneyUnlockWindow := m_minedMoneyUnlockWindow currency;
  m_timestampCheckWindow := m_timestampCheckWindow currency;
  m_blockFutureTimeLimit := m_blockFutureTimeLimit currency;
  m_moneySupply := m_moneySupply currency;
  m_emissionSpeedFactor := m_emissionSpeedFactor currency;
  m_genesisBlockReward := m_genesisBlockReward currency;
  m_rewardBlocksWindow := m_rewardBlocksWindow currency;
  m_zawyDifficultyBlockIndex := m_zawyDifficultyBlockIndex currency;
  m_zawyDifficultyV2 := m_zawyDifficultyV2 currency;
  m_zawyDifficultyBlockVersion := m_zawyDifficultyBlockVersion currency;
  m_blockGrantedFullRewardZone := m_blockGrantedFullRewardZone currency;
  m_minerTxBlobReservedSize := m_minerTxBlobReservedSize currency;
  m_numberOfDecimalPlaces := m_numberOfDecimalPlaces currency;
  m_coin := m_coin currency;
  m_mininumFee := m_mininumFee currency;
  m_defaultDustThreshold := m_defaultDustThreshold currency;
  m_difficultyTarget := m_difficultyTarget currency;
  m_difficultyWindow := m_difficultyWindow currency;
  m_difficultyLag := m_difficultyLag currency;
  m_difficultyCut := m_difficultyCut currency;
  m_maxBlockSizeInitial := m_maxBlockSizeInitial currency;
  m_maxBlockSizeGrowthSpeedNumerator := m_maxBlockSizeGrowthSpeedNumerator currency;
  m_maxBlockSizeGrowthSpeedDenominator := m_maxBlockSizeGrowthSpeedDenominator currency;
  m_lockedTxAllowedDeltaSeconds := m_lockedTxAllowedDeltaSeconds currency;
  m_lockedTxAllowedDeltaBlocks := m_lockedTxAllowedDeltaBlocks currency;
  m_mempoolTxLiveTime := m_mempoolTxLiveTime currency;
  m_mempoolTxFromAltBlockLiveTime := uninit;
  m_numberOfPeriodsToForgetTxDeletedFromPool := m_numberOfPeriodsToForgetTxDeletedFromPool currency;
  m_fusionTxMaxSize := m_fusionTxMaxSize currency;
  m_fusionTxMinInputCount := m_fusionTxMinInputCount currency;
  m_fusionTxMinInOutCountRatio := m_fusionTxMinInOutCountRatio currency;
  m_upgradeHeightV2 := m_upgradeHeightV2 currency;
  m_upgradeHeightV3 := m_upgradeHeightV3 currency;
  m_upgradeHeightV4 := m_upgradeHeightV4 currency;
  m_upgradeHeightV5 := m_upgradeHeightV5 currency;
  m_upgradeVotingThreshold := m_upgradeVotingThreshold currency;
  m_upgradeVotingWindow := m_upgradeVotingWindow currency;
  m_upgradeWindow := m_upgradeWindow currency;
  m_testnet := m_testnet currency |}.

(** The part of [Currency::init] that changes consensus parameters. *)
Definition init_testnet (c : Currency) : Currency :=
  if negb (m_testnet c) then c else {|
  m_maxBlockHeight := m_maxBlockHeight c;
  m_maxBlockBlobSize := m_maxBlockBlobSize c;
  m_maxTxSize := m_maxTxSize c;
  m_publicAddressBase58Prefix := m_publicAddressBase58Prefix c;
  m_minedMoneyUnlockWindow := m_minedMoneyUnlockWindow c;
  m_timestampCheckWindow := m_timestampCheckWindow c;
  m_blockFutureTimeLimit := m_blockFutureTimeLimit c;
  m_moneySupply := m_moneySupply c;
  m_emissionSpeedFactor := m_emissionSpeedFactor c;
  m_genesisBlockReward := m_genesisBlockReward c;
  m_rewardBlocksWindow := m_rewardBlocksWindow c;
  m_zawyDifficultyBlockIndex := m_zawyDifficultyBlockIndex c;
  m_zawyDifficultyV2 := m_zawyDifficultyV2 c;
  m_zawyDifficultyBlockVersion := m_zawyDifficultyBlockVersion c;
  m_blockGrantedFullRewardZone := m_blockGrantedFullRewardZone c;
  m_minerTxBlobReservedSize := m_minerTxBlobReservedSize c;
  m_numberOfDecimalPlaces := m_numberOfDecimalPlaces c;
  m_coin := m_coin c;
  m_mininumFee := m_mininumFee c;
  m_defaultDustThreshold := m_defaultDustThreshold c;
  m_difficultyTarget := m_difficultyTarget c;
  m_difficultyWindow := m_difficultyWindow c;
  m_difficultyLag := m_difficultyLag c;
  m_difficultyCut := m_difficultyCut c;
  m_maxBlockSizeInitial := m_maxBlockSizeInitial c;
  m_maxBlockSizeGrowthSpeedNumerator := m_maxBlockSizeGrowthSpeedNumerator c;
  m_maxBlockSizeGrowthSpeedDenominator := m_maxBlockSizeGrowthSpeedDenominator c;
  m_lockedTxAllowedDeltaSeconds := m_lockedTxAllowedDeltaSeconds c;
  m_lockedTxAllowedDeltaBlocks := m_lockedTxAllowedDeltaBlocks c;
  m_mempoolTxLiveTime := m_mempoolTxLiveTime c;
  m_mempoolTxFromAltBlockLiveTime := m_mempoolTxFromAltBlockLiveTime c;
  m_numberOfPeriodsToForgetTxDeletedFromPool := m_numberOfPeriodsToForgetTxDeletedFromPool c;
  m_fusionTxMaxSize := m_fusionTxMaxSize c;
  m_fusionTxMinInputCount := m_fusionTxMinInputCount c;
  m_fusionTxMinInOutCountRatio := m_fusionTxMinInOutCountRatio c;
  m_upgradeHeightV2 := 0;
  m_upgradeHeightV3 := UINT32_MAX;
  m_upgradeHeightV4 := m_upgradeHeightV4 c;
  m_upgradeHeightV5 := m_upgradeHeightV5 c;
  m_upgradeVotingThreshold := m_upgradeVotingThreshold c;
  m_upgradeVotingWindow := m_upgradeVotingWindow c;
  m_upgradeWindow := m_upgradeWindow c;
  m_testnet := m_testnet c |}.

(** ** Version- and height-dependent parameters *)

Section Rules.
Context (c : Currency).

Definition difficultyWindowByBlockVersion (blockMajorVersion : Z) : Z :=
  if BLOCK_MAJOR_VERSION_3 <=? blockMajorVersion then m_difficultyWindow c
  else if blockMajorVersion =? BLOCK_MAJOR_VERSION_2 then DIFFICULTY_WINDOW_V2
  else DIFFICULTY_WINDOW_V1.

Definition difficultyLagByBlockVersion (blockMajorVersion : Z) : Z :=
  if BLOCK_MAJOR_VERSION_3 <=? blockMajorVersion then m_difficultyLag c
  else if blockMajorVersion =? BLOCK_MAJOR_VERSION_2 then DIFFICULTY_LAG_V2
  else DIFFICULTY_LAG_V1.

Definition difficultyCutByBlockVersion (blockMajorVersion : Z) : Z :=
  if BLOCK_MAJOR_VERSION_3 <=? blockMajorVersion then m_difficultyCut c
  else if blockMajorVersion =? BLOCK_MAJOR_VERSION_2 then DIFFICULTY_CUT_V2
  else DIFFICULTY_CUT_V1.

Definition difficultyBlocksCountByBlockVersion (blockMajorVersion height : Z) : Z :=
  if LWMA_2_DIFFICULTY_BLOCK_INDEX <=? height then DIFFICULTY_BLOCKS_COUNT_V3
  else u64 (difficultyWindowByBlockVersion blockMajorVersion
            + difficultyLagByBlockVersion blockMajorVersion).

Definition blockGrantedFullRewardZoneByBlockVersion (blockMajorVersion : Z) : Z :=
  if BLOCK_MAJOR_VERSION_3 <=? blockMajorVersion then m_blockGrantedFullRewardZone c
  else if blockMajorVersion =? BLOCK_MAJOR_VERSION_2
  then CRYPTONOTE_BLOCK_GRANTED_FULL_REWARD_ZONE_V2
  else CRYPTONOTE_BLOCK_GRANTED_FULL_REWARD_ZONE_V1.

Definition upgradeHeight (majorVersion : Z) : Z :=
  if majorVersion =? BLOCK_MAJOR_VERSION_2 then m_upgradeHeightV2 c
  else if majorVersion =? BLOCK_MAJOR_VERSION_3 then m_upgradeHeightV3 c
  else if majorVersion =? BLOCK_MAJOR_VERSION_4 then m_upgradeHeightV4 c
  else if majorVersion =? BLOCK_MAJOR_VERSION_5 then m_upgradeHeightV5 c
  else UINT32_MAX.

Definition timestampCheckWindow (blockHeight : Z) : Z :=
  if LWMA_2_DIFFICULTY_BLOCK_INDEX_V3 <=? blockHeight
  then BLOCKCHAIN_TIMESTAMP_CHECK_WINDOW_V3 else m_timestampCheckWindow c.

Definition blockFutureTimeLimit (blockHeight : Z) : Z :=
  if LWMA_2_DIFFICULTY_BLOCK_INDEX_V2 <=? blockHeight
  then CRYPTONOTE_BLOCK_FUTURE_TIME_LIMIT_V4
  else if LWMA_2_DIFFICULTY_BLOCK_INDEX <=? blockHeight
  then CRYPTONOTE_BLOCK_FUTURE_TIME_LIMIT_V3
  else m_blockFutureTimeLimit c.

Definition defaultDustThreshold (height : Z) : Z :=
  if DUST_THRESHOLD_V2_HEIGHT <=? height then DEFAULT_DUST_THRESHOLD_V2
  else m_defaultDustThreshold c.

Definition defaultFusionDustThreshold (height : Z) : Z :=
  if FUSION_DUST_THRESHOLD_HEIGHT_V2 <=? height then DEFAULT_DUST_THRESHOLD_V2
  else m_defaultDustThreshold c.

(** ** Block reward *)

Definition getPenalizedAmount (amount medianSize currentBlockSize : Z) : Z :=
  if amount =? 0 then 0
  else if currentBlockSize <=? medianSize then amount
  else
    let '(productHi, productLo) :=
      mul128 amount
        (u64 (currentBlockSize * u64 (u64 (2 * medianSize) - currentBlockSize))) in
    let '(hi1, lo1, _) := div128_32 productHi productLo (u32 medianSize) in
    let '(_, penalizedAmountLo, _) := div128_32 hi1 lo1 (u32 medianSize) in
    penalizedAmountLo.

(** [getBlockReward] returns (reward, emissionChange), or [None] for [false]. *)
Definition getBlockReward (blockMajorVersion medianSize currentBlockSize
    alreadyGeneratedCoins fee : Z) : option (Z * Z) :=
  let baseReward :=
    Z.shiftr (u64 (m_moneySupply c - alreadyGeneratedCoins)) (m_emissionSpeedFactor c) in
  let baseReward :=
    if (alreadyGeneratedCoins =? 0) && negb (m_genesisBlockReward c =? 0)
    then m_genesisBlockReward c else baseReward in
  let blockGrantedFullRewardZone :=
    blockGrantedFullRewardZoneByBlockVersion blockMajorVersion in
  let medianSize := Z.max medianSize blockGrantedFullRewardZone in
  if u64 (2 * medianSize) <? currentBlockSize then None
  else
    let penalizedBaseReward := getPenalizedAmount baseReward medianSize currentBlockSize in
    let penalizedFee :=
      if BLOCK_MAJOR_VERSION_2 <=? blockMajorVersion
      then getPenalizedAmount fee medianSize currentBlockSize else fee in
    let emissionChange := s64 (u64 (penalizedBaseReward - u64 (fee - penalizedFee))) in
    let reward := u64 (penalizedBaseReward + penalizedFee) in
    Some (reward, emissionChange).

Definition maxBlockCumulativeSize (height : Z) : Z :=
  u64 (m_maxBlockSizeInitial c
       + u64 (height * m_maxBlockSizeGrowthSpeedNumerator c)
         / m_maxBlockSizeGrowthSpeedDenominator c).

End Rules.

(** ** Amounts *)

(** The loop of [decompose_amount_into_digits]; the handlers append to one
    list, as in [decomposeAmount] and [constructMinerTx].  A 64-bit amount has
    at most 20 decimal digits, so 20 rounds always reach [amount = 0]. *)
Fixpoint decompose_loop (fuel : nat) (amount order dust : Z) (is_dust_handled : bool)
    (dust_threshold : Z) (acc : list Z) : list Z :=
  match fuel with
  | O => acc
  | S fuel =>
      if amount =? 0
      then if negb is_dust_handled && negb (dust =? 0) then acc ++ [dust] else acc
      else
        let chunk := u64 (amount mod 10 * order) in
        let amount := amount / 10 in
        let order := u64 (order * 10) in
        if u64 (dust + chunk) <=? dust_threshold
        then decompose_loop fuel amount order (u64 (dust + chunk)) is_dust_handled
               dust_threshold acc
        else
          let emit := negb is_dust_handled && negb (dust =? 0) in
          let acc := if emit then acc ++ [dust] else acc in
          let acc := if negb (chunk =? 0) then acc ++ [chunk] else acc in
          decompose_loop fuel amount order dust (is_dust_handled || emit)
            dust_threshold acc
  end.

Definition decompose_amount_into_digits (amount dust_threshold : Z) : list Z :=
  if amount =? 0 then []
  else decompose_loop 21 amount 1 0 false dust_threshold [].

Definition decomposeAmount (amount dustThreshold : Z) : list Z :=
  decompose_amount_into_digits amount dustThreshold.

Definition getInputAmount (t : Transaction) : Z := sum_u64 (key_amounts (inputs (prefix t))).
Definition getInputsAmounts (t : Transaction) : list Z := key_amounts (inputs (prefix t)).
Definition getOutputAmount (t : Transaction) : Z :=
  sum_u64 (output_amounts (outputs (prefix t))).

(** [get_tx_fee(tx, fee)], and the overload that answers 0 on failure. *)
Definition get_tx_fee (t : Transaction) : option Z :=
  let amount_in := sum_u64 (key_amounts (inputs (prefix t))) in
  let amount_out := sum_u64 (output_amounts (outputs (prefix t))) in
  if amount_out <=? amount_in then Some (u64 (amount_in - amount_out)) else None.

Definition get_tx_fee_or_zero (t : Transaction) : Z :=
  match get_tx_fee t with Some r => r | None => 0 end.

Section Fusion.
Context (c : Currency).

(** The loop over the inputs: [None] when one is below the dust threshold. *)
Definition fusion_input_amount (inputsAmounts : list Z) (height : Z) : option Z :=
  fold_left (fun acc amount =>
    match acc with
    | None => None
    | Some s =>
        if amount <? defaultFusionDustThreshold c height then None else Some (u64 (s + amount))
    end) inputsAmounts (Some 0).

Definition isFusionTransaction (inputsAmounts outputsAmounts : list Z) (size height : Z) : bool :=
  if m_fusionTxMaxSize c <? size then false
  else if Z.of_nat (length inputsAmounts) <? m_fusionTxMinInputCount c then false
  else if Z.of_nat (length inputsAmounts)
          <? u64 (Z.of_nat (length outputsAmounts) * m_fusionTxMinInOutCountRatio c) then false
  else
    match fusion_input_amount inputsAmounts height with
    | None => false
    | Some inputAmount =>
        let expectedOutputsAmounts :=
          sortZ (decomposeAmount inputAmount (defaultFusionDustThreshold c height)) in
        bool_decide (expectedOutputsAmounts = outputsAmounts)
    end.

Definition isFusionTransaction_tx (t : Transaction) (size height : Z) : bool :=
  isFusionTransaction (getInputsAmounts t) (output_amounts (outputs (prefix t))) size height.

End Fusion.

(** ** Input count estimate *)

Definition getApproximateMaximumInputCount (transactionSize outputCount mixinCount : Z) : Z :=
  let KEY_IMAGE_SIZE := 32 in
  let OUTPUT_KEY_SIZE := 32 in
  let AMOUNT_SIZE := 8 + 2 in
  let GLOBAL_INDEXES_VECTOR_SIZE_SIZE := 1 in
  let GLOBAL_INDEXES_INITIAL_VALUE_SIZE := 4 in
  let GLOBAL_INDEXES_DIFFERENCE_SIZE := 4 in
  let SIGNATURE_SIZE := 64 in
  let EXTRA_TAG_SIZE := 1 in
  let INPUT_TAG_SIZE := 1 in
  let OUTPUT_TAG_SIZE := 1 in
  let PUBLIC_KEY_SIZE := 32 in
  let TRANSACTION_VERSION_SIZE := 1 in
  let TRANSACTION_UNLOCK_TIME_SIZE := 8 in
  let outputsSize := u64 (outputCount * (OUTPUT_TAG_SIZE + OUTPUT_KEY_SIZE + AMOUNT_SIZE)) in
  let headerSize := TRANSACTION_VERSION_SIZE + TRANSACTION_UNLOCK_TIME_SIZE + EXTRA_TAG_SIZE
                    + PUBLIC_KEY_SIZE in
  let inputSize :=
    u64 (INPUT_TAG_SIZE + AMOUNT_SIZE + KEY_IMAGE_SIZE + SIGNATURE_SIZE
         + GLOBAL_INDEXES_VECTOR_SIZE_SIZE + GLOBAL_INDEXES_INITIAL_VALUE_SIZE
         + mixinCount * (GLOBAL_INDEXES_DIFFERENCE_SIZE + SIGNATURE_SIZE)) in
  u64 (u64 (transactionSize - headerSize) - outputsSize) / inputSize.

(** ** Lemmas on rewards *)

Lemma getPenalizedAmount_spec a m s :
  fits 64 a -> 0 < m < 2 ^ 32 -> 0 <= s <= 2 * m -> s < 2 ^ 32 ->
  getPenalizedAmount a m s = (if s <=? m then a else a * (s * (2 * m - s)) / (m * m)) /\
  0 <= getPenalizedAmount a m s <= a.
Proof.
  intros Ha Hm Hs Hs'. unfold getPenalizedAmount.
  destruct (Z.eqb_spec a 0) as [->|Hne].
  { split; [|done]. destruct (s <=? m); [done|]. by rewrite Z.mul_0_l. }
  destruct (Z.leb_spec s m); [words; lia|].
  set (k := s * (2 * m - s)).
  assert (0 <= k < m * m) as Hk by (unfold k; nia).
  assert (m * m < 2 ^ 64) by nia.
  rewrite (wrap_small 64 (2 * m)), (wrap_small 64 (2 * m - s)) by (words; lia).
  fold k. rewrite (wrap_small 64 k), (wrap_small 32 m) by (words; lia).
  assert (0 <= a * k < 2 ^ 128) by (words; nia).
  rewrite mul128_spec by (words; lia).
  pose proof (div128_32_spec (a * k / 2 ^ 64) (a * k mod 2 ^ 64) m
    ltac:(words; zlia) ltac:(words; zlia) Hm) as D1. cbv zeta in D1.
  destruct (div128_32 _ _ m) as [[h1 l1] r1] eqn:E1.
  destruct D1 as (Hh1 & Hl1 & D1 & _).
  replace (a * k / 2 ^ 64 * 2 ^ 64 + a * k mod 2 ^ 64) with (a * k) in D1 by zlia.
  pose proof (div128_32_spec h1 l1 m Hh1 Hl1 Hm) as D2. cbv zeta in D2.
  destruct (div128_32 h1 l1 m) as [[h2 l2] r2] eqn:E2.
  destruct D2 as (Hh2 & Hl2 & D2 & _).
  rewrite D1, Z.div_div in D2 by lia.
  assert (0 <= a) by (words; lia).
  assert (0 <= a * k / (m * m) <= a).
  { split; [apply Z.div_pos; nia|]. apply Z.div_le_upper_bound; [nia|].
    rewrite (Z.mul_comm a). apply Z.mul_le_mono_nonneg_r; lia. }
  words. lia.
Qed.

(** Reference definitions: the size penalty as exact rational arithmetic, and
    the base reward before the penalty. *)
Definition penalty (a m s : Z) : Z :=
  if s <=? m then a else a * (s * (2 * m - s)) / (m * m).

Definition base_reward (c : Currency) (already : Z) : Z :=
  if (already =? 0) && negb (m_genesisBlockReward c =? 0) then m_genesisBlockReward c
  else (m_moneySupply c - already) / 2 ^ m_emissionSpeedFactor c.

Definition reward_params_ok (c : Currency) (blockMajorVersion : Z) : Prop :=
  fits 63 (m_moneySupply c) /\ 0 <= m_emissionSpeedFactor c /\
  0 <= m_genesisBlockReward c <= m_moneySupply c /\
  0 < blockGrantedFullRewardZoneByBlockVersion c blockMajorVersion < 2 ^ 31.

Lemma penalty_bounds a m s : 0 <= a -> 0 < m -> 0 <= s <= 2 * m -> 0 <= penalty a m s <= a.
Proof.
  intros Ha Hm Hs. unfold penalty. destruct (Z.leb_spec s m); [lia|].
  assert (0 <= s * (2 * m - s) <= m * m) by nia.
  split; [apply Z.div_pos; nia|]. apply Z.div_le_upper_bound; [nia|].
  rewrite (Z.mul_comm a). apply Z.mul_le_mono_nonneg_r; lia.
Qed.

Lemma penalty_antitone a m s1 s2 :
  0 <= a -> 0 < m -> 0 <= s1 <= s2 -> s2 <= 2 * m -> penalty a m s2 <= penalty a m s1.
Proof.
  intros Ha Hm Hs Hs2. pose proof (penalty_bounds a m s2 Ha Hm ltac:(lia)) as B.
  unfold penalty in *. destruct (Z.leb_spec s1 m); [lia|].
  destruct (Z.leb_spec s2 m); [lia|]. apply Z.div_le_mono; [nia|].
  apply Z.mul_le_mono_nonneg_l; [done|]. nia.
Qed.

Lemma base_reward_bounds c v already :
  reward_params_ok c v -> 0 <= already <= m_moneySupply c ->
  0 <= base_reward c already /\ already + base_reward c already <= m_moneySupply c.
Proof.
  intros (Hm & He & Hg & _) Ha. unfold base_reward.
  assert (0 < 2 ^ m_emissionSpeedFactor c) by (apply Z.pow_pos_nonneg; lia).
  assert (0 <= (m_moneySupply c - already) / 2 ^ m_emissionSpeedFactor c
            <= m_moneySupply c - already).
  { split; [apply Z.div_pos; lia|]. apply Z.div_le_upper_bound; nia. }
  destruct (Z.eqb_spec already 0); simpl; [destruct (_ =? 0); simpl|]; lia.
Qed.

Lemma getBlockReward_spec c v median size already fee :
  reward_params_ok c v -> 0 <= already <= m_moneySupply c -> fits 63 fee ->
  0 <= median < 2 ^ 31 -> fits 32 size ->
  let m := Z.max median (blockGrantedFullRewardZoneByBlockVersion c v) in
  let reward := penalty (base_reward c already) m size
                + (if 2 <=? v then penalty fee m size else fee) in
  getBlockReward c v median size already fee =
  if 2 * m <? size then None else Some (reward, reward - fee).
Proof.
  intros Hp Ha Hf Hmed Hsz m reward.
  pose proof (base_reward_bounds c v already Hp Ha) as [Hb Hb'].
  destruct Hp as (Hm & He & Hg & Hz). unfold getBlockReward.
  replace (if _ && _ then m_genesisBlockReward c else _) with (base_reward c already).
  2: { unfold base_reward. destruct (_ && _); [done|].
       rewrite wrap_small by (words; lia). by rewrite Z.shiftr_div_pow2. }
  fold m. assert (0 < m < 2 ^ 31) by lia.
  rewrite (wrap_small 64 (2 * m)) by (words; lia).
  destruct (Z.ltb_spec (2 * m) size); [done|].
  assert (0 <= size <= 2 * m) by (words; lia).
  pose proof (getPenalizedAmount_spec (base_reward c already) m size) as [Pb _]; try (words; lia).
  pose proof (getPenalizedAmount_spec fee m size) as [Pf _]; try (words; lia).
  rewrite Pb, Pf. fold (penalty (base_reward c already) m size) (penalty fee m size).
  change (BLOCK_MAJOR_VERSION_2 <=? v) with (2 <=? v).
  pose proof (penalty_bounds (base_reward c already) m size) as Bb.
  pose proof (penalty_bounds fee m size) as Bf. subst reward.
  rewrite (wrap_small 64 (fee - _)) by (destruct (2 <=? v); words; lia).
  rewrite (wrap_small 64 (penalty (base_reward c already) m size + _))
    by (destruct (2 <=? v); words; lia).
  do 2 f_equal. destruct (2 <=? v); wordlia.
Qed.

(** C32: for every block size and fee, the reward is
    refused exactly when the block exceeds twice the effective median; if it is
    granted, it is the penalised base reward plus the (from version 2 on
    penalised) fees, computed without rounding or overflow error, it never
    exceeds base reward plus fees, the recorded emission change is reward minus
    fees, and the emission stays within the money supply. *)
Theorem getBlockReward_correct c v median size already fee :
  reward_params_ok c v -> 0 <= already <= m_moneySupply c -> fits 63 fee ->
  0 <= median < 2 ^ 31 -> fits 32 size ->
  let m := Z.max median (blockGrantedFullRewardZoneByBlockVersion c v) in
  match getBlockReward c v median size already fee with
  | None => 2 * m < size
  | Some (reward, emissionChange) =>
      size <= 2 * m /\
      reward = penalty (base_reward c already) m size
               + (if 2 <=? v then penalty fee m size else fee) /\
      0 <= reward <= base_reward c already + fee /\
      emissionChange = reward - fee /\
      already + emissionChange <= m_moneySupply c
  end.
Proof.
  intros Hp Ha Hf Hmed Hsz m. rewrite getBlockReward_spec by done. fold m.
  pose proof (base_reward_bounds c v already Hp Ha) as [Hb Hb'].
  destruct Hp as (_ & _ & _ & Hz).
  destruct (Z.ltb_spec (2 * m) size); [done|].
  pose proof (penalty_bounds (base_reward c already) m size).
  pose proof (penalty_bounds fee m size).
  split_and!; try done; destruct (2 <=? v); words; lia.
Qed.

Lemma getBlockReward_correct_witness :
  35763368 = penalty (base_reward CurrencyBuilder 1000000) 100000 150000
             + penalty 777 100000 150000 /\
  1000000 + 35762591 <= m_moneySupply CurrencyBuilder.
Proof.
  destruct (getBlockReward_correct CurrencyBuilder 5 1000 150000 1000000 777)
    as (_ & Hr & _ & _ & He).
  - repeat split; vm_compute; congruence.
  - vm_compute; split; congruence.
  - vm_compute; split; congruence.
  - lia.
  - vm_compute; split; congruence.
  - split; [exact Hr|exact He].
Defined.

(** a larger block never earns a larger reward,
    all else equal. *)
Theorem getBlockReward_antitone c v median size1 size2 already fee r1 e1 r2 e2 :
  reward_params_ok c v -> 0 <= already <= m_moneySupply c -> fits 63 fee ->
  0 <= median < 2 ^ 31 -> fits 32 size1 -> fits 32 size2 -> size1 <= size2 ->
  getBlockReward c v median size1 already fee = Some (r1, e1) ->
  getBlockReward c v median size2 already fee = Some (r2, e2) ->
  r2 <= r1 /\ e2 <= e1.
Proof.
  intros Hp Ha Hf Hmed Hs1 Hs2 Hle. rewrite !getBlockReward_spec by done.
  pose proof (base_reward_bounds c v already Hp Ha) as [Hb _].
  destruct Hp as (_ & _ & _ & Hz).
  set (m := Z.max _ _). assert (0 < m) by (unfold m; lia). clearbody m.
  destruct (Z.ltb_spec (2 * m) size1), (Z.ltb_spec (2 * m) size2); intros [=] [=].
  pose proof (penalty_antitone (base_reward c already) m size1 size2).
  pose proof (penalty_antitone fee m size1 size2).
  subst. destruct (2 <=? v); words; lia.
Qed.

Lemma getBlockReward_antitone_witness : 35763368 <= 47684492 /\ 35762591 <= 47683715.
Proof.
  apply (getBlockReward_antitone CurrencyBuilder 5 1000 5000 150000 1000000 777); try lia;
    try (vm_compute; reflexivity); repeat split; vm_compute; congruence.
Defined.

(** ** Lemmas on amount decomposition *)

Definition pretty (x : Z) : Prop := exists d i, 1 <= d <= 9 /\ 0 <= i /\ x = d * 10 ^ i.

(** State of the loop: [O] is the order as a number, before the wrap. *)
Definition decompose_inv (thr O dust : Z) (handled : bool) (acc : list Z) : Prop :=
  0 <= dust < O /\ StronglySorted Z.lt acc /\
  Forall (fun x => 0 < x < O /\ (x <= thr \/ pretty x)) acc /\
  ((handled = false /\ acc = [] /\ dust <= thr) \/
   (thr < dust + O /\ (handled = true \/ dust = 0))).

Lemma decompose_inv_snoc thr O dust handled acc d i :
  O = 10 ^ i -> 0 <= i -> 1 <= d <= 9 -> thr < dust + d * O ->
  decompose_inv thr O dust handled acc ->
  let emit := negb handled && negb (dust =? 0) in
  let acc' := (if emit then acc ++ [dust] else acc) ++ [d * O] in
  decompose_inv thr (O * 10) dust (handled || emit) acc' /\
  sumZ acc' + (if handled || emit then 0 else dust) =
  sumZ acc + (if handled then 0 else dust) + d * O.
Proof.
  intros HO Hi Hd Hthr (Hdust & Hs & Hall & Hcase) emit acc'.
  assert (0 < O) by lia.
  assert (StronglySorted Z.lt acc' /\
          Forall (fun x => 0 < x < O * 10 /\ (x <= thr \/ pretty x)) acc') as [Hs' Ha'].
  { assert (pretty (d * O)) by (exists d, i; rewrite HO; lia).
    subst acc' emit. destruct Hcase as [(-> & -> & ?)|(? & Hh)]; simpl.
    - destruct (Z.eqb_spec dust 0) as [->|]; simpl;
        repeat constructor; auto; try lia; nia.
    - replace (negb handled && negb (dust =? 0)) with false
        by (destruct Hh as [->| ->]; [done|by rewrite andb_false_r]).
      split.
      + apply StronglySorted_snoc; split; [done|].
        eapply Forall_impl; [exact Hall|]. simpl. intros; nia.
      + apply Forall_app; split; [|repeat constructor; auto; nia].
        eapply Forall_impl; [exact Hall|]. simpl. intros; intuition lia. }
  split.
  - split_and!; try done; try nia. right. split; [nia|].
    subst emit. destruct handled; simpl; [by left|].
    destruct (Z.eqb_spec dust 0); simpl; auto.
  - subst acc' emit. rewrite sumZ_app. simpl.
    destruct handled; simpl; [lia|].
    destruct (Z.eqb_spec dust 0); simpl; rewrite ?sumZ_app; simpl; lia.
Qed.

Lemma decompose_loop_spec fuel amount i dust handled thr acc :
  0 <= i -> fits 64 thr -> 0 <= amount < 10 ^ (Z.of_nat fuel - 1) -> (0 < fuel)%nat ->
  amount * 10 ^ i + dust < 2 ^ 64 ->
  decompose_inv thr (10 ^ i) dust handled acc ->
  let r := decompose_loop fuel amount (u64 (10 ^ i)) dust handled thr acc in
  sumZ r = sumZ acc + (if handled then 0 else dust) + amount * 10 ^ i /\
  StronglySorted Z.lt r /\ Forall (fun x => 0 < x /\ (x <= thr \/ pretty x)) r.
Proof.
  revert amount i dust handled acc.
  induction fuel as [|fuel IH]; intros amount i dust handled acc Hi Hthr Ha Hf Hlt Hinv; [lia|].
  cbn [decompose_loop]. pose proof Hinv as (Hdust & Hs & Hall & Hcase).
  destruct (Z.eqb_spec amount 0) as [->|Hne].
  { clear IH. destruct handled; simpl; [|destruct (Z.eqb_spec dust 0); simpl].
    1,2: split_and!; [simpl; lia|done|]; eapply Forall_impl; [exact Hall|simpl; tauto].
    destruct Hcase as [(_ & -> & ?)|(? & [?| ->])]; try done; simpl.
    split_and!; [lia|repeat constructor|repeat constructor; auto; lia]. }
  assert (0 < 10 ^ i) by (apply Z.pow_pos_nonneg; lia).
  assert (Hdiv : amount = 10 * (amount / 10) + amount mod 10) by zlia.
  assert (0 <= amount mod 10 <= 9) by zlia.
  assert (0 <= amount / 10) by zlia.
  set (d := amount mod 10) in *. set (q := amount / 10) in *.
  assert (Hi10 : 10 ^ (i + 1) = 10 ^ i * 10) by (rewrite Z.pow_add_r by lia; lia).
  assert (0 <= d * 10 ^ i <= amount * 10 ^ i).
  { split; [apply Z.mul_nonneg_nonneg; lia|apply Z.mul_le_mono_nonneg_r; lia]. }
  assert (Hsmall : d * 10 ^ i < 10 ^ i -> d * 10 ^ i = 0).
  { intros Hl. enough (d = 0) as -> by lia. apply Z.le_antisymm; [|lia].
    apply Z.lt_succ_r. apply (Z.mul_lt_mono_pos_r (10 ^ i)); lia. }
  assert (d * 10 ^ i <= 9 * 10 ^ i) by (apply Z.mul_le_mono_nonneg_r; lia).
  replace (u64 (d * u64 (10 ^ i))) with (d * 10 ^ i).
  2: { rewrite wrap_mul_r, wrap_small; [done|words; lia]. }
  rewrite wrap_mul_l, <- Hi10.
  rewrite (wrap_small 64 (dust + d * 10 ^ i)) by (words; lia).
  assert (0 < fuel)%nat as Hf'.
  { destruct fuel; [|lia]. change (10 ^ (Z.of_nat 1 - 1)) with 1 in Ha. lia. }
  assert (0 <= q < 10 ^ (Z.of_nat fuel - 1)).
  { split; [done|]. replace (Z.of_nat (S fuel) - 1) with (Z.of_nat fuel - 1 + 1) in Ha by lia.
    rewrite Z.pow_add_r in Ha by lia. lia. }
  assert (q * 10 ^ (i + 1) = amount * 10 ^ i - d * 10 ^ i) by (rewrite Hi10, Hdiv at 1; lia).
  destruct (Z.leb_spec (dust + d * 10 ^ i) thr).
  - edestruct (IH q (i + 1) (dust + d * 10 ^ i) handled acc) as (IH1 & IH2 & IH3); try done; try lia.
    + destruct Hcase as [(-> & -> & ?)|(? & Hh)].
      * split_and!; [lia|lia|done|constructor|by left].
      * assert (E : d * 10 ^ i = 0) by (apply Hsmall; lia).
        split_and!; [lia|lia|done| |right; split; [lia|]].
        -- eapply Forall_impl; [exact Hall|]. simpl. intros; intuition lia.
        -- destruct Hh; [by left|right; lia].
    + split_and!; try done. rewrite IH1.
      destruct handled; [|lia]. destruct Hcase as [(? & _)|(? & _)]; [done|].
      assert (d * 10 ^ i = 0) by (apply Hsmall; lia). lia.
  - destruct (Z.eq_dec d 0) as [Hd0|Hd0].
    + rewrite Hd0, Z.mul_0_l in *. simpl.
      destruct Hcase as [(_ & _ & ?)|(? & Hh)]; [lia|].
      replace (negb handled && negb (dust =? 0)) with false
        by (destruct Hh as [->| ->]; [done|by rewrite andb_false_r]).
      rewrite orb_false_r.
      edestruct (IH q (i + 1) dust handled acc) as (IH1 & IH2 & IH3); try done; try lia.
      * split_and!; [lia|lia|done| |right; split; [lia|done]].
        eapply Forall_impl; [exact Hall|]. simpl. intros; intuition lia.
      * split_and!; try done. lia.
    + edestruct (decompose_inv_snoc thr (10 ^ i) dust handled acc d i) as [Hinv' Hsum];
        try done; try lia. rewrite <- Hi10 in Hinv'.
      destruct (Z.eqb_spec (d * 10 ^ i) 0); [lia|]. simpl.
      edestruct (IH q (i + 1) dust) as (IH1 & IH2 & IH3); try exact Hinv'; try done; try lia.
      split_and!; try done. rewrite IH1. lia.
Qed.

Lemma decomposeAmount_spec amount thr :
  fits 64 amount -> fits 64 thr ->
  let r := decomposeAmount amount thr in
  sumZ r = amount /\ StronglySorted Z.lt r /\
  Forall (fun x => 0 < x /\ (x <= thr \/ pretty x)) r.
Proof.
  intros Ha Hthr. unfold decomposeAmount, decompose_amount_into_digits.
  destruct (Z.eqb_spec amount 0) as [->|Hne]; [split_and!; [done|constructor|constructor]|].
  pose proof (decompose_loop_spec 21 amount 0 0 false thr []) as H.
  change (u64 (10 ^ 0)) with 1 in H. change (10 ^ 0) with 1 in H. simpl sumZ in H.
  rewrite Z.mul_1_r in H. apply H; clear H; try done; try (words; lia).
  split_and!; [lia|lia|constructor|constructor|left; words; split_and!; [done|done|lia]].
Qed.


(** decomposing a 64-bit amount terminates
    with chunks that add up to the amount, strictly increase, are positive,
    and each of which is either dust (not above the threshold) or a single
    decimal digit followed by zeros. *)
Theorem decomposeAmount_correct amount dustThreshold :
  fits 64 amount -> fits 64 dustThreshold ->
  let r := decomposeAmount amount dustThreshold in
  sumZ r = amount /\ StronglySorted Z.lt r /\
  Forall (fun x => 0 < x /\ (x <= dustThreshold \/ pretty x)) r.
Proof. intros. by apply decomposeAmount_spec. Qed.

Lemma decomposeAmount_correct_witness :
  let r := decomposeAmount 1234507 1000 in
  r = [507; 4000; 30000; 200000; 1000000] /\ sumZ r = 1234507 /\
  StronglySorted Z.lt r /\ Forall (fun x => 0 < x /\ (x <= 1000 \/ pretty x)) r.
Proof.
  split; [vm_compute; reflexivity|].
  apply (decomposeAmount_correct 1234507 1000); split; vm_compute; congruence.
Defined.

(** ** Fusion transactions *)

Lemma fusion_input_amount_acc c h l s :
  let step acc amount :=
    match acc with
    | None => None
    | Some s =>
        if amount <? defaultFusionDustThreshold c h then None else Some (u64 (s + amount))
    end in
  fold_left step l (Some (u64 s)) =
  if forallb (fun a => negb (a <? defaultFusionDustThreshold c h)) l
  then Some (u64 (s + sumZ l)) else None.
Proof.
  intros step. revert s. induction l as [|a l IH]; intros s; simpl.
  - by rewrite Z.add_0_r.
  - destruct (a <? _); simpl; [clear IH; by induction l|].
    rewrite wrap_add_l, IH. by rewrite Z.add_assoc.
Qed.

Lemma fusion_input_amount_spec c h l :
  fusion_input_amount c l h =
  if forallb (fun a => negb (a <? defaultFusionDustThreshold c h)) l
  then Some (u64 (sumZ l)) else None.
Proof. exact (fusion_input_amount_acc c h l 0). Qed.

(** a transaction accepted as fusion (and
    so exempt from the minimum fee) pays out exactly what it takes in: its
    outputs are the sorted decomposition of the input sum, each one dust or a
    round amount, every input is at least the dust threshold, and the counts
    and the size respect the fusion limits. *)
Theorem isFusionTransaction_correct c ins outs size height :
  fits 64 (sumZ ins) -> fits 64 (defaultFusionDustThreshold c height) ->
  fits 64 (Z.of_nat (length outs) * m_fusionTxMinInOutCountRatio c) ->
  isFusionTransaction c ins outs size height = true ->
  sumZ outs = sumZ ins /\ StronglySorted Z.lt outs /\
  Forall (fun x => 0 < x /\ (x <= defaultFusionDustThreshold c height \/ pretty x)) outs /\
  Forall (fun x => defaultFusionDustThreshold c height <= x) ins /\
  size <= m_fusionTxMaxSize c /\
  m_fusionTxMinInputCount c <= Z.of_nat (length ins) /\
  Z.of_nat (length outs) * m_fusionTxMinInOutCountRatio c <= Z.of_nat (length ins).
Proof.
  intros Hin Hthr Hcnt. unfold isFusionTransaction. rewrite (wrap_small _ _ Hcnt).
  rewrite fusion_input_amount_spec. split_ifs; try done. intros H%bool_decide_eq_true.
  rewrite (wrap_small _ _ Hin) in H.
  destruct (decomposeAmount_spec (sumZ ins) (defaultFusionDustThreshold c height) Hin Hthr)
    as (Hsum & Hs & Hall).
  rewrite sortZ_id in H by by apply Zlt_sorted_le. subst outs.
  split_and!; try done. apply Forall_forall. intros x Hx.
  apply Stdlib.Lists.List.forallb_forall with (x := x) in E2; [|by apply list_elem_of_In].
  bool_to_prop. lia.
Qed.

Lemma isFusionTransaction_correct_witness :
  sumZ [200; 3000] = sumZ (replicate 16 200) /\
  Z.of_nat (length [200; 3000]) * 4 <= Z.of_nat (length (replicate 16 200)).
Proof.
  destruct (isFusionTransaction_correct CurrencyBuilder (replicate 16 200) [200; 3000]
              1000 2000000) as (Hs & _ & _ & _ & _ & _ & Hc).
  - vm_compute; split; congruence.
  - vm_compute; split; congruence.
  - vm_compute; split; congruence.
  - vm_compute; reflexivity.
  - split; [exact Hs|exact Hc].
Defined.

(** ** The move constructor *)

(** [CurrencyBuilder::currency()] hands out
    the currency through the move constructor, which copies every member except
    [m_mempoolTxFromAltBlockLiveTime]: that one is left indeterminate. *)
Theorem Currency_move_loses_livetime c uninit :
  m_mempoolTxFromAltBlockLiveTime (Currency_move uninit c) = uninit /\
  (Currency_move uninit c = c <-> uninit = m_mempoolTxFromAltBlockLiveTime c).
Proof.
  split; [done|]. split; [intros H; by rewrite <- H|intros ->; by destruct c].
Qed.
