(* ===== verification/Difficulty.v ===== *)
(** * Difficulty retargeting

    src/src/cryptonote_core/difficulty.{h,cpp} (the LWMA algorithms) and
    [Currency::nextDifficulty], [Currency::getNextDifficulty] of currency.cpp.
    A vector access is [!!!]; every index the code uses is shown or assumed in
    range where a theorem depends on it.  An integer division by zero, which
    aborts the process, is [None].  [int64_t] arithmetic is two's complement. *)

From S2P Require Import Prelude Config IntUtil Types Median Currency.
Import parameters.

Definition at_ (v : list Z) (i : Z) : Z := v !!! Z.to_nat i.

(** ** difficulty.h *)

Definition clamp (n lower upper : Z) : Z := Z.max lower (Z.min n upper).

(** ** LWMA-3 *)

(** One round of the loop of [nextDifficultyV6]: state (L, sum_3_ST,
    previousTimestamp). *)
Definition lwma3_step (T N : Z) (timestamps : list Z) (s : Z * Z * Z) (i : Z) : Z * Z * Z :=
  let '(L, sum_3_ST, previousTimestamp) := s in
  let thisTimestamp :=
    if previousTimestamp <? at_ timestamps i then at_ timestamps i
    else u64 (previousTimestamp + 1) in
  let ST := Z.min (6 * T) (u64 (thisTimestamp - previousTimestamp)) in
  let L := u64 (L + u64 (ST * i)) in
  let sum_3_ST := if u64 (N - 3) <? i then u64 (sum_3_ST + ST) else sum_3_ST in
  (L, sum_3_ST, thisTimestamp).

Definition nextDifficultyV6 (timestamps cumulativeDifficulties : list Z) : option Z :=
  let T := DIFFICULTY_TARGET in
  let size := Z.of_nat (length timestamps) in
  if size <=? 10 then Some 10000
  else
    let N := if size <? DIFFICULTY_BLOCKS_COUNT_V3 then size - 1 else DIFFICULTY_WINDOW_V3 in
    let '(L, sum_3_ST, _) :=
      fold_left (lwma3_step T N timestamps) (seqZ 1 N) (0, 0, at_ timestamps 0) in
    let cd := at_ cumulativeDifficulties in
    let divisor := u64 (100 * 2 * L) in
    if divisor =? 0 then None
    else
      let next_D := u64 (u64 (u64 (u64 (cd N - cd 0) * T) * (N + 1)) * 99) / divisor in
      let prev_D := u64 (cd N - cd (N - 1)) in
      let next_D := Z.max (u64 (prev_D * 67) / 100) (Z.min next_D (u64 (prev_D * 150) / 100)) in
      let next_D :=
        if sum_3_ST <? 8 * T / 10 then Z.max next_D (u64 (prev_D * 108) / 100) else next_D in
      Some next_D.

(** ** LWMA-2 *)

(** The loop the three LWMA-2 versions share, with the solve time each of them
    computes from the difference of two timestamps: state (L, sum_3_ST). *)
Definition lwma2_step (solve_time : Z -> Z) (N : Z) (timestamps : list Z) (s : Z * Z) (i : Z)
    : Z * Z :=
  let '(L, sum_3_ST) := s in
  let ST := solve_time (s64 (s64 (at_ timestamps i) - s64 (at_ timestamps (i - 1)))) in
  let L := s64 (L + s64 (ST * i)) in
  let sum_3_ST := if N - 3 <? i then s64 (sum_3_ST + ST) else sum_3_ST in
  (L, sum_3_ST).

Definition lwma2_loop (solve_time : Z -> Z) (timestamps : list Z) : Z * Z :=
  fold_left (lwma2_step solve_time DIFFICULTY_WINDOW_V3 timestamps)
    (seqZ 1 DIFFICULTY_WINDOW_V3) (0, 0).

(** The quotient [(cd[N] - cd[0]) * T * (N + 1) * 99 / (100 * 2 * L)]. *)
Definition lwma2_next (cumulativeDifficulties : list Z) (L : Z) : option Z :=
  let T := DIFFICULTY_TARGET in
  let N := DIFFICULTY_WINDOW_V3 in
  let cd := at_ cumulativeDifficulties in
  let divisor := s64 (100 * 2 * L) in
  if divisor =? 0 then None
  else Some (Z.quot (s64 (s64 (s64 (s64 (u64 (cd N - cd 0)) * T) * (N + 1)) * 99)) divisor).

Definition lwma2_prev (cumulativeDifficulties : list Z) : Z :=
  s64 (u64 (at_ cumulativeDifficulties DIFFICULTY_WINDOW_V3
            - at_ cumulativeDifficulties (DIFFICULTY_WINDOW_V3 - 1))).

(** [(prev_D * k) / 100] in [int64_t]. *)
Definition percent (prev_D k : Z) : Z := Z.quot (s64 (prev_D * k)) 100.

Definition solve_time_V5 (d : Z) : Z :=
  Z.max (-4 * DIFFICULTY_TARGET) (Z.min d (6 * DIFFICULTY_TARGET)).

Definition nextDifficultyV5 (timestamps cumulativeDifficulties : list Z) : option Z :=
  let T := DIFFICULTY_TARGET in
  let N := DIFFICULTY_WINDOW_V3 in
  if Z.of_nat (length timestamps) <? N + 1 then Some 10000
  else
    let '(L, sum_3_ST) := lwma2_loop solve_time_V5 timestamps in
    next_D ← lwma2_next cumulativeDifficulties L;
    let prev_D := lwma2_prev cumulativeDifficulties in
    let next_D := Z.max (percent prev_D 67) (Z.min next_D (percent prev_D 150)) in
    let next_D :=
      if sum_3_ST <? Z.quot (8 * T) 10 then Z.max next_D (percent prev_D 108) else next_D in
    Some (u64 next_D).

(** The call in [nextDifficultyV4] passes the bound first and the value second. *)
Definition solve_time_V4 (d : Z) : Z :=
  clamp (-6 * DIFFICULTY_TARGET) d (6 * DIFFICULTY_TARGET).

Definition nextDifficultyV4 (timestamps cumulativeDifficulties : list Z) : option Z :=
  let T := DIFFICULTY_TARGET in
  let N := DIFFICULTY_WINDOW_V3 in
  if Z.of_nat (length timestamps) <=? N then Some 1000
  else
    let '(L, sum_3_ST) := lwma2_loop solve_time_V4 timestamps in
    next_D ← lwma2_next cumulativeDifficulties L;
    let prev_D := lwma2_prev cumulativeDifficulties in
    let next_D := Z.max (percent prev_D 67) (Z.min next_D (percent prev_D 150)) in
    let next_D :=
      if sum_3_ST <? Z.quot (8 * T) 10 then Z.max next_D (percent prev_D 110) else next_D in
    Some (u64 next_D).

Definition solve_time_V3 (d : Z) : Z :=
  Z.max (- CRYPTONOTE_BLOCK_FUTURE_TIME_LIMIT_V3) (Z.min d (6 * DIFFICULTY_TARGET)).

Definition nextDifficultyV3 (timestamps cumulativeDifficulties : list Z) : option Z :=
  let T := DIFFICULTY_TARGET in
  let N := DIFFICULTY_WINDOW_V3 in
  if Z.of_nat (length timestamps) <=? N then Some 1000
  else
    let '(L, sum_3_ST) := lwma2_loop solve_time_V3 timestamps in
    next_D ← lwma2_next cumulativeDifficulties L;
    let prev_D := lwma2_prev cumulativeDifficulties in
    let next_D := Z.max (percent prev_D 70) (Z.min next_D (percent prev_D 107)) in
    let next_D := if sum_3_ST <? Z.quot (8 * T) 10 then percent prev_D 110 else next_D in
    Some (u64 next_D).

(** ** The original algorithm *)

Section Next.
Context (c : Currency).

(** The window left after cutting the outliers at both ends: [cutBegin, cutEnd). *)
Definition cut_window (length window cut : Z) : Z * Z :=
  if length <=? u64 (window - 2 * cut) then (0, length)
  else
    let cutBegin := u64 (length - u64 (window - 2 * cut) + 1) / 2 in
    (cutBegin, u64 (cutBegin + u64 (window - 2 * cut))).

(** Time span and scaled work over the window of sorted [timestamps]: the pair
    (low, timeSpan), or [None] when the product does not fit (the code returns
    difficulty 0). *)
Definition window_work (timestamps cumulativeDifficulties : list Z) (window cut : Z)
    : option (Z * Z) :=
  let '(cutBegin, cutEnd) := cut_window (Z.of_nat (length timestamps)) window cut in
  let timeSpan := u64 (at_ timestamps (cutEnd - 1) - at_ timestamps cutBegin) in
  let timeSpan := if timeSpan =? 0 then 1 else timeSpan in
  let totalWork := u64 (at_ cumulativeDifficulties (cutEnd - 1)
                        - at_ cumulativeDifficulties cutBegin) in
  let '(high, low) := mul128 totalWork (m_difficultyTarget c) in
  if negb (high =? 0) || (u64 (UINT64_MAX - low) <? u64 (timeSpan - 1)) then None
  else Some (low, timeSpan).

Definition nextDifficulty (version blockIndex : Z)
    (timestamps cumulativeDifficulties : list Z) : Z :=
  let timestamps_o := timestamps in
  let cumulativeDifficulties_o := cumulativeDifficulties in
  let c_difficultyWindow := difficultyWindowByBlockVersion c version in
  let c_difficultyCut := difficultyCutByBlockVersion c version in
  let '(timestamps, cumulativeDifficulties) :=
    if c_difficultyWindow <? Z.of_nat (length timestamps)
    then (take (Z.to_nat c_difficultyWindow) timestamps,
          take (Z.to_nat c_difficultyWindow) cumulativeDifficulties)
    else (timestamps, cumulativeDifficulties) in
  if (length timestamps <=? 1)%nat then 1
  else
    match window_work (sortZ timestamps) cumulativeDifficulties
            c_difficultyWindow c_difficultyCut with
    | None => 0
    | Some (low, timeSpan) =>
        let c_zawyDifficultyBlockVersion :=
          if negb (m_zawyDifficultyV2 c =? 0) then 2 else m_zawyDifficultyBlockVersion c in
        if (c_zawyDifficultyBlockVersion <=? version)
           && negb (c_zawyDifficultyBlockVersion =? 0)
        then low / timeSpan
        else if negb (m_zawyDifficultyBlockIndex c =? 0)
                && (m_zawyDifficultyBlockIndex c <=? blockIndex)
        then
          let t_difficultyWindow := Nat.min 17 (length timestamps) in
          let timestamps_tmp :=
            drop (length timestamps_o - t_difficultyWindow) timestamps_o in
          let cumulativeDifficulties_tmp :=
            drop (length cumulativeDifficulties_o - t_difficultyWindow)
              cumulativeDifficulties_o in
          if (length timestamps_tmp <=? 1)%nat then 1
          else
            match window_work (sortZ timestamps_tmp) cumulativeDifficulties_tmp 17 0 with
            | None => 0
            | Some (low, timeSpan) =>
                let nextDiffZ := low / timeSpan in
                if nextDiffZ <=? 100 then 100 else nextDiffZ
            end
        else u64 (u64 (low + timeSpan) - 1) / timeSpan
    end.

Definition getNextDifficulty (version blockIndex : Z)
    (timestamps cumulativeDifficulties : list Z) : option Z :=
  if LWMA_3_DIFFICULTY_BLOCK_INDEX <=? blockIndex
  then nextDifficultyV6 timestamps cumulativeDifficulties
  else if LWMA_2_DIFFICULTY_BLOCK_INDEX_V3 <=? blockIndex
  then nextDifficultyV5 timestamps cumulativeDifficulties
  else if LWMA_2_DIFFICULTY_BLOCK_INDEX_V2 <=? blockIndex
  then nextDifficultyV4 timestamps cumulativeDifficulties
  else if LWMA_2_DIFFICULTY_BLOCK_INDEX <=? blockIndex
  then nextDifficultyV3 timestamps cumulativeDifficulties
  else Some (nextDifficulty version blockIndex timestamps cumulativeDifficulties).

End Next.

(** ** The LWMA-3 loop *)

Lemma seqZ_snoc n : 0 <= n -> seqZ 1 (n + 1) = seqZ 1 n ++ [n + 1].
Proof.
  intros. rewrite seqZ_app by lia. f_equal. rewrite (seqZ_cons (1 + n) 1) by lia.
  replace (Z.pred 1) with 0 by lia. rewrite seqZ_nil by lia. f_equal. lia.
Qed.

(** Rule of induction for the loops [for (i = 1; i <= N; i++)]. *)
Lemma fold_seqZ_ind {S} (P : Z -> S -> Prop) (f : S -> Z -> S) s0 N :
  0 <= N -> P 0 s0 ->
  (forall k s, 0 <= k < N -> P k s -> P (k + 1) (f s (k + 1))) ->
  P N (fold_left f (seqZ 1 N) s0).
Proof.
  intros HN H0 Hstep.
  enough (forall k, 0 <= k -> k <= N -> P k (fold_left f (seqZ 1 k) s0)) by auto with lia.
  intros k Hk. pattern k. revert k Hk. apply natlike_ind; [by intros _|].
  intros k Hk IH HkN. unfold Z.succ. rewrite seqZ_snoc by done.
  rewrite fold_left_app. simpl. apply Hstep; [lia|]. apply IH. lia.
Qed.






(** A chain with solve times of [s] seconds and constant difficulty [D]. *)
Definition steady_timestamps (t0 s : Z) : list Z := (fun i => t0 + s * i) <$> seqZ 0 61.
Definition steady_difficulties (c0 D : Z) : list Z := (fun i => c0 + D * i) <$> seqZ 0 61.


Lemma at_steady f i : 0 <= i < 61 -> at_ (f <$> seqZ 0 61) i = f i.
Proof.
  intros Hi. unfold at_. apply list_lookup_total_correct.
  rewrite list_lookup_fmap, lookup_seqZ_lt by lia. simpl. do 2 f_equal. lia.
Qed.

Lemma lwma3_loop_steady t0 :
  fits 63 t0 ->
  fold_left (lwma3_step DIFFICULTY_TARGET 60 (steady_timestamps t0 90)) (seqZ 1 60) (0, 0, t0)
  = (45 * 60 * 61, 270, t0 + 90 * 60).
Proof.
  intros Ht.
  pose (P := fun k s => s = (45 * (k * (k + 1)), 90 * Z.max 0 (k - 57), t0 + 90 * k)).
  apply (fold_seqZ_ind P); subst P; simpl; [lia| |].
  - repeat f_equal; lia.
  - intros k s Hk ->. unfold lwma3_step, steady_timestamps. rewrite at_steady by lia.
    destruct (Z.ltb_spec (t0 + 90 * k) (t0 + 90 * (k + 1))); [|lia].
    replace (t0 + 90 * (k + 1) - (t0 + 90 * k)) with 90 by lia.
    change (Z.min (6 * DIFFICULTY_TARGET) (u64 90)) with 90. change (u64 (60 - 3)) with 57.
    assert (0 <= k * (k + 1) <= 60 * 61) by nia.
    rewrite (wrap_small 64 (90 * (k + 1))), (wrap_small 64 (_ + _)) by (words; lia).
    f_equal. f_equal; [lia|]. destruct (Z.ltb_spec 57 (k + 1)); [|lia].
    rewrite wrap_small by (words; lia). lia.
Qed.

(** when blocks arrive exactly at the target
    interval at constant difficulty [D], LWMA-3 answers 99% of [D], the
    adjustment the constant 99/100 is there for; no intermediate product
    wraps. *)
Theorem nextDifficultyV6_steady t0 c0 D :
  fits 63 t0 -> 0 <= D -> D * 60 * 90 * 61 * 99 < 2 ^ 64 ->
  nextDifficultyV6 (steady_timestamps t0 90) (steady_difficulties c0 D) = Some (99 * D / 100).
Proof.
  intros Ht HD Hfit. unfold nextDifficultyV6.
  replace (Z.of_nat (length (steady_timestamps t0 90))) with 61 by done.
  change (61 <=? 10) with false. change (61 <? DIFFICULTY_BLOCKS_COUNT_V3) with false.
  cbv beta iota zeta. change DIFFICULTY_WINDOW_V3 with 60.
  replace (at_ (steady_timestamps t0 90) 0) with t0
    by (unfold steady_timestamps; rewrite at_steady by lia; lia).
  rewrite lwma3_loop_steady by done. unfold steady_difficulties.
  rewrite !at_steady by lia.
  replace (c0 + D * (60 - 1)) with (c0 + D * 59) by lia.
  replace (c0 + D * 60 - (c0 + D * 0)) with (D * 60) by lia.
  replace (c0 + D * 60 - (c0 + D * 59)) with D by lia.
  change DIFFICULTY_TARGET with 90.
  rewrite (wrap_small 64 (D * 60)), (wrap_small 64 (D * 60 * 90)), (wrap_small 64 D),
    (wrap_small 64 (D * 60 * 90 * (60 + 1))), (wrap_small 64 (D * 60 * 90 * (60 + 1) * 99)),
    !(wrap_small 64 (D * _)) by (words; lia).
  change (u64 (100 * 2 * (45 * 60 * 61))) with (100 * 2 * (45 * 60 * 61)).
  change (270 <? 8 * 90 / 10) with false. change (100 * 2 * (45 * 60 * 61)) with 32940000.
  change (32940000 =? 0) with false. cbv iota.
  replace (D * 60 * 90 * (60 + 1) * 99) with (99 * D * 329400) by lia.
  change 32940000 with (100 * 329400). rewrite Z.div_mul_cancel_r by lia.
  f_equal. clear Hfit. zlia.
Qed.

Lemma nextDifficultyV6_steady_witness :
  nextDifficultyV6 (steady_timestamps 1540000000 90) (steady_difficulties 7 1000000)
  = Some 990000.
Proof. apply (nextDifficultyV6_steady 1540000000 7 1000000); [split|..]; lia. Defined.

(** ** LWMA-2 *)

Lemma at_replicate n t i : 0 <= i < Z.of_nat n -> at_ (replicate n t) i = t.
Proof.
  intros. unfold at_. apply list_lookup_total_correct, lookup_replicate. split; [done|lia].
Qed.

Lemma lwma2_loop_stalled f t : f 0 = 0 -> lwma2_loop f (replicate 61 t) = (0, 0).
Proof.
  intros Hf. unfold lwma2_loop. change DIFFICULTY_WINDOW_V3 with 60.
  apply (fold_seqZ_ind (fun _ s => s = (0, 0)) (lwma2_step f 60 (replicate 61 t)) (0, 0) 60);
    [lia|done|].
  intros k s Hk ->.
  unfold lwma2_step. rewrite !at_replicate by lia. rewrite Z.sub_diag.
  change (s64 0) with 0. rewrite Hf. by destruct (_ <? _).
Qed.

(** between the LWMA-2 and the LWMA-3
    fork, 61 blocks with one and the same timestamp make the retarget divide by
    zero: the weighted sum of solve times is the divisor and nothing keeps it
    away from zero (the clamp on [next_D] comes after the division). *)
Theorem getNextDifficulty_lwma2_abort c version h t cds :
  LWMA_2_DIFFICULTY_BLOCK_INDEX <= h < LWMA_3_DIFFICULTY_BLOCK_INDEX ->
  getNextDifficulty c version h (replicate 61 t) cds = None.
Proof.
  intros Hh. unfold getNextDifficulty. split_ifs; try lia.
  all: unfold nextDifficultyV5, nextDifficultyV4, nextDifficultyV3; rewrite length_replicate.
  all: change (Z.of_nat 61) with 61; change DIFFICULTY_WINDOW_V3 with 60.
  all: try change (61 <? 60 + 1) with false; try change (61 <=? 60) with false; cbv iota zeta.
  all: rewrite lwma2_loop_stalled by done; done.
Qed.

Lemma getNextDifficulty_lwma2_abort_witness :
  getNextDifficulty CurrencyBuilder 4 1000000 (replicate 61 1540000000)
    (steady_difficulties 7 1000) = None.
Proof. apply (getNextDifficulty_lwma2_abort CurrencyBuilder 4 1000000). vm_compute; split; congruence. Defined.

(** ** The original algorithm *)

Lemma cut_window_ok len window cut :
  0 <= cut -> 2 * cut <= window - 2 -> window < 2 ^ 64 -> 2 <= len <= window ->
  let '(b, e) := cut_window len window cut in
  0 <= b /\ b + 2 <= e <= len /\ e - b = Z.min len (window - 2 * cut).
Proof.
  intros. unfold cut_window. rewrite (wrap_small 64 (window - 2 * cut)) by (words; lia).
  destruct (Z.leb_spec len (window - 2 * cut)); [lia|].
  rewrite (wrap_small 64 (len - _ + 1)), (wrap_small 64 (_ + _)) by wordlia. zlia.
Qed.

Lemma at_sortZ_le v i j :
  Forall (fits 64) v -> 0 <= i <= j -> j < Z.of_nat (length v) ->
  0 <= at_ (sortZ v) i <= at_ (sortZ v) j /\ at_ (sortZ v) j < 2 ^ 64.
Proof.
  intros Hv Hij Hj. unfold at_.
  destruct (lookup_lt_is_Some_2 (sortZ v) (Z.to_nat i)) as [x Hx]; [rewrite sortZ_length; lia|].
  destruct (lookup_lt_is_Some_2 (sortZ v) (Z.to_nat j)) as [y Hy]; [rewrite sortZ_length; lia|].
  assert (Forall (fits 64) (sortZ v)) as Hf by by rewrite sortZ_Permutation.
  rewrite Forall_lookup in Hf. pose proof (Hf _ _ Hx). pose proof (Hf _ _ Hy).
  rewrite (list_lookup_total_correct _ _ _ Hx), (list_lookup_total_correct _ _ _ Hy).
  assert (x <= y) by (eapply sorted_lookup_le; [apply sortZ_sorted| |done..]; lia).
  words. lia.
Qed.

Lemma window_work_spec c ts cds window cut :
  0 <= cut -> 2 * cut <= window - 2 -> window < 2 ^ 64 -> Forall (fits 64) ts ->
  2 <= Z.of_nat (length ts) <= window -> fits 64 (m_difficultyTarget c) ->
  let '(b, e) := cut_window (Z.of_nat (length ts)) window cut in
  let span := Z.max 1 (at_ (sortZ ts) (e - 1) - at_ (sortZ ts) b) in
  let work := at_ cds (e - 1) - at_ cds b in
  0 <= work -> work * m_difficultyTarget c + span <= 2 ^ 64 ->
  work < 2 ^ 64 ->
  window_work c (sortZ ts) cds window cut = Some (work * m_difficultyTarget c, span).
Proof.
  intros Hc Hc' Hw Hts Hlen Ht. pose proof (cut_window_ok _ _ _ Hc Hc' Hw Hlen) as Hcut.
  unfold window_work. rewrite sortZ_length. destruct (cut_window _ _ _) as [b e].
  destruct Hcut as (Hb & He & _).
  destruct (at_sortZ_le ts b (e - 1) Hts) as [Hs1 Hs2]; [lia..|].
  set (s0 := at_ (sortZ ts) b) in *. set (s1 := at_ (sortZ ts) (e - 1)) in *.
  set (work := at_ cds (e - 1) - at_ cds b). set (span := Z.max 1 (s1 - s0)).
  intros Hwork Hfit Hfit'. clearbody s0 s1 work.
  rewrite (wrap_small 64 (s1 - s0)), (wrap_small 64 work) by (words; lia).
  rewrite mul128_spec by (words; lia).
  replace (if s1 - s0 =? 0 then 1 else s1 - s0) with span by (unfold span; split_ifs; lia).
  assert (0 <= work * m_difficultyTarget c) by (words; lia).
  rewrite Z.div_small, Z.mod_small by lia. simpl.
  rewrite !wrap_small by (words; lia).
  destruct (Z.ltb_spec (UINT64_MAX - work * m_difficultyTarget c) (span - 1)); [words; lia|done].
Qed.

(** for the first block versions the retarget is
    the work in the window times the target interval, divided by the time span
    of the window and rounded up; the window lies inside the samples and holds
    at least two of them. *)
Theorem nextDifficulty_ceiling c version h ts cds :
  m_zawyDifficultyV2 c = 0 -> version < m_zawyDifficultyBlockVersion c ->
  h < m_zawyDifficultyBlockIndex c -> fits 64 (m_difficultyTarget c) ->
  let window := difficultyWindowByBlockVersion c version in
  let cut := difficultyCutByBlockVersion c version in
  0 <= cut -> 2 * cut <= window - 2 -> window < 2 ^ 64 -> Forall (fits 64) ts ->
  2 <= Z.of_nat (length ts) <= window ->
  let '(b, e) := cut_window (Z.of_nat (length ts)) window cut in
  let span := Z.max 1 (at_ (sortZ ts) (e - 1) - at_ (sortZ ts) b) in
  let work := at_ cds (e - 1) - at_ cds b in
  0 <= work -> work < 2 ^ 64 -> work * m_difficultyTarget c + span <= 2 ^ 64 ->
  let d := nextDifficulty c version h ts cds in
  0 <= b /\ b + 2 <= e <= Z.of_nat (length ts) /\
  (d - 1) * span < work * m_difficultyTarget c <= d * span.
Proof.
  intros Hz2 Hzv Hzi Ht window cut Hc Hc' Hw Hts Hlen.
  pose proof (cut_window_ok _ _ _ Hc Hc' Hw Hlen) as Hcut.
  pose proof (window_work_spec c ts cds window cut Hc Hc' Hw Hts Hlen Ht) as Hww.
  unfold nextDifficulty. fold window cut.
  destruct (Z.ltb_spec window (Z.of_nat (length ts))); [lia|].
  destruct (Nat.leb_spec (length ts) 1); [lia|].
  destruct (cut_window _ _ _) as [b e]. destruct Hcut as (Hb & He & _).
  set (span := Z.max 1 _) in *. set (work := _ - at_ cds b) in *.
  intros Hw0 Hw1 Hw2. specialize (Hww Hw0 Hw2 Hw1).
  rewrite Hww, Hz2. simpl.
  destruct (Z.leb_spec (m_zawyDifficultyBlockVersion c) version); [lia|]. simpl.
  destruct (Z.leb_spec (m_zawyDifficultyBlockIndex c) h); [lia|]. rewrite andb_false_r.
  set (m := work * m_difficultyTarget c) in *.
  assert (1 <= span) as Hspan by (unfold span; lia).
  assert (0 <= m) as Hm by (unfold m; words; lia). clearbody m span.
  replace (u64 (u64 (m + span) - 1)) with (m + span - 1) by (clear -Hspan Hm Hw2; words; zlia).
  pose proof (Z.div_mod (m + span - 1) span ltac:(lia)).
  pose proof (Z.mod_pos_bound (m + span - 1) span ltac:(lia)).
  split_and!; lia.
Qed.

Lemma nextDifficulty_ceiling_witness :
  let d := nextDifficulty CurrencyBuilder 1 1000 (steady_timestamps 5000 83)
             (steady_difficulties 7 1000) in
  d = 1085 /\ (d - 1) * (83 * 60) < 60000 * 90 <= d * (83 * 60).
Proof.
  pose proof (nextDifficulty_ceiling CurrencyBuilder 1 1000 (steady_timestamps 5000 83)
    (steady_difficulties 7 1000) ltac:(vm_compute; congruence) ltac:(vm_compute; congruence)
    ltac:(vm_compute; congruence) ltac:(vm_compute; split; congruence)
    ltac:(vm_compute; congruence) ltac:(vm_compute; congruence) ltac:(vm_compute; congruence)
    ltac:(repeat constructor; vm_compute; congruence) ltac:(vm_compute; split; congruence)) as H.
  vm_compute in H. vm_compute. split; [reflexivity|].
  apply H; congruence.
Defined.

(** ** The result is a [uint64_t] *)

Lemma quotient_fits x y : fits 64 x -> 0 < y -> fits 64 (x / y).
Proof.
  intros [H1 H2] Hy. split; [by apply Z.div_pos|].
  apply (Z.le_lt_trans _ x); [|done]. apply Z.div_le_upper_bound; [done|nia].
Qed.

Lemma window_work_fits c ts cds window cut low timeSpan :
  window_work c ts cds window cut = Some (low, timeSpan) -> fits 64 low /\ 0 < timeSpan.
Proof.
  unfold window_work. destruct (cut_window _ _ _) as [b e].
  set (span := u64 (at_ ts _ - at_ ts b)). unfold mul128. destruct (_ || _); [done|].
  intros [= <- <-]. split; [by apply fits_wrap|].
  assert (0 <= span) by (by apply (fits_wrap 64)). destruct (span =? 0) eqn:E; bool_to_prop; lia.
Qed.

Lemma nextDifficulty_fits c version h ts cds : fits 64 (nextDifficulty c version h ts cds).
Proof.
  unfold nextDifficulty. destruct (if _ <? _ then _ else _) as [ts' cds'].
  destruct (_ <=? 1)%nat; [done|].
  destruct (window_work _ _ _ _ _) as [[low span]|] eqn:E; [|done].
  apply window_work_fits in E as [Hl Hs].
  destruct (_ && _); [by apply quotient_fits|]. destruct (_ && _).
  - destruct (_ <=? 1)%nat; [done|].
    destruct (window_work _ _ _ 17 0) as [[low' span']|] eqn:E'; [|done].
    apply window_work_fits in E' as [Hl' Hs']. destruct (_ <=? 100); [done|]. by apply quotient_fits.
  - apply quotient_fits; [by apply fits_wrap|done].
Qed.

Lemma nextDifficultyV6_fits ts cds d : nextDifficultyV6 ts cds = Some d -> fits 64 d.
Proof.
  unfold nextDifficultyV6. destruct (_ <=? 10); [by intros [= <-]|].
  destruct (fold_left _ _ _) as [[L sum] last].
  destruct (_ =? 0) eqn:E; [done|]. apply Z.eqb_neq in E.
  assert (0 < u64 (100 * 2 * L)) by (destruct (fits_wrap 64 (100 * 2 * L)); lia).
  intros [= <-].
  assert (forall x k, 0 < k -> fits 64 (u64 x / k)) as Hf
    by (intros; apply quotient_fits; [by apply fits_wrap|done]).
  match goal with |- context [?a / u64 (100 * 2 * L)] =>
    assert (fits 64 (a / u64 (100 * 2 * L))) as H1 by by apply Hf end.
  match goal with |- context [u64 (?q * 67)] => set (p := q) in * end.
  pose proof (Hf (p * 67) 100 ltac:(lia)). pose proof (Hf (p * 150) 100 ltac:(lia)).
  pose proof (Hf (p * 108) 100 ltac:(lia)). unfold fits in *. destruct (sum <? _); lia.
Qed.

(** Whatever the algorithm, the difficulty is a 64-bit number. *)
Lemma getNextDifficulty_fits c version h ts cds d :
  getNextDifficulty c version h ts cds = Some d -> fits 64 d.
Proof.
  unfold getNextDifficulty. repeat case_match; try apply nextDifficultyV6_fits.
  4: intros [= <-]; apply nextDifficulty_fits.
  all: unfold nextDifficultyV5, nextDifficultyV4, nextDifficultyV3.
  all: case_match; [by intros [= <-]|]; case_match; destruct (lwma2_next _ _); [|done].
  all: intros [= <-]; by apply fits_wrap.
Qed.
