(* ===== verification/Upgrade.v ===== *)
(** * Hard forks

    Which block version is in force: [upgrade_manager.cpp] with the fixed
    heights of [upgrade_detector.cpp], and the vote counting detector of
    [upgrade_detector.h], whose state follows the chain as blocks are pushed
    and popped. *)

From S2P Require Import Prelude Config Types Currency.

(** ** [UpgradeManager] *)

Module UpgradeManager.

Record SimpleUpgradeDetector := mkSimpleUpgradeDetector {
  targetVersion : Z;
  upgradeIndex : Z }.

Definition makeUpgradeDetector (targetVersion upgradeIndex : Z) : SimpleUpgradeDetector :=
  mkSimpleUpgradeDetector targetVersion upgradeIndex.

(** [m_upgradeDetectors], in the order of the calls. *)
Definition t := list SimpleUpgradeDetector.

Definition addMajorBlockVersion (targetVersion upgradeHeight : Z) (m : t) : t :=
  m ++ [makeUpgradeDetector targetVersion upgradeHeight].

(** The loop over the reverse iterators. *)
Fixpoint version_loop (l : t) (blockIndex : Z) : Z :=
  match l with
  | [] => BLOCK_MAJOR_VERSION_1
  | d :: l => if upgradeIndex d <? blockIndex then targetVersion d else version_loop l blockIndex
  end.

Definition getBlockMajorVersion (m : t) (blockIndex : Z) : Z := version_loop (rev m) blockIndex.

(** The four upgrades the constructor of [Core] installs. *)
Definition core_upgrades (c : Currency) : t :=
  addMajorBlockVersion BLOCK_MAJOR_VERSION_5 (upgradeHeight c BLOCK_MAJOR_VERSION_5)
  (addMajorBlockVersion BLOCK_MAJOR_VERSION_4 (upgradeHeight c BLOCK_MAJOR_VERSION_4)
  (addMajorBlockVersion BLOCK_MAJOR_VERSION_3 (upgradeHeight c BLOCK_MAJOR_VERSION_3)
  (addMajorBlockVersion BLOCK_MAJOR_VERSION_2 (upgradeHeight c BLOCK_MAJOR_VERSION_2) []))).

(** What the assertion of [addMajorBlockVersion] maintains: target versions
    increase in the order of the calls, starting above version 1. *)
Definition ascending (m : t) : Prop :=
  StronglySorted (fun d e => targetVersion d < targetVersion e) m /\
  Forall (fun d => BLOCK_MAJOR_VERSION_1 < targetVersion d) m.

Lemma addMajorBlockVersion_ascending v h m :
  ascending m -> BLOCK_MAJOR_VERSION_1 < v ->
  Forall (fun d => targetVersion d < v) m -> ascending (addMajorBlockVersion v h m).
Proof.
  intros [Hs Hb] Hv Hl. split.
  - by apply StronglySorted_snoc.
  - apply Forall_app. split; [done|]. by repeat constructor.
Qed.

Lemma core_upgrades_ascending c : ascending (core_upgrades c).
Proof.
  unfold core_upgrades.
  repeat (apply addMajorBlockVersion_ascending; [|reflexivity|by repeat constructor]).
  split; constructor.
Qed.

(** The scan finds the detector of the highest version that is behind the
    block. *)
Lemma version_loop_spec m i :
  ascending m ->
  (forall d, d ∈ m -> upgradeIndex d < i -> targetVersion d <= getBlockMajorVersion m i) /\
  (getBlockMajorVersion m i = BLOCK_MAJOR_VERSION_1 \/
   exists d, d ∈ m /\ upgradeIndex d < i /\ getBlockMajorVersion m i = targetVersion d).
Proof.
  unfold getBlockMajorVersion. induction m as [|d m IH] using rev_ind; intros [Hs Hb].
  { split; [intros d Hd; by apply elem_of_nil in Hd|by left]. }
  apply StronglySorted_app in Hs as (Hx & Hm & _). apply Forall_app in Hb as [Hb Hd].
  rewrite rev_app_distr. cbn [rev app version_loop].
  destruct (_ <? _) eqn:E; bool_to_prop.
  - split.
    + intros e [He| ->%list_elem_of_singleton]%elem_of_app _; [|lia].
      specialize (Hx e d He (list_elem_of_here _ _)). lia.
    + right. exists d. split; [|done]. apply elem_of_app. right. by apply list_elem_of_singleton.
  - destruct (IH (conj Hm Hb)) as [H1 H2]. split.
    + intros e [He| ->%list_elem_of_singleton]%elem_of_app Hi; [by apply H1|lia].
    + destruct H2 as [?|(e & He & ?)]; [by left|].
      right. exists e. split; [|done]. apply elem_of_app. by left.
Qed.

Lemma getBlockMajorVersion_mono m i j :
  ascending m -> i <= j -> getBlockMajorVersion m i <= getBlockMajorVersion m j.
Proof.
  intros Hm Hij. destruct (version_loop_spec m i Hm) as [_ [->|(d & Hd & Hi & ->)]].
  - destruct (version_loop_spec m j Hm) as [_ [->|(e & He & _ & ->)]]; [done|].
    destruct Hm as [_ Hb]. rewrite Forall_forall in Hb. specialize (Hb e He). simpl in Hb. lia.
  - apply (version_loop_spec m j Hm); [done|lia].
Qed.

(** with upgrades
    registered in ascending order of version, the version in force never
    decreases with the height, every upgrade whose index lies behind a block
    is in force there, and the version is 1 or that of such an upgrade.  With
    the heights of the main network the versions are 1 up to index 1, then 2,
    3 and 4 for one block each, and 5 from index 5 on. *)
Theorem getBlockMajorVersion_correct m :
  ascending m ->
  (forall i j, i <= j -> getBlockMajorVersion m i <= getBlockMajorVersion m j) /\
  (forall i d, d ∈ m -> upgradeIndex d < i -> targetVersion d <= getBlockMajorVersion m i) /\
  (forall i, getBlockMajorVersion m i = BLOCK_MAJOR_VERSION_1 \/
     exists d, d ∈ m /\ upgradeIndex d < i /\ getBlockMajorVersion m i = targetVersion d) /\
  (forall i, getBlockMajorVersion (core_upgrades CurrencyBuilder) i =
     if i <=? 1 then 1 else Z.min i 5).
Proof.
  intros Hm. split; [intros; by apply getBlockMajorVersion_mono|].
  split; [intros i; by apply version_loop_spec|].
  split; [intros i; by apply version_loop_spec|].
  intros i. unfold getBlockMajorVersion. vm_compute (rev _).
  cbn [version_loop upgradeIndex targetVersion]. unfold BLOCK_MAJOR_VERSION_1. split_ifs; lia.
Qed.

Lemma getBlockMajorVersion_correct_witness :
  ascending (core_upgrades CurrencyBuilder) /\
  getBlockMajorVersion (core_upgrades CurrencyBuilder) 3 <=
    getBlockMajorVersion (core_upgrades CurrencyBuilder) 1000000.
Proof.
  split; [apply core_upgrades_ascending|].
  apply (proj1 (getBlockMajorVersion_correct _ (core_upgrades_ascending CurrencyBuilder))). lia.
Defined.

End UpgradeManager.

(** ** [BasicUpgradeDetector] *)

Module BasicUpgradeDetector.
Section Detector.

Context (m_currency : Currency) (m_targetVersion : Z).

(** [m_blockchain]: the headers of the chain, the genesis block first. *)
Abbreviation chain := (list BlockHeader).

Definition UNDEF_HEIGHT : Z := UINT32_MAX.

Definition upgradeVotingThreshold : Z := m_upgradeVotingThreshold m_currency.
Definition upgradeVotingWindow : Z := m_upgradeVotingWindow m_currency.
Definition minNumberVotingBlocks : Z :=
  u32 (u32 (upgradeVotingWindow * upgradeVotingThreshold) + 99) / 100.
Definition maxUpgradeDistance : Z := u32 (7 * m_upgradeWindow m_currency).
Definition calculateUpgradeHeight (voteCompleteHeight : Z) : Z :=
  u32 (voteCompleteHeight + m_upgradeWindow m_currency).

Definition is_vote (b : BlockHeader) : bool :=
  (majorVersion b =? m_targetVersion - 1) && (minorVersion b =? BLOCK_MINOR_VERSION_1).

(** The loop reads the [upgradeVotingWindow] blocks up to [height]. *)
Definition getNumberOfVotes (m_blockchain : chain) (height : Z) : Z :=
  if height <? u32 (upgradeVotingWindow - 1) then 0
  else
    let first := u32 (u32 (height + 1) - upgradeVotingWindow) in
    sumZ (map (fun i => match m_blockchain !! Z.to_nat i with
                        | Some b => if is_vote b then 1 else 0
                        | None => 0
                        end) (seqZ first (height + 1 - first))).

Definition isVotingComplete (m_blockchain : chain) (height : Z) : bool :=
  u32 (upgradeVotingThreshold * upgradeVotingWindow)
    <=? u64 (100 * getNumberOfVotes m_blockchain height).

Fixpoint find_complete (m_blockchain : chain) (i : Z) (count : nat) : Z :=
  match count with
  | O => UNDEF_HEIGHT
  | S count =>
      if isVotingComplete m_blockchain i then i else find_complete m_blockchain (i + 1) count
  end.

Definition findVotingCompleteHeight (m_blockchain : chain) (probableUpgradeHeight : Z) : Z :=
  let probableVotingCompleteHeight :=
    if maxUpgradeDistance <? probableUpgradeHeight
    then u32 (probableUpgradeHeight - maxUpgradeDistance) else 0 in
  find_complete m_blockchain probableVotingCompleteHeight
    (Z.to_nat (probableUpgradeHeight - probableVotingCompleteHeight + 1)).

(** [std::lower_bound] by version, on a chain whose versions do not decrease. *)
Definition lower_bound_version (m_blockchain : chain) : option (nat * BlockHeader) :=
  list_find (fun b => m_targetVersion <= majorVersion b) m_blockchain.

(** [init]: the new [m_votingCompleteHeight] and the result. *)
Definition init (m_blockchain : chain) (m_votingCompleteHeight : Z) : Z * bool :=
  let fixed := upgradeHeight m_currency m_targetVersion in
  let size := Z.of_nat (length m_blockchain) in
  if fixed =? UNDEF_HEIGHT then
    match last m_blockchain with
    | None => (UNDEF_HEIGHT, true)
    | Some back =>
        if m_targetVersion - 1 =? majorVersion back then
          (findVotingCompleteHeight m_blockchain (u32 (size - 1)), true)
        else if m_targetVersion <=? majorVersion back then
          match lower_bound_version m_blockchain with
          | None => (m_votingCompleteHeight, false)
          | Some (it, b) =>
              if negb (majorVersion b =? m_targetVersion) then (m_votingCompleteHeight, false)
              else
                let h := findVotingCompleteHeight m_blockchain (u32 (Z.of_nat it)) in
                (h, negb (h =? UNDEF_HEIGHT))
          end
        else (UNDEF_HEIGHT, true)
    end
  else
    (m_votingCompleteHeight,
     match last m_blockchain with
     | None => true
     | Some back =>
         if size <=? u32 (fixed + 1) then negb (m_targetVersion <=? majorVersion back)
         else
           match m_blockchain !! Z.to_nat fixed, m_blockchain !! Z.to_nat (u32 (fixed + 1)) with
           | Some at_, Some after =>
               (majorVersion at_ =? m_targetVersion - 1) && (majorVersion after =? m_targetVersion)
           | _, _ => false
           end
     end).

Definition detector_upgradeHeight (m_votingCompleteHeight : Z) : Z :=
  if upgradeHeight m_currency m_targetVersion =? UNDEF_HEIGHT then
    if m_votingCompleteHeight =? UNDEF_HEIGHT then UNDEF_HEIGHT
    else calculateUpgradeHeight m_votingCompleteHeight
  else upgradeHeight m_currency m_targetVersion.

(** The new [m_votingCompleteHeight] after a block was appended.  The other
    branches of the code only log and assert. *)
Definition blockPushed (m_blockchain : chain) (m_votingCompleteHeight : Z) : Z :=
  if negb (upgradeHeight m_currency m_targetVersion =? UNDEF_HEIGHT) then m_votingCompleteHeight
  else if negb (m_votingCompleteHeight =? UNDEF_HEIGHT) then m_votingCompleteHeight
  else
    let lastBlockHeight := u32 (Z.of_nat (length m_blockchain) - 1) in
    if isVotingComplete m_blockchain lastBlockHeight then lastBlockHeight
    else m_votingCompleteHeight.

(** The new [m_votingCompleteHeight] after the last block was removed. *)
Definition blockPopped (m_blockchain : chain) (m_votingCompleteHeight : Z) : Z :=
  if negb (m_votingCompleteHeight =? UNDEF_HEIGHT) then
    if Z.of_nat (length m_blockchain) =? m_votingCompleteHeight then UNDEF_HEIGHT
    else m_votingCompleteHeight
  else m_votingCompleteHeight.

(** A chain and the detector that watches it, as blocks come and go.  Heights
    stay below the reserved value [UNDEF_HEIGHT]. *)
Inductive reachable : chain -> Z -> Prop :=
  | reachable_start : reachable [] UNDEF_HEIGHT
  | reachable_push ch v b :
      reachable ch v -> Z.of_nat (length ch) < UNDEF_HEIGHT ->
      reachable (ch ++ [b]) (blockPushed (ch ++ [b]) v)
  | reachable_pop ch v b : reachable (ch ++ [b]) v -> reachable ch (blockPopped ch v).

(** The specification: the first height of the chain at which the vote is
    complete, or [UNDEF_HEIGHT]. *)
Definition first_complete (ch : chain) (v : Z) : Prop :=
  (v = UNDEF_HEIGHT /\
   forall h, 0 <= h < Z.of_nat (length ch) -> isVotingComplete ch h = false) \/
  (0 <= v < Z.of_nat (length ch) /\ isVotingComplete ch v = true /\
   forall h, 0 <= h < v -> isVotingComplete ch h = false).

(** ** The detector follows the first complete vote *)

(** Votes at a height do not depend on later blocks. *)
Lemma getNumberOfVotes_app ch ch' h :
  0 <= h < Z.of_nat (length ch) -> getNumberOfVotes (ch ++ ch') h = getNumberOfVotes ch h.
Proof.
  intros Hh. unfold getNumberOfVotes. destruct (_ <? _); [done|]. f_equal.
  set (first := u32 _). assert (0 <= first) by (apply (fits_wrap 32); lia).
  apply map_ext_in. intros i Hi. apply list_elem_of_In, elem_of_seqZ in Hi.
  by rewrite lookup_app_l by lia.
Qed.

Lemma isVotingComplete_app ch ch' h :
  0 <= h < Z.of_nat (length ch) -> isVotingComplete (ch ++ ch') h = isVotingComplete ch h.
Proof. intros Hh. unfold isVotingComplete. by rewrite getNumberOfVotes_app. Qed.

Context (Hvote : upgradeHeight m_currency m_targetVersion = UNDEF_HEIGHT).

Lemma blockPushed_first ch b v :
  Z.of_nat (length ch) < UNDEF_HEIGHT ->
  first_complete ch v -> first_complete (ch ++ [b]) (blockPushed (ch ++ [b]) v).
Proof.
  intros Hn Hv. unfold blockPushed. rewrite Hvote, Z.eqb_refl. cbn [negb].
  rewrite length_app. cbn [length].
  replace (Z.of_nat (length ch + 1) - 1) with (Z.of_nat (length ch)) by lia.
  rewrite wrap_small by (unfold UNDEF_HEIGHT in Hn; wordlia).
  destruct Hv as [[-> Hno]|(Hr & Hc & Hno)].
  - rewrite Z.eqb_refl. cbn [negb]. unfold first_complete. rewrite length_app. cbn [length].
    destruct (isVotingComplete _ (Z.of_nat (length ch))) eqn:E.
    + right. split; [lia|]. split; [done|].
      intros h Hh. rewrite isVotingComplete_app by lia. apply Hno. lia.
    + left. split; [done|]. intros h Hh.
      destruct (decide (h = Z.of_nat (length ch))) as [->|]; [done|].
      rewrite isVotingComplete_app by lia. apply Hno. lia.
  - replace (v =? UNDEF_HEIGHT) with false by (symmetry; apply Z.eqb_neq; lia). cbn [negb].
    right. rewrite length_app. split; [lia|]. rewrite isVotingComplete_app by lia.
    split; [done|]. intros h Hh. rewrite isVotingComplete_app by lia. by apply Hno.
Qed.

Lemma blockPopped_first ch b v :
  Z.of_nat (length ch) < UNDEF_HEIGHT ->
  first_complete (ch ++ [b]) v -> first_complete ch (blockPopped ch v).
Proof.
  unfold blockPopped. intros Hn.
  intros [[-> Hno]|(Hr & Hc & Hno)]; rewrite length_app in *; cbn [length] in *.
  - rewrite Z.eqb_refl. left. split; [done|]. intros h Hh.
    rewrite <- (isVotingComplete_app ch [b]) by lia. apply Hno. lia.
  - assert (forall h, 0 <= h < v -> h < Z.of_nat (length ch) -> isVotingComplete ch h = false)
      as Hno' by (intros; rewrite <- (isVotingComplete_app ch [b]) by lia; by apply Hno).
    replace (v =? UNDEF_HEIGHT) with false by (symmetry; apply Z.eqb_neq; lia). cbn [negb].
    destruct (_ =? _) eqn:E; bool_to_prop.
    + left. split; [done|]. intros h Hh. apply Hno'; lia.
    + right. split; [lia|]. rewrite <- (isVotingComplete_app ch [b]) by lia.
      split; [done|]. intros h Hh. apply Hno'; lia.
Qed.

Lemma reachable_first ch v :
  reachable ch v -> Z.of_nat (length ch) <= UNDEF_HEIGHT /\ first_complete ch v.
Proof.
  induction 1 as [|ch v b _ [_ IH] Hn|ch v b _ [Hn IH]].
  - split; [done|]. left. split; [done|]. simpl. lia.
  - split; [rewrite length_app; simpl; lia|]. by apply blockPushed_first.
  - rewrite length_app in Hn. simpl in Hn. split; [lia|].
    apply blockPopped_first with b; [lia|done].
Qed.

Lemma find_complete_spec ch i count v :
  0 <= i -> Z.of_nat (length ch) <= UNDEF_HEIGHT ->
  first_complete ch v -> i + Z.of_nat count = Z.of_nat (length ch) ->
  (v <> UNDEF_HEIGHT -> i <= v) -> find_complete ch i count = v.
Proof.
  intros Hi Hn Hv. revert i Hi. induction count as [|count IH]; intros i Hi Hc Hw; simpl.
  - destruct Hv as [[-> _]|(Hr & _)]; [done|].
    destruct (decide (v = UNDEF_HEIGHT)) as [->|Hne]; [done|]. specialize (Hw Hne). lia.
  - destruct (isVotingComplete ch i) eqn:E.
    + destruct Hv as [[-> Hno]|(Hr & Hc' & Hno)].
      * rewrite Hno in E by lia. done.
      * destruct (Z.lt_trichotomy i v) as [Hl|[?|Hl]]; [|done|].
        { rewrite Hno in E by lia. done. }
        { specialize (Hw ltac:(lia)). lia. }
    + apply IH; [lia|lia|]. intros Hne. specialize (Hw Hne).
      destruct Hv as [[-> _]|(_ & Hc' & _)]; [done|].
      destruct (decide (i = v)) as [->|]; [congruence|lia].
Qed.

Lemma init_first ch v back :
  0 <= maxUpgradeDistance -> Z.of_nat (length ch) <= UNDEF_HEIGHT -> first_complete ch v ->
  last ch = Some back -> majorVersion back = m_targetVersion - 1 ->
  (v <> UNDEF_HEIGHT -> Z.of_nat (length ch) - 1 <= v + maxUpgradeDistance) ->
  forall v0, init ch v0 = (v, true).
Proof.
  intros Hd Hn Hv Hb Hm Hw v0. unfold init. rewrite Hvote, Z.eqb_refl, Hb, Hm, Z.eqb_refl.
  f_equal. unfold findVotingCompleteHeight.
  assert (0 < length ch)%nat as Hl by (destruct ch; [done|simpl; lia]).
  rewrite (wrap_small 32 (_ - 1)) by (unfold UNDEF_HEIGHT in Hn; wordlia).
  destruct (_ <? _) eqn:E; bool_to_prop.
  - rewrite wrap_small by (unfold UNDEF_HEIGHT in Hn; wordlia).
    apply find_complete_spec; try done; lia.
  - apply find_complete_spec; try done; try lia.
    intros Hne. destruct Hv as [[-> _]|(? & _)]; [done|lia].
Qed.

End Detector.

(** Pushing a list of blocks from the empty chain. *)
Definition run_pushes (c : Currency) (target : Z) (bs : list BlockHeader) : list BlockHeader * Z :=
  fold_left (fun '(ch, v) b => (ch ++ [b], blockPushed c target (ch ++ [b]) v)) bs
    ([], UNDEF_HEIGHT).

Lemma run_pushes_reachable c target bs :
  Z.of_nat (length bs) <= UNDEF_HEIGHT ->
  (run_pushes c target bs).1 = bs /\ reachable c target bs (run_pushes c target bs).2.
Proof.
  induction bs as [|b bs IH] using rev_ind; intros Hn; [split; [done|constructor]|].
  rewrite length_app in Hn. cbn [length] in Hn.
  unfold run_pushes in *. rewrite fold_left_app. destruct (IH ltac:(lia)) as [H1 H2].
  destruct (fold_left _ bs _) as [ch v]. cbn in *. subst ch.
  split; [done|]. constructor; [done|lia].
Qed.

(** for a version
    decided by vote, after any sequence of blocks pushed to and popped from
    the chain, [m_votingCompleteHeight] is the first height of the current
    chain at which the vote is complete, [UNDEF_HEIGHT] exactly when there is
    none; and restarting on this chain before the upgrade takes effect, within
    [maxUpgradeDistance] blocks of the vote, [init] finds the same height
    again. *)
Theorem votingComplete_correct c target ch v :
  upgradeHeight c target = UNDEF_HEIGHT ->
  reachable c target ch v ->
  first_complete c target ch v /\
  (forall back v0, last ch = Some back -> majorVersion back = target - 1 ->
     (v <> UNDEF_HEIGHT -> Z.of_nat (length ch) - 1 <= v + maxUpgradeDistance c) ->
     init c target ch v0 = (v, true)).
Proof.
  intros Hvote Hr. destruct (reachable_first c target Hvote ch v Hr) as [Hn Hf].
  split; [done|]. intros back v0 Hb Hm Hw.
  eapply init_first; try done. apply (fits_wrap 32). lia.
Qed.

Definition vote_block : BlockHeader := mkBlockHeader 5 1 0 0 [].

Lemma votingComplete_correct_witness :
  reachable CurrencyBuilder 6 (replicate 960 vote_block) 959 /\
  init CurrencyBuilder 6 (replicate 960 vote_block) UNDEF_HEIGHT = (959, true).
Proof.
  assert (reachable CurrencyBuilder 6 (replicate 960 vote_block) 959) as Hr.
  { pose proof (run_pushes_reachable CurrencyBuilder 6 (replicate 960 vote_block)) as H.
    replace (run_pushes _ _ _).2 with 959 in H by (vm_compute; reflexivity).
    apply H. vm_compute. discriminate. }
  split; [exact Hr|].
  eapply (votingComplete_correct CurrencyBuilder 6 (replicate 960 vote_block) 959);
    [reflexivity|exact Hr|vm_compute; reflexivity|reflexivity|intros _; vm_compute; discriminate].
Defined.

End BasicUpgradeDetector.
