(* ===== verification/Mixins.v ===== *)
(** * Ring sizes

    [src/cryptonote_core/mixins.h]: the range of mixins allowed at a height
    and the check of a transaction against it.  Messages are dropped, error
    codes kept. *)

From S2P Require Import Prelude Config Types.
Import parameters.

Inductive MixinError := MIXIN_BELOW_THRESHOLD | MIXIN_ABOVE_THRESHOLD.

(** [(minMixin, maxMixin, defaultMixin)] *)
Definition getMixinAllowableRange (height : Z) : Z * Z * Z :=
  if MIXIN_LIMITS_V4_HEIGHT <=? height
  then (MINIMUM_MIXIN_V4, MAXIMUM_MIXIN_V4, DEFAULT_MIXIN_V4)
  else if MIXIN_LIMITS_V3_HEIGHT <=? height
  then (MINIMUM_MIXIN_V3, MAXIMUM_MIXIN_V3, DEFAULT_MIXIN_V3)
  else if MIXIN_LIMITS_V2_HEIGHT <=? height
  then (MINIMUM_MIXIN_V2, MAXIMUM_MIXIN_V2, DEFAULT_MIXIN_V2)
  else if MIXIN_LIMITS_V1_HEIGHT <=? height
  then (MINIMUM_MIXIN_V1, MAXIMUM_MIXIN_V1, DEFAULT_MIXIN_V1)
  else (0, UINT64_MAX, DEFAULT_MIXIN_V0).

(** [validate(mixin, height)], the wallets' version: [None] is success. *)
Definition validate_mixin (mixin height : Z) : option MixinError :=
  let '(minMixin, maxMixin, _) := getMixinAllowableRange height in
  if mixin <? minMixin then Some MIXIN_BELOW_THRESHOLD
  else if maxMixin <? mixin then Some MIXIN_ABOVE_THRESHOLD
  else None.

(** The loop over the inputs; inputs that spend no output are skipped. *)
Definition ringSize (t : Transaction) : Z :=
  fold_left (fun ringSize i =>
    match i with
    | KeyInput _ outputIndexes _ =>
        let currentRingSize := Z.of_nat (length outputIndexes) in
        if ringSize <? currentRingSize then currentRingSize else ringSize
    | BaseInput _ => ringSize
    end) (inputs (prefix t)) 1.

(** [validate(transaction, minMixin, maxMixin)] *)
Definition validate_transaction (t : Transaction) (minMixin maxMixin : Z) : bool :=
  let mixin := ringSize t - 1 in
  if maxMixin <? mixin then false else if mixin <? minMixin then false else true.

(** [validate(transactions, height)] *)
Definition validate_transactions (l : list Transaction) (height : Z) : bool :=
  let '(minMixin, maxMixin, _) := getMixinAllowableRange height in
  forallb (fun t => validate_transaction t minMixin maxMixin) l.

(** The rings of a transaction. *)
Definition ring_sizes (t : Transaction) : list Z :=
  omap (fun i => match i with
                 | KeyInput _ idx _ => Some (Z.of_nat (length idx))
                 | _ => None
                 end) (inputs (prefix t)).

Lemma ringSize_max t : ringSize t = fold_right Z.max 1 (ring_sizes t).
Proof.
  unfold ringSize, ring_sizes. generalize 1 as r.
  induction (inputs (prefix t)) as [|[b|a idx ki] l IH]; intros r; cbn; [done|apply IH|].
  rewrite IH. clear IH.
  set (n := Z.of_nat (length idx)).
  induction (omap _ l) as [|m k IHk]; cbn; [destruct (r <? n) eqn:E; bool_to_prop; lia|lia].
Qed.

Lemma ringSize_bounds t :
  1 <= ringSize t /\ (forall n, n ∈ ring_sizes t -> n <= ringSize t) /\
  (ringSize t = 1 \/ ringSize t ∈ ring_sizes t).
Proof.
  rewrite ringSize_max. induction (ring_sizes t) as [|n l (H1 & H2 & H3)]; cbn.
  { split; [lia|]. split; [intros n Hn; by apply elem_of_nil in Hn|by left]. }
  split; [lia|]. split.
  - intros m [->|Hm]%elem_of_cons; [lia|]. specialize (H2 m Hm). lia.
  - destruct (Z.max_spec n (fold_right Z.max 1 l)) as [[_ ->]|[_ ->]].
    + destruct H3 as [->|]; [by left|right; by apply elem_of_cons; right].
    + right. apply elem_of_cons. by left.
Qed.

(** a list of transactions passes the check
    at a height exactly when, for each of them, no ring exceeds the maximum
    mixin and, where the minimum mixin is above 0, some ring reaches the
    minimum. *)
Theorem mixin_check_correct l height minMixin maxMixin defaultMixin :
  getMixinAllowableRange height = (minMixin, maxMixin, defaultMixin) ->
  (validate_transactions l height = true <->
   forall t, t ∈ l ->
     (forall n, n ∈ ring_sizes t -> n <= maxMixin + 1) /\
     (minMixin = 0 \/ exists n, n ∈ ring_sizes t /\ minMixin + 1 <= n)).
Proof.
  intros Hr. unfold validate_transactions. rewrite Hr, forallb_forall.
  assert (0 <= minMixin /\ 0 <= maxMixin) as Hmm.
  { revert Hr. unfold getMixinAllowableRange. split_ifs; intros [= <- <- _]; by vm_compute. }
  setoid_rewrite <- list_elem_of_In.
  split; intros H t Ht; specialize (H t Ht);
    unfold validate_transaction in *; destruct (ringSize_bounds t) as (H1 & H2 & H3).
  - destruct (maxMixin <? _) eqn:E1; [done|]. destruct (_ <? minMixin) eqn:E2; [done|].
    bool_to_prop. split; [intros n Hn; specialize (H2 n Hn); lia|].
    destruct H3 as [H3|H3]; [left; lia|right; exists (ringSize t); split; [done|lia]].
  - destruct H as [Ha Hb]. split_ifs; [|exfalso|done].
    + destruct H3 as [H3|H3]; [lia|]. specialize (Ha _ H3). lia.
    + destruct Hb as [->|(n & Hn & Hl)]; [lia|]. specialize (H2 n Hn). lia.
Qed.

Definition ring_tx (rings : list nat) : Transaction :=
  mkTransaction (mkTransactionPrefix 1 0
    (map (fun n => KeyInput 100 (replicate n 1) (replicate 32 0)) rings) [] []) [].

Lemma mixin_check_correct_witness :
  validate_transactions [ring_tx [4; 4]%nat] 900000 = true /\
  (forall n, n ∈ ring_sizes (ring_tx [4; 4]%nat) -> n <= 4).
Proof.
  split; [reflexivity|].
  apply (proj1 (mixin_check_correct [ring_tx [4; 4]%nat] 900000 3 3 3 eq_refl) eq_refl).
  apply list_elem_of_here.
Defined.

(** the minimum mixin is compared
    with the largest ring only.  At every height from 620000 on, where a
    minimum above 0 is in force, a transaction with one ring of the required
    size passes although its other input names its real output alone. *)
Theorem mixin_minimum_not_per_input height :
  MIXIN_LIMITS_V2_HEIGHT <= height ->
  let '(minMixin, _, _) := getMixinAllowableRange height in
  let t := ring_tx [1%nat; Z.to_nat (minMixin + 1)] in
  0 < minMixin /\ 1 ∈ ring_sizes t /\ validate_transactions [t] height = true.
Proof.
  intros Hh. unfold validate_transactions, getMixinAllowableRange.
  replace (MIXIN_LIMITS_V2_HEIGHT <=? height) with true by (symmetry; by apply Z.leb_le).
  destruct (MIXIN_LIMITS_V4_HEIGHT <=? height); [|destruct (MIXIN_LIMITS_V3_HEIGHT <=? height)];
    (split; [reflexivity|]; split; [apply list_elem_of_here|reflexivity]).
Qed.

Lemma mixin_minimum_not_per_input_witness :
  validate_transactions [ring_tx [1; 2]%nat] 1300000 = true.
Proof.
  apply (mixin_minimum_not_per_input 1300000). vm_compute. discriminate.
Defined.
