(* ===== verification/Checkpoints.v ===== *)
(** * Checkpoints

    [src/cryptonote_core/checkpoints.cpp]: the table of known block hashes,
    the file it is loaded from, and the two questions the core asks it. *)

From Stdlib Require Import String.
From S2P Require Import Prelude Bytes StringTools Types Block.
#[local] Open Scope list_scope.
#[local] Open Scope Z_scope.

(** [std::map<uint32_t, crypto::Hash> points] *)
Abbreviation Points := (gmap Z Hash).

(** [None] is the result [false], which leaves the table as it was. *)
Definition addCheckpoint (index : Z) (hash_str : list Z) (points : Points) : option Points :=
  match podFromHex 32 hash_str with
  | None => None
  | Some h =>
      match points !! index with
      | Some _ => None
      | None => Some (<[index := h]> points)
      end
  end.

(** [std::stoull]: leading white space, an optional sign, decimal digits;
    what follows the digits is ignored. *)
Inductive StoullResult := Value (n : Z) | OutOfRange | InvalidArgument.

Definition is_digit (c : Z) : bool := (48 <=? c) && (c <=? 57).

Fixpoint digits_value (text : list Z) (acc : Z) : Z :=
  match text with
  | c :: rest => if is_digit c then digits_value rest (10 * acc + (c - 48)) else acc
  | [] => acc
  end.

Definition stoull_digits (text : list Z) (negative : bool) : StoullResult :=
  match text with
  | c :: _ =>
      if is_digit c then
        let n := digits_value text 0 in
        if UINT64_MAX <? n then OutOfRange else Value (if negative then u64 (- n) else n)
      else InvalidArgument
  | [] => InvalidArgument
  end.

Definition stoull (text : list Z) : StoullResult :=
  match leftTrim text with
  | 43 :: rest => stoull_digits rest false
  | 45 :: rest => stoull_digits rest true
  | rest => stoull_digits rest false
  end.

(** The loop of [loadCheckpointsFromFile] on the unread part of the file.
    [getline] up to the comma fails the condition when there is none, and
    [getline] up to the end of the line when nothing is left.  [index] keeps
    its value from line to line; every turn consumes the comma, so the length
    of the text is enough [fuel]. *)
Fixpoint load_loop (fuel : nat) (file : list Z) (index : Z) (points : Points) : option Points :=
  match fuel with
  | O => Some points
  | S fuel =>
      match find_from 44 file 0 with
      | None => Some points
      | Some comma =>
          let indexString := take comma file in
          match drop (comma + 1) file with
          | [] => Some points
          | rest =>
              let '(hash, file) := extract rest 10 in
              let add index :=
                match addCheckpoint (u32 index) hash points with
                | None => None
                | Some points => load_loop fuel file index points
                end in
              match stoull indexString with
              | Value n => add n
              | OutOfRange => add index
              | InvalidArgument => None
              end
          end
      end
  end.

(** [uninit] is the value of [index] before its first assignment. *)
Definition loadCheckpointsFromFile (uninit : Z) (file : option (list Z)) (points : Points)
  : option Points :=
  match file with
  | None => None
  | Some text => load_loop (length text) text uninit points
  end.

(** [(--points.end())->first], the largest index. *)
Definition last_index (points : Points) : Z := fold_right Z.max 0 (map_to_list points).*1.

Definition isInCheckpointZone (points : Points) (index : Z) : bool :=
  negb (bool_decide (points = ∅)) && (index <=? last_index points).

(** The result and [isCheckpoint]. *)
Definition checkBlock (points : Points) (index : Z) (h : Hash) : bool * bool :=
  match points !! index with
  | None => (true, false)
  | Some expected => (bool_decide (expected = h), true)
  end.

(** ** Lines of a file *)

(** One line [index,hash] of a checkpoints file. *)
Definition checkpoint_line (e : list Z * Hash) : list Z := e.1 ++ [44] ++ podToHex e.2 ++ [10].

(** A line the format allows: a decimal number of 32 bits and a hash. *)
Definition entry_ok (i : Z) (e : list Z * Hash) : Prop :=
  stoull e.1 = Value i /\ fits 32 i /\ (44 ∉ e.1) /\ pod_ok 32 e.2.

Lemma find_from_0_app (d : Z) l1 l2 :
  d ∉ l1 -> find_from d (l1 ++ d :: l2) 0 = Some (length l1).
Proof.
  intros Hd. unfold find_from. rewrite drop_0.
  rewrite (proj2 (list_find_Some _ _ (length l1) d)); [done|].
  split; [by rewrite list_lookup_middle|]. split; [done|].
  intros j y Hj Hlt ->. rewrite lookup_app_l in Hj by done.
  by apply Hd, list_elem_of_lookup_2 with j.
Qed.

Lemma toHex_no_newline data : bytes_ok data -> 10 ∉ toHex data.
Proof.
  unfold toHex. induction 1 as [|b data Hb Hd IH]; [apply not_elem_of_nil|].
  cbn [map concat app]. destruct (nibbles b Hb) as (H1 & H2 & _).
  assert (forall v, 0 <= v < 16 -> 10 <> hex_digit v) as H.
  { intros v Hv E. pose proof (fromHex_char_digit v Hv) as Hf. rewrite <- E in Hf. done. }
  intros [E|[E|E]%elem_of_cons]%elem_of_cons; [by apply (H _ H1)|by apply (H _ H2)|done].
Qed.

Lemma drop_past (d : Z) l1 l2 : drop (length l1 + 1) (l1 ++ d :: l2) = l2.
Proof. rewrite drop_app_ge by lia. by replace (length l1 + 1 - length l1)%nat with 1%nat by lia. Qed.

Lemma extract_line l1 l2 : 10 ∉ l1 -> extract (l1 ++ 10 :: l2) 10 = (l1, l2).
Proof.
  intros H. unfold extract. rewrite find_from_0_app by done.
  rewrite take_app_length. f_equal.
  apply drop_past.
Qed.

(** One line of the file and its effect on the table. *)
Lemma load_loop_line fuel e i index rest points :
  entry_ok i e ->
  load_loop (S fuel) (checkpoint_line e ++ rest) index points =
    match points !! i with
    | Some _ => None
    | None => load_loop fuel rest i (<[i := e.2]> points)
    end.
Proof.
  intros (Hs & Hi & Hc & Hp). unfold checkpoint_line. rewrite <- !app_assoc.
  cbn [load_loop app]. rewrite find_from_0_app by done. rewrite take_app_length, drop_past.
  destruct (podToHex e.2 ++ 10 :: rest) as [|x y] eqn:E; [by destruct (podToHex e.2)|].
  rewrite <- E, extract_line by (apply toHex_no_newline, Hp).
  rewrite Hs, wrap_small by done. unfold addCheckpoint.
  rewrite podFromHex_toHex by done. by destruct (points !! i).
Qed.

(** The table after the lines of [entries], in their order. *)
Definition table (entries : list (Z * (list Z * Hash))) (points : Points) : Points :=
  fold_left (fun points e => <[e.1 := e.2.2]> points) entries points.

Definition file_of (entries : list (Z * (list Z * Hash))) : list Z :=
  concat (map (fun e => checkpoint_line e.2) entries).

Lemma load_loop_file entries fuel index points :
  Forall (fun e => entry_ok e.1 e.2) entries -> NoDup entries.*1 ->
  (forall i, i ∈ entries.*1 -> points !! i = None) ->
  (length entries <= fuel)%nat ->
  load_loop fuel (file_of entries) index points = Some (table entries points).
Proof.
  revert fuel index points. induction entries as [|[i e] entries IH]; intros fuel index points Hok.
  { intros. by destruct fuel. }
  apply Forall_cons in Hok as [He Hok]. intros [Hi Hnd]%NoDup_cons Hnew Hf.
  destruct fuel as [|fuel]; [simpl in Hf; lia|].
  change (file_of ((i, e) :: entries)) with (checkpoint_line e ++ file_of entries).
  rewrite (load_loop_line fuel e i) by done. rewrite Hnew by apply list_elem_of_here.
  apply IH; [done|done| |simpl in Hf; lia].
  intros j Hj. rewrite lookup_insert_ne by (intros ->; done).
  apply Hnew. apply elem_of_cons. by right.
Qed.

Lemma lookup_table entries points i h :
  NoDup entries.*1 -> (forall i, i ∈ entries.*1 -> points !! i = None) ->
  table entries points !! i = Some h <->
  points !! i = Some h \/ exists s, (i, (s, h)) ∈ entries.
Proof.
  revert points. induction entries as [|[j [s k]] entries IH]; intros points Hnd Hnew.
  { simpl. split; [by left|]. intros [?|[? H]]; [done|]. by apply elem_of_nil in H. }
  apply NoDup_cons in Hnd as [Hj Hnd].
  change (table ((j, (s, k)) :: entries) points) with (table entries (<[j := k]> points)).
  rewrite IH; [|done|].
  - rewrite lookup_insert_Some. setoid_rewrite elem_of_cons. split.
    + intros [[[-> ->]|[? ?]]|[s' Hs']]; [right; exists s; by left|by left|right; exists s'; by right].
    + intros [H|[s' [[= -> -> ->]|H]]]; [|by left; left|right; by exists s'].
      left. right. split; [|done]. intros ->. rewrite Hnew in H; [done|apply list_elem_of_here].
  - intros l Hl. rewrite lookup_insert_ne by (intros ->; done).
    apply Hnew. apply elem_of_cons. by right.
Qed.

Lemma length_file_of entries : (length entries <= length (file_of entries))%nat.
Proof.
  induction entries as [|[i e] entries IH]; [done|]. unfold file_of in *. cbn [map concat length].
  rewrite length_app. unfold checkpoint_line at 1. rewrite !length_app. simpl. lia.
Qed.

(** Indices do not get below 0, so the largest one bounds the zone. *)
Lemma isInCheckpointZone_spec points index :
  (forall i h, points !! i = Some h -> 0 <= i) ->
  isInCheckpointZone points index = true <-> exists i h, points !! i = Some h /\ index <= i.
Proof.
  intros Hpos. unfold isInCheckpointZone, last_index. rewrite andb_true_iff, negb_true_iff,
    bool_decide_eq_false, Z.leb_le.
  assert (forall i, i ∈ (map_to_list points).*1 <-> exists h, points !! i = Some h) as Hk.
  { intros i. rewrite list_elem_of_fmap. split.
    - intros ([j h] & -> & H). apply elem_of_map_to_list in H. by exists h.
    - intros [h H]. exists (i, h). by rewrite elem_of_map_to_list. }
  assert (forall l, fold_right Z.max 0 l = 0 \/ fold_right Z.max 0 l ∈ l) as Hmax.
  { induction l as [|x l IHl]; [by left|]. cbn [fold_right]. rewrite elem_of_cons.
    destruct (Z.max_spec x (fold_right Z.max 0 l)) as [[_ ->]|[_ ->]]; tauto. }
  assert (forall l x, x ∈ l -> x <= fold_right Z.max 0 l) as Hle.
  { induction l as [|y l IHl]; intros x; [by intros ?%elem_of_nil|].
    cbn [fold_right]. intros [->|Hx]%elem_of_cons; [lia|]. specialize (IHl x Hx). lia. }
  split.
  - intros [Hne Hi]. destruct (Hmax (map_to_list points).*1) as [E|E].
    + apply map_choose in Hne as (j & h & Hj). specialize (Hpos j h Hj). exists j, h. split; [done|lia].
    + apply Hk in E as [h Hh]. by exists (fold_right Z.max 0 (map_to_list points).*1), h.
  - intros (i & h & Hi & Hle'). split; [intros ->; by rewrite lookup_empty in Hi|].
    specialize (Hle (map_to_list points).*1 i (proj2 (Hk i) (ex_intro _ h Hi))). lia.
Qed.

(** loading a well-formed file with
    distinct indices succeeds, and the table then answers exactly by the
    file: a block passes [checkBlock] unless the file names another hash for
    its index, [isCheckpoint] says whether the file names its index, and the
    checkpoint zone reaches up to the last index of the file. *)
Theorem checkpoints_correct entries uninit :
  Forall (fun e => entry_ok e.1 e.2) entries -> NoDup entries.*1 ->
  exists points,
    loadCheckpointsFromFile uninit (Some (file_of entries)) ∅ = Some points /\
    (forall index h, (checkBlock points index h).1 = true <->
       forall s h', (index, (s, h')) ∈ entries -> h' = h) /\
    (forall index h, (checkBlock points index h).2 = true <-> index ∈ entries.*1) /\
    (forall index, isInCheckpointZone points index = true <->
       exists i, i ∈ entries.*1 /\ index <= i).
Proof.
  intros Hok Hnd. exists (table entries ∅).
  assert (forall i h, table entries ∅ !! i = Some h <-> exists s, (i, (s, h)) ∈ entries) as Hl.
  { intros i h. rewrite lookup_table by (done || intros; apply lookup_empty).
    rewrite lookup_empty. split; [by intros [?|?]|by right]. }
  assert (forall i, i ∈ entries.*1 <-> exists h, table entries ∅ !! i = Some h) as Hk.
  { intros i. setoid_rewrite Hl. rewrite list_elem_of_fmap. split.
    - intros ([j [s h]] & -> & H). by exists h, s.
    - intros (h & s & H). by exists (i, (s, h)). }
  split; [|split; [|split]].
  - apply load_loop_file; [done|done|intros; apply lookup_empty|apply length_file_of].
  - intros index h. unfold checkBlock. destruct (_ !! index) as [e|] eqn:E; cbn.
    + rewrite bool_decide_eq_true. split.
      * intros -> s h' Hin. assert (table entries ∅ !! index = Some h') as E' by (apply Hl; by exists s).
        congruence.
      * intros H. apply Hl in E as [s Hs]. by apply H in Hs.
    + split; [|done]. intros _ s h' Hin.
      assert (table entries ∅ !! index = Some h') as E' by (apply Hl; by exists s). congruence.
  - intros index h. unfold checkBlock. rewrite Hk. destruct (_ !! index) as [e|] eqn:E; cbn.
    + split; [by exists e|done].
    + split; [done|]. by intros [? ?].
  - intros index. rewrite isInCheckpointZone_spec.
    + setoid_rewrite Hk. split; intros (i & ?); exists i; [destruct H as (h & ? & ?); eauto|].
      destruct H as [[h ?] ?]. by exists h.
    + intros i h [s Hs]%Hl. rewrite Forall_forall in Hok. by apply Hok in Hs as (_ & [? _] & _).
Qed.

Lemma checkpoints_correct_witness :
  let h := replicate 32 171 in
  let entries := [(5000, (str "5000", h)); (0, (str "0", replicate 32 1))] in
  exists points,
    loadCheckpointsFromFile 77 (Some (file_of entries)) ∅ = Some points /\
    isInCheckpointZone points 4999 = true.
Proof.
  intros h entries.
  assert (Forall (fun e => entry_ok e.1 e.2) entries) as Hok.
  { repeat constructor; try by vm_compute.
    all: try (apply (bool_decide_unpack _); vm_compute; exact I). }
  destruct (checkpoints_correct entries 77 Hok) as (points & H1 & _ & _ & H4).
  { apply (bool_decide_unpack _); vm_compute; exact I. }
  exists points. split; [exact H1|]. apply H4. exists 5000. split; [|lia].
  apply list_elem_of_here.
Defined.

(** The index is read as 64 bits and stored as 32: a line for block 2^32
    installs a checkpoint for the genesis block. *)
Lemma checkpoint_index_truncated h points :
  pod_ok 32 h -> points !! 0 = None ->
  loadCheckpointsFromFile 0 (Some (str "4294967296," ++ podToHex h)) points
    = Some (<[0 := h]> points).
Proof.
  intros Hh Hp. unfold loadCheckpointsFromFile.
  assert (exists n, length (str "4294967296," ++ podToHex h) = S (S n)) as [n ->].
  { exists (9 + length (podToHex h))%nat. rewrite length_app. reflexivity. }
  cbn [load_loop].
  change (str "4294967296," ++ podToHex h) with (str "4294967296" ++ 44 :: podToHex h).
  rewrite find_from_0_app by (apply (bool_decide_unpack _); vm_compute; exact I).
  rewrite take_app_length, drop_past.
  destruct (podToHex h) as [|x y] eqn:E.
  { destruct Hh as [Hh _]. apply (f_equal length) in E. unfold podToHex in E.
    rewrite length_toHex, Hh in E. done. }
  rewrite <- E. unfold extract at 1. unfold find_from at 1. rewrite drop_0.
  rewrite (proj2 (list_find_None _ _)).
  2:{ apply Forall_forall. intros c Hc <-. by apply (toHex_no_newline h (proj2 Hh)). }
  change (stoull (str "4294967296")) with (Value 4294967296).
  unfold addCheckpoint. rewrite podFromHex_toHex by done.
  change (u32 4294967296) with 0. rewrite Hp. done.
Qed.

(** A line whose index does not fit 64 bits is reported, but installed all the
    same, under the value [index] happens to have. *)
Lemma checkpoint_out_of_range_installed :
  loadCheckpointsFromFile 7 (Some (str "99999999999999999999," ++ podToHex (replicate 32 1))) ∅
    = Some {[7 := replicate 32 1]}.
Proof. vm_compute. reflexivity. Qed.
