(* ===== verification/BlockchainCache.v ===== *)
(** * Chain segments: data and operations

    [src/cryptonote_core/blockchain_cache.cpp] and [blockchain_cache.h]: a
    segment of the block tree kept in memory, with its index of transactions,
    spent key images, outputs by amount and payment ids.  A segment asks its
    [parent] for what lies below its first block, so a cache is modelled as
    the path of segments from it to the root: [this :: parents].  Assertions
    are those of a release build, that is, not evaluated; following a null
    pointer, an index out of range and an exception are [None].  What the
    operations guarantee is proved in [CacheFacts]. *)

From S2P Require Import Prelude Config Bytes Types TxExtra Serialization Block Search Median.
From S2P Require Import Currency Difficulty Upgrade.

Record PackedOutIndex := mkPackedOutIndex {
  po_blockIndex : Z;
  po_transactionIndex : Z;
  po_outputIndex : Z }.

Record CachedTransactionInfo := mkCachedTransactionInfo {
  ti_blockIndex : Z;
  ti_transactionIndex : Z;
  ti_transactionHash : Hash;
  ti_unlockTime : Z;
  ti_outputs : list TransactionOutputTarget;
  ti_globalIndexes : list Z }.

Record CachedBlockInfo := mkCachedBlockInfo {
  bi_blockHash : Hash;
  bi_timestamp : Z;
  bi_cumulativeDifficulty : Z;
  bi_alreadyGeneratedCoins : Z;
  bi_alreadyGeneratedTransactions : Z;
  bi_blockSize : Z }.

Record OutputGlobalIndexesForAmount := mkOutputGlobalIndexes {
  ga_startIndex : Z;
  ga_outputs : list PackedOutIndex }.

(** [TransactionValidatorState], a set of key images. *)
Abbreviation TransactionValidatorState := (gset KeyImage).

Record PushedBlockInfo := mkPushedBlockInfo {
  pi_rawBlock : RawBlock;
  pi_validatorState : TransactionValidatorState;
  pi_blockSize : Z;
  pi_generatedCoins : Z;
  pi_blockDifficulty : Z }.

(** [CachedBlock] and [CachedTransaction] carry the hashes computed in
    [Block]; here they come with the object. *)
Record CachedBlock := mkCachedBlock {
  cb_block : BlockTemplate;
  cb_hash : Hash;
  cb_baseHash : Hash }.

Record CachedTx := mkCachedTx {
  ct_transaction : Transaction;
  ct_hash : Hash;
  ct_binaryArray : list Z }.

(** The members of [BlockchainCache] that hold the state of a segment. *)
Record Segment := mkSegment {
  startIndex : Z;
  transactions : list CachedTransactionInfo;
  spentKeyImages : gmap KeyImage Z;
  blockInfos : list CachedBlockInfo;
  keyOutputsGlobalIndexes : gmap Z OutputGlobalIndexesForAmount;
  paymentIds : list (Hash * Hash);
  storage : list RawBlock }.

Definition empty_segment (start : Z) : Segment := mkSegment start [] ∅ [] ∅ [] [].

Inductive ExtractOutputKeysResult := SUCCESS | INVALID_GLOBAL_INDEX | OUTPUT_LOCKED.

#[global] Instance PackedOutIndex_eq_dec : EqDecision PackedOutIndex.
Proof. solve_decision. Defined.
#[global] Instance CachedTransactionInfo_eq_dec : EqDecision CachedTransactionInfo.
Proof. solve_decision. Defined.
#[global] Instance CachedBlockInfo_eq_dec : EqDecision CachedBlockInfo.
Proof. solve_decision. Defined.

(** A cache: the segment and its parents, up to the root. *)
Abbreviation Cache := (list Segment).

(** ** Queries *)

Definition getBlockCount (s : Segment) : Z := u32 (Z.of_nat (length (blockInfos s))).

Definition segment_top (s : Segment) : Z :=
  u32 (startIndex s + u32 (Z.of_nat (length (blockInfos s))) - 1).

Definition getTopBlockIndex (c : Cache) : option Z :=
  match c with s :: _ => Some (segment_top s) | [] => None end.

Definition getTopBlockHash (c : Cache) : option Hash :=
  match c with s :: _ => bi_blockHash <$> last (blockInfos s) | [] => None end.

Definition hasBlock (s : Segment) (blockHash : Hash) : bool :=
  bool_decide (blockHash ∈ bi_blockHash <$> blockInfos s).

(** [None] is the exception [no such block]. *)
Definition getBlockIndex (s : Segment) (blockHash : Hash) : option Z :=
  match list_find (fun b => bi_blockHash b = blockHash) (blockInfos s) with
  | Some (i, _) => Some (u32 (u32 (Z.of_nat i) + startIndex s))
  | None => None
  end.

Fixpoint getBlockHash (c : Cache) (blockIndex : Z) : option Hash :=
  match c with
  | [] => None
  | s :: parents =>
      if blockIndex <? startIndex s then getBlockHash parents blockIndex
      else bi_blockHash <$> blockInfos s !! Z.to_nat (blockIndex - startIndex s)
  end.

(** The elements [start .. start + count - 1] read one by one. *)
Definition slice {A} (l : list A) (start count : Z) : option (list A) :=
  if Z.of_nat (length l) <? start + count then None
  else Some (take (Z.to_nat count) (drop (Z.to_nat start) l)).

Fixpoint getBlockHashes (c : Cache) (startBlockIndex maxCount : Z) : option (list Hash) :=
  match c with
  | [] => None
  | s :: parents =>
      let size := Z.of_nat (length (blockInfos s)) in
      if startBlockIndex <? startIndex s then
        hashes ← getBlockHashes parents startBlockIndex maxCount;
        own ← slice (blockInfos s) 0 (Z.min (u64 (maxCount - Z.of_nat (length hashes))) size);
        Some (hashes ++ map bi_blockHash own)
      else
        let start := startBlockIndex - startIndex s in
        own ← slice (blockInfos s) start (Z.min (u64 (size - start)) maxCount);
        Some (map bi_blockHash own)
  end.

(** [checkIfSpent(keyImage, blockIndex)] *)
Fixpoint checkIfSpent (c : Cache) (keyImage : KeyImage) (blockIndex : Z) : bool :=
  match c with
  | [] => false
  | s :: parents =>
      if blockIndex <? startIndex s then checkIfSpent parents keyImage blockIndex
      else
        match spentKeyImages s !! keyImage with
        | None => checkIfSpent parents keyImage blockIndex
        | Some index => index <=? blockIndex
        end
  end.

(** [checkIfSpent(keyImage)] *)
Fixpoint checkIfSpent_any (c : Cache) (keyImage : KeyImage) : bool :=
  match c with
  | [] => false
  | s :: parents =>
      if bool_decide (is_Some (spentKeyImages s !! keyImage)) then true
      else checkIfSpent_any parents keyImage
  end.

(** Outputs of [amount] in blocks below [blockIndex]. *)
Fixpoint getKeyOutputsCountForAmount (c : Cache) (amount blockIndex : Z) : Z :=
  match c with
  | [] => 0
  | s :: parents =>
      match keyOutputsGlobalIndexes s !! amount with
      | None => getKeyOutputsCountForAmount parents amount blockIndex
      | Some e =>
          ga_startIndex e +
          Z.of_nat (lower_bound (fun o => po_blockIndex o <? blockIndex) (ga_outputs e))
      end
  end.

(** The result of [getBlockHeightForTimestamp]; [None] where it is [false]. *)
Fixpoint getBlockHeightForTimestamp (c : Cache) (timestamp : Z) : option Z :=
  match c with
  | [] => None
  | s :: parents =>
      match blockInfos s, last (blockInfos s) with
      | front :: _, Some back =>
          if bi_timestamp back <? timestamp then None
          else if timestamp <=? bi_timestamp front then
            Some (startIndex s +
              Z.of_nat (lower_bound (fun b => bi_timestamp b <? timestamp) (blockInfos s)))
          else getBlockHeightForTimestamp parents timestamp
      | _, _ => None
      end
  end.

(** [None] is the exception [no blocks for this timestamp]. *)
Fixpoint getTimestampLowerBoundBlockIndex (c : Cache) (timestamp : Z) : option Z :=
  match c with
  | [] => None
  | s :: parents =>
      match blockInfos s, last (blockInfos s) with
      | front :: _, Some back =>
          if bi_timestamp back <? timestamp then None
          else if bi_timestamp front <? timestamp then
            Some (u32 (startIndex s + u32 (Z.of_nat
              (lower_bound (fun b => bi_timestamp b <? timestamp) (blockInfos s)))))
          else
            match parents with
            | [] => Some 0
            | _ =>
                match getTimestampLowerBoundBlockIndex parents timestamp with
                | Some blockIndex =>
                    if negb (blockIndex =? UINT32_MAX) then Some blockIndex
                    else Some (startIndex s)
                | None => Some (startIndex s)
                end
            end
      | _, _ => None
      end
  end.

Definition find_transaction (s : Segment) (transactionHash : Hash) : option CachedTransactionInfo :=
  snd <$> list_find (fun t => ti_transactionHash t = transactionHash) (transactions s).

(** Lookup by [TransactionInBlockTag]. *)
Definition find_transaction_at (s : Segment) (blockIndex transactionIndex : Z)
  : option CachedTransactionInfo :=
  snd <$> list_find (fun t => ti_blockIndex t = blockIndex /\ ti_transactionIndex t = transactionIndex)
            (transactions s).

Definition getTransactionGlobalIndexes (s : Segment) (transactionHash : Hash) : option (list Z) :=
  ti_globalIndexes <$> find_transaction s transactionHash.

Definition hasTransaction (s : Segment) (transactionHash : Hash) : bool :=
  bool_decide (is_Some (find_transaction s transactionHash)).

Definition getBlockIndexContainingTx (s : Segment) (transactionHash : Hash) : option Z :=
  ti_blockIndex <$> find_transaction s transactionHash.

Fixpoint getTransactionCount (c : Cache) : Z :=
  match c with
  | [] => 0
  | s :: parents => getTransactionCount parents + Z.of_nat (length (transactions s))
  end.

(** Base transactions, at index 0 of their block, are left out. *)
Definition getTransactionHashes (s : Segment) : list Hash :=
  ti_transactionHash <$> filter (fun t => ti_transactionIndex t <> 0) (transactions s).

Fixpoint getBlockByIndex (c : Cache) (index : Z) : option RawBlock :=
  match c with
  | [] => None
  | s :: parents =>
      if index <? startIndex s then getBlockByIndex parents index
      else storage s !! Z.to_nat (index - startIndex s)
  end.

Fixpoint getBlocksByHeight (c : Cache) (startHeight endHeight : Z) : option (list RawBlock) :=
  match c with
  | [] => None
  | s :: parents =>
      if endHeight <? startIndex s then getBlocksByHeight parents startHeight endHeight
      else
        blocks ← (if startHeight <? startIndex s
                  then getBlocksByHeight parents startHeight (startIndex s) else Some []);
        let startOffset := Z.max startHeight (startIndex s) in
        let stop := Z.min endHeight (startIndex s + Z.of_nat (length (storage s))) in
        own ← (if stop <=? startOffset then Some []
               else slice (storage s) (startOffset - startIndex s) (stop - startOffset));
        Some (blocks ++ own)
  end.

(** The global indexes of the transactions found, the segment's own before
    the parents'; [None] when some transaction is in no segment, where the
    root follows its null parent. *)
Fixpoint getGlobalIndexes (c : Cache) (transactionHashes : list Hash)
  : option (list (Hash * list Z)) :=
  match c with
  | [] => None
  | s :: parents =>
      let found := omap (fun h => (fun idx => (h, idx)) <$> getTransactionGlobalIndexes s h)
                     transactionHashes in
      let remaining := filter (fun h => getTransactionGlobalIndexes s h = None) transactionHashes in
      match remaining with
      | [] => Some found
      | _ =>
          parentResult ← getGlobalIndexes parents remaining;
          Some (found ++ parentResult)
      end
  end.

(** [None] covers a block that cannot be parsed and an index out of range. *)
Fixpoint getRawTransaction (c : Cache) (index transactionIndex : Z) : option BinaryArray :=
  match c with
  | [] => None
  | s :: parents =>
      if index <? startIndex s then getRawTransaction parents index transactionIndex
      else
        rawBlock ← storage s !! Z.to_nat (index - startIndex s);
        if transactionIndex =? 0 then
          b ← fromBinaryArray read_block (block rawBlock);
          write_transaction (baseTransaction b)
        else Types.transactions rawBlock !! Z.to_nat (u32 (transactionIndex - 1))
  end.

(** [getRawTransactions]: what was found and what was missed. *)
Fixpoint getRawTransactions (c : Cache) (requested : list Hash)
  : option (list BinaryArray * list Hash) :=
  match requested with
  | [] => Some ([], [])
  | h :: rest =>
      match c with
      | [] => None
      | s :: _ =>
          match find_transaction s h with
          | None =>
              '(found, missed) ← getRawTransactions c rest;
              Some (found, h :: missed)
          | Some t =>
              raw ← getRawTransaction c (ti_blockIndex t) (ti_transactionIndex t);
              '(found, missed) ← getRawTransactions c rest;
              Some (raw :: found, missed)
          end
      end
  end.

(** Values of the last [count] blocks up to [blockIndex], oldest first. *)
Fixpoint getLastUnits (c : Cache) (count blockIndex : Z) (useGenesis : bool)
    (pred : CachedBlockInfo -> Z) : option (list Z) :=
  match c with
  | [] => None
  | s :: parents =>
      let to := if blockIndex <? startIndex s then 0 else u32 (blockIndex - startIndex s + 1) in
      let realCount := Z.min count to in
      let from := to - realCount in
      let '(from, realCount) :=
        if negb useGenesis && (from =? 0) && negb (realCount =? 0) &&
           bool_decide (length parents = 0%nat)
        then (from + 1, realCount - 1) else (from, realCount) in
      result ← (match parents with
                | p :: _ =>
                    if realCount <? count
                    then getLastUnits parents (count - realCount)
                           (Z.min blockIndex (segment_top p)) useGenesis pred
                    else Some []
                | [] => Some []
                end);
      own ← slice (blockInfos s) from (to - from);
      Some (result ++ map pred own)
  end.

Definition getLastTimestamps (c : Cache) (count blockIndex : Z) (useGenesis : bool) :=
  getLastUnits c count blockIndex useGenesis bi_timestamp.

Definition getLastBlocksSizes (c : Cache) (count blockIndex : Z) (useGenesis : bool) :=
  getLastUnits c count blockIndex useGenesis bi_blockSize.

Definition getLastCumulativeDifficulties (c : Cache) (count blockIndex : Z) (useGenesis : bool) :=
  getLastUnits c count blockIndex useGenesis bi_cumulativeDifficulty.

(** [getCurrentCumulativeDifficulty(blockIndex)] does not ask the parent. *)
Definition getCurrentCumulativeDifficulty (s : Segment) (blockIndex : Z) : option Z :=
  bi_cumulativeDifficulty <$> blockInfos s !! Z.to_nat (u32 (blockIndex - startIndex s)).

Definition topCumulativeDifficulty (s : Segment) : option Z :=
  bi_cumulativeDifficulty <$> last (blockInfos s).

Fixpoint getAlreadyGeneratedCoins (c : Cache) (blockIndex : Z) : option Z :=
  match c with
  | [] => None
  | s :: parents =>
      if blockIndex <? startIndex s then getAlreadyGeneratedCoins parents blockIndex
      else bi_alreadyGeneratedCoins <$> blockInfos s !! Z.to_nat (blockIndex - startIndex s)
  end.

Fixpoint getAlreadyGeneratedTransactions (c : Cache) (blockIndex : Z) : option Z :=
  match c with
  | [] => None
  | s :: parents =>
      if blockIndex <? startIndex s then getAlreadyGeneratedTransactions parents blockIndex
      else bi_alreadyGeneratedTransactions <$> blockInfos s !! Z.to_nat (blockIndex - startIndex s)
  end.

(** The key images spent by one block. *)
Definition fillOutputsSpentByBlock (s : Segment) (blockIndex : Z) : TransactionValidatorState :=
  dom (filter (fun kv : KeyImage * Z => kv.2 = blockIndex) (spentKeyImages s)).

Fixpoint getTransactionHashesByPaymentId (c : Cache) (paymentId : Hash) : list Hash :=
  match c with
  | [] => []
  | s :: parents =>
      getTransactionHashesByPaymentId parents paymentId ++
      (filter (fun p : Hash * Hash => p.1 = paymentId) (paymentIds s)).*2
  end.

Definition not_later (a b : CachedBlockInfo) : Prop := bi_timestamp a <= bi_timestamp b.
#[global] Instance not_later_dec a b : Decision (not_later a b).
Proof. unfold not_later. apply _. Defined.

(** Blocks of a time interval; within a segment in the order of their times. *)
Fixpoint getBlockHashesByTimestamps (c : Cache) (timestampBegin secondsCount : Z) : list Hash :=
  if secondsCount =? 0 then []
  else
    match c with
    | [] => []
    | s :: parents =>
        getBlockHashesByTimestamps parents timestampBegin secondsCount ++
        (bi_blockHash <$>
         merge_sort not_later
           (filter (fun b => timestampBegin <= bi_timestamp b /\
                             bi_timestamp b <= u64 (timestampBegin + secondsCount - 1))
              (blockInfos s)))
    end.

Section WithCurrency.
Context (currency : Currency).

Definition getBlockMajorVersionForHeight (height : Z) : Z :=
  UpgradeManager.getBlockMajorVersion (UpgradeManager.core_upgrades currency) height.

Definition getDifficultyForNextBlock (c : Cache) (blockIndex : Z) : option Z :=
  let nextBlockMajorVersion := getBlockMajorVersionForHeight (u32 (blockIndex + 1)) in
  let count := difficultyBlocksCountByBlockVersion currency nextBlockMajorVersion blockIndex in
  timestamps ← getLastTimestamps c count blockIndex false;
  cumulativeDifficulties ← getLastCumulativeDifficulties c count blockIndex false;
  getNextDifficulty currency nextBlockMajorVersion blockIndex timestamps cumulativeDifficulties.

(** [now] is [time(nullptr)]. *)
Context (now : Z).

Definition isTransactionSpendTimeUnlocked (unlockTime blockIndex : Z) : bool :=
  if unlockTime <? m_maxBlockHeight currency
  then unlockTime <=? u64 (blockIndex + m_lockedTxAllowedDeltaBlocks currency)
  else unlockTime <=? u64 (now + m_lockedTxAllowedDeltaSeconds currency).

(** ** Looking up outputs *)

(** The loop of [extractKeyOutputs] over the indexes of this segment.  The
    callback returns a value to collect or the error to stop with; what was
    collected before an error stays collected. *)
Fixpoint extract_loop {A} (s : Segment) (e : OutputGlobalIndexesForAmount)
    (pred : CachedTransactionInfo -> PackedOutIndex -> Z -> ExtractOutputKeysResult + A)
    (globalIndexes : list Z) (acc : list A) : ExtractOutputKeysResult * list A :=
  match globalIndexes with
  | [] => (SUCCESS, acc)
  | globalIndex :: rest =>
      let i := u32 (globalIndex - ga_startIndex e) in
      match ga_outputs e !! Z.to_nat i with
      | None => (INVALID_GLOBAL_INDEX, acc)
      | Some outputIndex =>
          match find_transaction_at s (po_blockIndex outputIndex) (po_transactionIndex outputIndex) with
          | None => (INVALID_GLOBAL_INDEX, acc)
          | Some info =>
              match pred info outputIndex globalIndex with
              | inl err => (err, acc)
              | inr a => extract_loop s e pred rest (acc ++ [a])
              end
          end
      end
  end.

Fixpoint extractKeyOutputs {A} (c : Cache) (amount blockIndex : Z) (globalIndexes : list Z)
    (pred : CachedTransactionInfo -> PackedOutIndex -> Z -> ExtractOutputKeysResult + A)
    (acc : list A) : ExtractOutputKeysResult * list A :=
  match c with
  | [] => (INVALID_GLOBAL_INDEX, acc)
  | s :: parents =>
      match keyOutputsGlobalIndexes s !! amount with
      | None => extractKeyOutputs parents amount blockIndex globalIndexes pred acc
      | Some e =>
          if blockIndex <? startIndex s
          then extractKeyOutputs parents amount blockIndex globalIndexes pred acc
          else
            let offset := lower_bound (fun g => g <? ga_startIndex e) globalIndexes in
            let '(result, acc) :=
              if (offset =? 0)%nat then (SUCCESS, acc)
              else extractKeyOutputs parents amount blockIndex (take offset globalIndexes) pred acc in
            match result with
            | SUCCESS => extract_loop s e pred (drop offset globalIndexes) acc
            | _ => (result, acc)
            end
      end
  end.

Definition key_of_target (t : TransactionOutputTarget) : PublicKey :=
  match t with KeyOutput k => k end.

(** [extractKeyOutputKeys]: an output index past the outputs of its
    transaction is an access out of range. *)
Definition extractKeyOutputKeys (c : Cache) (amount blockIndex : Z) (globalIndexes : list Z)
  : ExtractOutputKeysResult * list PublicKey :=
  extractKeyOutputs c amount blockIndex globalIndexes
    (fun info index _ =>
       if negb (isTransactionSpendTimeUnlocked (ti_unlockTime info) blockIndex)
       then inl OUTPUT_LOCKED
       else match ti_outputs info !! Z.to_nat (po_outputIndex index) with
            | Some t => inr (key_of_target t)
            | None => inl INVALID_GLOBAL_INDEX
            end) [].

Definition extractKeyOtputReferences (c : Cache) (amount topBlockIndex : Z) (globalIndexes : list Z)
  : ExtractOutputKeysResult * list (Hash * Z) :=
  extractKeyOutputs c amount topBlockIndex globalIndexes
    (fun info index _ => inr (ti_transactionHash info, po_outputIndex index)) [].

Definition extractKeyOtputIndexes (c : Cache) (amount topBlockIndex : Z) (globalIndexes : list Z)
  : ExtractOutputKeysResult * list PackedOutIndex :=
  extractKeyOutputs c amount topBlockIndex globalIndexes (fun _ index _ => inr index) [].

(** Outputs up to the last one old enough, counted from the front. *)
Definition unlocked_prefix (outs : list PackedOutIndex) (blockIndex : Z) : Z :=
  let bound := u32 (blockIndex - m_minedMoneyUnlockWindow currency) in
  match list_find (fun o => po_blockIndex o <= bound) (rev outs) with
  | Some (i, _) => Z.of_nat (length outs - i)
  | None => 0
  end.

(** [shuffle d] is the sequence a [ShuffleGenerator] for [d] values returns. *)
Fixpoint getRandomOutsByAmount (shuffle : Z -> list Z) (c : Cache) (amount count blockIndex : Z)
  : list Z :=
  match c with
  | [] => []
  | s :: parents =>
      match keyOutputsGlobalIndexes s !! amount with
      | None => getRandomOutsByAmount shuffle parents amount count blockIndex
      | Some e =>
          let dist := Z.min (u32 count) (u32 (unlocked_prefix (ga_outputs e) blockIndex)) in
          let outputs :=
            omap (fun offset =>
                    o ← ga_outputs e !! Z.to_nat offset;
                    t ← find_transaction_at s (po_blockIndex o) (po_transactionIndex o);
                    if isTransactionSpendTimeUnlocked (ti_unlockTime t) blockIndex
                    then Some (u32 (ga_startIndex e + offset)) else None) (shuffle dist) in
          if Z.of_nat (length outputs) <? count
          then outputs ++
               getRandomOutsByAmount shuffle parents amount (count - Z.of_nat (length outputs)) blockIndex
          else outputs
      end
  end.

End WithCurrency.

(** ** Pushing a block *)

(** The global index of the new output and the updated table. *)
Definition insertKeyOutputToGlobalIndex (parents : Cache) (s : Segment) (amount : Z)
    (output : PackedOutIndex) (blockIndex : Z) : Z * Segment :=
  let indexEntry :=
    match keyOutputsGlobalIndexes s !! amount with
    | Some e => mkOutputGlobalIndexes (ga_startIndex e) (ga_outputs e ++ [output])
    | None =>
        mkOutputGlobalIndexes
          (match parents with
           | [] => 0
           | _ => u32 (getKeyOutputsCountForAmount parents amount blockIndex)
           end) [output]
    end in
  (u32 (ga_startIndex indexEntry + u32 (Z.of_nat (length (ga_outputs indexEntry))) - 1),
   mkSegment (startIndex s) (transactions s) (spentKeyImages s) (blockInfos s)
     (<[amount := indexEntry]> (keyOutputsGlobalIndexes s)) (paymentIds s) (storage s)).

(** The loop over the outputs: the global indexes and the updated segment. *)
Fixpoint push_outputs (parents : Cache) (s : Segment) (outputs : list TransactionOutput)
    (blockIndex transactionInBlockIndex outputCount : Z) : list Z * Segment :=
  match outputs with
  | [] => ([], s)
  | output :: rest =>
      let poi := mkPackedOutIndex blockIndex transactionInBlockIndex (u16 outputCount) in
      let '(index, s) := insertKeyOutputToGlobalIndex parents s (amount output) poi blockIndex in
      let '(indexes, s) :=
        push_outputs parents s rest blockIndex transactionInBlockIndex (outputCount + 1) in
      (index :: indexes, s)
  end.

(** Insertion is refused when an index declared unique has the key already. *)
Definition insert_transaction (info : CachedTransactionInfo) (l : list CachedTransactionInfo)
  : list CachedTransactionInfo :=
  if bool_decide (Exists (fun t =>
       (ti_blockIndex t = ti_blockIndex info /\ ti_transactionIndex t = ti_transactionIndex info) \/
       ti_transactionHash t = ti_transactionHash info) l)
  then l else l ++ [info].

Definition insert_payment_id (paymentId transactionHash : Hash) (l : list (Hash * Hash))
  : list (Hash * Hash) :=
  if bool_decide (transactionHash ∈ l.*2) then l else l ++ [(paymentId, transactionHash)].

Definition pushTransaction (parents : Cache) (s : Segment) (tx : Transaction) (hash : Hash)
    (blockIndex transactionInBlockIndex : Z) : Segment :=
  let '(globalIndexes, s) :=
    push_outputs parents s (outputs (prefix tx)) blockIndex transactionInBlockIndex 0 in
  let info := mkCachedTransactionInfo blockIndex transactionInBlockIndex hash
                (unlockTime (prefix tx)) (map target (outputs (prefix tx))) globalIndexes in
  mkSegment (startIndex s) (insert_transaction info (transactions s)) (spentKeyImages s)
    (blockInfos s) (keyOutputsGlobalIndexes s)
    (match getPaymentIdFromTxExtra (extra (prefix tx)) with
     | None => paymentIds s
     | Some paymentId => insert_payment_id paymentId hash (paymentIds s)
     end) (storage s).

(** The transactions of a block in turn, numbered from [i]. *)
Fixpoint push_transactions (parents : Cache) (s : Segment) (txs : list (Transaction * Hash))
    (blockIndex i : Z) : Segment :=
  match txs with
  | [] => s
  | (tx, hash) :: rest =>
      push_transactions parents (pushTransaction parents s tx hash blockIndex (u16 i)) rest
        blockIndex (i + 1)
  end.

(** Key images already present keep the block they were spent in. *)
Definition addSpentKeyImages (images : TransactionValidatorState) (blockIndex : Z)
    (spent : gmap KeyImage Z) : gmap KeyImage Z := spent ∪ gset_to_gmap blockIndex images.

Definition push_block_info (info : CachedBlockInfo) (l : list CachedBlockInfo)
  : list CachedBlockInfo :=
  if bool_decide (bi_blockHash info ∈ bi_blockHash <$> l) then l else l ++ [info].

(** Totals up to the block before the new one. *)
Definition previous_totals (parents : Cache) (s : Segment) (blockIndex : Z) : option (Z * Z * Z) :=
  match last (blockInfos s) with
  | None =>
      match parents with
      | [] => Some (0, 0, 0)
      | p :: _ =>
          cumulativeDifficulty ← getCurrentCumulativeDifficulty p (u32 (blockIndex - 1));
          coins ← getAlreadyGeneratedCoins parents (u32 (blockIndex - 1));
          txs ← getAlreadyGeneratedTransactions parents (u32 (blockIndex - 1));
          Some (cumulativeDifficulty, coins, txs)
      end
  | Some b =>
      Some (bi_cumulativeDifficulty b, bi_alreadyGeneratedCoins b, bi_alreadyGeneratedTransactions b)
  end.

Definition doPushBlock (parents : Cache) (s : Segment) (cachedBlock : CachedBlock)
    (cachedTransactions : list CachedTx) (validatorState : TransactionValidatorState)
    (blockSize generatedCoins blockDifficulty : Z) (rawBlock : RawBlock) : option Segment :=
  let b := cb_block cachedBlock in
  let blockIndex := Block.getBlockIndex b in
  '(cumulativeDifficulty, coins, txs) ← previous_totals parents s blockIndex;
  let info := mkCachedBlockInfo (cb_hash cachedBlock) (timestamp (header b))
    (u64 (cumulativeDifficulty + blockDifficulty)) (u64 (coins + generatedCoins))
    (u64 (txs + (Z.of_nat (length cachedTransactions) + 1))) (u32 blockSize) in
  let s := mkSegment (startIndex s) (transactions s)
    (addSpentKeyImages validatorState blockIndex (spentKeyImages s))
    (push_block_info info (blockInfos s)) (keyOutputsGlobalIndexes s) (paymentIds s) (storage s) in
  let s := push_transactions parents s
    ((baseTransaction b, cb_baseHash cachedBlock) ::
     map (fun t => (ct_transaction t, ct_hash t)) cachedTransactions) blockIndex 0 in
  Some (mkSegment (startIndex s) (transactions s) (spentKeyImages s) (blockInfos s)
          (keyOutputsGlobalIndexes s) (paymentIds s) (storage s ++ [rawBlock])).

(** [pushBlock] on a cache. *)
Definition pushBlock (c : Cache) (cachedBlock : CachedBlock) (cachedTransactions : list CachedTx)
    (validatorState : TransactionValidatorState) (blockSize generatedCoins blockDifficulty : Z)
    (rawBlock : RawBlock) : option Cache :=
  match c with
  | [] => None
  | s :: parents =>
      s ← doPushBlock parents s cachedBlock cachedTransactions validatorState blockSize
            generatedCoins blockDifficulty rawBlock;
      Some (s :: parents)
  end.

(** The root segment with the genesis block in it. *)
Definition root_segment (genesis : CachedBlock) (coinbaseTransactionSize : Z) (raw : RawBlock)
  : option Segment :=
  let minerReward := sum_u64 (output_amounts (outputs (prefix (baseTransaction (cb_block genesis))))) in
  doPushBlock [] (empty_segment 0) genesis [] ∅ coinbaseTransactionSize minerReward 1 raw.

Definition getPushedBlockInfo (c : Cache) (blockIndex : Z) : option PushedBlockInfo :=
  match c with
  | [] => None
  | s :: parents =>
      let localIndex := u32 (blockIndex - startIndex s) in
      info ← blockInfos s !! Z.to_nat localIndex;
      raw ← storage s !! Z.to_nat localIndex;
      '(cumulativeDifficulty, coins) ←
        (if startIndex s <? blockIndex then
           (fun p => (bi_cumulativeDifficulty p, bi_alreadyGeneratedCoins p)) <$>
             blockInfos s !! Z.to_nat (localIndex - 1)
         else
           match parents with
           | [] => Some (0, 0)
           | _ =>
               l ← getLastCumulativeDifficulties parents 1 (u32 (startIndex s - 1)) true;
               cumulativeDifficulty ← head l;
               coins ← getAlreadyGeneratedCoins parents (u32 (startIndex s - 1));
               Some (cumulativeDifficulty, coins)
           end);
      Some (mkPushedBlockInfo raw (fillOutputsSpentByBlock s blockIndex) (bi_blockSize info)
              (u64 (bi_alreadyGeneratedCoins info - coins))
              (u64 (bi_cumulativeDifficulty info - cumulativeDifficulty)))
  end.

(** ** Splitting a segment *)

(** The part of an amount's outputs that moves to the upper segment, and the
    part that stays; [None] where nothing is left of the entry. *)
Definition upper_outputs (splitBlockIndex : Z) (e : OutputGlobalIndexesForAmount)
  : option OutputGlobalIndexesForAmount :=
  let n := lower_bound (fun o => po_blockIndex o <? splitBlockIndex) (ga_outputs e) in
  let newCacheOutputsCount := u32 (Z.of_nat (length (ga_outputs e) - n)) in
  match drop n (ga_outputs e) with
  | [] => None
  | l => Some (mkOutputGlobalIndexes
           (u32 (ga_startIndex e + u32 (Z.of_nat (length (ga_outputs e))) - newCacheOutputsCount)) l)
  end.

Definition lower_outputs (splitBlockIndex : Z) (e : OutputGlobalIndexesForAmount)
  : option OutputGlobalIndexesForAmount :=
  let n := lower_bound (fun o => po_blockIndex o <? splitBlockIndex) (ga_outputs e) in
  match take n (ga_outputs e) with
  | [] => None
  | l => Some (mkOutputGlobalIndexes (ga_startIndex e) l)
  end.

(** [split]: the lower part, which stays this segment, and the upper part. *)
Definition split (s : Segment) (splitBlockIndex : Z) : Segment * Segment :=
  let n := Z.to_nat (u32 (splitBlockIndex - startIndex s)) in
  let moved := filter (fun t => splitBlockIndex <= ti_blockIndex t) (transactions s) in
  let moved_hashes := ti_transactionHash <$> moved in
  (mkSegment (startIndex s)
     (filter (fun t => ti_blockIndex t < splitBlockIndex) (transactions s))
     (filter (fun kv : KeyImage * Z => kv.2 < splitBlockIndex) (spentKeyImages s))
     (take n (blockInfos s))
     (omap (lower_outputs splitBlockIndex) (keyOutputsGlobalIndexes s))
     (filter (fun p : Hash * Hash => p.2 ∉ moved_hashes) (paymentIds s))
     (take n (storage s)),
   mkSegment splitBlockIndex moved
     (filter (fun kv : KeyImage * Z => splitBlockIndex <= kv.2) (spentKeyImages s))
     (drop n (blockInfos s))
     (omap (upper_outputs splitBlockIndex) (keyOutputsGlobalIndexes s))
     (filter (fun p : Hash * Hash => p.2 ∈ moved_hashes) (paymentIds s))
     (drop n (storage s))).
