(* ===== verification/CacheFacts.v ===== *)
(** * Chain segments: invariant and refinement

    The segments of a path are one chain: [chain_blocks], [chain_spent],
    [chain_outputs] and the like read the path as a single list or map, and
    the queries of [BlockchainCache], which walk from segment to segment, are
    shown to be lookups there.  Splitting a segment does not change the
    reading, so it cannot be observed. *)

From S2P Require Import Prelude Config Bytes Types TxExtra Serialization Block Search Median.
From S2P Require Import Currency Difficulty Upgrade BlockchainCache.

(** ** The chain a path stands for *)

Fixpoint chain_blocks (c : Cache) : list CachedBlockInfo :=
  match c with [] => [] | s :: parents => chain_blocks parents ++ blockInfos s end.

Fixpoint chain_storage (c : Cache) : list RawBlock :=
  match c with [] => [] | s :: parents => chain_storage parents ++ storage s end.

Fixpoint chain_spent (c : Cache) : gmap KeyImage Z :=
  match c with [] => ∅ | s :: parents => spentKeyImages s ∪ chain_spent parents end.

Fixpoint chain_transactions (c : Cache) : list CachedTransactionInfo :=
  match c with [] => [] | s :: parents => chain_transactions parents ++ transactions s end.

Definition segment_outputs (s : Segment) (amount : Z) : list PackedOutIndex :=
  match keyOutputsGlobalIndexes s !! amount with Some e => ga_outputs e | None => [] end.

Fixpoint chain_outputs (c : Cache) (amount : Z) : list PackedOutIndex :=
  match c with
  | [] => []
  | s :: parents => chain_outputs parents amount ++ segment_outputs s amount
  end.

Definition height (c : Cache) : Z := Z.of_nat (length (chain_blocks c)).

(** ** The invariant *)

(** [i] is the index of a block of the segment. *)
Definition in_segment (s : Segment) (i : Z) : Prop :=
  startIndex s <= i < startIndex s + Z.of_nat (length (blockInfos s)).

(** Segments are not empty and follow each other without gaps. *)
Definition blocks_ok (s : Segment) (parents : Cache) : Prop :=
  startIndex s = height parents /\ blockInfos s <> [] /\
  length (storage s) = length (blockInfos s) /\ height (s :: parents) < 2 ^ 32.

(** Key images are spent once, in a block of their segment. *)
Definition spent_ok (s : Segment) (parents : Cache) : Prop :=
  (forall ki i, spentKeyImages s !! ki = Some i -> in_segment s i) /\
  spentKeyImages s ##ₘ chain_spent parents.

(** The outputs of an amount are numbered through the chain, in the order of
    the blocks, and each belongs to a transaction of its segment. *)
Definition outputs_ok (s : Segment) (parents : Cache) : Prop :=
  forall a e, keyOutputsGlobalIndexes s !! a = Some e ->
    ga_startIndex e = Z.of_nat (length (chain_outputs parents a)) /\ ga_outputs e <> [] /\
    Z.of_nat (length (chain_outputs parents a) + length (ga_outputs e)) < 2 ^ 32 /\
    StronglySorted (fun o o' => po_blockIndex o <= po_blockIndex o') (ga_outputs e) /\
    Forall (fun o => in_segment s (po_blockIndex o) /\
      exists t, t ∈ transactions s /\ ti_blockIndex t = po_blockIndex o /\
        ti_transactionIndex t = po_transactionIndex o) (ga_outputs e).

Definition transactions_ok (s : Segment) : Prop :=
  Forall (fun t => in_segment s (ti_blockIndex t)) (transactions s) /\
  StronglySorted (fun t t' => ti_blockIndex t <= ti_blockIndex t') (transactions s).

Fixpoint cache_ok (c : Cache) : Prop :=
  match c with
  | [] => True
  | s :: parents =>
      cache_ok parents /\ blocks_ok s parents /\ spent_ok s parents /\ outputs_ok s parents /\
      transactions_ok s
  end.

Lemma height_cons s parents :
  height (s :: parents) = height parents + Z.of_nat (length (blockInfos s)).
Proof. unfold height. cbn. rewrite length_app. lia. Qed.

Lemma height_nonneg c : 0 <= height c.
Proof. unfold height. lia. Qed.

Lemma blocks_ok_size s parents : blocks_ok s parents -> 0 < Z.of_nat (length (blockInfos s)).
Proof. intros (_ & H & _). destruct (blockInfos s); [done|]. simpl. lia. Qed.

(** Parents of a segment that does not start at 0 exist. *)
Lemma parents_cons s parents :
  blocks_ok s parents -> 0 < startIndex s -> exists p rest, parents = p :: rest.
Proof.
  intros (E & _) H. destruct parents as [|p rest]; [|by exists p, rest].
  unfold height in E. simpl in E. lia.
Qed.

Lemma segment_top_ok s parents :
  blocks_ok s parents -> segment_top s = height (s :: parents) - 1.
Proof.
  intros Hb. pose proof (blocks_ok_size _ _ Hb). pose proof (height_nonneg parents).
  destruct Hb as (E & _ & _ & Hh). unfold segment_top. rewrite height_cons in *. rewrite E.
  rewrite (wrap_small 32 (Z.of_nat _)) by (words; lia). rewrite wrap_small by (words; lia). lia.
Qed.

(** Lookup in two lists one after the other, by an index of type [Z]. *)
Lemma lookup_app_Z {A} (l1 l2 : list A) i :
  0 <= i ->
  (l1 ++ l2) !! Z.to_nat i =
    if i <? Z.of_nat (length l1) then l1 !! Z.to_nat i
    else l2 !! Z.to_nat (i - Z.of_nat (length l1)).
Proof.
  intros Hi. destruct (_ <? _) eqn:E; bool_to_prop.
  - apply lookup_app_l. lia.
  - rewrite lookup_app_r by lia. f_equal. lia.
Qed.

(** ** Block queries *)

(** Every query that descends to the segment of an index reads the chain at
    this index. *)
Lemma descend_chain {A} (query : Cache -> Z -> option A) (read : Segment -> list A)
    (flat : Cache -> list A) c i :
  (forall i, query [] i = None) ->
  (forall s parents i, query (s :: parents) i =
     if i <? startIndex s then query parents i else read s !! Z.to_nat (i - startIndex s)) ->
  flat [] = [] -> (forall s parents, flat (s :: parents) = flat parents ++ read s) ->
  (forall s parents, cache_ok (s :: parents) ->
     startIndex s = Z.of_nat (length (flat parents))) ->
  cache_ok c -> 0 <= i -> query c i = flat c !! Z.to_nat i.
Proof.
  intros Hq0 Hq Hf0 Hf Hs Hc Hi. induction c as [|s parents IH].
  - by rewrite Hq0, Hf0, lookup_nil.
  - rewrite Hq, Hf, lookup_app_Z by done. rewrite <- (Hs s parents Hc).
    destruct (_ <? _); [|done]. apply IH. apply Hc.
Qed.

Lemma chain_start s parents : cache_ok (s :: parents) -> startIndex s = height parents.
Proof. by intros (_ & (E & _) & _). Qed.

Lemma getBlockHash_chain c i :
  cache_ok c -> 0 <= i -> getBlockHash c i = (bi_blockHash <$> chain_blocks c) !! Z.to_nat i.
Proof.
  apply (descend_chain getBlockHash (fun s => bi_blockHash <$> blockInfos s)
           (fun c => bi_blockHash <$> chain_blocks c)).
  - done.
  - intros s parents j. cbn. by rewrite list_lookup_fmap.
  - done.
  - intros s parents. cbn. by rewrite fmap_app.
  - intros s parents H. rewrite length_fmap. by apply chain_start.
Qed.

Lemma getAlreadyGeneratedCoins_chain c i :
  cache_ok c -> 0 <= i ->
  getAlreadyGeneratedCoins c i = (bi_alreadyGeneratedCoins <$> chain_blocks c) !! Z.to_nat i.
Proof.
  apply (descend_chain getAlreadyGeneratedCoins (fun s => bi_alreadyGeneratedCoins <$> blockInfos s)
           (fun c => bi_alreadyGeneratedCoins <$> chain_blocks c)).
  - done.
  - intros s parents j. cbn. by rewrite list_lookup_fmap.
  - done.
  - intros s parents. cbn. by rewrite fmap_app.
  - intros s parents H. rewrite length_fmap. by apply chain_start.
Qed.

Lemma length_chain_storage c : cache_ok c -> length (chain_storage c) = length (chain_blocks c).
Proof.
  induction c as [|s parents IH]; [done|]. intros (Hp & (_ & _ & Hl & _) & _).
  cbn. rewrite !length_app. by rewrite IH, Hl.
Qed.

Lemma getBlockByIndex_chain c i :
  cache_ok c -> 0 <= i -> getBlockByIndex c i = chain_storage c !! Z.to_nat i.
Proof.
  apply (descend_chain getBlockByIndex storage chain_storage); [done|done|done|done|].
  intros s parents H. rewrite (chain_start _ _ H).
  rewrite length_chain_storage by apply H. done.
Qed.

(** ** Windows of the last blocks *)

(** The last [count] of the blocks up to [blockIndex], without the genesis
    block unless asked for. *)
Definition last_blocks (blocks : list CachedBlockInfo) (count blockIndex : Z) (useGenesis : bool)
  : list CachedBlockInfo :=
  let l := take (Z.to_nat (blockIndex + 1)) blocks in
  let from := (length l - Z.to_nat count)%nat in
  drop (if negb useGenesis && (from =? 0)%nat then 1 else from) l.

Lemma slice_ok {A} (l : list A) start count :
  0 <= start -> 0 <= count -> start + count <= Z.of_nat (length l) ->
  slice l start count = Some (take (Z.to_nat count) (drop (Z.to_nat start) l)).
Proof. intros. unfold slice. by replace (_ <? _) with false by (symmetry; apply Z.ltb_ge; lia). Qed.

(** The window ends inside the first segment of the path and starts in it. *)
Lemma last_blocks_own l1 l2 count i u :
  0 <= i < Z.of_nat (length l2) -> 0 <= count <= i + 1 -> (length l1 <> 0%nat \/ i + 1 <> count \/ u = true) ->
  last_blocks (l1 ++ l2) count (Z.of_nat (length l1) + i) u =
    drop (Z.to_nat (i + 1 - count)) (take (Z.to_nat (i + 1)) l2).
Proof.
  intros Hi Hc Hg. unfold last_blocks.
  replace (Z.to_nat (Z.of_nat (length l1) + i + 1)) with (length l1 + Z.to_nat (i + 1))%nat by lia.
  rewrite take_app_add, length_app, length_take, Nat.min_l by lia.
  replace (negb u && _) with false.
  2:{ symmetry. apply andb_false_iff. destruct Hg as [Hg|[Hg| ->]]; [right|right|by left];
      apply Nat.eqb_neq; lia. }
  rewrite drop_app_ge by lia. f_equal. lia.
Qed.

(** The window starts below the first segment of the path. *)
Lemma last_blocks_below l1 l2 count i u :
  0 <= i < Z.of_nat (length l2) -> i + 1 < count -> (length l1 <> 0)%nat ->
  last_blocks (l1 ++ l2) count (Z.of_nat (length l1) + i) u =
    last_blocks l1 (count - (i + 1)) (Z.of_nat (length l1) - 1) u ++ take (Z.to_nat (i + 1)) l2.
Proof.
  intros Hi Hc H1. unfold last_blocks.
  replace (Z.to_nat (Z.of_nat (length l1) + i + 1)) with (length l1 + Z.to_nat (i + 1))%nat by lia.
  replace (Z.to_nat (Z.of_nat (length l1) - 1 + 1)) with (length l1) by lia.
  rewrite take_app_add, length_app, length_take, Nat.min_l by lia.
  rewrite (take_ge l1) by lia.
  replace (length l1 + Z.to_nat (i + 1) - Z.to_nat count)%nat
    with (length l1 - Z.to_nat (count - (i + 1)))%nat by lia.
  apply drop_app_le. destruct (_ && _); lia.
Qed.

Lemma last_blocks_take l1 l2 count i u :
  i < Z.of_nat (length l1) -> last_blocks (l1 ++ l2) count i u = last_blocks l1 count i u.
Proof. intros Hi. unfold last_blocks. by rewrite take_app_le by lia. Qed.

(** The root segment, which holds the genesis block. *)
Lemma getLastUnits_root s count i u pred :
  blocks_ok s [] -> 0 <= i < Z.of_nat (length (blockInfos s)) -> 0 <= count ->
  getLastUnits [s] count i u pred = Some (map pred (last_blocks (blockInfos s) count i u)).
Proof.
  intros (E & _ & _ & Hh) Hi Hc. change (height []) with 0 in E. rewrite height_cons in Hh.
  change (height []) with 0 in Hh. cbn [getLastUnits]. rewrite E, Z.sub_0_r.
  replace (i <? 0) with false by (symmetry; apply Z.ltb_ge; lia).
  rewrite wrap_small by (words; lia). rewrite bool_decide_true, andb_true_r by done.
  set (real := Z.min count (i + 1)).
  assert (last_blocks (blockInfos s) count i u =
    drop (if negb u && (i + 1 - real =? 0) then 1 else Z.to_nat (i + 1 - real))
      (take (Z.to_nat (i + 1)) (blockInfos s))) as ->.
  { unfold last_blocks. rewrite length_take, Nat.min_l by lia.
    replace (_ =? 0)%nat with (i + 1 - real =? 0).
    2:{ apply eq_true_iff_eq. rewrite Z.eqb_eq, Nat.eqb_eq. lia. }
    f_equal. destruct (_ && _); lia. }
  destruct (negb u && (i + 1 - real =? 0)) eqn:Eg; cbn [andb].
  - apply andb_true_iff in Eg as [_ Eg]. apply Z.eqb_eq in Eg.
    replace (negb (real =? 0)) with true by (symmetry; apply negb_true_iff, Z.eqb_neq; lia).
    cbn. rewrite slice_ok by lia. cbn. do 2 f_equal.
    rewrite take_drop_commute. f_equal; [lia|f_equal; lia].
  - cbn. rewrite slice_ok by lia. cbn. do 2 f_equal.
    rewrite take_drop_commute. do 2 f_equal; lia.
Qed.

(** A segment that is not the root. *)
Lemma getLastUnits_cons s p rest count i u pred to :
  to = (if i <? startIndex s then 0 else u32 (i - startIndex s + 1)) ->
  getLastUnits (s :: p :: rest) count i u pred =
    (result ← (if Z.min count to <? count
               then getLastUnits (p :: rest) (count - Z.min count to) (Z.min i (segment_top p)) u pred
               else Some []);
     own ← slice (blockInfos s) (to - Z.min count to) (to - (to - Z.min count to));
     Some (result ++ map pred own)).
Proof.
  intros ->. cbn [getLastUnits length]. rewrite bool_decide_false by done.
  by rewrite andb_false_r.
Qed.

Lemma getLastUnits_chain c count i u pred :
  cache_ok c -> 0 <= i < height c -> 0 <= count ->
  getLastUnits c count i u pred = Some (map pred (last_blocks (chain_blocks c) count i u)).
Proof.
  revert count i. induction c as [|s parents IH]; intros count i Hok Hi Hc.
  { change (height []) with 0 in Hi. lia. }
  destruct Hok as (Hp & Hb & _). pose proof (segment_top_ok _ _ Hb) as Ht.
  destruct parents as [|p rest]; [apply getLastUnits_root; [done| |done]|].
  { rewrite height_cons in Hi. change (height []) with 0 in Hi. lia. }
  destruct Hp as (Hp1 & Hpb & Hp2). pose proof (segment_top_ok _ _ Hpb) as Htp.
  pose proof (blocks_ok_size _ _ Hpb) as Hn. pose proof (height_nonneg rest) as Hr.
  assert (cache_ok (p :: rest)) as Hpok by done.
  set (parents := p :: rest) in *. rewrite height_cons in Hi.
  assert (0 < height parents) as Hpos by (unfold parents; rewrite height_cons; lia).
  destruct Hb as (E & _ & _ & Hh). rewrite height_cons in Hh.
  change (chain_blocks (s :: parents)) with (chain_blocks parents ++ blockInfos s).
  unfold parents at 1. erewrite getLastUnits_cons by reflexivity. fold parents. rewrite E, Htp.
  clearbody parents.
  destruct (i <? height parents) eqn:Ei; bool_to_prop.
  - rewrite Z.min_r, Z.sub_0_r by lia. rewrite last_blocks_take by done.
    rewrite Z.min_l by lia. destruct (0 <? count) eqn:E0; bool_to_prop.
    + rewrite Z.sub_0_r, IH by (done || lia). cbn. rewrite slice_ok by lia. cbn. by rewrite Z.sub_0_r, app_nil_r.
    + cbn. rewrite slice_ok by lia. cbn. do 2 f_equal. replace count with 0 by lia.
      unfold last_blocks. change (Z.to_nat 0) with 0%nat. rewrite Nat.sub_0_r, length_take, Nat.min_l
        by (unfold height in Ei; lia).
      rewrite (drop_ge (take _ _)); [by rewrite Z.sub_diag|]. rewrite length_take. destruct (_ && _) eqn:Eb; [|lia].
      apply andb_true_iff in Eb as [_ Eb]. apply Nat.eqb_eq in Eb. lia.
  - rewrite wrap_small by (words; lia). rewrite (Z.min_r i) by lia.
    replace (last_blocks _ count i u) with (last_blocks (chain_blocks parents ++ blockInfos s) count
      (Z.of_nat (length (chain_blocks parents)) + (i - height parents)) u)
      by (f_equal; unfold height; lia).
    set (j := i - height parents) in *.
    destruct (Z.min count (j + 1) <? count) eqn:E0; bool_to_prop.
    + rewrite last_blocks_below by (unfold height in *; lia).
      rewrite Z.min_r, IH by (done || lia). cbn. rewrite slice_ok by lia. cbn.
      rewrite map_app. do 3 f_equal. rewrite Z.sub_diag. cbn. f_equal. lia.
    + rewrite last_blocks_own by (unfold height in *; lia).
      rewrite Z.min_l by lia. cbn. rewrite slice_ok by lia. cbn. do 2 f_equal.
      rewrite take_drop_commute. do 2 f_equal; lia.
Qed.

(** ** Spent key images *)

Lemma spent_below c ki i : cache_ok c -> chain_spent c !! ki = Some i -> 0 <= i < height c.
Proof.
  induction c as [|s parents IH]; [cbn; by rewrite lookup_empty|].
  intros (Hp & (E & _) & [Hs _] & _). rewrite height_cons. pose proof (height_nonneg parents).
  cbn. rewrite lookup_union_Some_raw. intros [H1|[_ H1]].
  - apply Hs in H1. unfold in_segment in H1. lia.
  - specialize (IH Hp H1). lia.
Qed.

Lemma checkIfSpent_chain c ki i :
  cache_ok c ->
  checkIfSpent c ki i = match chain_spent c !! ki with Some b => b <=? i | None => false end.
Proof.
  induction c as [|s parents IH]; [cbn; by rewrite lookup_empty|].
  intros (Hp & _ & [Hs Hd] & _). cbn. rewrite (IH Hp). rewrite lookup_union.
  destruct (spentKeyImages s !! ki) as [b|] eqn:E.
  - rewrite union_Some_l. destruct (i <? startIndex s) eqn:Ei; [|done]. bool_to_prop.
    apply Hs in E as Hb. unfold in_segment in Hb.
    assert (chain_spent parents !! ki = None) as -> by (eapply map_disjoint_Some_l; done).
    symmetry. apply Z.leb_gt. lia.
  - rewrite (left_id_L None (∪)). by destruct (i <? startIndex s).
Qed.

Lemma checkIfSpent_any_chain c ki :
  checkIfSpent_any c ki = bool_decide (is_Some (chain_spent c !! ki)).
Proof.
  induction c as [|s parents IH]; [cbn; by rewrite lookup_empty|]. cbn. rewrite IH, lookup_union.
  destruct (spentKeyImages s !! ki) as [b|].
  - rewrite union_Some_l. by rewrite !bool_decide_true by done.
  - rewrite (left_id_L None (∪)). by rewrite (bool_decide_false (is_Some None)) by apply is_Some_None.
Qed.

(** ** Outputs by amount *)

Definition below_block (b : Z) (o : PackedOutIndex) : bool := po_blockIndex o <? b.

Definition outputs_below (b : Z) (l : list PackedOutIndex) : Z :=
  Z.of_nat (length (filter (fun o => below_block b o = true) l)).

Lemma outputs_below_app b l1 l2 :
  outputs_below b (l1 ++ l2) = outputs_below b l1 + outputs_below b l2.
Proof. unfold outputs_below. rewrite filter_app, length_app. lia. Qed.

Lemma outputs_below_all b l :
  Forall (fun o => po_blockIndex o < b) l -> outputs_below b l = Z.of_nat (length l).
Proof.
  unfold outputs_below. induction 1 as [|o l Ho Hl IH]; [done|].
  rewrite filter_cons_True by (by apply Z.ltb_lt). cbn [length]. lia.
Qed.

Lemma outputs_below_none b l : Forall (fun o => b <= po_blockIndex o) l -> outputs_below b l = 0.
Proof.
  unfold outputs_below. induction 1 as [|o l Ho Hl IH]; [done|].
  rewrite filter_cons_False; [done|]. unfold below_block. rewrite Z.ltb_lt. lia.
Qed.

(** On outputs in block order the binary search counts those below a block. *)
Lemma lower_bound_outputs b l :
  StronglySorted (fun o o' => po_blockIndex o <= po_blockIndex o') l ->
  Z.of_nat (lower_bound (fun o => po_blockIndex o <? b) l) = outputs_below b l.
Proof.
  intros Hs. pose proof (partitioned_sorted po_blockIndex b l Hs) as Hp.
  destruct (lower_bound_spec _ l Hp) as (H0 & H1 & H2).
  set (n := lower_bound _ l) in *.
  rewrite <- (take_drop n l), outputs_below_app, outputs_below_all, outputs_below_none, length_take.
  - lia.
  - apply Forall_lookup. intros i x Hx. rewrite lookup_drop in Hx.
    apply H2 in Hx; [|lia]. by apply Z.ltb_ge in Hx.
  - apply Forall_lookup. intros i x Hx. apply lookup_take_Some in Hx as [Hx Hi].
    apply H1 in Hx; [|done]. by apply Z.ltb_lt in Hx.
Qed.

Lemma chain_outputs_below c a :
  cache_ok c -> Forall (fun o => 0 <= po_blockIndex o < height c) (chain_outputs c a).
Proof.
  induction c as [|s parents IH]; [constructor|]. intros (Hp & (E & _) & _ & Ho & _).
  cbn. apply Forall_app. pose proof (height_nonneg parents). rewrite height_cons. split.
  - eapply Forall_impl; [by apply IH|]. simpl. intros o. lia.
  - unfold segment_outputs. destruct (_ !! a) as [e|] eqn:Ea; [|constructor].
    destruct (Ho a e Ea) as (_ & _ & _ & _ & Hf). eapply Forall_impl; [exact Hf|].
    simpl. unfold in_segment. intros o [? _]. lia.
Qed.

Lemma chain_transactions_below c :
  cache_ok c -> Forall (fun t => ti_blockIndex t < height c) (chain_transactions c).
Proof.
  induction c as [|s parents IH]; [constructor|]. intros (Hp & (E & _) & _ & _ & Ht & _).
  cbn. apply Forall_app. rewrite height_cons. split.
  - eapply Forall_impl; [by apply IH|]. simpl. intros o. lia.
  - eapply Forall_impl; [exact Ht|]. unfold in_segment. simpl. intros o. lia.
Qed.

(** Asked for a block at or above the start of the segment, the count is that
    of the chain. *)
Lemma getKeyOutputsCountForAmount_chain s parents a b :
  cache_ok (s :: parents) -> startIndex s <= b ->
  getKeyOutputsCountForAmount (s :: parents) a b = outputs_below b (chain_outputs (s :: parents) a).
Proof.
  revert s. induction parents as [|p rest IH]; intros s Hok Hb;
    destruct Hok as (Hp & (E & _) & _ & Ho & _); cbn; unfold segment_outputs.
  - destruct (_ !! a) as [e|] eqn:Ea; [|done]. destruct (Ho a e Ea) as (Hs & _ & _ & Hss & _).
    rewrite lower_bound_outputs by done. rewrite Hs. done.
  - destruct (keyOutputsGlobalIndexes s !! a) as [e|] eqn:Ea.
    + destruct (Ho a e Ea) as (Hs & _ & _ & Hss & _).
      rewrite lower_bound_outputs by done. rewrite outputs_below_app, Hs. f_equal.
      symmetry. apply (outputs_below_all b (chain_outputs (p :: rest) a)).
      eapply Forall_impl; [by apply chain_outputs_below|]. simpl. intros o. lia.
    + rewrite app_nil_r. apply (IH p Hp).
      pose proof (chain_start _ _ Hp). rewrite height_cons in E. lia.
Qed.

(** ** Extracting outputs *)

Definition find_at (l : list CachedTransactionInfo) (b i : Z) : option CachedTransactionInfo :=
  snd <$> list_find (fun t => ti_blockIndex t = b /\ ti_transactionIndex t = i) l.

(** The reference for [extractKeyOutputs]: every index is looked up in the
    outputs of the whole chain. *)
Section Extract.
Context {A : Type}.
Context (pred : CachedTransactionInfo -> PackedOutIndex -> Z -> ExtractOutputKeysResult + A).
Context (pred_error : forall t o g, pred t o g <> inl SUCCESS).

Fixpoint flat_extract (outs : list PackedOutIndex) (txs : list CachedTransactionInfo)
    (globalIndexes : list Z) (acc : list A) : ExtractOutputKeysResult * list A :=
  match globalIndexes with
  | [] => (SUCCESS, acc)
  | g :: rest =>
      match outs !! Z.to_nat g with
      | None => (INVALID_GLOBAL_INDEX, acc)
      | Some o =>
          match find_at txs (po_blockIndex o) (po_transactionIndex o) with
          | None => (INVALID_GLOBAL_INDEX, acc)
          | Some t =>
              match pred t o g with
              | inl err => (err, acc)
              | inr a => flat_extract outs txs rest (acc ++ [a])
              end
          end
      end
  end.

Lemma flat_extract_app outs txs gs1 gs2 acc :
  flat_extract outs txs (gs1 ++ gs2) acc =
    match flat_extract outs txs gs1 acc with
    | (SUCCESS, acc) => flat_extract outs txs gs2 acc
    | r => r
    end.
Proof using pred_error.
  revert acc. induction gs1 as [|g gs1 IH]; intros acc; [done|]. cbn.
  destruct (outs !! _) as [o|]; [|done]. destruct (find_at _ _ _) as [t|]; [|done].
  destruct (pred t o g) as [err|a] eqn:E; [|apply IH].
  destruct err; [|done|done]. by apply pred_error in E.
Qed.

(** What was collected stays collected. *)
Lemma flat_extract_prefix outs txs gs acc : acc `prefix_of` (flat_extract outs txs gs acc).2.
Proof.
  revert acc. induction gs as [|g gs IH]; intros acc; cbn; [done|].
  destruct (outs !! _) as [o|]; [|done]. destruct (find_at _ _ _) as [t|]; [|done].
  destruct (pred t o g) as [err|a]; [done|]. etrans; [|apply IH]. by apply prefix_app_r.
Qed.

(** Two tables that agree on the indexes asked for give the same result. *)
Lemma flat_extract_ext outs txs outs' txs' gs acc :
  Forall (fun g => outs !! Z.to_nat g = outs' !! Z.to_nat g /\
    forall o, outs !! Z.to_nat g = Some o ->
      find_at txs (po_blockIndex o) (po_transactionIndex o) =
      find_at txs' (po_blockIndex o) (po_transactionIndex o)) gs ->
  flat_extract outs txs gs acc = flat_extract outs' txs' gs acc.
Proof.
  intros H. revert acc. induction H as [|g gs [Ho Ht] _ IH]; intros acc; [done|]. cbn.
  rewrite <- Ho. destruct (outs !! _) as [o|] eqn:E; [|done]. rewrite (Ht o eq_refl).
  destruct (find_at _ _ _) as [t|]; [|done]. destruct (pred t o g); [done|]. apply IH.
Qed.

Lemma find_at_app l1 l2 b i :
  find_at (l1 ++ l2) b i = match find_at l1 b i with Some t => Some t | None => find_at l2 b i end.
Proof.
  unfold find_at. induction l1 as [|t l1 IH]; [done|]. cbn.
  destruct (decide _); [done|]. revert IH.
  by destruct (list_find _ (l1 ++ l2)) as [[? ?]|], (list_find _ l1) as [[? ?]|].
Qed.

Lemma find_at_in l t b i :
  t ∈ l -> ti_blockIndex t = b -> ti_transactionIndex t = i -> is_Some (find_at l b i).
Proof.
  intros Ht Hb Hi. unfold find_at. rewrite fmap_is_Some.
  by apply (list_find_elem_of _ l t Ht).
Qed.

Lemma find_at_none l b i : Forall (fun t => ti_blockIndex t <> b) l -> find_at l b i = None.
Proof.
  intros H. unfold find_at. rewrite fmap_None, list_find_None.
  eapply Forall_impl; [exact H|]. simpl. tauto.
Qed.

(** Outputs belong to transactions of the chain. *)
Lemma chain_output_transaction c a o :
  cache_ok c -> o ∈ chain_outputs c a ->
  is_Some (find_at (chain_transactions c) (po_blockIndex o) (po_transactionIndex o)).
Proof.
  induction c as [|s parents IH]; [by intros _ ?%elem_of_nil|].
  intros (Hp & _ & _ & Ho & _). cbn [chain_outputs chain_transactions].
  rewrite elem_of_app, find_at_app.
  intros [H|H]; [by destruct (IH Hp H) as [t ->]|].
  unfold segment_outputs in H. destruct (_ !! a) as [e|] eqn:Ea; [|by apply elem_of_nil in H].
  destruct (Ho a e Ea) as (_ & _ & _ & _ & Hf). rewrite Forall_forall in Hf.
  destruct (Hf o H) as (_ & t & Ht & Hb & Hi).
  destruct (find_at (chain_transactions parents) _ _); [done|]. by eapply find_at_in.
Qed.

(** The loop over a segment's own indexes reads the chain above the parents. *)
Lemma extract_loop_chain s parents a e gs acc :
  cache_ok (s :: parents) -> keyOutputsGlobalIndexes s !! a = Some e ->
  Forall (fun g => fits 32 g /\ ga_startIndex e <= g) gs ->
  extract_loop s e pred gs acc =
    flat_extract (chain_outputs (s :: parents) a) (chain_transactions (s :: parents)) gs acc.
Proof.
  intros (Hp & (Es & _) & _ & Ho & _) Ea Hg.
  destruct (Ho a e Ea) as (Hs & _ & Hlen & _ & Hf).
  revert acc. induction Hg as [|g gs [Hfg Hge] _ IH]; intros acc; [done|].
  cbn -[chain_outputs chain_transactions].
  rewrite wrap_small by (split; words; lia). cbn [chain_outputs chain_transactions].
  unfold segment_outputs. rewrite Ea, lookup_app_Z by lia.
  replace (g <? _) with false by (symmetry; apply Z.ltb_ge; lia). rewrite <- Hs.
  destruct (ga_outputs e !! _) as [o|] eqn:Eo; [|done].
  rewrite Forall_forall in Hf. destruct (Hf o) as [Hin _]; [by eapply list_elem_of_lookup_2|].
  rewrite find_at_app, find_at_none.
  2:{ eapply Forall_impl; [by apply chain_transactions_below|].
      simpl. intros t Ht. unfold in_segment in Hin. lia. }
  change (find_transaction_at s) with (find_at (transactions s)).
  destruct (find_at _ _ _) as [t|]; [|done]. destruct (pred t o g); [done|].
  rewrite IH. cbn [chain_outputs chain_transactions]. unfold segment_outputs. by rewrite Ea.
Qed.

(** Indexes of outputs below the segment are looked up in its parents. *)
Lemma flat_extract_parents s parents a gs acc :
  cache_ok (s :: parents) ->
  Forall (fun g => chain_outputs parents a !! Z.to_nat g =
                   chain_outputs (s :: parents) a !! Z.to_nat g) gs ->
  flat_extract (chain_outputs parents a) (chain_transactions parents) gs acc =
  flat_extract (chain_outputs (s :: parents) a) (chain_transactions (s :: parents)) gs acc.
Proof.
  intros (Hp & _) H. apply flat_extract_ext. eapply Forall_impl; [exact H|].
  intros g Hg. split; [done|]. intros o Ho. cbn [chain_transactions]. rewrite find_at_app.
  by destruct (chain_output_transaction parents a o Hp) as [t ->];
    [eapply list_elem_of_lookup_2|].
Qed.

(** [extractKeyOutputs] looks the indexes up in the chain. *)
Lemma extractKeyOutputs_chain c a b gs acc :
  cache_ok c -> (forall s parents, c = s :: parents -> startIndex s <= b) ->
  gs <> [] -> StronglySorted Z.le gs -> Forall (fits 32) gs ->
  extractKeyOutputs c a b gs pred acc =
    flat_extract (chain_outputs c a) (chain_transactions c) gs acc.
Proof using pred_error.
  revert gs acc. induction c as [|s parents IH]; intros gs acc Hok Hb Hne Hsort Hfit.
  { by destruct gs. }
  assert (forall p rest, parents = p :: rest -> startIndex p <= b) as Hb'.
  { intros p rest ->. specialize (Hb s (p :: rest) eq_refl).
    pose proof (chain_start _ _ Hok) as E. destruct Hok as (Hp & _).
    rewrite height_cons in E. pose proof (chain_start _ _ Hp). lia. }
  specialize (Hb s parents eq_refl). pose proof Hok as (Hp & _ & _ & Ho & _).
  cbn [extractKeyOutputs]. destruct (keyOutputsGlobalIndexes s !! a) as [e|] eqn:Ea.
  2:{ rewrite IH by done. apply flat_extract_parents; [done|]. apply Forall_forall.
      intros g _. cbn. unfold segment_outputs. by rewrite Ea, app_nil_r. }
  replace (b <? startIndex s) with false by (symmetry; by apply Z.ltb_ge).
  destruct (Ho a e Ea) as (Hs & _).
  destruct (lower_bound_spec (fun g => g <? ga_startIndex e) gs) as (_ & L1 & L2).
  { by apply (partitioned_sorted (fun g => g)). }
  set (n := lower_bound _ gs) in *.
  assert (Forall (fun g => fits 32 g /\ g < ga_startIndex e) (take n gs)) as Hlow.
  { apply Forall_lookup. intros i g Hg. apply lookup_take_Some in Hg as [Hg Hi]. split.
    - rewrite Forall_lookup in Hfit. by eapply Hfit.
    - by apply Z.ltb_lt, (L1 i). }
  assert (Forall (fun g => fits 32 g /\ ga_startIndex e <= g) (drop n gs)) as Hhigh.
  { apply Forall_lookup. intros i g Hg. rewrite lookup_drop in Hg. split.
    - rewrite Forall_lookup in Hfit. by eapply Hfit.
    - apply Z.ltb_ge, (L2 (n + i)%nat); [lia|done]. }
  assert (forall acc, (if (n =? 0)%nat then (SUCCESS, acc)
    else extractKeyOutputs parents a b (take n gs) pred acc) =
    flat_extract (chain_outputs (s :: parents) a) (chain_transactions (s :: parents)) (take n gs) acc)
    as ->.
  { intros acc'. destruct (n =? 0)%nat eqn:En; [by apply Nat.eqb_eq in En as ->|].
    apply Nat.eqb_neq in En. rewrite IH; [|done|done| | |].
    - apply flat_extract_parents; [done|]. eapply Forall_impl; [exact Hlow|].
      intros g [Hfg Hg]. cbn. rewrite lookup_app_Z by apply Hfg.
      replace (g <? _) with true; [done|]. symmetry. apply Z.ltb_lt. lia.
    - destruct gs; [done|]. by destruct n.
    - by apply StronglySorted_take_drop.
    - by apply Forall_take. }
  replace (flat_extract (chain_outputs (s :: parents) a) (chain_transactions (s :: parents)) gs acc)
    with (flat_extract (chain_outputs (s :: parents) a) (chain_transactions (s :: parents))
            (take n gs ++ drop n gs) acc) by (by rewrite take_drop).
  rewrite flat_extract_app.
  destruct (flat_extract _ _ (take n gs) acc) as [[| |] acc']; [|done|done].
  by apply extract_loop_chain.
Qed.

End Extract.
