(* ===== verification/CacheSteps.v ===== *)
(** * Chain segments: splitting and pushing

    The two operations that change a segment, [split] and [pushBlock], keep
    the invariant [cache_ok]; splitting leaves the chain as it is, pushing
    appends to it. *)

From S2P Require Import Prelude Config Bytes Types TxExtra Serialization Block Search Median.
From S2P Require Import Currency Difficulty Upgrade BlockchainCache CacheFacts.

(** ** Splitting *)

(** A list in key order is cut by a bound into what is below and the rest. *)
Lemma filter_sorted_cut {A} (key : A -> Z) k l :
  StronglySorted (fun x y => key x <= key y) l ->
  filter (fun x => key x < k) l ++ filter (fun x => k <= key x) l = l.
Proof.
  induction 1 as [|x l Hs IH Hx]; [done|]. destruct (decide (key x < k)).
  - rewrite filter_cons_True, filter_cons_False by lia. cbn. by rewrite IH.
  - rewrite filter_cons_False, filter_cons_True by lia.
    assert (filter (fun x => key x < k) l = []) as E.
    { clear -Hx n. induction Hx as [|y l Hy Hl IH]; [done|]. rewrite filter_cons_False by lia. done. }
    rewrite E in IH |- *. cbn in *. by rewrite IH.
Qed.

Section Split.
Context (s : Segment) (parents : Cache) (k : Z).
Context (Hok : cache_ok (s :: parents)).
Context (Hk : startIndex s < k < startIndex s + Z.of_nat (length (blockInfos s))).

Let lower := (split s k).1.
Let upper := (split s k).2.

(** The number of blocks that stay below. *)
Let m := Z.to_nat (k - startIndex s).

Lemma split_offset : Z.to_nat (u32 (k - startIndex s)) = m.
Proof.
  destruct Hok as (_ & (E & _ & _ & Hh) & _). rewrite height_cons in Hh.
  pose proof (height_nonneg parents). rewrite wrap_small by (words; lia). done.
Qed.

Lemma split_blocks : blockInfos lower = take m (blockInfos s) /\ blockInfos upper = drop m (blockInfos s).
Proof. unfold lower, upper, split. cbn. by rewrite split_offset. Qed.

Lemma split_storage : storage lower = take m (storage s) /\ storage upper = drop m (storage s).
Proof. unfold lower, upper, split. cbn. by rewrite split_offset. Qed.

Lemma split_height_lower : height (lower :: parents) = k.
Proof.
  rewrite height_cons. destruct split_blocks as [-> _]. rewrite length_take.
  rewrite <- (chain_start _ _ Hok). unfold m. lia.
Qed.

Lemma split_chain_blocks : chain_blocks (upper :: lower :: parents) = chain_blocks (s :: parents).
Proof.
  cbn [chain_blocks]. destruct split_blocks as [-> ->]. by rewrite <- app_assoc, take_drop.
Qed.

Lemma split_chain_storage : chain_storage (upper :: lower :: parents) = chain_storage (s :: parents).
Proof.
  cbn [chain_storage]. destruct split_storage as [-> ->]. by rewrite <- app_assoc, take_drop.
Qed.

Lemma split_chain_transactions :
  chain_transactions (upper :: lower :: parents) = chain_transactions (s :: parents).
Proof.
  cbn [chain_transactions]. unfold lower, upper, split. cbn [fst snd transactions].
  rewrite <- app_assoc. f_equal. apply (filter_sorted_cut ti_blockIndex).
  by destruct Hok as (_ & _ & _ & _ & _ & Hs).
Qed.

Lemma split_spent : spentKeyImages upper ∪ spentKeyImages lower = spentKeyImages s.
Proof.
  unfold lower, upper, split. cbn. apply map_eq. intros ki.
  rewrite lookup_union, !map_lookup_filter. destruct (spentKeyImages s !! ki) as [i|]; [|done]. cbn.
  destruct (decide (k <= i)).
  - rewrite option_guard_True, option_guard_False by lia. done.
  - rewrite option_guard_False, option_guard_True by lia. done.
Qed.

Lemma split_chain_spent : chain_spent (upper :: lower :: parents) = chain_spent (s :: parents).
Proof. cbn [chain_spent]. by rewrite (assoc_L (∪)), split_spent. Qed.

(** The outputs of an amount below the cut. *)
Let cut (e : OutputGlobalIndexesForAmount) : nat :=
  lower_bound (fun o => po_blockIndex o <? k) (ga_outputs e).

Lemma split_segment_outputs a e :
  keyOutputsGlobalIndexes s !! a = Some e ->
  segment_outputs lower a = take (cut e) (ga_outputs e) /\
  segment_outputs upper a = drop (cut e) (ga_outputs e).
Proof.
  intros Ea. unfold segment_outputs, lower, upper, split. cbn.
  rewrite !lookup_omap, Ea. cbn. unfold lower_outputs, upper_outputs. fold (cut e). split.
  - by destruct (take (cut e) (ga_outputs e)).
  - by destruct (drop (cut e) (ga_outputs e)).
Qed.

Lemma split_segment_outputs_none a :
  keyOutputsGlobalIndexes s !! a = None ->
  segment_outputs lower a = [] /\ segment_outputs upper a = [].
Proof.
  intros Ea. unfold segment_outputs, lower, upper, split. cbn. by rewrite !lookup_omap, Ea.
Qed.

Lemma split_chain_outputs a :
  chain_outputs (upper :: lower :: parents) a = chain_outputs (s :: parents) a.
Proof.
  cbn [chain_outputs]. rewrite <- app_assoc. f_equal.
  destruct (keyOutputsGlobalIndexes s !! a) as [e|] eqn:Ea.
  - destruct (split_segment_outputs a e Ea) as [-> ->]. rewrite take_drop.
    unfold segment_outputs. by rewrite Ea.
  - destruct (split_segment_outputs_none a Ea) as [-> ->].
    unfold segment_outputs. by rewrite Ea.
Qed.

(** The outputs on the two sides of the cut belong to the two segments. *)
Lemma cut_sides e :
  StronglySorted (fun o o' => po_blockIndex o <= po_blockIndex o') (ga_outputs e) ->
  (cut e <= length (ga_outputs e))%nat /\
  Forall (fun o => po_blockIndex o < k) (take (cut e) (ga_outputs e)) /\
  Forall (fun o => k <= po_blockIndex o) (drop (cut e) (ga_outputs e)).
Proof.
  intros Hs. destruct (lower_bound_spec _ _ (partitioned_sorted po_blockIndex k _ Hs)) as (H0 & H1 & H2).
  fold (cut e) in *. split; [done|]. split; apply Forall_lookup; intros i o Ho.
  - apply lookup_take_Some in Ho as [Ho Hi]. by apply Z.ltb_lt, (H1 i).
  - rewrite lookup_drop in Ho. apply Z.ltb_ge, (H2 (cut e + i)%nat); [lia|done].
Qed.

Lemma in_split_lower i : in_segment s i -> i < k -> in_segment lower i.
Proof.
  unfold in_segment. destruct split_blocks as [-> _]. rewrite length_take.
  change (startIndex lower) with (startIndex s). unfold m. lia.
Qed.

Lemma in_split_upper i : in_segment s i -> k <= i -> in_segment upper i.
Proof.
  unfold in_segment. destruct split_blocks as [_ ->]. rewrite length_drop.
  change (startIndex upper) with k. unfold m. lia.
Qed.

Lemma split_lower_outputs_ok : outputs_ok lower parents.
Proof.
  intros a e'. unfold lower, split. cbn. rewrite lookup_omap.
  destruct (keyOutputsGlobalIndexes s !! a) as [e|] eqn:Ea; [|done]. cbn.
  destruct Hok as (_ & _ & _ & Ho & _). destruct (Ho a e Ea) as (H1 & _ & H3 & H4 & H5).
  destruct (cut_sides e H4) as (C0 & C1 & _).
  unfold lower_outputs. fold (cut e). destruct (take (cut e) (ga_outputs e)) as [|o l] eqn:Et; [done|].
  intros [= <-]. cbn [ga_startIndex ga_outputs]. split; [done|]. split; [done|].
  rewrite <- Et. split; [rewrite length_take; lia|].
  split; [by apply StronglySorted_take_drop|].
  rewrite Et. rewrite Forall_forall in H5, C1. apply Forall_forall. intros x Hx.
  specialize (C1 x Hx). rewrite <- Et in Hx. apply elem_of_take in Hx as (i & Hx & _).
  destruct (H5 x (list_elem_of_lookup_2 _ _ _ Hx)) as (Hin & t & Ht & Hb & Hi).
  split; [by apply in_split_lower|].
  exists t. split; [|done]. unfold split. cbn. apply list_elem_of_filter. split; [lia|done].
Qed.

Lemma split_upper_outputs_ok : outputs_ok upper (lower :: parents).
Proof.
  intros a e'.
  change (keyOutputsGlobalIndexes upper) with (omap (upper_outputs k) (keyOutputsGlobalIndexes s)).
  rewrite lookup_omap.
  destruct (keyOutputsGlobalIndexes s !! a) as [e|] eqn:Ea; [|done]. cbn [mbind option_bind].
  destruct Hok as (_ & _ & _ & Ho & _). destruct (Ho a e Ea) as (H1 & _ & H3 & H4 & H5).
  destruct (cut_sides e H4) as (C0 & _ & C2).
  assert (length (chain_outputs (lower :: parents) a) =
          length (chain_outputs parents a) + cut e)%nat as Hlen.
  { cbn [chain_outputs]. destruct (split_segment_outputs a e Ea) as [-> _].
    rewrite length_app, length_take. lia. }
  unfold upper_outputs. fold (cut e). destruct (drop (cut e) (ga_outputs e)) as [|o l] eqn:Et; [done|].
  intros [= <-]. cbn [ga_startIndex ga_outputs]. rewrite Hlen, <- Et.
  split.
  { rewrite (wrap_small 32 (Z.of_nat (length (ga_outputs e)))) by (words; lia).
    rewrite (wrap_small 32 (Z.of_nat (length (ga_outputs e) - cut e))) by (words; lia).
    rewrite wrap_small by (words; lia). lia. }
  split; [by rewrite Et|].
  split; [rewrite length_drop; lia|].
  split; [by apply StronglySorted_take_drop|].
  rewrite Et. rewrite Forall_forall in H5, C2. apply Forall_forall. intros x Hx.
  specialize (C2 x Hx). rewrite <- Et in Hx. apply list_elem_of_lookup in Hx as [i Hx].
  rewrite lookup_drop in Hx.
  destruct (H5 x (list_elem_of_lookup_2 _ _ _ Hx)) as (Hin & t & Ht & Hb & Hi).
  split; [by apply in_split_upper|].
  exists t. split; [|done]. unfold upper, split. cbn. apply list_elem_of_filter. split; [lia|done].
Qed.

Lemma split_transactions_ok : transactions_ok lower /\ transactions_ok upper.
Proof.
  destruct Hok as (_ & _ & _ & _ & Ht & Hs). rewrite Forall_forall in Ht.
  split; (split; [apply Forall_forall|apply filter_sorted; exact Hs]);
    intros t [H1 H2]%list_elem_of_filter.
  - apply in_split_lower; [by apply Ht|done].
  - apply in_split_upper; [by apply Ht|done].
Qed.

Lemma split_spent_ok : spent_ok lower parents /\ spent_ok upper (lower :: parents).
Proof.
  destruct Hok as (_ & _ & [Hs Hd] & _). unfold lower, upper, split. split; split; cbn.
  - intros ki i [H1 H2]%map_lookup_filter_Some. apply in_split_lower; [by eapply Hs|done].
  - by eapply map_disjoint_weaken_l, map_filter_subseteq.
  - intros ki i [H1 H2]%map_lookup_filter_Some. apply in_split_upper; [by eapply Hs|done].
  - apply map_disjoint_union_r. split; [|by eapply map_disjoint_weaken_l, map_filter_subseteq].
    apply map_disjoint_spec. intros ki i j [H1 H2]%map_lookup_filter_Some [H3 H4]%map_lookup_filter_Some.
    cbn in *. rewrite H1 in H3. injection H3 as <-. lia.
Qed.

(** Both parts of a split segment satisfy the invariant. *)
Lemma split_ok : cache_ok (upper :: lower :: parents).
Proof.
  destruct split_transactions_ok, split_spent_ok.
  pose proof split_height_lower as Hl. pose proof split_chain_blocks as Hb.
  destruct split_blocks as [B1 B2], split_storage as [S1 S2].
  pose proof Hok as (Hp & (E & Hne & Hst & Hh) & _).
  split; [split; [done|]; split; [|split; [done|]; split; [apply split_lower_outputs_ok|done]]|].
  - split; [done|]. split; [|split].
    + rewrite B1. intros E0. apply (f_equal length) in E0. rewrite length_take in E0.
      simpl in E0. unfold m in E0. lia.
    + by rewrite S1, B1, !length_take, Hst.
    + rewrite Hl. rewrite height_cons, <- E in Hh. lia.
  - split; [|split; [done|]; split; [apply split_upper_outputs_ok|done]].
    split; [by rewrite Hl|]. split; [|split].
    + rewrite B2. intros E0. apply (f_equal length) in E0. rewrite length_drop in E0.
      simpl in E0. unfold m in E0. lia.
    + by rewrite S2, B2, !length_drop, Hst.
    + unfold height. rewrite Hb. exact Hh.
Qed.

End Split.

(** ** Pushing the outputs of a transaction *)

(** The places of the outputs of amount [a] in a transaction. *)
Fixpoint new_outputs (l : list TransactionOutput) (b ti n a : Z) : list PackedOutIndex :=
  match l with
  | [] => []
  | o :: rest =>
      (if decide (amount o = a) then [mkPackedOutIndex b ti (u16 n)] else [])
      ++ new_outputs rest b ti (n + 1) a
  end.

(** Entries continue the numbering of the parents and are not empty. *)
Definition entries_ok (s : Segment) (parents : Cache) : Prop :=
  forall a e, keyOutputsGlobalIndexes s !! a = Some e ->
    ga_startIndex e = Z.of_nat (length (chain_outputs parents a)) /\ ga_outputs e <> [].

(** Everything but the table of outputs is unchanged. *)
Definition same_but_outputs (s s' : Segment) : Prop :=
  startIndex s' = startIndex s /\ transactions s' = transactions s /\
  spentKeyImages s' = spentKeyImages s /\ blockInfos s' = blockInfos s /\
  paymentIds s' = paymentIds s /\ storage s' = storage s.

(** All outputs of the parents lie below a block at their height. *)
Lemma parents_count parents a b :
  cache_ok parents -> height parents <= b ->
  (match parents with [] => 0 | _ => u32 (getKeyOutputsCountForAmount parents a b) end) =
  (match parents with [] => 0 | _ => u32 (Z.of_nat (length (chain_outputs parents a))) end).
Proof.
  intros Hp Hb. destruct parents as [|p rest]; [done|].
  rewrite getKeyOutputsCountForAmount_chain; [|done|].
  - rewrite outputs_below_all; [done|].
    eapply Forall_impl; [by apply chain_outputs_below|]. simpl. intros o. lia.
  - rewrite height_cons in Hb. pose proof (chain_start _ _ Hp). lia.
Qed.

Section Insert.
Context (parents : Cache) (b : Z) (Hp : cache_ok parents) (Hb : height parents <= b).

Lemma insertKeyOutput_spec s a o :
  entries_ok s parents -> Z.of_nat (length (chain_outputs (s :: parents) a)) < 2 ^ 32 - 1 ->
  let '(g, s') := insertKeyOutputToGlobalIndex parents s a o b in
  same_but_outputs s s' /\ entries_ok s' parents /\
  g = Z.of_nat (length (chain_outputs (s :: parents) a)) /\
  (forall a', segment_outputs s' a' = segment_outputs s a' ++ (if decide (a = a') then [o] else [])).
Proof.
  intros He Hlen. unfold insertKeyOutputToGlobalIndex. rewrite parents_count by done.
  assert ((match parents with [] => 0 | _ => u32 (Z.of_nat (length (chain_outputs parents a))) end)
          = Z.of_nat (length (chain_outputs parents a))) as ->.
  { cbn [chain_outputs] in Hlen. rewrite length_app in Hlen.
    destruct parents; [done|]. apply wrap_small. words. lia. }
  set (e' := match keyOutputsGlobalIndexes s !! a with Some _ => _ | None => _ end).
  assert (ga_startIndex e' = Z.of_nat (length (chain_outputs parents a)) /\
          ga_outputs e' = segment_outputs s a ++ [o]) as [E1 E2].
  { unfold e', segment_outputs. destruct (_ !! a) as [e|] eqn:Ea; [|done].
    by destruct (He a e Ea). }
  split; [done|]. split; [|split].
  - intros a' e. cbn. rewrite lookup_insert_Some. intros [[<- <-]|[_ H]]; [|by apply He].
    split; [done|]. rewrite E2. by destruct (segment_outputs s a).
  - cbn [chain_outputs] in *. rewrite E1, E2, !length_app in *. cbn [length].
    rewrite (wrap_small 32 (Z.of_nat (_ + 1))) by (words; lia).
    rewrite wrap_small by (words; lia). lia.
  - intros a'. unfold segment_outputs at 1. cbn. destruct (decide (a = a')) as [<-|Hne].
    + by rewrite lookup_insert_eq, E2.
    + rewrite lookup_insert_ne by done. by rewrite app_nil_r.
Qed.

(** Every output gets the next global index of its amount. *)
Lemma push_outputs_spec outs ti n s :
  entries_ok s parents ->
  (forall a, Z.of_nat (length (chain_outputs (s :: parents) a) + length outs) < 2 ^ 32) ->
  let '(gs, s') := push_outputs parents s outs b ti n in
  same_but_outputs s s' /\ entries_ok s' parents /\
  (forall a, segment_outputs s' a = segment_outputs s a ++ new_outputs outs b ti n a) /\
  length gs = length outs /\
  (forall j g o, gs !! j = Some g -> outs !! j = Some o ->
     chain_outputs (s' :: parents) (amount o) !! Z.to_nat g =
       Some (mkPackedOutIndex b ti (u16 (n + Z.of_nat j)))).
Proof.
  revert n s. induction outs as [|o outs IH]; intros n s He Hlen; cbn [push_outputs].
  { split; [done|]. split; [done|]. split; [intros; by rewrite app_nil_r|]. split; [done|].
    intros j g o Hg. by rewrite lookup_nil in Hg. }
  pose proof (insertKeyOutput_spec s (amount o) (mkPackedOutIndex b ti (u16 n)) He) as Hi.
  destruct (insertKeyOutputToGlobalIndex _ _ _ _ _) as [g s1].
  destruct Hi as (Hsame & He1 & Hg & Hseg); [specialize (Hlen (amount o)); cbn [length] in Hlen; lia|].
  specialize (IH (n + 1) s1 He1). destruct (push_outputs _ s1 _ _ _ _) as [gs s'].
  destruct IH as (Hsame' & He' & Hseg' & Hl & Hgs).
  { intros a. specialize (Hlen a). cbn [chain_outputs length] in *. rewrite Hseg.
    rewrite !length_app in *. destruct (decide _); cbn [length]; lia. }
  split; [unfold same_but_outputs in *; intuition congruence|]. split; [done|]. split; [|split].
  - intros a. rewrite Hseg', Hseg, <- app_assoc. cbn [new_outputs]. done.
  - cbn. by rewrite Hl.
  - intros [|j] g' o'; cbn [lookup list_lookup].
    + intros [= <-] [= <-]. cbn [chain_outputs]. rewrite Hseg', Hseg, decide_True by done.
      rewrite Z.add_0_r, app_assoc, app_assoc, lookup_app_l.
      * rewrite Hg, Nat2Z.id. cbn [chain_outputs]. by rewrite list_lookup_middle.
      * rewrite Hg, Nat2Z.id. cbn [chain_outputs]. rewrite !length_app. cbn. lia.
    + intros H1 H2. rewrite (Hgs j g' o' H1 H2). do 3 f_equal. lia.
Qed.

End Insert.

(** ** Pushing transactions *)

(** What [outputs_ok] asks of the outputs of one amount. *)
Definition amount_ok (s : Segment) (parents : Cache) (a : Z) : Prop :=
  Z.of_nat (length (chain_outputs (s :: parents) a)) < 2 ^ 32 /\
  StronglySorted (fun o o' => po_blockIndex o <= po_blockIndex o') (segment_outputs s a) /\
  Forall (fun o => in_segment s (po_blockIndex o) /\
    exists t, t ∈ transactions s /\ ti_blockIndex t = po_blockIndex o /\
      ti_transactionIndex t = po_transactionIndex o) (segment_outputs s a).

Lemma outputs_ok_alt s parents :
  outputs_ok s parents ->
  entries_ok s parents /\ forall a, segment_outputs s a <> [] -> amount_ok s parents a.
Proof.
  intros Ho. split.
  - intros a e Ea. by destruct (Ho a e Ea) as (? & ? & _).
  - intros a Hne. unfold amount_ok. cbn [chain_outputs]. revert Hne. unfold segment_outputs.
    destruct (_ !! a) as [e|] eqn:Ea; [|done]. intros _.
    destruct (Ho a e Ea) as (_ & _ & ? & ? & ?). by rewrite length_app.
Qed.

Lemma outputs_ok_intro s parents :
  entries_ok s parents -> (forall a, segment_outputs s a <> [] -> amount_ok s parents a) ->
  outputs_ok s parents.
Proof.
  intros He Ha a e Ea. destruct (He a e Ea) as [H1 H2]. specialize (Ha a).
  unfold amount_ok in Ha. cbn [chain_outputs] in Ha. unfold segment_outputs in Ha. rewrite Ea in Ha.
  rewrite length_app in Ha. destruct (Ha H2) as (? & ? & ?). done.
Qed.

Lemma new_outputs_place l b ti n a :
  Forall (fun o => po_blockIndex o = b /\ po_transactionIndex o = ti) (new_outputs l b ti n a) /\
  (length (new_outputs l b ti n a) <= length l)%nat.
Proof.
  revert n. induction l as [|o l IH]; intros n; [split; [constructor|done]|].
  cbn [new_outputs]. destruct (IH (n + 1)) as [H1 H2]. rewrite length_app. split.
  - apply Forall_app. split; [|done]. destruct (decide _); by repeat constructor.
  - destruct (decide _); cbn [length]; lia.
Qed.

(** A segment whose last block, at index [b], is being filled. *)
Definition filling (s : Segment) (parents : Cache) (b : Z) : Prop :=
  cache_ok parents /\ startIndex s = height parents /\ in_segment s b /\
  (forall i, in_segment s i -> i <= b) /\ outputs_ok s parents /\ transactions_ok s.

Lemma sorted_app_last {A} (key : A -> Z) b l1 l2 :
  StronglySorted (fun x y => key x <= key y) l1 -> Forall (fun x => key x <= b) l1 ->
  Forall (fun x => key x = b) l2 -> StronglySorted (fun x y => key x <= key y) (l1 ++ l2).
Proof.
  intros Hs H1 H2. apply StronglySorted_app. split; [|split; [done|]].
  - intros x y Hx Hy. rewrite Forall_forall in H1, H2. rewrite (H2 y Hy). by apply H1.
  - clear Hs H1. induction H2 as [|x l2 Hx H2 IH]; [constructor|]. constructor; [done|].
    eapply Forall_impl; [exact H2|]. simpl. lia.
Qed.

(** Nothing in the segment has the keys of a new transaction. *)
Definition fresh_transaction (s : Segment) (hash : Hash) (b ti : Z) : Prop :=
  Forall (fun t => ti_transactionHash t <> hash /\
    ~ (ti_blockIndex t = b /\ ti_transactionIndex t = ti)) (transactions s).

Lemma insert_transaction_fresh s info :
  fresh_transaction s (ti_transactionHash info) (ti_blockIndex info) (ti_transactionIndex info) ->
  insert_transaction info (transactions s) = transactions s ++ [info].
Proof.
  intros H. unfold insert_transaction. rewrite bool_decide_false; [done|].
  intros He. apply Exists_exists in He as (t & Ht & Hk). unfold fresh_transaction in H.
  rewrite Forall_forall in H. destruct (H t Ht) as [H1 H2]. destruct Hk; tauto.
Qed.

Lemma pushTransaction_ok s parents tx hash b ti :
  filling s parents b -> fresh_transaction s hash b ti ->
  (forall a, Z.of_nat (length (chain_outputs (s :: parents) a) + length (outputs (prefix tx))) < 2 ^ 32) ->
  let s' := pushTransaction parents s tx hash b ti in
  filling s' parents b /\ startIndex s' = startIndex s /\ spentKeyImages s' = spentKeyImages s /\
  blockInfos s' = blockInfos s /\ storage s' = storage s /\
  (forall a, segment_outputs s' a = segment_outputs s a ++ new_outputs (outputs (prefix tx)) b ti 0 a) /\
  exists gs,
    transactions s' = transactions s ++ [mkCachedTransactionInfo b ti hash (unlockTime (prefix tx))
      (map target (outputs (prefix tx))) gs] /\
    length gs = length (outputs (prefix tx)) /\
    (forall j g o, gs !! j = Some g -> outputs (prefix tx) !! j = Some o ->
       chain_outputs (s' :: parents) (amount o) !! Z.to_nat g =
         Some (mkPackedOutIndex b ti (u16 (Z.of_nat j)))).
Proof.
  intros (Hp & Es & Hin & Htop & Ho & Ht & Hts) Hfresh Hlen.
  destruct (outputs_ok_alt _ _ Ho) as [He Ha].
  unfold pushTransaction.
  assert (height parents <= b) as Hb by (unfold in_segment in Hin; lia).
  pose proof (push_outputs_spec parents b Hp Hb (outputs (prefix tx)) ti 0 s He Hlen) as Hpush.
  destruct (push_outputs _ _ _ _ _ _) as [gs s1].
  destruct Hpush as ((S1 & S2 & S3 & S4 & S5 & S6) & He' & Hseg & Hl & Hgs).
  set (info := mkCachedTransactionInfo b ti hash _ _ gs). cbv zeta.
  rewrite S2, insert_transaction_fresh by done.
  set (s' := mkSegment _ _ _ _ _ _ _).
  assert (forall i, in_segment s' i <-> in_segment s i) as Hseg'.
  { intros i. unfold in_segment, s'. cbn. by rewrite S1, S4. }
  assert (forall a, segment_outputs s' a = segment_outputs s a ++
    new_outputs (outputs (prefix tx)) b ti 0 a) as Hout by exact Hseg.
  split; [|split; [done|]; split; [done|]; split; [done|]; split; [done|]; split; [done|]].
  2:{ exists gs. split; [done|]. split; [done|]. exact Hgs. }
  split; [done|]. split; [unfold s'; cbn; by rewrite S1|]. split; [by apply Hseg'|].
  split; [intros i Hi; by apply Htop, Hseg'|]. split.
  - apply outputs_ok_intro; [exact He'|]. intros a _. unfold amount_ok. cbn [chain_outputs].
    rewrite Hout. destruct (new_outputs_place (outputs (prefix tx)) b ti 0 a) as [Hn Hnl].
    assert (segment_outputs s a = [] \/ amount_ok s parents a) as Hcase.
    { destruct (segment_outputs s a) eqn:E; [by left|]. right. apply Ha. by rewrite E. }
    specialize (Hlen a). cbn [chain_outputs] in Hlen. rewrite !length_app in *.
    split; [lia|]. split.
    + apply sorted_app_last with b.
      * destruct Hcase as [->|(_ & ? & _)]; [constructor|done].
      * destruct Hcase as [->|(_ & _ & Hf)]; [constructor|].
        eapply Forall_impl; [exact Hf|]. intros o [Hi _]. by apply Htop.
      * eapply Forall_impl; [exact Hn|]. simpl. tauto.
    + apply Forall_app. split.
      * destruct Hcase as [->|(_ & _ & Hf)]; [constructor|].
        eapply Forall_impl; [exact Hf|]. intros o (Hi & t & Ht1 & Ht2). split; [by apply Hseg'|].
        exists t. split; [|done]. unfold s'. cbn. apply elem_of_app. by left.
      * eapply Forall_impl; [exact Hn|]. intros o [-> ->]. split; [by apply Hseg'|].
        exists info. split; [|done]. unfold s'. cbn. apply elem_of_app. right.
        by apply list_elem_of_singleton.
  - unfold transactions_ok. change (transactions s') with (transactions s ++ [info]). split.
    + apply Forall_app. split; [|apply Forall_singleton; by apply Hseg'].
      eapply Forall_impl; [exact Ht|]. simpl. intros t Hi. by apply Hseg'.
    + apply sorted_app_last with b; [done| |by repeat constructor].
      eapply Forall_impl; [exact Ht|]. simpl. intros t Hi. by apply Htop.
Qed.

Definition total_outputs (txs : list (Transaction * Hash)) : nat :=
  foldr (fun t n => (length (outputs (prefix t.1)) + n)%nat) O txs.

(** The record kept of a transaction: its place, its outputs, and for each
    output the global index under which the chain has it. *)
Definition recorded (c : Cache) (b : Z) (t : Transaction * Hash) (info : CachedTransactionInfo) : Prop :=
  ti_blockIndex info = b /\ ti_transactionHash info = t.2 /\
  ti_unlockTime info = unlockTime (prefix t.1) /\ ti_outputs info = map target (outputs (prefix t.1)) /\
  length (ti_globalIndexes info) = length (outputs (prefix t.1)) /\
  (forall j g o, ti_globalIndexes info !! j = Some g -> outputs (prefix t.1) !! j = Some o ->
     chain_outputs c (amount o) !! Z.to_nat g =
       Some (mkPackedOutIndex b (ti_transactionIndex info) (u16 (Z.of_nat j)))).

Lemma recorded_extend c c' b t info :
  (forall a, chain_outputs c a `prefix_of` chain_outputs c' a) ->
  recorded c b t info -> recorded c' b t info.
Proof.
  intros Hpre (H1 & H2 & H3 & H4 & H5 & H6). repeat split; try done.
  intros j g o Hg Ho. destruct (Hpre (amount o)) as [l ->].
  apply lookup_app_l_Some, (H6 j g o Hg Ho).
Qed.

Lemma push_transactions_ok txs parents b i s :
  filling s parents b -> 0 <= i -> i + Z.of_nat (length txs) <= 2 ^ 16 ->
  NoDup txs.*2 -> (forall t, t ∈ transactions s -> ti_transactionHash t ∉ txs.*2) ->
  Forall (fun t => ti_blockIndex t = b -> ti_transactionIndex t < i) (transactions s) ->
  (forall a, Z.of_nat (length (chain_outputs (s :: parents) a) + total_outputs txs) < 2 ^ 32) ->
  let s' := push_transactions parents s txs b i in
  filling s' parents b /\ startIndex s' = startIndex s /\ spentKeyImages s' = spentKeyImages s /\
  blockInfos s' = blockInfos s /\ storage s' = storage s /\
  (forall a, segment_outputs s a `prefix_of` segment_outputs s' a) /\
  exists infos, transactions s' = transactions s ++ infos /\
    Forall2 (recorded (s' :: parents) b) txs infos /\
    (forall j info, infos !! j = Some info -> ti_transactionIndex info = i + Z.of_nat j).
Proof.
  revert i s. induction txs as [|[tx hash] txs IH]; intros i s Hf Hi Hmax Hnd Hnew Hidx Hlen.
  { cbn. do 5 (split; [done|]). split; [by intros|]. exists []. rewrite app_nil_r.
    split; [done|]. split; [constructor|]. intros j info Hj. by rewrite lookup_nil in Hj. }
  cbn [length] in Hmax. cbn [push_transactions]. rewrite (wrap_small 16 i) by (words; lia).
  apply NoDup_cons in Hnd as [Hh Hnd].
  assert (fresh_transaction s hash b i) as Hfresh.
  { apply Forall_forall. intros t Ht. rewrite Forall_forall in Hidx. split.
    - intros <-. apply (Hnew t Ht). apply list_elem_of_here.
    - intros [Hb Ht']. specialize (Hidx t Ht Hb). lia. }
  destruct (pushTransaction_ok s parents tx hash b i Hf Hfresh) as
    (Hf1 & S1 & S2 & S3 & S4 & Hseg & gs & Htx & Hgl & Hgs).
  { intros a. specialize (Hlen a). cbn [total_outputs foldr fst] in Hlen. lia. }
  set (s1 := pushTransaction parents s tx hash b i) in *.
  destruct (IH (i + 1) s1) as (Hf2 & T1 & T2 & T3 & T4 & Hpre & infos & Htx2 & Hrec & Hind);
    [done|lia|lia|done| | | |].
  - rewrite Htx. intros t [Ht| ->%list_elem_of_singleton]%elem_of_app; [|done].
    intros Hin. apply (Hnew t Ht), elem_of_cons. by right.
  - rewrite Htx. apply Forall_app. split; [|apply Forall_singleton; cbn; lia].
    eapply Forall_impl; [exact Hidx|]. simpl. intros t H1 H2. specialize (H1 H2). lia.
  - intros a. specialize (Hlen a). cbn [total_outputs foldr fst] in Hlen.
    cbn [chain_outputs] in *. rewrite Hseg, !length_app in *.
    destruct (new_outputs_place (outputs (prefix tx)) b i 0 a) as [_ Hnl]. fold (total_outputs txs) in *.
    lia.
  - cbv zeta. do 5 (split; [congruence || done|]). split.
    + intros a. etrans; [|apply Hpre]. rewrite Hseg. by apply prefix_app_r.
    + rewrite Htx2, Htx, <- app_assoc. eexists. split; [done|]. cbn [app]. split; [constructor; [|done]|].
      * apply recorded_extend with (s1 :: parents).
        -- intros a. cbn [chain_outputs]. by apply prefix_app.
        -- repeat split; done.
      * intros [|j] info Hj; cbn in Hj; [injection Hj as <-; cbn; lia|].
        rewrite (Hind j info Hj). lia.
Qed.

(** ** Pushing a block *)

(** A segment a block can be pushed to: one of a cache, or a new one. *)
Definition open_ok (s : Segment) (parents : Cache) : Prop :=
  cache_ok parents /\ startIndex s = height parents /\ length (storage s) = length (blockInfos s) /\
  spent_ok s parents /\ outputs_ok s parents /\ transactions_ok s.

Lemma cache_open s parents : cache_ok (s :: parents) -> open_ok s parents.
Proof. intros (? & (? & ? & ? & ?) & ? & ? & ?). repeat (split; [done|]). done. Qed.

Lemma empty_open parents : cache_ok parents -> open_ok (empty_segment (height parents)) parents.
Proof.
  intros Hp. split; [done|]. split; [done|]. split; [done|]. split; [|split].
  - split; [intros ki i; cbn; by rewrite lookup_empty|apply map_disjoint_empty_l].
  - intros a e. cbn. by rewrite lookup_empty.
  - split; constructor.
Qed.

(** Totals after the last block of a chain. *)
Definition chain_totals (blocks : list CachedBlockInfo) : Z * Z * Z :=
  match last blocks with
  | None => (0, 0, 0)
  | Some b => (bi_cumulativeDifficulty b, bi_alreadyGeneratedCoins b, bi_alreadyGeneratedTransactions b)
  end.

Lemma last_lookup_Z {A} (l : list A) : last l = l !! Z.to_nat (Z.of_nat (length l) - 1).
Proof. rewrite last_lookup. f_equal. lia. Qed.

Lemma getAlreadyGeneratedTransactions_chain c i :
  cache_ok c -> 0 <= i ->
  getAlreadyGeneratedTransactions c i =
    (bi_alreadyGeneratedTransactions <$> chain_blocks c) !! Z.to_nat i.
Proof.
  apply (descend_chain getAlreadyGeneratedTransactions
           (fun s => bi_alreadyGeneratedTransactions <$> blockInfos s)
           (fun c => bi_alreadyGeneratedTransactions <$> chain_blocks c)).
  - done.
  - intros s parents j. cbn. by rewrite list_lookup_fmap.
  - done.
  - intros s parents. cbn. by rewrite fmap_app.
  - intros s parents H. rewrite length_fmap. by apply chain_start.
Qed.

Lemma previous_totals_chain s parents :
  open_ok s parents -> height (s :: parents) < 2 ^ 32 ->
  previous_totals parents s (height (s :: parents)) = Some (chain_totals (chain_blocks (s :: parents))).
Proof.
  intros (Hp & _) Hh. unfold previous_totals, chain_totals. cbn [chain_blocks].
  rewrite last_app. destruct (last (blockInfos s)) as [x|] eqn:El; [done|].
  apply last_None in El. rewrite height_cons, El in *. cbn [length] in *. rewrite Z.add_0_r in *.
  destruct parents as [|p rest]; [done|].
  pose proof (chain_start _ _ Hp) as Es. pose proof Hp as (_ & Hb & _).
  pose proof (blocks_ok_size _ _ Hb) as Hn. pose proof (height_nonneg rest) as Hr.
  rewrite (wrap_small 32 (_ - 1)) by (rewrite height_cons in *; words; lia).
  rewrite getAlreadyGeneratedCoins_chain, getAlreadyGeneratedTransactions_chain
    by (done || rewrite height_cons; lia).
  unfold getCurrentCumulativeDifficulty.
  rewrite wrap_small by (rewrite height_cons in *; words; lia).
  destruct (last (blockInfos p)) as [x|] eqn:El'.
  2:{ apply last_None in El'. rewrite El' in Hn. simpl in Hn. lia. }
  assert (last (chain_blocks (p :: rest)) = Some x) as Ex by (cbn; by rewrite last_app, El').
  rewrite !list_lookup_fmap. change (height (p :: rest) - 1) with
    (Z.of_nat (length (chain_blocks (p :: rest))) - 1). rewrite <- last_lookup_Z, Ex.
  replace (Z.of_nat (length (chain_blocks (p :: rest))) - 1 - startIndex p)
    with (Z.of_nat (length (blockInfos p)) - 1)
    by (change (Z.of_nat (length (chain_blocks (p :: rest)))) with (height (p :: rest));
        rewrite height_cons; lia).
  by rewrite <- last_lookup_Z, El'.
Qed.

(** What [Core] has checked of a block it pushes. *)
Record pushable (s : Segment) (parents : Cache) (b : CachedBlock) (txs : list CachedTx)
    (state : TransactionValidatorState) : Prop := {
  push_index : Block.getBlockIndex (cb_block b) = height (s :: parents);
  push_height : height (s :: parents) + 1 < 2 ^ 32;
  push_hash : cb_hash b ∉ bi_blockHash <$> blockInfos s;
  push_images : forall ki, ki ∈ state -> chain_spent (s :: parents) !! ki = None;
  push_count : Z.of_nat (length txs) + 1 <= 2 ^ 16;
  push_distinct : NoDup (cb_baseHash b :: (ct_hash <$> txs));
  push_new : forall t, t ∈ transactions s ->
    ti_transactionHash t ∉ cb_baseHash b :: (ct_hash <$> txs);
  push_outputs_bound : forall a, Z.of_nat (length (chain_outputs (s :: parents) a) +
    total_outputs ((baseTransaction (cb_block b), cb_baseHash b) ::
      map (fun t => (ct_transaction t, ct_hash t)) txs)) < 2 ^ 32 }.

(** The segment with the block and its key images entered, before its
    transactions are. *)
Lemma filling_start s parents info state b :
  open_ok s parents -> b = height (s :: parents) ->
  (forall ki, ki ∈ state -> chain_spent (s :: parents) !! ki = None) ->
  let s0 := mkSegment (startIndex s) (transactions s) (addSpentKeyImages state b (spentKeyImages s))
              (blockInfos s ++ [info]) (keyOutputsGlobalIndexes s) (paymentIds s) (storage s) in
  filling s0 parents b /\ spent_ok s0 parents /\
  Forall (fun t => ti_blockIndex t = b -> ti_transactionIndex t < 0) (transactions s).
Proof.
  intros (Hp & Es & _ & [Hs Hd] & Ho & Ht & Hts) Eb Hki s0. rewrite height_cons in Eb.
  assert (forall i, in_segment s i -> in_segment s0 i /\ i < b) as Hsub.
  { unfold in_segment, s0. cbn. rewrite length_app. intros i. simpl. lia. }
  assert (in_segment s0 b) as Hb.
  { unfold in_segment, s0. cbn. rewrite length_app, Es. simpl. lia. }
  split; [|split].
  - split; [done|]. split; [done|]. split; [done|]. split.
    { unfold in_segment, s0. cbn. rewrite length_app. simpl. intros i. lia. }
    split; [|split; [eapply Forall_impl; [exact Ht|]; simpl; intros t Hi; by apply Hsub|done]].
    intros a e Ea. destruct (Ho a e Ea) as (H1 & H2 & H3 & H4 & H5).
    repeat (split; [done|]). eapply Forall_impl; [exact H5|].
    intros o [Hi Ht']. split; [by apply Hsub|done].
  - unfold spent_ok. change (spentKeyImages s0) with (spentKeyImages s ∪ gset_to_gmap b state). split.
    + intros ki i. rewrite lookup_union_Some_raw, lookup_gset_to_gmap_Some.
      intros [H|(_ & _ & <-)]; [by apply Hsub, (Hs ki)|done].
    + apply map_disjoint_union_l. split; [done|]. apply map_disjoint_spec.
      intros ki i j [Hin _]%lookup_gset_to_gmap_Some Hj. apply Hki in Hin. cbn in Hin.
      apply lookup_union_None in Hin as [_ Hin]. congruence.
  - eapply Forall_impl; [exact Ht|]. simpl. intros t Hi E. apply Hsub in Hi. lia.
Qed.

(** The transactions of a block with their hashes, the base transaction first. *)
Definition block_transactions (b : CachedBlock) (txs : list CachedTx) : list (Transaction * Hash) :=
  (baseTransaction (cb_block b), cb_baseHash b) :: map (fun t => (ct_transaction t, ct_hash t)) txs.

Lemma block_transactions_hashes b txs :
  (block_transactions b txs).*2 = cb_baseHash b :: (ct_hash <$> txs).
Proof. unfold block_transactions. cbn. f_equal. induction txs; [done|]. cbn. by f_equal. Qed.

(** The entry of the new block. *)
Definition new_block_info (blocks : list CachedBlockInfo) (b : CachedBlock) (ntxs : nat)
    (blockSize generatedCoins blockDifficulty : Z) : CachedBlockInfo :=
  let '(cumulativeDifficulty, coins, txs) := chain_totals blocks in
  mkCachedBlockInfo (cb_hash b) (timestamp (header (cb_block b)))
    (u64 (cumulativeDifficulty + blockDifficulty)) (u64 (coins + generatedCoins))
    (u64 (txs + (Z.of_nat ntxs + 1))) (u32 blockSize).

Lemma doPushBlock_spec s parents b txs state size coins diff raw :
  open_ok s parents -> pushable s parents b txs state ->
  exists s', doPushBlock parents s b txs state size coins diff raw = Some s' /\
    cache_ok (s' :: parents) /\
    chain_blocks (s' :: parents) = chain_blocks (s :: parents) ++
      [new_block_info (chain_blocks (s :: parents)) b (length txs) size coins diff] /\
    chain_storage (s' :: parents) = chain_storage (s :: parents) ++ [raw] /\
    chain_spent (s' :: parents) =
      chain_spent (s :: parents) ∪ gset_to_gmap (height (s :: parents)) state /\
    (forall a, chain_outputs (s :: parents) a `prefix_of` chain_outputs (s' :: parents) a) /\
    exists infos, chain_transactions (s' :: parents) = chain_transactions (s :: parents) ++ infos /\
      Forall2 (recorded (s' :: parents) (height (s :: parents))) (block_transactions b txs) infos /\
      (forall j info, infos !! j = Some info -> ti_transactionIndex info = Z.of_nat j).
Proof.
  intros Hopen [Hidx Hh Hhash Hki Hcnt Hnd Hnew Hout]. unfold doPushBlock.
  pose proof (previous_totals_chain s parents Hopen ltac:(lia)) as Htot.
  rewrite Hidx, Htot. cbn [mbind option_bind]. unfold new_block_info.
  destruct (chain_totals _) as [[cd gc] gt].
  set (info := mkCachedBlockInfo _ _ _ _ _ _). unfold push_block_info.
  rewrite bool_decide_false by (exact Hhash).
  destruct (filling_start s parents info state _ Hopen eq_refl Hki) as (Hfill & Hspent & Hlow).
  set (s0 := mkSegment _ _ _ (_ ++ [info]) _ _ _) in *.
  rewrite <- block_transactions_hashes in Hnd, Hnew. fold (block_transactions b txs) in *.
  destruct (push_transactions_ok (block_transactions b txs) parents (height (s :: parents)) 0 s0)
    as (Hf & S1 & S2 & S3 & S4 & Hpre & infos & Htx & Hrec & Hind); try done.
  { unfold block_transactions. cbn [length]. rewrite length_map. lia. }
  set (s1 := push_transactions _ _ _ _ _) in *. eexists. split; [reflexivity|].
  destruct Hf as (Hp & E1 & _ & _ & Ho & Ht). destruct Hopen as (_ & Es & Hst & [Hs _] & _).
  split; [|split; [|split; [|split; [|split]]]].
  - split; [done|]. split; [|split; [|split; [exact Ho|exact Ht]]].
    + split; [done|]. cbn [blockInfos storage]. rewrite S3, S4. unfold s0. cbn [blockInfos storage].
      split; [by destruct (blockInfos s)|]. split; [rewrite !length_app; cbn; lia|].
      rewrite height_cons in *. cbn [blockInfos]. rewrite length_app. cbn. lia.
    + unfold spent_ok, in_segment. cbn [spentKeyImages startIndex blockInfos].
      rewrite S1, S2, S3. exact Hspent.
  - cbn [chain_blocks blockInfos]. rewrite S3. unfold s0. cbn. by rewrite app_assoc.
  - cbn [chain_storage storage]. rewrite S4. unfold s0. cbn. by rewrite app_assoc.
  - cbn [chain_spent spentKeyImages]. rewrite S2. unfold s0. cbn [spentKeyImages].
    unfold addSpentKeyImages. rewrite <- !(assoc_L (∪)). f_equal. apply map_union_comm.
    apply map_disjoint_spec. intros ki i j [Hin _]%lookup_gset_to_gmap_Some Hj.
    specialize (Hki ki Hin). cbn [chain_spent] in Hki.
    apply lookup_union_None in Hki as [_ Hk]. by rewrite Hk in Hj.
  - intros a. cbn [chain_outputs]. apply prefix_app. exact (Hpre a).
  - exists infos. split; [|by split].
    cbn [chain_transactions transactions]. rewrite Htx. by rewrite app_assoc.
Qed.
