(* ===== verification/CacheTheorems.v ===== *)
(** * Chain segments: theorems

    What the other components may rely on: queries answer for the whole
    chain, splitting a segment cannot be observed at its top, a pushed block
    is found again with its key images and outputs.  The last section shows
    where the segment boundaries do show. *)

From S2P Require Import Prelude Config Bytes Types TxExtra Serialization Block Search Median.
From S2P Require Import Currency Difficulty Upgrade BlockchainCache CacheFacts CacheSteps.

(** ** A small chain for the examples: two blocks in one segment, three
    outputs of amount 70, one key image spent. *)

Definition sample_segment : Segment := {|
  startIndex := 0;
  transactions := [
    mkCachedTransactionInfo 0 0 [20] 20 [KeyOutput [1]] [0];
    mkCachedTransactionInfo 1 0 [21] 21 [KeyOutput [2]] [1];
    mkCachedTransactionInfo 1 1 [22] 0 [KeyOutput [3]] [2]];
  spentKeyImages := {[ [99] := 1 ]};
  blockInfos := [
    mkCachedBlockInfo [10] 1000 1 500 1 300;
    mkCachedBlockInfo [11] 1090 3 900 3 400];
  keyOutputsGlobalIndexes := {[ 70 := mkOutputGlobalIndexes 0
    [mkPackedOutIndex 0 0 0; mkPackedOutIndex 1 0 0; mkPackedOutIndex 1 1 0] ]};
  paymentIds := [];
  storage := [mkRawBlock [] []; mkRawBlock [] []] |}.

Lemma sample_ok : cache_ok [sample_segment].
Proof.
  split; [done|]. split; [by repeat split|]. split; [|split; [|split]].
  - split; [|apply map_disjoint_empty_r].
    intros ki i. cbn [spentKeyImages sample_segment].
    intros [<- <-]%lookup_singleton_Some. split; [done|reflexivity].
  - intros a e. cbn [keyOutputsGlobalIndexes sample_segment].
    intros [<- <-]%lookup_singleton_Some. split; [done|]. split; [done|]. split; [done|].
    split; [by repeat constructor|].
    repeat (apply Forall_cons; split; [split; [split; [done|reflexivity]|]|]); [| | |constructor].
    + exists (mkCachedTransactionInfo 0 0 [20] 20 [KeyOutput [1]] [0]).
      split; [apply list_elem_of_here|done].
    + exists (mkCachedTransactionInfo 1 0 [21] 21 [KeyOutput [2]] [1]).
      split; [do 1 apply list_elem_of_further; apply list_elem_of_here|done].
    + exists (mkCachedTransactionInfo 1 1 [22] 0 [KeyOutput [3]] [2]).
      split; [do 2 apply list_elem_of_further; apply list_elem_of_here|done].
  - repeat constructor; try done.
  - repeat constructor; done.
Qed.

(** ** Queries *)

(** C19: under the invariant, queries
    that walk through the segments answer for the chain they hold.  A key
    image is reported spent at a height exactly when some block up to this
    height spent it; hashes, stored blocks and generated coins are those of
    the block at the index; and [getLastUnits], the source of the time
    stamps, difficulties and sizes behind retarget, reward and median checks,
    returns exactly the last [count] blocks up to the index, across segment
    boundaries, without the genesis block unless it is asked for. *)
Theorem cache_queries_correct c :
  cache_ok c ->
  (forall ki i, checkIfSpent c ki i = true <-> exists b, chain_spent c !! ki = Some b /\ b <= i) /\
  (forall ki, checkIfSpent_any c ki = true <-> is_Some (chain_spent c !! ki)) /\
  (forall i, 0 <= i ->
     getBlockHash c i = (bi_blockHash <$> chain_blocks c) !! Z.to_nat i /\
     getBlockByIndex c i = chain_storage c !! Z.to_nat i /\
     getAlreadyGeneratedCoins c i = (bi_alreadyGeneratedCoins <$> chain_blocks c) !! Z.to_nat i) /\
  (forall count i u pred, 0 <= i < height c -> 0 <= count ->
     getLastUnits c count i u pred = Some (map pred (last_blocks (chain_blocks c) count i u))).
Proof.
  intros Hc. split; [|split; [|split]].
  - intros ki i. rewrite checkIfSpent_chain by done. destruct (chain_spent c !! ki) as [b|].
    + rewrite Z.leb_le. split; [by exists b|]. intros (b' & [= <-] & ?). done.
    + split; [done|]. by intros (? & ? & _).
  - intros ki. by rewrite checkIfSpent_any_chain, bool_decide_eq_true.
  - intros i Hi. split; [by apply getBlockHash_chain|]. split; [by apply getBlockByIndex_chain|].
    by apply getAlreadyGeneratedCoins_chain.
  - intros. by apply getLastUnits_chain.
Qed.

Lemma cache_queries_correct_witness :
  checkIfSpent [sample_segment] [99] 1 = true /\ checkIfSpent [sample_segment] [99] 0 = false /\
  getLastUnits [sample_segment] 5 1 false bi_timestamp = Some [1090].
Proof.
  destruct (cache_queries_correct [sample_segment] sample_ok) as (H1 & _ & _ & H4).
  split; [apply H1; exists 1; split; [reflexivity|lia]|]. split; [reflexivity|].
  rewrite (H4 5 1 false bi_timestamp); [reflexivity|split; [lia|reflexivity]|lia].
Defined.

(** ** Splitting *)

(** C17: cutting a segment in two keeps the
    invariant and no query at or above the cut can tell: spent key images,
    block hashes, stored blocks, generated coins, windows of last blocks,
    output counts and extracted ring members are the same before and after. *)
Theorem split_transparent s parents k :
  cache_ok (s :: parents) ->
  startIndex s < k < startIndex s + Z.of_nat (length (blockInfos s)) ->
  let '(lower, upper) := split s k in
  let c := s :: parents in
  let c' := upper :: lower :: parents in
  cache_ok c' /\
  (forall ki i, checkIfSpent c' ki i = checkIfSpent c ki i) /\
  (forall i, 0 <= i -> getBlockHash c' i = getBlockHash c i /\
     getBlockByIndex c' i = getBlockByIndex c i /\
     getAlreadyGeneratedCoins c' i = getAlreadyGeneratedCoins c i) /\
  (forall count i u pred, 0 <= i < height c -> 0 <= count ->
     getLastUnits c' count i u pred = getLastUnits c count i u pred) /\
  (forall a b, k <= b -> getKeyOutputsCountForAmount c' a b = getKeyOutputsCountForAmount c a b) /\
  (forall currency now a b gs, k <= b -> gs <> [] -> StronglySorted Z.le gs -> Forall (fits 32) gs ->
     extractKeyOutputKeys currency now c' a b gs = extractKeyOutputKeys currency now c a b gs).
Proof.
  intros Hok Hk. pose proof (split_ok s parents k Hok Hk) as Hok'.
  pose proof (split_chain_blocks s parents k Hok Hk) as Eb.
  pose proof (split_chain_storage s parents k Hok Hk) as Est.
  pose proof (split_chain_transactions s parents k Hok) as Et.
  pose proof (split_chain_spent s parents k) as Es.
  pose proof (split_chain_outputs s parents k) as Eo.
  assert (startIndex (split s k).2 = k) as Ek by done.
  destruct (split s k) as [lower upper]. cbn [fst snd] in *. cbv zeta.
  split; [done|]. split; [|split; [|split; [|split]]].
  - intros. by rewrite !checkIfSpent_chain, Es by done.
  - intros i Hi. rewrite !getBlockHash_chain, !getBlockByIndex_chain,
      !getAlreadyGeneratedCoins_chain by done. by rewrite Eb, Est.
  - intros count i u pred Hi Hc. rewrite !getLastUnits_chain; try done; [by rewrite Eb|].
    unfold height. by rewrite Eb.
  - intros a b Hb. rewrite !getKeyOutputsCountForAmount_chain by (done || lia). by rewrite Eo.
  - intros currency now a b gs Hb Hne Hs Hf. unfold extractKeyOutputKeys.
    rewrite !extractKeyOutputs_chain; try done;
      try (intros ? ? [= <- <-]; lia); try by (intros t o g; repeat case_match).
    by rewrite Eo, Et.
Qed.

Lemma split_transparent_witness :
  let '(lower, upper) := split sample_segment 1 in
  extractKeyOutputKeys CurrencyBuilder 0 [upper; lower] 70 25 [0; 2] =
    extractKeyOutputKeys CurrencyBuilder 0 [sample_segment] 70 25 [0; 2] /\
  extractKeyOutputKeys CurrencyBuilder 0 [sample_segment] 70 25 [0; 2] = (SUCCESS, [[1]; [3]]).
Proof.
  split; [|reflexivity].
  apply (split_transparent sample_segment [] 1 sample_ok (conj eq_refl eq_refl));
    [done|done|by repeat constructor|by repeat constructor].
Defined.

(** ** Ring members *)

(** The chain's output of amount [a] with global index [g] has key [key] and
    may be spent at height [b]. *)
Definition spendable_key (currency : Currency) (now : Z) (c : Cache) (a b g : Z) (key : PublicKey) : Prop :=
  exists o t, chain_outputs c a !! Z.to_nat g = Some o /\
    find_at (chain_transactions c) (po_blockIndex o) (po_transactionIndex o) = Some t /\
    isTransactionSpendTimeUnlocked currency now (ti_unlockTime t) b = true /\
    ti_outputs t !! Z.to_nat (po_outputIndex o) = Some (KeyOutput key).

(** asked at the height of
    its last segment for a sorted list of global indexes, the cache succeeds
    with a list of keys exactly when these are, one by one, the keys of the
    outputs of the chain with these numbers and each of them is unlocked. *)
Theorem extractKeyOutputKeys_correct currency now s parents a b gs keys :
  cache_ok (s :: parents) -> startIndex s <= b ->
  gs <> [] -> StronglySorted Z.le gs -> Forall (fits 32) gs ->
  (extractKeyOutputKeys currency now (s :: parents) a b gs = (SUCCESS, keys) <->
   Forall2 (spendable_key currency now (s :: parents) a b) gs keys).
Proof.
  intros Hok Hb Hne Hs Hf. unfold extractKeyOutputKeys.
  rewrite extractKeyOutputs_chain; [|by intros t o g; repeat case_match|done|
    by intros ? ? [= <- <-]|done|done|done].
  set (c := s :: parents). clearbody c. clear.
  set (p := fun _ _ _ => _).
  assert (forall acc, flat_extract p (chain_outputs c a) (chain_transactions c) gs acc =
    (SUCCESS, acc ++ keys) <-> Forall2 (spendable_key currency now c a b) gs keys) as H;
    [|exact (H [])].
  revert keys. induction gs as [|g gs IH]; intros keys acc; cbn [flat_extract].
  - split; [|by intros ->%Forall2_nil_inv_l; rewrite app_nil_r].
    intros [= E]. rewrite <- (app_nil_r acc) in E at 1. apply app_inv_head in E as <-. constructor.
  - split.
    + destruct (chain_outputs c a !! _) as [o|] eqn:Eo; [|done].
      destruct (find_at _ _ _) as [t|] eqn:Et; [|done]. unfold p at 1.
      destruct (isTransactionSpendTimeUnlocked _ _ _ _) eqn:Eu; [|done]. cbn [negb].
      destruct (ti_outputs t !! _) as [[key]|] eqn:Ek; [|done]. cbn [key_of_target].
      intros E. assert (exists l, keys = key :: l) as [l ->].
      { pose proof (flat_extract_prefix p (chain_outputs c a) (chain_transactions c) gs (acc ++ [key]))
          as [l Hl]. rewrite E in Hl. cbn in Hl. exists l.
        rewrite <- app_assoc in Hl. by apply app_inv_head in Hl. }
      constructor; [by exists o, t|]. apply (IH l (acc ++ [key])). by rewrite <- app_assoc.
    + intros (key & l & (o & t & Eo & Et & Eu & Ek) & Hl & ->)%Forall2_cons_inv_l.
      rewrite Eo, Et. unfold p at 1. rewrite Eu. cbn [negb]. rewrite Ek. cbn [key_of_target].
      replace (acc ++ key :: l) with ((acc ++ [key]) ++ l) by (by rewrite <- app_assoc).
      by apply IH.
Qed.

Lemma extractKeyOutputKeys_correct_witness :
  extractKeyOutputKeys CurrencyBuilder 0 [sample_segment] 70 25 [1; 2] = (SUCCESS, [[2]; [3]]) /\
  Forall2 (spendable_key CurrencyBuilder 0 [sample_segment] 70 25) [1; 2] [[2]; [3]].
Proof.
  split; [reflexivity|].
  apply (extractKeyOutputKeys_correct CurrencyBuilder 0 sample_segment [] 70 25 [1; 2] [[2]; [3]]
    sample_ok); [vm_compute; discriminate|done|by repeat constructor|by repeat constructor|reflexivity].
Defined.

(** below its top a cache
    does not look at the heights of the outputs it hands out, which only an
    assertion of debug builds checks.  Asked at height 0 for an output that
    block 1 created, the whole segment returns its key, while after a split
    at block 1, which is what adding a block on top of block 0 does, the same
    question is answered with an error. *)
Theorem ring_member_from_the_future :
  exists s, cache_ok [s] /\
    let '(lower, upper) := split s 1 in
    chain_outputs [s] 70 !! 2%nat = Some (mkPackedOutIndex 1 1 0) /\
    extractKeyOutputKeys CurrencyBuilder 0 [s] 70 0 [2] = (SUCCESS, [[3]]) /\
    extractKeyOutputKeys CurrencyBuilder 0 [upper; lower] 70 0 [2] = (INVALID_GLOBAL_INDEX, []).
Proof.
  exists sample_segment. split; [exact sample_ok|]. by vm_compute.
Qed.

(** ** Pushing a block *)

(** C4: pushing a block that [Core] has
    checked, on a segment of a cache or on a new segment above it, succeeds
    and keeps the invariant.  The chain is longer by the block, with its hash
    and with cumulative difficulty and coins counted on from the block below,
    and the block is stored; exactly its key images become spent, at its
    height; and each output of its transactions has a global index under
    which it is found from now on. *)
Theorem pushBlock_correct s parents b txs state size coins diff raw :
  open_ok s parents -> pushable s parents b txs state ->
  exists s', pushBlock (s :: parents) b txs state size coins diff raw = Some (s' :: parents) /\
    cache_ok (s' :: parents) /\
    chain_blocks (s' :: parents) = chain_blocks (s :: parents) ++
      [new_block_info (chain_blocks (s :: parents)) b (length txs) size coins diff] /\
    getTopBlockHash (s' :: parents) = Some (cb_hash b) /\
    getBlockByIndex (s' :: parents) (height (s :: parents)) = Some raw /\
    (forall ki i, checkIfSpent (s' :: parents) ki i = true <->
       (exists j, chain_spent (s :: parents) !! ki = Some j /\ j <= i) \/
       (ki ∈ state /\ height (s :: parents) <= i)) /\
    (forall t, t ∈ block_transactions b txs -> exists info,
       info ∈ chain_transactions (s' :: parents) /\
       recorded (s' :: parents) (height (s :: parents)) t info).
Proof.
  intros Ho Hp.
  destruct (doPushBlock_spec s parents b txs state size coins diff raw Ho Hp)
    as (s' & E & Hok & Hb & Hst & Hsp & _ & infos & Ht & Hrec & _).
  exists s'. cbn [pushBlock]. rewrite E. split; [done|]. split; [done|]. split; [done|].
  split; [|split; [|split]].
  - cbn. cbn [chain_blocks] in Hb. rewrite <- app_assoc in Hb. apply app_inv_head in Hb.
    rewrite Hb, last_app. cbn. unfold new_block_info. by destruct (chain_totals _) as [[? ?] ?].
  - rewrite getBlockByIndex_chain by (done || apply height_nonneg). rewrite Hst.
    assert (length (chain_storage (s :: parents)) = Z.to_nat (height (s :: parents))) as <-.
    { destruct Ho as (Hpar & _ & Hl & _). unfold height. rewrite Nat2Z.id. cbn.
      by rewrite !length_app, length_chain_storage, Hl. }
    by rewrite list_lookup_middle.
  - intros ki i. rewrite checkIfSpent_chain, Hsp, lookup_union by done.
    destruct (chain_spent (s :: parents) !! ki) as [j|] eqn:Ej.
    + rewrite union_Some_l, Z.leb_le. split; [left; by exists j|].
      intros [(j' & [= <-] & ?)|[Hki ?]]; [done|].
      by rewrite (push_images _ _ _ _ _ Hp ki Hki) in Ej.
    + rewrite (left_id_L None (∪)), lookup_gset_to_gmap. case_guard; cbn.
      * rewrite Z.leb_le. split; [by right|]. by intros [(? & ? & _)|[_ ?]].
      * split; [done|]. by intros [(? & ? & _)|[? _]].
  - intros t Hin. apply list_elem_of_lookup in Hin as [j Hj].
    destruct (Forall2_lookup_l _ _ _ _ _ Hrec Hj) as (info & Hi & Hr).
    exists info. split; [|done]. rewrite Ht. apply elem_of_app. right.
    by eapply list_elem_of_lookup_2.
Qed.

(** Block 2 of the example, with one transaction that spends key image 98. *)
Definition sample_push : CachedBlock := {|
  cb_block := mkBlockTemplate (mkBlockHeader 1 0 0 1180 [11]) default_parent
    (mkTransaction (mkTransactionPrefix 1 22 [BaseInput 2]
       [mkTransactionOutput 70 (KeyOutput [4])] []) []) [[24]];
  cb_hash := [12];
  cb_baseHash := [23] |}.

Definition sample_push_txs : list CachedTx :=
  [mkCachedTx (mkTransaction (mkTransactionPrefix 1 0 [KeyInput 70 [0] [98]]
     [mkTransactionOutput 60 (KeyOutput [5])] []) [[]]) [24] []].

Lemma sample_pushable : pushable sample_segment [] sample_push sample_push_txs {[ [98] ]}.
Proof.
  split.
  - reflexivity.
  - reflexivity.
  - apply (bool_decide_unpack _). by vm_compute.
  - intros ki ->%elem_of_singleton. reflexivity.
  - by vm_compute.
  - apply (bool_decide_unpack _). by vm_compute.
  - intros t Ht. apply (bool_decide_unpack _). revert t Ht. apply Forall_forall.
    repeat constructor.
  - intros a. cbn [chain_outputs app]. unfold segment_outputs. cbn [keyOutputsGlobalIndexes sample_segment].
    destruct (decide (70 = a)) as [<-|Hne].
    + rewrite lookup_singleton_eq. reflexivity.
    + rewrite lookup_singleton_ne by done. reflexivity.
Qed.

Lemma pushBlock_correct_witness :
  exists s', pushBlock [sample_segment] sample_push sample_push_txs {[ [98] ]} 700 400 5
    (mkRawBlock [1] []) = Some [s'] /\ checkIfSpent [s'] [98] 2 = true /\
    getTopBlockHash [s'] = Some [12].
Proof.
  destruct (pushBlock_correct sample_segment [] sample_push sample_push_txs {[ [98] ]} 700 400 5
    (mkRawBlock [1] []) (cache_open _ _ sample_ok) sample_pushable)
    as (s' & E & _ & _ & Ht & _ & Hs & _).
  exists s'. split; [exact E|]. split; [|exact Ht]. apply Hs. right.
  split; [by apply elem_of_singleton|]. vm_compute. discriminate.
Defined.
