(* ===== verification/Validation.v ===== *)
(** * Validation of transactions and blocks

    [Core::validateSemantic], [Core::validateTransaction] and
    [Core::validateBlock] of [src/cryptonote_core/core.cpp], the validator
    state of [transaction_validatior_state.cpp] and the output offsets of
    [cryptonote_format_utils.cpp].  The elliptic curve functions are
    arguments.  The chain is reached through the interface
    [IBlockchainCache], as in the code. *)

From S2P Require Import Prelude Config Bytes Types Serialization Block Search Median Currency.
From S2P Require Import Difficulty Upgrade Checkpoints BlockchainCache CacheFacts CacheTheorems.
Import parameters.

(** ** Errors

    The codes of the three error categories; [VALIDATION_SUCCESS] is the
    right summand of the results. *)

Inductive TransactionValidationError :=
  | EMPTY_INPUTS
  | INPUT_UNKNOWN_TYPE
  | INPUT_EMPTY_OUTPUT_USAGE
  | INPUT_INVALID_DOMAIN_KEYIMAGES
  | INPUT_IDENTICAL_KEYIMAGES
  | INPUT_IDENTICAL_OUTPUT_INDEXES
  | INPUT_KEYIMAGE_ALREADY_SPENT
  | INPUT_INVALID_GLOBAL_INDEX
  | INPUT_SPEND_LOCKED_OUT
  | INPUT_INVALID_SIGNATURES
  | INPUT_WRONG_SIGNATURES_COUNT
  | INPUTS_AMOUNT_OVERFLOW
  | INPUT_WRONG_COUNT
  | INPUT_UNEXPECTED_TYPE
  | BASE_INPUT_WRONG_BLOCK_INDEX
  | OUTPUT_ZERO_AMOUNT
  | OUTPUT_INVALID_KEY
  | OUTPUT_INVALID_REQUIRED_SIGNATURES_COUNT
  | OUTPUT_UNKNOWN_TYPE
  | OUTPUTS_AMOUNT_OVERFLOW
  | WRONG_AMOUNT
  | WRONG_TRANSACTION_UNLOCK_TIME
  | INVALID_MIXIN
  | EXTRA_TOO_LARGE
  | BASE_INVALID_SIGNATURES_COUNT
  | INPUT_INVALID_SIGNATURES_COUNT.

Inductive BlockValidationError :=
  | WRONG_VERSION
  | PARENT_BLOCK_SIZE_TOO_BIG
  | PARENT_BLOCK_WRONG_VERSION
  | TIMESTAMP_TOO_FAR_IN_FUTURE
  | TIMESTAMP_TOO_FAR_IN_PAST
  | CUMULATIVE_BLOCK_SIZE_TOO_BIG
  | DIFFICULTY_OVERHEAD
  | BLOCK_REWARD_MISMATCH
  | CHECKPOINT_BLOCK_HASH_MISMATCH
  | PROOF_OF_WORK_TOO_WEAK
  | TRANSACTION_ABSENT_IN_POOL
  | TRANSACTION_DUPLICATES
  | TRANSACTION_INCONSISTENCY.

(** [std::error_code]; [Exception] stands for an exception that leaves the
    function. *)
Inductive ErrorCode :=
  | TransactionError (e : TransactionValidationError)
  | BlockError (e : BlockValidationError)
  | Exception.

(** ** The validator state *)

Definition mergeStates (destination source : TransactionValidatorState) : TransactionValidatorState :=
  destination ∪ source.

Definition hasIntersections (destination source : TransactionValidatorState) : bool :=
  existsb (fun ki => bool_decide (ki ∈ destination)) (elements source).

Definition excludeFromState (state : TransactionValidatorState) (t : Transaction)
  : TransactionValidatorState :=
  fold_left (fun st ki => st ∖ {[ ki ]}) (key_images (inputs (prefix t))) state.

Definition extractSpentOutputs (t : Transaction) : TransactionValidatorState :=
  list_to_set (key_images (inputs (prefix t))).

(** ** Output offsets *)

Fixpoint offsets_from (previous : Z) (off : list Z) : list Z :=
  match off with
  | [] => []
  | o :: rest => let absolute := u32 (previous + o) in absolute :: offsets_from absolute rest
  end.

Definition relativeOutputOffsetsToAbsolute (off : list Z) : list Z :=
  match off with [] => [] | o :: rest => o :: offsets_from o rest end.

Fixpoint differences_from (previous : Z) (off : list Z) : list Z :=
  match off with [] => [] | o :: rest => u32 (o - previous) :: differences_from o rest end.

Definition absolute_output_offsets_to_relative (off : list Z) : list Z :=
  match off with [] => [] | o :: rest => o :: differences_from o rest end.

(** ** The interface to the chain *)

Class IBlockchainCache (C : Type) := {
  ic_checkIfSpent : C -> KeyImage -> Z -> bool;
  ic_extractKeyOutputKeys : C -> Z -> Z -> list Z -> ExtractOutputKeysResult * list PublicKey;
  ic_getBlockIndex : C -> Hash -> option Z;
  ic_getLastTimestamps : C -> Z -> Z -> bool -> option (list Z) }.

(** What validation relies on, for the states [ic_ok] of an implementation:
    what is spent stays spent at greater heights, and every index asked for
    yields one key. *)
Class IBlockchainCacheLaws (C : Type) `{IBlockchainCache C} (ic_ok : C -> Prop) := {
  ic_spent_mono c ki i j :
    ic_ok c -> i <= j -> ic_checkIfSpent c ki i = true -> ic_checkIfSpent c ki j = true;
  ic_extract_length c a b gs keys :
    ic_ok c -> ic_extractKeyOutputKeys c a b gs = (SUCCESS, keys) -> length keys = length gs }.

Section Validation.
Context (check_key : PublicKey -> bool).
Context (scalarmultKey : KeyImage -> KeyImage -> KeyImage).

(** ** [validateSemantic] *)

(** The loop over the outputs with [summaryOutputAmount]. *)
Fixpoint check_outputs (l : list TransactionOutput) (summary : Z)
  : TransactionValidationError + Z :=
  match l with
  | [] => inr summary
  | output :: rest =>
      if amount output =? 0 then inl OUTPUT_ZERO_AMOUNT
      else if negb (check_key (key_of_target (target output))) then inl OUTPUT_INVALID_KEY
      else if UINT64_MAX - amount output <? summary then inl OUTPUTS_AMOUNT_OVERFLOW
      else check_outputs rest (u64 (summary + amount output))
  end.

Definition image_I : KeyImage := 1 :: replicate 31 0.
Definition image_L : KeyImage :=
  [0xed; 0xd3; 0xf5; 0x5c; 0x1a; 0x63; 0x12; 0x58; 0xd6; 0x9c; 0xf7; 0xa2; 0xde; 0xf9; 0xde; 0x14;
   0x00; 0x00; 0x00; 0x00; 0x00; 0x00; 0x00; 0x00; 0x00; 0x00; 0x00; 0x00; 0x00; 0x00; 0x00; 0x10].

(** The loop over the inputs with [ki] and [summaryInputAmount]. *)
Fixpoint check_inputs (l : list TransactionInput) (ki : gset KeyImage) (summary : Z)
  : TransactionValidationError + Z :=
  match l with
  | [] => inr summary
  | BaseInput _ :: _ => inl INPUT_UNKNOWN_TYPE
  | KeyInput amount outputIndexes keyImage :: rest =>
      if bool_decide (keyImage ∈ ki) then inl INPUT_IDENTICAL_KEYIMAGES
      else if bool_decide (outputIndexes = []) then inl INPUT_EMPTY_OUTPUT_USAGE
      else if negb (bool_decide (scalarmultKey keyImage image_L = image_I))
      then inl INPUT_INVALID_DOMAIN_KEYIMAGES
      else if bool_decide (0 ∈ tail outputIndexes) then inl INPUT_IDENTICAL_OUTPUT_INDEXES
      else if UINT64_MAX - amount <? summary then inl INPUTS_AMOUNT_OVERFLOW
      else check_inputs rest ({[ keyImage ]} ∪ ki) (u64 (summary + amount))
  end.

(** The fee, or why the transaction is malformed. *)
Definition validateSemantic (t : Transaction) : TransactionValidationError + Z :=
  if bool_decide (inputs (prefix t) = []) then inl EMPTY_INPUTS
  else
    match check_outputs (outputs (prefix t)) 0 with
    | inl e => inl e
    | inr summaryOutputAmount =>
        match check_inputs (inputs (prefix t)) ∅ 0 with
        | inl e => inl e
        | inr summaryInputAmount =>
            if summaryInputAmount <? summaryOutputAmount then inl WRONG_AMOUNT
            else inr (summaryInputAmount - summaryOutputAmount)
        end
    end.

(** ** What a well-formed transaction is *)

Definition output_valid (o : TransactionOutput) : Prop :=
  amount o <> 0 /\ check_key (key_of_target (target o)) = true.

(** A key input with a ring, no zero offset after the first, and a key image
    in the prime order subgroup. *)
Definition input_valid (i : TransactionInput) : Prop :=
  match i with
  | BaseInput _ => False
  | KeyInput _ outputIndexes keyImage =>
      outputIndexes <> [] /\ (0 ∉ tail outputIndexes) /\
      scalarmultKey keyImage image_L = image_I
  end.

Definition semantic_ok (t : Transaction) : Prop :=
  let ins := inputs (prefix t) in
  let outs := outputs (prefix t) in
  ins <> [] /\ Forall output_valid outs /\ Forall input_valid ins /\ NoDup (key_images ins) /\
  sumZ (key_amounts ins) <= UINT64_MAX /\ sumZ (output_amounts outs) <= sumZ (key_amounts ins).

Lemma check_outputs_spec l s r :
  Forall output_ok l -> 0 <= s <= UINT64_MAX ->
  check_outputs l s = inr r <->
  Forall output_valid l /\ s + sumZ (output_amounts l) <= UINT64_MAX /\
  r = s + sumZ (output_amounts l).
Proof.
  intros Hl. revert s. induction Hl as [|o l [Ha _] Hl IH]; intros s Hs.
  { cbn. rewrite Z.add_0_r. split; [intros [= <-]; split; [constructor|lia]|by intros (_ & _ & ->)]. }
  change (output_amounts (o :: l)) with (amount o :: output_amounts l).
  cbn [check_outputs sumZ fold_right]. fold (sumZ (output_amounts l)).
  rewrite Forall_cons. unfold output_valid at 1.
  assert (0 <= sumZ (output_amounts l)) as Hpos.
  { apply sumZ_nonneg. clear -Hl. induction Hl as [|x l [Hx _] _ IH]; constructor; [apply Hx|done]. }
  destruct (amount o =? 0) eqn:E0; bool_to_prop; [by split; [|intros [[[? _] _] _]]|].
  destruct (check_key _); cbn [negb]; [|by split; [|intros [[[_ ?] _] _]]].
  destruct (UINT64_MAX - amount o <? s) eqn:Eo; bool_to_prop.
  { split; [done|]. intros (_ & ? & _). exfalso. lia. }
  rewrite wrap_small by (words; lia). rewrite IH by (words; lia).
  rewrite Z.add_assoc. tauto.
Qed.

Lemma key_amounts_nonneg l : Forall input_ok l -> 0 <= sumZ (key_amounts l).
Proof.
  intros H. apply sumZ_nonneg. induction H as [|[b|a idx ki] l Hi _ IH]; cbn; [constructor|done|].
  constructor; [apply Hi|done].
Qed.

Lemma check_inputs_spec l ki s r :
  Forall input_ok l -> 0 <= s <= UINT64_MAX ->
  check_inputs l ki s = inr r <->
  Forall input_valid l /\ NoDup (key_images l) /\ (forall k, k ∈ key_images l -> k ∉ ki) /\
  s + sumZ (key_amounts l) <= UINT64_MAX /\ r = s + sumZ (key_amounts l).
Proof.
  intros Hl. revert ki s. induction Hl as [|[b|a idx image] l Hi Hl IH]; intros ki s Hs.
  - cbn. rewrite Z.add_0_r. split; [|by intros (_ & _ & _ & _ & ->)]. intros [= <-].
    split; [constructor|]. split; [constructor|]. split; [by intros k ?%elem_of_nil|lia].
  - cbn. split; [done|]. by intros ([? _]%Forall_cons & _).
  - pose proof (key_amounts_nonneg l Hl) as Hpos.
    change (key_images (KeyInput a idx image :: l)) with (image :: key_images l).
    change (key_amounts (KeyInput a idx image :: l)) with (a :: key_amounts l).
    cbn [check_inputs sumZ fold_right]. fold (sumZ (key_amounts l)).
    rewrite Forall_cons, NoDup_cons. cbn [input_valid].
    destruct (decide (image ∈ ki)) as [Hin|Hin]; [rewrite bool_decide_true by done|].
    { split; [done|]. intros (_ & _ & H & _). by destruct (H image (list_elem_of_here _ _)). }
    rewrite bool_decide_false by done.
    destruct (decide (idx = [])) as [->|Hne]; [by split; [|intros [[[? _] _] _]]|].
    rewrite (bool_decide_false (idx = [])) by done.
    destruct (decide (scalarmultKey image image_L = image_I)) as [Hd|Hd];
      [rewrite (bool_decide_true (_ = image_I)) by done
      |rewrite (bool_decide_false (_ = image_I)) by done]; cbn [negb];
      [|by split; [|intros [[(_ & _ & ?) _] _]]].
    destruct (decide (0 ∈ tail idx)) as [H0|H0]; [by rewrite bool_decide_true; [split; [|intros [[(_ & ? & _) _] _]]|]|].
    rewrite (bool_decide_false (0 ∈ _)) by done.
    destruct (UINT64_MAX - a <? s) eqn:Eo; bool_to_prop.
    { split; [done|]. intros (_ & _ & _ & ? & _). exfalso. lia. }
    destruct Hi as [Ha _]. rewrite wrap_small by (words; lia). rewrite IH by (words; lia).
    setoid_rewrite elem_of_cons. rewrite Z.add_assoc.
    assert ((forall k, k ∈ key_images l -> k ∉ {[ image ]} ∪ ki) <->
      (image ∉ key_images l) /\ (forall k, k = image \/ k ∈ key_images l -> k ∉ ki)) as Hfresh; [|tauto].
    split.
    + intros H. split; [intros Hin'; apply (H image Hin'), elem_of_union; left; by apply elem_of_singleton|].
      intros k [->|Hk]; [done|]. intros Hk'. by apply (H k Hk), elem_of_union; right.
    + intros [H1 H2] k Hk [->%elem_of_singleton|Hk']%elem_of_union; [done|]. by apply (H2 k); [right|].
Qed.

(** The fee of a transaction in unbounded integers. *)
Definition exact_fee (t : Transaction) : Z :=
  sumZ (key_amounts (inputs (prefix t))) - sumZ (output_amounts (outputs (prefix t))).

Lemma validateSemantic_spec t fee :
  prefix_ok (prefix t) -> validateSemantic t = inr fee <-> semantic_ok t /\ fee = exact_fee t.
Proof.
  intros (_ & _ & Hin & _ & Hout & _). unfold validateSemantic, semantic_ok, exact_fee.
  set (ins := inputs (prefix t)) in *. set (outs := outputs (prefix t)) in *.
  destruct (decide (ins = [])) as [->|Hne]; [by split; [|intros [[? _] _]]|].
  rewrite bool_decide_false by done.
  pose proof (key_amounts_nonneg ins Hin) as Hpos.
  assert (0 <= 0 <= UINT64_MAX) as H0 by done.
  destruct (check_outputs outs 0) as [e|so] eqn:Eo.
  { split; [done|]. intros [(_ & Hv & _ & _ & H1 & H2) _].
    rewrite (proj2 (check_outputs_spec outs 0 _ Hout H0) (conj Hv (conj (Z.le_trans _ _ _ H2 H1) eq_refl))) in Eo.
    done. }
  apply check_outputs_spec in Eo as (Hv & Hs & ->); [|done|done].
  destruct (check_inputs ins ∅ 0) as [e|si] eqn:Ei.
  { split; [done|]. intros [(_ & _ & Hvi & Hnd & H1 & H2) _].
    rewrite (proj2 (check_inputs_spec ins ∅ 0 _ Hin H0) (conj Hvi (conj Hnd (conj
      (fun k _ => not_elem_of_empty k) (conj H1 eq_refl))))) in Ei. done. }
  apply check_inputs_spec in Ei as (Hvi & Hnd & _ & Hsi & ->); [|done|done].
  rewrite !Z.add_0_l in *. destruct (_ <? _) eqn:E; bool_to_prop.
  - split; [done|]. intros [(_ & _ & _ & _ & _ & ?) _]. lia.
  - split; [intros [= <-]; repeat split; try done; lia|by intros [_ ->]].
Qed.

Context (checkRingSignature : Hash -> KeyImage -> list PublicKey -> list Signature -> bool).
Context (cn_fast_hash : list Z -> list Z).

(** ** [validateTransaction] *)

Section WithCache.
Context {C : Type} `{IBlockchainCache C}.
Context (points : Points).

(** The checks of one input against the chain, outside the checkpoint zone.
    [sigs] are the signatures of the input. *)
Definition check_input_on_chain (cache : C) (prefixHash : Hash) (amount : Z)
    (outputIndexes : list Z) (keyImage : KeyImage) (sigs : list Signature) (blockIndex : Z)
  : option TransactionValidationError :=
  if ic_checkIfSpent cache keyImage blockIndex then Some INPUT_KEYIMAGE_ALREADY_SPENT
  else
    let globalIndexes := relativeOutputOffsetsToAbsolute outputIndexes in
    match ic_extractKeyOutputKeys cache amount blockIndex globalIndexes with
    | (INVALID_GLOBAL_INDEX, _) => Some INPUT_INVALID_GLOBAL_INDEX
    | (OUTPUT_LOCKED, _) => Some INPUT_SPEND_LOCKED_OUT
    | (SUCCESS, outputKeys) =>
        if (TRANSACTION_SIGNATURE_COUNT_VALIDATION_HEIGHT <=? blockIndex) &&
           negb (length outputKeys =? length sigs)%nat
        then Some INPUT_INVALID_SIGNATURES_COUNT
        else if negb (checkRingSignature prefixHash keyImage outputKeys sigs)
        then Some INPUT_INVALID_SIGNATURES
        else None
    end.

(** The loop over the inputs; the key images met so far are in [state].  A
    transaction comes with one vector of signatures per input. *)
Fixpoint validate_inputs (cache : C) (prefixHash : Hash) (l : list TransactionInput)
    (sigs : list (list Signature)) (blockIndex : Z) (state : TransactionValidatorState)
  : option TransactionValidationError * TransactionValidatorState :=
  match l with
  | [] => (None, state)
  | BaseInput _ :: _ => (Some INPUT_UNKNOWN_TYPE, state)
  | KeyInput amount outputIndexes keyImage :: rest =>
      if bool_decide (keyImage ∈ state) then (Some INPUT_KEYIMAGE_ALREADY_SPENT, state)
      else
        let state := {[ keyImage ]} ∪ state in
        match (if isInCheckpointZone points (u32 (blockIndex + 1)) then None
               else check_input_on_chain cache prefixHash amount outputIndexes keyImage
                      (default [] (head sigs)) blockIndex) with
        | Some e => (Some e, state)
        | None => validate_inputs cache prefixHash rest (tail sigs) blockIndex state
        end
  end.

(** The fee or the error, and the new state. *)
Definition validateTransaction (cache : C) (t : Transaction) (state : TransactionValidatorState)
    (blockIndex : Z) : (TransactionValidationError + Z) * TransactionValidatorState :=
  match validateSemantic t with
  | inl e => (inl e, state)
  | inr fee =>
      match validate_inputs cache (getTransactionPrefixHash cn_fast_hash t) (inputs (prefix t))
              (signatures t) blockIndex state with
      | (Some e, state) => (inl e, state)
      | (None, state) => (inr fee, state)
      end
  end.

(** The transactions of a block one after the other, with [cumulativeFee]. *)
Fixpoint validateTransactions (cache : C) (l : list Transaction) (state : TransactionValidatorState)
    (blockIndex cumulativeFee : Z) : TransactionValidationError + (Z * TransactionValidatorState) :=
  match l with
  | [] => inr (cumulativeFee, state)
  | t :: rest =>
      match validateTransaction cache t state blockIndex with
      | (inl e, _) => inl e
      | (inr fee, state) => validateTransactions cache rest state blockIndex (u64 (cumulativeFee + fee))
      end
  end.

(** ** [validateBlock] *)

Context (currency : Currency) (upgradeManager : UpgradeManager.t).

(** The miner's reward, or the error.  [now] is [getAdjustedTime]. *)
Definition validateBlock (cache : C) (b : BlockTemplate) (now : Z) : ErrorCode + Z :=
  match ic_getBlockIndex cache (previousBlockHash (header b)) with
  | None => inl Exception
  | Some previousBlockIndex =>
      let next := u32 (previousBlockIndex + 1) in
      let base := baseTransaction b in
      if negb (UpgradeManager.getBlockMajorVersion upgradeManager (Block.getBlockIndex b)
               =? majorVersion (header b))
      then inl (BlockError WRONG_VERSION)
      else if (majorVersion (header b) =? BLOCK_MAJOR_VERSION_2) &&
              (BLOCK_MAJOR_VERSION_1 <? pb_majorVersion (parentBlock b))
      then inl (BlockError PARENT_BLOCK_WRONG_VERSION)
      else
        match (if BLOCK_MAJOR_VERSION_2 <=? majorVersion (header b)
               then getParentBlockBinaryArray cn_fast_hash false b else Some []) with
        | None => inl Exception
        | Some parent =>
            if 2048 <? Z.of_nat (length parent) then inl (BlockError PARENT_BLOCK_SIZE_TOO_BIG)
            else if u64 (now + blockFutureTimeLimit currency next) <? timestamp (header b)
            then inl (BlockError TIMESTAMP_TOO_FAR_IN_FUTURE)
            else
              let window := timestampCheckWindow currency next in
              match ic_getLastTimestamps cache window previousBlockIndex true with
              | None => inl Exception
              | Some timestamps =>
                  if (window <=? Z.of_nat (length timestamps)) &&
                     (timestamp (header b) <? medianValue timestamps)
                  then inl (BlockError TIMESTAMP_TOO_FAR_IN_PAST)
                  else
                    match inputs (prefix base) with
                    | [BaseInput blockIndex] =>
                        if negb (blockIndex =? next)
                        then inl (TransactionError BASE_INPUT_WRONG_BLOCK_INDEX)
                        else if negb (unlockTime (prefix base) =?
                                      u32 (next + m_minedMoneyUnlockWindow currency))
                        then inl (TransactionError WRONG_TRANSACTION_UNLOCK_TIME)
                        else if (TRANSACTION_SIGNATURE_COUNT_VALIDATION_HEIGHT <=? Block.getBlockIndex b)
                                && negb (bool_decide (signatures base = []))
                        then inl (TransactionError BASE_INVALID_SIGNATURES_COUNT)
                        else
                          match check_outputs (outputs (prefix base)) 0 with
                          | inl e => inl (TransactionError e)
                          | inr minerReward => inr minerReward
                          end
                    | [_] => inl (TransactionError INPUT_UNEXPECTED_TYPE)
                    | _ => inl (TransactionError INPUT_WRONG_COUNT)
                    end
              end
        end
  end.

End WithCache.

(** ** Soundness of the checks against the chain *)

Section Sound.
Context {C : Type} `{HC : IBlockchainCache C} (ic_ok : C -> Prop) `{HL : !IBlockchainCacheLaws C ic_ok}.
Context (points : Points).

(** An input that may be spent on top of block [b]: its key image is not
    spent, its ring exists and is unlocked, its ring signature verifies. *)
Definition ring_ok (cache : C) (prefixHash : Hash) (a : Z) (idx : list Z) (ki : KeyImage)
    (sigs : list Signature) (b : Z) : Prop :=
  ic_checkIfSpent cache ki b = false /\
  exists keys,
    ic_extractKeyOutputKeys cache a b (relativeOutputOffsetsToAbsolute idx) = (SUCCESS, keys) /\
    checkRingSignature prefixHash ki keys sigs = true /\
    (TRANSACTION_SIGNATURE_COUNT_VALIDATION_HEIGHT <= b -> length sigs = length keys).

Lemma check_input_on_chain_spec cache ph a idx ki sigs b :
  check_input_on_chain cache ph a idx ki sigs b = None <-> ring_ok cache ph a idx ki sigs b.
Proof.
  unfold check_input_on_chain, ring_ok.
  destruct (ic_checkIfSpent cache ki b); [by split; [|intros [? _]]|].
  destruct (ic_extractKeyOutputKeys _ _ _ _) as [[| |] keys].
  2,3: by split; [|intros (_ & ? & ? & _)].
  destruct (TRANSACTION_SIGNATURE_COUNT_VALIDATION_HEIGHT <=? b) eqn:Eh; bool_to_prop; cbn [andb].
  - destruct (length keys =? length sigs)%nat eqn:El; cbn [negb].
    + apply Nat.eqb_eq in El. destruct (checkRingSignature ph ki keys sigs) eqn:Es; cbn [negb].
      * split; [|done]. intros _. split; [done|]. exists keys. by repeat split.
      * split; [done|]. intros (_ & k & [= <-] & ? & _). congruence.
    + apply Nat.eqb_neq in El. split; [done|]. intros (_ & k & [= <-] & _ & H). by rewrite H in El.
  - destruct (checkRingSignature ph ki keys sigs) eqn:Es; cbn [negb].
    + split; [|done]. intros _. split; [done|]. exists keys. split; [done|]. split; [done|]. lia.
    + split; [done|]. intros (_ & k & [= <-] & ? & _). congruence.
Qed.

Lemma validate_inputs_sound cache ph l sigs b state state' :
  validate_inputs points cache ph l sigs b state = (None, state') ->
  NoDup (key_images l) /\ (forall k, k ∈ key_images l -> k ∉ state) /\
  state' = list_to_set (key_images l) ∪ state /\
  (isInCheckpointZone points (u32 (b + 1)) = false ->
   forall j a idx ki, l !! j = Some (KeyInput a idx ki) ->
     ring_ok cache ph a idx ki (default [] (sigs !! j)) b).
Proof.
  revert sigs state. induction l as [|[bi|a idx ki] l IH]; intros sigs state; cbn [validate_inputs].
  - intros [= <-]. split; [constructor|]. split; [by intros k ?%elem_of_nil|].
    split; [cbn; by rewrite (left_id_L ∅ (∪))|]. intros _ j a idx ki Hj. by rewrite lookup_nil in Hj.
  - done.
  - destruct (decide (ki ∈ state)) as [Hin|Hin]; [by rewrite bool_decide_true|].
    rewrite bool_decide_false by done.
    destruct (if isInCheckpointZone _ _ then None else _) eqn:Ec; [done|]. intros H.
    destruct (IH _ _ H) as (Hnd & Hfresh & -> & Hring).
    change (key_images (KeyInput a idx ki :: l)) with (ki :: key_images l).
    assert (ki ∉ key_images l) as Hki.
    { intros Hk. apply (Hfresh ki Hk), elem_of_union. left. by apply elem_of_singleton. }
    split; [by constructor|]. split; [|split].
    + intros k [->|Hk]%elem_of_cons; [done|]. intros Hs. apply (Hfresh k Hk), elem_of_union. by right.
    + rewrite list_to_set_cons, !(assoc_L (∪)). f_equal. apply (comm_L (∪)).
    + intros Hz [|j] a' idx' ki'; cbn [lookup list_lookup].
      * intros [= <- <- <-]. rewrite Hz in Ec. apply check_input_on_chain_spec in Ec.
        by destruct sigs.
      * intros Hj. specialize (Hring Hz j a' idx' ki' Hj). destruct sigs; [|done].
        by rewrite lookup_nil in *.
Qed.

Definition block_images (l : list Transaction) : list KeyImage :=
  concat (map (fun t => key_images (inputs (prefix t))) l).

Lemma validateTransactions_sound cache l b fee0 state0 fee state :
  Forall (fun t => prefix_ok (prefix t)) l ->
  validateTransactions points cache l state0 b fee0 = inr (fee, state) ->
  Forall semantic_ok l /\ NoDup (block_images l) /\ (forall k, k ∈ block_images l -> k ∉ state0) /\
  state = list_to_set (block_images l) ∪ state0 /\
  u64 fee = u64 (fee0 + sumZ (map exact_fee l)) /\
  (isInCheckpointZone points (u32 (b + 1)) = false ->
   forall t j a idx ki, t ∈ l -> inputs (prefix t) !! j = Some (KeyInput a idx ki) ->
     ring_ok cache (getTransactionPrefixHash cn_fast_hash t) a idx ki
       (default [] (signatures t !! j)) b).
Proof.
  intros Hl. revert fee0 state0. induction Hl as [|t l Ht Hl IH]; intros fee0 state0; cbn [validateTransactions].
  - intros [= <- <-]. split; [constructor|]. split; [constructor|]. split; [by intros k ?%elem_of_nil|].
    split; [cbn; by rewrite (left_id_L ∅ (∪))|]. split; [cbn; by rewrite Z.add_0_r|].
    intros _ t j a idx ki Hin. by apply elem_of_nil in Hin.
  - unfold validateTransaction. destruct (validateSemantic t) as [e|f] eqn:Es; [done|].
    apply (validateSemantic_spec t f Ht) in Es as [Hsem ->].
    destruct (validate_inputs _ _ _ _ _ _ _) as [[e|] state1] eqn:Ei; [done|]. intros H.
    apply validate_inputs_sound in Ei as (Hnd & Hfresh & -> & Hring).
    destruct (IH _ _ H) as (Hsem' & Hnd' & Hfresh' & -> & Hfee & Hring').
    change (block_images (t :: l)) with (key_images (inputs (prefix t)) ++ block_images l).
    split; [by constructor|]. split; [|split; [|split; [|split]]].
    + apply NoDup_app. split; [done|]. split; [|done]. intros k Hk Hk'.
      apply (Hfresh' k Hk'), elem_of_union. left. by apply elem_of_list_to_set.
    + intros k [Hk|Hk]%elem_of_app; [by apply Hfresh|]. intros Hs.
      apply (Hfresh' k Hk), elem_of_union. by right.
    + rewrite list_to_set_app_L, !(assoc_L (∪)). f_equal. apply (comm_L (∪)).
    + rewrite Hfee, wrap_add_l. cbn [map sumZ fold_right]. by rewrite Z.add_assoc.
    + intros Hz t' j a idx ki [->|Hin]%elem_of_cons Hj; [by apply Hring|by apply Hring'].
Qed.

End Sound.
End Validation.

(** ** Theorems *)

(** C18: for every transaction of the
    code's types, the stateless check succeeds exactly when the transaction
    has inputs, all of them key inputs with a ring, distinct key images of
    the prime order subgroup and no zero offset; outputs with non-zero
    amounts and valid keys; sums that fit 64 bits; and inputs covering the
    outputs.  The fee is then the exact difference, so no money is made by a
    wrap-around. *)
Theorem validateSemantic_correct check_key scalarmultKey t fee :
  prefix_ok (prefix t) ->
  (validateSemantic check_key scalarmultKey t = inr fee <->
   semantic_ok check_key scalarmultKey t /\ fee = exact_fee t).
Proof. apply validateSemantic_spec. Qed.

Definition sample_spend : Transaction :=
  mkTransaction (mkTransactionPrefix 1 0 [KeyInput 70 [0; 2] (replicate 32 9)]
    [mkTransactionOutput 60 (KeyOutput (replicate 32 5))] []) [[replicate 64 0; replicate 64 0]].

Lemma validateSemantic_correct_witness :
  prefix_ok (prefix sample_spend) /\
  semantic_ok (fun _ => true) (fun _ _ => image_I) sample_spend /\
  validateSemantic (fun _ => true) (fun _ _ => image_I) sample_spend = inr 10.
Proof.
  assert (prefix_ok (prefix sample_spend)) as H by (apply (bool_decide_unpack _); vm_compute; exact I).
  split; [exact H|]. split; [|reflexivity].
  apply (validateSemantic_correct (fun _ => true) (fun _ _ => image_I) sample_spend 10 H). reflexivity.
Defined.

(** C3: when the transactions of a block
    pass validation on top of block [b], outside the checkpoint zone, then no
    key image occurs twice in the block and none was spent at any height up
    to [b]; the collected set is exactly the block's key images; each ring
    has as many members as the input names offsets and its signature
    verifies against them; every transaction is well-formed, and the fee is
    the sum of the exact fees modulo 2^64.  This holds for every cache that
    satisfies the interface's laws. *)
Theorem block_no_double_spend check_key scalarmultKey checkRingSignature cn_fast_hash
    {C} `{IBlockchainCache C} (ic_ok : C -> Prop) `{!IBlockchainCacheLaws C ic_ok}
    points cache l b fee state :
  ic_ok cache -> Forall (fun t => prefix_ok (prefix t)) l ->
  isInCheckpointZone points (u32 (b + 1)) = false ->
  validateTransactions check_key scalarmultKey checkRingSignature cn_fast_hash points cache l ∅ b 0
    = inr (fee, state) ->
  Forall (semantic_ok check_key scalarmultKey) l /\
  NoDup (block_images l) /\ state = list_to_set (block_images l) /\
  u64 fee = u64 (sumZ (map exact_fee l)) /\
  (forall t j a idx ki, t ∈ l -> inputs (prefix t) !! j = Some (KeyInput a idx ki) ->
     (forall i, i <= b -> ic_checkIfSpent cache ki i = false) /\
     exists keys,
       ic_extractKeyOutputKeys cache a b (relativeOutputOffsetsToAbsolute idx) = (SUCCESS, keys) /\
       length keys = length (relativeOutputOffsetsToAbsolute idx) /\
       checkRingSignature (getTransactionPrefixHash cn_fast_hash t) ki keys
         (default [] (signatures t !! j)) = true).
Proof.
  intros Hok Hl Hz Hv.
  apply validateTransactions_sound in Hv as (Hs & Hnd & _ & -> & Hf & Hr); [|done].
  split; [done|]. split; [done|]. split; [by rewrite (right_id_L ∅ (∪))|]. split; [done|].
  intros t j a idx ki Ht Hj. destruct (Hr Hz t j a idx ki Ht Hj) as (Hns & keys & He & Hsig & _).
  split.
  - intros i Hi. destruct (ic_checkIfSpent cache ki i) eqn:E; [|done].
    by rewrite (ic_spent_mono cache ki i b Hok Hi E) in Hns.
  - exists keys. split; [done|]. split; [by eapply ic_extract_length|done].
Qed.

(** ** The chain segments implement the interface *)

#[global] Instance segments_cache (currency : Currency) (now : Z) : IBlockchainCache Cache := {
  ic_checkIfSpent := checkIfSpent;
  ic_extractKeyOutputKeys := extractKeyOutputKeys currency now;
  ic_getBlockIndex c h := match c with s :: _ => BlockchainCache.getBlockIndex s h | [] => None end;
  ic_getLastTimestamps := getLastTimestamps }.

(** Every index that is answered yields one value. *)
Lemma extract_loop_length {A} s e
    (pred : CachedTransactionInfo -> PackedOutIndex -> Z -> ExtractOutputKeysResult + A) gs acc acc' :
  (forall t o g, pred t o g <> inl SUCCESS) ->
  extract_loop s e pred gs acc = (SUCCESS, acc') -> length acc' = (length acc + length gs)%nat.
Proof.
  intros Hp. revert acc. induction gs as [|g gs IH]; intros acc; cbn [extract_loop].
  { intros [= <-]. simpl. lia. }
  destruct (ga_outputs e !! _) as [o|]; [|done].
  destruct (find_transaction_at _ _ _) as [t|]; [|done].
  destruct (pred t o g) as [err|a] eqn:E; [intros [= -> _]; by apply Hp in E|].
  intros H. rewrite (IH _ H), length_app. simpl. lia.
Qed.

Lemma extractKeyOutputs_length {A} c a b gs
    (pred : CachedTransactionInfo -> PackedOutIndex -> Z -> ExtractOutputKeysResult + A) acc acc' :
  (forall t o g, pred t o g <> inl SUCCESS) ->
  extractKeyOutputs c a b gs pred acc = (SUCCESS, acc') -> length acc' = (length acc + length gs)%nat.
Proof.
  intros Hp. revert gs acc acc'. induction c as [|s parents IH]; intros gs acc acc'; [done|].
  cbn [extractKeyOutputs]. destruct (keyOutputsGlobalIndexes s !! a) as [e|]; [|apply IH].
  destruct (b <? startIndex s); [apply IH|].
  set (n := lower_bound _ gs). destruct (n =? 0)%nat eqn:En.
  - apply Nat.eqb_eq in En. rewrite En. intros H. by apply extract_loop_length in H.
  - destruct (extractKeyOutputs parents _ _ _ _ _) as [r acc1] eqn:E1.
    destruct r; [|done|done]. intros H. apply extract_loop_length in H; [|done].
    rewrite H, (IH _ _ _ E1), <- Nat.add_assoc, <- length_app. by rewrite take_drop.
Qed.

#[global] Instance segments_laws currency now :
  @IBlockchainCacheLaws Cache (segments_cache currency now) cache_ok.
Proof.
  split.
  - intros c ki i j Hok Hij. cbn. rewrite !checkIfSpent_chain by done.
    destruct (chain_spent c !! ki); [|done]. rewrite !Z.leb_le. lia.
  - intros c a b gs keys _ H. apply extractKeyOutputs_length in H; [done|].
    intros t o g. by repeat case_match.
Qed.

Lemma block_no_double_spend_witness :
  NoDup (block_images [sample_spend]) /\
  validateTransactions (fun _ => true) (fun _ _ => image_I) (fun _ _ _ _ => true) (fun l => l) ∅
    (H := segments_cache CurrencyBuilder 0) [sample_segment] [sample_spend] ∅ 25 0
    = inr (10, {[ replicate 32 9 ]}).
Proof.
  assert (validateTransactions (fun _ => true) (fun _ _ => image_I) (fun _ _ _ _ => true) (fun l => l) ∅
    (H := segments_cache CurrencyBuilder 0) [sample_segment] [sample_spend] ∅ 25 0
    = inr (10, {[ replicate 32 9 ]})) as Hv by (vm_compute; reflexivity).
  assert (Forall (fun t => prefix_ok (prefix t)) [sample_spend]) as Hp.
  { constructor; [apply (bool_decide_unpack _); vm_compute; exact I|constructor]. }
  assert (isInCheckpointZone ∅ (u32 (25 + 1)) = false) as Hz by (vm_compute; reflexivity).
  destruct (block_no_double_spend (fun _ => true) (fun _ _ => image_I) (fun _ _ _ _ => true)
    (fun l => l) (H := segments_cache CurrencyBuilder 0) cache_ok ∅ [sample_segment] [sample_spend]
    25 10 {[ replicate 32 9 ]} sample_ok Hp Hz Hv) as (_ & Hnd & _).
  split; [exact Hnd|exact Hv].
Defined.

(** ** Output offsets *)

Lemma offsets_differences p l :
  fits 32 p -> Forall (fits 32) l -> offsets_from p (differences_from p l) = l.
Proof.
  intros Hp Hl. revert p Hp. induction Hl as [|x l Hx Hl IH]; intros p Hp; [done|]. cbn.
  rewrite wrap_add_r. replace (p + (x - p)) with x by lia. rewrite wrap_small by done. by rewrite IH.
Qed.

Lemma differences_offsets p l :
  fits 32 p -> Forall (fits 32) l -> differences_from p (offsets_from p l) = l.
Proof.
  intros Hp Hl. revert p Hp. induction Hl as [|x l Hx Hl IH]; intros p Hp; [done|]. cbn.
  rewrite IH by (apply fits_wrap; lia). f_equal.
  rewrite <- (wrap_small 32 x) at 2 by done. unfold wrap.
  rewrite Zminus_mod_idemp_l. f_equal. lia.
Qed.

(** packing a list of 32-bit
    output indexes into offsets and unpacking it are inverse to each other in
    both directions; and indexes in strictly increasing order are packed into
    offsets without a zero after the first, as validation demands. *)
Theorem output_offsets_roundtrip l :
  Forall (fits 32) l ->
  relativeOutputOffsetsToAbsolute (absolute_output_offsets_to_relative l) = l /\
  absolute_output_offsets_to_relative (relativeOutputOffsetsToAbsolute l) = l /\
  (StronglySorted Z.lt l -> 0 ∉ tail (absolute_output_offsets_to_relative l)).
Proof.
  intros Hl. destruct Hl as [|x l Hx Hl]; [by repeat split; [..|intros _ ?%elem_of_nil]|]. cbn.
  rewrite offsets_differences, differences_offsets by done. split; [done|]. split; [done|].
  intros Hs. inversion Hs as [|? ? Hss Hlt]; subst. clear Hs.
  revert x Hx Hlt. induction Hl as [|y l Hy Hl IH]; intros x Hx Hlt; [apply not_elem_of_nil|]. cbn.
  apply Forall_cons in Hlt as [Hxy _]. inversion Hss as [|? ? Hss' Hlt']; subst.
  intros [E|Hin]%elem_of_cons; [|by apply (IH Hss' y Hy Hlt')].
  rewrite wrap_small in E by (words; lia). lia.
Qed.

Lemma output_offsets_roundtrip_witness :
  relativeOutputOffsetsToAbsolute (absolute_output_offsets_to_relative [7; 9; 4000000000]) =
    [7; 9; 4000000000].
Proof. apply output_offsets_roundtrip. repeat constructor; by vm_compute. Defined.

(** the test for zero offsets, which
    is to keep a ring from naming an output twice, does not: offsets are
    added modulo 2^32, so that 1, 2^32 - 1, 1 stand for the indexes 1, 0, 1.
    A transaction with this ring passes validation whenever its signature
    verifies against the ring with the repeated key. *)
Theorem ring_member_repeated :
  exists t state,
    inputs (prefix t) = [KeyInput 70 [1; 2 ^ 32 - 1; 1] (replicate 32 9)] /\
    relativeOutputOffsetsToAbsolute [1; 2 ^ 32 - 1; 1] = [1; 0; 1] /\
    extractKeyOutputKeys CurrencyBuilder 0 [sample_segment] 70 25 [1; 0; 1]
      = (SUCCESS, [[2]; [1]; [2]]) /\
    validateTransaction (fun _ => true) (fun _ _ => image_I)
      (fun _ _ keys _ => bool_decide (keys = [[2]; [1]; [2]])) (fun l => l)
      (H := segments_cache CurrencyBuilder 0) ∅ [sample_segment] t ∅ 25 = (inr 10, state).
Proof.
  exists (mkTransaction (mkTransactionPrefix 1 0 [KeyInput 70 [1; 2 ^ 32 - 1; 1] (replicate 32 9)]
    [mkTransactionOutput 60 (KeyOutput (replicate 32 5))] []) [[replicate 64 0]]).
  exists {[ replicate 32 9 ]}. split; [reflexivity|]. split; [reflexivity|].
  split; vm_compute; reflexivity.
Qed.

(** ** Blocks *)

(** The rules a block header and its base transaction obey on top of block
    [previous] of the chain. *)
Definition block_rules check_key cn_fast_hash `{IBlockchainCache C} (currency : Currency)
    (m : UpgradeManager.t) (cache : C) (b : BlockTemplate) (now previous reward : Z) : Prop :=
  let next := u32 (previous + 1) in
  let base := baseTransaction b in
  inputs (prefix base) = [BaseInput next] /\
  majorVersion (header b) = UpgradeManager.getBlockMajorVersion m next /\
  (BLOCK_MAJOR_VERSION_2 <= majorVersion (header b) -> exists parent,
     getParentBlockBinaryArray cn_fast_hash false b = Some parent /\ Z.of_nat (length parent) <= 2048) /\
  (majorVersion (header b) = BLOCK_MAJOR_VERSION_2 ->
     pb_majorVersion (parentBlock b) <= BLOCK_MAJOR_VERSION_1) /\
  timestamp (header b) <= u64 (now + blockFutureTimeLimit currency next) /\
  (exists ts, ic_getLastTimestamps cache (timestampCheckWindow currency next) previous true = Some ts /\
     (timestampCheckWindow currency next <= Z.of_nat (length ts) ->
        medianValue ts <= timestamp (header b))) /\
  unlockTime (prefix base) = u32 (next + m_minedMoneyUnlockWindow currency) /\
  (TRANSACTION_SIGNATURE_COUNT_VALIDATION_HEIGHT <= next -> signatures base = []) /\
  Forall (output_valid check_key) (outputs (prefix base)) /\
  reward = sumZ (output_amounts (outputs (prefix base))) /\ reward <= UINT64_MAX.

(** C20: a block that passes
    [validateBlock] names as its parent a block of the segment, carries the
    version in force at the next index, has a time stamp not below the median
    of the window and not too far in the future, and a base transaction with
    the single input of this index, the prescribed unlock time, valid
    outputs, and a reward that is the exact sum of the outputs. *)
Theorem validateBlock_sound check_key cn_fast_hash `{IBlockchainCache C} currency m (cache : C) b now
    reward :
  prefix_ok (prefix (baseTransaction b)) ->
  validateBlock check_key cn_fast_hash currency m cache b now = inr reward ->
  exists previous, ic_getBlockIndex cache (previousBlockHash (header b)) = Some previous /\
    block_rules check_key cn_fast_hash currency m cache b now previous reward.
Proof.
  intros (_ & _ & _ & _ & Hout & _). unfold validateBlock.
  destruct (ic_getBlockIndex _ _) as [previous|]; [|done]. intros Hv. exists previous. split; [done|].
  unfold block_rules. set (next := u32 (previous + 1)) in *.
  destruct (negb _) eqn:Ever; [done|]. destruct (_ && (BLOCK_MAJOR_VERSION_1 <? _)) eqn:Epv; [done|].
  destruct (if BLOCK_MAJOR_VERSION_2 <=? _ then _ else _) as [parent|] eqn:Epar; [|done].
  destruct (2048 <? _) eqn:Esz; [done|]. destruct (_ <? timestamp _) eqn:Efut; [done|].
  destruct (ic_getLastTimestamps _ _ _ _) as [ts|]; [|done].
  destruct (_ && (_ <? medianValue ts)) eqn:Emed; [done|].
  destruct (inputs (prefix (baseTransaction b))) as [|[bi|a idx ki] [|]] eqn:Ein; try done.
  destruct (negb (bi =? next)) eqn:Ebi; [done|]. destruct (negb (unlockTime _ =? _)) eqn:Eul; [done|].
  destruct (_ && negb (bool_decide _)) eqn:Esig; [done|].
  destruct (check_outputs _ _ _) as [e|r] eqn:Eo; [done|]. injection Hv as <-.
  apply check_outputs_spec in Eo as (Hval & Hmax & ->); [|done|done]. rewrite Z.add_0_l in *.
  assert (Block.getBlockIndex b = bi) as Eidx by (unfold Block.getBlockIndex; by rewrite Ein).
  bool_to_prop. subst bi. rewrite Eidx in *. split; [done|]. split; [done|].
  split; [intros Hm; exists parent; by apply Z.leb_le in Hm; rewrite Hm in Epar|].
  split; [|split; [done|split; [|split; [done|split; [|done]]]]].
  - intros Hm. rewrite Hm, Z.eqb_refl in Epv. by apply Z.ltb_ge in Epv.
  - exists ts. split; [done|]. intros Hw. apply Z.leb_le in Hw. rewrite Hw in Emed.
    by apply Z.ltb_ge in Emed.
  - intros Hw. apply Z.leb_le in Hw. rewrite Hw in Esig. apply negb_false_iff in Esig.
    by apply bool_decide_eq_true in Esig.
Qed.

(** Block 2 on the sample chain. *)
Definition sample_next_block : BlockTemplate :=
  mkBlockTemplate (mkBlockHeader 1 0 0 1180 [11]) default_parent
    (mkTransaction (mkTransactionPrefix 1 22 [BaseInput 2]
       [mkTransactionOutput 70 (KeyOutput (replicate 32 4)); mkTransactionOutput 8 (KeyOutput (replicate 32 4))]
       []) []) [].

Lemma validateBlock_sound_witness :
  validateBlock (fun _ => true) (fun l => l) (H := segments_cache CurrencyBuilder 0) CurrencyBuilder []
    [sample_segment] sample_next_block 1200 = inr 78 /\
  unlockTime (prefix (baseTransaction sample_next_block)) =
    u32 (u32 (1 + 1) + m_minedMoneyUnlockWindow CurrencyBuilder).
Proof.
  assert (validateBlock (fun _ => true) (fun l => l) (H := segments_cache CurrencyBuilder 0)
    CurrencyBuilder [] [sample_segment] sample_next_block 1200 = inr 78) as Hv by (vm_compute; reflexivity).
  split; [exact Hv|].
  apply validateBlock_sound in Hv as (previous & Hp & Hr).
  - injection Hp as <-. by destruct Hr as (_ & _ & _ & _ & _ & _ & Hu & _).
  - apply (bool_decide_unpack _). vm_compute. exact I.
Defined.
