(* ===== verification/TransactionPool.v ===== *)
(** The memory pool (cryptonote_core/transaction_pool.cpp).

    The three indices of the multi-index container hold the same elements.
    The model keeps them once, in the order of the cost index; the hash index
    is a search by hash.  The theorems show that the comparator of the cost
    index is a strict weak order, that the pool keeps its transactions by
    decreasing fee per byte, and that its set of spent key images is always
    the disjoint union of those of its transactions. *)

From stdpp Require Import base gmap sets list sorting.
From S2P Require Import Prelude Config Bytes IntUtil Types TxExtra Block.
From S2P Require Import BlockchainCache Currency Validation.

Record PendingTransactionInfo := mkPendingTransactionInfo {
  receiveTime : Z;
  cachedTransaction : CachedTx;
  paymentId : option Hash }.

Definition getTransactionHash (p : PendingTransactionInfo) : Hash := ct_hash (cachedTransaction p).

Definition info_fee (p : PendingTransactionInfo) : Z :=
  getTransactionFee (ct_transaction (cachedTransaction p)).
Definition info_size (p : PendingTransactionInfo) : Z :=
  Z.of_nat (length (ct_binaryArray (cachedTransaction p))).

(** [TransactionPriorityComparator::operator()]: [lhs] comes before [rhs]. *)
Definition TransactionPriorityComparator (lhs rhs : PendingTransactionInfo) : bool :=
  let '(lhs_hi, lhs_lo) := mul128 (info_fee lhs) (info_size rhs) in
  let '(rhs_hi, rhs_lo) := mul128 (info_fee rhs) (info_size lhs) in
  (rhs_hi <? lhs_hi) ||
  ((lhs_hi =? rhs_hi) && (rhs_lo <? lhs_lo)) ||
  ((lhs_hi =? rhs_hi) && (lhs_lo =? rhs_lo) && (info_size lhs <? info_size rhs)) ||
  ((lhs_hi =? rhs_hi) && (lhs_lo =? rhs_lo) && (info_size lhs =? info_size rhs) &&
   (receiveTime lhs <? receiveTime rhs)).

Record TransactionPool := mkTransactionPool {
  poolState : TransactionValidatorState;
  pending : list PendingTransactionInfo }.

Definition empty_pool : TransactionPool := mkTransactionPool ∅ [].

(** Insertion into the ordered index: behind every element that does not come
    after the new one. *)
Fixpoint insert_by_cost (p : PendingTransactionInfo) (l : list PendingTransactionInfo)
  : list PendingTransactionInfo :=
  match l with
  | [] => [p]
  | q :: rest =>
      if TransactionPriorityComparator p q then p :: l else q :: insert_by_cost p rest
  end.

(** [transactionHashIndex.find]. *)
Definition find_pending (pool : TransactionPool) (hash : Hash) : option PendingTransactionInfo :=
  snd <$> list_find (fun p => getTransactionHash p = hash) (pending pool).

Definition checkIfTransactionPresent (pool : TransactionPool) (hash : Hash) : bool :=
  bool_decide (is_Some (find_pending pool hash)).

(** [pushTransaction] at time [now]. *)
Definition pushTransaction (now : Z) (transaction : CachedTx)
    (transactionState : TransactionValidatorState) (pool : TransactionPool)
  : bool * TransactionPool :=
  let pendingTx := mkPendingTransactionInfo now transaction
    (getPaymentIdFromTxExtra (extra (prefix (ct_transaction transaction)))) in
  if checkIfTransactionPresent pool (getTransactionHash pendingTx) then (false, pool)
  else if hasIntersections (poolState pool) transactionState then (false, pool)
  else (true, mkTransactionPool (mergeStates (poolState pool) transactionState)
                (insert_by_cost pendingTx (pending pool))).

(** Reading a transaction that is not there dereferences the end iterator:
    [None]. *)
Definition getTransaction (pool : TransactionPool) (hash : Hash) : option CachedTx :=
  cachedTransaction <$> find_pending pool hash.
Definition getTransactionReceiveTime (pool : TransactionPool) (hash : Hash) : option Z :=
  receiveTime <$> find_pending pool hash.

Definition removeTransaction (pool : TransactionPool) (hash : Hash) : bool * TransactionPool :=
  match find_pending pool hash with
  | None => (false, pool)
  | Some p =>
      (true, mkTransactionPool
        (excludeFromState (poolState pool) (ct_transaction (cachedTransaction p)))
        (filter (fun q => getTransactionHash q <> hash) (pending pool)))
  end.

Definition getTransactionCount (pool : TransactionPool) : Z := Z.of_nat (length (pending pool)).
Definition getTransactionHashes (pool : TransactionPool) : list Hash :=
  getTransactionHash <$> pending pool.
Definition getPoolTransactionValidationState (pool : TransactionPool) : TransactionValidatorState :=
  poolState pool.
Definition getPoolTransactions (pool : TransactionPool) : list CachedTx :=
  cachedTransaction <$> pending pool.

(** The order inside [equal_range] of the hashed index is unspecified; here
    it is that of the cost index. *)
Definition getTransactionHashesByPaymentId (pool : TransactionPool) (pid : Hash) : list Hash :=
  getTransactionHash <$> filter (fun p => paymentId p = Some pid) (pending pool).

Definition flush (pool : TransactionPool) : TransactionPool :=
  fold_left (fun p hash => (removeTransaction p hash).2) (getTransactionHashes pool) pool.

(** ** The comparator is a strict weak order *)

(** A transaction has at least one byte, and sizes are [size_t]. *)
Definition info_ok (p : PendingTransactionInfo) : Prop :=
  0 < info_size p /\ fits 64 (info_size p).

(** [p] need not come after [q]: the order the cost index keeps. *)
Definition not_worse (p q : PendingTransactionInfo) : Prop :=
  TransactionPriorityComparator q p = false.

Lemma info_fee_fits p : fits 64 (info_fee p).
Proof.
  unfold info_fee, getTransactionFee. destruct (existsb _ _); [words; lia|].
  apply fits_wrap. lia.
Qed.

Lemma product_words x y :
  (y / 2 ^ 64 < x / 2 ^ 64 \/ y / 2 ^ 64 = x / 2 ^ 64 /\ y mod 2 ^ 64 < x mod 2 ^ 64 <-> y < x) /\
  (y / 2 ^ 64 = x / 2 ^ 64 /\ y mod 2 ^ 64 = x mod 2 ^ 64 <-> y = x).
Proof. zlia. Qed.

(** What [operator()] decides: more fee per byte, then smaller, then older. *)
Lemma comparator_spec p q :
  info_ok p -> info_ok q ->
  TransactionPriorityComparator p q = true <->
  info_fee q * info_size p < info_fee p * info_size q \/
  info_fee q * info_size p = info_fee p * info_size q /\
  (info_size p < info_size q \/ info_size p = info_size q /\ receiveTime p < receiveTime q).
Proof.
  intros [_ Hp] [_ Hq]. unfold TransactionPriorityComparator.
  rewrite !mul128_spec by (done || apply info_fee_fits).
  destruct (product_words (info_fee p * info_size q) (info_fee q * info_size p)) as [Hlt Heq].
  rewrite !orb_true_iff, !andb_true_iff, !Z.ltb_lt, !Z.eqb_eq.
  rewrite <- Hlt, <- Heq. intuition lia.
Qed.

Lemma not_worse_spec p q :
  info_ok p -> info_ok q ->
  not_worse p q <->
  info_fee q * info_size p <= info_fee p * info_size q /\
  (info_fee q * info_size p = info_fee p * info_size q ->
   info_size p <= info_size q /\ (info_size p = info_size q -> receiveTime p <= receiveTime q)).
Proof.
  intros Hp Hq. unfold not_worse. rewrite <- not_true_iff_false, comparator_spec by done. lia.
Qed.

(** Comparing fractions with positive denominators is transitive. *)
Lemma rate_trans f1 s1 f2 s2 f3 s3 :
  0 < s1 -> 0 < s2 -> 0 < s3 -> f2 * s1 <= f1 * s2 -> f3 * s2 <= f2 * s3 ->
  f3 * s1 <= f1 * s3 /\
  (f3 * s1 = f1 * s3 -> f2 * s1 = f1 * s2 /\ f3 * s2 = f2 * s3).
Proof.
  intros H1 H2 H3 H12 H23.
  assert (f2 * s1 * s3 <= f1 * s2 * s3) by (apply Z.mul_le_mono_nonneg_r; lia).
  assert (f3 * s2 * s1 <= f2 * s3 * s1) by (apply Z.mul_le_mono_nonneg_r; lia).
  assert ((f3 * s1) * s2 <= (f1 * s3) * s2) by lia.
  split; [by apply (Z.mul_le_mono_pos_r _ _ s2)|]. intros E.
  assert ((f3 * s1) * s2 = (f1 * s3) * s2) as E2 by by rewrite E.
  split; [apply (Z.mul_reg_r _ _ s3)|apply (Z.mul_reg_r _ _ s1)]; lia.
Qed.

Lemma not_worse_trans p q r :
  info_ok p -> info_ok q -> info_ok r -> not_worse p q -> not_worse q r -> not_worse p r.
Proof.
  intros Hp Hq Hr Hpq Hqr. apply not_worse_spec in Hpq as [A1 A2]; [|done..].
  apply not_worse_spec in Hqr as [B1 B2]; [|done..]. apply not_worse_spec; [done..|].
  destruct Hp as [Hp _], Hq as [Hq _], Hr as [Hr _].
  destruct (rate_trans _ _ _ _ _ _ Hp Hq Hr A1 B1) as [C1 C2].
  split; [done|]. intros E. destruct (C2 E) as [E1 E2].
  destruct (A2 E1), (B2 E2). lia.
Qed.

Lemma not_worse_of_before p q :
  info_ok p -> info_ok q -> TransactionPriorityComparator p q = true -> not_worse p q.
Proof.
  intros Hp Hq H. apply not_worse_spec; [done..|]. apply comparator_spec in H; [|done..]. lia.
Qed.

(** ** The pool invariant *)

Definition info_images (p : PendingTransactionInfo) : list KeyImage :=
  key_images (inputs (prefix (ct_transaction (cachedTransaction p)))).

(** Hashes are unique, the cost index is in order, no two inputs of the pool
    spend the same key image, and [poolState] is exactly the images spent. *)
Record pool_ok (pool : TransactionPool) : Prop := {
  pool_infos : Forall info_ok (pending pool);
  pool_hashes : NoDup (getTransactionHash <$> pending pool);
  pool_sorted : StronglySorted not_worse (pending pool);
  pool_images : NoDup (concat (info_images <$> pending pool));
  pool_state : poolState pool = list_to_set (concat (info_images <$> pending pool)) }.

Lemma insert_by_cost_perm p l : insert_by_cost p l ≡ₚ p :: l.
Proof.
  induction l as [|q l IH]; cbn [insert_by_cost]; [done|].
  destruct (TransactionPriorityComparator p q); [done|].
  rewrite IH. apply Permutation_swap.
Qed.

Lemma insert_by_cost_sorted p l :
  info_ok p -> Forall info_ok l -> StronglySorted not_worse l ->
  StronglySorted not_worse (insert_by_cost p l).
Proof.
  intros Hp Hl. induction l as [|q l IH]; intros Hs; cbn [insert_by_cost]; [repeat constructor|].
  apply Forall_cons in Hl as [Hq Hl]. inversion_clear Hs as [|? ? Hs' Hql].
  destruct (TransactionPriorityComparator p q) eqn:E.
  - pose proof (not_worse_of_before p q Hp Hq E) as Hpq.
    constructor; [by constructor|]. constructor; [done|].
    apply Forall_forall. intros r Hr. rewrite Forall_forall in Hl, Hql.
    apply (not_worse_trans p q r); auto.
  - constructor; [by apply IH|]. rewrite insert_by_cost_perm. by constructor.
Qed.

Lemma excludeFromState_spec st t :
  excludeFromState st t = st ∖ list_to_set (key_images (inputs (prefix t))).
Proof.
  unfold excludeFromState. revert st.
  induction (key_images (inputs (prefix t))) as [|k l IH]; intros st; cbn.
  - by rewrite difference_empty_L.
  - by rewrite IH, difference_difference_l_L.
Qed.

Lemma hasIntersections_spec st st' : hasIntersections st st' = false <-> st ## st'.
Proof.
  unfold hasIntersections. rewrite <- not_true_iff_false, existsb_exists. split.
  - intros H k Hk Hk'. apply H. exists k. rewrite <- list_elem_of_In, elem_of_elements.
    by rewrite bool_decide_eq_true.
  - intros H (k & Hin & Hk). rewrite <- list_elem_of_In, elem_of_elements in Hin.
    apply bool_decide_eq_true in Hk. by apply (H k).
Qed.

Lemma find_pending_Some pool hash p :
  find_pending pool hash = Some p -> p ∈ pending pool /\ getTransactionHash p = hash.
Proof.
  unfold find_pending. intros ([i q] & E & Ep)%fmap_Some. cbn in Ep. subst p.
  apply list_find_Some in E as (E & Hh & _). split; [by eapply list_elem_of_lookup_2|done].
Qed.

Lemma find_pending_iff pool hash p :
  NoDup (getTransactionHash <$> pending pool) ->
  find_pending pool hash = Some p <-> p ∈ pending pool /\ getTransactionHash p = hash.
Proof.
  intros Hn. split; [apply find_pending_Some|]. intros [Hp Hh].
  unfold find_pending. destruct (list_find _ _) as [[i q]|] eqn:E; cbn.
  - apply list_find_Some in E as (E & Hq & _). f_equal.
    apply list_elem_of_lookup_1 in Hp as [j Hj].
    assert (i = j) as ->; [|congruence].
    eapply (NoDup_lookup _ i j hash Hn); rewrite list_lookup_fmap; [rewrite E|rewrite Hj]; cbn; congruence.
  - apply list_find_None in E. rewrite Forall_forall in E. by destruct (E p Hp).
Qed.

Lemma find_pending_None pool hash :
  find_pending pool hash = None <-> hash ∉ (getTransactionHash <$> pending pool).
Proof.
  unfold find_pending. rewrite fmap_None, list_find_None, Forall_forall. split.
  - intros H (p & -> & Hp)%list_elem_of_fmap. by apply (H p Hp).
  - intros H p Hp E. apply H. apply list_elem_of_fmap. by exists p.
Qed.

(** ** The operations keep the invariant *)

Definition new_info (now : Z) (tx : CachedTx) : PendingTransactionInfo :=
  mkPendingTransactionInfo now tx (getPaymentIdFromTxExtra (extra (prefix (ct_transaction tx)))).

Lemma empty_pool_ok : pool_ok empty_pool.
Proof. split; cbn; constructor. Qed.

Lemma pool_ok_insert pool p :
  pool_ok pool -> info_ok p -> getTransactionHash p ∉ (getTransactionHash <$> pending pool) ->
  NoDup (info_images p) -> (forall k, k ∈ info_images p -> k ∉ poolState pool) ->
  pool_ok (mkTransactionPool (mergeStates (poolState pool) (list_to_set (info_images p)))
             (insert_by_cost p (pending pool))).
Proof.
  intros [H1 H2 H3 H4 H5] Hp Hh Hd Hk.
  assert (concat (info_images <$> insert_by_cost p (pending pool)) ≡ₚ
          info_images p ++ concat (info_images <$> pending pool)) as Hc.
  { rewrite (concat_perm _ _ (fmap_Permutation _ _ _ (insert_by_cost_perm p (pending pool)))). done. }
  split; cbn [pending poolState].
  - rewrite insert_by_cost_perm. by constructor.
  - rewrite insert_by_cost_perm. cbn. by constructor.
  - by apply insert_by_cost_sorted.
  - rewrite Hc. apply NoDup_app. split; [done|]. split; [|done].
    intros k Hin Hin'. apply (Hk k Hin). rewrite H5. by apply elem_of_list_to_set.
  - unfold mergeStates. rewrite H5. apply set_eq. intros k.
    rewrite elem_of_union, !elem_of_list_to_set, Hc, elem_of_app. tauto.
Qed.

Lemma filter_hash_perm l p :
  NoDup (getTransactionHash <$> l) -> p ∈ l ->
  l ≡ₚ p :: filter (fun q => getTransactionHash q <> getTransactionHash p) l.
Proof.
  intros Hn Hp. apply list_elem_of_split in Hp as (l1 & l2 & ->).
  rewrite fmap_app, fmap_cons in Hn. apply NoDup_app in Hn as (_ & H1 & [H2 _]%NoDup_cons).
  rewrite filter_app, filter_cons_False by tauto.
  assert (forall l' : list PendingTransactionInfo, getTransactionHash p ∉ (getTransactionHash <$> l') ->
    filter (fun q => getTransactionHash q <> getTransactionHash p) l' = l') as Hf.
  { intros l' Hl'. apply filter_all, Forall_forall. intros q Hq E. apply Hl'. rewrite <- E.
    by apply list_elem_of_fmap_2. }
  rewrite !Hf; [by rewrite Permutation_middle|done|].
  intros Hin. apply (H1 _ Hin). by left.
Qed.

Lemma pool_ok_remove pool p :
  pool_ok pool -> p ∈ pending pool ->
  pool_ok (mkTransactionPool
    (excludeFromState (poolState pool) (ct_transaction (cachedTransaction p)))
    (filter (fun q => getTransactionHash q <> getTransactionHash p) (pending pool))).
Proof.
  intros [H1 H2 H3 H4 H5] Hp. pose proof (filter_hash_perm _ _ H2 Hp) as Hperm.
  pose proof (concat_perm _ _ (fmap_Permutation info_images _ _ Hperm)) as Hc. cbn in Hc.
  split; cbn [pending poolState].
  - rewrite Hperm in H1. by apply Forall_cons in H1 as [_ H1].
  - rewrite Hperm in H2. cbn in H2. by apply NoDup_cons in H2 as [_ H2].
  - by apply filter_sorted.
  - rewrite Hc in H4. by apply NoDup_app in H4 as (_ & _ & H4).
  - rewrite excludeFromState_spec, H5. fold (info_images p).
    rewrite Hc in H4. apply NoDup_app in H4 as (_ & Hd & _).
    apply set_eq. intros k. rewrite elem_of_difference, !elem_of_list_to_set, Hc, elem_of_app.
    specialize (Hd k). tauto.
Qed.

Lemma removeTransaction_ok pool hash :
  pool_ok pool ->
  let '(removed, pool') := removeTransaction pool hash in
  pool_ok pool' /\ removed = checkIfTransactionPresent pool hash /\
  pending pool' = filter (fun q => getTransactionHash q <> hash) (pending pool).
Proof.
  intros Hok. unfold removeTransaction, checkIfTransactionPresent.
  destruct (find_pending pool hash) as [p|] eqn:E.
  - apply find_pending_Some in E as [Hp <-]. split; [by apply pool_ok_remove|].
    split; [|done]. symmetry. apply bool_decide_eq_true. by exists p.
  - split; [done|]. split; [symmetry; apply bool_decide_eq_false; by intros [? ?]|].
    symmetry. apply filter_all, Forall_forall. intros q Hq Eq.
    apply find_pending_None in E. apply E. rewrite <- Eq. by apply list_elem_of_fmap_2.
Qed.

(** Removing a list of transactions one by one, as [flush] and the cleaner do. *)
Lemma remove_all_ok hashes pool :
  pool_ok pool ->
  let pool' := fold_left (fun p hash => (removeTransaction p hash).2) hashes pool in
  pool_ok pool' /\ pending pool' = filter (fun q => getTransactionHash q ∉ hashes) (pending pool).
Proof.
  revert pool. induction hashes as [|h hashes IH]; intros pool Hok; cbn [fold_left].
  - split; [done|]. rewrite filter_all; [done|]. apply Forall_forall. intros q _ Hq.
    by apply elem_of_nil in Hq.
  - pose proof (removeTransaction_ok pool h Hok) as Hr.
    destruct (removeTransaction pool h) as [b pool1]. destruct Hr as (Hok1 & _ & Hp1). cbn [snd].
    destruct (IH pool1 Hok1) as [Hok2 Hp2]. split; [done|].
    rewrite Hp2, Hp1, list_filter_filter. apply list_filter_iff. intros q.
    rewrite not_elem_of_cons. tauto.
Qed.

Lemma flush_empty pool : pool_ok pool -> flush pool = empty_pool.
Proof.
  intros Hok. destruct (remove_all_ok (getTransactionHashes pool) pool Hok) as [Hok' Hp].
  unfold flush. set (pool' := fold_left _ _ _) in *.
  rewrite filter_empty in Hp.
  - pose proof (pool_state _ Hok') as Hs. rewrite Hp in Hs. destruct pool' as [st l]. cbn in *.
    by subst.
  - apply Forall_forall. intros q Hq Hn. apply Hn. by apply list_elem_of_fmap_2.
Qed.

Lemma pushTransaction_spec pool now tx :
  pool_ok pool -> info_ok (new_info now tx) -> NoDup (info_images (new_info now tx)) ->
  let '(pushed, pool') :=
    pushTransaction now tx (extractSpentOutputs (ct_transaction tx)) pool in
  pool_ok pool' /\
  (pushed = true <-> ((ct_hash tx ∉ getTransactionHashes pool) /\
     forall q k, q ∈ pending pool -> k ∈ info_images q -> k ∉ info_images (new_info now tx))) /\
  (if pushed then pending pool' ≡ₚ new_info now tx :: pending pool else pool' = pool).
Proof.
  intros Hok Hp Hd. unfold pushTransaction, checkIfTransactionPresent. fold (new_info now tx).
  destruct (find_pending pool _) as [q|] eqn:E.
  { rewrite (bool_decide_eq_true_2 (is_Some (Some q))) by eauto. split; [done|]. split; [|done].
    split; [done|]. intros [Hn _]. destruct Hn. apply find_pending_Some in E as [Hq Eq].
    change (ct_hash tx) with (getTransactionHash (new_info now tx)). rewrite <- Eq. by apply list_elem_of_fmap_2. }
  rewrite (bool_decide_eq_false_2 (is_Some None)) by (by intros [? ?]).
  apply find_pending_None in E.
  assert (forall k, k ∈ poolState pool <-> exists q, q ∈ pending pool /\ k ∈ info_images q) as Hst.
  { intros k. rewrite (pool_state _ Hok), elem_of_list_to_set, list_elem_of_In, in_concat. split.
    - intros (l & Hl & Hk). apply list_elem_of_In in Hl, Hk.
      apply list_elem_of_fmap in Hl as (q & -> & Hq). by exists q.
    - intros (q & Hq & Hk). exists (info_images q).
      split; apply list_elem_of_In; [by apply list_elem_of_fmap_2|done]. }
  destruct (hasIntersections _ _) eqn:Hi.
  - split; [done|]. split; [|done]. split; [done|]. intros [_ Hn].
    rewrite (proj2 (hasIntersections_spec _ _)) in Hi; [done|]. intros k Hk Hk'.
    apply Hst in Hk as (q & Hq & Hkq). apply (Hn q k Hq Hkq). by apply elem_of_list_to_set in Hk'.
  - apply hasIntersections_spec in Hi.
    assert (forall k, k ∈ info_images (new_info now tx) -> k ∉ poolState pool) as Hfresh.
    { intros k Hk Hk'. apply (Hi k Hk'). by apply elem_of_list_to_set. }
    split; [by apply (pool_ok_insert pool (new_info now tx))|]. split; [|apply insert_by_cost_perm].
    split; [|done]. intros _. split; [done|]. intros q k Hq Hkq Hk.
    apply (Hfresh k Hk). apply Hst. by exists q.
Qed.

(** C25: from a pool in order, a
    validated transaction is accepted exactly when neither its hash nor any of
    the key images it spends is in the pool already, and a refused one changes
    nothing; removing a hash reports whether it was there and takes out that
    transaction alone; [flush] leaves nothing behind.  Every one of these
    leaves a pool in order: unique hashes, no key image spent twice by its
    transactions, and [poolState] exactly the key images they spend. *)
Theorem pool_operations_correct pool :
  pool_ok pool ->
  (forall now tx, info_ok (new_info now tx) -> NoDup (info_images (new_info now tx)) ->
    let '(pushed, pool') :=
      pushTransaction now tx (extractSpentOutputs (ct_transaction tx)) pool in
    pool_ok pool' /\
    (pushed = true <-> ((ct_hash tx ∉ getTransactionHashes pool) /\
       forall q k, q ∈ pending pool -> k ∈ info_images q -> k ∉ info_images (new_info now tx))) /\
    (if pushed then pending pool' ≡ₚ new_info now tx :: pending pool else pool' = pool)) /\
  (forall hash,
    let '(removed, pool') := removeTransaction pool hash in
    pool_ok pool' /\ removed = checkIfTransactionPresent pool hash /\
    pending pool' = filter (fun q => getTransactionHash q <> hash) (pending pool)) /\
  flush pool = empty_pool.
Proof.
  intros Hok. split; [|split].
  - intros now tx Hi Hn. by apply pushTransaction_spec.
  - intros hash. by apply removeTransaction_ok.
  - by apply flush_empty.
Qed.

(** Two transactions that spend the images [3 3 ..] and [4 4 ..], with
    the same amounts and 10 and 5 bytes. *)
Definition sample_pool_tx (image : Z) (size : nat) : CachedTx :=
  mkCachedTx (mkTransaction (mkTransactionPrefix 1 0
    [KeyInput 100 [1] (replicate 32 image)] [mkTransactionOutput 90 (KeyOutput [])] []) [])
    (replicate 32 image) (replicate size 0).

Definition sample_pool : TransactionPool :=
  (pushTransaction 7 (sample_pool_tx 3 10)
    (extractSpentOutputs (ct_transaction (sample_pool_tx 3 10))) empty_pool).2.

Lemma sample_pool_ok : pool_ok sample_pool.
Proof.
  assert (info_ok (new_info 7 (sample_pool_tx 3 10))) as Hi by (split; vm_compute; done).
  assert (NoDup (info_images (new_info 7 (sample_pool_tx 3 10)))) as Hn by apply NoDup_singleton.
  pose proof (pushTransaction_spec empty_pool 7 (sample_pool_tx 3 10) empty_pool_ok Hi Hn) as H.
  unfold sample_pool. destruct (pushTransaction _ _ _ _) as [b pool]. apply H.
Qed.

Lemma pool_operations_correct_witness :
  getTransactionHashes (pushTransaction 8 (sample_pool_tx 4 5)
    (extractSpentOutputs (ct_transaction (sample_pool_tx 4 5))) sample_pool).2
  = [replicate 32 4; replicate 32 3] /\
  (pushTransaction 8 (sample_pool_tx 3 5)
    (extractSpentOutputs (ct_transaction (sample_pool_tx 3 5))) sample_pool).1 = false /\
  flush sample_pool = empty_pool.
Proof.
  split; [vm_compute; reflexivity|]. split; [vm_compute; reflexivity|].
  apply (pool_operations_correct sample_pool sample_pool_ok).
Defined.

(** on transactions of at least
    one byte the comparator of the cost index is a strict weak order, as the
    container requires: irreflexive, transitive, and with transitive
    incomparability.  In a pool in order, a transaction listed before another
    pays at least as much per byte; at the same price it is not larger, and at
    the same size not younger. *)
Theorem pool_priority_order :
  (forall p q r, info_ok p -> info_ok q -> info_ok r ->
    TransactionPriorityComparator p p = false /\
    (TransactionPriorityComparator p q = true -> TransactionPriorityComparator q r = true ->
     TransactionPriorityComparator p r = true) /\
    (not_worse p q /\ not_worse q p -> not_worse q r /\ not_worse r q ->
     not_worse p r /\ not_worse r p)) /\
  (forall pool i j p q, pool_ok pool -> (i < j)%nat ->
    pending pool !! i = Some p -> pending pool !! j = Some q ->
    info_fee q * info_size p <= info_fee p * info_size q /\
    (info_fee q * info_size p = info_fee p * info_size q ->
     info_size p <= info_size q /\ (info_size p = info_size q -> receiveTime p <= receiveTime q))).
Proof.
  split.
  - intros p q r Hp Hq Hr. split; [|split].
    + apply not_true_iff_false. intros H%comparator_spec; [lia|done..].
    + intros Hpq Hqr. apply not_false_iff_true. intros Hrp.
      change (not_worse r p) in Hrp. pose proof (not_worse_of_before p q Hp Hq Hpq) as Hpq'.
      pose proof (not_worse_trans r p q Hr Hp Hq Hrp Hpq') as Hrq. unfold not_worse in Hrq. congruence.
    + intros [? ?] [? ?]. split; [by apply (not_worse_trans p q r)|by apply (not_worse_trans r q p)].
  - intros pool i j p q Hok Hij Hp Hq. pose proof (pool_infos _ Hok) as Hi.
    rewrite Forall_lookup in Hi. apply not_worse_spec; [by eapply Hi..|].
    eapply (StronglySorted_lookup _ _ i j p q); [apply Hok|done..].
Qed.

Lemma pool_priority_order_witness :
  let pool := (pushTransaction 8 (sample_pool_tx 4 5)
    (extractSpentOutputs (ct_transaction (sample_pool_tx 4 5))) sample_pool).2 in
  exists p q, pending pool !! 0%nat = Some p /\ pending pool !! 1%nat = Some q /\
    info_fee q * info_size p <= info_fee p * info_size q.
Proof.
  intros pool. assert (pool_ok pool) as Hok.
  { assert (info_ok (new_info 8 (sample_pool_tx 4 5))) as Hi by (split; vm_compute; done).
    assert (NoDup (info_images (new_info 8 (sample_pool_tx 4 5)))) as Hn by apply NoDup_singleton.
    pose proof (pushTransaction_spec sample_pool 8 (sample_pool_tx 4 5) sample_pool_ok Hi Hn) as H.
    subst pool. destruct (pushTransaction _ _ _ _) as [b pool]. apply H. }
  eexists _, _. split; [vm_compute; reflexivity|]. split; [vm_compute; reflexivity|].
  eapply (proj2 pool_priority_order pool 0%nat 1%nat); [exact Hok|lia|vm_compute; reflexivity|
    vm_compute; reflexivity].
Defined.
