(* ===== verification/PoolCleaner.v ===== *)
(** The wrapper that cleans the memory pool
    (cryptonote_core/transaction_pool_cleaner.cpp).

    The wrapper is written against the interface [ITransactionPool], of which
    [TransactionPool] is the implementation.  The JSON library is outside the
    sources: parsing a text and reading the field named t as an unsigned
    number are arguments.  The theorem on [clean] says which transactions are
    deleted, that the pool stays in order, that cleaning always completes, and
    that what was deleted cannot be pushed again before it is forgotten. *)

From Stdlib Require Import String.
From stdpp Require Import base gmap sets list sorting.
From S2P Require Import Prelude Config Bytes StringTools Types Mixins TxExtra Block.
From S2P Require Import BlockchainCache Currency Validation TransactionPool.
Import parameters.
#[local] Open Scope list_scope.
#[local] Open Scope Z_scope.

(** ** The interface of the pool *)

Class ITransactionPool (P : Type) := {
  ip_pushTransaction : Z -> CachedTx -> TransactionValidatorState -> P -> bool * P;
  ip_getTransaction : P -> Hash -> option CachedTx;
  ip_getTransactionReceiveTime : P -> Hash -> option Z;
  ip_removeTransaction : P -> Hash -> bool * P;
  ip_getTransactionHashes : P -> list Hash }.

(** What a pool promises, in terms of the list of its transactions. *)
Class ITransactionPoolLaws (P : Type) `{ITransactionPool P} (ok : P -> Prop)
    (contents : P -> list PendingTransactionInfo) := {
  ip_hashes p : ip_getTransactionHashes p = getTransactionHash <$> contents p;
  ip_unique p : ok p -> NoDup (getTransactionHash <$> contents p);
  ip_get p i : ok p -> i ∈ contents p ->
    ip_getTransaction p (getTransactionHash i) = Some (cachedTransaction i) /\
    ip_getTransactionReceiveTime p (getTransactionHash i) = Some (receiveTime i);
  ip_remove p h : ok p ->
    ok (ip_removeTransaction p h).2 /\
    contents (ip_removeTransaction p h).2 =
      filter (fun i => getTransactionHash i <> h) (contents p);
  ip_push p now tx : ok p -> info_ok (new_info now tx) -> NoDup (info_images (new_info now tx)) ->
    let '(pushed, p') := ip_pushTransaction now tx (extractSpentOutputs (ct_transaction tx)) p in
    ok p' /\ (if pushed then contents p' ≡ₚ new_info now tx :: contents p else p' = p) }.

#[global] Instance TransactionPool_pool : ITransactionPool TransactionPool := {
  ip_pushTransaction := TransactionPool.pushTransaction;
  ip_getTransaction := TransactionPool.getTransaction;
  ip_getTransactionReceiveTime := TransactionPool.getTransactionReceiveTime;
  ip_removeTransaction := TransactionPool.removeTransaction;
  ip_getTransactionHashes := TransactionPool.getTransactionHashes }.

#[global] Instance TransactionPool_laws :
  ITransactionPoolLaws TransactionPool pool_ok pending.
Proof.
  split.
  - done.
  - apply pool_hashes.
  - intros p i Hok Hi. cbn. unfold getTransaction, getTransactionReceiveTime.
    by rewrite (proj2 (find_pending_iff p (getTransactionHash i) i (pool_hashes _ Hok)) (conj Hi eq_refl)).
  - intros p h Hok. cbn. pose proof (removeTransaction_ok p h Hok) as Hr.
    destruct (removeTransaction p h) as [b p']. by destruct Hr as (? & _ & ?).
  - intros p now tx Hok Hi Hn. cbn. pose proof (pushTransaction_spec p now tx Hok Hi Hn) as Hp.
    destruct (TransactionPool.pushTransaction _ _ _ _) as [b p']. by destruct Hp as (? & _ & ?).
Qed.

(** ** The payload of a message transaction *)

(** [std::stoul] in base 16: leading white space, a sign, an optional prefix
    0x and hexadecimal digits; [None] is its exception. *)
Fixpoint hex_value (text : list Z) (acc : Z) : Z :=
  match text with
  | c :: rest => match fromHex_char c with Some v => hex_value rest (16 * acc + v) | None => acc end
  | [] => acc
  end.

Definition stoul16_digits (text : list Z) (negative : bool) : option Z :=
  match text with
  | c :: _ =>
      match fromHex_char c with
      | None => None
      | Some _ =>
          let n := hex_value text 0 in
          if UINT64_MAX <? n then None else Some (if negative then u64 (- n) else n)
      end
  | [] => None
  end.

Definition stoul16_prefix (text : list Z) (negative : bool) : option Z :=
  match text with
  | 48 :: x :: c :: rest =>
      if bool_decide (x ∈ [120; 88]) && bool_decide (is_Some (fromHex_char c))
      then stoul16_digits (c :: rest) negative else stoul16_digits text negative
  | _ => stoul16_digits text negative
  end.

Definition stoul16 (text : list Z) : option Z :=
  match leftTrim text with
  | 43 :: rest => stoul16_prefix rest false
  | 45 :: rest => stoul16_prefix rest true
  | rest => stoul16_prefix rest false
  end.

(** [hex2ascii]: two characters at a time, the last may be alone. *)
Fixpoint hex2ascii (hex : list Z) : option (list Z) :=
  match hex with
  | [] => Some []
  | [a] => ch ← stoul16 [a]; Some [u8 ch]
  | a :: b :: rest => ch ← stoul16 [a; b]; ascii ← hex2ascii rest; Some (u8 ch :: ascii)
  end.

Section Cleaner.
Context {json : Type} (json_parse : list Z -> option json) (json_t : json -> option Z).

(** [json::parse (hex2ascii (extra.substr(n)))]; [None] is any exception. *)
Definition trim_at (n : nat) (extra : list Z) : option json :=
  payload ← substr extra n (length extra); ascii ← hex2ascii payload; json_parse ascii.

Definition trimExtra (extra : list Z) : option json :=
  match trim_at 66 extra with
  | Some j => Some j
  | None =>
      match trim_at 78 extra with
      | Some j => Some j
      | None => json_parse (str "{ 't': 0 }")
      end
  end.

(** The conditions of the loop of [clean] under which a transaction goes. *)
Definition must_delete (timeout currentTime height receive : Z) (tx : CachedTx) : bool :=
  let transactionAge := u64 (currentTime - receive) in
  let tx_extra := extra (prefix (ct_transaction tx)) in
  let tx_extra_data_size := Z.of_nat (length tx_extra) in
  if negb (validate_transactions [ct_transaction tx] height) then true
  else if timeout <=? transactionAge then true
  else if MAX_EXTRA_SIZE_BLOCK <? tx_extra_data_size then
    if (CRYPTONOTE_MEMPOOL_TX_LIVETIME <=? transactionAge) ||
       (MAX_EXTRA_SIZE_POOL <=? tx_extra_data_size) then true
    else
      match (j ← trimExtra (toHex tx_extra); json_t j) with
      | None => true
      | Some box_time =>
          CRYPTONOTE_MEMPOOL_TX_LIVETIME <=? u64 (currentTime - box_time / 1000)
      end
  else false.

(** ** The wrapper *)

Section Wrapper.
Context {P : Type} `{ITransactionPool P}.

Record TransactionPoolCleanWrapper := mkWrapper {
  transactionPool : P;
  recentlyDeletedTransactions : gmap Hash Z;
  timeout : Z }.

Definition isTransactionRecentlyDeleted (w : TransactionPoolCleanWrapper) (hash : Hash) : bool :=
  match recentlyDeletedTransactions w !! hash with
  | Some t => timeout w <=? t
  | None => false
  end.

Definition pushTransaction (now : Z) (tx : CachedTx) (transactionState : TransactionValidatorState)
    (w : TransactionPoolCleanWrapper) : bool * TransactionPoolCleanWrapper :=
  if isTransactionRecentlyDeleted w (ct_hash tx) then (false, w)
  else
    let '(pushed, pool) := ip_pushTransaction now tx transactionState (transactionPool w) in
    (pushed, mkWrapper pool (recentlyDeletedTransactions w) (timeout w)).

Definition removeTransaction (w : TransactionPoolCleanWrapper) (hash : Hash)
  : bool * TransactionPoolCleanWrapper :=
  let '(removed, pool) := ip_removeTransaction (transactionPool w) hash in
  (removed, mkWrapper pool (recentlyDeletedTransactions w) (timeout w)).

(** [unordered_map::emplace] keeps an entry that is there. *)
Definition emplace (hash : Hash) (t : Z) (m : gmap Hash Z) : gmap Hash Z :=
  match m !! hash with Some _ => m | None => <[hash := t]> m end.

(** The loop of [clean] over the hashes listed at its start. *)
Fixpoint clean_loop (currentTime height : Z) (hashes : list Hash)
    (w : TransactionPoolCleanWrapper) (deletedTransactions : list Hash)
  : option (list Hash * TransactionPoolCleanWrapper) :=
  match hashes with
  | [] => Some (deletedTransactions, w)
  | hash :: rest =>
      receive ← ip_getTransactionReceiveTime (transactionPool w) hash;
      tx ← ip_getTransaction (transactionPool w) hash;
      if must_delete (timeout w) currentTime height receive tx
      then clean_loop currentTime height rest
             (mkWrapper (ip_removeTransaction (transactionPool w) hash).2
                (emplace hash currentTime (recentlyDeletedTransactions w)) (timeout w))
             (deletedTransactions ++ [hash])
      else clean_loop currentTime height rest w deletedTransactions
  end.

Definition cleanRecentlyDeletedTransactions (currentTime : Z) (w : TransactionPoolCleanWrapper)
  : TransactionPoolCleanWrapper :=
  mkWrapper (transactionPool w)
    (filter (fun e => u64 (currentTime - e.2) < timeout w) (recentlyDeletedTransactions w))
    (timeout w).

Definition clean (currentTime height : Z) (w : TransactionPoolCleanWrapper)
  : option (list Hash * TransactionPoolCleanWrapper) :=
  '(deletedTransactions, w) ←
     clean_loop currentTime height (ip_getTransactionHashes (transactionPool w)) w [];
  Some (deletedTransactions, cleanRecentlyDeletedTransactions currentTime w).

(** ** Cleaning *)

Context (ok : P -> Prop) (contents : P -> list PendingTransactionInfo).
Context `{!ITransactionPoolLaws P ok contents}.

(** No transaction is both in the pool and recorded as deleted, and the times
    recorded are times after the first [timeout] seconds of the epoch. *)
Record wrapper_ok (w : TransactionPoolCleanWrapper) : Prop := {
  wrapper_pool : ok (transactionPool w);
  wrapper_times h t : recentlyDeletedTransactions w !! h = Some t -> timeout w <= t;
  wrapper_disjoint i : i ∈ contents (transactionPool w) ->
    recentlyDeletedTransactions w !! getTransactionHash i = None }.

Definition doomed (w : TransactionPoolCleanWrapper) (currentTime height : Z)
    (i : PendingTransactionInfo) : bool :=
  must_delete (timeout w) currentTime height (receiveTime i) (cachedTransaction i).

Lemma doomed_timeout w w' currentTime height i :
  timeout w' = timeout w -> doomed w' currentTime height i = doomed w currentTime height i.
Proof. unfold doomed. by intros ->. Qed.

(** The wrapper after the deletion of one transaction. *)
Definition delete_one (currentTime : Z) (w : TransactionPoolCleanWrapper) (hash : Hash)
  : TransactionPoolCleanWrapper :=
  mkWrapper (ip_removeTransaction (transactionPool w) hash).2
    (emplace hash currentTime (recentlyDeletedTransactions w)) (timeout w).

Lemma delete_one_ok currentTime w i :
  wrapper_ok w -> timeout w <= currentTime -> i ∈ contents (transactionPool w) ->
  let w' := delete_one currentTime w (getTransactionHash i) in
  wrapper_ok w' /\
  contents (transactionPool w') =
    filter (fun q => getTransactionHash q <> getTransactionHash i) (contents (transactionPool w)) /\
  recentlyDeletedTransactions w' =
    <[getTransactionHash i := currentTime]> (recentlyDeletedTransactions w).
Proof.
  intros [Hp Ht Hd] Hnow Hi. destruct (ip_remove _ (getTransactionHash i) Hp) as [Hp' Hc'].
  assert (recentlyDeletedTransactions (delete_one currentTime w (getTransactionHash i)) =
    <[getTransactionHash i := currentTime]> (recentlyDeletedTransactions w)) as Hr.
  { unfold delete_one, emplace. cbn [recentlyDeletedTransactions]. by rewrite (Hd i Hi). }
  split; [|done]. split; [done| |].
  - intros h t. rewrite Hr. intros [[_ <-]|[_ E]]%lookup_insert_Some; [done|by apply (Ht h)].
  - intros q Hq. cbn [transactionPool delete_one] in Hq. rewrite Hc' in Hq.
    apply list_elem_of_filter in Hq as [Hne Hq].
    rewrite Hr, lookup_insert_ne by done. by apply Hd.
Qed.

(** What the loop deletes of [l], in its order. *)
Definition doomed_hashes (w : TransactionPoolCleanWrapper) (currentTime height : Z)
    (l : list PendingTransactionInfo) : list Hash :=
  getTransactionHash <$> filter (fun i => doomed w currentTime height i = true) l.

(** The wrapper [w'] is [w] with the transactions [D] deleted at [currentTime]. *)
Record deleted_from (currentTime : Z) (w : TransactionPoolCleanWrapper) (D : list Hash)
    (w' : TransactionPoolCleanWrapper) : Prop := {
  df_ok : wrapper_ok w';
  df_timeout : timeout w' = timeout w;
  df_contents : contents (transactionPool w') =
    filter (fun q => getTransactionHash q ∉ D) (contents (transactionPool w));
  df_recent h : recentlyDeletedTransactions w' !! h =
    if decide (h ∈ D) then Some currentTime else recentlyDeletedTransactions w !! h }.

Lemma deleted_from_nil currentTime w : wrapper_ok w -> deleted_from currentTime w [] w.
Proof.
  intros Hok. split; [done..| |].
  - symmetry. apply filter_all, Forall_forall. intros q _ Hq. by apply elem_of_nil in Hq.
  - intros h. rewrite decide_False; [done|]. apply not_elem_of_nil.
Qed.

Lemma deleted_from_cons currentTime w i D w' :
  wrapper_ok w -> timeout w <= currentTime -> i ∈ contents (transactionPool w) ->
  deleted_from currentTime (delete_one currentTime w (getTransactionHash i)) D w' ->
  deleted_from currentTime w (getTransactionHash i :: D) w'.
Proof.
  intros Hok Ht Hi [H1 H2 H3 H4]. destruct (delete_one_ok currentTime w i Hok Ht Hi) as (_ & Hc & Hr).
  split; [done|done| |].
  - rewrite H3, Hc, list_filter_filter. apply list_filter_iff. intros q. rewrite not_elem_of_cons. tauto.
  - intros h. rewrite H4, Hr. destruct (decide (h = getTransactionHash i)) as [->|Hne].
    + rewrite lookup_insert_eq, (decide_True (P := _ ∈ _ :: _)) by (by left).
      by destruct (decide _).
    + rewrite lookup_insert_ne by done. destruct (decide (h ∈ D)) as [Hin|Hin].
      * by rewrite decide_True by (by right).
      * rewrite decide_False; [done|]. by apply not_elem_of_cons.
Qed.

Lemma clean_loop_spec currentTime height l w del :
  wrapper_ok w -> timeout w <= currentTime -> NoDup (getTransactionHash <$> l) ->
  (forall i, i ∈ l -> i ∈ contents (transactionPool w)) ->
  exists w', clean_loop currentTime height (getTransactionHash <$> l) w del =
      Some (del ++ doomed_hashes w currentTime height l, w') /\
    deleted_from currentTime w (doomed_hashes w currentTime height l) w'.
Proof.
  revert w del. induction l as [|i l IH]; intros w del Hok Ht Hn Hin.
  { exists w. split; [cbn; by rewrite app_nil_r|by apply deleted_from_nil]. }
  apply NoDup_cons in Hn as [Hi Hn].
  assert (i ∈ contents (transactionPool w)) as Hiw by (apply Hin; by left).
  destruct (ip_get _ i (wrapper_pool _ Hok) Hiw) as [Hg Hg'].
  cbn [fmap list_fmap clean_loop]. rewrite Hg', Hg. cbn [mbind option_bind].
  fold (doomed w currentTime height i). unfold doomed_hashes. rewrite filter_cons.
  destruct (doomed w currentTime height i) eqn:E.
  - rewrite decide_True by done. fold (delete_one currentTime w (getTransactionHash i)).
    destruct (delete_one_ok currentTime w i Hok Ht Hiw) as (Hok1 & Hc1 & _).
    destruct (IH (delete_one currentTime w (getTransactionHash i)) (del ++ [getTransactionHash i]))
      as (w' & E' & Hdf); [done|done|done| |].
    { intros q Hq. rewrite Hc1. apply list_elem_of_filter. split; [|apply Hin; by right].
      intros Eq. apply Hi. rewrite <- Eq. by apply list_elem_of_fmap_2. }
    exists w'. split; [rewrite E', <- app_assoc; done|]. by apply deleted_from_cons.
  - rewrite decide_False by done. apply IH; [done..|]. intros q Hq. apply Hin. by right.
Qed.

Lemma filter_doomed w currentTime height :
  wrapper_ok w ->
  filter (fun q => getTransactionHash q ∉ doomed_hashes w currentTime height (contents (transactionPool w)))
    (contents (transactionPool w)) =
  filter (fun q => doomed w currentTime height q = false) (contents (transactionPool w)).
Proof.
  intros Hok. pose proof (ip_unique _ (wrapper_pool _ Hok)) as Hu. revert Hu.
  generalize (contents (transactionPool w)) as l. intros l Hu.
  assert (forall q, q ∈ l -> getTransactionHash q ∈ doomed_hashes w currentTime height l ->
    doomed w currentTime height q = true) as Hd.
  { intros q Hq (q' & E & [Hd Hq']%list_elem_of_filter)%list_elem_of_fmap.
    apply list_elem_of_lookup_1 in Hq as [a Ha], Hq' as [b Hb].
    assert (a = b) as ->; [|congruence].
    eapply (NoDup_lookup _ a b (getTransactionHash q) Hu); rewrite list_lookup_fmap, ?Ha, ?Hb; cbn; congruence. }
  apply filter_ext_in. intros q Hq. specialize (Hd q Hq).
  destruct (doomed w currentTime height q) eqn:E.
  - split; [|done]. intros Hn. destruct Hn. apply list_elem_of_fmap. exists q. split; [done|].
    by apply list_elem_of_filter.
  - split; [done|]. intros _ Hin. by specialize (Hd Hin).
Qed.

Lemma clean_spec currentTime height w :
  wrapper_ok w -> 0 < timeout w <= currentTime ->
  let D := doomed_hashes w currentTime height (contents (transactionPool w)) in
  exists w', clean currentTime height w = Some (D, w') /\ wrapper_ok w' /\ timeout w' = timeout w /\
    contents (transactionPool w') =
      filter (fun q => doomed w currentTime height q = false) (contents (transactionPool w)) /\
    (forall h t, recentlyDeletedTransactions w' !! h = Some t <->
       h ∈ D /\ t = currentTime \/
       ~ h ∈ D /\ recentlyDeletedTransactions w !! h = Some t /\ u64 (currentTime - t) < timeout w).
Proof.
  intros Hok [Hpos Ht] D. unfold clean. rewrite ip_hashes.
  destruct (clean_loop_spec currentTime height (contents (transactionPool w)) w [] Hok Ht)
    as (w1 & E & [Hok1 Ht1 Hc1 Hr1]); [apply ip_unique, Hok|done|].
  rewrite E. cbn [mbind option_bind app]. eexists. split; [reflexivity|].
  unfold cleanRecentlyDeletedTransactions.
  cbn [transactionPool recentlyDeletedTransactions timeout].
  assert (forall h t, filter (fun e => u64 (currentTime - e.2) < timeout w1)
      (recentlyDeletedTransactions w1) !! h = Some t <->
    recentlyDeletedTransactions w1 !! h = Some t /\ u64 (currentTime - t) < timeout w1) as Hf.
  { intros h t. by rewrite map_lookup_filter_Some. }
  split; [|split; [done|split; [by rewrite Hc1, filter_doomed|]]].
  - split; [apply Hok1| |].
    + intros h t Hh. cbn in Hh. apply Hf in Hh as [Hh _]. by apply (wrapper_times _ Hok1) in Hh.
    + intros i Hi. cbn in Hi |- *. apply map_lookup_filter_None_2. left. by apply (wrapper_disjoint _ Hok1).
  - intros h t. rewrite Hf, Hr1, Ht1. fold D. destruct (decide (h ∈ D)) as [Hin|Hin]; [|tauto].
    split; [intros [[= <-] _]; by left|]. intros [[_ ->]|[? _]]; [|done].
    split; [done|]. replace (currentTime - currentTime) with 0 by lia. done.
Qed.

Lemma wrapper_push_ok now tx w :
  wrapper_ok w -> info_ok (new_info now tx) -> NoDup (info_images (new_info now tx)) ->
  wrapper_ok (pushTransaction now tx (extractSpentOutputs (ct_transaction tx)) w).2.
Proof.
  intros Hok Hi Hn. unfold pushTransaction. destruct (isTransactionRecentlyDeleted w _) eqn:E; [done|].
  pose proof (ip_push _ now tx (wrapper_pool _ Hok) Hi Hn) as Hp.
  destruct (ip_pushTransaction _ _ _ _) as [[] p']; destruct Hp as [Hp Hc].
  - split; [done|apply Hok|]. cbn. intros i. rewrite Hc. intros [->|Hin]%elem_of_cons.
    + cbn. unfold isTransactionRecentlyDeleted in E.
      destruct (recentlyDeletedTransactions w !! ct_hash tx) as [t|] eqn:Et; [|done].
      apply (wrapper_times _ Hok) in Et. lia.
    + by apply (wrapper_disjoint _ Hok).
  - subst p'. by destruct Hok.
Qed.
End Wrapper.
End Cleaner.
Arguments TransactionPoolCleanWrapper : clear implicits.

(** C30: on any pool that keeps the promises
    of its interface, [clean] completes and returns, in the order of the pool,
    the hashes of exactly the transactions its conditions reject at this time
    and height; the pool keeps exactly the others.  It records the deletions
    with the current time and forgets exactly the older ones whose [timeout]
    has passed.  Until then a deleted transaction is refused when it is pushed
    again, so no transaction is both pending and recorded as deleted; pushing
    keeps this too. *)
Theorem pool_clean_correct {json} (json_parse : list Z -> option json) (json_t : json -> option Z)
    {P} `{ITransactionPool P} ok contents `{!ITransactionPoolLaws P ok contents}
    currentTime height (w : TransactionPoolCleanWrapper P) :
  wrapper_ok ok contents w -> 0 < timeout w <= currentTime ->
  let D := doomed_hashes json_parse json_t w currentTime height (contents (transactionPool w)) in
  (exists w', clean json_parse json_t currentTime height w = Some (D, w') /\
    wrapper_ok ok contents w' /\
    contents (transactionPool w') =
      filter (fun q => must_delete json_parse json_t (timeout w) currentTime height
                (receiveTime q) (cachedTransaction q) = false) (contents (transactionPool w)) /\
    (forall h t, recentlyDeletedTransactions w' !! h = Some t <->
       h ∈ D /\ t = currentTime \/
       ~ h ∈ D /\ recentlyDeletedTransactions w !! h = Some t /\ u64 (currentTime - t) < timeout w) /\
    (forall now tx st, ct_hash tx ∈ D -> pushTransaction now tx st w' = (false, w'))) /\
  (forall now tx, info_ok (new_info now tx) -> NoDup (info_images (new_info now tx)) ->
    wrapper_ok ok contents
      (pushTransaction now tx (extractSpentOutputs (ct_transaction tx)) w).2).
Proof.
  intros Hok Ht D. split; [|intros; by apply wrapper_push_ok].
  destruct (clean_spec json_parse json_t ok contents currentTime height w Hok Ht)
    as (w' & E & Hok' & Ht' & Hc & Hr).
  exists w'. split; [done|]. split; [done|]. split; [done|]. split; [done|].
  intros now tx st Hin. unfold pushTransaction, isTransactionRecentlyDeleted.
  rewrite (proj2 (Hr (ct_hash tx) currentTime)) by (by left). rewrite Ht'.
  by rewrite (proj2 (Z.leb_le _ _)) by lia.
Qed.

(** A pool with one transaction received at second 7 and one at second 950. *)
Definition sample_wrapper : TransactionPoolCleanWrapper TransactionPool :=
  mkWrapper (TransactionPool.pushTransaction 950 (sample_pool_tx 4 5)
    (extractSpentOutputs (ct_transaction (sample_pool_tx 4 5))) sample_pool).2 ∅ 100.

Lemma sample_wrapper_ok : wrapper_ok pool_ok pending sample_wrapper.
Proof.
  assert (info_ok (new_info 950 (sample_pool_tx 4 5))) as Hi by (split; vm_compute; done).
  assert (NoDup (info_images (new_info 950 (sample_pool_tx 4 5)))) as Hn by apply NoDup_singleton.
  pose proof (pushTransaction_spec sample_pool 950 (sample_pool_tx 4 5) sample_pool_ok Hi Hn) as Hp.
  unfold sample_wrapper. split; cbn [transactionPool recentlyDeletedTransactions].
  - destruct (TransactionPool.pushTransaction _ _ _ _). apply Hp.
  - intros h t Ht. by rewrite lookup_empty in Ht.
  - intros i _. by rewrite lookup_empty.
Qed.

Lemma pool_clean_correct_witness :
  exists w', clean (fun _ => None) (fun j : Z => Some j) 1000 0 sample_wrapper =
      Some ([replicate 32 3], w') /\
    getTransactionHashes (transactionPool w') = [replicate 32 4] /\
    recentlyDeletedTransactions w' !! replicate 32 3 = Some 1000.
Proof.
  destruct (pool_clean_correct (fun _ => None) (fun j : Z => Some j) pool_ok pending 1000 0
    sample_wrapper sample_wrapper_ok) as [(w' & E & _ & Hc & Hr & _) _]; [cbn; lia|].
  exists w'. split; [rewrite E; vm_compute; reflexivity|].
  split; [unfold getTransactionHashes; rewrite Hc; vm_compute; reflexivity|].
  apply Hr. left. split; [|done]. apply (bool_decide_eq_true_1 _). vm_compute. reflexivity.
Defined.

(** The text [trimExtra] falls back on is not JSON, as names and strings take
    double quotes; with a parser that refuses it, the fallback is an exception
    as well, and [clean] deletes the transaction. *)
Lemma trimExtra_fallback_throws {json} (json_parse : list Z -> option json) extra :
  json_parse (str "{ 't': 0 }") = None ->
  trim_at json_parse 66 extra = None -> trim_at json_parse 78 extra = None ->
  trimExtra json_parse extra = None.
Proof. intros H1 H2 H3. unfold trimExtra. by rewrite H2, H3. Qed.
