(* ===== verification/ChainTree.v ===== *)
(** The tree of chain segments that [Core] owns (cryptonote_core/core.cpp:
    [chainsStorage], [chainsLeaves] and the functions on them) together with
    the parent and children pointers of [BlockchainCache].

    A pointer is a number; [Tree] maps the segments allocated to their
    contents.  The chain of a segment is the list of pointers up to the root,
    and its [path] the cache it stands for in [BlockchainCache].  The lemmas
    give the effect of the three ways a block enters the tree: on a leaf, as a
    new child, and after splitting a segment. *)

From stdpp Require Import base gmap sets list sorting fin_maps.
From S2P Require Import Prelude Config Bytes Types Block Currency.
From S2P Require Import BlockchainCache CacheFacts CacheSteps.

Record Node := mkNode {
  segment : Segment;
  parent : option nat;
  children : list nat }.

Abbreviation Tree := (gmap nat Node).

(** The pointers from a segment to the root. *)
Fixpoint ancestors (fuel : nat) (t : Tree) (id : nat) : list nat :=
  match fuel with
  | O => []
  | S fuel =>
      match t !! id with
      | None => []
      | Some n => id :: match parent n with Some p => ancestors fuel t p | None => [] end
      end
  end.

(** No segment occurs twice on the way to the root. *)
Definition chain_ids (t : Tree) (id : nat) : list nat := ancestors (size t) t id.

Definition segments (t : Tree) (ids : list nat) : Cache := omap (fun i => segment <$> t !! i) ids.

Definition path (t : Tree) (id : nat) : Cache := segments t (chain_ids t id).

Definition segment_has (t : Tree) (blockHash : Hash) (id : nat) : bool :=
  match t !! id with Some n => hasBlock (segment n) blockHash | None => false end.

(** [findIndexInChain (blockSegment, blockHash)]. *)
Definition findIndexInChain (t : Tree) (id : nat) (blockHash : Hash) : option nat :=
  find (segment_has t blockHash) (chain_ids t id).

(** [findIndexInChain (blockSegment, blockIndex)]. *)
Definition findIndexInChain_index (t : Tree) (id : nat) (blockIndex : Z) : option nat :=
  find (fun i => match t !! i with
                 | Some n => (startIndex (segment n) <=? blockIndex) &&
                     (blockIndex <? u32 (startIndex (segment n) + getBlockCount (segment n)))
                 | None => false end) (chain_ids t id).

Definition findMainChainSegmentContainingBlock (t : Tree) (leaves : list nat) (blockHash : Hash)
  : option nat :=
  leaf ← head leaves; findIndexInChain t leaf blockHash.

Fixpoint findAlternativeSegmentContainingBlock (t : Tree) (leaves : list nat) (blockHash : Hash)
  : option nat :=
  match leaves with
  | [] => None
  | leaf :: rest =>
      match findIndexInChain t leaf blockHash with
      | Some id => Some id
      | None => findAlternativeSegmentContainingBlock t rest blockHash
      end
  end.

Definition findSegmentContainingBlock (t : Tree) (leaves : list nat) (blockHash : Hash)
  : option nat :=
  match findMainChainSegmentContainingBlock t leaves blockHash with
  | Some id => Some id
  | None => findAlternativeSegmentContainingBlock t (tail leaves) blockHash
  end.

(** [updateMainChainSet]. *)
Definition updateMainChainSet (t : Tree) (leaf : nat) : gset nat := list_to_set (chain_ids t leaf).

(** A new allocation. *)
Definition new_id (t : Tree) : nat := fresh (dom t : gset nat).

Definition set_segment (s : Segment) (n : Node) : Node := mkNode s (parent n) (children n).
Definition addChild (child : nat) (n : Node) : Node :=
  mkNode (segment n) (parent n) (children n ++ [child]).
Definition set_parent (p : nat) (n : Node) : Node := mkNode (segment n) (Some p) (children n).

(** [fixChildrenParent]. *)
Definition fixChildrenParent (p : nat) (l : list nat) (t : Tree) : Tree :=
  fold_left (fun t c => alter (set_parent p) c t) l t.

(** [createBlockchainCache] below [id] and [addChild]: the tree and the pointer
    of the new segment. *)
Definition attach (t : Tree) (id : nat) (s : Segment) : Tree * nat :=
  let new := new_id t in
  (<[new := mkNode s (Some id) []]> (alter (addChild new) id t), new).

(** [split] with its pointers: the tree and the pointer of the upper segment. *)
Definition split_node (t : Tree) (id : nat) (splitBlockIndex : Z) : option (Tree * nat) :=
  n ← t !! id;
  let '(lower, upper) := split (segment n) splitBlockIndex in
  let u := new_id t in
  let t := fixChildrenParent u (children n) t in
  Some (<[u := mkNode upper (Some id) (children n)]> (<[id := mkNode lower (parent n) [u]]> t), u).

(** ** The chain of a segment *)

Inductive chain_of (t : Tree) : nat -> list nat -> Prop :=
  | chain_root id n : t !! id = Some n -> parent n = None -> chain_of t id [id]
  | chain_step id n p l :
      t !! id = Some n -> parent n = Some p -> chain_of t p l -> chain_of t id (id :: l).

Lemma chain_of_head t id l : chain_of t id l -> exists l', l = id :: l' /\ is_Some (t !! id).
Proof. destruct 1 as [? ? E|? ? ? ? E]; eauto. Qed.

Lemma chain_of_fun t id l l' : chain_of t id l -> chain_of t id l' -> l = l'.
Proof.
  intros H. revert l'. induction H as [id n E Ep|id n p l E Ep H IH]; inversion 1; simplify_eq; [done|].
  f_equal. by apply IH.
Qed.

Lemma chain_of_suffix t id l x l1 l2 :
  chain_of t id l -> l = l1 ++ x :: l2 -> chain_of t x (x :: l2).
Proof.
  intros H. revert l1. induction H as [id n E Ep|id n p l E Ep H IH]; intros l1 El.
  - destruct l1 as [|y [|z l1]]; simplify_eq/=. by econstructor.
  - destruct l1 as [|y l1]; simplify_eq/=; [by econstructor|by apply (IH l1)].
Qed.

Lemma chain_of_NoDup t id l : chain_of t id l -> NoDup l.
Proof.
  intros H. apply NoDup_alt. intros i j x Hi Hj.
  assert (forall a b, l !! a = Some x -> l !! b = Some x -> (a < b)%nat -> False) as Hlt.
  { intros a b Ha Hb Hab.
    pose proof (chain_of_suffix t id l x (take a l) (drop (S a) l) H) as H1.
    pose proof (chain_of_suffix t id l x (take b l) (drop (S b) l) H) as H2.
    rewrite take_drop_middle in H1, H2 by done.
    pose proof (chain_of_fun _ _ _ _ (H1 eq_refl) (H2 eq_refl)) as E.
    apply (f_equal length) in E. cbn in E. rewrite !length_drop in E.
    apply lookup_lt_Some in Ha, Hb. lia. }
  destruct (lt_eq_lt_dec i j) as [[?|?]|?]; [|done|]; exfalso; eauto.
Qed.

Lemma chain_of_dom t id l : chain_of t id l -> forall x, x ∈ l -> is_Some (t !! x).
Proof.
  induction 1 as [id n E Ep|id n p l E Ep H IH]; intros x.
  - intros ->%list_elem_of_singleton. eauto.
  - intros [->|Hx]%elem_of_cons; eauto.
Qed.

Lemma chain_of_length t id l : chain_of t id l -> (length l <= size t)%nat.
Proof.
  intros H. pose proof (chain_of_NoDup t id l H) as Hn. pose proof (chain_of_dom t id l H) as Hd.
  rewrite <- (size_dom (D := gset nat) t), <- (size_list_to_set (C := gset nat) l Hn).
  apply subseteq_size. intros x Hx%elem_of_list_to_set. apply elem_of_dom. by apply Hd.
Qed.

Lemma chain_of_ancestors t id l fuel :
  chain_of t id l -> (length l <= fuel)%nat -> ancestors fuel t id = l.
Proof.
  intros H. revert fuel. induction H as [id n E Ep|id n p l E Ep H IH]; intros fuel Hf;
    (destruct fuel as [|fuel]; [cbn in Hf; lia|]); cbn; rewrite E, Ep; [done|].
  f_equal. apply IH. cbn in Hf. lia.
Qed.

(** The fuel of [chain_ids] is enough. *)
Lemma chain_ids_of t id l : chain_of t id l -> chain_ids t id = l.
Proof. intros H. apply (chain_of_ancestors t id l); [done|by eapply chain_of_length]. Qed.

(** ** Chains with the same contents *)

Record same_chain (c c' : Cache) : Prop := {
  sc_blocks : chain_blocks c = chain_blocks c';
  sc_storage : chain_storage c = chain_storage c';
  sc_spent : chain_spent c = chain_spent c';
  sc_transactions : chain_transactions c = chain_transactions c';
  sc_outputs a : chain_outputs c a = chain_outputs c' a }.

#[global] Instance same_chain_equivalence : Equivalence same_chain.
Proof.
  split.
  - intros c. by split.
  - intros c c' []. by split.
  - intros c1 c2 c3 [] []. split; try congruence.
Qed.

#[global] Instance cons_same_chain s : Proper (same_chain ==> same_chain) (cons s).
Proof. intros c c' []. split; cbn; congruence. Qed.

#[global] Instance app_same_chain pre : Proper (same_chain ==> same_chain) (app pre).
Proof. intros c c' H. induction pre as [|s pre IH]; cbn; [done|by f_equiv]. Qed.

#[global] Instance height_same_chain : Proper (same_chain ==> eq) height.
Proof. intros c c' []. unfold height. congruence. Qed.

(** The invariant of a segment sees the contents of its parents only. *)
Lemma cache_ok_cons_same s c c' :
  same_chain c c' -> cache_ok c' -> cache_ok (s :: c) -> cache_ok (s :: c').
Proof.
  intros Hs Hc' (_ & (H1 & H2 & H3 & H4) & (H5 & H6) & H7 & H8).
  pose proof (cons_same_chain s _ _ Hs) as Hs'. rewrite Hs in H1. rewrite Hs' in H4.
  destruct Hs as [Hb Hst Hsp Ht Ho]. rewrite Hsp in H6.
  split; [done|]. split; [done|]. split; [done|]. split; [|done].
  intros a e Ha. rewrite <- Ho. by apply H7.
Qed.

Lemma cache_ok_app_same pre c c' :
  same_chain c c' -> cache_ok c' -> cache_ok (pre ++ c) -> cache_ok (pre ++ c').
Proof.
  intros Hs Hc'. induction pre as [|s pre IH]; [done|]. intros Hok.
  apply (cache_ok_cons_same s (pre ++ c)); [by f_equiv| |done]. apply IH. by destruct Hok.
Qed.

Lemma split_same_chain s parents k :
  cache_ok (s :: parents) ->
  startIndex s < k < startIndex s + Z.of_nat (length (blockInfos s)) ->
  same_chain (s :: parents) ((split s k).2 :: (split s k).1 :: parents).
Proof.
  intros Hok Hk. symmetry.
  split; [by apply split_chain_blocks|by apply split_chain_storage|by apply split_chain_spent|
    by apply split_chain_transactions|intros a; by apply split_chain_outputs].
Qed.

(** ** The invariant of the tree *)

Record tree_ok (t : Tree) : Prop := {
  tree_rooted id : is_Some (t !! id) -> exists l, chain_of t id l;
  tree_cache id l : chain_of t id l -> cache_ok (segments t l);
  tree_children p n c : t !! p = Some n ->
    (c ∈ children n <-> exists m, t !! c = Some m /\ parent m = Some p) }.

Lemma tree_path t id l : chain_of t id l -> path t id = segments t l.
Proof. intros H. unfold path. by rewrite (chain_ids_of t id l). Qed.

Lemma segments_cons t id n l : t !! id = Some n -> segments t (id :: l) = segment n :: segments t l.
Proof. intros E. cbn. by rewrite E. Qed.

Lemma segments_ext t t' l :
  (forall x, x ∈ l -> segment <$> t' !! x = segment <$> t !! x) -> segments t' l = segments t l.
Proof.
  intros H. induction l as [|x l IH]; [done|]. unfold segments in *. cbn.
  rewrite (H x) by (by left). rewrite IH; [done|]. intros y Hy. apply H. by right.
Qed.

Lemma chain_of_parents t t' id l :
  parent <$> t = parent <$> t' -> chain_of t id l -> chain_of t' id l.
Proof.
  intros Hp. assert (forall x n, t !! x = Some n -> exists n', t' !! x = Some n' /\ parent n' = parent n) as H.
  { intros x n E. assert ((parent <$> t') !! x = Some (parent n)) as E'.
    { rewrite <- Hp, lookup_fmap, E. done. }
    rewrite lookup_fmap in E'. apply fmap_Some in E' as (n' & ? & ?). by exists n'. }
  induction 1 as [id n E Ep|id n p l E Ep _ IH]; destruct (H id n E) as (n' & E' & Ep');
    rewrite Ep in Ep'; by econstructor.
Qed.

(** A segment without children ends every chain it is in. *)
Lemma leaf_last t id n x l :
  tree_ok t -> t !! id = Some n -> children n = [] -> chain_of t x l -> id ∈ l -> x = id.
Proof.
  intros Hok E Hc. induction 1 as [x m Ex Ep|x m p l Ex Ep H IH]; intros Hin.
  - by apply list_elem_of_singleton in Hin.
  - apply elem_of_cons in Hin as [->|Hin]; [done|]. specialize (IH Hin). subst p.
    assert (x ∈ children n) as Hx by (apply (tree_children t Hok id n x E); eauto).
    rewrite Hc in Hx. by apply elem_of_nil in Hx.
Qed.

(** ** Every segment has a leaf above it *)

Lemma child_chain t p n c l :
  tree_ok t -> t !! p = Some n -> c ∈ children n -> chain_of t p l -> chain_of t c (c :: l).
Proof.
  intros Hok E Hc Hl. apply (tree_children t Hok p n c E) in Hc as (m & Em & Ep).
  by econstructor.
Qed.

Lemma leaf_above t id l :
  tree_ok t -> chain_of t id l ->
  exists leaf n pre, chain_of t leaf (pre ++ l) /\ t !! leaf = Some n /\ children n = [].
Proof.
  intros Hok. remember (size t - length l)%nat as k eqn:Ek. revert id l Ek.
  induction (lt_wf k) as [k _ IH]. intros id l -> Hl.
  destruct (chain_of_head t id l Hl) as (l' & El & n & En).
  destruct (children n) as [|c cs] eqn:Ec; [by exists id, n, []|].
  assert (chain_of t c (c :: l)) as Hc.
  { apply (child_chain t id n c l Hok En); [|done]. rewrite Ec. by left. }
  pose proof (chain_of_length _ _ _ Hc) as Hlen. cbn in Hlen.
  destruct (IH (size t - length (c :: l))%nat) with (id := c) (l := c :: l)
    as (leaf & m & pre & H1 & H2 & H3); [cbn; lia|done|done|].
  exists leaf, m, (pre ++ [c]). rewrite <- app_assoc. done.
Qed.

(** ** A block on a leaf *)

Section PushLeaf.
Context (t : Tree) (id : nat) (n : Node) (l : list nat) (s' : Segment).
Context (Hok : tree_ok t) (En : t !! id = Some n) (Hleaf : children n = []).
Context (Hl : chain_of t id (id :: l)) (Hs' : cache_ok (s' :: segments t l)).

Let t' := alter (set_segment s') id t.

Lemma push_lookup x : t' !! x = (if decide (x = id) then set_segment s' else fun m => m) <$> t !! x.
Proof.
  unfold t'. destruct (decide (x = id)) as [->|Hne].
  - by rewrite lookup_alter_eq.
  - rewrite lookup_alter_ne by done. by destruct (t !! x).
Qed.

Lemma push_parents : parent <$> t' = parent <$> t.
Proof.
  apply map_eq. intros x. rewrite !lookup_fmap, push_lookup.
  destruct (t !! x), (decide _); done.
Qed.

Lemma push_chain x k : chain_of t' x k <-> chain_of t x k.
Proof. split; apply chain_of_parents; [|symmetry]; apply push_parents. Qed.

Lemma push_segments_other x k : chain_of t x k -> x <> id -> segments t' k = segments t k.
Proof.
  intros Hk Hne. apply segments_ext. intros y Hy. rewrite push_lookup.
  destruct (decide (y = id)) as [->|]; [|by destruct (t !! y)].
  destruct Hne. by eapply leaf_last.
Qed.

Lemma push_segments_leaf : segments t' (id :: l) = s' :: segments t l.
Proof.
  rewrite (segments_cons t' id (set_segment s' n)).
  - f_equal. apply segments_ext. intros y Hy. rewrite push_lookup.
    destruct (decide (y = id)) as [->|]; [|by destruct (t !! y)].
    apply chain_of_NoDup in Hl. by apply NoDup_cons in Hl as [? _].
  - rewrite push_lookup, En. by rewrite decide_True.
Qed.

Lemma push_tree_ok : tree_ok t'.
Proof.
  split.
  - intros x Hx. rewrite push_lookup, fmap_is_Some in Hx.
    destruct (tree_rooted t Hok x Hx) as [k Hk]. exists k. by apply push_chain.
  - intros x k Hk%push_chain. destruct (decide (x = id)) as [->|Hne].
    + rewrite (chain_of_fun _ _ _ _ Hk Hl). by rewrite push_segments_leaf.
    + rewrite (push_segments_other x k) by done. by apply (tree_cache t Hok x).
  - intros p m c. rewrite push_lookup. intros (m0 & Em & ->)%fmap_Some.
    assert (children ((if decide (p = id) then set_segment s' else fun m => m) m0) = children m0) as ->
      by by destruct (decide _).
    rewrite (tree_children t Hok p m0 c Em). setoid_rewrite push_lookup. split.
    + intros (q & Eq & Hq). rewrite Eq. eexists. split; [done|]. by destruct (decide _).
    + intros (q & (q0 & Eq & ->)%fmap_Some & Hq). exists q0. split; [done|]. by destruct (decide _).
Qed.
End PushLeaf.

(** ** A new child *)

Lemma new_id_fresh t : t !! new_id t = None.
Proof. apply (not_elem_of_dom (D := gset nat)). exact (is_fresh (dom t : gset nat)). Qed.

Section Attach.
Context (t : Tree) (id : nat) (n : Node) (l : list nat) (s : Segment).
Context (Hok : tree_ok t) (En : t !! id = Some n) (Hl : chain_of t id l).
Context (Hs : cache_ok (s :: segments t l)).

Let new := new_id t.
Let t' := (attach t id s).1.

Lemma new_fresh : t !! new = None.
Proof. apply new_id_fresh. Qed.

Lemma attach_lookup x :
  t' !! x = if decide (x = new) then Some (mkNode s (Some id) [])
            else (if decide (x = id) then addChild new else fun m => m) <$> t !! x.
Proof.
  unfold t', attach. cbn [fst]. fold new. destruct (decide (x = new)) as [->|Hne].
  - by rewrite lookup_insert_eq.
  - rewrite lookup_insert_ne by done. destruct (decide (x = id)) as [->|].
    + by rewrite lookup_alter_eq.
    + rewrite lookup_alter_ne by done. by destruct (t !! x).
Qed.

Lemma attach_old x m :
  t !! x = Some m -> exists m', t' !! x = Some m' /\ parent m' = parent m /\ segment m' = segment m.
Proof.
  intros E. rewrite attach_lookup, decide_False.
  - rewrite E. destruct (decide _); cbn; eauto.
  - intros ->. by rewrite new_fresh in E.
Qed.

Lemma attach_chain_old x k : chain_of t x k -> chain_of t' x k.
Proof.
  induction 1 as [x m E Ep|x m p k E Ep _ IH]; destruct (attach_old x m E) as (m' & E' & Ep' & _);
    rewrite Ep in Ep'; by econstructor.
Qed.

Lemma attach_chain_new : chain_of t' new (new :: l).
Proof.
  eapply (chain_step t' new); [by rewrite attach_lookup, decide_True|done|by apply attach_chain_old].
Qed.

Lemma attach_segments_old x k : chain_of t x k -> segments t' k = segments t k.
Proof.
  intros Hk. apply segments_ext. intros y Hy. destruct (chain_of_dom t x k Hk y Hy) as [m E].
  destruct (attach_old y m E) as (m' & E' & _ & Es). rewrite E', E. cbn. by f_equal.
Qed.

Lemma attach_segments_new : segments t' (new :: l) = s :: segments t l.
Proof.
  rewrite (segments_cons t' new (mkNode s (Some id) [])) by (by rewrite attach_lookup, decide_True).
  cbn [segment]. by rewrite (attach_segments_old id l).
Qed.

(** Every chain of the new tree is one of these. *)
Lemma attach_chain_inv x k : chain_of t' x k -> (x = new /\ k = new :: l) \/ chain_of t x k.
Proof.
  intros Hk. destruct (decide (x = new)) as [->|Hne].
  - left. split; [done|]. by eapply chain_of_fun; [|apply attach_chain_new].
  - right. destruct (chain_of_head _ _ _ Hk) as (_ & _ & Hx).
    rewrite attach_lookup, decide_False, fmap_is_Some in Hx by done.
    destruct (tree_rooted t Hok x Hx) as [k' Hk'].
    by rewrite (chain_of_fun _ _ _ _ Hk (attach_chain_old x k' Hk')).
Qed.

Lemma attach_tree_ok : tree_ok t'.
Proof.
  split.
  - intros x Hx. rewrite attach_lookup in Hx. destruct (decide (x = new)) as [->|Hne].
    + exists (new :: l). apply attach_chain_new.
    + rewrite fmap_is_Some in Hx. destruct (tree_rooted t Hok x Hx) as [k Hk].
      exists k. by apply attach_chain_old.
  - intros x k [[-> ->]|Hk]%attach_chain_inv.
    + by rewrite attach_segments_new.
    + rewrite (attach_segments_old x k Hk). by apply (tree_cache t Hok x).
  - intros p m c Em. assert (forall q, q ∈ children m <-> q = new /\ p = id \/
      exists r, t !! q = Some r /\ parent r = Some p) as Hch.
    { intros q. rewrite attach_lookup in Em. destruct (decide (p = new)) as [->|Hp].
      - injection Em as <-. cbn. rewrite elem_of_nil. split; [done|]. intros [[_ E]|(r & Er & Ep)].
        + rewrite <- E in En. by rewrite new_fresh in En.
        + destruct (tree_rooted t Hok q) as [k Hk]; [eauto|].
          inversion Hk as [? ? E1 E2|? ? p' k' E1 E2 Hp']; simplify_eq.
          destruct (chain_of_head _ _ _ Hp') as (_ & _ & m' & E'). by rewrite new_fresh in E'.
      - apply fmap_Some in Em as (m0 & Em0 & ->).
        rewrite <- (tree_children t Hok p m0 q Em0). destruct (decide (p = id)) as [->|Hpid]; cbn.
        + rewrite elem_of_app, list_elem_of_singleton. tauto.
        + tauto. }
    rewrite Hch. setoid_rewrite attach_lookup. destruct (decide (c = new)) as [->|Hc].
    + split; [|intros (r & [= <-] & [= ->]); by left].
      intros [[_ ->]|(r & Er & _)]; [eauto|by rewrite new_fresh in Er].
    + split.
      * intros [[? _]|(r & Er & Ep)]; [done|]. rewrite Er. eexists. split; [done|].
        by destruct (decide _).
      * intros (r & (r0 & Er & ->)%fmap_Some & Ep). right. exists r0. split; [done|].
        by destruct (decide _).
Qed.
End Attach.

(** ** Splitting a segment *)

(** The chain through a segment [id] whose upper part became [u]. *)
Definition via (u id : nat) (l : list nat) : list nat :=
  l ≫= (fun y => if decide (y = id) then [u; id] else [y]).

Lemma via_out u id l : id ∉ l -> via u id l = l.
Proof.
  unfold via. induction l as [|x l IH]; [done|]. intros [Hx Hl]%not_elem_of_cons.
  cbn. rewrite decide_False by done. cbn. f_equal. by apply IH.
Qed.

Lemma via_cons u id x l : via u id (x :: l) = (if decide (x = id) then [u; id] else [x]) ++ via u id l.
Proof. done. Qed.

Lemma via_app u id l1 l2 : via u id (l1 ++ l2) = via u id l1 ++ via u id l2.
Proof. apply bind_app. Qed.

Lemma fixChildrenParent_lookup p l t x :
  fixChildrenParent p l t !! x = (if decide (x ∈ l) then set_parent p else fun m => m) <$> t !! x.
Proof.
  unfold fixChildrenParent. revert t. induction l as [|c l IH]; intros t; cbn [fold_left].
  - rewrite decide_False by apply not_elem_of_nil. by destruct (t !! x).
  - rewrite IH. destruct (decide (x = c)) as [->|Hne].
    + rewrite lookup_alter_eq, (decide_True (P := c ∈ c :: l)) by (by left).
      destruct (t !! c), (decide (c ∈ l)); done.
    + rewrite lookup_alter_ne by done.
      destruct (decide (x ∈ l)) as [Hin|Hin]; [rewrite decide_True by (by right)|
        rewrite decide_False by (by apply not_elem_of_cons)]; done.
Qed.

Section SplitNode.
Context (t : Tree) (id : nat) (n : Node) (l : list nat) (k : Z).
Context (Hok : tree_ok t) (En : t !! id = Some n) (Hl : chain_of t id (id :: l)).
Context (Hk : startIndex (segment n) < k <
  startIndex (segment n) + Z.of_nat (length (blockInfos (segment n)))).

Let u := new_id t.
Let lower := (split (segment n) k).1.
Let upper := (split (segment n) k).2.
Let t' := <[u := mkNode upper (Some id) (children n)]>
  (<[id := mkNode lower (parent n) [u]]> (fixChildrenParent u (children n) t)).

Lemma split_node_eq : split_node t id k = Some (t', u).
Proof.
  unfold split_node, t', lower, upper, u. rewrite En. cbn [mbind option_bind].
  by destruct (split (segment n) k).
Qed.

Lemma split_u_fresh : t !! u = None.
Proof. apply new_id_fresh. Qed.

Lemma split_not_own_child : id ∉ children n.
Proof.
  intros H%(tree_children t Hok id n id En). destruct H as (m & Em & Ep). simplify_eq.
  inversion Hl as [? ? E1 E2|? ? p k' E1 E2 Hp]; simplify_eq.
  pose proof (chain_of_fun _ _ _ _ Hl Hp) as E. apply (f_equal length) in E. cbn in E. lia.
Qed.

Lemma split_lookup x :
  t' !! x = if decide (x = u) then Some (mkNode upper (Some id) (children n))
            else if decide (x = id) then Some (mkNode lower (parent n) [u])
            else (if decide (x ∈ children n) then set_parent u else fun m => m) <$> t !! x.
Proof.
  unfold t'. destruct (decide (x = u)) as [->|Hu]; [by rewrite lookup_insert_eq|].
  rewrite lookup_insert_ne by done. destruct (decide (x = id)) as [->|Hid].
  - by rewrite lookup_insert_eq.
  - rewrite lookup_insert_ne by done. apply fixChildrenParent_lookup.
Qed.

Lemma split_lookup_id : t' !! id = Some (mkNode lower (parent n) [u]).
Proof.
  rewrite split_lookup, decide_False, decide_True; [done|done|].
  intros E. pose proof split_u_fresh as F. rewrite <- E in F. congruence.
Qed.

Lemma split_chain x m :
  chain_of t x m ->
  (x <> id -> chain_of t' x (via u id m)) /\
  (x = id -> chain_of t' id m /\ chain_of t' u (via u id m)).
Proof.
  assert (forall p m', chain_of t' id (id :: m') -> p = id -> id ∉ m' ->
    chain_of t' id (id :: m') /\ chain_of t' u (via u id (p :: m'))) as Hroot.
  { intros p m' H -> Hm'. split; [done|]. rewrite via_cons, decide_True, via_out by done.
    eapply (chain_step t' u); [by rewrite split_lookup, decide_True|done|done]. }
  induction 1 as [x q E Ep|x q p m E Ep Hp [IH1 IH2]].
  - split; [|intros ->; apply Hroot; [|done|apply not_elem_of_nil]].
    + intros Hx. rewrite via_cons, decide_False by done. cbn.
      apply (chain_root t' x q); [|done]. rewrite split_lookup, decide_False, decide_False, E; [|done|].
      * rewrite decide_False; [done|]. intros Hc%(tree_children t Hok id n x En).
        destruct Hc as (q' & E' & Ep'). congruence.
      * intros ->. by rewrite split_u_fresh in E.
    + simplify_eq. apply (chain_root t' id (mkNode lower (parent n) [u])); [apply split_lookup_id|done].
  - assert (NoDup (x :: m)) as [Hxm _]%NoDup_cons by (apply (chain_of_NoDup t x); by econstructor).
    split.
    + intros Hx. rewrite via_cons, decide_False by done. cbn [app].
      assert (x <> u) as Hxu by (intros ->; by rewrite split_u_fresh in E).
      destruct (decide (p = id)) as [->|Hpid].
      * eapply (chain_step t' x (set_parent u q) u); [|done|by apply IH2].
        rewrite split_lookup, !decide_False, E by done. rewrite decide_True; [done|].
        apply (tree_children t Hok id n x En). eauto.
      * eapply (chain_step t' x q p); [|done|by apply IH1].
        rewrite split_lookup, !decide_False, E by done. rewrite decide_False; [done|].
        intros Hc%(tree_children t Hok id n x En). destruct Hc as (q' & E' & Ep'). congruence.
    + intros ->. simplify_eq. apply Hroot; [|done|done].
      assert (p <> id) as Hpid.
      { intros ->. destruct (chain_of_head _ _ _ Hp) as (m' & -> & _). apply Hxm. by left. }
      eapply (chain_step t' id); [apply split_lookup_id|done|].
      rewrite <- (via_out u id m) by done. by apply IH1.
Qed.

Lemma split_cache : cache_ok (segment n :: segments t l).
Proof. rewrite <- (segments_cons t id n l En). by apply (tree_cache t Hok id). Qed.

Lemma split_segments_out m x : chain_of t x m -> id ∉ m -> segments t' m = segments t m.
Proof.
  intros Hm Hout. apply segments_ext. intros y Hy. rewrite split_lookup.
  destruct (decide (y = u)) as [->|].
  - destruct (chain_of_dom t x m Hm u Hy) as [q E]. by rewrite split_u_fresh in E.
  - rewrite decide_False by congruence. destruct (t !! y), (decide _); done.
Qed.

Lemma split_below_out : id ∉ l.
Proof. by apply chain_of_NoDup, NoDup_cons in Hl as [? _]. Qed.

Lemma split_segments_below : segments t' l = segments t l.
Proof.
  inversion Hl as [? ? E1 E2|? ? p k' E1 E2 Hp]; subst; [done|].
  apply (split_segments_out l p Hp split_below_out).
Qed.

Lemma split_segments_id : segments t' (id :: l) = lower :: segments t l.
Proof. by rewrite (segments_cons t' id _ l split_lookup_id), split_segments_below. Qed.

Lemma split_segments_u : segments t' (u :: id :: l) = upper :: lower :: segments t l.
Proof.
  rewrite (segments_cons t' u (mkNode upper (Some id) (children n))) by
    (by rewrite split_lookup, decide_True).
  by rewrite split_segments_id.
Qed.

Lemma split_segments_u_ok :
  cache_ok (segments t' (u :: id :: l)) /\
  same_chain (segment n :: segments t l) (segments t' (u :: id :: l)).
Proof.
  rewrite split_segments_u. split; [by apply split_ok, Hk; apply split_cache|].
  apply split_same_chain; [apply split_cache|done].
Qed.

Lemma segments_app m1 m2 : segments t' (m1 ++ m2) = segments t' m1 ++ segments t' m2.
Proof. apply omap_app. Qed.

(** The chain of any other segment has the same contents as before. *)
Lemma split_segments_other x m :
  chain_of t x m -> x <> id ->
  cache_ok (segments t' (via u id m)) /\ same_chain (segments t m) (segments t' (via u id m)).
Proof.
  intros Hm Hx. pose proof (tree_cache t Hok x m Hm) as Hc.
  destruct (decide (id ∈ m)) as [Hin|Hout].
  - apply list_elem_of_split in Hin as (pre & rest & ->).
    pose proof (chain_of_suffix t x _ id pre rest Hm eq_refl) as Hr.
    pose proof (chain_of_fun _ _ _ _ Hr Hl) as [= ->].
    pose proof (chain_of_NoDup _ _ _ Hm) as (_ & Hpre & _)%NoDup_app.
    assert (id ∉ pre) as Hpre' by (intros H; apply (Hpre id H); by left).
    destruct split_segments_u_ok as [Hok' Hsame].
    rewrite via_app, via_cons, decide_True, !via_out by (done || apply split_below_out).
    cbn [app]. rewrite segments_app.
    assert (segments t' pre = segments t pre) as ->.
    { apply segments_ext. intros y Hy. rewrite split_lookup, decide_False.
      - rewrite decide_False by congruence. destruct (t !! y), (decide _); done.
      - intros ->. destruct (chain_of_dom t x _ Hm u) as [q E]; [apply elem_of_app; by left|].
        by rewrite split_u_fresh in E. }
    assert (segments t (pre ++ id :: l) = segments t pre ++ segment n :: segments t l) as Es.
    { unfold segments. rewrite omap_app. f_equal. cbn. by rewrite En. }
    rewrite Es in *. split; [|by rewrite Hsame]. by eapply cache_ok_app_same.
  - by rewrite via_out, (split_segments_out m x).
Qed.

Lemma split_chain_inv x m :
  chain_of t' x m ->
  (x = u /\ m = u :: id :: l) \/ (x = id /\ m = id :: l) \/
  (x <> id /\ exists m0, chain_of t x m0 /\ m = via u id m0).
Proof.
  intros Hm. destruct (split_chain id (id :: l) Hl) as [_ Hid]. destruct (Hid eq_refl) as [H1 H2].
  rewrite via_cons, decide_True, via_out in H2 by (done || apply split_below_out). cbn [app] in H2.
  destruct (decide (x = u)) as [->|Hu]; [left; split; [done|by eapply chain_of_fun]|].
  destruct (decide (x = id)) as [->|Hx]; right; [left; split; [done|by eapply chain_of_fun]|right].
  split; [done|]. destruct (chain_of_head _ _ _ Hm) as (_ & _ & Hs).
  rewrite split_lookup, !decide_False, fmap_is_Some in Hs by done.
  destruct (tree_rooted t Hok x Hs) as [m0 Hm0]. exists m0. split; [done|].
  eapply chain_of_fun; [done|]. by apply (split_chain x m0 Hm0).
Qed.

(** Parents after the split. *)
Lemma split_parent p c :
  (exists m, t' !! c = Some m /\ parent m = Some p) <->
  (p = u /\ c ∈ children n) \/ (p = id /\ c = u) \/
  (p <> id /\ exists m, t !! c = Some m /\ parent m = Some p).
Proof.
  setoid_rewrite split_lookup. destruct (decide (c = u)) as [->|Hu].
  { split; [intros (m & [= <-] & [= ->]); by right; left|].
    intros [[-> Hc]|[[-> _]|(_ & m & E & _)]]; [|eauto|by rewrite split_u_fresh in E].
    apply (tree_children t Hok id n u En) in Hc as (m & E & _). by rewrite split_u_fresh in E. }
  destruct (decide (c = id)) as [->|Hid].
  { split.
    - intros (m & [= <-] & Ep). cbn in Ep. right. right. split; [|eauto]. intros ->.
      apply split_not_own_child. apply (tree_children t Hok id n id En). eauto.
    - intros [[_ Hc]|[[_ E]|(_ & m & E & Ep)]]; [by destruct split_not_own_child|done|].
      simplify_eq. eauto. }
  destruct (decide (c ∈ children n)) as [Hc|Hc].
  - pose proof Hc as (m0 & E0 & Ep0)%(tree_children t Hok id n c En). rewrite E0. split.
    + intros (m & [= <-] & [= ->]). by left.
    + intros [[-> _]|[[_ ?]|(Hp & m & [= <-] & Ep)]]; [eauto|done|]. congruence.
  - split.
    + intros (m & (m0 & E & ->)%fmap_Some & Ep). right. right. split; [|eauto]. intros ->. apply Hc.
      apply (tree_children t Hok id n c En). eauto.
    + intros [[_ ?]|[[_ ?]|(Hp & m & E & Ep)]]; [done..|]. rewrite E. eauto.
Qed.

Lemma split_tree_ok : tree_ok t'.
Proof.
  destruct (split_chain id (id :: l) Hl) as [_ Hid]. destruct (Hid eq_refl) as [H1 H2].
  split.
  - intros x Hx. rewrite split_lookup in Hx. destruct (decide (x = u)) as [->|Hu]; [eauto|].
    destruct (decide (x = id)) as [->|Hxid]; [eauto|]. rewrite fmap_is_Some in Hx.
    destruct (tree_rooted t Hok x Hx) as [m Hm]. eexists. by apply (split_chain x m Hm).
  - intros x m [[-> ->]|[[-> ->]|(Hx & m0 & Hm0 & ->)]]%split_chain_inv.
    + apply split_segments_u_ok.
    + rewrite split_segments_id. destruct split_segments_u_ok as [H _].
      rewrite split_segments_u in H. by destruct H.
    + by apply (split_segments_other x m0).
  - intros p m c Em. rewrite split_parent. rewrite split_lookup in Em.
    destruct (decide (p = u)) as [->|Hu].
    { injection Em as <-. cbn. split; [by left|]. intros [[_ ?]|[[E _]|(_ & m & E & Ep)]]; [done| |].
      - pose proof split_u_fresh as F. rewrite E in F. congruence.
      - destruct (tree_rooted t Hok c) as [k' Hc]; [eauto|].
        inversion Hc as [? ? E1 E2|? ? p' k'' E1 E2 Hp']; simplify_eq.
        destruct (chain_of_head _ _ _ Hp') as (_ & _ & m' & E'). by rewrite split_u_fresh in E'. }
    destruct (decide (p = id)) as [->|Hid'].
    { injection Em as <-. cbn. rewrite list_elem_of_singleton. split; [by right; left|].
      intros [[E _]|[[_ ?]|(? & _)]]; [|done|done].
      pose proof split_u_fresh as F. rewrite <- E in F. congruence. }
    apply fmap_Some in Em as (m0 & E & ->). rewrite <- (tree_children t Hok p m0 c E).
    assert (children ((if decide (p ∈ children n) then set_parent u else fun m => m) m0) = children m0)
      as -> by by destruct (decide _).
    split; [by right; right|]. by intros [[? _]|[[? _]|[_ ?]]].
Qed.
End SplitNode.
