(* ===== verification/Core.v ===== *)
(** * The core: adding blocks, choosing the main chain, keeping the pool

    [Core] of cryptonote_core/core.cpp: the tree of segments with its leaves,
    the raw blocks of the main chain, and the memory pool.  The first leaf is
    the main chain.  [addBlock] is the whole handler: the checks of a block
    against the chain below its predecessor, its insertion on a leaf, below a
    segment or after a split, and the switch to a heavier chain with what it
    does to pool and storage.

    Segments are those of [BlockchainCache]; the root segment of the daemon is
    in the database and implements the same interface.  Notifications to
    observers and logging are left out.  Curve operations and hash functions
    are arguments.  [None] is an exception or an invalid access after the
    state was changed. *)

From stdpp Require Import base gmap sets list sorting.
From S2P Require Import Prelude Config Bytes Types Mixins TxExtra Serialization Block Median Upgrade.
From S2P Require Import Checkpoints Currency Difficulty BlockchainCache CacheFacts CacheSteps.
From S2P Require Import Validation TransactionPool PoolCleaner ChainTree.
Import parameters.

Inductive AddBlockErrorCode :=
  | ADDED_TO_MAIN
  | ADDED_TO_ALTERNATIVE
  | ADDED_TO_ALTERNATIVE_AND_SWITCHED
  | ALREADY_EXISTS
  | REJECTED_AS_ORPHANED
  | DESERIALIZATION_FAILED.

(** The [std::error_code] of [addBlock]: of its own category or of validation. *)
Inductive AddBlockResult :=
  | AddBlockCode (c : AddBlockErrorCode)
  | Rejected (e : ErrorCode).

Record Core := mkCore {
  chainsStorage : Tree;
  chainsLeaves : list nat;
  mainChainSet : gset nat;
  mainChainStorage : list RawBlock;
  transactionPool : TransactionPoolCleanWrapper TransactionPool;
  blockMedianSize : Z }.

Definition set_pool (c : Core) (w : TransactionPoolCleanWrapper TransactionPool) : Core :=
  mkCore (chainsStorage c) (chainsLeaves c) (mainChainSet c) (mainChainStorage c) w (blockMedianSize c).

(** The chain of [chainsLeaves[0]]. *)
Definition main_chain (c : Core) : Cache :=
  match chainsLeaves c with leaf :: _ => path (chainsStorage c) leaf | [] => [] end.

(** ** Storage of the main chain *)

(** [switchMainChainStorage]: pop down to [splitBlockIndex], then push the
    blocks of the new chain from there on. *)
Definition switchMainChainStorage (splitBlockIndex : Z) (newChain : Cache) (storage : list RawBlock)
  : option (list RawBlock) :=
  let blocksToPop := u32 (u32 (Z.of_nat (length storage)) - splitBlockIndex) in
  if Z.of_nat (length storage) <? blocksToPop then None
  else
    top ← getTopBlockIndex newChain;
    blocks ← mapM (getBlockByIndex newChain) (seqZ splitBlockIndex (top + 1 - splitBlockIndex));
    Some (take (length storage - Z.to_nat blocksToPop) storage ++ blocks).

Definition getMaximumTransactionAllowedSize (currency : Currency) (blockSizeMedian : Z) : Z :=
  u64 (u64 (blockSizeMedian * 2) - m_minerTxBlobReservedSize currency).

Section Core.
Context (check_key : PublicKey -> bool).
Context (scalarmultKey : KeyImage -> KeyImage -> KeyImage).
Context (checkRingSignature : Hash -> KeyImage -> list PublicKey -> list Signature -> bool).
Context (cn_fast_hash : list Z -> list Z).
Context (cn_slow_hash_v0 cn_lite_slow_hash_v1 cn_turtle_lite_slow_hash_v2 : list Z -> list Z).
Context (genesisBlockHash : Hash).
Context (currency : Currency) (upgradeManager : UpgradeManager.t) (points : Points).

(** [time(nullptr)] during the call. *)
Context (now : Z).

#[local] Instance core_cache : IBlockchainCache Cache := segments_cache currency now.

(** ** The pool *)

Definition isTransactionValidForPool (c : Core) (tx : CachedTx)
  : option (bool * TransactionValidatorState) :=
  let t := ct_transaction tx in
  top ← getTopBlockIndex (main_chain c);
  if negb (validate_transactions [t] top) then Some (false, ∅)
  else if MAX_EXTRA_SIZE_POOL <=? Z.of_nat (length (extra (prefix t))) then Some (false, ∅)
  else
    match validateTransaction check_key scalarmultKey checkRingSignature cn_fast_hash points
            (main_chain c) t ∅ top with
    | (inl _, validatorState) => Some (false, validatorState)
    | (inr fee, validatorState) =>
        let size := Z.of_nat (length (ct_binaryArray tx)) in
        if getMaximumTransactionAllowedSize currency (blockMedianSize c) <? size
        then Some (false, validatorState)
        else
          let isFusion := (fee =? 0) && isFusionTransaction_tx currency t size top in
          if negb isFusion && (fee <? m_mininumFee currency) then Some (false, validatorState)
          else Some (true, validatorState)
    end.

(** [addTransactionToPool(CachedTransaction)]. *)
Definition addTransactionToPool (c : Core) (tx : CachedTx) : option (bool * Core) :=
  if checkIfTransactionPresent (PoolCleaner.transactionPool (transactionPool c)) (ct_hash tx)
  then Some (false, c)
  else
    '(valid, validatorState) ← isTransactionValidForPool c tx;
    if negb valid then Some (false, c)
    else
      let '(pushed, w) := PoolCleaner.pushTransaction now tx validatorState (transactionPool c) in
      Some (pushed, set_pool c w).

(** A [CachedTransaction] made from a transaction: its blob is the one written. *)
Definition cached_transaction (t : Transaction) : option CachedTx :=
  ba ← write_transaction t; Some (mkCachedTx t (Block.getTransactionHash cn_fast_hash ba) ba).

(** [addTransactionToPool(BinaryArray)]. *)
Definition addTransactionToPool_binary (c : Core) (transactionBinaryArray : list Z)
  : option (bool * Core) :=
  match fromBinaryArray read_transaction transactionBinaryArray with
  | None => Some (false, c)
  | Some t => tx ← cached_transaction t; addTransactionToPool c tx
  end.

(** Removing the transactions of a block from the pool. *)
Definition remove_transactions (c : Core) (txs : list CachedTx) : Core :=
  set_pool c (fold_left (fun w tx => (PoolCleaner.removeTransaction w (ct_hash tx)).2) txs
                (transactionPool c)).

(** [actualizePoolTransactions]: every transaction is taken out and offered
    again. *)
Fixpoint actualize_loop (c : Core) (hashes : list Hash) : option Core :=
  match hashes with
  | [] => Some c
  | hash :: rest =>
      tx ← getTransaction (PoolCleaner.transactionPool (transactionPool c)) hash;
      let c := set_pool c (PoolCleaner.removeTransaction (transactionPool c) hash).2 in
      '(_, c) ← addTransactionToPool c tx;
      actualize_loop c rest
  end.

Definition actualizePoolTransactions (c : Core) : option Core :=
  actualize_loop c (getTransactionHashes (PoolCleaner.transactionPool (transactionPool c))).

(** [actualizePoolTransactionsLite]: what the block spent or has no room for
    goes. *)
Fixpoint actualize_lite_loop (validatorState : TransactionValidatorState) (c : Core)
    (hashes : list Hash) : option Core :=
  match hashes with
  | [] => Some c
  | hash :: rest =>
      tx ← getTransaction (PoolCleaner.transactionPool (transactionPool c)) hash;
      let txState := extractSpentOutputs (ct_transaction tx) in
      if hasIntersections validatorState txState ||
         (getMaximumTransactionAllowedSize currency (blockMedianSize c) <?
          Z.of_nat (length (ct_binaryArray tx)))
      then actualize_lite_loop validatorState
             (set_pool c (PoolCleaner.removeTransaction (transactionPool c) hash).2) rest
      else actualize_lite_loop validatorState c rest
  end.

Definition actualizePoolTransactionsLite (validatorState : TransactionValidatorState) (c : Core)
  : option Core :=
  actualize_lite_loop validatorState c
    (getTransactionHashes (PoolCleaner.transactionPool (transactionPool c))).

Fixpoint add_all_to_pool (c : Core) (transactions : list (list Z)) : option Core :=
  match transactions with
  | [] => Some c
  | t :: rest => '(_, c) ← addTransactionToPool_binary c t; add_all_to_pool c rest
  end.

(** [copyTransactionsToPool] over the chain of [alt], given as its pointers. *)
Fixpoint copy_loop (c : Core) (ids : list nat) : option Core :=
  match ids with
  | [] => Some c
  | id :: rest =>
      if bool_decide (id ∈ mainChainSet c) then Some c
      else
        n ← chainsStorage c !! id;
        '(transactions, _) ←
           getRawTransactions (path (chainsStorage c) id) (BlockchainCache.getTransactionHashes (segment n));
        c ← add_all_to_pool c transactions;
        copy_loop c rest
  end.

Definition copyTransactionsToPool (c : Core) (alt : nat) : option Core :=
  copy_loop c (chain_ids (chainsStorage c) alt).

(** [updateBlockMedianSize]. *)
Definition updateBlockMedianSize (c : Core) : option Core :=
  top ← getTopBlockIndex (main_chain c);
  let nextBlockGrantedFullRewardZone := blockGrantedFullRewardZoneByBlockVersion currency
    (UpgradeManager.getBlockMajorVersion upgradeManager (u32 (top + 1))) in
  lastBlockSizes ← getLastBlocksSizes (main_chain c) (m_rewardBlocksWindow currency) top false;
  Some (mkCore (chainsStorage c) (chainsLeaves c) (mainChainSet c) (mainChainStorage c)
          (transactionPool c) (Z.max (medianValue lastBlockSizes) nextBlockGrantedFullRewardZone)).

(** ** The checks of [addBlock] *)

(** [extractTransactions]: the transactions and [cumulativeSize]. *)
Fixpoint extractTransactions (rawTransactions : list (list Z)) (cumulativeSize : Z)
  : option (list CachedTx * Z) :=
  match rawTransactions with
  | [] => Some ([], cumulativeSize)
  | raw :: rest =>
      if m_maxTxSize currency <? Z.of_nat (length raw) then None
      else
        t ← CachedTransaction raw;
        '(txs, size) ← extractTransactions rest (u64 (cumulativeSize + Z.of_nat (length raw)));
        Some (mkCachedTx t (Block.getTransactionHash cn_fast_hash raw) raw :: txs, size)
  end.

Definition getObjectBinarySize (t : Transaction) : Z :=
  match write_transaction t with Some ba => Z.of_nat (length ba) | None => UINT64_MAX end.

(** The comparison of the transactions that came with a block with the hashes
    in it, from [BLOCK_BLOB_SHUFFLE_CHECK_HEIGHT] on. *)
Definition check_transaction_hashes (b : BlockTemplate) (transactions : list CachedTx)
  : option BlockValidationError :=
  let hashes := ct_hash <$> transactions in
  if bool_decide (BLOCK_BLOB_SHUFFLE_CHECK_HEIGHT <= Block.getBlockIndex b) then
    if negb (bool_decide (NoDup (transactionHashes b))) then Some TRANSACTION_DUPLICATES
    else if negb (bool_decide (NoDup hashes)) then Some TRANSACTION_DUPLICATES
    else if negb (forallb (fun h => bool_decide (h ∈ transactionHashes b)) hashes)
    then Some TRANSACTION_INCONSISTENCY
    else if negb (bool_decide (transactionHashes b = hashes)) then Some TRANSACTION_INCONSISTENCY
    else None
  else None.

(** The ring sizes, with the rules of the height or of one unlock window
    before. *)
Definition check_mixins (b : BlockTemplate) (transactions : list CachedTx) : bool :=
  let blockIndex := Block.getBlockIndex b in
  let mixinChangeWindow :=
    if CRYPTONOTE_MINED_MONEY_UNLOCK_WINDOW <? blockIndex
    then blockIndex - CRYPTONOTE_MINED_MONEY_UNLOCK_WINDOW else blockIndex in
  validate_transactions (ct_transaction <$> transactions) blockIndex ||
  validate_transactions (ct_transaction <$> transactions) mixinChangeWindow.

(** Checkpoint or proof of work. *)
Definition check_work (b : CachedBlock) (currentDifficulty : Z) : option ErrorCode :=
  let blockIndex := Block.getBlockIndex (cb_block b) in
  if isInCheckpointZone points blockIndex
  then if (checkBlock points blockIndex (cb_hash b)).1 then None
       else Some (BlockError CHECKPOINT_BLOCK_HASH_MISMATCH)
  else
    match checkProofOfWork cn_fast_hash cn_slow_hash_v0 cn_lite_slow_hash_v1
            cn_turtle_lite_slow_hash_v2 genesisBlockHash (cb_block b) currentDifficulty with
    | None => Some Exception
    | Some true => None
    | Some false => Some (BlockError PROOF_OF_WORK_TOO_WEAK)
    end.

(** What the checks leave for the insertion. *)
Record CheckedBlock := mkCheckedBlock {
  ck_previousBlockIndex : Z;
  ck_transactions : list CachedTx;
  ck_validatorState : TransactionValidatorState;
  ck_cumulativeBlockSize : Z;
  ck_emissionChange : Z;
  ck_currentDifficulty : Z }.

(** The checks from the reward on. *)
Definition check_reward (cache : Cache) (b : CachedBlock) (previousBlockIndex : Z)
    (transactions : list CachedTx) (cumulativeBlockSize minerReward currentDifficulty
    cumulativeFee : Z) (validatorState : TransactionValidatorState) : ErrorCode + CheckedBlock :=
  match getAlreadyGeneratedCoins cache previousBlockIndex,
        getLastBlocksSizes cache (m_rewardBlocksWindow currency) previousBlockIndex true with
  | Some alreadyGeneratedCoins, Some lastBlocksSizes =>
      match getBlockReward currency (majorVersion (header (cb_block b))) (medianValue lastBlocksSizes)
              cumulativeBlockSize alreadyGeneratedCoins cumulativeFee with
      | None => inl (BlockError CUMULATIVE_BLOCK_SIZE_TOO_BIG)
      | Some (reward, emissionChange) =>
          if negb (minerReward =? reward) then inl (BlockError BLOCK_REWARD_MISMATCH)
          else
            match check_work b currentDifficulty with
            | Some e => inl e
            | None => inr (mkCheckedBlock previousBlockIndex transactions validatorState
                             cumulativeBlockSize emissionChange currentDifficulty)
            end
      end
  | _, _ => inl Exception
  end.

(** The checks of a block against the chain [cache] that contains its
    predecessor. *)
Definition check_block (cache : Cache) (b : CachedBlock) (raw : RawBlock)
  : AddBlockResult + CheckedBlock :=
  match extractTransactions (Types.transactions raw) 0 with
  | None => inl (AddBlockCode DESERIALIZATION_FAILED)
  | Some (transactions, cumulativeSize) =>
      let coinbaseTransactionSize := getObjectBinarySize (baseTransaction (cb_block b)) in
      let cumulativeBlockSize := u64 (coinbaseTransactionSize + cumulativeSize) in
      match ic_getBlockIndex cache (previousBlockHash (header (cb_block b))) with
      | None => inl (Rejected Exception)
      | Some previousBlockIndex =>
          if maxBlockCumulativeSize currency (u32 (previousBlockIndex + 1)) <? cumulativeBlockSize
          then inl (Rejected (BlockError CUMULATIVE_BLOCK_SIZE_TOO_BIG))
          else
            match validateBlock check_key cn_fast_hash currency upgradeManager cache (cb_block b) now with
            | inl e => inl (Rejected e)
            | inr minerReward =>
                match getDifficultyForNextBlock currency cache previousBlockIndex with
                | None => inl (Rejected Exception)
                | Some currentDifficulty =>
                    if currentDifficulty =? 0 then inl (Rejected (BlockError DIFFICULTY_OVERHEAD))
                    else
                      match check_transaction_hashes (cb_block b) transactions with
                      | Some e => inl (Rejected (BlockError e))
                      | None =>
                          if negb (check_mixins (cb_block b) transactions)
                          then inl (Rejected (TransactionError INVALID_MIXIN))
                          else
                            match validateTransactions check_key scalarmultKey checkRingSignature
                                    cn_fast_hash points cache (ct_transaction <$> transactions) ∅
                                    previousBlockIndex 0 with
                            | inl e => inl (Rejected (TransactionError e))
                            | inr (cumulativeFee, validatorState) =>
                                match check_reward cache b previousBlockIndex transactions
                                        cumulativeBlockSize minerReward currentDifficulty
                                        cumulativeFee validatorState with
                                | inl e => inl (Rejected e)
                                | inr k => inr k
                                end
                            end
                      end
                end
            end
      end
  end.

(** ** The insertion *)

(** [pushBlock] on the segment [id] of the tree. *)
Definition push_on (t : Tree) (id : nat) (b : CachedBlock) (k : CheckedBlock) (raw : RawBlock)
  : option Tree :=
  n ← t !! id;
  let parents := match parent n with Some p => path t p | None => [] end in
  s ← doPushBlock parents (segment n) b (ck_transactions k) (ck_validatorState k)
        (ck_cumulativeBlockSize k) (ck_emissionChange k) (ck_currentDifficulty k) raw;
  Some (alter (set_segment s) id t).

(** A new segment below [id] that holds the block. *)
Definition fork (c : Core) (t : Tree) (leaves : list nat) (id : nat) (b : CachedBlock)
    (k : CheckedBlock) (raw : RawBlock) : option Core :=
  let '(t, new) := attach t id (empty_segment (u32 (ck_previousBlockIndex k + 1))) in
  t ← push_on t new b k raw;
  let leaves := leaves ++ [new] in
  leaf ← head leaves;
  Some (mkCore t leaves (updateMainChainSet t leaf) (mainChainStorage c) (transactionPool c)
          (blockMedianSize c)).

(** The block on top of the main chain. *)
Definition add_to_main (c : Core) (id : nat) (b : CachedBlock) (k : CheckedBlock) (raw : RawBlock)
  : option (AddBlockErrorCode * Core) :=
  t ← push_on (chainsStorage c) id b k raw;
  c ← updateBlockMedianSize (mkCore t (chainsLeaves c) (mainChainSet c)
        (mainChainStorage c ++ [raw]) (transactionPool c) (blockMedianSize c));
  c ← actualizePoolTransactionsLite (ck_validatorState k) (remove_transactions c (ck_transactions k));
  Some (ADDED_TO_MAIN, c).

(** [std::swap(chainsLeaves[0], chainsLeaves[endpointIndex])]. *)
Definition swap_leaves (leaves : list nat) (endpointIndex : nat) : option (list nat) :=
  first ← head leaves;
  other ← leaves !! endpointIndex;
  Some (<[endpointIndex := first]> (<[0%nat := other]> leaves)).

(** The switch to the chain of [cache], which became the heavier one. *)
Definition switch_chain (c : Core) (cache : nat) (transactions : list CachedTx) : option Core :=
  '(endpointIndex, _) ← list_find (fun x => x = cache) (chainsLeaves c);
  old ← head (chainsLeaves c);
  leaves ← swap_leaves (chainsLeaves c) endpointIndex;
  c ← updateBlockMedianSize (mkCore (chainsStorage c) leaves (updateMainChainSet (chainsStorage c) cache)
        (mainChainStorage c) (transactionPool c) (blockMedianSize c));
  c ← actualizePoolTransactions (remove_transactions c transactions);
  c ← copyTransactionsToPool c old;
  n ← chainsStorage c !! cache;
  storage ← switchMainChainStorage (startIndex (segment n)) (path (chainsStorage c) cache)
              (mainChainStorage c);
  Some (mkCore (chainsStorage c) (chainsLeaves c) (mainChainSet c) storage (transactionPool c)
          (blockMedianSize c)).

(** The block on top of an alternative chain. *)
Definition add_to_alternative (c : Core) (id : nat) (b : CachedBlock) (k : CheckedBlock)
    (raw : RawBlock) : option (AddBlockErrorCode * Core) :=
  t ← push_on (chainsStorage c) id b k raw;
  main ← head (chainsLeaves c) ≫= (t !!.);
  n ← t !! id;
  difficulty ← topCumulativeDifficulty (segment n);
  mainDifficulty ← topCumulativeDifficulty (segment main);
  let c := mkCore t (chainsLeaves c) (mainChainSet c) (mainChainStorage c) (transactionPool c)
             (blockMedianSize c) in
  if mainDifficulty <? difficulty
  then c ← switch_chain c id (ck_transactions k); Some (ADDED_TO_ALTERNATIVE_AND_SWITCHED, c)
  else Some (ADDED_TO_ALTERNATIVE, c).

(** The block in the middle of a segment, which is split. *)
Definition add_after_split (c : Core) (id : nat) (b : CachedBlock) (k : CheckedBlock) (raw : RawBlock)
  : option (AddBlockErrorCode * Core) :=
  '(t, upper) ← split_node (chainsStorage c) id (u32 (ck_previousBlockIndex k + 1));
  n ← t !! upper;
  let leaves := match children n with
                | [] => (fun x => if decide (x = id) then upper else x) <$> chainsLeaves c
                | _ => chainsLeaves c
                end in
  c ← fork c t leaves id b k raw;
  Some (ADDED_TO_ALTERNATIVE, c).

(** What happens with a block that passed the checks; [id] is the segment of
    its predecessor. *)
Definition insert_block (c : Core) (id : nat) (b : CachedBlock) (k : CheckedBlock) (raw : RawBlock)
  : option (AddBlockErrorCode * Core) :=
  n ← chainsStorage c !! id;
  if segment_top (segment n) =? ck_previousBlockIndex k then
    match children n with
    | [] =>
        if bool_decide (head (chainsLeaves c) = Some id) then add_to_main c id b k raw
        else add_to_alternative c id b k raw
    | _ =>
        c ← fork c (chainsStorage c) (chainsLeaves c) id b k raw;
        c ← updateBlockMedianSize c;
        Some (ADDED_TO_ALTERNATIVE, c)
    end
  else add_after_split c id b k raw.

Definition hasBlock (c : Core) (blockHash : Hash) : bool :=
  bool_decide (is_Some (findSegmentContainingBlock (chainsStorage c) (chainsLeaves c) blockHash)).

(** [addBlock(CachedBlock, RawBlock)]. *)
Definition addBlock (c : Core) (b : CachedBlock) (raw : RawBlock) : option (AddBlockResult * Core) :=
  if hasBlock c (cb_hash b) then Some (AddBlockCode ALREADY_EXISTS, c)
  else
    match findSegmentContainingBlock (chainsStorage c) (chainsLeaves c)
            (previousBlockHash (header (cb_block b))) with
    | None => Some (AddBlockCode REJECTED_AS_ORPHANED, c)
    | Some id =>
        match check_block (path (chainsStorage c) id) b raw with
        | inl e => Some (e, c)
        | inr k => '(code, c) ← insert_block c id b k raw; Some (AddBlockCode code, c)
        end
    end.

(** A [CachedBlock] made from a block. *)
Definition cached_block (b : BlockTemplate) : option CachedBlock :=
  hash ← Block.getBlockHash cn_fast_hash b;
  base ← cached_transaction (baseTransaction b);
  Some (mkCachedBlock b hash (ct_hash base)).

(** [addBlock(RawBlock)]. *)
Definition addBlock_raw (c : Core) (raw : RawBlock) : option (AddBlockResult * Core) :=
  match fromBinaryArray read_block (block raw) with
  | None => Some (AddBlockCode DESERIALIZATION_FAILED, c)
  | Some b =>
      match cached_block b with
      | None => Some (Rejected Exception, c)
      | Some cb => addBlock c cb raw
      end
  end.

(** [submitBlock]: the transactions come from the pool. *)
Definition submitBlock (c : Core) (rawBlockTemplate : list Z) : option (AddBlockResult * Core) :=
  match fromBinaryArray read_block rawBlockTemplate with
  | None => Some (AddBlockCode DESERIALIZATION_FAILED, c)
  | Some b =>
      match mapM (getTransaction (PoolCleaner.transactionPool (transactionPool c)))
              (transactionHashes b) with
      | None => Some (Rejected (BlockError TRANSACTION_ABSENT_IN_POOL), c)
      | Some txs =>
          match cached_block b with
          | None => Some (Rejected Exception, c)
          | Some cb => addBlock c cb (mkRawBlock rawBlockTemplate (ct_binaryArray <$> txs))
          end
      end
  end.
End Core.

(** One round of [transactionPoolCleaningProcedure]: the hashes it deletes and
    the state after. *)
Definition clean_pool {json} (json_parse : list Z -> option json) (json_t : json -> option Z)
    (currentTime : Z) (c : Core) : option (list Hash * Core) :=
  top ← getTopBlockIndex (main_chain c);
  '(deletedTransactions, w) ← clean json_parse json_t currentTime top (transactionPool c);
  Some (deletedTransactions, set_pool c w).
