(* ===== verification/CoreFacts.v ===== *)
(** * The core: the forest of chains

    Facts behind the theorems on [addBlock]: the leaves of the tree through its
    three changes, the cumulative difficulty along a chain, and the main chain
    as the heaviest. *)

From stdpp Require Import base gmap sets list sorting.
From S2P Require Import Prelude Config Bytes Types Mixins TxExtra Serialization Block Median Upgrade.
From S2P Require Import Checkpoints Currency Difficulty BlockchainCache CacheFacts CacheSteps.
From S2P Require Import Validation TransactionPool PoolCleaner ChainTree Core.
Import parameters.

(** ** The leaves *)

(** The leaves are the segments without children, each once. *)
Record forest_ok (t : Tree) (leaves : list nat) : Prop := {
  forest_tree : tree_ok t;
  forest_nodup : NoDup leaves;
  forest_leaf id : id ∈ leaves <-> exists n, t !! id = Some n /\ children n = [];
  forest_main : leaves <> [] }.

Lemma forest_chain t leaves id : forest_ok t leaves -> id ∈ leaves -> exists l, chain_of t id l.
Proof.
  intros H Hid. apply (forest_leaf _ _ H) in Hid as (n & E & _).
  apply (tree_rooted t (forest_tree _ _ H)). eauto.
Qed.

Lemma forest_path_ok t leaves id : forest_ok t leaves -> is_Some (t !! id) -> cache_ok (path t id).
Proof.
  intros H Hid. destruct (tree_rooted t (forest_tree _ _ H) id Hid) as [l Hl].
  rewrite (tree_path t id l Hl). by apply (tree_cache t (forest_tree _ _ H) id).
Qed.

(** A segment and the path of its parent. *)
Definition parent_path (t : Tree) (n : Node) : Cache :=
  match parent n with Some p => path t p | None => [] end.

Lemma path_cons t leaves id n :
  forest_ok t leaves -> t !! id = Some n -> path t id = segment n :: parent_path t n.
Proof.
  intros H E. destruct (tree_rooted t (forest_tree _ _ H) id) as [l Hl]; [eauto|].
  rewrite (tree_path t id l Hl). unfold parent_path. destruct Hl as [id n' E' Ep|id n' p l E' Ep Hl];
    rewrite (segments_cons t id n) by done; simplify_eq; rewrite Ep; [done|].
  by rewrite (tree_path t p l Hl).
Qed.

Lemma chain_of_cons t leaves id n :
  forest_ok t leaves -> t !! id = Some n ->
  exists l, chain_of t id (id :: l) /\ segments t l = parent_path t n.
Proof.
  intros H E. destruct (tree_rooted t (forest_tree _ _ H) id) as [k Hk]; [eauto|].
  destruct (chain_of_head t id k Hk) as (l & -> & _). exists l. split; [done|].
  pose proof (path_cons t leaves id n H E) as Hp. rewrite (tree_path t id _ Hk) in Hp.
  rewrite (segments_cons t id n) in Hp by done. by injection Hp.
Qed.

(** *** A block on a leaf *)

Lemma forest_push t leaves id n s' :
  forest_ok t leaves -> t !! id = Some n -> children n = [] -> cache_ok (s' :: parent_path t n) ->
  let t' := alter (set_segment s') id t in
  forest_ok t' leaves /\ path t' id = s' :: parent_path t n /\
  (forall x, x <> id -> is_Some (t !! x) -> path t' x = path t x) /\
  (forall x, chain_ids t' x = chain_ids t x \/ t !! x = None).
Proof.
  intros H E Hc Hs'. pose proof (forest_tree _ _ H) as Ht.
  destruct (chain_of_cons t leaves id n H E) as (l & Hl & El). rewrite <- El in *. cbv zeta.
  split; [|split; [|split]].
  - split; [by eapply push_tree_ok|by apply (forest_nodup t)| |by apply (forest_main t)].
    intros x. rewrite (forest_leaf _ _ H). setoid_rewrite push_lookup. split.
    + intros (m & Em & Hm). rewrite Em. eexists. split; [done|]. by destruct (decide _).
    + intros (m & (m0 & Em & ->)%fmap_Some & Hm). exists m0. split; [done|]. by destruct (decide _).
  - rewrite (tree_path _ id (id :: l)) by (by apply push_chain). by eapply push_segments_leaf.
  - intros x Hx Hs. destruct (tree_rooted t Ht x Hs) as [k Hk].
    rewrite (tree_path t x k Hk), (tree_path _ x k) by (by apply push_chain).
    by eapply push_segments_other.
  - intros x. destruct (t !! x) as [m|] eqn:Ex; [left|by right].
    destruct (tree_rooted t Ht x) as [k Hk]; [eauto|].
    rewrite (chain_ids_of t x k Hk). apply chain_ids_of. by apply push_chain.
Qed.

(** *** A new segment *)

Lemma forest_attach t leaves id n s :
  forest_ok t leaves -> t !! id = Some n -> children n <> [] -> cache_ok (s :: path t id) ->
  let '(t', new) := attach t id s in
  forest_ok t' (leaves ++ [new]) /\ path t' new = s :: path t id /\ t !! new = None /\
  (forall x, is_Some (t !! x) -> path t' x = path t x).
Proof.
  intros H E Hc Hs. pose proof (forest_tree _ _ H) as Ht.
  destruct (tree_rooted t Ht id) as [l Hl]; [eauto|]. rewrite (tree_path t id l Hl) in Hs |- *.
  destruct (attach t id s) as [t' new] eqn:Ea.
  assert (new = new_id t) as -> by (by injection Ea).
  assert (t' = (attach t id s).1) as -> by (by rewrite Ea).
  split; [|split; [|split; [apply new_id_fresh|]]].
  - split; [by eapply attach_tree_ok| | |intros Hn; by apply app_eq_nil in Hn as [_ ?]].
    + apply NoDup_app. split; [by apply (forest_nodup t)|]. split; [|apply NoDup_singleton].
      intros x Hx ->%list_elem_of_singleton. apply (forest_leaf _ _ H) in Hx as (m & Em & _).
      by rewrite new_id_fresh in Em.
    + intros x. rewrite elem_of_app, list_elem_of_singleton, (forest_leaf _ _ H).
      setoid_rewrite attach_lookup. destruct (decide (x = new_id t)) as [->|Hx].
      * split; [eauto|by right].
      * split.
        -- intros [(m & Em & Hm)|?]; [|done]. rewrite Em. destruct (decide (x = id)) as [->|]; [congruence|].
           eauto.
        -- intros (m & (m0 & Em & ->)%fmap_Some & Hm). left. exists m0. split; [done|].
           destruct (decide (x = id)); [|done]. cbn in Hm. by apply app_eq_nil in Hm as [_ ?].
  - rewrite (tree_path _ _ _ (attach_chain_new t id l s Hl)). by eapply attach_segments_new.
  - intros x Hx. destruct (tree_rooted t Ht x Hx) as [k Hk].
    rewrite (tree_path t x k Hk), (tree_path _ x k) by (by apply attach_chain_old).
    by eapply attach_segments_old.
Qed.

(** *** A split *)

Definition renamed (id u x : nat) : nat := if decide (x = id) then u else x.

(** The leaves after a split, from the lookups in the new tree. *)
Lemma split_leaves t leaves t' id u n lower upper :
  forest_ok t leaves -> t !! id = Some n -> t !! u = None -> tree_ok t' ->
  (forall x, t' !! x = if decide (x = u) then Some (mkNode upper (Some id) (children n))
     else if decide (x = id) then Some (mkNode lower (parent n) [u])
     else (if decide (x ∈ children n) then set_parent u else fun m => m) <$> t !! x) ->
  forest_ok t' (match children n with [] => renamed id u <$> leaves | _ => leaves end).
Proof.
  intros H E Hu Ht' Hlook. pose proof (forest_leaf _ _ H) as Hleaf.
  assert (u ∉ leaves) as Hul by (intros (m & Em & _)%Hleaf; congruence).
  assert (forall x, x <> u -> x <> id ->
    (exists m, t' !! x = Some m /\ children m = []) <-> x ∈ leaves) as Hother.
  { intros x Hx Hx'. rewrite Hleaf, Hlook, !decide_False by done. split.
    - intros (m & (m0 & Em & ->)%fmap_Some & Hm). exists m0. split; [done|]. by destruct (decide _).
    - intros (m & Em & Hm). rewrite Em. eexists. split; [done|]. by destruct (decide _). }
  assert (id <> u) as Hne by congruence.
  assert (~ (exists m, t' !! id = Some m /\ children m = [])) as Hid.
  { rewrite Hlook, decide_False, decide_True by done. by intros (m & [= <-] & ?). }
  assert ((exists m, t' !! u = Some m /\ children m = []) <-> children n = []) as Hnew.
  { rewrite Hlook, decide_True by done. split; [by intros (m & [= <-] & ?)|eauto]. }
  destruct (children n) as [|c cs] eqn:Ec.
  - assert (id ∈ leaves) as Hidl by (apply Hleaf; eauto).
    split; [done| | |intros Hn; apply fmap_nil_inv in Hn; by apply (forest_main t leaves H)].
    + apply NoDup_fmap_2_strong; [|apply (forest_nodup t leaves H)]. intros x y Hx Hy. unfold renamed.
      destruct (decide (x = id)), (decide (y = id)); congruence.
    + intros x. rewrite list_elem_of_fmap. unfold renamed. split.
      * intros (y & -> & Hy). destruct (decide (y = id)); [by apply Hnew|].
        apply Hother; congruence.
      * intros Hx. destruct (decide (x = u)) as [->|Hxu]; [exists id; by rewrite decide_True|].
        destruct (decide (x = id)) as [->|Hxid]; [done|].
        exists x. rewrite decide_False by done. split; [done|]. by apply Hother.
  - split; [done|apply (forest_nodup t leaves H)| |apply (forest_main t leaves H)].
    intros x. destruct (decide (x = u)) as [->|Hxu]; [split; [done|]; intros Hx; by apply Hnew in Hx|].
    destruct (decide (x = id)) as [->|Hxid]; [|by rewrite Hother].
    split; [|done]. intros (m & Em & Hm)%Hleaf. congruence.
Qed.

Lemma forest_split t leaves id n k :
  forest_ok t leaves -> t !! id = Some n ->
  startIndex (segment n) < k < startIndex (segment n) + Z.of_nat (length (blockInfos (segment n))) ->
  exists t' u, split_node t id k = Some (t', u) /\ t !! u = None /\
    t' !! u = Some (mkNode (split (segment n) k).2 (Some id) (children n)) /\
    forest_ok t' (match children n with [] => renamed id u <$> leaves | _ => leaves end) /\
    (exists m, t' !! id = Some m /\ children m = [u]) /\
    path t' id = (split (segment n) k).1 :: parent_path t n /\
    (forall x, x ∈ leaves -> same_chain (path t x) (path t' (renamed id u x))).
Proof.
  intros H E Hk. pose proof (forest_tree _ _ H) as Ht.
  destruct (chain_of_cons t leaves id n H E) as (l & Hl & El).
  pose proof (split_node_eq t id n k E) as Es. pose proof (split_tree_ok t id n l k Ht E Hl Hk) as Ht'.
  pose proof (split_lookup t id n k) as Hlook. pose proof (split_lookup_id t id n k E) as Hid.
  pose proof (split_chain t id n k Ht E) as Hch.
  pose proof (split_segments_id t id n l k E Hl) as Hsid.
  pose proof (split_segments_u_ok t id n l k Ht E Hl Hk) as [_ Hsu].
  pose proof (split_segments_other t id n l k Ht E Hl Hk) as Hso.
  pose proof (split_below_out t id l Hl) as Hout.
  set (u := new_id t) in *. set (t' := <[u := _]> _) in *.
  assert (t !! u = None) as Hu by apply new_id_fresh.
  destruct (Hch id (id :: l) Hl) as [_ Hch']. destruct (Hch' eq_refl) as [Hcid Hcu]. clear Hch'.
  rewrite via_cons, decide_True, via_out in Hcu by done. cbn [app] in Hcu.
  exists t', u. split; [done|]. split; [done|]. split; [by rewrite Hlook, decide_True|].
  split; [|split; [eauto|split]].
  - by eapply split_leaves.
  - by rewrite (tree_path t' id _ Hcid), Hsid, El.
  - intros x Hx. destruct (forest_chain t leaves x H Hx) as [m Hm]. rewrite (tree_path t x m Hm).
    unfold renamed. destruct (decide (x = id)) as [->|Hne].
    + rewrite (tree_path t' u _ Hcu). pose proof (chain_of_fun _ _ _ _ Hm Hl) as ->.
      by rewrite (segments_cons t id n l E).
    + rewrite (tree_path t' x (via u id m)) by (by apply Hch). by apply (Hso x m).
Qed.

(** ** Cumulative difficulty *)

Section Work.
Context (currency : Currency).

(** The difficulty of the block after [blocks], from the blocks alone. *)
Definition flat_difficulty (blocks : list CachedBlockInfo) : option Z :=
  let i := Z.of_nat (length blocks) - 1 in
  let version := getBlockMajorVersionForHeight currency (u32 (i + 1)) in
  let window := last_blocks blocks (difficultyBlocksCountByBlockVersion currency version i) i false in
  getNextDifficulty currency version i (map bi_timestamp window) (map bi_cumulativeDifficulty window).

Lemma last_blocks_of_prefix l count i u :
  0 <= i -> last_blocks (take (Z.to_nat (i + 1)) l) count i u = last_blocks l count i u.
Proof. intros Hi. unfold last_blocks. by rewrite take_take, Nat.min_id. Qed.

Lemma difficultyBlocksCount_nonneg version i :
  0 <= difficultyBlocksCountByBlockVersion currency version i.
Proof.
  unfold difficultyBlocksCountByBlockVersion. destruct (_ <=? _); [done|].
  by apply (fits_wrap 64).
Qed.

Lemma difficulty_chain c i :
  cache_ok c -> 0 <= i < height c ->
  getDifficultyForNextBlock currency c i =
    flat_difficulty (take (Z.to_nat (i + 1)) (chain_blocks c)).
Proof.
  intros Hok Hi. pose proof (difficultyBlocksCount_nonneg
    (getBlockMajorVersionForHeight currency (u32 (i + 1))) i) as Hn.
  unfold getDifficultyForNextBlock, getLastTimestamps, getLastCumulativeDifficulties.
  rewrite !getLastUnits_chain by done. cbn [mbind option_bind].
  unfold flat_difficulty. rewrite length_take, Nat.min_l by (unfold height in Hi; lia).
  replace (Z.of_nat (Z.to_nat (i + 1)) - 1) with i by lia.
  by rewrite last_blocks_of_prefix by lia.
Qed.

(** Every block adds the difficulty that was due at its place. *)
Definition work_ok (blocks : list CachedBlockInfo) : Prop :=
  forall i b b', blocks !! i = Some b -> blocks !! S i = Some b' ->
    exists d, flat_difficulty (take (S i) blocks) = Some d /\ 0 <= d /\
      bi_cumulativeDifficulty b' = bi_cumulativeDifficulty b + d.

Definition chain_work (blocks : list CachedBlockInfo) : Z :=
  match last blocks with Some b => bi_cumulativeDifficulty b | None => 0 end.

Lemma work_ok_prefix l1 l2 : work_ok (l1 ++ l2) -> work_ok l1.
Proof.
  intros H i b b' Hb Hb'. destruct (H i b b') as (d & Hd & ?).
  - by rewrite lookup_app_l by (by eapply lookup_lt_Some).
  - by rewrite lookup_app_l by (by eapply lookup_lt_Some).
  - exists d. split; [|done]. rewrite take_app_le in Hd; [done|]. apply lookup_lt_Some in Hb. lia.
Qed.

Lemma work_ok_take n l : work_ok l -> work_ok (take n l).
Proof. intros H. apply (work_ok_prefix _ (drop n l)). by rewrite take_drop. Qed.

Lemma work_ok_snoc l b new d :
  work_ok l -> last l = Some b -> flat_difficulty l = Some d -> 0 <= d ->
  bi_cumulativeDifficulty new = bi_cumulativeDifficulty b + d -> work_ok (l ++ [new]).
Proof.
  intros H Hb Hd Hpos Hn i x y Hx Hy. rewrite last_lookup in Hb.
  pose proof (lookup_lt_Some _ _ _ Hy) as Hlen. rewrite length_app in Hlen. cbn in Hlen.
  rewrite take_app_le by lia. destruct (decide (S i = length l)) as [Hi|Hi].
  - rewrite lookup_app_l in Hx by lia. rewrite lookup_app_r, Hi, Nat.sub_diag in Hy by lia.
    injection Hy as <-. rewrite <- Hi in Hb. cbn in Hb. simplify_eq.
    exists d. by rewrite Hi, firstn_all.
  - rewrite lookup_app_l in Hx, Hy by lia. by apply H.
Qed.

Lemma work_mono l i j b b' :
  work_ok l -> l !! i = Some b -> l !! j = Some b' -> (i <= j)%nat ->
  bi_cumulativeDifficulty b <= bi_cumulativeDifficulty b'.
Proof.
  intros H Hb. revert b'. induction j as [|j IH]; intros b' Hb' Hij.
  - assert (i = 0%nat) as -> by lia. simplify_eq. lia.
  - destruct (decide (i = S j)) as [->|Hne]; [simplify_eq; lia|].
    destruct (l !! j) as [x|] eqn:Ex.
    + specialize (IH x eq_refl ltac:(lia)). destruct (H j x b' Ex Hb') as (d & _ & ? & ?). lia.
    + apply lookup_ge_None in Ex. apply lookup_lt_Some in Hb'. lia.
Qed.

(** A block beside an existing one of the same height weighs the same, so a
    fork of one block is never heavier than the chain it leaves. *)
Lemma fork_work l i new :
  work_ok l -> work_ok (take (S i) l ++ [new]) -> (S i < length l)%nat ->
  chain_work (take (S i) l ++ [new]) <= chain_work l.
Proof.
  intros H H' Hi. unfold chain_work. rewrite last_snoc, (last_lookup l).
  destruct (lookup_lt_is_Some_2 l i) as [b Hb]; [lia|].
  destruct (lookup_lt_is_Some_2 l (S i)) as [b' Hb']; [lia|].
  destruct (lookup_lt_is_Some_2 l (pred (length l))) as [e He]; [lia|]. rewrite He.
  destruct (H i b b' Hb Hb') as (d & Hd & _ & E).
  destruct (H' i b new) as (d' & Hd' & _ & E').
  - rewrite lookup_app_l by (rewrite length_take; lia). by rewrite lookup_take_lt by lia.
  - rewrite lookup_app_r; rewrite length_take, Nat.min_l by lia; [|done]. by rewrite Nat.sub_diag.
  - rewrite take_app_le in Hd' by (rewrite length_take; lia). rewrite take_take, Nat.min_id in Hd'.
    simplify_eq. rewrite E', <- E. apply (work_mono l (S i) (pred (length l))); [done..|lia].
Qed.
End Work.

(** ** The chain below a new block *)

(** [c] is the part of the chain [c0] up to block [p]. *)
Record below (c0 : Cache) (p : Z) (c : Cache) : Prop := {
  bl_ok : cache_ok c;
  bl_height : height c = p + 1;
  bl_blocks : chain_blocks c = take (Z.to_nat (p + 1)) (chain_blocks c0);
  bl_storage : chain_storage c = take (Z.to_nat (p + 1)) (chain_storage c0);
  bl_spent ki j : chain_spent c !! ki = Some j <-> chain_spent c0 !! ki = Some j /\ j <= p;
  bl_transactions t : t ∈ chain_transactions c -> t ∈ chain_transactions c0;
  bl_outputs a : (length (chain_outputs c a) <= length (chain_outputs c0 a))%nat }.

Lemma below_top c p : cache_ok c -> height c = p + 1 -> below c p c.
Proof.
  intros Hok Hh. split; [done|done| | | |done|done].
  - rewrite take_ge; [done|]. unfold height in Hh. lia.
  - rewrite take_ge; [done|]. rewrite length_chain_storage by done. unfold height in Hh. lia.
  - intros ki j. split; [|by intros [? _]]. intros H. split; [done|].
    apply spent_below in H; [lia|done].
Qed.

Lemma below_split s parents p :
  cache_ok (s :: parents) ->
  startIndex s < p + 1 < startIndex s + Z.of_nat (length (blockInfos s)) ->
  below (s :: parents) p ((split s (p + 1)).1 :: parents).
Proof.
  intros Hok Hp. pose proof (split_ok s parents (p + 1) Hok Hp) as Hok'.
  destruct (split_same_chain s parents (p + 1) Hok Hp) as [Hb Hst Hsp Ht Ho].
  pose proof (split_height_lower s parents (p + 1) Hok Hp) as Hh.
  set (lower := (split s (p + 1)).1) in *. set (upper := (split s (p + 1)).2) in *.
  assert (cache_ok (lower :: parents)) as Hlow by by destruct Hok'.
  assert (length (chain_blocks (lower :: parents)) = Z.to_nat (p + 1)) as Hlen
    by (unfold height in Hh; lia).
  split; [done|done| | | | |].
  - rewrite Hb. change (chain_blocks (upper :: lower :: parents)) with
      (chain_blocks (lower :: parents) ++ blockInfos upper). by rewrite take_app_length' by lia.
  - rewrite Hst. change (chain_storage (upper :: lower :: parents)) with
      (chain_storage (lower :: parents) ++ storage upper).
    by rewrite take_app_length' by (by rewrite length_chain_storage).
  - intros ki j. rewrite Hsp.
    change (chain_spent (upper :: lower :: parents)) with
      (spentKeyImages upper ∪ chain_spent (lower :: parents)).
    destruct Hok' as (_ & _ & (Hin & Hdis) & _). rewrite lookup_union_Some by done. split.
    + intros H. split; [by right|]. apply spent_below in H; [lia|done].
    + intros [[H|H] Hj]; [|done]. apply Hin in H. unfold in_segment in H.
      change (startIndex upper) with (p + 1) in H. lia.
  - intros t Hin. rewrite Ht. change (chain_transactions (upper :: lower :: parents)) with
      (chain_transactions (lower :: parents) ++ transactions upper). apply elem_of_app. by left.
  - intros a. rewrite Ho. change (chain_outputs (upper :: lower :: parents) a) with
      (chain_outputs (lower :: parents) a ++ segment_outputs upper a). rewrite length_app. lia.
Qed.

(** What a block must be like to be pushed on top of the chain [c]. *)
Record ready (c : Cache) (b : CachedBlock) (txs : list CachedTx) (state : TransactionValidatorState)
  : Prop := {
  rd_index : Block.getBlockIndex (cb_block b) = height c;
  rd_height : height c + 1 < 2 ^ 32;
  rd_hash : cb_hash b ∉ bi_blockHash <$> chain_blocks c;
  rd_images ki : ki ∈ state -> chain_spent c !! ki = None;
  rd_count : Z.of_nat (length txs) + 1 <= 2 ^ 16;
  rd_distinct : NoDup (cb_baseHash b :: (ct_hash <$> txs));
  rd_new t : t ∈ chain_transactions c -> ti_transactionHash t ∉ cb_baseHash b :: (ct_hash <$> txs);
  rd_outputs a : Z.of_nat (length (chain_outputs c a) +
    total_outputs ((baseTransaction (cb_block b), cb_baseHash b) ::
      map (fun t => (ct_transaction t, ct_hash t)) txs)) < 2 ^ 32 }.

Lemma ready_pushable s parents c b txs state :
  same_chain (s :: parents) c -> ready c b txs state -> pushable s parents b txs state.
Proof.
  intros Hs [H1 H2 H3 H4 H5 H6 H7 H8]. pose proof (height_same_chain _ _ Hs) as Hh.
  destruct Hs as [Eb Est Esp Et Eo].
  split; [congruence|congruence| |by rewrite Esp|done|done| |intros a; by rewrite Eo].
  - intros Hin. apply H3. rewrite <- Eb. cbn. rewrite fmap_app. apply elem_of_app. by right.
  - intros t Ht. apply H7. rewrite <- Et. cbn. apply elem_of_app. by right.
Qed.

Lemma empty_same_chain c : same_chain (empty_segment (height c) :: c) c.
Proof.
  split; cbn; try (by rewrite app_nil_r); [by rewrite (left_id_L ∅ (∪))|].
  intros a. unfold segment_outputs. cbn. by rewrite lookup_empty, app_nil_r.
Qed.

(** The chain [c'] is [c] with the block on top. *)
Record extended (c : Cache) (b : CachedBlock) (k : CheckedBlock) (raw : RawBlock) (c' : Cache)
  : Prop := {
  ex_ok : cache_ok c';
  ex_blocks : chain_blocks c' = chain_blocks c ++
    [new_block_info (chain_blocks c) b (length (ck_transactions k)) (ck_cumulativeBlockSize k)
       (ck_emissionChange k) (ck_currentDifficulty k)];
  ex_storage : chain_storage c' = chain_storage c ++ [raw];
  ex_spent : chain_spent c' = chain_spent c ∪ gset_to_gmap (height c) (ck_validatorState k);
  ex_transactions : exists infos, chain_transactions c' = chain_transactions c ++ infos /\
    length infos = S (length (ck_transactions k)) /\
    (forall j info, infos !! j = Some info ->
       ti_blockIndex info = height c /\ ti_transactionIndex info = Z.of_nat j) }.

Lemma push_extended s parents c b k raw :
  open_ok s parents -> same_chain (s :: parents) c ->
  ready c b (ck_transactions k) (ck_validatorState k) ->
  exists s', doPushBlock parents s b (ck_transactions k) (ck_validatorState k)
      (ck_cumulativeBlockSize k) (ck_emissionChange k) (ck_currentDifficulty k) raw = Some s' /\
    extended c b k raw (s' :: parents).
Proof.
  intros Ho Hs Hr. pose proof (ready_pushable _ _ _ _ _ _ Hs Hr) as Hp.
  destruct (doPushBlock_spec s parents b (ck_transactions k) (ck_validatorState k)
    (ck_cumulativeBlockSize k) (ck_emissionChange k) (ck_currentDifficulty k) raw Ho Hp)
    as (s' & E & Hok & Hb & Hst & Hsp & _ & infos & Ht & Hrec & Hidx).
  exists s'. split; [done|]. rewrite (height_same_chain _ _ Hs) in Hsp, Hrec.
  destruct Hs as [Eb Est Esp Et Eo]. rewrite Eb in Hb. rewrite Est in Hst. rewrite Esp in Hsp.
  rewrite Et in Ht. split; [done..|]. exists infos. split; [done|]. split.
  - apply Forall2_length in Hrec as <-. unfold block_transactions. cbn. by rewrite length_map.
  - intros j info Hj. split; [|by apply Hidx].
    destruct (Forall2_lookup_r _ _ _ _ _ Hrec Hj) as (t & _ & Hrt). apply Hrt.
Qed.

(** ** The blobs of the recorded transactions *)

(** The blob of transaction number [transactionIndex] of a stored block. *)
Definition raw_of (transactionIndex : Z) (raw : RawBlock) : option (list Z) :=
  if transactionIndex =? 0
  then b ← fromBinaryArray read_block (block raw); write_transaction (baseTransaction b)
  else Types.transactions raw !! Z.to_nat (u32 (transactionIndex - 1)).

Lemma getRawTransaction_block c i ti :
  getRawTransaction c i ti = getBlockByIndex c i ≫= raw_of ti.
Proof. induction c as [|s parents IH]; [done|]. cbn. by destruct (_ <? _). Qed.

(** Every recorded transaction has its blob in the stored blocks. *)
Definition raw_ok (c : Cache) : Prop :=
  forall t, t ∈ chain_transactions c -> 0 <= ti_blockIndex t < height c /\
    exists raw blob, chain_storage c !! Z.to_nat (ti_blockIndex t) = Some raw /\
      raw_of (ti_transactionIndex t) raw = Some blob /\ bytes_ok blob.

Lemma raw_ok_same c c' : same_chain c c' -> raw_ok c -> raw_ok c'.
Proof.
  intros Hs H t. rewrite <- (height_same_chain _ _ Hs). destruct Hs as [_ Est _ Et _].
  rewrite <- Et, <- Est. apply H.
Qed.

(** A shorter chain of which the transactions are lower. *)
Lemma raw_ok_below c c' :
  cache_ok c -> cache_ok c' -> chain_storage c' = take (Z.to_nat (height c')) (chain_storage c) ->
  (forall t, t ∈ chain_transactions c' -> t ∈ chain_transactions c) -> raw_ok c -> raw_ok c'.
Proof.
  intros Hok Hok' Est Hin H t Ht. destruct (H t (Hin t Ht)) as ([H0 _] & raw & blob & Hr & Hb).
  pose proof (chain_transactions_below c' Hok') as Hl. rewrite Forall_forall in Hl.
  specialize (Hl t Ht). cbn in Hl. split; [lia|]. exists raw, blob. split; [|done].
  rewrite Est, lookup_take_lt by lia. done.
Qed.

Lemma raw_ok_parents s parents : cache_ok (s :: parents) -> raw_ok (s :: parents) -> raw_ok parents.
Proof.
  intros Hok. assert (cache_ok parents) as Hp by by destruct Hok.
  apply raw_ok_below; [done|done| |].
  - cbn [chain_storage]. rewrite take_app_length'; [done|].
    rewrite length_chain_storage by done. unfold height. lia.
  - intros t Ht. cbn. apply elem_of_app. by left.
Qed.

(** What a raw block must be like to belong to block [b]. *)
Record raw_of_block (b : BlockTemplate) (raw : RawBlock) : Prop := {
  rb_block : fromBinaryArray read_block (block raw) = Some b;
  rb_base : exists blob, write_transaction (baseTransaction b) = Some blob /\ bytes_ok blob;
  rb_transactions : Forall bytes_ok (Types.transactions raw) }.

Lemma raw_ok_extended c b k raw c' :
  extended c b k raw c' -> cache_ok c -> raw_of_block (cb_block b) raw ->
  length (Types.transactions raw) = length (ck_transactions k) ->
  Z.of_nat (length (ck_transactions k)) + 1 <= 2 ^ 16 -> raw_ok c -> raw_ok c'.
Proof.
  intros [Hok Hb Hst _ (infos & Ht & Hlen & Hi)] Hc [R1 (blob & R2 & R3) R4] Hl Hcnt H t.
  pose proof (length_chain_storage c Hc) as Hls.
  assert (height c' = height c + 1) as Eh by (unfold height; rewrite Hb, length_app; cbn; lia).
  rewrite Ht, Hst. intros [Hin|Hin]%elem_of_app.
  - destruct (H t Hin) as (? & r & bl & Hr & ?). split; [lia|]. exists r, bl. split; [|done].
    rewrite lookup_app_l by (by eapply lookup_lt_Some). done.
  - apply list_elem_of_lookup_1 in Hin as [j Hj]. destruct (Hi j t Hj) as [-> ->].
    pose proof (height_nonneg c). split; [lia|]. exists raw.
    assert ((chain_storage c ++ [raw]) !! Z.to_nat (height c) = Some raw) as Er.
    { rewrite lookup_app_r by (unfold height; lia). unfold height.
      by replace (_ - _)%nat with 0%nat by lia. }
    apply lookup_lt_Some in Hj. unfold raw_of. destruct j as [|j].
    + exists blob. split; [done|]. cbn [Z.of_nat Z.eqb]. by rewrite R1.
    + destruct (lookup_lt_is_Some_2 (Types.transactions raw) j) as [tx Htx]; [lia|].
      exists tx. split; [done|]. rewrite (proj2 (Z.eqb_neq _ _)) by lia.
      rewrite wrap_small by (split; words; lia). replace (Z.to_nat _) with j by lia.
      split; [done|]. rewrite Forall_lookup in R4. by apply R4 in Htx.
Qed.

(** ** The three insertions *)

Section Insert.
Context (b : CachedBlock) (k : CheckedBlock) (raw : RawBlock).

Abbreviation ready_on c := (ready c b (ck_transactions k) (ck_validatorState k)).

Lemma insert_leaf t leaves id n :
  forest_ok t leaves -> t !! id = Some n -> children n = [] -> ready_on (path t id) ->
  exists t', push_on t id b k raw = Some t' /\ forest_ok t' leaves /\
    extended (path t id) b k raw (path t' id) /\
    (forall x, x <> id -> is_Some (t !! x) -> path t' x = path t x) /\
    (forall x, is_Some (t !! x) -> chain_ids t' x = chain_ids t x /\ is_Some (t' !! x)) /\
    exists s', t' !! id = Some (set_segment s' n) /\ path t' id = s' :: parent_path t n.
Proof.
  intros H E Hc Hr. pose proof (path_cons t leaves id n H E) as Hp.
  assert (cache_ok (path t id)) as Hok by (apply (forest_path_ok t leaves); eauto).
  rewrite Hp in Hok, Hr |- *.
  destruct (push_extended (segment n) (parent_path t n) (segment n :: parent_path t n) b k raw)
    as (s' & Es & Hex); [by apply cache_open|done|done|].
  destruct (forest_push t leaves id n s' H E Hc (ex_ok _ _ _ _ _ Hex)) as (H1 & H2 & H3 & H4).
  exists (alter (set_segment s') id t). split.
  { unfold push_on. rewrite E. cbn [mbind option_bind]. fold (parent_path t n). by rewrite Es. }
  split; [done|]. split; [by rewrite H2|]. split; [done|]. split.
  2:{ exists s'. split; [|done]. by rewrite lookup_alter_eq, E. }
  intros x Hx. split; [|by rewrite push_lookup, fmap_is_Some].
  destruct (H4 x) as [?|Hn]; [done|]. destruct Hx. congruence.
Qed.

(** The tree and the pointer [fork] makes. *)
Lemma insert_fork c t leaves id n :
  forest_ok t leaves -> t !! id = Some n -> children n <> [] -> ready_on (path t id) ->
  height (path t id) = ck_previousBlockIndex k + 1 ->
  exists t' new leaf, fork c t leaves id b k raw =
      Some (mkCore t' (leaves ++ [new]) (updateMainChainSet t' leaf) (mainChainStorage c)
              (transactionPool c) (blockMedianSize c)) /\
    head leaves = Some leaf /\ forest_ok t' (leaves ++ [new]) /\ t !! new = None /\
    extended (path t id) b k raw (path t' new) /\
    (forall x, is_Some (t !! x) -> path t' x = path t x).
Proof.
  intros H E Hc Hr Hh. pose proof (forest_tree _ _ H) as Ht.
  assert (cache_ok (path t id)) as Hok by (apply (forest_path_ok t leaves); eauto).
  assert (u32 (ck_previousBlockIndex k + 1) = height (path t id)) as Eh.
  { rewrite <- Hh. apply wrap_small. pose proof (height_nonneg (path t id)).
    pose proof (rd_height _ _ _ _ Hr). words. lia. }
  destruct (push_extended (empty_segment (height (path t id))) (path t id) (path t id) b k raw)
    as (s' & Es & Hex); [by apply empty_open|apply empty_same_chain|done|].
  pose proof (forest_attach t leaves id n s' H E Hc (ex_ok _ _ _ _ _ Hex)) as Ha.
  unfold attach in Ha. set (new := new_id t) in *.
  set (t' := <[new := mkNode s' (Some id) []]> (alter (addChild new) id t)) in *.
  destruct Ha as (H1 & H2 & H3 & H4).
  destruct (head leaves) as [leaf|] eqn:El.
  2:{ destruct leaves; [|done]. by destruct (forest_main t [] H). }
  exists t', new, leaf. split; [|by rewrite H2].
  unfold fork, attach, push_on. fold new. rewrite Eh, lookup_insert_eq. cbn [mbind option_bind parent segment].
  set (t1 := <[new := mkNode (empty_segment _) (Some id) []]> _).
  assert (path t1 id = path t id) as ->.
  { destruct (tree_rooted t Ht id) as [l Hl]; [eauto|]. rewrite (tree_path t id l Hl).
    rewrite (tree_path t1 id l) by (by apply (attach_chain_old t id)). by eapply attach_segments_old. }
  rewrite Es. cbn [mbind option_bind].
  assert (alter (set_segment s') new t1 = t') as ->.
  { unfold t1. by rewrite alter_insert_eq. }
  destruct leaves as [|x leaves]; [done|]. cbn in El |- *. by injection El as ->.
Qed.

Lemma insert_split c t leaves id n p :
  forest_ok t leaves -> t !! id = Some n -> ck_previousBlockIndex k = p ->
  startIndex (segment n) < p + 1 < startIndex (segment n) + Z.of_nat (length (blockInfos (segment n))) ->
  (forall c', below (path t id) p c' -> ready_on c') ->
  exists t' u leaves1 new leaf base c',
    add_after_split (mkCore t leaves (mainChainSet c) (mainChainStorage c) (transactionPool c)
      (blockMedianSize c)) id b k raw = Some (ADDED_TO_ALTERNATIVE, c') /\
    c' = mkCore t' (leaves1 ++ [new]) (updateMainChainSet t' leaf) (mainChainStorage c)
           (transactionPool c) (blockMedianSize c) /\
    leaves1 = renamed id u <$> leaves /\ head leaves1 = Some leaf /\
    forest_ok t' (leaves1 ++ [new]) /\
    below (path t id) p base /\ extended base b k raw (path t' new) /\
    (forall x, x ∈ leaves -> same_chain (path t x) (path t' (renamed id u x))).
Proof.
  intros H E Hk Hp Hr. pose proof (path_cons t leaves id n H E) as Epath.
  assert (cache_ok (path t id)) as Hok by (apply (forest_path_ok t leaves); eauto).
  destruct (forest_split t leaves id n (p + 1) H E Hp)
    as (t1 & u & Es & Hu & Eu & H1 & (m & Em & Hm) & Hpid & Hsame).
  assert (below (path t id) p (path t1 id)) as Hb.
  { rewrite Hpid, Epath. apply below_split; [by rewrite <- Epath|done]. }
  assert (match children n with [] => renamed id u <$> leaves | _ => leaves end =
    renamed id u <$> leaves) as El.
  { destruct (children n) as [|ch cs] eqn:Ec; [done|]. symmetry. rewrite <- (list_fmap_id leaves) at 2.
    apply list_fmap_ext. intros i x Hx. unfold renamed. destruct (decide (x = id)) as [->|]; [|done].
    apply list_elem_of_lookup_2, (forest_leaf _ _ H) in Hx as (n' & ? & ?). congruence. }
  rewrite El in H1. set (leaves1 := renamed id u <$> leaves) in *.
  pose proof (bl_height _ _ _ Hb) as Hh. pose proof (Hr _ Hb) as Hready.
  assert (u32 (p + 1) = p + 1) as Eu32.
  { apply wrap_small. pose proof (rd_height _ _ _ _ Hready). pose proof (height_nonneg (path t1 id)).
    words. lia. }
  destruct (insert_fork (mkCore t leaves (mainChainSet c) (mainChainStorage c) (transactionPool c)
      (blockMedianSize c)) t1 leaves1 id m H1 Em) as (t' & new & leaf & Ef & Hhead & H2 & Hnew & Hex & Hold);
    [by rewrite Hm|done|congruence|].
  exists t', u, leaves1, new, leaf, (path t1 id). eexists. split.
  { unfold add_after_split. cbn [chainsStorage chainsLeaves]. rewrite Hk, Eu32, Es.
    cbn [mbind option_bind]. rewrite Eu. cbn [mbind option_bind children].
    assert (match children n with
            | [] => (fun x => if decide (x = id) then u else x) <$> leaves
            | _ => leaves end = leaves1) as -> by exact El.
    rewrite Ef. cbn [mbind option_bind]. reflexivity. }
  split; [done|]. split; [done|]. split; [done|]. split; [done|]. split; [done|]. split; [done|].
  intros x Hx. rewrite (Hold (renamed id u x)); [by apply Hsame|].
  assert (renamed id u x ∈ leaves1) as Hin by (by apply list_elem_of_fmap_2).
  apply (forest_leaf _ _ H1) in Hin as (n' & ? & _). eauto.
Qed.
End Insert.
