(* ===== verification/CorePool.v ===== *)
(** * The core: what it does to the memory pool

    Every pool operation of [Core] completes, changes nothing but the pool, and
    leaves a pool in order; a transaction admitted outside the checkpoint zone
    spends no key image that the main chain has spent. *)

From stdpp Require Import base gmap sets list sorting.
From S2P Require Import Prelude Config Bytes Types Mixins TxExtra Serialization Block Median Upgrade.
From S2P Require Import Checkpoints Currency Difficulty BlockchainCache CacheFacts CacheSteps.
From S2P Require Import Validation TransactionPool PoolCleaner ChainTree Core CoreFacts.
Import parameters.

(** The wrapper and the pool inside it. *)
Definition pool_of (c : Core) : TransactionPool := PoolCleaner.transactionPool (transactionPool c).

(** [c'] differs from [c] in the pool alone. *)
Definition same_but_pool (c c' : Core) : Prop := c' = set_pool c (transactionPool c').

Lemma same_but_pool_refl c : same_but_pool c c.
Proof. by destruct c. Qed.

Lemma same_but_pool_trans c1 c2 c3 :
  same_but_pool c1 c2 -> same_but_pool c2 c3 -> same_but_pool c1 c3.
Proof. unfold same_but_pool. intros E1 E2. rewrite E2 at 1. rewrite E1. done. Qed.

Lemma same_but_pool_main c c' : same_but_pool c c' -> main_chain c' = main_chain c.
Proof. intros ->. done. Qed.

Lemma set_pool_same c w : same_but_pool c (set_pool c w).
Proof. done. Qed.

Abbreviation core_wrapper_ok := (wrapper_ok pool_ok pending).

(** Removing from the wrapper. *)
Lemma wrapper_remove_ok w hash :
  core_wrapper_ok w ->
  let w' := (PoolCleaner.removeTransaction w hash).2 in
  core_wrapper_ok w' /\
  pending (PoolCleaner.transactionPool w') =
    filter (fun q => getTransactionHash q <> hash) (pending (PoolCleaner.transactionPool w)).
Proof.
  intros [H1 H2 H3]. unfold PoolCleaner.removeTransaction. cbn.
  pose proof (removeTransaction_ok (PoolCleaner.transactionPool w) hash H1) as Hr.
  destruct (TransactionPool.removeTransaction _ _) as [r p]. destruct Hr as (Hok & _ & Hp).
  cbn. split; [|done]. split; [done|done|]. cbn. intros i. rewrite Hp.
  intros [_ Hi]%list_elem_of_filter. by apply H3.
Qed.

Section CorePool.
Context (check_key : PublicKey -> bool).
Context (scalarmultKey : KeyImage -> KeyImage -> KeyImage).
Context (checkRingSignature : Hash -> KeyImage -> list PublicKey -> list Signature -> bool).
Context (cn_fast_hash : list Z -> list Z).
Context (currency : Currency) (points : Points) (now : Z).

#[local] Instance pool_cache : IBlockchainCache Cache := segments_cache currency now.

Abbreviation add_to_pool := (addTransactionToPool check_key scalarmultKey checkRingSignature
  cn_fast_hash currency points now).
Abbreviation add_binary := (addTransactionToPool_binary check_key scalarmultKey checkRingSignature
  cn_fast_hash currency points now).

(** No checkpoint above the main chain: key images are compared with it. *)
Definition beyond_checkpoints (c : Core) : Prop :=
  isInCheckpointZone points (u32 (height (main_chain c))) = false.

(** The key images of a transaction are unspent on the main chain. *)
Definition unspent (c : Core) (i : PendingTransactionInfo) : Prop :=
  forall ki, ki ∈ info_images i -> chain_spent (main_chain c) !! ki = None.

Lemma key_image_input l ki :
  ki ∈ key_images l -> exists j a idx, l !! j = Some (KeyInput a idx ki).
Proof.
  induction l as [|[h|a idx k'] l IH]; cbn; intros Hki.
  - by apply elem_of_nil in Hki.
  - destruct (IH Hki) as (j & a & idx & ?). by exists (S j), a, idx.
  - apply elem_of_cons in Hki as [->|Hki]; [by exists 0%nat, a, idx|].
    destruct (IH Hki) as (j & a' & idx' & ?). by exists (S j), a', idx'.
Qed.

Lemma validateTransaction_images cache t b fee state0 state :
  validateTransaction check_key scalarmultKey checkRingSignature cn_fast_hash points cache t state0 b =
    (inr fee, state) ->
  NoDup (key_images (inputs (prefix t))) /\ state = extractSpentOutputs t ∪ state0 /\
  (isInCheckpointZone points (u32 (b + 1)) = false ->
   forall ki, ki ∈ key_images (inputs (prefix t)) -> ic_checkIfSpent cache ki b = false).
Proof.
  unfold validateTransaction. destruct (validateSemantic _ _ t) as [|f]; [done|].
  destruct (validate_inputs _ _ _ _ _ _ _ _) as [[e|] st] eqn:E; [done|]. intros [= <- <-].
  apply validate_inputs_sound in E as (Hn & _ & -> & Hr). split; [done|].
  split; [done|]. intros Hz ki Hki.
  destruct (key_image_input _ _ Hki) as (j & a & idx & Hj). by apply (Hr Hz j a idx ki Hj).
Qed.

(** All transactions of a block. *)
Lemma validateTransactions_images cache l b fee0 state0 fee state :
  validateTransactions check_key scalarmultKey checkRingSignature cn_fast_hash points cache l state0 b
    fee0 = inr (fee, state) ->
  state = list_to_set (block_images l) ∪ state0 /\
  (isInCheckpointZone points (u32 (b + 1)) = false ->
   forall ki, ki ∈ block_images l -> ic_checkIfSpent cache ki b = false).
Proof.
  revert fee0 state0. induction l as [|t l IH]; intros fee0 state0; cbn [validateTransactions].
  - intros [= <- <-]. split; [cbn; by rewrite (left_id_L ∅ (∪))|]. by intros _ ki ?%elem_of_nil.
  - destruct (validateTransaction _ _ _ _ _ _ _ _) as [[e|f] state1] eqn:E; [done|].
    apply validateTransaction_images in E as (_ & -> & Hu). intros [-> Hr]%IH.
    change (block_images (t :: l)) with (key_images (inputs (prefix t)) ++ block_images l). split.
    + rewrite list_to_set_app_L, !(assoc_L (∪)). f_equal. apply (comm_L (∪)).
    + intros Hz ki [Hki|Hki]%elem_of_app; [by apply Hu|by apply Hr].
Qed.

(** The height of the chain and the index of its top block. *)
Lemma top_of_chain c : cache_ok c -> c <> [] -> getTopBlockIndex c = Some (height c - 1).
Proof. destruct c as [|s c]; [done|]. intros (_ & Hb & _) _. cbn. by rewrite (segment_top_ok s c). Qed.

Lemma unspent_at_top c ki :
  cache_ok c -> checkIfSpent c ki (height c - 1) = false -> chain_spent c !! ki = None.
Proof.
  intros Hok. rewrite checkIfSpent_chain by done. destruct (chain_spent c !! ki) as [j|] eqn:E; [|done].
  intros Hj. apply spent_below in E; [|done]. apply Z.leb_gt in Hj. lia.
Qed.

(** What a pool operation leaves: the same core but for the pool, which is in
    order; what it adds is unspent on the main chain. *)
Record pool_step (c c' : Core) : Prop := {
  ps_same : same_but_pool c c';
  ps_ok : core_wrapper_ok (transactionPool c');
  ps_new i : i ∈ pending (pool_of c') -> i ∈ pending (pool_of c) \/
    (beyond_checkpoints c -> unspent c i) }.

Lemma pool_step_refl c : core_wrapper_ok (transactionPool c) -> pool_step c c.
Proof. intros H. split; [apply same_but_pool_refl|done|by left]. Qed.

Lemma pool_step_trans c1 c2 c3 : pool_step c1 c2 -> pool_step c2 c3 -> pool_step c1 c3.
Proof.
  intros [S1 O1 N1] [S2 O2 N2]. split; [by eapply same_but_pool_trans|done|].
  pose proof (same_but_pool_main _ _ S1) as E. intros i [Hi|Hi]%N2; [by apply N1|right].
  unfold beyond_checkpoints, unspent in *. by rewrite E in Hi.
Qed.

Context (c0 : Core) (Hmain : cache_ok (main_chain c0)) (Hne : main_chain c0 <> []).

Lemma isTransactionValidForPool_spec c tx :
  same_but_pool c0 c ->
  exists valid st, isTransactionValidForPool check_key scalarmultKey checkRingSignature cn_fast_hash
      currency points now c tx = Some (valid, st) /\
    (valid = true -> NoDup (info_images (new_info now tx)) /\
       st = extractSpentOutputs (ct_transaction tx) /\
       fits 64 (Z.of_nat (length (ct_binaryArray tx))) /\
       (beyond_checkpoints c0 -> unspent c0 (new_info now tx))).
Proof.
  intros Hs. pose proof (same_but_pool_main _ _ Hs) as E. unfold isTransactionValidForPool.
  rewrite E, top_of_chain by done. cbn [mbind option_bind].
  destruct (negb _); [by eexists _, _|]. destruct (_ <=? _); [by eexists _, _|].
  destruct (validateTransaction _ _ _ _ _ _ _ _ _) as [[e|fee] st] eqn:Ev; [by eexists _, _|].
  destruct (_ <? Z.of_nat _) eqn:Emax; [by eexists _, _|].
  destruct (negb _ && _); [by eexists _, _|]. eexists _, _. split; [done|]. intros _.
  apply validateTransaction_images in Ev as (Hn & -> & Hsp). split; [done|].
  split; [by rewrite (right_id_L ∅ (∪))|]. split.
  - apply Z.ltb_ge in Emax. unfold getMaximumTransactionAllowedSize in Emax.
    match type of Emax with _ <= u64 ?x => pose proof (fits_wrap 64 x ltac:(lia)) as Hw end.
    unfold fits in *. lia.
  - intros Hz ki Hki. apply unspent_at_top; [done|]. apply Hsp; [|done].
    by replace (height (main_chain c0) - 1 + 1) with (height (main_chain c0)) by lia.
Qed.

Lemma addTransactionToPool_spec c tx :
  same_but_pool c0 c -> core_wrapper_ok (transactionPool c) -> ct_binaryArray tx <> [] ->
  exists added c', add_to_pool c tx = Some (added, c') /\
    same_but_pool c0 c' /\ core_wrapper_ok (transactionPool c') /\
    (if added then pending (pool_of c') ≡ₚ new_info now tx :: pending (pool_of c) /\
                   (beyond_checkpoints c0 -> unspent c0 (new_info now tx))
     else pool_of c' = pool_of c).
Proof.
  intros Hs Hw Hb. unfold addTransactionToPool.
  destruct (checkIfTransactionPresent _ _); [by eexists _, _|].
  destruct (isTransactionValidForPool_spec c tx Hs) as (valid & st & E & Hv). rewrite E.
  cbn [mbind option_bind]. destruct valid; [|by eexists _, _]. cbn [negb].
  destruct (Hv eq_refl) as (Hn & -> & Hf & Hu).
  assert (info_ok (new_info now tx)) as Hi.
  { split; [|done]. unfold info_size. cbn. destruct (ct_binaryArray tx); [done|]. cbn. lia. }
  pose proof (wrapper_push_ok pool_ok pending now tx _ Hw Hi Hn) as Hw'.
  pose proof (pushTransaction_spec (pool_of c) now tx (wrapper_pool _ _ _ Hw) Hi Hn) as Hp.
  unfold PoolCleaner.pushTransaction in *.
  destruct (isTransactionRecentlyDeleted _ _).
  - exists false. eexists. split; [done|]. split; [|done]. by eapply same_but_pool_trans.
  - cbn [ip_pushTransaction TransactionPool_pool] in *. fold (pool_of c) in *.
    destruct (TransactionPool.pushTransaction _ _ _ _) as [[] p']; destruct Hp as (_ & _ & Hp);
      eexists _, _; (split; [done|]); (split; [by eapply same_but_pool_trans|]); (split; [done|]).
    + by split.
    + done.
Qed.

Lemma add_pool_step c tx :
  same_but_pool c0 c -> core_wrapper_ok (transactionPool c) -> ct_binaryArray tx <> [] ->
  exists added c', add_to_pool c tx = Some (added, c') /\ pool_step c c'.
Proof.
  intros Hs Hw Hb. pose proof (same_but_pool_main _ _ Hs) as E.
  destruct (addTransactionToPool_spec c tx Hs Hw Hb) as (added & c' & Ea & Hs' & Hw' & Hp).
  exists added, c'. split; [done|]. split; [|done|].
  - unfold same_but_pool in *. rewrite Hs' at 1. by rewrite Hs.
  - intros i. destruct added.
    + destruct Hp as [Hp Hu]. rewrite Hp. intros [->|Hi]%elem_of_cons; [right|by left].
      unfold beyond_checkpoints, unspent in *. by rewrite E.
    + rewrite Hp. by left.
Qed.

(** ** Taking out and offering again *)

Lemma pool_transaction c h :
  core_wrapper_ok (transactionPool c) -> h ∈ getTransactionHashes (pool_of c) ->
  exists i, i ∈ pending (pool_of c) /\ getTransactionHash i = h /\
    getTransaction (pool_of c) h = Some (cachedTransaction i) /\
    ct_binaryArray (cachedTransaction i) <> [].
Proof.
  intros Hw (i & -> & Hi)%list_elem_of_fmap. pose proof (wrapper_pool _ _ _ Hw) as Hok.
  exists i. split; [done|]. split; [done|]. split.
  - unfold getTransaction, pool_of in *.
    by rewrite (proj2 (find_pending_iff _ _ i (pool_hashes _ Hok)) (conj Hi eq_refl)).
  - pose proof (pool_infos _ Hok) as Hin. rewrite Forall_forall in Hin. destruct (Hin i Hi) as [Hp _].
    unfold info_size in Hp. intros E. rewrite E in Hp. done.
Qed.

Lemma actualize_loop_spec c hashes :
  same_but_pool c0 c -> core_wrapper_ok (transactionPool c) -> NoDup hashes ->
  (forall h, h ∈ hashes -> h ∈ getTransactionHashes (pool_of c)) ->
  exists c', actualize_loop check_key scalarmultKey checkRingSignature cn_fast_hash currency points
      now c hashes = Some c' /\ same_but_pool c0 c' /\ core_wrapper_ok (transactionPool c') /\
    (forall i, i ∈ pending (pool_of c') ->
       (i ∈ pending (pool_of c) /\ ~ getTransactionHash i ∈ hashes) \/
       (beyond_checkpoints c0 -> unspent c0 i)).
Proof.
  revert c. induction hashes as [|h hashes IH]; intros c Hs Hw Hn Hin; cbn [actualize_loop].
  { exists c. split; [done|]. split; [done|]. split; [done|]. intros i Hi. left.
    split; [done|apply not_elem_of_nil]. }
  apply NoDup_cons in Hn as [Hh Hn].
  destruct (pool_transaction c h Hw) as (i & Hi & Ei & Eg & Hb); [apply Hin; by left|].
  fold (pool_of c). rewrite Eg. cbn [mbind option_bind].
  destruct (wrapper_remove_ok (transactionPool c) h Hw) as [Hw1 Hp1].
  set (c1 := set_pool c _). change (core_wrapper_ok (transactionPool c1)) in Hw1.
  assert (same_but_pool c0 c1) as Hs1 by (by eapply same_but_pool_trans).
  destruct (addTransactionToPool_spec c1 (cachedTransaction i) Hs1 Hw1 Hb)
    as (added & c2 & Ea & Hs2 & Hw2 & Hp2).
  rewrite Ea. cbn [mbind option_bind].
  assert (forall x, x ∈ pending (pool_of c2) -> x ∈ pending (pool_of c1) \/
    x = new_info now (cachedTransaction i) /\ (beyond_checkpoints c0 -> unspent c0 x)) as Hc2.
  { intros x. destruct added; [|rewrite Hp2; by left]. destruct Hp2 as [-> Hu].
    intros [->|Hx]%elem_of_cons; [by right|by left]. }
  assert (forall x, x ∈ pending (pool_of c1) -> x ∈ pending (pool_of c2)) as Hc12.
  { intros x Hx. destruct added; [|by rewrite Hp2]. destruct Hp2 as [-> _]. by right. }
  destruct (IH c2 Hs2 Hw2 Hn) as (c' & E & Hs' & Hw' & Hp').
  { intros h' Hh'. destruct (pool_transaction c h' Hw) as (x & Hx & Ex & _); [apply Hin; by right|].
    rewrite <- Ex. apply list_elem_of_fmap_2, Hc12. change (pending (pool_of c1)) with
      (pending (PoolCleaner.transactionPool (PoolCleaner.removeTransaction (transactionPool c) h).2)).
    rewrite Hp1. apply list_elem_of_filter. split; [congruence|done]. }
  exists c'. split; [done|]. split; [done|]. split; [done|]. intros x Hx.
  destruct (Hp' x Hx) as [[Hx2 Hnot]|?]; [|by right].
  destruct (Hc2 x Hx2) as [Hx1|[_ ?]]; [left|by right].
  change (pending (pool_of c1)) with
    (pending (PoolCleaner.transactionPool (PoolCleaner.removeTransaction (transactionPool c) h).2)) in Hx1.
  rewrite Hp1 in Hx1. apply list_elem_of_filter in Hx1 as [? ?]. split; [done|].
  by apply not_elem_of_cons.
Qed.

(** After [actualizePoolTransactions] nothing in the pool is spent. *)
Lemma actualizePoolTransactions_spec c :
  same_but_pool c0 c -> core_wrapper_ok (transactionPool c) ->
  exists c', actualizePoolTransactions check_key scalarmultKey checkRingSignature cn_fast_hash
      currency points now c = Some c' /\ same_but_pool c0 c' /\ core_wrapper_ok (transactionPool c') /\
    (forall i, i ∈ pending (pool_of c') -> beyond_checkpoints c0 -> unspent c0 i).
Proof.
  intros Hs Hw. pose proof (pool_hashes _ (wrapper_pool _ _ _ Hw)) as Hn.
  destruct (actualize_loop_spec c (getTransactionHashes (pool_of c)) Hs Hw Hn) as (c' & E & Hs' & Hw' & Hp);
    [done|]. exists c'. split; [done|]. split; [done|]. split; [done|].
  intros i Hi. destruct (Hp i Hi) as [[Hin Hnot]|?]; [|done]. destruct Hnot.
  by apply list_elem_of_fmap_2.
Qed.

Lemma actualize_lite_spec state c hashes :
  core_wrapper_ok (transactionPool c) -> NoDup hashes ->
  (forall h, h ∈ hashes -> h ∈ getTransactionHashes (pool_of c)) ->
  exists c', actualize_lite_loop currency state c hashes = Some c' /\ same_but_pool c c' /\
    core_wrapper_ok (transactionPool c') /\
    (forall i, i ∈ pending (pool_of c') -> i ∈ pending (pool_of c) /\
       (getTransactionHash i ∈ hashes -> forall ki, ki ∈ info_images i -> ki ∉ state)).
Proof.
  revert c. induction hashes as [|h hashes IH]; intros c Hw Hn Hin; cbn [actualize_lite_loop].
  { exists c. split; [done|]. split; [apply same_but_pool_refl|]. split; [done|]. intros i Hi.
    split; [done|]. by intros ?%elem_of_nil. }
  apply NoDup_cons in Hn as [Hh Hn].
  destruct (pool_transaction c h Hw) as (i & Hi & Ei & Eg & Hb); [apply Hin; by left|].
  fold (pool_of c). rewrite Eg. cbn [mbind option_bind].
  destruct (hasIntersections state _ || _) eqn:Edel.
  - destruct (wrapper_remove_ok (transactionPool c) h Hw) as [Hw1 Hp1].
    set (c1 := set_pool c _). change (core_wrapper_ok (transactionPool c1)) in Hw1.
    assert (pending (pool_of c1) = filter (fun q => getTransactionHash q <> h) (pending (pool_of c)))
      as Ep1 by exact Hp1.
    destruct (IH c1 Hw1 Hn) as (c' & E & Hs' & Hw' & Hp').
    { intros h' Hh'. destruct (pool_transaction c h' Hw) as (x & Hx & Ex & _); [apply Hin; by right|].
      rewrite <- Ex. apply list_elem_of_fmap_2. rewrite Ep1. apply list_elem_of_filter.
      split; [congruence|done]. }
    exists c'. split; [done|]. split; [exact (same_but_pool_trans _ _ _ (set_pool_same c _) Hs')|].
    split; [done|]. intros x Hx. destruct (Hp' x Hx) as [Hx1 Hk]. rewrite Ep1 in Hx1.
    apply list_elem_of_filter in Hx1 as [Hne' Hx1]. split; [done|].
    intros [?|?]%elem_of_cons; [done|by apply Hk].
  - apply orb_false_iff in Edel as [Edel _]. apply hasIntersections_spec in Edel.
    destruct (IH c Hw Hn) as (c' & E & Hs' & Hw' & Hp').
    { intros h' Hh'. apply Hin. by right. }
    exists c'. split; [done|]. split; [done|]. split; [done|]. intros x Hx.
    destruct (Hp' x Hx) as [Hx1 Hk]. split; [done|]. intros [Ex|?]%elem_of_cons; [|by apply Hk].
    assert (x = i) as ->.
    { pose proof (pool_hashes _ (wrapper_pool _ _ _ Hw)) as Hnd.
      pose proof (proj2 (find_pending_iff (pool_of c) h x Hnd) (conj Hx1 Ex)).
      pose proof (proj2 (find_pending_iff (pool_of c) h i Hnd) (conj Hi Ei)). congruence. }
    intros ki Hki Hst. apply (Edel ki Hst). by apply elem_of_list_to_set.
Qed.

Lemma remove_transactions_spec c txs :
  core_wrapper_ok (transactionPool c) ->
  core_wrapper_ok (transactionPool (remove_transactions c txs)) /\
  (forall i, i ∈ pending (pool_of (remove_transactions c txs)) -> i ∈ pending (pool_of c)).
Proof.
  unfold remove_transactions, pool_of. cbn [transactionPool set_pool].
  generalize (transactionPool c) as w. induction txs as [|tx txs IH]; intros w Hw; cbn [fold_left].
  { done. }
  destruct (wrapper_remove_ok w (ct_hash tx) Hw) as [Hw1 Hp1]. destruct (IH _ Hw1) as [H1 H2].
  split; [done|]. intros i Hi. apply H2 in Hi. rewrite Hp1 in Hi.
  by apply list_elem_of_filter in Hi as [_ ?].
Qed.

(** ** Bringing back the transactions of the chain that was left *)

Lemma add_binary_step c blob :
  same_but_pool c0 c -> core_wrapper_ok (transactionPool c) -> bytes_ok blob ->
  exists added c', add_binary c blob = Some (added, c') /\ pool_step c c'.
Proof.
  intros Hs Hw Hb. unfold addTransactionToPool_binary.
  destruct (fromBinaryArray read_transaction blob) as [t|] eqn:E.
  2:{ exists false, c. split; [done|by apply pool_step_refl]. }
  unfold fromBinaryArray in E. destruct (read_transaction blob) as [[t' [|? ?]]|] eqn:Er; try done.
  injection E as ->. apply transaction_read_canonical in Er as Hc; [|done].
  destruct Hc as (_ & w & Ew & Eb). rewrite app_nil_r in Eb. subst w.
  unfold cached_transaction. rewrite Ew. cbn [mbind option_bind].
  apply add_pool_step; [done|done|]. cbn. intros ->. by vm_compute in Er.
Qed.

Lemma add_all_step blobs c :
  same_but_pool c0 c -> core_wrapper_ok (transactionPool c) -> Forall bytes_ok blobs ->
  exists c', add_all_to_pool check_key scalarmultKey checkRingSignature cn_fast_hash currency points
    now c blobs = Some c' /\ pool_step c c'.
Proof.
  intros Hs Hw H. revert c Hs Hw. induction H as [|blob blobs Hb _ IH]; intros c Hs Hw.
  { exists c. split; [done|by apply pool_step_refl]. }
  cbn [add_all_to_pool]. destruct (add_binary_step c blob Hs Hw Hb) as (added & c1 & -> & H1).
  cbn [mbind option_bind]. destruct H1 as [S1 W1 N1].
  destruct (IH c1 (same_but_pool_trans _ _ _ Hs S1) W1) as (c2 & -> & H2).
  exists c2. split; [done|]. eapply pool_step_trans; [|done]. by split.
Qed.

Lemma getRawTransactions_total s parents hashes :
  cache_ok (s :: parents) -> raw_ok (s :: parents) ->
  exists found missed, getRawTransactions (s :: parents) hashes = Some (found, missed) /\
    Forall bytes_ok found.
Proof.
  intros Hok Hr. induction hashes as [|h hashes (found & missed & IH & Hf)]; [by exists [], []|].
  cbn [getRawTransactions]. rewrite IH. destruct (find_transaction s h) as [t|] eqn:E.
  2:{ by exists found, (h :: missed). }
  assert (t ∈ transactions s) as Hin.
  { unfold find_transaction in E. apply fmap_Some in E as ([j t'] & E & ->).
    apply list_find_Some in E as (E & _). by apply list_elem_of_lookup_2 in E. }
  destruct (Hr t) as ([H0 _] & raw & blob & Hraw & Hblob & Hbytes).
  { cbn. apply elem_of_app. by right. }
  rewrite getRawTransaction_block, getBlockByIndex_chain, Hraw by done.
  cbn [mbind option_bind]. rewrite Hblob. cbn [mbind option_bind].
  exists (blob :: found), missed. split; [done|]. by constructor.
Qed.

Lemma copy_loop_step ids c :
  same_but_pool c0 c -> core_wrapper_ok (transactionPool c) ->
  Forall (fun id => exists n parents, chainsStorage c0 !! id = Some n /\
    path (chainsStorage c0) id = segment n :: parents /\ cache_ok (segment n :: parents) /\
    raw_ok (segment n :: parents)) ids ->
  exists c', copy_loop check_key scalarmultKey checkRingSignature cn_fast_hash currency points
    now c ids = Some c' /\ pool_step c c'.
Proof.
  intros Hs Hw H. revert c Hs Hw. induction H as [|id ids Hid _ IH]; intros c Hs Hw.
  { exists c. split; [done|by apply pool_step_refl]. }
  cbn [copy_loop]. case_bool_decide; [exists c; split; [done|by apply pool_step_refl]|].
  assert (chainsStorage c = chainsStorage c0) as -> by (by rewrite Hs).
  destruct Hid as (n & parents & En & Ep & Hok & Hr). rewrite En, Ep. cbn [mbind option_bind].
  destruct (getRawTransactions_total (segment n) parents
    (BlockchainCache.getTransactionHashes (segment n)) Hok Hr) as (found & missed & -> & Hf).
  cbn [mbind option_bind]. destruct (add_all_step found c Hs Hw Hf) as (c1 & -> & H1).
  cbn [mbind option_bind]. destruct H1 as [S1 W1 N1].
  destruct (IH c1 (same_but_pool_trans _ _ _ Hs S1) W1) as (c2 & -> & H2).
  exists c2. split; [done|]. eapply pool_step_trans; [|done]. by split.
Qed.
End CorePool.
