(* ===== verification/CoreChecks.v ===== *)
(** * The core: what the checks of [addBlock] establish

    A block that passes the checks can be inserted on top of its predecessor,
    wherever in the tree that is, and the chain that results carries the work
    that is due. *)

From stdpp Require Import base gmap sets list sorting.
From S2P Require Import Prelude Config Bytes Types Mixins TxExtra Serialization Block Median Upgrade.
From S2P Require Import Checkpoints Currency Difficulty BlockchainCache CacheFacts CacheSteps.
From S2P Require Import Validation TransactionPool PoolCleaner ChainTree Core CoreFacts CorePool.
Import parameters.

(** A block found by its hash lies in the segment. *)
Lemma getBlockIndex_in s parents h p :
  cache_ok (s :: parents) -> BlockchainCache.getBlockIndex s h = Some p ->
  startIndex s <= p < startIndex s + Z.of_nat (length (blockInfos s)) /\
  exists b, chain_blocks (s :: parents) !! Z.to_nat p = Some b /\ bi_blockHash b = h.
Proof.
  intros Hok. unfold BlockchainCache.getBlockIndex.
  destruct (list_find _ _) as [[i b]|] eqn:E; [|done]. intros [= <-].
  apply list_find_Some in E as (E & Hh & _). pose proof (lookup_lt_Some _ _ _ E) as Hi.
  pose proof (chain_start _ _ Hok) as Es. pose proof (height_nonneg parents).
  destruct Hok as (_ & (_ & _ & _ & Hlt) & _). rewrite height_cons in Hlt.
  rewrite (wrap_small 32 (Z.of_nat i)) by (split; words; lia).
  rewrite wrap_small by (split; words; lia). split; [lia|]. exists b. split; [|done].
  cbn [chain_blocks]. rewrite lookup_app_r by (unfold height in *; lia).
  by replace (_ - _)%nat with i by (unfold height in *; lia).
Qed.

(** ** The checks *)

Section Checks.
Context (check_key : PublicKey -> bool).
Context (scalarmultKey : KeyImage -> KeyImage -> KeyImage).
Context (checkRingSignature : Hash -> KeyImage -> list PublicKey -> list Signature -> bool).
Context (cn_fast_hash : list Z -> list Z).
Context (cn_slow_hash_v0 cn_lite_slow_hash_v1 cn_turtle_lite_slow_hash_v2 : list Z -> list Z).
Context (genesisBlockHash : Hash).
Context (currency : Currency) (upgradeManager : UpgradeManager.t).
Context (points : Points) (now : Z).

#[local] Instance checks_cache : IBlockchainCache Cache := segments_cache currency now.

Abbreviation check := (check_block check_key scalarmultKey checkRingSignature cn_fast_hash
  cn_slow_hash_v0 cn_lite_slow_hash_v1 cn_turtle_lite_slow_hash_v2 genesisBlockHash currency
  upgradeManager points now).
Abbreviation extract := (extractTransactions cn_fast_hash currency).

(** What a successful [check_block] has found. *)
Record checked (cache : Cache) (b : CachedBlock) (raw : RawBlock) (k : CheckedBlock) : Prop := {
  cx_transactions : exists size, extract (Types.transactions raw) 0 = Some (ck_transactions k, size);
  cx_previous : exists s parents, cache = s :: parents /\
    BlockchainCache.getBlockIndex s (previousBlockHash (header (cb_block b))) =
      Some (ck_previousBlockIndex k);
  cx_index : Block.getBlockIndex (cb_block b) = u32 (ck_previousBlockIndex k + 1);
  cx_difficulty : getDifficultyForNextBlock currency cache (ck_previousBlockIndex k) =
    Some (ck_currentDifficulty k);
  cx_state : ck_validatorState k = list_to_set (block_images (ct_transaction <$> ck_transactions k));
  cx_unspent : isInCheckpointZone points (u32 (ck_previousBlockIndex k + 1)) = false ->
    forall ki, ki ∈ ck_validatorState k -> checkIfSpent cache ki (ck_previousBlockIndex k) = false }.

(** The index a block claims is checked. *)
Lemma validateBlock_index (cache : Cache) b p reward :
  validateBlock check_key cn_fast_hash currency upgradeManager cache b now = inr reward ->
  ic_getBlockIndex cache (previousBlockHash (header b)) = Some p ->
  Block.getBlockIndex b = u32 (p + 1).
Proof.
  unfold validateBlock. intros H E. rewrite E in H. revert H. unfold Block.getBlockIndex.
  repeat case_match; try done; intros _; bool_to_prop; congruence.
Qed.

Lemma check_block_sound cache b raw k : check cache b raw = inr k -> checked cache b raw k.
Proof.
  unfold check_block.
  destruct (extractTransactions _ _ _ _) as [[txs size]|] eqn:Ex; [|done].
  destruct (ic_getBlockIndex _ _) as [p|] eqn:Ep; [|done]. destruct (_ <? _); [done|].
  destruct (validateBlock _ _ _ _ _ _ _) as [e|reward] eqn:Ev; [done|].
  destruct (getDifficultyForNextBlock _ _ _) as [d|] eqn:Ed; [|done]. destruct (d =? 0); [done|].
  destruct (check_transaction_hashes _ _); [done|]. destruct (negb _); [done|].
  destruct (validateTransactions _ _ _ _ _ _ _ _ _ _) as [e|[fee state]] eqn:Et; [done|].
  unfold check_reward. destruct (getAlreadyGeneratedCoins _ _); [|done].
  destruct (getLastBlocksSizes _ _ _ _); [|done].
  destruct (getBlockReward _ _ _ _ _ _) as [[rw em]|]; [|done]. destruct (negb _); [done|].
  destruct (check_work _ _ _ _ _ _ _ _); [done|]. intros [= <-].
  apply validateTransactions_images in Et as [-> Hu].
  split; cbn; [by exists size| |by eapply validateBlock_index|done|by rewrite (right_id_L ∅ (∪))|].
  - destruct cache as [|s parents]; [done|]. by exists s, parents.
  - intros Hz ki Hki. apply (Hu Hz). rewrite (right_id_L ∅ (∪)) in Hki.
    by apply elem_of_list_to_set in Hki.
Qed.

Lemma extractTransactions_length raws size txs size' :
  extract raws size = Some (txs, size') -> length raws = length txs.
Proof.
  revert size txs size'. induction raws as [|r raws IH]; intros size txs size'; cbn [extractTransactions].
  { by intros [= <- _]. }
  destruct (_ <? _); [done|]. destruct (CachedTransaction r); [|done]. cbn [mbind option_bind].
  destruct (extractTransactions _ _ raws _) as [[l sz]|] eqn:E; [|done]. intros [= <- _].
  cbn. f_equal. by eapply IH.
Qed.

(** ** What the checks do not look at

    The bounds of the containers, transaction hashes that are distinct and not
    those of transactions below the block, the sum of the difficulties within 64 bits, and
    inside the checkpoint zone the key images.  A block beside another one may have the
    same transactions. *)
Record room (c : Cache) (b : CachedBlock) (raw : RawBlock) : Prop := {
  rm_height : height c + 1 < 2 ^ 32;
  rm_raw : raw_of_block (cb_block b) raw;
  rm_transactions txs size : extract (Types.transactions raw) 0 = Some (txs, size) ->
    Z.of_nat (length txs) + 1 <= 2 ^ 16 /\
    NoDup (cb_baseHash b :: (ct_hash <$> txs)) /\
    (forall t, t ∈ chain_transactions c -> ti_blockIndex t < Block.getBlockIndex (cb_block b) ->
       ti_transactionHash t ∉ cb_baseHash b :: (ct_hash <$> txs)) /\
    (forall a, Z.of_nat (length (chain_outputs c a) + total_outputs (block_transactions b txs)) < 2 ^ 32) /\
    (isInCheckpointZone points (Block.getBlockIndex (cb_block b)) = true ->
     forall ki j, ki ∈ block_images (ct_transaction <$> txs) -> chain_spent c !! ki = Some j ->
       Block.getBlockIndex (cb_block b) <= j);
  rm_work p d : getDifficultyForNextBlock currency c p = Some d ->
    Block.getBlockIndex (cb_block b) = p + 1 -> chain_work (chain_blocks c) + d < 2 ^ 64 }.

Section Checked.
Context (c : Cache) (b : CachedBlock) (raw : RawBlock) (k : CheckedBlock).
Context (Hok : cache_ok c) (Hk : checked c b raw k) (Hr : room c b raw).

Abbreviation p := (ck_previousBlockIndex k).

Lemma checked_previous : 0 <= p < height c.
Proof.
  destruct (cx_previous _ _ _ _ Hk) as (s & parents & -> & E).
  destruct (getBlockIndex_in s parents _ _ Hok E) as [Hp _].
  pose proof (chain_start _ _ Hok) as Es. pose proof (height_nonneg parents).
  rewrite height_cons. lia.
Qed.

Lemma checked_index : Block.getBlockIndex (cb_block b) = p + 1.
Proof.
  rewrite (cx_index _ _ _ _ Hk). apply wrap_small. pose proof checked_previous.
  pose proof (rm_height _ _ _ Hr). split; words; lia.
Qed.

Lemma checked_room :
  length (Types.transactions raw) = length (ck_transactions k) /\
  Z.of_nat (length (ck_transactions k)) + 1 <= 2 ^ 16.
Proof.
  destruct (cx_transactions _ _ _ _ Hk) as [size E]. split; [by eapply extractTransactions_length|].
  by destruct (rm_transactions _ _ _ Hr _ _ E) as [? _].
Qed.

(** The block can be pushed on the chain up to its predecessor. *)
Lemma checked_ready base :
  cb_hash b ∉ bi_blockHash <$> chain_blocks c -> below c p base ->
  ready base b (ck_transactions k) (ck_validatorState k).
Proof.
  intros Hh Hb. pose proof checked_previous as Hp. pose proof checked_index as Hi.
  destruct (cx_transactions _ _ _ _ Hk) as [size E].
  destruct (rm_transactions _ _ _ Hr _ _ E) as (H1 & H2 & H3 & H4 & H5).
  pose proof (bl_height _ _ _ Hb) as Eh. pose proof (rm_height _ _ _ Hr).
  split; [lia|lia| | |done|done| |].
  - rewrite (bl_blocks _ _ _ Hb). intros Hin. apply Hh. apply list_elem_of_fmap in Hin as (x & -> & Hx).
    apply list_elem_of_fmap_2. by eapply subseteq_take.
  - intros ki Hki. destruct (chain_spent base !! ki) as [j|] eqn:Ej; [|done].
    apply (bl_spent _ _ _ Hb) in Ej as [Ej Hj].
    destruct (isInCheckpointZone points (Block.getBlockIndex (cb_block b))) eqn:Ez.
    + rewrite (cx_state _ _ _ _ Hk) in Hki. apply elem_of_list_to_set in Hki.
      specialize (H5 eq_refl ki j Hki Ej). lia.
    + rewrite (cx_index _ _ _ _ Hk) in Ez. pose proof (cx_unspent _ _ _ _ Hk Ez ki Hki) as Hs.
      rewrite checkIfSpent_chain, Ej in Hs by done. by apply Z.leb_gt in Hs; lia.
  - intros t Ht. apply H3; [by apply (bl_transactions _ _ _ Hb)|].
    pose proof (chain_transactions_below _ (bl_ok _ _ _ Hb)) as Hlow. rewrite Forall_forall in Hlow.
    specialize (Hlow t Ht). lia.
  - intros a. pose proof (bl_outputs _ _ _ Hb a). specialize (H4 a).
    unfold block_transactions in H4. lia.
Qed.

(** The chain with the block is as heavy as it should be. *)
Lemma checked_work base c' :
  work_ok currency (chain_blocks c) ->
  (forall x, x ∈ chain_blocks c -> 0 <= bi_cumulativeDifficulty x) ->
  below c p base -> extended base b k raw c' ->
  work_ok currency (chain_blocks c') /\
  (forall x, x ∈ chain_blocks c' -> 0 <= bi_cumulativeDifficulty x) /\
  chain_work (chain_blocks c') = chain_work (chain_blocks base) + ck_currentDifficulty k.
Proof.
  intros Hw Hpos Hb Hex. pose proof checked_previous as Hp. pose proof checked_index as Hi.
  pose proof (cx_difficulty _ _ _ _ Hk) as Hd. pose proof (rm_work _ _ _ Hr _ _ Hd Hi) as Hsum.
  rewrite difficulty_chain in Hd by done. rewrite <- (bl_blocks _ _ _ Hb) in Hd.
  pose proof (getNextDifficulty_fits _ _ _ _ _ _ Hd) as Hfit.
  assert (exists x, last (chain_blocks base) = Some x) as [x Hx].
  { apply last_is_Some. intros E. pose proof (bl_height _ _ _ Hb) as Eh. unfold height in Eh.
    rewrite E in Eh. cbn in Eh. lia. }
  assert (x ∈ chain_blocks c) as Hxc.
  { apply last_Some_elem_of in Hx. rewrite (bl_blocks _ _ _ Hb) in Hx. by eapply subseteq_take. }
  specialize (Hpos x Hxc) as Hx0.
  assert (bi_cumulativeDifficulty x <= chain_work (chain_blocks c)) as Hxw.
  { apply list_elem_of_lookup_1 in Hxc as [i Hxi]. unfold chain_work. rewrite last_lookup.
    pose proof (lookup_lt_Some _ _ _ Hxi).
    destruct (lookup_lt_is_Some_2 (chain_blocks c) (pred (length (chain_blocks c)))) as [y Hy]; [lia|].
    rewrite Hy. eapply (work_mono currency (chain_blocks c) i); [done..|lia]. }
  rewrite (ex_blocks _ _ _ _ _ Hex). set (new := new_block_info _ _ _ _ _ _).
  assert (bi_cumulativeDifficulty new = bi_cumulativeDifficulty x + ck_currentDifficulty k) as Hnew.
  { unfold new, new_block_info, chain_totals. rewrite Hx. cbn. apply wrap_small.
    unfold fits in *. lia. }
  split; [|split].
  - eapply work_ok_snoc; [|exact Hx|exact Hd|apply Hfit|exact Hnew].
    rewrite (bl_blocks _ _ _ Hb). by apply work_ok_take.
  - intros y [Hy|Hy]%elem_of_app.
    + rewrite (bl_blocks _ _ _ Hb) in Hy. apply Hpos. by eapply subseteq_take.
    + apply list_elem_of_singleton in Hy as ->. unfold fits in Hfit. lia.
  - unfold chain_work. by rewrite last_snoc, Hx.
Qed.
End Checked.
End Checks.
