(* ===== verification/CoreSteps.v ===== *)
(** * The core: the state through a block insertion

    The invariant of [Core], the lookups of a block in the tree, the storage of
    the main chain, and the cases of [insert_block]: on top of the main chain,
    on top of another chain with or without a switch, beside an existing
    segment, and inside one. *)

From stdpp Require Import base gmap sets list sorting.
From S2P Require Import Prelude Config Bytes Types Mixins TxExtra Serialization Block Median Upgrade.
From S2P Require Import Checkpoints Currency Difficulty BlockchainCache CacheFacts CacheSteps.
From S2P Require Import Validation TransactionPool PoolCleaner ChainTree Core CoreFacts CorePool.
From S2P Require Import CoreChecks.
Import parameters.

(** ** Finding a block *)

Lemma find_none_all {A} (f : A -> bool) l : find f l = None <-> forall x, x ∈ l -> f x = false.
Proof.
  split.
  - intros H x Hx. apply (find_none f l H). by apply list_elem_of_In.
  - intros H. destruct (find f l) eqn:E; [|done]. apply find_some in E as [Hin Ht].
    rewrite <- list_elem_of_In in Hin. by rewrite (H _ Hin) in Ht.
Qed.

Lemma findAlternative_spec t leaves h :
  match findAlternativeSegmentContainingBlock t leaves h with
  | Some id => exists leaf, leaf ∈ leaves /\ id ∈ chain_ids t leaf /\ segment_has t h id = true
  | None => forall leaf id, leaf ∈ leaves -> id ∈ chain_ids t leaf -> segment_has t h id = false
  end.
Proof.
  induction leaves as [|x leaves IH]; cbn; [by intros leaf id ?%elem_of_nil|].
  destruct (findIndexInChain t x h) as [id|] eqn:E.
  - apply find_some in E as [Hin Ht]. exists x. split; [by left|].
    by rewrite list_elem_of_In.
  - destruct (findAlternativeSegmentContainingBlock _ _ _) as [id|].
    + destruct IH as (leaf & ? & ?). exists leaf. split; [by right|done].
    + intros leaf id [->|Hl]%elem_of_cons Hid; [|by apply (IH leaf)].
      by apply (proj1 (find_none_all _ _) E).
Qed.

(** The search runs over all leaves. *)
Lemma findSegment_spec t leaves h :
  match findSegmentContainingBlock t leaves h with
  | Some id => exists leaf, leaf ∈ leaves /\ id ∈ chain_ids t leaf /\ segment_has t h id = true
  | None => forall leaf id, leaf ∈ leaves -> id ∈ chain_ids t leaf -> segment_has t h id = false
  end.
Proof.
  assert (findSegmentContainingBlock t leaves h = findAlternativeSegmentContainingBlock t leaves h) as ->;
    [|apply findAlternative_spec].
  unfold findSegmentContainingBlock, findMainChainSegmentContainingBlock.
  destruct leaves as [|x leaves]; [done|]. cbn. by destruct (findIndexInChain t x h).
Qed.

Lemma segment_has_node t h id :
  segment_has t h id = true -> exists n, t !! id = Some n /\ h ∈ bi_blockHash <$> blockInfos (segment n).
Proof.
  unfold segment_has. destruct (t !! id) as [n|]; [|done]. intros H. exists n. split; [done|].
  by apply bool_decide_eq_true in H.
Qed.

(** A block that is in no segment of the chain is not in the chain. *)
Lemma segments_without t l h :
  (forall id, id ∈ l -> segment_has t h id = false) ->
  h ∉ bi_blockHash <$> chain_blocks (segments t l).
Proof.
  induction l as [|id l IH]; intros H; [apply not_elem_of_nil|].
  assert (h ∉ bi_blockHash <$> chain_blocks (segments t l)) as Hl.
  { apply IH. intros x Hx. apply H. by right. }
  specialize (H id ltac:(by left)). unfold segment_has in H. cbn. destruct (t !! id) as [n|]; [|done].
  cbn. rewrite fmap_app, not_elem_of_app. split; [done|]. by apply bool_decide_eq_false in H.
Qed.

Lemma segments_with t l h id n :
  id ∈ l -> t !! id = Some n -> h ∈ bi_blockHash <$> blockInfos (segment n) ->
  h ∈ bi_blockHash <$> chain_blocks (segments t l).
Proof.
  intros Hid En Hh. induction l as [|x l IH]; [by apply elem_of_nil in Hid|].
  apply elem_of_cons in Hid as [<-|Hid]; unfold segments in *; cbn [omap list_omap].
  - rewrite En. cbn. rewrite fmap_app. apply elem_of_app. by right.
  - specialize (IH Hid). destruct (t !! x); [|done]. cbn. rewrite fmap_app. apply elem_of_app. by left.
Qed.

(** ** The chain of a segment inside the chain of a leaf *)

Record reaches (c c' : Cache) : Prop := {
  re_blocks : exists more, chain_blocks c' = chain_blocks c ++ more;
  re_storage : exists more, chain_storage c' = chain_storage c ++ more;
  re_transactions t : t ∈ chain_transactions c -> t ∈ chain_transactions c' }.

Lemma reaches_app pre c : reaches c (pre ++ c).
Proof.
  induction pre as [|s pre [[b Hb] [st Hst] Ht]]; [split; [exists []; by rewrite app_nil_r..|done]|].
  split; cbn; [rewrite Hb|rewrite Hst|].
  - eexists. by rewrite <- app_assoc.
  - eexists. by rewrite <- app_assoc.
  - intros t Hin. apply elem_of_app. left. by apply Ht.
Qed.

Lemma node_leaf t leaves id n :
  forest_ok t leaves -> t !! id = Some n ->
  exists leaf pre, leaf ∈ leaves /\ path t leaf = pre ++ path t id /\ (children n <> [] -> pre <> []).
Proof.
  intros H E. destruct (chain_of_cons t leaves id n H E) as (l & Hl & _).
  destruct (leaf_above t id _ (forest_tree _ _ H) Hl) as (leaf & m & pre & Hc & Em & Hm).
  exists leaf, (segments t pre). split; [apply (forest_leaf _ _ H); eauto|].
  rewrite (tree_path _ _ _ Hc), (tree_path _ _ _ Hl). split; [apply omap_app|]. intros Hn.
  destruct (chain_of_head _ _ _ Hc) as (l' & El & _). destruct pre as [|x pre].
  { cbn in El. injection El as -> _. congruence. }
  cbn in El. injection El as -> _. cbn. by rewrite Em.
Qed.

(** A chain of segments on top adds blocks. *)
Lemma chain_blocks_more pre c :
  cache_ok (pre ++ c) -> pre <> [] -> (length (chain_blocks c) < length (chain_blocks (pre ++ c)))%nat.
Proof.
  destruct pre as [|s pre]; [done|]. intros (_ & (_ & Hne & _) & _) _. cbn.
  destruct (reaches_app pre c) as [[more ->] _ _]. rewrite !length_app.
  destruct (blockInfos s); [done|]. cbn. lia.
Qed.

Lemma nodes_raw t leaves leaf :
  forest_ok t leaves -> leaf ∈ leaves -> raw_ok (path t leaf) ->
  Forall (fun id => exists n parents, t !! id = Some n /\ path t id = segment n :: parents /\
    cache_ok (segment n :: parents) /\ raw_ok (segment n :: parents)) (chain_ids t leaf).
Proof.
  intros H Hleaf. destruct (forest_chain t leaves leaf H Hleaf) as [l Hl].
  rewrite (chain_ids_of _ _ _ Hl), (tree_path _ _ _ Hl). clear Hleaf. revert Hl.
  intros Hl. pose proof (tree_cache t (forest_tree _ _ H)) as Hc. induction Hl as [id n E Ep|id n p l E Ep Hl IH].
  - intros Hr. constructor; [|constructor]. exists n, []. pose proof (chain_root t id n E Ep) as Hch.
    rewrite (tree_path _ _ _ Hch). specialize (Hc _ _ Hch). rewrite (segments_cons t id n) in * by done.
    done.
  - intros Hr. pose proof (chain_step t id n p l E Ep Hl) as Hch. specialize (Hc _ _ Hch).
    rewrite (segments_cons t id n) in * by done. constructor.
    + exists n, (segments t l). rewrite (tree_path _ _ _ Hch), (segments_cons t id n) by done. done.
    + apply IH. by eapply raw_ok_parents.
Qed.

(** ** The storage of the main chain *)

Lemma blocks_of_segment s parents :
  cache_ok (s :: parents) ->
  mapM (getBlockByIndex (s :: parents))
    (seqZ (startIndex s) (segment_top s + 1 - startIndex s)) = Some (storage s).
Proof.
  intros Hok. pose proof (chain_start _ _ Hok) as Es. pose proof Hok as (_ & Hb & _).
  pose proof (segment_top_ok _ _ Hb) as Ht. destruct Hb as (_ & _ & Hlen & _).
  rewrite Ht, height_cons, Es. replace (_ + 1 - _) with (Z.of_nat (length (storage s))) by lia.
  apply mapM_Some. apply Forall2_same_length_lookup_2.
  { rewrite length_seqZ. lia. }
  intros i x y Hx Hy. apply lookup_seqZ in Hx as [-> Hi]. cbn [getBlockByIndex].
  rewrite Es, (proj2 (Z.ltb_ge _ _)) by lia. by replace (Z.to_nat _) with i by lia.
Qed.

Lemma switchMainChainStorage_spec s parents st :
  cache_ok (s :: parents) -> startIndex s <= Z.of_nat (length st) < 2 ^ 32 ->
  switchMainChainStorage (startIndex s) (s :: parents) st =
    Some (take (Z.to_nat (startIndex s)) st ++ storage s).
Proof.
  intros Hok Hlen. unfold switchMainChainStorage. pose proof (chain_start _ _ Hok) as Es.
  pose proof (height_nonneg parents). rewrite (wrap_small 32 (Z.of_nat _)) by (split; words; lia).
  rewrite wrap_small by (split; words; lia). rewrite (proj2 (Z.ltb_ge _ _)) by lia.
  cbn [getTopBlockIndex mbind option_bind]. rewrite blocks_of_segment by done.
  cbn [mbind option_bind]. do 3 f_equal. lia.
Qed.

(** ** The invariant *)

Section Steps.
Context (check_key : PublicKey -> bool).
Context (scalarmultKey : KeyImage -> KeyImage -> KeyImage).
Context (checkRingSignature : Hash -> KeyImage -> list PublicKey -> list Signature -> bool).
Context (cn_fast_hash : list Z -> list Z).
Context (currency : Currency) (upgradeManager : UpgradeManager.t).
Context (points : Points) (now : Z).
Context (Hwindow : 0 <= m_rewardBlocksWindow currency).

(** A chain in order: its segments, its difficulties and its blobs. *)
Record good_chain (c : Cache) : Prop := {
  gc_cache : cache_ok c;
  gc_work : work_ok currency (chain_blocks c);
  gc_positive x : x ∈ chain_blocks c -> 0 <= bi_cumulativeDifficulty x;
  gc_hashes : NoDup (bi_blockHash <$> chain_blocks c);
  gc_raw : raw_ok c }.

Lemma good_chain_same c c' : same_chain c c' -> cache_ok c' -> good_chain c -> good_chain c'.
Proof.
  intros Hs Hok [_ H2 H3 H4 H5]. pose proof (sc_blocks _ _ Hs) as Eb. rewrite Eb in *.
  split; [done..|by eapply raw_ok_same].
Qed.

Record core_ok (c : Core) : Prop := {
  co_forest : forest_ok (chainsStorage c) (chainsLeaves c);
  co_good leaf : leaf ∈ chainsLeaves c -> good_chain (path (chainsStorage c) leaf);
  co_heaviest leaf : leaf ∈ chainsLeaves c ->
    chain_work (chain_blocks (path (chainsStorage c) leaf)) <= chain_work (chain_blocks (main_chain c));
  co_set leaf : head (chainsLeaves c) = Some leaf ->
    mainChainSet c = updateMainChainSet (chainsStorage c) leaf;
  co_storage : mainChainStorage c = chain_storage (main_chain c);
  co_pool : core_wrapper_ok (transactionPool c) }.

Lemma core_main c :
  core_ok c -> exists leaf rest, chainsLeaves c = leaf :: rest /\
    main_chain c = path (chainsStorage c) leaf /\ good_chain (main_chain c) /\ main_chain c <> [].
Proof.
  intros H. unfold main_chain. pose proof (forest_main _ _ (co_forest _ H)) as Hne.
  destruct (chainsLeaves c) as [|leaf rest] eqn:E; [done|]. exists leaf, rest.
  assert (leaf ∈ chainsLeaves c) as Hin by (rewrite E; by left).
  split; [done|]. split; [done|]. split; [by apply (co_good _ H)|].
  apply (forest_leaf _ _ (co_forest _ H)) in Hin as (n & En & _).
  by rewrite (path_cons _ _ _ _ (co_forest _ H) En).
Qed.

(** Every segment of the tree ends a chain in order. *)
Lemma node_good c id n :
  core_ok c -> chainsStorage c !! id = Some n -> good_chain (path (chainsStorage c) id).
Proof.
  intros H En. destruct (node_leaf _ _ id n (co_forest _ H) En) as (leaf & pre & Hl & Ep & _).
  destruct (co_good _ H leaf Hl) as [G1 G2 G3 G5 G4]. rewrite Ep in *.
  destruct (reaches_app pre (path (chainsStorage c) id)) as [[m1 E1] [m2 E2] E3].
  assert (cache_ok (path (chainsStorage c) id)) as Hok
    by (apply (forest_path_ok _ _ _ (co_forest _ H)); eauto).
  rewrite E1 in G2, G3, G5. split; [done|by eapply work_ok_prefix| | |].
  - intros x Hx. apply G3, elem_of_app. by left.
  - rewrite fmap_app in G5. by apply NoDup_app in G5 as [? _].
  - eapply raw_ok_below; [exact G1|done| |done|done]. rewrite E2, take_app_length'; [done|].
    rewrite length_chain_storage by done. unfold height. lia.
Qed.

(** [updateBlockMedianSize] changes the median alone. *)
Lemma updateBlockMedianSize_total c :
  cache_ok (main_chain c) -> main_chain c <> [] ->
  exists m, updateBlockMedianSize currency upgradeManager c =
    Some (mkCore (chainsStorage c) (chainsLeaves c) (mainChainSet c) (mainChainStorage c)
            (transactionPool c) m).
Proof.
  intros Hok Hne. unfold updateBlockMedianSize. rewrite top_of_chain by done.
  cbn [mbind option_bind]. unfold getLastBlocksSizes. rewrite getLastUnits_chain; [|done| |done].
  - cbn [mbind option_bind]. by eexists.
  - destruct (main_chain c) as [|s l]; [done|]. destruct Hok as (_ & (_ & Hb & _) & _).
    rewrite height_cons. pose proof (height_nonneg l). destruct (blockInfos s); [done|]. cbn. lia.
Qed.

Lemma chain_work_app l more :
  work_ok currency (l ++ more) -> l <> [] -> chain_work l <= chain_work (l ++ more).
Proof.
  intros H Hne. unfold chain_work. rewrite !last_lookup, length_app.
  destruct (lookup_lt_is_Some_2 l (pred (length l))) as [x Hx]; [destruct l; [done|cbn; lia]|].
  destruct (lookup_lt_is_Some_2 (l ++ more) (pred (length l + length more))) as [y Hy].
  { rewrite length_app. destruct l; [done|]. cbn. lia. }
  rewrite Hx, Hy. eapply (work_mono currency _ (pred (length l))); [exact H| |exact Hy|lia].
  by apply lookup_app_l_Some.
Qed.

(** No transaction of the pool spends what the main chain has spent. *)
Definition pool_fresh (c : Core) : Prop := forall i, i ∈ pending (pool_of c) -> unspent c i.

(** What a block insertion does, by the code it returns. *)
Definition outcome (b : CachedBlock) (raw : RawBlock) (code : AddBlockErrorCode) (c c' : Core) : Prop :=
  (exists leaf, leaf ∈ chainsLeaves c' /\
     bi_blockHash <$> last (chain_blocks (path (chainsStorage c') leaf)) = Some (cb_hash b) /\
     last (chain_storage (path (chainsStorage c') leaf)) = Some raw) /\
  match code with
  | ADDED_TO_MAIN => exists info, chain_blocks (main_chain c') = chain_blocks (main_chain c) ++ [info] /\
      bi_blockHash info = cb_hash b /\ mainChainStorage c' = mainChainStorage c ++ [raw]
  | ADDED_TO_ALTERNATIVE => same_chain (main_chain c) (main_chain c') /\
      transactionPool c' = transactionPool c /\ mainChainStorage c' = mainChainStorage c
  | ADDED_TO_ALTERNATIVE_AND_SWITCHED =>
      chain_work (chain_blocks (main_chain c)) < chain_work (chain_blocks (main_chain c')) /\
      bi_blockHash <$> last (chain_blocks (main_chain c')) = Some (cb_hash b)
  | _ => False
  end.

(** The block is in a chain of the node. *)
Definition in_chain (c : Core) (h : Hash) : Prop :=
  exists leaf, leaf ∈ chainsLeaves c /\ h ∈ bi_blockHash <$> chain_blocks (path (chainsStorage c) leaf).

Record inserted (b : CachedBlock) (raw : RawBlock) (code : AddBlockErrorCode) (c c' : Core) : Prop := {
  in_ok : core_ok c';
  in_outcome : outcome b raw code c c';
  in_keeps h : in_chain c h -> in_chain c' h;
  in_only h : in_chain c' h -> in_chain c h \/ h = cb_hash b;
  in_fresh : pool_fresh c -> beyond_checkpoints points c' -> pool_fresh c' }.

Lemma extended_last c b k raw c' :
  extended c b k raw c' ->
  bi_blockHash <$> last (chain_blocks c') = Some (cb_hash b) /\ last (chain_storage c') = Some raw.
Proof.
  intros [_ -> -> _ _]. rewrite !last_snoc. cbn. unfold new_block_info.
  by destruct (chain_totals _) as [[? ?] ?].
Qed.

(** ** The insertion of a checked block *)

Section Block.
Context (c : Core) (Hc : core_ok c) (b : CachedBlock) (raw : RawBlock) (k : CheckedBlock).
Context (id : nat) (n : Node) (En : chainsStorage c !! id = Some n).
Context (Hk : checked cn_fast_hash currency points (path (chainsStorage c) id) b raw k).
Context (Hr : room cn_fast_hash currency points (path (chainsStorage c) id) b raw).
Context (Hhash : cb_hash b ∉ bi_blockHash <$> chain_blocks (path (chainsStorage c) id)).

Abbreviation t := (chainsStorage c).
Abbreviation leaves := (chainsLeaves c).
Abbreviation p := (ck_previousBlockIndex k).

Lemma block_cache : cache_ok (path t id).
Proof. apply (gc_cache _ (node_good c id n Hc En)). Qed.

Lemma block_ready base : below (path t id) p base -> ready base b (ck_transactions k) (ck_validatorState k).
Proof. eapply checked_ready; [apply block_cache|exact Hk|exact Hr|exact Hhash]. Qed.

(** The new chain is in order. *)
Lemma block_good base c' : below (path t id) p base -> extended base b k raw c' -> good_chain c'.
Proof.
  intros Hb Hex. destruct (node_good c id n Hc En) as [G1 G2 G3 G5 G4].
  destruct (checked_work _ _ _ _ _ _ _ G1 Hk Hr base c' G2 G3 Hb Hex) as (W1 & W2 & _).
  split; [apply Hex|done|done| |].
  { rewrite (ex_blocks _ _ _ _ _ Hex), fmap_app, (bl_blocks _ _ _ Hb). cbn.
    assert (bi_blockHash (new_block_info (take (Z.to_nat (p + 1)) (chain_blocks (path t id))) b
      (length (ck_transactions k)) (ck_cumulativeBlockSize k) (ck_emissionChange k) (ck_currentDifficulty k))
      = cb_hash b) as ->.
    { unfold new_block_info. by destruct (chain_totals _) as [[? ?] ?]. }
    rewrite fmap_take. apply NoDup_app. split; [|split; [|apply NoDup_singleton]].
    - rewrite <- (take_drop (Z.to_nat (p + 1))) in G5. by apply NoDup_app in G5 as [? _].
    - intros h Hh ->%list_elem_of_singleton. apply Hhash. by eapply subseteq_take. }
  destruct (checked_room _ _ _ _ _ _ _ Hk Hr) as [R1 R2].
  eapply raw_ok_extended; [exact Hex|apply Hb|apply Hr|done|done|].
  eapply raw_ok_below; [exact G1|apply Hb| |apply Hb|done].
  rewrite (bl_height _ _ _ Hb). apply Hb.
Qed.

Lemma block_below_top : segment_top (segment n) = p -> below (path t id) p (path t id).
Proof.
  intros Ht. apply below_top; [apply block_cache|]. pose proof block_cache as Hok.
  rewrite (path_cons _ _ _ _ (co_forest _ Hc) En) in *. destruct Hok as (_ & Hb & _).
  rewrite (segment_top_ok _ _ Hb) in Ht. lia.
Qed.

(** A chain that leaves another one before its end is not heavier. *)
Lemma fork_lighter base c' leaf more :
  below (path t id) p base -> extended base b k raw c' -> leaf ∈ leaves ->
  chain_blocks (path t leaf) = chain_blocks base ++ more -> more <> [] ->
  chain_work (chain_blocks c') <= chain_work (chain_blocks (main_chain c)).
Proof.
  intros Hb Hex Hl Em Hm. etrans; [|by apply (co_heaviest _ Hc leaf)].
  pose proof (gc_work _ (block_good base c' Hb Hex)) as Hw'.
  pose proof (gc_work _ (co_good _ Hc leaf Hl)) as Hw. rewrite (ex_blocks _ _ _ _ _ Hex) in *.
  pose proof (checked_previous _ _ _ _ _ _ _ block_cache Hk Hr) as Hp.
  assert (length (chain_blocks base) = S (Z.to_nat p)) as Hlen.
  { pose proof (bl_height _ _ _ Hb) as Eh. unfold height in Eh. lia. }
  assert (chain_blocks base = take (S (Z.to_nat p)) (chain_blocks (path t leaf))) as Eb.
  { by rewrite Em, <- Hlen, take_app_length. }
  rewrite Eb in Hw' |- *. apply (fork_work currency); [done|done|].
  rewrite Em, length_app. destruct more; [done|]. cbn. lia.
Qed.

(** The block is the only one that is new in its chain. *)
Lemma extended_only base c' h :
  below (path t id) p base -> extended base b k raw c' -> h ∈ bi_blockHash <$> chain_blocks c' ->
  in_chain c h \/ h = cb_hash b.
Proof.
  intros Hb Hex. rewrite (ex_blocks _ _ _ _ _ Hex), fmap_app, elem_of_app, (bl_blocks _ _ _ Hb), fmap_take.
  intros [Hh|Hh]; [left|right].
  - apply subseteq_take in Hh. destruct (node_leaf _ _ id n (co_forest _ Hc) En) as (y & pre & Hy & Ep & _).
    exists y. split; [done|]. rewrite Ep. destruct (reaches_app pre (path t id)) as [[more ->] _ _].
    rewrite fmap_app. apply elem_of_app. by left.
  - apply list_elem_of_singleton in Hh as ->. unfold new_block_info. by destruct (chain_totals _) as [[? ?] ?].
Qed.

(** The code of a successful insertion: only a block on top of a leaf can extend
    or replace the main chain, and it replaces it only when it is heavier. *)
Definition expected_code : AddBlockErrorCode :=
  if (segment_top (segment n) =? p) && bool_decide (children n = []) then
    if bool_decide (head leaves = Some id) then ADDED_TO_MAIN
    else if chain_work (chain_blocks (main_chain c)) <?
            chain_work (chain_blocks (path t id)) + ck_currentDifficulty k
         then ADDED_TO_ALTERNATIVE_AND_SWITCHED else ADDED_TO_ALTERNATIVE
  else ADDED_TO_ALTERNATIVE.

(** *** Beside or inside a segment *)

(** The state after a fork, from the facts on the tree. *)
Lemma forked_ok t' leaves' new leaf m base :
  forest_ok t' (leaves' ++ [new]) -> head leaves' = Some leaf ->
  same_chain (main_chain c) (path t' leaf) ->
  (forall x, x ∈ leaves' -> exists y, y ∈ leaves /\ same_chain (path t y) (path t' x)) ->
  (forall y, y ∈ leaves -> exists x, x ∈ leaves' /\ same_chain (path t y) (path t' x)) ->
  below (path t id) p base -> extended base b k raw (path t' new) ->
  chain_work (chain_blocks (path t' new)) <= chain_work (chain_blocks (main_chain c)) ->
  inserted b raw ADDED_TO_ALTERNATIVE c
    (mkCore t' (leaves' ++ [new]) (updateMainChainSet t' leaf) (mainChainStorage c)
       (transactionPool c) m).
Proof.
  intros Hf Hhead Hmain Hold Hkept Hb Hex Hlight. set (c' := mkCore _ _ _ _ _ _).
  assert (main_chain c' = path t' leaf) as Em.
  { unfold main_chain. cbn. destruct leaves' as [|y l]; [done|]. cbn in *. congruence. }
  pose proof Hmain as [S1 S2 S3 _ _]. split; [split| | | |].
  - done.
  - cbn [chainsLeaves chainsStorage]. intros x [Hx|Hx]%elem_of_app.
    + destruct (Hold x Hx) as (y & Hy & Hs). eapply good_chain_same; [exact Hs| |by apply (co_good _ Hc)].
      apply (forest_path_ok t' (leaves' ++ [new])); [done|].
      destruct (proj1 (forest_leaf _ _ Hf x)) as (nx & ? & _); [apply elem_of_app; by left|eauto].
    + apply list_elem_of_singleton in Hx as ->. by eapply block_good.
  - rewrite Em, <- S1. unfold c'. cbn [chainsLeaves chainsStorage]. intros x [Hx|Hx]%elem_of_app.
    + destruct (Hold x Hx) as (y & Hy & Hs). rewrite <- (sc_blocks _ _ Hs). by apply (co_heaviest _ Hc).
    + by apply list_elem_of_singleton in Hx as ->.
  - cbn. intros x Hx. destruct leaves' as [|y l]; [done|]. cbn in *. by simplify_eq.
  - rewrite Em, <- S2. cbn. apply (co_storage _ Hc).
  - apply (co_pool _ Hc).
  - split; [|by rewrite Em]. exists new. split; [apply elem_of_app; right; by left|].
    cbn [chainsStorage]. by eapply extended_last.
  - intros h (y & Hy & Hh). destruct (Hkept y Hy) as (x & Hx & Hs). exists x.
    split; [apply elem_of_app; by left|]. cbn [chainsStorage c']. by rewrite <- (sc_blocks _ _ Hs).
  - intros h (x & Hx & Hh). cbn [chainsStorage c'] in Hh. apply elem_of_app in Hx as [Hx|Hx].
    + left. destruct (Hold x Hx) as (y & Hy & Hs). exists y. split; [done|]. by rewrite (sc_blocks _ _ Hs).
    + apply list_elem_of_singleton in Hx as ->. by eapply extended_only.
  - intros Hpf _ i Hi ki Hki. rewrite Em, <- S3. by apply (Hpf i).
Qed.

Lemma insert_beside :
  segment_top (segment n) = p -> children n <> [] ->
  exists c1 c', fork c t leaves id b k raw = Some c1 /\
    updateBlockMedianSize currency upgradeManager c1 = Some c' /\
    inserted b raw ADDED_TO_ALTERNATIVE c c'.
Proof.
  intros Ht Hch. pose proof (block_below_top Ht) as Hb.
  destruct (insert_fork b k raw c t leaves id n (co_forest _ Hc) En Hch (block_ready _ Hb)
    (bl_height _ _ _ Hb)) as (t' & new & leaf & Ef & Hhead & Hf & Hnew & Hex & Hold).
  destruct (core_main c Hc) as (leaf0 & rest & El & Em & Gm & Hne).
  rewrite El in Hhead. cbn in Hhead. injection Hhead as ->.
  assert (is_Some (t !! leaf)) as Hleaf.
  { destruct (proj1 (forest_leaf _ _ (co_forest _ Hc) leaf)) as (nl & ? & _); [rewrite El; by left|eauto]. }
  assert (inserted b raw ADDED_TO_ALTERNATIVE c (mkCore t' (leaves ++ [new]) (updateMainChainSet t' leaf)
    (mainChainStorage c) (transactionPool c) (blockMedianSize c))) as Hins.
  { assert (forall x, x ∈ leaves -> exists y, y ∈ leaves /\ same_chain (path t y) (path t' x)) as Hsame.
    { intros x Hx. exists x. split; [done|]. rewrite Hold; [done|].
      destruct (proj1 (forest_leaf _ _ (co_forest _ Hc) x) Hx) as (nx & ? & _). eauto. }
    eapply forked_ok; [done|by rewrite El| |exact Hsame| |exact Hb|exact Hex|].
    - rewrite Em, (Hold leaf Hleaf). done.
    - intros x Hx. exists x. split; [done|]. rewrite Hold; [done|].
      destruct (proj1 (forest_leaf _ _ (co_forest _ Hc) x) Hx) as (nx & ? & _). eauto.
    - destruct (node_leaf _ _ id n (co_forest _ Hc) En) as (y & pre & Hy & Ep & Hpre).
      specialize (Hpre Hch). destruct (reaches_app pre (path t id)) as [[more E] _ _].
      eapply (fork_lighter _ _ y more Hb Hex Hy); [by rewrite Ep|]. intros ->.
      pose proof (gc_cache _ (co_good _ Hc y Hy)) as Hoky. rewrite Ep in Hoky.
      pose proof (chain_blocks_more _ _ Hoky Hpre) as Hlt. rewrite E, app_nil_r in Hlt. lia. }
  set (c1 := mkCore _ _ _ _ _ _) in Hins. pose proof (in_ok _ _ _ _ _ Hins) as Hc1.
  destruct (core_main c1 Hc1) as (_ & _ & _ & _ & G1 & Hne1).
  destruct (updateBlockMedianSize_total c1 (gc_cache _ G1) Hne1) as [m Eu].
  exists c1. eexists. split; [exact Ef|]. split; [exact Eu|].
  destruct Hins as [[] ? ? ? ?]. split; [by split|done..].
Qed.

Lemma block_inside :
  segment_top (segment n) <> p ->
  startIndex (segment n) < p + 1 < startIndex (segment n) + Z.of_nat (length (blockInfos (segment n))).
Proof.
  intros Ht. pose proof block_cache as Hok. pose proof (cx_previous _ _ _ _ _ _ _ Hk) as Hp.
  rewrite (path_cons _ _ _ _ (co_forest _ Hc) En) in *. destruct Hp as (s & parents & E & Hi).
  injection E as <- <-. destruct (getBlockIndex_in _ _ _ _ Hok Hi) as [Hpi _].
  pose proof (chain_start _ _ Hok) as Es. destruct Hok as (_ & Hb & _).
  rewrite (segment_top_ok _ _ Hb), height_cons in Ht. lia.
Qed.

Lemma insert_inside :
  segment_top (segment n) <> p ->
  exists c', add_after_split c id b k raw = Some (ADDED_TO_ALTERNATIVE, c') /\
    inserted b raw ADDED_TO_ALTERNATIVE c c'.
Proof.
  intros Ht. pose proof (block_inside Ht) as Hp.
  destruct (insert_split b k raw c t leaves id n p (co_forest _ Hc) En eq_refl Hp block_ready)
    as (t' & u & leaves1 & new & leaf & base & c' & E & -> & -> & Hhead & Hf & Hb & Hex & Hold).
  assert (mkCore t leaves (mainChainSet c) (mainChainStorage c) (transactionPool c) (blockMedianSize c) = c)
    as Eta by (by destruct c).
  rewrite Eta in E. eexists. split; [exact E|].
  destruct (core_main c Hc) as (leaf0 & rest & El & Em & Gm & Hne).
  rewrite El in Hhead. cbn in Hhead. injection Hhead as <-.
  eapply forked_ok; [done|by rewrite El| | | |exact Hb|exact Hex|].
  - rewrite Em. apply Hold. rewrite El. by left.
  - intros x (y & -> & Hy)%list_elem_of_fmap. exists y. split; [done|by apply Hold].
  - intros y Hy. eexists. split; [by apply list_elem_of_fmap_2|by apply Hold].
  - destruct (node_leaf _ _ id n (co_forest _ Hc) En) as (y & pre & Hy & Ep & _).
    destruct (reaches_app pre (path t id)) as [[more Em'] _ _].
    eapply (fork_lighter _ _ y (drop (Z.to_nat (p + 1)) (chain_blocks (path t id)) ++ more) Hb Hex Hy).
    + rewrite Ep, Em', (bl_blocks _ _ _ Hb), app_assoc. by rewrite take_drop.
    + intros [Hd _]%app_eq_nil. apply (f_equal length) in Hd. rewrite length_drop in Hd.
      rewrite (path_cons _ _ _ _ (co_forest _ Hc) En) in Hd.
      pose proof block_cache as Hok. rewrite (path_cons _ _ _ _ (co_forest _ Hc) En) in Hok.
      pose proof (chain_start _ _ Hok) as Es. cbn [chain_blocks] in Hd. rewrite length_app in Hd.
      unfold height in Es. cbn in Hd. lia.
Qed.

(** *** On top of a leaf *)

(** The chains after a push on the leaf [id]. *)
Lemma pushed_good t' m :
  forest_ok t' leaves -> below (path t id) p (path t id) -> extended (path t id) b k raw (path t' id) ->
  (forall x, x <> id -> is_Some (t !! x) -> path t' x = path t x) ->
  m ∈ leaves -> good_chain (path t' m).
Proof.
  intros Hf Hb Hex Hold Hm. destruct (decide (m = id)) as [->|Hne]; [by eapply block_good|].
  rewrite Hold; [by apply (co_good _ Hc)|done|].
  destruct (proj1 (forest_leaf _ _ (co_forest _ Hc) m) Hm) as (nm & ? & _). eauto.
Qed.

Lemma pushed_keeps t' m h :
  extended (path t id) b k raw (path t' id) -> (forall x, x <> id -> is_Some (t !! x) -> path t' x = path t x) ->
  m ∈ leaves -> h ∈ bi_blockHash <$> chain_blocks (path t m) -> h ∈ bi_blockHash <$> chain_blocks (path t' m).
Proof.
  intros Hex Hold Hm Hh. destruct (decide (m = id)) as [->|Hne].
  - rewrite (ex_blocks _ _ _ _ _ Hex), fmap_app. apply elem_of_app. by left.
  - rewrite Hold; [done..|]. destruct (proj1 (forest_leaf _ _ (co_forest _ Hc) m) Hm) as (nm & ? & _). eauto.
Qed.

Lemma pushed_only t' m h :
  below (path t id) p (path t id) -> extended (path t id) b k raw (path t' id) ->
  (forall x, x <> id -> is_Some (t !! x) -> path t' x = path t x) ->
  m ∈ leaves -> h ∈ bi_blockHash <$> chain_blocks (path t' m) -> in_chain c h \/ h = cb_hash b.
Proof.
  intros Hb Hex Hold Hm Hh. destruct (decide (m = id)) as [->|Hne]; [by eapply extended_only|].
  left. exists m. split; [done|]. rewrite Hold in Hh; [done..|].
  destruct (proj1 (forest_leaf _ _ (co_forest _ Hc) m) Hm) as (nm & ? & _). eauto.
Qed.

Lemma pushed_work c' :
  good_chain c' -> extended (path t id) b k raw c' ->
  chain_work (chain_blocks (path t id)) <= chain_work (chain_blocks c').
Proof.
  intros G Hex. pose proof (gc_work _ G) as Hw. rewrite (ex_blocks _ _ _ _ _ Hex) in *.
  apply chain_work_app; [done|]. pose proof (checked_previous _ _ _ _ _ _ _ block_cache Hk Hr) as Hp.
  intros E. unfold height in Hp. rewrite E in Hp. cbn in Hp. lia.
Qed.

Lemma insert_on_main :
  segment_top (segment n) = p -> children n = [] -> head leaves = Some id ->
  exists c', add_to_main currency upgradeManager c id b k raw = Some (ADDED_TO_MAIN, c') /\
    inserted b raw ADDED_TO_MAIN c c'.
Proof.
  intros Ht Hch Hhead. pose proof (block_below_top Ht) as Hb.
  destruct (insert_leaf b k raw t leaves id n (co_forest _ Hc) En Hch (block_ready _ Hb))
    as (t' & Ep & Hf & Hex & Hold & Hids & _).
  destruct (core_main c Hc) as (leaf & rest & El & Em & Gm & Hne). rewrite El in Hhead.
  injection Hhead as ->. assert (id ∈ leaves) as Hid by (rewrite El; by left).
  pose proof (pushed_good t' id Hf Hb Hex Hold Hid) as Gid. pose proof (pushed_work _ Gid Hex) as Hw.
  unfold add_to_main. rewrite Ep. cbn [mbind option_bind]. set (c1 := mkCore t' _ _ _ _ _).
  assert (main_chain c1 = path t' id) as Em1 by (unfold main_chain, c1; cbn; by rewrite El).
  destruct (updateBlockMedianSize_total c1) as [m ->]; [rewrite Em1; apply Gid| |].
  { rewrite Em1. destruct (proj2 (Hids id (ex_intro _ n En))) as [n' En'].
    by rewrite (path_cons _ _ _ _ Hf En'). }
  cbn [mbind option_bind]. set (c2 := mkCore _ _ _ _ _ m).
  destruct (remove_transactions_spec c2 (ck_transactions k) (co_pool _ Hc)) as [Hw3 Hp3].
  set (c3 := remove_transactions c2 _) in *.
  destruct (actualize_lite_spec currency (ck_validatorState k) c3 (getTransactionHashes (pool_of c3)) Hw3)
    as (c4 & E4 & Hs4 & Hw4 & Hp4); [apply (pool_hashes _ (wrapper_pool _ _ _ Hw3))|done|].
  unfold actualizePoolTransactionsLite. fold (pool_of c3). rewrite E4. cbn [mbind option_bind].
  exists c4. split; [done|].
  assert (c4 = set_pool c2 (transactionPool c4)) as E by exact Hs4.
  assert (main_chain c4 = path t' id) as Em4 by (rewrite E; exact Em1). split; [split| | | |].
  - rewrite E. exact Hf.
  - rewrite E. intros x Hx. by apply pushed_good.
  - rewrite Em4. rewrite E. cbn [chainsLeaves chainsStorage set_pool]. intros x Hx.
    change (chain_work (chain_blocks (path t' x)) <= chain_work (chain_blocks (path t' id))).
    destruct (decide (x = id)) as [->|Hxi]; [done|]. rewrite Hold; [|done|].
    + etrans; [by apply (co_heaviest _ Hc)|]. by rewrite Em.
    + destruct (proj1 (forest_leaf _ _ (co_forest _ Hc) x) Hx) as (nx & ? & _). eauto.
  - rewrite E. cbn. intros x Hx. unfold updateMainChainSet. pose proof (co_set _ Hc x Hx) as ->.
    rewrite El in Hx. injection Hx as <-. unfold updateMainChainSet.
    by rewrite (proj1 (Hids id (ex_intro _ n En))).
  - rewrite Em4, (ex_storage _ _ _ _ _ Hex), E. cbn. by rewrite (co_storage _ Hc), Em.
  - exact Hw4.
  - split.
    + exists id. rewrite E. split; [done|]. by eapply (extended_last (path t id)).
    + rewrite Em4, Em, E. eexists. split; [apply (ex_blocks _ _ _ _ _ Hex)|]. split; [|done].
      unfold new_block_info. by destruct (chain_totals _) as [[? ?] ?].
  - intros h (m' & Hm & Hh). exists m'. rewrite E. split; [done|]. by eapply pushed_keeps.
  - intros h (m' & Hm & Hh). rewrite E in Hm, Hh. by eapply (pushed_only t').
  - intros Hpf _ i Hi ki Hki. rewrite Em4, (ex_spent _ _ _ _ _ Hex).
    destruct (Hp4 i Hi) as [Hi3 Hst]. apply lookup_union_None. split.
    + rewrite <- Em. apply (Hpf i); [|done]. by apply Hp3.
    + apply lookup_gset_to_gmap_None. apply Hst; [|done]. by apply list_elem_of_fmap_2.
Qed.

(** The cumulative difficulty the code compares. *)
Lemma top_work t' leaves' x nx :
  forest_ok t' leaves' -> t' !! x = Some nx ->
  topCumulativeDifficulty (segment nx) = Some (chain_work (chain_blocks (path t' x))).
Proof.
  intros Hf Ex. assert (cache_ok (path t' x)) as Hok by (eapply forest_path_ok; eauto).
  rewrite (path_cons _ _ _ _ Hf Ex) in *. destruct Hok as (_ & (_ & Hne & _) & _).
  unfold topCumulativeDifficulty, chain_work. cbn [chain_blocks]. rewrite last_app.
  destruct (last (blockInfos (segment nx))) eqn:E; [done|]. by apply last_None in E.
Qed.

(** A block on top of another chain that stays lighter. *)
Lemma alternative_ok t' :
  below (path t id) p (path t id) -> extended (path t id) b k raw (path t' id) -> forest_ok t' leaves ->
  (forall x, x <> id -> is_Some (t !! x) -> path t' x = path t x) ->
  (forall x, is_Some (t !! x) -> chain_ids t' x = chain_ids t x /\ is_Some (t' !! x)) ->
  children n = [] -> head leaves <> Some id ->
  chain_work (chain_blocks (path t' id)) <= chain_work (chain_blocks (main_chain c)) ->
  inserted b raw ADDED_TO_ALTERNATIVE c
    (mkCore t' leaves (mainChainSet c) (mainChainStorage c) (transactionPool c) (blockMedianSize c)).
Proof.
  intros Hb Hex Hf Hold Hids Hch Hhead Hw. set (c' := mkCore _ _ _ _ _ _).
  destruct (core_main c Hc) as (leaf & rest & El & Em & Gm & Hne). rewrite El in Hhead.
  assert (leaf <> id) as Hli by (intros ->; done).
  assert (leaf ∈ leaves) as Hleaf by (rewrite El; by left).
  assert (forall x, x ∈ leaves -> is_Some (t !! x)) as Hdom.
  { intros x Hx. destruct (proj1 (forest_leaf _ _ (co_forest _ Hc) x) Hx) as (nx & ? & _). eauto. }
  assert (main_chain c' = main_chain c) as Em'.
  { unfold main_chain, c'. cbn. rewrite El. apply Hold; [done|by apply Hdom]. }
  split; [split| | | |].
  - done.
  - intros x Hx. by apply pushed_good.
  - rewrite Em'. intros x Hx. change (chainsStorage c') with t'.
    destruct (decide (x = id)) as [->|Hxi]; [done|].
    rewrite Hold; [by apply (co_heaviest _ Hc)|done|by apply Hdom].
  - intros x Hx. change (mainChainSet c') with (mainChainSet c). change (chainsStorage c') with t'.
    change (head leaves = Some x) in Hx. rewrite (co_set _ Hc x Hx). unfold updateMainChainSet.
    rewrite El in Hx. injection Hx as <-. by rewrite (proj1 (Hids leaf (Hdom _ Hleaf))).
  - rewrite Em'. apply (co_storage _ Hc).
  - apply (co_pool _ Hc).
  - split; [|by rewrite Em']. exists id. split; [apply (forest_leaf _ _ (co_forest _ Hc)); eauto|].
    by eapply (extended_last (path t id)).
  - intros h (m & Hm & Hh). exists m. split; [done|]. by eapply pushed_keeps.
  - intros h (m & Hm & Hh). by eapply (pushed_only t').
  - intros Hpf _ i Hi ki Hki. rewrite Em'. by apply (Hpf i).
Qed.

(** *** A switch of the main chain *)

Lemma swap_leaves_spec (l : list nat) x y i :
  head l = Some x -> x <> y -> list_find (fun z => z = y) l = Some (i, y) ->
  exists l', swap_leaves l i = Some (y :: l') /\ y :: l' ≡ₚ l.
Proof.
  intros Hx Hne Hf. apply list_find_Some in Hf as (Hi & _ & _).
  destruct l as [|x' l]; [done|]. injection Hx as ->. destruct i as [|i]; [cbn in Hi; congruence|].
  exists (<[i := x]> l). split; [unfold swap_leaves; cbn [head mbind option_bind]; by rewrite Hi|].
  change (l !! i = Some y) in Hi.
  pose proof (take_drop_middle l i y Hi) as El. pose proof (lookup_lt_Some _ _ _ Hi) as Hlt.
  rewrite insert_take_drop by done. rewrite <- El at 3. rewrite !Permutation_middle.
  rewrite <- !Permutation_middle. apply Permutation_swap.
Qed.

Lemma forest_permutation t' l l' : l ≡ₚ l' -> forest_ok t' l -> forest_ok t' l'.
Proof.
  intros Hp [H1 H2 H3 H4]. split; [done|by rewrite <- Hp|intros x; by rewrite <- Hp|].
  intros ->. by apply Permutation_nil_r in Hp.
Qed.

(** The chain of a segment of the main chain is stored. *)
Lemma main_prefix q :
  q ∈ mainChainSet c -> exists more, mainChainStorage c = chain_storage (path t q) ++ more.
Proof.
  destruct (core_main c Hc) as (leaf & rest & El & Em & _). intros Hq.
  rewrite (co_set _ Hc leaf) in Hq by (by rewrite El). apply elem_of_list_to_set in Hq.
  destruct (forest_chain t leaves leaf (co_forest _ Hc)) as [l Hl]; [rewrite El; by left|].
  rewrite (chain_ids_of _ _ _ Hl) in Hq. apply list_elem_of_split in Hq as (l1 & l2 & ->).
  pose proof (chain_of_suffix _ _ _ q l1 l2 Hl eq_refl) as Hs.
  rewrite (co_storage _ Hc), Em, (tree_path _ _ _ Hl), (tree_path _ _ _ Hs).
  unfold segments. rewrite omap_app. apply re_storage, reaches_app.
Qed.

Lemma switch_storage t' s' q :
  parent n = Some q -> q ∈ mainChainSet c -> path t' id = s' :: parent_path t n ->
  cache_ok (path t' id) ->
  switchMainChainStorage (startIndex s') (path t' id) (mainChainStorage c) =
    Some (chain_storage (path t' id)).
Proof.
  intros Hq Hin Ep Hok. destruct (main_prefix q Hin) as [more Hm]. rewrite Ep in *.
  unfold parent_path in *. rewrite Hq in *. pose proof (chain_start _ _ Hok) as Es.
  assert (length (chain_storage (path t q)) = Z.to_nat (height (path t q))) as Hl.
  { destruct Hok as [Hq' _]. rewrite length_chain_storage by done. unfold height. lia. }
  rewrite switchMainChainStorage_spec; [|done|].
  - f_equal. cbn [chain_storage]. f_equal. rewrite Es, Hm. by rewrite take_app_length'.
  - pose proof (height_nonneg (path t q)). split; [rewrite Es, Hm, length_app; lia|].
    destruct (core_main c Hc) as (leaf & rest & El & Em & Gm & Hne). rewrite (co_storage _ Hc).
    rewrite length_chain_storage by apply Gm. fold (height (main_chain c)).
    pose proof (gc_cache _ Gm) as Hm'. destruct (main_chain c) as [|s l]; [done|].
    by destruct Hm' as (_ & (_ & _ & _ & ?) & _).
Qed.

(** The pool after a switch: cleared of the new block, checked again, and
    joined by the transactions of the chain that was left. *)
Lemma switch_pool c2 txs old :
  cache_ok (main_chain c2) -> main_chain c2 <> [] -> core_wrapper_ok (transactionPool c2) ->
  forest_ok (chainsStorage c2) (chainsLeaves c2) -> old ∈ chainsLeaves c2 ->
  raw_ok (path (chainsStorage c2) old) ->
  exists c3 c4, actualizePoolTransactions check_key scalarmultKey checkRingSignature cn_fast_hash
      currency points now (remove_transactions c2 txs) = Some c3 /\
    copyTransactionsToPool check_key scalarmultKey checkRingSignature cn_fast_hash
      currency points now c3 old = Some c4 /\
    c4 = set_pool c2 (transactionPool c4) /\ core_wrapper_ok (transactionPool c4) /\
    (forall i, i ∈ pending (pool_of c4) -> beyond_checkpoints points c4 -> unspent c4 i).
Proof.
  intros Hok Hne Hw Hf Hold Hraw.
  destruct (remove_transactions_spec c2 txs Hw) as [Hw' _].
  destruct (actualizePoolTransactions_spec check_key scalarmultKey checkRingSignature cn_fast_hash
    currency points now c2 Hok Hne (remove_transactions c2 txs) (set_pool_same c2 _) Hw')
    as (c3 & E3 & Hs3 & Hw3 & Hp3).
  assert (chainsStorage c3 = chainsStorage c2) as Est by (by rewrite Hs3).
  destruct (copy_loop_step check_key scalarmultKey checkRingSignature cn_fast_hash
    currency points now c2 Hok Hne (chain_ids (chainsStorage c3) old) c3 Hs3 Hw3)
    as (c4 & E4 & [Hs4 Hw4 Hp4]).
  { rewrite Est. by eapply nodes_raw. }
  exists c3, c4. split; [done|]. split; [done|].
  pose proof (same_but_pool_trans _ _ _ Hs3 Hs4) as Hs. split; [done|]. split; [done|].
  intros i Hi. pose proof (same_but_pool_main _ _ Hs) as E. pose proof (same_but_pool_main _ _ Hs3) as E'.
  unfold beyond_checkpoints, unspent in *. rewrite E. rewrite E' in Hp4.
  destruct (Hp4 i Hi) as [Hi3|?]; [|done]. by apply Hp3.
Qed.

(** The state after a switch. *)
Lemma switched_ok t' c' l' :
  below (path t id) p (path t id) -> extended (path t id) b k raw (path t' id) -> forest_ok t' leaves ->
  (forall x, x <> id -> is_Some (t !! x) -> path t' x = path t x) ->
  chain_work (chain_blocks (main_chain c)) < chain_work (chain_blocks (path t' id)) ->
  chainsStorage c' = t' -> chainsLeaves c' = id :: l' -> id :: l' ≡ₚ leaves ->
  mainChainSet c' = updateMainChainSet t' id -> mainChainStorage c' = chain_storage (path t' id) ->
  core_wrapper_ok (transactionPool c') ->
  (beyond_checkpoints points c' -> pool_fresh c') ->
  inserted b raw ADDED_TO_ALTERNATIVE_AND_SWITCHED c c'.
Proof.
  intros Hb Hex Hf Hold Hw Et El Hperm Ems Est Hp Hfr.
  assert (main_chain c' = path t' id) as Em by (unfold main_chain; by rewrite El, Et).
  assert (forall x, x ∈ chainsLeaves c' -> x ∈ leaves) as Hsub by (intros x; by rewrite El, Hperm).
  split; [split| | | |done].
  - rewrite Et, El. by eapply forest_permutation.
  - rewrite Et. intros x Hx. by apply pushed_good, Hsub.
  - rewrite Em, Et. intros x Hx%Hsub. destruct (decide (x = id)) as [->|Hxi]; [done|].
    rewrite Hold; [|done|].
    + etrans; [by apply (co_heaviest _ Hc)|lia].
    + destruct (proj1 (forest_leaf _ _ (co_forest _ Hc) x) Hx) as (nx & ? & _). eauto.
  - rewrite El, Ems, Et. by intros x [= <-].
  - by rewrite Em.
  - done.
  - split; [|rewrite Em; split; [done|by eapply (extended_last (path t id))]].
    exists id. rewrite El, Et. split; [by left|]. by eapply (extended_last (path t id)).
  - intros h (m & Hm & Hh). exists m. rewrite El, Et. split; [by rewrite Hperm|]. by eapply pushed_keeps.
  - intros h (m & Hm & Hh). rewrite Et in Hh. eapply (pushed_only t'); eauto.
Qed.

Lemma switch_ok t' s' q :
  below (path t id) p (path t id) -> extended (path t id) b k raw (path t' id) -> forest_ok t' leaves ->
  (forall x, x <> id -> is_Some (t !! x) -> path t' x = path t x) ->
  t' !! id = Some (set_segment s' n) -> path t' id = s' :: parent_path t n ->
  children n = [] -> head leaves <> Some id -> parent n = Some q -> q ∈ mainChainSet c ->
  chain_work (chain_blocks (main_chain c)) < chain_work (chain_blocks (path t' id)) ->
  exists c', switch_chain check_key scalarmultKey checkRingSignature cn_fast_hash currency
      upgradeManager points now
      (mkCore t' leaves (mainChainSet c) (mainChainStorage c) (transactionPool c) (blockMedianSize c))
      id (ck_transactions k) = Some c' /\
    inserted b raw ADDED_TO_ALTERNATIVE_AND_SWITCHED c c'.
Proof.
  intros Hb Hex Hf Hold En' Ep Hch Hhead Hq Hin Hw. set (c1 := mkCore _ _ _ _ _ _).
  destruct (core_main c Hc) as (leaf & rest & El & Em & Gm & Hne).
  assert (id ∈ leaves) as Hid by (apply (forest_leaf _ _ (co_forest _ Hc)); eauto).
  assert (head leaves = Some leaf) as Ehead by (by rewrite El).
  assert (leaf <> id) as Hli by congruence.
  assert (leaf ∈ leaves) as Hleaf by (rewrite El; by left).
  destruct (list_find (fun z => z = id) leaves) as [[i y]|] eqn:Ei.
  2:{ apply list_find_None in Ei. rewrite Forall_forall in Ei. by destruct (Ei id Hid). }
  assert (y = id) as -> by (by apply list_find_Some in Ei as (_ & -> & _)).
  destruct (swap_leaves_spec leaves leaf id i Ehead Hli Ei) as (l' & Esw & Hperm).
  pose proof (pushed_good t' id Hf Hb Hex Hold Hid) as Gid.
  unfold switch_chain. change (chainsLeaves c1) with leaves. rewrite Ei. cbn [mbind option_bind].
  rewrite Ehead. cbn [mbind option_bind]. rewrite Esw. cbn [mbind option_bind].
  set (c2 := mkCore _ _ _ _ _ _). assert (main_chain c2 = path t' id) as Em2 by done.
  assert (path t' id <> []) as Hne' by (by rewrite Ep).
  destruct (updateBlockMedianSize_total c2) as [m ->]; [rewrite Em2; apply Gid|by rewrite Em2|].
  cbn [mbind option_bind]. set (c3 := mkCore _ _ _ _ _ m).
  assert (forest_ok t' (id :: l')) as Hf' by (by eapply forest_permutation).
  destruct (switch_pool c3 (ck_transactions k) leaf) as (c4 & c5 & -> & E5 & Es5 & Hw5 & Hp5).
  { apply Gid. } { done. } { apply (co_pool _ Hc). } { exact Hf'. }
  { change (leaf ∈ id :: l'). by rewrite Hperm. } { apply (pushed_good t' leaf Hf Hb Hex Hold Hleaf). }
  cbn [mbind option_bind]. rewrite E5. cbn [mbind option_bind].
  assert (chainsStorage c5 = t') as -> by (by rewrite Es5).
  assert (mainChainStorage c5 = mainChainStorage c) as -> by (by rewrite Es5).
  rewrite En'. cbn [mbind option_bind]. change (segment (set_segment s' n)) with s'.
  rewrite (switch_storage t' s' q Hq Hin Ep (gc_cache _ Gid)).
  cbn [mbind option_bind]. eexists. split; [done|].
  assert (main_chain c5 = path t' id) as Em5 by (by rewrite Es5).
  eapply (switched_ok t' _ l'); try done; cbn [chainsLeaves mainChainSet]; [by rewrite Es5..|].
  set (c6 := mkCore _ _ _ _ _ _).
  assert (main_chain c6 = path t' id) as Em6 by (unfold main_chain, c6; cbn; by rewrite Es5).
  intros Hz j Hj. unfold beyond_checkpoints, unspent in *. rewrite Em6 in Hz |- *.
  rewrite Em5 in Hp5. by apply Hp5.
Qed.

Lemma insert_on_alternative :
  segment_top (segment n) = p -> children n = [] -> head leaves <> Some id ->
  (expected_code = ADDED_TO_ALTERNATIVE_AND_SWITCHED -> exists q, parent n = Some q /\ q ∈ mainChainSet c) ->
  exists c', add_to_alternative check_key scalarmultKey checkRingSignature cn_fast_hash currency
      upgradeManager points now c id b k raw = Some (expected_code, c') /\
    inserted b raw expected_code c c'.
Proof.
  intros Ht Hch Hhead Hfork. pose proof (block_below_top Ht) as Hb.
  destruct (insert_leaf b k raw t leaves id n (co_forest _ Hc) En Hch (block_ready _ Hb))
    as (t' & Ep & Hf & Hex & Hold & Hids & s' & En' & Epath).
  destruct (core_main c Hc) as (leaf & rest & El & Em & Gm & Hne).
  assert (head leaves = Some leaf) as Ehead by (by rewrite El).
  assert (leaf ∈ leaves) as Hleaf by (rewrite El; by left).
  destruct (proj1 (forest_leaf _ _ Hf leaf) Hleaf) as (nl & Enl & _).
  unfold add_to_alternative. rewrite Ep, Ehead. cbn [mbind option_bind].
  rewrite Enl. cbn [mbind option_bind]. rewrite En'. cbn [mbind option_bind].
  rewrite (top_work t' leaves id _ Hf En'). cbn [mbind option_bind].
  rewrite (top_work t' leaves leaf _ Hf Enl). cbn [mbind option_bind].
  rewrite (Hold leaf), <- Em.
  2:{ congruence. } 2:{ destruct (proj1 (forest_leaf _ _ (co_forest _ Hc) leaf) Hleaf) as (? & ? & _). eauto. }
  destruct (node_good c id n Hc En) as [G1 G2 G3 _ _].
  destruct (checked_work _ _ _ _ _ _ _ G1 Hk Hr _ _ G2 G3 Hb Hex) as (_ & _ & Ew).
  unfold expected_code in *.
  rewrite <- Ew, (proj2 (Z.eqb_eq _ _) Ht), bool_decide_true, bool_decide_false in * by done.
  cbn [andb] in *. destruct (_ <? _) eqn:Elt.
  - apply Z.ltb_lt in Elt. destruct (Hfork eq_refl) as (q & Hq & Hin).
    destruct (switch_ok t' s' q Hb Hex Hf Hold En' Epath Hch Hhead Hq Hin Elt) as (c' & Es & Hins).
    exists c'. split; [|exact Hins]. by rewrite Es.
  - apply Z.ltb_ge in Elt. eexists. split; [done|].
    by apply (alternative_ok t' Hb Hex Hf Hold Hids Hch Hhead).
Qed.

(** Every case. *)
Lemma insert_block_ok :
  (expected_code = ADDED_TO_ALTERNATIVE_AND_SWITCHED -> exists q, parent n = Some q /\ q ∈ mainChainSet c) ->
  exists c', insert_block check_key scalarmultKey checkRingSignature cn_fast_hash currency
      upgradeManager points now c id b k raw = Some (expected_code, c') /\
    inserted b raw expected_code c c'.
Proof.
  intros Hforks. unfold insert_block. rewrite En. cbn [mbind option_bind].
  destruct (_ =? _) eqn:Ht; [apply Z.eqb_eq in Ht; destruct (children n) as [|ch cs] eqn:Hch|].
  - case_bool_decide as Hh; [|by apply insert_on_alternative; auto].
    assert (expected_code = ADDED_TO_MAIN) as ->.
    { unfold expected_code. by rewrite (proj2 (Z.eqb_eq _ _) Ht), !bool_decide_true. }
    apply (insert_on_main Ht Hch Hh).
  - assert (expected_code = ADDED_TO_ALTERNATIVE) as ->.
    { unfold expected_code. by rewrite (bool_decide_false (children n = [])), andb_false_r by (by rewrite Hch). }
    destruct (insert_beside Ht) as (c1 & c' & E1 & E2 & Hins); [by rewrite Hch|].
    rewrite E1. cbn [mbind option_bind]. rewrite E2. cbn [mbind option_bind]. eauto.
  - assert (expected_code = ADDED_TO_ALTERNATIVE) as -> by (unfold expected_code; by rewrite Ht).
    apply Z.eqb_neq in Ht. apply (insert_inside Ht).
Qed.
End Block.
End Steps.
