(* ===== verification/CoreTheorems.v ===== *)
(** * The core: theorems

    [addBlock] as a whole, sequences of core operations, the memory pool and
    the storage of the main chain. *)

From stdpp Require Import base gmap sets list sorting relations.
From S2P Require Import Prelude Config Bytes Types Mixins TxExtra Serialization Block Median Upgrade.
From S2P Require Import Checkpoints Currency Difficulty BlockchainCache CacheFacts CacheSteps.
From S2P Require Import Validation TransactionPool PoolCleaner ChainTree Core CoreFacts CorePool.
From S2P Require Import CacheTheorems CoreChecks CoreSteps.
Import parameters.

(** The codes that say that the block is in the tree now. *)
Definition is_added (result : AddBlockResult) : bool :=
  match result with
  | AddBlockCode (ADDED_TO_MAIN | ADDED_TO_ALTERNATIVE | ADDED_TO_ALTERNATIVE_AND_SWITCHED) => true
  | _ => false
  end.

Section Theorems.
Context (check_key : PublicKey -> bool).
Context (scalarmultKey : KeyImage -> KeyImage -> KeyImage).
Context (checkRingSignature : Hash -> KeyImage -> list PublicKey -> list Signature -> bool).
Context (cn_fast_hash : list Z -> list Z).
Context (cn_slow_hash_v0 cn_lite_slow_hash_v1 cn_turtle_lite_slow_hash_v2 : list Z -> list Z).
Context (genesisBlockHash : Hash).
Context (currency : Currency) (upgradeManager : UpgradeManager.t).
Context (points : Points) (now : Z).

Abbreviation check := (check_block check_key scalarmultKey checkRingSignature cn_fast_hash
  cn_slow_hash_v0 cn_lite_slow_hash_v1 cn_turtle_lite_slow_hash_v2 genesisBlockHash currency
  upgradeManager points now).
Abbreviation add := (addBlock check_key scalarmultKey checkRingSignature cn_fast_hash
  cn_slow_hash_v0 cn_lite_slow_hash_v1 cn_turtle_lite_slow_hash_v2 genesisBlockHash currency
  upgradeManager points now).

(** The block fits on the chain of its predecessor. *)
Definition fits_on (c : Core) (b : CachedBlock) (raw : RawBlock) : Prop :=
  forall id, findSegmentContainingBlock (chainsStorage c) (chainsLeaves c)
      (previousBlockHash (header (cb_block b))) = Some id ->
    room cn_fast_hash currency points (path (chainsStorage c) id) b raw.

(** If the block makes another chain the main chain, the last segment of that chain hangs
    off a segment of the main chain. *)
Definition forks_from_main (c : Core) (b : CachedBlock) (raw : RawBlock) : Prop :=
  forall id n k, findSegmentContainingBlock (chainsStorage c) (chainsLeaves c)
      (previousBlockHash (header (cb_block b))) = Some id ->
    chainsStorage c !! id = Some n -> check (path (chainsStorage c) id) b raw = inr k ->
    expected_code c k id n = ADDED_TO_ALTERNATIVE_AND_SWITCHED ->
    exists q, parent n = Some q /\ q ∈ mainChainSet c.

Lemma check_block_rejects cache b raw r : check cache b raw = inl r -> is_added r = false.
Proof.
  unfold check_block. intros H. repeat case_match; simplify_eq; done.
Qed.

Lemma addBlock_inserts c b raw id n k :
  0 <= m_rewardBlocksWindow currency -> core_ok currency c -> forks_from_main c b raw -> fits_on c b raw ->
  hasBlock c (cb_hash b) = false ->
  findSegmentContainingBlock (chainsStorage c) (chainsLeaves c)
    (previousBlockHash (header (cb_block b))) = Some id ->
  chainsStorage c !! id = Some n -> check (path (chainsStorage c) id) b raw = inr k ->
  exists c', add c b raw = Some (AddBlockCode (expected_code c k id n), c') /\
    inserted currency points b raw (expected_code c k id n) c c'.
Proof.
  intros Hwin Hc Hforks Hfit Eh Hid En Ek. specialize (Hfit id Hid).
  unfold addBlock. rewrite Eh, Hid, Ek. apply bool_decide_eq_false in Eh.
  pose proof (findSegment_spec (chainsStorage c) (chainsLeaves c) (cb_hash b)) as Hno.
  destruct (findSegmentContainingBlock _ _ (cb_hash b)); [by destruct Eh|]. clear Eh.
  pose proof (findSegment_spec (chainsStorage c) (chainsLeaves c)
    (previousBlockHash (header (cb_block b)))) as Hyes. rewrite Hid in Hyes.
  destruct Hyes as (leaf & Hleaf & Hin & _).
  destruct (insert_block_ok check_key scalarmultKey checkRingSignature cn_fast_hash currency
    upgradeManager points now Hwin c Hc b raw k id n En (check_block_sound _ _ _ _ _ _ _ _ _ _ _ _ _ _ _ _ Ek) Hfit)
    as (c' & E & Hins).
  - destruct (forest_chain _ _ leaf (co_forest _ _ Hc) Hleaf) as [l Hl].
    rewrite (chain_ids_of _ _ _ Hl) in Hin. apply list_elem_of_split in Hin as (l1 & l2 & ->).
    rewrite (tree_path _ _ _ (chain_of_suffix _ _ _ _ _ _ Hl eq_refl)). apply segments_without.
    intros x Hx. apply (Hno leaf x Hleaf). rewrite (chain_ids_of _ _ _ Hl). apply elem_of_app. by right.
  - by apply Hforks.
  - exists c'. split; [by rewrite E|done].
Qed.

(** Either the state is unchanged, or the checks have passed and the block is
    inserted. *)
Lemma addBlock_cases c b raw :
  0 <= m_rewardBlocksWindow currency -> core_ok currency c -> forks_from_main c b raw -> fits_on c b raw ->
  (exists r, add c b raw = Some (r, c) /\ is_added r = false) \/
  (exists code c', add c b raw = Some (AddBlockCode code, c') /\ inserted currency points b raw code c c').
Proof.
  intros Hwin Hc Hforks Hfit. destruct (hasBlock c (cb_hash b)) eqn:Eh.
  { left. exists (AddBlockCode ALREADY_EXISTS). unfold addBlock. by rewrite Eh. }
  destruct (findSegmentContainingBlock (chainsStorage c) (chainsLeaves c)
    (previousBlockHash (header (cb_block b)))) as [id|] eqn:Ef.
  2:{ left. exists (AddBlockCode REJECTED_AS_ORPHANED). unfold addBlock. by rewrite Eh, Ef. }
  pose proof (findSegment_spec (chainsStorage c) (chainsLeaves c)
    (previousBlockHash (header (cb_block b)))) as Hyes. rewrite Ef in Hyes.
  destruct Hyes as (leaf & _ & _ & (n & En & _)%segment_has_node).
  destruct (check (path (chainsStorage c) id) b raw) as [r|k] eqn:Ek.
  { left. exists r. unfold addBlock. rewrite Eh, Ef, Ek. split; [done|]. by eapply check_block_rejects. }
  right. destruct (addBlock_inserts c b raw id n k) as (c' & E & Hins); eauto.
Qed.

(** The node knows exactly the blocks of its chains. *)
Lemma hasBlock_in_chain c h :
  forest_ok (chainsStorage c) (chainsLeaves c) -> hasBlock c h = true <-> in_chain c h.
Proof.
  intros Hf. unfold hasBlock. rewrite bool_decide_eq_true.
  pose proof (findSegment_spec (chainsStorage c) (chainsLeaves c) h) as Hfind. split.
  - intros [id E]. rewrite E in Hfind. destruct Hfind as (leaf & Hl & Hin & (n & En & Hb)%segment_has_node).
    exists leaf. split; [done|]. destruct (forest_chain _ _ leaf Hf Hl) as [l Hch].
    rewrite (chain_ids_of _ _ _ Hch) in Hin. rewrite (tree_path _ _ _ Hch). by eapply segments_with.
  - intros (leaf & Hl & Hh). destruct (findSegmentContainingBlock _ _ _) as [id|]; [by eexists|]. exfalso.
    destruct (forest_chain _ _ leaf Hf Hl) as [l Hch]. rewrite (tree_path _ _ _ Hch) in Hh.
    revert Hh. apply segments_without. intros x Hx. apply (Hfind leaf x Hl). by rewrite (chain_ids_of _ _ _ Hch).
Qed.

(** A block at the end of a chain is known. *)
Lemma outcome_known c c' b raw code :
  forest_ok (chainsStorage c') (chainsLeaves c') -> outcome b raw code c c' ->
  hasBlock c' (cb_hash b) = true.
Proof.
  intros Hf [(leaf & Hl & Hb & _) _]. apply hasBlock_in_chain; [done|]. exists leaf. split; [done|].
  apply fmap_Some in Hb as (x & Hx & ->). apply list_elem_of_fmap_2. by apply last_Some_elem_of.
Qed.

(** What the node knew it still knows. *)
Lemma inserted_keeps c c' b raw code h :
  core_ok currency c -> inserted currency points b raw code c c' -> hasBlock c h = true -> hasBlock c' h = true.
Proof.
  intros Hc Hins. rewrite !hasBlock_in_chain; [apply (in_keeps _ _ _ _ _ _ _ Hins)| |apply Hc].
  apply (co_forest _ _ (in_ok _ _ _ _ _ _ _ Hins)).
Qed.

Lemma inserted_only c c' b raw code h :
  core_ok currency c -> inserted currency points b raw code c c' -> hasBlock c' h = true -> hasBlock c h = true \/ h = cb_hash b.
Proof.
  intros Hc Hins. rewrite !hasBlock_in_chain; [apply (in_only _ _ _ _ _ _ _ Hins)|apply Hc|].
  apply (co_forest _ _ (in_ok _ _ _ _ _ _ _ Hins)).
Qed.
End Theorems.

(** ** Sequences of operations *)

Section Run.
Context (check_key : PublicKey -> bool).
Context (scalarmultKey : KeyImage -> KeyImage -> KeyImage).
Context (checkRingSignature : Hash -> KeyImage -> list PublicKey -> list Signature -> bool).
Context (cn_fast_hash : list Z -> list Z).
Context (cn_slow_hash_v0 cn_lite_slow_hash_v1 cn_turtle_lite_slow_hash_v2 : list Z -> list Z).
Context (genesisBlockHash : Hash).
Context (currency : Currency) (upgradeManager : UpgradeManager.t) (points : Points).
Context {json : Type} (json_parse : list Z -> option json) (json_t : json -> option Z).

(** What happens to a running node past the last checkpoint: a block comes in, a
    transaction comes in, the pool is cleaned, each at a time [now] of its own.  The
    block fits, and a chain that it makes the main chain forks off the main
    chain. *)
Inductive core_step : Core -> Core -> Prop :=
  | step_block now c b raw r c' :
      forks_from_main check_key scalarmultKey checkRingSignature cn_fast_hash cn_slow_hash_v0 cn_lite_slow_hash_v1
        cn_turtle_lite_slow_hash_v2 genesisBlockHash currency upgradeManager points now c b raw ->
      fits_on cn_fast_hash currency points c b raw ->
      addBlock check_key scalarmultKey checkRingSignature cn_fast_hash cn_slow_hash_v0 cn_lite_slow_hash_v1
        cn_turtle_lite_slow_hash_v2 genesisBlockHash currency upgradeManager points now c b raw = Some (r, c') ->
      beyond_checkpoints points c' -> core_step c c'
  | step_transaction now c blob r c' :
      bytes_ok blob ->
      addTransactionToPool_binary check_key scalarmultKey checkRingSignature cn_fast_hash currency
        points now c blob = Some (r, c') ->
      core_step c c'
  | step_clean c currentTime deleted c' :
      0 < timeout (transactionPool c) <= currentTime ->
      clean_pool json_parse json_t currentTime c = Some (deleted, c') -> core_step c c'.

(** The invariant of the running node. *)
Record node_ok (c : Core) : Prop := {
  nk_core : core_ok currency c;
  nk_beyond : beyond_checkpoints points c;
  nk_fresh : pool_fresh c }.

(** A change of the pool alone. *)
Lemma set_pool_core_ok c c' :
  core_ok currency c -> same_but_pool c c' -> core_wrapper_ok (transactionPool c') -> core_ok currency c'.
Proof. intros [H1 H2 H3 H4 H5 H6] -> Hw. by split. Qed.

Lemma pool_only_node_ok c c' :
  node_ok c -> same_but_pool c c' -> core_wrapper_ok (transactionPool c') ->
  (forall i, i ∈ pending (pool_of c') -> unspent c i) -> node_ok c'.
Proof.
  intros [H1 H2 H3] Hs Hw Hp. pose proof (same_but_pool_main _ _ Hs) as E.
  split; [by eapply set_pool_core_ok|unfold beyond_checkpoints in *; by rewrite E|].
  intros i Hi. unfold unspent in *. rewrite E. by apply Hp.
Qed.

Lemma inserted_heavier c c' b raw code :
  core_ok currency c -> inserted currency points b raw code c c' ->
  chain_work (chain_blocks (main_chain c)) <= chain_work (chain_blocks (main_chain c')).
Proof.
  intros Hc [Hc' [_ Ho] _]. destruct (core_main currency c Hc) as (_ & _ & _ & _ & Gm & Hne).
  destruct (core_main currency c' Hc') as (_ & _ & _ & _ & Gm' & _).
  destruct code; try done.
  - destruct Ho as (info & E & _). pose proof (gc_work _ _ Gm') as Hw. rewrite E in *.
    apply (chain_work_app currency); [done|]. pose proof (gc_cache _ _ Gm) as Hok.
    destruct (main_chain c) as [|s l]; [done|]. destruct Hok as (_ & (_ & Hb & _) & _). cbn.
    intros [_ ?]%app_eq_nil. done.
  - destruct Ho as [[E _ _ _ _] _]. by rewrite E.
  - destruct Ho as [Hlt _]. lia.
Qed.

Lemma core_step_ok c c' :
  0 <= m_rewardBlocksWindow currency -> node_ok c -> core_step c c' ->
  node_ok c' /\ chain_work (chain_blocks (main_chain c)) <= chain_work (chain_blocks (main_chain c')).
Proof.
  intros Hwin Hn Hs. destruct Hs as [now c b raw r c' Hf Hfit E Hz|now c blob r c' Hb E|c tm deleted c' Ht E].
  - destruct Hn as [Hc _ Hp]. destruct (addBlock_cases _ _ _ _ _ _ _ _ _ _ _ _ c b raw Hwin Hc Hf Hfit)
      as [(r' & E' & _)|(code & c1 & E' & Hins)]; rewrite E' in E; injection E as <- <-.
    + split; [by split|done].
    + split; [|by eapply inserted_heavier]. split; [apply Hins|done|]. by apply (in_fresh _ _ _ _ _ _ _ Hins).
  - destruct Hn as [Hc Hz Hp] eqn:En. destruct (core_main currency c Hc) as (_ & _ & _ & _ & Gm & Hne).
    destruct (add_binary_step check_key scalarmultKey checkRingSignature cn_fast_hash currency points now
      c (gc_cache _ _ Gm) Hne c blob (same_but_pool_refl c) (co_pool _ _ Hc) Hb) as (r' & c1 & E' & [S1 S2 S3]).
    rewrite E' in E. injection E as <- <-. rewrite (same_but_pool_main _ _ S1). split; [|done].
    eapply pool_only_node_ok; [exact Hn|done|done|]. intros i Hi. destruct (S3 i Hi) as [?|Hu]; [by apply Hp|].
    by apply Hu.
  - destruct Hn as [Hc Hz Hp] eqn:En. destruct (core_main currency c Hc) as (_ & _ & _ & _ & Gm & Hne).
    unfold clean_pool in E. rewrite top_of_chain in E by (done || apply Gm). cbn [mbind option_bind] in E.
    destruct (clean_spec json_parse json_t pool_ok pending tm (height (main_chain c) - 1)
      (transactionPool c) (co_pool _ _ Hc) Ht) as (w' & E' & Hw & _ & Hpend & _).
    rewrite E' in E. injection E as _ <-. split; [|done].
    eapply pool_only_node_ok; [exact Hn|apply set_pool_same|done|]. intros i Hi. apply Hp.
    unfold pool_of in Hi. cbn in Hi. rewrite Hpend in Hi. by apply list_elem_of_filter in Hi as [_ ?].
Qed.
End Run.

(** ** A small chain

    A genesis block and a chain to grow on it.  The hash of a block is given, the
    long hash is zero, so that any difficulty is met. *)

Definition digest (l : list Z) : list Z := take 32 (l ++ replicate 32 0).
Definition no_work (_ : list Z) : list Z := replicate 32 0.

Definition mined (index timestamp amount : Z) (previous : Hash) : BlockTemplate :=
  mkBlockTemplate (mkBlockHeader 1 0 0 timestamp previous) default_parent
    (mkTransaction (mkTransactionPrefix 1 (index + 20) [BaseInput index]
       [mkTransactionOutput amount (KeyOutput (replicate 32 4))] []) []) [].
Definition sample_cached (b : BlockTemplate) (hash : Z) : CachedBlock :=
  mkCachedBlock b (replicate 32 hash) (replicate 32 (100 + hash)).
Definition sample_raw (b : BlockTemplate) : RawBlock := mkRawBlock (default [] (write_block digest b)) [].

(** The state with the block [g] alone. *)
Definition genesis_checked : CheckedBlock := mkCheckedBlock 0 [] ∅ 100 0 1.
Definition first_segment (g : CachedBlock) : Segment :=
  default (empty_segment 0) (doPushBlock [] (empty_segment 0) g [] ∅ 100 0 1 (sample_raw (cb_block g))).
Definition first_core (g : CachedBlock) : Core :=
  mkCore {[ 0%nat := mkNode (first_segment g) None [] ]} [0%nat] {[ 0%nat ]} (storage (first_segment g))
    (mkWrapper (mkTransactionPool ∅ []) ∅ 3600) 100000.

Definition genesis : CachedBlock := sample_cached (mined 0 1000 5 (replicate 32 0)) 1.
Definition genesis_segment : Segment := first_segment genesis.
Definition sample_core : Core := first_core genesis.

Definition sample_block_1 : CachedBlock := sample_cached (mined 1 1100 47683715 (replicate 32 1)) 2.
Definition sample_rival_1 : CachedBlock := sample_cached (mined 1 1100 47683715 (replicate 32 1)) 3.
Definition sample_rival_2 : CachedBlock := sample_cached (mined 2 1150 47683693 (replicate 32 3)) 4.

Abbreviation sample_add := (addBlock (fun _ => true) (fun _ x => x) (fun _ _ _ _ => true) digest no_work
  no_work no_work (replicate 32 1) CurrencyBuilder [] ∅ 1200).

Section First.
Context (g : CachedBlock) (Hg : ready [] g [] ∅).
Context (Hraw : raw_of_block (cb_block g) (sample_raw (cb_block g))).

Lemma first_extended : extended [] g genesis_checked (sample_raw (cb_block g)) [first_segment g].
Proof using Hg.
  destruct (push_extended (empty_segment 0) [] [] g genesis_checked (sample_raw (cb_block g)))
    as (s & E & Hex); [by apply (empty_open [])|apply (empty_same_chain [])|done|].
  unfold first_segment. cbn [ck_transactions ck_validatorState ck_cumulativeBlockSize ck_emissionChange
    ck_currentDifficulty genesis_checked] in E. by rewrite E.
Qed.

Lemma first_blocks : chain_blocks [first_segment g] = [new_block_info [] g 0 100 0 1].
Proof using Hg. by rewrite (ex_blocks _ _ _ _ _ first_extended). Qed.

Lemma first_core_ok : core_ok CurrencyBuilder (first_core g).
Proof using Hg Hraw.
  pose proof first_extended as Hex. pose proof (ex_ok _ _ _ _ _ Hex) as Hok.
  assert (forall id l, chain_of (chainsStorage (first_core g)) id l -> id = 0%nat /\ l = [0%nat]) as Hch.
  { intros id l H. destruct H as [id n E Ep|id n p l E Ep Hl]; cbn in E;
      apply lookup_singleton_Some in E as [<- <-]; [done|discriminate]. }
  assert (chain_of (chainsStorage (first_core g)) 0%nat [0%nat]) as H0 by (by eapply chain_root).
  assert (path (chainsStorage (first_core g)) 0%nat = [first_segment g]) as Epath by (by rewrite (tree_path _ _ _ H0)).
  assert (main_chain (first_core g) = [first_segment g]) as Em by exact Epath.
  split.
  - split; [split| | |done].
    + intros id [n Hn]. cbn in Hn. apply lookup_singleton_Some in Hn as [<- _]. eauto.
    + intros id l [-> ->]%Hch. exact Hok.
    + intros p n c Hn. cbn in Hn. apply lookup_singleton_Some in Hn as [<- <-]. cbn.
      rewrite elem_of_nil. split; [done|]. intros (m & Hm & Hp). apply lookup_singleton_Some in Hm as [_ <-]. done.
    + apply NoDup_singleton.
    + intros id. cbn [chainsLeaves first_core]. rewrite list_elem_of_singleton. split.
      * intros ->. by eexists.
      * intros (n & Hn & _). cbn in Hn. by apply lookup_singleton_Some in Hn as [<- _].
  - intros leaf ->%list_elem_of_singleton. rewrite Epath. split; [done| | | |].
    + rewrite first_blocks. intros i b b' _ Hb'. apply lookup_lt_Some in Hb'. cbn in Hb'. lia.
    + rewrite first_blocks. by intros x ->%list_elem_of_singleton.
    + rewrite first_blocks. apply NoDup_singleton.
    + eapply raw_ok_extended; [exact Hex|done|exact Hraw|done|done|]. by intros t ?%elem_of_nil.
  - intros leaf ->%list_elem_of_singleton. by rewrite Epath, Em.
  - intros leaf [= <-]. unfold updateMainChainSet. rewrite (chain_ids_of _ _ _ H0). set_solver.
  - rewrite Em. done.
  - split; [|done|by intros i ?%elem_of_nil].
    split; cbn; constructor.
Qed.
End First.

(** The block needs nothing but the right index to come first. *)
Local Ltac first_ready :=
  split; try done; [by apply (bool_decide_unpack _); vm_compute|apply NoDup_singleton|by intros t ?%elem_of_nil].
Local Ltac first_raw :=
  split; [vm_compute; reflexivity| |constructor]; eexists; split; [vm_compute; reflexivity|];
  apply (bool_decide_unpack _); vm_compute; exact I.

Lemma sample_core_ok : core_ok CurrencyBuilder sample_core.
Proof. apply first_core_ok; [first_ready|first_raw]. Qed.

(** The first block and its rival fit. *)
Lemma sample_fits_both hash b :
  b = sample_block_1 \/ b = sample_rival_1 ->
  fits_on hash CurrencyBuilder ∅ sample_core b (sample_raw (cb_block b)).
Proof.
  intros Hb id Hid. assert (id = 0%nat) as ->.
  { destruct Hb as [-> | ->]; vm_compute in Hid; by injection Hid as <-. }
  assert (path (chainsStorage sample_core) 0%nat = [genesis_segment]) as -> by reflexivity.
  split.
  - vm_compute. reflexivity.
  - destruct Hb as [-> | ->]; (split; [vm_compute; reflexivity| |constructor]); eexists;
      (split; [vm_compute; reflexivity|]); apply (bool_decide_unpack _); vm_compute; exact I.
  - intros txs size [= <- _]. split; [vm_compute; discriminate|]. split; [apply NoDup_singleton|].
    split; [|split; [|discriminate]].
    + intros t Ht _. revert t Ht. apply Forall_forall. destruct Hb as [-> | ->]; apply (bool_decide_unpack _); vm_compute; exact I.
    + intros a. unfold chain_outputs, segment_outputs. cbn [app].
      assert (total_outputs (block_transactions b []) = 1%nat) as -> by (by destruct Hb as [-> | ->]).
      destruct (decide (a = 5)) as [->|Ha]; [vm_compute; reflexivity|].
      assert (keyOutputsGlobalIndexes genesis_segment = {[ 5 := mkOutputGlobalIndexes 0 [mkPackedOutIndex 0 0 0] ]})
        as -> by (vm_compute; reflexivity).
      rewrite lookup_singleton_ne by done. vm_compute. reflexivity.
  - intros p d Hd Hp. assert (p = 0) as ->.
    { destruct Hb as [-> | ->]; change (1 = p + 1) in Hp; lia. }
    vm_compute in Hd. injection Hd as <-. vm_compute. reflexivity.
Qed.

Lemma sample_fits : fits_on digest CurrencyBuilder ∅ sample_core sample_block_1
  (sample_raw (cb_block sample_block_1)).
Proof. apply sample_fits_both. by left. Qed.

(** No other chain can become the main chain. *)
Lemma sample_forks hash b :
  forks_from_main (fun _ => true) (fun _ x => x) (fun _ _ _ _ => true) hash no_work no_work no_work
    (replicate 32 1) CurrencyBuilder [] ∅ 1200 sample_core b (sample_raw (cb_block b)).
Proof.
  intros id n k _ Hn _. cbn in Hn. apply lookup_singleton_Some in Hn as [<- <-]. unfold expected_code.
  rewrite (bool_decide_true (head _ = _)) by done. by destruct (_ && _).
Qed.

(** The states after the block and after its rival. *)
Definition after_block (b : CachedBlock) : Core :=
  match sample_add sample_core b (sample_raw (cb_block b)) with Some (_, c) => c | None => sample_core end.

Lemma after_block_ok b :
  b = sample_block_1 \/ b = sample_rival_1 -> core_ok CurrencyBuilder (after_block b).
Proof.
  intros Hb. unfold after_block.
  destruct (addBlock_cases (fun _ => true) (fun _ x => x) (fun _ _ _ _ => true) digest no_work no_work no_work
    (replicate 32 1) CurrencyBuilder [] ∅ 1200 sample_core b (sample_raw (cb_block b)))
    as [(r & -> & _)|(code & c' & -> & Hins)].
  - vm_compute. discriminate.
  - exact sample_core_ok.
  - apply sample_forks.
  - by apply sample_fits_both.
  - exact sample_core_ok.
  - apply Hins.
Qed.

(** ** Adding a block *)

(** C1: from a state in order, [addBlock] on a block that fits always returns, and leaves
    a state in order: the leaves are the ends of the tree, every chain is
    well formed and carries the difficulties that were due, no chain is heavier
    than the main chain, and the stored blocks are those of the main chain.  With
    any code but the three [ADDED] ones nothing has changed; with
    [ADDED_TO_MAIN] the main chain is the old one and the block; with
    [ADDED_TO_ALTERNATIVE] the main chain and the pool are as before and a leaf
    ends in the block; with [ADDED_TO_ALTERNATIVE_AND_SWITCHED] the main chain is
    strictly heavier than before and ends in the block.  A block fits when the numbers of
    blocks, transactions and outputs and the work stay within their types, when its
    transactions are distinct and none has the hash of one in a block below it on its chain, when
    its bytes are those of the block, and when inside the checkpoint zone it spends no key image
    that its chain has spent below it.  If the block makes another chain the main chain,
    that chain has to fork off the main chain, not off another fork. *)
Theorem addBlock_correct check_key scalarmultKey checkRingSignature cn_fast_hash cn_slow_hash_v0
    cn_lite_slow_hash_v1 cn_turtle_lite_slow_hash_v2 genesisBlockHash currency upgradeManager points now
    c b raw :
  0 <= m_rewardBlocksWindow currency -> core_ok currency c ->
  forks_from_main check_key scalarmultKey checkRingSignature cn_fast_hash cn_slow_hash_v0 cn_lite_slow_hash_v1
    cn_turtle_lite_slow_hash_v2 genesisBlockHash currency upgradeManager points now c b raw ->
  fits_on cn_fast_hash currency points c b raw ->
  exists result c', addBlock check_key scalarmultKey checkRingSignature cn_fast_hash cn_slow_hash_v0
      cn_lite_slow_hash_v1 cn_turtle_lite_slow_hash_v2 genesisBlockHash currency upgradeManager points now
      c b raw = Some (result, c') /\
    core_ok currency c' /\
    match result with
    | AddBlockCode code => if is_added result then outcome b raw code c c' else c' = c
    | Rejected _ => c' = c
    end.
Proof.
  intros Hw Hc Hf Hfit.
  destruct (addBlock_cases check_key scalarmultKey checkRingSignature cn_fast_hash cn_slow_hash_v0
    cn_lite_slow_hash_v1 cn_turtle_lite_slow_hash_v2 genesisBlockHash currency upgradeManager points now
    c b raw Hw Hc Hf Hfit) as [(r & E & Hr)|(code & c' & E & Hins)].
  - exists r, c. split; [done|]. split; [done|]. rewrite Hr. by destruct r.
  - eexists _, c'. split; [done|]. split; [apply Hins|].
    pose proof (in_outcome _ _ _ _ _ _ _ Hins) as Ho.
    destruct code; cbn; try done; by destruct Ho.
Qed.

Lemma addBlock_correct_witness :
  exists c', sample_add sample_core sample_block_1 (sample_raw (cb_block sample_block_1)) =
      Some (AddBlockCode ADDED_TO_MAIN, c') /\ core_ok CurrencyBuilder c' /\
    mainChainStorage c' = mainChainStorage sample_core ++ [sample_raw (cb_block sample_block_1)].
Proof.
  destruct (addBlock_correct (fun _ => true) (fun _ x => x) (fun _ _ _ _ => true) digest no_work no_work
    no_work (replicate 32 1) CurrencyBuilder [] ∅ 1200 sample_core sample_block_1
    (sample_raw (cb_block sample_block_1))) as (r & c' & E & Hc & Ho).
  - vm_compute. discriminate.
  - exact sample_core_ok.
  - apply sample_forks.
  - exact sample_fits.
  - assert (fst <$> sample_add sample_core sample_block_1 (sample_raw (cb_block sample_block_1)) =
      Some (AddBlockCode ADDED_TO_MAIN)) as Er by (vm_compute; reflexivity).
    rewrite E in Er. injection Er as ->. exists c'. split; [exact E|]. split; [exact Hc|].
    destruct Ho as (_ & info & _ & _ & Est). exact Est.
Defined.

(** C7: in a state in order, a block that fits, as for [addBlock_correct], is new, and passes the checks
    against the chain of its predecessor is accepted: the code is [ADDED_TO_MAIN] when its predecessor is the last block of
    the main chain, [ADDED_TO_ALTERNATIVE_AND_SWITCHED] when its predecessor ends
    another chain and the difficulty of the block makes that chain heavier than
    the main one, and [ADDED_TO_ALTERNATIVE] otherwise; and afterwards the node
    knows the block, every block it knew before and no other.  In the case of a switch this is
    for a chain that forks off the main chain; for a fork off another fork the code does
    not complete the switch. *)
Theorem addBlock_accepts check_key scalarmultKey checkRingSignature cn_fast_hash cn_slow_hash_v0
    cn_lite_slow_hash_v1 cn_turtle_lite_slow_hash_v2 genesisBlockHash currency upgradeManager points now
    c b raw id n k :
  0 <= m_rewardBlocksWindow currency -> core_ok currency c ->
  forks_from_main check_key scalarmultKey checkRingSignature cn_fast_hash cn_slow_hash_v0 cn_lite_slow_hash_v1
    cn_turtle_lite_slow_hash_v2 genesisBlockHash currency upgradeManager points now c b raw ->
  fits_on cn_fast_hash currency points c b raw ->
  hasBlock c (cb_hash b) = false ->
  findSegmentContainingBlock (chainsStorage c) (chainsLeaves c)
    (previousBlockHash (header (cb_block b))) = Some id ->
  chainsStorage c !! id = Some n ->
  check_block check_key scalarmultKey checkRingSignature cn_fast_hash cn_slow_hash_v0
    cn_lite_slow_hash_v1 cn_turtle_lite_slow_hash_v2 genesisBlockHash currency upgradeManager points now
    (path (chainsStorage c) id) b raw = inr k ->
  exists c', addBlock check_key scalarmultKey checkRingSignature cn_fast_hash cn_slow_hash_v0
      cn_lite_slow_hash_v1 cn_turtle_lite_slow_hash_v2 genesisBlockHash currency upgradeManager points now
      c b raw = Some (AddBlockCode (expected_code c k id n), c') /\
    forall h, hasBlock c' h = true <-> hasBlock c h = true \/ h = cb_hash b.
Proof.
  intros Hw Hc Hf Hfit Hnew Hid Hn Hk.
  destruct (addBlock_inserts check_key scalarmultKey checkRingSignature cn_fast_hash cn_slow_hash_v0
    cn_lite_slow_hash_v1 cn_turtle_lite_slow_hash_v2 genesisBlockHash currency upgradeManager points now
    c b raw id n k Hw Hc Hf Hfit Hnew Hid Hn Hk) as (c' & E & Hins).
  exists c'. split; [done|]. intros h. split; [by eapply inserted_only|].
  intros [Hh| ->]; [by eapply inserted_keeps|].
  eapply outcome_known; [|apply Hins]. apply (co_forest _ _ (in_ok _ _ _ _ _ _ _ Hins)).
Qed.

Lemma addBlock_accepts_witness :
  exists c', sample_add sample_core sample_block_1 (sample_raw (cb_block sample_block_1)) =
      Some (AddBlockCode ADDED_TO_MAIN, c') /\
    forall h, hasBlock c' h = true <-> hasBlock sample_core h = true \/ h = replicate 32 2.
Proof.
  destruct (check_block (fun _ => true) (fun _ x => x) (fun _ _ _ _ => true) digest no_work no_work no_work
    (replicate 32 1) CurrencyBuilder [] ∅ 1200 (path (chainsStorage sample_core) 0%nat) sample_block_1
    (sample_raw (cb_block sample_block_1))) as [e|k] eqn:Ek; [vm_compute in Ek; discriminate|].
  assert (expected_code sample_core k 0%nat (mkNode genesis_segment None []) = ADDED_TO_MAIN) as <-
    by (vm_compute in Ek; injection Ek as <-; vm_compute; reflexivity).
  refine (addBlock_accepts (fun _ => true) (fun _ x => x) (fun _ _ _ _ => true) digest no_work no_work no_work
    (replicate 32 1) CurrencyBuilder [] ∅ 1200 sample_core sample_block_1
    (sample_raw (cb_block sample_block_1)) 0%nat (mkNode genesis_segment None []) k _
    sample_core_ok (sample_forks _ _) sample_fits _ _ _ Ek); [vm_compute; discriminate|vm_compute; reflexivity..].
Defined.

(** The switch: a rival of the first block is an alternative, and becomes the
    main chain with the block on top of it. *)
Lemma switch_scenario :
  let run r b := c ← r; snd <$> sample_add c b (sample_raw (cb_block b)) in
  let codes r b := c ← r; fst <$> sample_add c b (sample_raw (cb_block b)) in
  let c1 := run (Some sample_core) sample_block_1 in
  let c2 := run c1 sample_rival_1 in
  codes c1 sample_rival_1 = Some (AddBlockCode ADDED_TO_ALTERNATIVE) /\
  codes c2 sample_rival_2 = Some (AddBlockCode ADDED_TO_ALTERNATIVE_AND_SWITCHED) /\
  (fun c => map bi_blockHash (chain_blocks (main_chain c))) <$> run c2 sample_rival_2 =
    Some [replicate 32 1; replicate 32 3; replicate 32 4].
Proof. vm_compute. done. Qed.

(** ** A running node *)

(** C2: in any sequence of incoming blocks, incoming transactions and
    rounds of pool cleaning past the last checkpoint, each at a time of its own, the state stays in
    order, no chain known to the node is ever heavier than the main
    chain, the work of the main chain never decreases, and no transaction in the
    memory pool spends a key image that the main chain has spent.  The blocks are those
    that fit, as for [addBlock_correct], and a block is not taken into the sequence
    when it would make a fork off another fork the main chain, after which the stored blocks
    need not be those of the main chain. *)
Theorem node_run_safe check_key scalarmultKey checkRingSignature cn_fast_hash cn_slow_hash_v0
    cn_lite_slow_hash_v1 cn_turtle_lite_slow_hash_v2 genesisBlockHash currency upgradeManager points
    {json} (json_parse : list Z -> option json) (json_t : json -> option Z) c c' :
  0 <= m_rewardBlocksWindow currency -> node_ok currency points c ->
  rtc (core_step check_key scalarmultKey checkRingSignature cn_fast_hash cn_slow_hash_v0
    cn_lite_slow_hash_v1 cn_turtle_lite_slow_hash_v2 genesisBlockHash currency upgradeManager points
    json_parse json_t) c c' ->
  node_ok currency points c' /\
  (forall leaf, leaf ∈ chainsLeaves c' ->
     chain_work (chain_blocks (path (chainsStorage c') leaf)) <= chain_work (chain_blocks (main_chain c'))) /\
  chain_work (chain_blocks (main_chain c)) <= chain_work (chain_blocks (main_chain c')) /\
  (forall i ki, i ∈ pending (pool_of c') -> ki ∈ info_images i -> chain_spent (main_chain c') !! ki = None).
Proof.
  intros Hw Hn Hrun. induction Hrun as [c|c c1 c' Hs _ IH].
  - split; [done|]. split; [apply (co_heaviest _ _ (nk_core _ _ _ Hn))|]. split; [done|].
    intros i ki Hi. by apply (nk_fresh _ _ _ Hn).
  - destruct (core_step_ok _ _ _ _ _ _ _ _ _ _ _ _ _ _ _ Hw Hn Hs) as [Hn1 Hle].
    destruct (IH Hn1) as (H1 & H2 & H3 & H4). split; [done|]. split; [done|]. split; [lia|done].
Qed.

Lemma sample_node_ok : node_ok CurrencyBuilder ∅ sample_core.
Proof. split; [exact sample_core_ok|reflexivity|by intros i ?%elem_of_nil]. Qed.

Lemma node_run_safe_witness :
  exists c', fst <$> sample_add sample_core sample_block_1 (sample_raw (cb_block sample_block_1)) =
      Some (AddBlockCode ADDED_TO_MAIN) /\
    snd <$> sample_add sample_core sample_block_1 (sample_raw (cb_block sample_block_1)) = Some c' /\
    node_ok CurrencyBuilder ∅ c' /\ chain_work (chain_blocks (main_chain sample_core)) <=
      chain_work (chain_blocks (main_chain c')).
Proof.
  destruct (sample_add sample_core sample_block_1 (sample_raw (cb_block sample_block_1))) as [[r c']|] eqn:E;
    [|vm_compute in E; discriminate].
  assert (r = AddBlockCode ADDED_TO_MAIN /\ beyond_checkpoints ∅ c') as [-> Hz].
  { vm_compute in E. injection E as <- <-. split; vm_compute; reflexivity. }
  exists c'. split; [reflexivity|]. split; [reflexivity|].
  destruct (node_run_safe (fun _ => true) (fun _ x => x) (fun _ _ _ _ => true) digest no_work no_work
    no_work (replicate 32 1) CurrencyBuilder [] ∅ (fun _ => None) (fun j : Z => Some j) sample_core c')
    as (H1 & _ & H3 & _).
  - vm_compute. discriminate.
  - exact sample_node_ok.
  - apply rtc_once. eapply step_block; [apply sample_forks|exact sample_fits|exact E|exact Hz].
  - split; [exact H1|exact H3].
Defined.

(** ** The storage of the main chain *)

(** when the new chain starts its last segment within
    the stored blocks, rewriting the storage completes, and the stored blocks are
    then those of the new chain exactly when the chain below that segment was
    stored already.  This holds for a fork off the main chain, and fails for a fork
    off another fork. *)
Theorem switchMainChainStorage_correct s parents st :
  cache_ok (s :: parents) -> startIndex s <= Z.of_nat (length st) < 2 ^ 32 ->
  exists st', switchMainChainStorage (startIndex s) (s :: parents) st = Some st' /\
    (st' = chain_storage (s :: parents) <-> chain_storage parents `prefix_of` st).
Proof.
  intros Hok Hlen. rewrite switchMainChainStorage_spec by done. eexists. split; [done|].
  pose proof (chain_start _ _ Hok) as Es. destruct Hok as [Hp _].
  pose proof (length_chain_storage parents Hp) as El. unfold height in Es. rewrite Es, Nat2Z.id, <- El.
  cbn [chain_storage]. split.
  - intros E%app_inv_tail. exists (drop (length (chain_storage parents)) st).
    rewrite <- E at 1. by rewrite take_drop.
  - intros [more ->]. by rewrite take_app_length.
Qed.

Lemma switchMainChainStorage_correct_witness :
  let '(lower, upper) := split sample_segment 1 in
  let other := mkRawBlock [7] [] in
  switchMainChainStorage 1 [upper; lower] (storage lower ++ [other]) = Some (storage sample_segment) /\
  exists st', switchMainChainStorage 1 [upper; lower] [other] = Some st' /\
    st' <> chain_storage [upper; lower].
Proof.
  destruct (split sample_segment 1) as [lower upper] eqn:E. intros other.
  assert (lower = (split sample_segment 1).1 /\ upper = (split sample_segment 1).2) as [-> ->]
    by (rewrite E; split; reflexivity). clear E.
  assert (cache_ok [(split sample_segment 1).2; (split sample_segment 1).1]) as Hok
    by (apply (split_ok sample_segment [] 1 sample_ok); vm_compute; split; reflexivity).
  split.
  - destruct (switchMainChainStorage_correct _ _ (storage (split sample_segment 1).1 ++ [other]) Hok)
      as (st' & E & Hiff); [vm_compute; split; [discriminate|reflexivity]|].
    change (startIndex (split sample_segment 1).2) with 1 in E. rewrite E. f_equal.
    rewrite (proj2 Hiff); [vm_compute; reflexivity|]. exists [other]. reflexivity.
  - destruct (switchMainChainStorage_correct _ _ [other] Hok)
      as (st' & E & Hiff); [vm_compute; split; [discriminate|reflexivity]|].
    exists st'. split; [exact E|]. intros [more Hp]%(proj1 Hiff). vm_compute in Hp. discriminate.
Defined.

(** ** The memory pool of the core *)

Lemma addTransactionToPool_only check_key scalarmultKey checkRingSignature cn_fast_hash currency points now
    c tx added c' :
  addTransactionToPool check_key scalarmultKey checkRingSignature cn_fast_hash currency points now c tx =
    Some (added, c') ->
  c' = set_pool c (mkWrapper (pool_of c') (recentlyDeletedTransactions (transactionPool c))
                     (timeout (transactionPool c))).
Proof.
  assert (c = set_pool c (mkWrapper (pool_of c) (recentlyDeletedTransactions (transactionPool c))
    (timeout (transactionPool c)))) as Heta by (by destruct c as [? ? ? ? [] ?]).
  unfold addTransactionToPool. destruct (checkIfTransactionPresent _ _); [by intros [= _ <-]|].
  destruct (isTransactionValidForPool _ _ _ _ _ _ _ _ _) as [[[] st]|]; [| |done]; cbn [mbind option_bind negb];
    [|by intros [= _ <-]].
  unfold PoolCleaner.pushTransaction. destruct (isTransactionRecentlyDeleted _ _).
  { intros [= _ <-]. by destruct c as [? ? ? ? [] ?]. }
  destruct (ip_pushTransaction _ _ _ _) as [pushed p]. by intros [= _ <-].
Qed.

(** C29: offering the bytes of a transaction to the core, in order, always
    completes, and changes nothing but the transactions of the pool: not the chains, nor their storage, nor
    the deletions that the pool has recorded.  The pool is left in order, so
    that no two of its transactions spend the same key image.  When it
    returns false nothing has changed at all; when it returns true the bytes are a
    transaction, the pool has gained exactly that transaction, and, past
    the last checkpoint, none of its key images is spent on the main chain. *)
Theorem addTransactionToPool_correct check_key scalarmultKey checkRingSignature cn_fast_hash currency
    points now c blob :
  core_ok currency c -> bytes_ok blob ->
  exists added c', addTransactionToPool_binary check_key scalarmultKey checkRingSignature cn_fast_hash
      currency points now c blob = Some (added, c') /\
    c' = set_pool c (mkWrapper (pool_of c') (recentlyDeletedTransactions (transactionPool c))
                       (timeout (transactionPool c))) /\
    core_ok currency c' /\ main_chain c' = main_chain c /\ NoDup (concat (info_images <$> pending (pool_of c'))) /\
    (if added then exists t, fromBinaryArray read_transaction blob = Some t /\
       let tx := mkCachedTx t (Block.getTransactionHash cn_fast_hash blob) blob in
       pending (pool_of c') ≡ₚ new_info now tx :: pending (pool_of c) /\
       (beyond_checkpoints points c -> unspent c (new_info now tx))
     else c' = c).
Proof.
  intros Hc Hb. assert (c = set_pool c (mkWrapper (pool_of c) (recentlyDeletedTransactions (transactionPool c))
    (timeout (transactionPool c)))) as Heta by (by destruct c as [? ? ? ? [] ?]). destruct (core_main currency c Hc) as (_ & _ & _ & _ & Gm & Hne).
  assert (NoDup (concat (info_images <$> pending (pool_of c)))) as Hnd
    by apply (pool_images _ (wrapper_pool _ _ _ (co_pool _ _ Hc))).
  unfold addTransactionToPool_binary. destruct (fromBinaryArray read_transaction blob) as [t|] eqn:E.
  2:{ by exists false, c. }
  unfold fromBinaryArray in E. destruct (read_transaction blob) as [[t' [|? ?]]|] eqn:Er; try done.
  injection E as ->. apply transaction_read_canonical in Er as Hcan; [|done].
  destruct Hcan as (_ & w & Ew & Eb). rewrite app_nil_r in Eb. subst w.
  unfold cached_transaction. rewrite Ew. cbn [mbind option_bind].
  destruct (addTransactionToPool_spec check_key scalarmultKey checkRingSignature cn_fast_hash currency points now
    c (gc_cache _ _ Gm) Hne c (mkCachedTx t (Block.getTransactionHash cn_fast_hash blob) blob)
    (same_but_pool_refl c) (co_pool _ _ Hc)) as (added & c' & Ea & Hs & Hw & Hp).
  { cbn. intros ->. by vm_compute in Er. }
  exists added, c'. split; [done|]. pose proof (addTransactionToPool_only _ _ _ _ _ _ _ _ _ _ _ Ea) as Honly.
  split; [done|]. split; [by eapply set_pool_core_ok|].
  split; [by apply same_but_pool_main|]. split; [apply (pool_images _ (wrapper_pool _ _ _ Hw))|].
  destruct added; [exists t; by split|]. by rewrite Honly, Hp.
Qed.

(** A first block with an output that can be spent, and a transaction that spends it. *)
Definition funding : CachedBlock :=
  sample_cached (mkBlockTemplate (mkBlockHeader 1 0 0 1000 (replicate 32 0)) default_parent
    (mkTransaction (mkTransactionPrefix 1 0 [BaseInput 0]
       [mkTransactionOutput 1000000 (KeyOutput (replicate 32 4))] []) []) []) 1.
Definition payment : Transaction :=
  mkTransaction (mkTransactionPrefix 1 0 [KeyInput 1000000 [0] (replicate 32 9)]
    [mkTransactionOutput 900000 (KeyOutput (replicate 32 4))] []) [[replicate 64 7]].
Definition payment_blob : list Z := default [] (write_transaction payment).

Abbreviation sample_offer := (addTransactionToPool_binary (fun _ => true) (fun _ _ => 1 :: replicate 31 0)
  (fun _ _ _ _ => true) digest CurrencyBuilder ∅ 1200 (first_core funding)).

Lemma addTransactionToPool_correct_witness :
  sample_offer [1; 2; 3] = Some (false, first_core funding) /\
  exists c', sample_offer payment_blob = Some (true, c') /\
    chainsStorage c' = chainsStorage (first_core funding) /\
    map (fun i => ct_transaction (cachedTransaction i)) (pending (pool_of c')) = [payment] /\
    chain_spent (main_chain c') !! replicate 32 9 = None.
Proof.
  assert (core_ok CurrencyBuilder (first_core funding)) as Hc by (apply first_core_ok; [first_ready|first_raw]).
  pose proof (addTransactionToPool_correct (fun _ => true) (fun _ _ => 1 :: replicate 31 0) (fun _ _ _ _ => true)
    digest CurrencyBuilder ∅ 1200 (first_core funding)) as H. split.
  - destruct (H [1; 2; 3] Hc) as (added & c' & E & _ & _ & _ & _ & Hp).
    + apply (bool_decide_unpack _). vm_compute. exact I.
    + assert (fst <$> sample_offer [1; 2; 3] = Some false) as Ef by (vm_compute; reflexivity).
      rewrite E in Ef. injection Ef as ->. by rewrite E, Hp.
  - destruct (H payment_blob Hc) as (added & c' & E & Eo & _ & Em & _ & Hp).
    + apply (bool_decide_unpack _). vm_compute. exact I.
    + assert (fst <$> sample_offer payment_blob = Some true) as Ef by (vm_compute; reflexivity).
      rewrite E in Ef. injection Ef as ->. exists c'. split; [exact E|]. split; [by rewrite Eo|].
      destruct Hp as (t & Et & Hperm & Hu). vm_compute in Et. injection Et as <-.
      apply Permutation_singleton_r in Hperm. rewrite Hperm. split; [reflexivity|].
      rewrite Em. apply (Hu eq_refl). by left.
Defined.

(** ** Walking up the tree *)

(** in a well-formed tree of segments the loop over [getParent]
    ends at the root for every segment; the walk has no repetition and is no longer than the
    number of segments, the fuel it is given. *)
Theorem chain_walk_terminates t id :
  tree_ok t -> is_Some (t !! id) ->
  exists root n, last (chain_ids t id) = Some root /\ t !! root = Some n /\ parent n = None /\
    head (chain_ids t id) = Some id /\ NoDup (chain_ids t id) /\ (length (chain_ids t id) <= size t)%nat.
Proof.
  intros Ht Hid. destruct (tree_rooted t Ht id Hid) as [l Hl]. rewrite (chain_ids_of t id l Hl).
  assert (exists root n, last l = Some root /\ t !! root = Some n /\ parent n = None) as (root & n & H1 & H2 & H3).
  { clear Hid. induction Hl as [x n E Ep|x n p l E Ep Hl IH]; [by exists x, n|].
    destruct IH as (root & m & H1 & H2 & H3). exists root, m. split; [|done].
    rewrite last_cons, H1. done. }
  exists root, n. split; [done|]. split; [done|]. split; [done|].
  destruct (chain_of_head t id l Hl) as (l' & -> & _). split; [done|].
  split; [by eapply chain_of_NoDup|by eapply chain_of_length].
Qed.

Lemma chain_walk_terminates_witness :
  exists root, last (chain_ids (chainsStorage sample_core) 0%nat) = Some root.
Proof.
  destruct (chain_walk_terminates (chainsStorage sample_core) 0%nat) as (root & n & H & _).
  - exact (forest_tree _ _ (co_forest _ _ sample_core_ok)).
  - eexists. reflexivity.
  - exists root. exact H.
Defined.
