(* ===== verification/CoreQueries.v ===== *)
(** * The core: queries

    The questions that other nodes and wallets ask [Core] (core.cpp): blocks by
    index and by hash, the sparse chain a node offers when it synchronises and
    the search for the last common block, the answers to [queryBlocks], the
    search for transactions, and the difference between two pools.  Assertions
    are not evaluated; a null pointer, an index out of range and an exception
    are [None]. *)

From stdpp Require Import base gmap sets list sorting.
From S2P Require Import Prelude Config Bytes StringTools Types WalletBlocks Mixins TxExtra Serialization Block Median Upgrade.
From S2P Require Import Checkpoints Currency Difficulty BlockchainCache CacheFacts CacheSteps.
From S2P Require Import Validation TransactionPool PoolCleaner ChainTree Core CoreFacts CorePool.
From S2P Require Import CoreChecks CoreSteps.
Import parameters.

(** ** Single blocks *)

Definition core_getTopBlockIndex (c : Core) : option Z := BlockchainCache.getTopBlockIndex (main_chain c).
Definition core_getTopBlockHash (c : Core) : option Hash := BlockchainCache.getTopBlockHash (main_chain c).
Definition getBlockHashByIndex (c : Core) (blockIndex : Z) : option Hash :=
  BlockchainCache.getBlockHash (main_chain c) blockIndex.

Definition getBlockTimestampByIndex (c : Core) (blockIndex : Z) : option Z :=
  timestamps ← getLastTimestamps (main_chain c) 1 blockIndex true; timestamps !! 0%nat.

Definition restoreBlockTemplate (blockchainCache : Cache) (blockIndex : Z) : option BlockTemplate :=
  rawBlock ← BlockchainCache.getBlockByIndex blockchainCache blockIndex;
  fromBinaryArray read_block (block rawBlock).

Definition findMainChainSegmentContainingBlock_index (c : Core) (blockIndex : Z) : option nat :=
  leaf ← head (chainsLeaves c); findIndexInChain_index (chainsStorage c) leaf blockIndex.

Definition core_getBlockByIndex (c : Core) (index : Z) : option BlockTemplate :=
  segment ← findMainChainSegmentContainingBlock_index c index;
  restoreBlockTemplate (path (chainsStorage c) segment) index.

(** [segment->getBlockIndex(hash)]. *)
Definition index_in (c : Core) (id : nat) (blockHash : Hash) : option Z :=
  n ← chainsStorage c !! id; BlockchainCache.getBlockIndex (segment n) blockHash.

Definition core_getBlockByHash (c : Core) (blockHash : Hash) : option BlockTemplate :=
  id ← findMainChainSegmentContainingBlock (chainsStorage c) (chainsLeaves c) blockHash;
  blockIndex ← index_in c id blockHash;
  restoreBlockTemplate (path (chainsStorage c) id) blockIndex.

(** ** Ranges of blocks *)

(** The inner loop of [getBlocks], with [maxIndex] counting down to
    [minChainIndex]. *)
Fixpoint push_down (cache : Cache) (minChainIndex : Z) (maxIndex : nat) (blocks : list RawBlock)
  : option (Z * list RawBlock) :=
  if minChainIndex <=? Z.of_nat maxIndex then
    b ← BlockchainCache.getBlockByIndex cache (Z.of_nat maxIndex);
    match maxIndex with
    | O => Some (0, blocks ++ [b])
    | S n => push_down cache minChainIndex n (blocks ++ [b])
    end
  else Some (Z.of_nat maxIndex, blocks).

(** The loop over the segments. *)
Fixpoint getBlocks_loop (cache : Cache) (minIndex maxIndex count : Z) (blocks : list RawBlock)
  : option (list RawBlock) :=
  match cache with
  | [] => Some blocks
  | s :: parents =>
      '(maxIndex, blocks) ←
        (if maxIndex <=? segment_top s
         then push_down cache (Z.max minIndex (startIndex s)) (Z.to_nat maxIndex) blocks
         else Some (maxIndex, blocks));
      if Z.of_nat (length blocks) =? count then Some blocks
      else getBlocks_loop parents minIndex maxIndex count blocks
  end.

Definition getBlocks (c : Core) (minIndex count : Z) : option (list RawBlock) :=
  if 0 <? count then
    top ← core_getTopBlockIndex c;
    blocks ← getBlocks_loop (main_chain c) minIndex (Z.min (u32 (minIndex + count - 1)) top) count [];
    Some (reverse blocks)
  else Some [].

(** [getBlocks(blockHashes, blocks, missedHashes)]. *)
Fixpoint getBlocks_hashes (c : Core) (blockHashes : list Hash) : option (list RawBlock * list Hash) :=
  match blockHashes with
  | [] => Some ([], [])
  | hash :: rest =>
      match findSegmentContainingBlock (chainsStorage c) (chainsLeaves c) hash with
      | None => '(blocks, missedHashes) ← getBlocks_hashes c rest; Some (blocks, hash :: missedHashes)
      | Some id =>
          blockIndex ← index_in c id hash;
          b ← BlockchainCache.getBlockByIndex (path (chainsStorage c) id) blockIndex;
          '(blocks, missedHashes) ← getBlocks_hashes c rest;
          Some (b :: blocks, missedHashes)
      end
  end.

Definition core_getBlockHashes (c : Core) (startBlockIndex maxCount : Z) : option (list Hash) :=
  BlockchainCache.getBlockHashes (main_chain c) startBlockIndex maxCount.

(** ** Synchronisation *)

(** [for (uint32_t i = 1; i < blockIndex; i *= 2)]: after 32 rounds [i] has
    become 0 and the loop would not end. *)
Fixpoint sparse_loop (fuel : nat) (chain : Cache) (blockIndex i : Z) : option (list Hash) :=
  match fuel with
  | O => None
  | S fuel =>
      if i <? blockIndex then
        h ← BlockchainCache.getBlockHash chain (blockIndex - i);
        rest ← sparse_loop fuel chain blockIndex (u32 (i * 2));
        Some (h :: rest)
      else Some []
  end.

Definition doBuildSparseChain (c : Core) (blockHash : Hash) : option (list Hash) :=
  id ← findSegmentContainingBlock (chainsStorage c) (chainsLeaves c) blockHash;
  blockIndex ← index_in c id blockHash;
  let chain := path (chainsStorage c) id in
  steps ← sparse_loop 33 chain blockIndex 1;
  genesisBlockHash ← BlockchainCache.getBlockHash chain 0;
  Some (blockHash :: steps ++
        (if bool_decide (blockHash = genesisBlockHash) then [] else [genesisBlockHash])).

Definition buildSparseChain (c : Core) : option (list Hash) :=
  topBlockHash ← core_getTopBlockHash c; doBuildSparseChain c topBlockHash.

(** The loop of [findBlockchainSupplement]; [None] is the exception. *)
Fixpoint find_known (c : Core) (remoteBlockIds : list Hash) : option Z :=
  match remoteBlockIds with
  | [] => None
  | hash :: rest =>
      match findMainChainSegmentContainingBlock (chainsStorage c) (chainsLeaves c) hash with
      | Some id => index_in c id hash
      | None => find_known c rest
      end
  end.

Definition findBlockchainSupplement (c : Core) (remoteBlockIds : list Hash) : option Z :=
  match remoteBlockIds with [] => Some 0 | _ => find_known c remoteBlockIds end.

Definition checkBlockchainSupplement (c : Core) (remoteBlockIds : list Hash) : bool :=
  existsb (fun hash => bool_decide (is_Some
    (findMainChainSegmentContainingBlock (chainsStorage c) (chainsLeaves c) hash))) remoteBlockIds.

(** [findBlockchainSupplement] with its out parameters: the hashes, the number of
    blocks, and the index of the first. *)
Definition findBlockchainSupplement_hashes (c : Core) (remoteBlockIds : list Hash) (maxCount : Z)
  : option (list Hash * Z * Z) :=
  top ← core_getTopBlockIndex c;
  startBlockIndex ← findBlockchainSupplement c remoteBlockIds;
  hashes ← core_getBlockHashes c startBlockIndex (u32 maxCount);
  Some (hashes, u32 (top + 1), startBlockIndex).

(** ** [queryBlocks] *)

Record BlockFullInfo := mkBlockFullInfo { full_raw : RawBlock; block_id : Hash }.
Record TransactionPrefixInfo := mkTransactionPrefixInfo { txHash : Hash; txPrefix : TransactionPrefix }.
Record BlockShortInfo := mkBlockShortInfo {
  blockId : Hash; short_block : list Z; txPrefixes : list TransactionPrefixInfo }.

(** [pushBlockHashes]: the hashes pushed. *)
Definition pushBlockHashes (c : Core) (startIndex fullOffset maxItemsCount : Z) : option (list Hash) :=
  let itemsCount := Z.min (u32 (fullOffset - startIndex)) (u32 maxItemsCount) in
  if itemsCount =? 0 then Some [] else core_getBlockHashes c startIndex itemsCount.

(** The loops over [blockIndex]; [f] makes one entry. *)
Definition fill_blocks {A} (f : Cache -> Z -> option A) (c : Core) (fullOffset fullBlocksCount : Z)
  : option (list A) :=
  mapM (fun blockIndex =>
          segment ← findMainChainSegmentContainingBlock_index c blockIndex;
          f (path (chainsStorage c) segment) blockIndex)
    (seqZ fullOffset fullBlocksCount).

Definition full_info (segment : Cache) (blockIndex : Z) : option BlockFullInfo :=
  h ← BlockchainCache.getBlockHash segment blockIndex;
  raw ← BlockchainCache.getBlockByIndex segment blockIndex;
  Some (mkBlockFullInfo raw h).

Definition fillQueryBlockFullInfo (c : Core) (fullOffset currentIndex maxItemsCount : Z)
  : option (list BlockFullInfo) :=
  fill_blocks full_info c fullOffset (Z.min (u32 maxItemsCount) (u32 (currentIndex - fullOffset))).

Section Prefixes.
Context (cn_fast_hash : list Z -> list Z).

Definition prefix_info (rawTransaction : list Z) : option TransactionPrefixInfo :=
  transaction ← fromBinaryArray read_transaction rawTransaction;
  Some (mkTransactionPrefixInfo (Block.getTransactionHash cn_fast_hash rawTransaction) (prefix transaction)).

Definition short_info (segment : Cache) (blockIndex : Z) : option BlockShortInfo :=
  raw ← BlockchainCache.getBlockByIndex segment blockIndex;
  h ← BlockchainCache.getBlockHash segment blockIndex;
  prefixes ← mapM prefix_info (Types.transactions raw);
  Some (mkBlockShortInfo h (block raw) prefixes).

Definition fillQueryBlockShortInfo (c : Core) (fullOffset currentIndex maxItemsCount : Z)
  : option (list BlockShortInfo) :=
  fill_blocks short_info c fullOffset (Z.min (u32 maxItemsCount) (u32 (currentIndex - fullOffset + 1))).

(** The answer to a query: [startIndex], [currentIndex], [fullOffset] and the
    entries; [None] is the return value [false]. *)
Record QueryResult (A : Type) := mkQueryResult {
  qr_startIndex : Z; qr_currentIndex : Z; qr_fullOffset : Z; qr_entries : list A }.
#[global] Arguments mkQueryResult {A}.
#[global] Arguments qr_startIndex {A}.
#[global] Arguments qr_currentIndex {A}.
#[global] Arguments qr_fullOffset {A}.
#[global] Arguments qr_entries {A}.

Definition queryBlocks (c : Core) (blockHashes : list Hash) (timestamp : Z)
  : option (QueryResult BlockFullInfo) :=
  currentIndex ← core_getTopBlockIndex c;
  startIndex ← findBlockchainSupplement c blockHashes;
  fullOffset ← getTimestampLowerBoundBlockIndex (main_chain c) timestamp;
  let fullOffset := if fullOffset <? startIndex then startIndex else fullOffset in
  hashes ← pushBlockHashes c startIndex fullOffset BLOCKS_IDS_SYNCHRONIZING_DEFAULT_COUNT;
  let entries := (fun h => mkBlockFullInfo (mkRawBlock [] []) h) <$> hashes in
  if negb (startIndex + Z.of_nat (length hashes) =? fullOffset)
  then Some (mkQueryResult startIndex currentIndex fullOffset entries)
  else
    full ← fillQueryBlockFullInfo c fullOffset currentIndex BLOCKS_SYNCHRONIZING_DEFAULT_COUNT;
    Some (mkQueryResult startIndex currentIndex fullOffset (entries ++ full)).

Definition queryBlocksLite (c : Core) (knownBlockHashes : list Hash) (timestamp : Z)
  : option (QueryResult BlockShortInfo) :=
  currentIndex ← core_getTopBlockIndex c;
  startIndex ← findBlockchainSupplement c knownBlockHashes;
  timestamp ← (if (0 <? startIndex) && (timestamp =? 0) && (startIndex <=? currentIndex)
               then b ← restoreBlockTemplate (main_chain c) startIndex; Some (Types.timestamp (header b))
               else Some timestamp);
  fullOffset ← getTimestampLowerBoundBlockIndex (main_chain c) timestamp;
  let fullOffset := if fullOffset <? startIndex then startIndex else fullOffset in
  hashes ← pushBlockHashes c startIndex fullOffset BLOCKS_IDS_SYNCHRONIZING_DEFAULT_COUNT;
  let entries := (fun h => mkBlockShortInfo h [] []) <$> hashes in
  if negb (u32 (startIndex + u32 (Z.of_nat (length hashes))) =? fullOffset)
  then Some (mkQueryResult startIndex currentIndex fullOffset entries)
  else
    full ← fillQueryBlockShortInfo c fullOffset currentIndex BLOCKS_SYNCHRONIZING_DEFAULT_COUNT;
    Some (mkQueryResult startIndex currentIndex fullOffset (entries ++ full)).
End Prefixes.

(** ** What a wallet asks for *)

Section Wallet.
Context (cn_fast_hash : list Z -> list Z).

(** The contents of a [PublicKey] that is returned without having been set. *)
Context (uninit : PublicKey).

(** The loop of [getPubKeyFromExtra]: the bytes after the first byte 1. *)
Fixpoint getPubKeyFromExtra (extra : list Z) : PublicKey :=
  match extra with
  | [] => uninit
  | x :: rest =>
      if x =? 1
      then if Z.of_nat (length rest) <? 32 then uninit else take 32 rest
      else getPubKeyFromExtra rest
  end.

Fixpoint getPaymentIDFromExtra (extra : list Z) : list Z :=
  match extra with
  | [] => []
  | x :: rest =>
      if x =? 2
      then if Z.of_nat (length rest) <? 34 then []
           else if (rest !! 1%nat) is Some 0
           then tolower <$> podToHex (take 32 (drop 2 rest))
           else getPaymentIDFromExtra rest
      else getPaymentIDFromExtra rest
  end.

Definition wallet_output (o : TransactionOutput) : WalletKeyOutput :=
  mkWalletKeyOutput (key_of_target (target o)) (amount o) None.

Definition getRawCoinbaseTransaction (t : Transaction) : option RawCoinbaseTransaction :=
  ba ← write_transaction t;
  Some (mkRawCoinbaseTransaction (wallet_output <$> outputs (prefix t)) (cn_fast_hash ba)
          (getPubKeyFromExtra (extra (prefix t))) (unlockTime (prefix t))).

(** [boost::get<KeyInput>] throws on another input. *)
Definition wallet_input (i : TransactionInput) : option (Z * list Z * KeyImage) :=
  match i with KeyInput a idx ki => Some (a, idx, ki) | BaseInput _ => None end.

(** A blob that does not parse, which the code does not check, is [None]. *)
Definition core_getRawTransaction (rawTX : list Z) : option RawTransaction :=
  t ← fromBinaryArray read_transaction rawTX;
  keyInputs ← mapM wallet_input (inputs (prefix t));
  Some (mkRawTransaction
          (mkRawCoinbaseTransaction (wallet_output <$> outputs (prefix t)) (cn_fast_hash rawTX)
             (getPubKeyFromExtra (extra (prefix t))) (unlockTime (prefix t)))
          (getPaymentIDFromExtra (extra (prefix t))) keyInputs).

Definition wallet_block (height : Z) (rawBlock : RawBlock) : option WalletBlockInfo :=
  b ← fromBinaryArray read_block (block rawBlock);
  hash ← Block.getBlockHash cn_fast_hash b;
  coinbase ← getRawCoinbaseTransaction (baseTransaction b);
  txs ← mapM core_getRawTransaction (Types.transactions rawBlock);
  Some (mkWalletBlockInfo coinbase txs height hash (Types.timestamp (header b))).

Fixpoint wallet_blocks (startIndex : Z) (rawBlocks : list RawBlock) : option (list WalletBlockInfo) :=
  match rawBlocks with
  | [] => Some []
  | rawBlock :: rest =>
      walletBlock ← wallet_block startIndex rawBlock;
      walletBlocks ← wallet_blocks (startIndex + 1) rest;
      Some (walletBlock :: walletBlocks)
  end.

(** The range of [getWalletSyncData]: [None] is the return value [false], and
    [Some None] an answer without blocks. *)
Definition wallet_range (c : Core) (knownBlockHashes : list Hash) (startHeight startTimestamp blockCount : Z)
  : option (option (Z * Z)) :=
  currentIndex ← core_getTopBlockIndex c;
  let actualBlockCount := Z.min BLOCKS_SYNCHRONIZING_DEFAULT_COUNT blockCount in
  let actualBlockCount :=
    if actualBlockCount =? 0 then BLOCKS_SYNCHRONIZING_DEFAULT_COUNT else actualBlockCount in
  let found := getBlockHeightForTimestamp (main_chain c) startTimestamp in
  if negb (startTimestamp =? 0) && bool_decide (found = None) then Some None
  else
    let timestampBlockHeight := if startTimestamp =? 0 then 0 else default 0 found in
    let firstBlockHeight := if startHeight =? 0 then timestampBlockHeight else startHeight in
    lastKnownBlockHashHeight ←
      match knownBlockHashes with
      | [] => Some 0
      | _ => if checkBlockchainSupplement c knownBlockHashes
             then findBlockchainSupplement c knownBlockHashes else None
      end;
    let startIndex := Z.max (if lastKnownBlockHashHeight =? 0 then 0 else lastKnownBlockHashHeight + 1)
                        firstBlockHeight in
    let blockDifference := u64 (currentIndex - startIndex) in
    let endIndex := u64 (Z.min actualBlockCount (u64 (blockDifference + 1)) + startIndex) in
    if currentIndex <? startIndex then Some None else Some (Some (startIndex, endIndex)).

Definition getWalletSyncData (c : Core) (knownBlockHashes : list Hash)
    (startHeight startTimestamp blockCount : Z) : option (list WalletBlockInfo) :=
  range ← wallet_range c knownBlockHashes startHeight startTimestamp blockCount;
  match range with
  | None => Some []
  | Some (startIndex, endIndex) =>
      rawBlocks ← getBlocksByHeight (main_chain c) startIndex endIndex;
      wallet_blocks startIndex rawBlocks
  end.
End Wallet.

(** ** Transactions *)

(** [segment->hasTransaction(hash)]. *)
Definition has_transaction (t : Tree) (transactionHash : Hash) (id : nat) : bool :=
  match t !! id with Some n => BlockchainCache.hasTransaction (segment n) transactionHash | None => false end.

(** The segments of an alternative chain, up to the main chain; the root is always
    in [mainChainSet], so the walk does not leave the tree. *)
Fixpoint outside (mainChainSet : gset nat) (ids : list nat) : list nat :=
  match ids with
  | [] => []
  | id :: rest => if bool_decide (id ∈ mainChainSet) then [] else id :: outside mainChainSet rest
  end.

(** The segments in the order of the search: the main chain from its top, then
    every alternative chain from its top to the main chain. *)
Definition search_order (c : Core) : list nat :=
  match chainsLeaves c with
  | [] => []
  | main :: alternatives =>
      chain_ids (chainsStorage c) main ++
      concat ((fun leaf => outside (mainChainSet c) (chain_ids (chainsStorage c) leaf)) <$> alternatives)
  end.

Definition findSegmentContainingTransaction (c : Core) (transactionHash : Hash) : option nat :=
  find (has_transaction (chainsStorage c) transactionHash) (search_order c).

Definition core_hasTransaction (c : Core) (transactionHash : Hash) : bool :=
  bool_decide (is_Some (findSegmentContainingTransaction c transactionHash)) ||
  checkIfTransactionPresent (pool_of c) transactionHash.

(** The outer option is an exception, the inner one the result. *)
Definition core_getTransaction (c : Core) (hash : Hash) : option (option (list Z)) :=
  match findSegmentContainingTransaction c hash with
  | Some id =>
      '(transactions, _) ← getRawTransactions (path (chainsStorage c) id) [hash];
      tx ← transactions !! 0%nat; Some (Some tx)
  | None =>
      if checkIfTransactionPresent (pool_of c) hash
      then tx ← getTransaction (pool_of c) hash; Some (Some (ct_binaryArray tx))
      else Some None
  end.

(** The loops of [getTransactions]: the rest of the hashes is looked for in one
    segment after the other. *)
Fixpoint getTransactions_loop (t : Tree) (ids : list nat) (leftTransactions : list Hash)
  : option (list (list Z) * list Hash) :=
  match ids, leftTransactions with
  | [], _ | _, [] => Some ([], leftTransactions)
  | id :: rest, _ =>
      '(found, missed) ← getRawTransactions (path t id) leftTransactions;
      '(more, missed) ← getTransactions_loop t rest missed;
      Some (found ++ more, missed)
  end.

Definition getTransactions (c : Core) (transactionHashes : list Hash) : option (list (list Z) * list Hash) :=
  match chainsLeaves c with
  | [] => None
  | main :: alternatives =>
      '(found, leftTransactions) ←
         (match chain_ids (chainsStorage c) main with
          | [] => None
          | id :: rest =>
              '(found, missed) ← getRawTransactions (path (chainsStorage c) id) transactionHashes;
              '(more, missed) ← getTransactions_loop (chainsStorage c) rest missed;
              Some (found ++ more, missed)
          end);
      '(more, missed) ← getTransactions_loop (chainsStorage c)
        (concat ((fun leaf => outside (mainChainSet c) (chain_ids (chainsStorage c) leaf)) <$> alternatives)) leftTransactions;
      Some (found ++ more, missed)
  end.

Definition core_getTransactionGlobalIndexes (c : Core) (transactionHash : Hash) : option (list Z) :=
  id ← findSegmentContainingTransaction c transactionHash;
  n ← chainsStorage c !! id;
  BlockchainCache.getTransactionGlobalIndexes (segment n) transactionHash.

(** ** The pool *)

(** [getTransactionPoolDifference]: the new and the deleted transactions.  The
    order in which the code lists them is that of a hash table. *)
Definition getTransactionPoolDifference (c : Core) (knownHashes : list Hash) : gset Hash * gset Hash :=
  let poolTransactions := list_to_set (getTransactionHashes (pool_of c)) : gset Hash in
  let knownTransactions := list_to_set knownHashes : gset Hash in
  (poolTransactions ∖ knownTransactions, knownTransactions ∖ poolTransactions).

(** [getPoolChanges]: whether the top block is [lastBlockHash], the blobs of the
    new transactions by hash, and the hashes of the deleted ones. *)
Definition getPoolChanges (c : Core) (lastBlockHash : Hash) (knownHashes : list Hash)
  : option (bool * list (list Z) * gset Hash) :=
  let '(newTransactions, deletedTransactions) := getTransactionPoolDifference c knownHashes in
  added ← mapM (fun hash => ct_binaryArray <$> getTransaction (pool_of c) hash) (elements newTransactions);
  top ← core_getTopBlockHash c;
  Some (bool_decide (top = lastBlockHash), added, deletedTransactions).

Definition getTransactionPoolTimeDifference (c : Core) (timestampBegin : Z) : gset Hash :=
  list_to_set (List.filter (fun hash => match getTransactionReceiveTime (pool_of c) hash with
                                        | Some transactionTime => timestampBegin <=? transactionTime
                                        | None => false end)
                 (getTransactionHashes (pool_of c))).

(** Where the transactions a wallet waits for are: in the pool, in a block,
    nowhere. *)
Definition getTransactionsStatus (c : Core) (transactionHashes : gset Hash)
  : gset Hash * gset Hash * gset Hash :=
  let pool := list_to_set (getTransactionHashes (pool_of c)) : gset Hash in
  (filter (fun h => h ∈ pool) transactionHashes,
   filter (fun h => (h ∉ pool) /\ is_Some (findSegmentContainingTransaction c h)) transactionHashes,
   filter (fun h => (h ∉ pool) /\ findSegmentContainingTransaction c h = None) transactionHashes).

(** ** Difficulty *)

Definition getBlockDifficulty (c : Core) (blockIndex : Z) : option Z :=
  difficulties ← getLastCumulativeDifficulties (main_chain c) 2 blockIndex true;
  match difficulties with
  | [d0; d1] => Some (u64 (d1 - d0))
  | d0 :: _ => Some d0
  | [] => None
  end.

Definition core_getDifficultyForNextBlock (currency : Currency) (upgradeManager : UpgradeManager.t)
    (c : Core) : option Z :=
  topBlockIndex ← core_getTopBlockIndex c;
  let nextBlockMajorVersion := UpgradeManager.getBlockMajorVersion upgradeManager topBlockIndex in
  let blocksCount := Z.min topBlockIndex
    (difficultyBlocksCountByBlockVersion currency nextBlockMajorVersion topBlockIndex) in
  timestamps ← getLastTimestamps (main_chain c) blocksCount topBlockIndex false;
  difficulties ← getLastCumulativeDifficulties (main_chain c) blocksCount topBlockIndex false;
  getNextDifficulty currency nextBlockMajorVersion topBlockIndex timestamps difficulties.
