(* ===== verification/QueryTheorems.v ===== *)
(** * The core: theorems on the queries

    Queries read the main chain as one list of blocks, whatever segments it is
    stored in; two nodes that synchronise find their last common block; a
    transaction is found wherever in the tree it is. *)

From stdpp Require Import base gmap sets list sorting.
From S2P Require Import Prelude Config Bytes StringTools Types Mixins TxExtra Serialization Block Median Upgrade.
From S2P Require Import Checkpoints Currency Difficulty BlockchainCache CacheFacts CacheSteps.
From S2P Require Import Validation TransactionPool PoolCleaner ChainTree Core CoreFacts CorePool.
From S2P Require Import CoreChecks CoreSteps CoreTheorems CoreQueries.
Import parameters.

(** ** Reading the main chain *)

Lemma push_down_spec cache minIndex n blocks :
  cache_ok cache -> 0 <= minIndex -> Z.of_nat n < height cache ->
  exists rest, push_down cache minIndex n blocks =
      Some (rest, blocks ++ reverse (drop (Z.to_nat minIndex) (take (S n) (chain_storage cache)))) /\
    (minIndex <= Z.of_nat n -> rest = if minIndex =? 0 then 0 else minIndex - 1) /\
    (Z.of_nat n < minIndex -> rest = Z.of_nat n).
Proof.
  intros Hok Hmin. pose proof (length_chain_storage _ Hok) as Hlen.
  assert (forall m, Z.of_nat m < height cache -> (S m <= length (chain_storage cache))%nat) as Hm.
  { intros m Hm. unfold height in Hm. lia. }
  revert blocks. induction n as [|n IH]; intros blocks Hn; cbn [push_down]; specialize (Hm _ Hn) as HS.
  - destruct (minIndex <=? Z.of_nat 0) eqn:E; bool_to_prop.
    + assert (minIndex = 0) as -> by lia. rewrite getBlockByIndex_chain by (done || lia).
      destruct (lookup_lt_is_Some_2 (chain_storage cache) 0) as [b Hb]; [lia|].
      replace (Z.to_nat (Z.of_nat 0)) with 0%nat by lia. rewrite Hb. cbn [mbind option_bind].
      exists 0. split; [|split; [done|lia]]. rewrite (take_S_r _ _ b Hb). done.
    + exists (Z.of_nat 0). split; [|split; [lia|done]].
      rewrite drop_ge by (rewrite length_take; lia). by rewrite app_nil_r.
  - destruct (minIndex <=? Z.of_nat (S n)) eqn:E; bool_to_prop.
    + rewrite getBlockByIndex_chain by (done || lia). rewrite Nat2Z.id.
      destruct (lookup_lt_is_Some_2 (chain_storage cache) (S n)) as [b Hb]; [lia|].
      rewrite Hb. cbn [mbind option_bind].
      destruct (IH (blocks ++ [b]) ltac:(lia)) as (rest & -> & H1 & H2).
      exists rest. split.
      * do 2 f_equal. rewrite (take_S_r _ (S n) b Hb), drop_app_le by (rewrite length_take; lia).
        by rewrite reverse_snoc, <- app_assoc.
      * split; [|lia]. intros _. destruct (decide (minIndex <= Z.of_nat n)); [auto|].
        rewrite H2 by lia. destruct (minIndex =? 0) eqn:?; bool_to_prop; lia.
    + exists (Z.of_nat (S n)). split; [|split; [lia|done]].
      rewrite drop_ge by (rewrite length_take; lia). by rewrite app_nil_r.
Qed.

(** The slice of a list from [a] up to and including [m]. *)
Abbreviation between l a m := (drop (Z.to_nat a) (take (S (Z.to_nat m)) l)).

Lemma getBlocks_loop_done cache minIndex maxIndex count blocks :
  cache_ok cache -> 0 <= maxIndex < minIndex ->
  getBlocks_loop cache minIndex maxIndex count blocks = Some blocks.
Proof.
  intros Hok Hm. induction cache as [|s parents IH]; [done|]. cbn [getBlocks_loop].
  pose proof Hok as (Hp & Hb & _). pose proof (segment_top_ok _ _ Hb) as Ht.
  assert ((if maxIndex <=? segment_top s
     then push_down (s :: parents) (Z.max minIndex (startIndex s)) (Z.to_nat maxIndex) blocks
     else Some (maxIndex, blocks)) = Some (maxIndex, blocks)) as ->.
  { destruct (maxIndex <=? segment_top s) eqn:E; [|done]. bool_to_prop.
    destruct (push_down_spec (s :: parents) (Z.max minIndex (startIndex s)) (Z.to_nat maxIndex) blocks)
      as (rest & -> & _ & H2); [done|lia|lia|]. rewrite H2 by lia. rewrite Z2Nat.id by lia.
    rewrite drop_ge by (rewrite length_take; lia). by rewrite app_nil_r. }
  cbn [mbind option_bind]. destruct (_ =? count); [done|]. by apply IH.
Qed.

Lemma getBlocks_loop_spec cache minIndex maxIndex count blocks :
  cache_ok cache -> 0 <= minIndex <= maxIndex -> maxIndex < height cache ->
  Z.of_nat (length blocks) + (maxIndex - minIndex + 1) <= count ->
  getBlocks_loop cache minIndex maxIndex count blocks =
    Some (blocks ++ reverse (between (chain_storage cache) minIndex maxIndex)).
Proof.
  revert maxIndex blocks. induction cache as [|s parents IH]; intros maxIndex blocks Hok Hmin Hmax Hcount.
  { change (height []) with 0 in Hmax. lia. }
  cbn [getBlocks_loop]. pose proof Hok as (Hp & Hb & _). pose proof (segment_top_ok _ _ Hb) as Ht.
  pose proof (chain_start _ _ Hok) as Es. pose proof (height_nonneg parents) as Hh.
  pose proof (length_chain_storage _ Hp) as Hlp.
  rewrite (proj2 (Z.leb_le _ _)) by lia.
  destruct (push_down_spec (s :: parents) (Z.max minIndex (startIndex s)) (Z.to_nat maxIndex) blocks)
    as (rest & -> & H1 & H2); [done|lia|lia|]. cbn [mbind option_bind].
  destruct (decide (startIndex s <= minIndex)) as [Hs|Hs].
  - rewrite Z.max_l by done. destruct (_ =? count) eqn:Ec; [done|].
    rewrite Z.max_l in H1 by done. rewrite H1 by lia. destruct (minIndex =? 0) eqn:E0; bool_to_prop.
    + assert (parents = []) as ->; [|done]. destruct parents as [|q l]; [done|].
      destruct Hp as (_ & (_ & Hne & _) & _). rewrite height_cons in Es. pose proof (height_nonneg l).
      destruct (blockInfos q); [done|]. cbn in Es. lia.
    + by apply getBlocks_loop_done; [done|lia].
  - rewrite Z.max_r by lia. set (own := drop _ _).
    assert (between (chain_storage (s :: parents)) minIndex maxIndex =
      between (chain_storage parents) minIndex (Z.min maxIndex (startIndex s - 1)) ++ own) as Esplit.
    { unfold own. cbn [chain_storage]. unfold height in Es.
      destruct (decide (maxIndex < startIndex s)) as [Hlt|Hge].
      - rewrite Z.min_l by lia. rewrite !take_app_le by lia.
        rewrite (drop_ge (take _ _) (Z.to_nat (startIndex s))) by (rewrite length_take; lia).
        by rewrite app_nil_r.
      - rewrite Z.min_r by lia. rewrite !take_app_ge by lia.
        rewrite (take_ge (chain_storage parents)) by lia. rewrite !drop_app.
        rewrite (drop_ge (chain_storage parents) (Z.to_nat (startIndex s))) by lia.
        replace (Z.to_nat (startIndex s) - length (chain_storage parents))%nat with 0%nat by lia.
        by replace (Z.to_nat minIndex - length (chain_storage parents))%nat with 0%nat by lia. }
    rewrite Esplit, reverse_app, app_assoc. set (blocks' := blocks ++ reverse own).
    assert (Z.of_nat (length own) = Z.max 0 (maxIndex - startIndex s + 1)) as Hown.
    { unfold own. rewrite length_drop, length_take, length_chain_storage by done.
      unfold height in *. lia. }
    assert (rest = Z.min maxIndex (startIndex s - 1)) as ->.
    { rewrite Z.max_r in H1, H2 by lia. destruct (decide (startIndex s <= maxIndex)).
      - rewrite H1 by lia. destruct (_ =? 0) eqn:E; bool_to_prop; lia.
      - rewrite H2; lia. }
    assert (Z.of_nat (length blocks') = Z.of_nat (length blocks) + Z.of_nat (length own)) as Hb'.
    { unfold blocks'. rewrite length_app, length_reverse. lia. }
    rewrite (proj2 (Z.eqb_neq _ _)) by lia. apply IH; [done|lia|lia|lia].
Qed.

Lemma drop_take_between {A} (l : list A) a n :
  drop a (take (a + n) l) = take n (drop a l).
Proof. by rewrite <- take_drop_commute. Qed.

Lemma getBlocks_spec currency c minIndex count :
  core_ok currency c -> 0 <= minIndex -> 0 < count -> minIndex + count <= 2 ^ 32 ->
  getBlocks c minIndex count =
    Some (take (Z.to_nat count) (drop (Z.to_nat minIndex) (chain_storage (main_chain c)))).
Proof.
  intros Hc Hmin Hcount Hsum. destruct (core_main _ _ Hc) as (_ & _ & _ & _ & Gm & Hne).
  pose proof (gc_cache _ _ Gm) as Hok. pose proof (length_chain_storage _ Hok) as Hlen.
  unfold getBlocks, core_getTopBlockIndex. rewrite (proj2 (Z.ltb_lt _ _)), top_of_chain by done.
  cbn [mbind option_bind]. rewrite wrap_small by (split; words; lia).
  assert (0 < height (main_chain c)) as Hpos.
  { destruct (main_chain c) as [|s l]; [done|]. destruct Hok as (_ & (_ & Hb & _) & _).
    rewrite height_cons. pose proof (height_nonneg l). destruct (blockInfos s); [done|]. cbn. lia. }
  destruct (decide (minIndex < height (main_chain c))) as [Hlt|Hge].
  - rewrite getBlocks_loop_spec; [|done|lia|lia|cbn; lia]. cbn [app mbind option_bind].
    rewrite reverse_involutive. f_equal. unfold height in *.
    destruct (decide (minIndex + count <= Z.of_nat (length (chain_storage (main_chain c))))).
    + rewrite Z.min_l by lia. replace (S (Z.to_nat (minIndex + count - 1))) with
        (Z.to_nat minIndex + Z.to_nat count)%nat by lia. apply drop_take_between.
    + rewrite Z.min_r by lia. rewrite take_ge by lia. rewrite take_ge; [done|].
      rewrite length_drop. lia.
  - rewrite getBlocks_loop_done; [|done|lia]. cbn [mbind option_bind]. unfold height in *.
    rewrite drop_ge by lia. by rewrite take_nil.
Qed.

Lemma getBlockHashes_chain c start maxCount :
  cache_ok c -> c <> [] -> 0 <= start <= height c -> 0 <= maxCount < 2 ^ 32 ->
  getBlockHashes c start maxCount =
    Some (take (Z.to_nat maxCount) (drop (Z.to_nat start) (bi_blockHash <$> chain_blocks c))).
Proof.
  intros Hok Hne Hs Hm. induction c as [|s parents IH]; [done|]. cbn [getBlockHashes]. clear Hne.
  pose proof (chain_start _ _ Hok) as Es. pose proof Hok as (Hp & (_ & _ & _ & Hh) & _).
  rewrite height_cons in *. pose proof (height_nonneg parents) as Hh0.
  cbn [chain_blocks]. rewrite fmap_app. unfold height in Es.
  assert (Z.of_nat (length (bi_blockHash <$> chain_blocks parents)) = startIndex s) as El
    by (rewrite length_fmap; lia).
  destruct (start <? startIndex s) eqn:E; bool_to_prop.
  - assert (parents <> []) as Hpn by (intros ->; cbn in *; lia).
    rewrite (IH Hp Hpn) by (unfold height; lia). cbn [mbind option_bind].
    set (hs := take _ _). assert (Z.of_nat (length hs) = Z.min maxCount (startIndex s - start)) as Hl.
    { unfold hs. rewrite length_take, length_drop. lia. }
    rewrite wrap_small by (split; words; lia). rewrite slice_ok by lia. cbn [mbind option_bind].
    f_equal. rewrite drop_app_le by lia. rewrite take_app. fold hs. f_equal.
    change (map bi_blockHash) with (fmap (M := list) bi_blockHash). rewrite fmap_take.
    change (Z.to_nat 0) with 0%nat. rewrite drop_0.
    rewrite length_drop.
    destruct (decide (Z.of_nat (length (blockInfos s)) <= maxCount - Z.of_nat (length hs))).
    + rewrite !take_ge; [done|..]; rewrite !length_fmap in *; lia.
    + f_equal. lia.
  - unfold height in *. rewrite wrap_small by (split; words; lia). rewrite slice_ok by lia.
    cbn [mbind option_bind]. f_equal. rewrite drop_app_ge by lia. change (map bi_blockHash) with (fmap (M := list) bi_blockHash).
    rewrite fmap_take, fmap_drop. replace (Z.to_nat (start - startIndex s)) with
      (Z.to_nat start - length (bi_blockHash <$> chain_blocks parents))%nat by lia.
    destruct (decide (Z.of_nat (length (blockInfos s)) - (start - startIndex s) <= maxCount)).
    + rewrite !take_ge; [done|..]; rewrite length_drop, !length_fmap in *; lia.
    + f_equal. lia.
Qed.

(** ** Finding a block of the main chain *)

Abbreviation main_hashes c := (bi_blockHash <$> chain_blocks (main_chain c)).

Lemma chain_find t leaf l h :
  chain_of t leaf l -> cache_ok (segments t l) ->
  match findIndexInChain t leaf h with
  | Some id => exists n i, t !! id = Some n /\ BlockchainCache.getBlockIndex (segment n) h = Some i /\
      0 <= i /\ (bi_blockHash <$> chain_blocks (segments t l)) !! Z.to_nat i = Some h /\
      (bi_blockHash <$> chain_blocks (path t id)) !! Z.to_nat i = Some h /\
      exists pre, segments t l = pre ++ path t id
  | None => h ∉ bi_blockHash <$> chain_blocks (segments t l)
  end.
Proof.
  intros Hl Hok. unfold findIndexInChain. rewrite (chain_ids_of _ _ _ Hl).
  destruct (find _ l) as [id|] eqn:E.
  - apply find_some in E as [Hin Hh]. rewrite <- list_elem_of_In in Hin.
    apply segment_has_node in Hh as (n & En & Hn).
    apply list_elem_of_split in Hin as (l1 & l2 & ->).
    pose proof (chain_of_suffix _ _ _ id l1 l2 Hl eq_refl) as Hs.
    unfold segments in Hok |- *. rewrite omap_app in Hok |- *. fold (segments t l1) (segments t (id :: l2)) in *.
    rewrite (tree_path _ _ _ Hs). rewrite (segments_cons t id n) in * by done.
    assert (cache_ok (segment n :: segments t l2)) as Hoks.
    { clear -Hok. induction (segments t l1) as [|s p IH]; [done|]. destruct Hok as [? _]. by apply IH. }
    destruct (BlockchainCache.getBlockIndex (segment n) h) as [i|] eqn:Ei.
    2:{ exfalso. unfold BlockchainCache.getBlockIndex in Ei.
        destruct (list_find _ _) as [[? ?]|] eqn:Ef; [done|]. apply list_find_None in Ef.
        apply list_elem_of_fmap in Hn as (b & -> & Hb). rewrite Forall_forall in Ef. by apply (Ef b). }
    destruct (getBlockIndex_in _ _ _ _ Hoks Ei) as [Hi (b & Hb & <-)].
    pose proof (chain_start _ _ Hoks) as Es. pose proof (height_nonneg (segments t l2)).
    exists n, i. split; [done|]. split; [done|]. split; [lia|].
    assert ((bi_blockHash <$> chain_blocks (segment n :: segments t l2)) !! Z.to_nat i = Some (bi_blockHash b))
      as Hbi by (by rewrite list_lookup_fmap, Hb).
    split; [|split; [done|by eexists]].
    destruct (reaches_app (segments t l1) (segment n :: segments t l2)) as [[more ->] _ _].
    rewrite fmap_app. by apply lookup_app_l_Some.
  - apply segments_without. intros id Hid. by apply (proj1 (find_none_all _ _) E).
Qed.

Lemma main_find currency c h :
  core_ok currency c ->
  match findMainChainSegmentContainingBlock (chainsStorage c) (chainsLeaves c) h with
  | Some id => exists i, index_in c id h = Some i /\ 0 <= i /\ main_hashes c !! Z.to_nat i = Some h /\
      (bi_blockHash <$> chain_blocks (path (chainsStorage c) id)) !! Z.to_nat i = Some h /\
      cache_ok (path (chainsStorage c) id) /\
      exists more, chain_blocks (main_chain c) = chain_blocks (path (chainsStorage c) id) ++ more
  | None => h ∉ main_hashes c
  end.
Proof.
  intros Hc. destruct (core_main _ _ Hc) as (leaf & rest & El & Em & Gm & _).
  destruct (forest_chain _ _ leaf (co_forest _ _ Hc)) as [l Hl]; [rewrite El; by left|].
  unfold findMainChainSegmentContainingBlock. rewrite El. cbn [head mbind option_bind].
  pose proof (gc_cache _ _ Gm) as Hok. rewrite Em, (tree_path _ _ _ Hl) in Hok |- *.
  pose proof (chain_find _ leaf l h Hl Hok) as Hf. destruct (findIndexInChain _ leaf h) as [id|]; [|done].
  destruct Hf as (n & i & En & Ei & Hi & Hh & Hh' & pre & Ep). exists i.
  split; [unfold index_in; by rewrite En|]. split; [done|]. split; [done|]. split; [done|].
  split; [apply (forest_path_ok _ _ _ (co_forest _ _ Hc)); eauto|]. rewrite Ep. apply re_blocks, reaches_app.
Qed.

(** The search for a known block skips what is not on the main chain. *)
Lemma find_known_skip currency c hash rest :
  core_ok currency c -> hash ∉ main_hashes c -> find_known c (hash :: rest) = find_known c rest.
Proof.
  intros Hc Hn. cbn. pose proof (main_find currency c hash Hc) as Hf.
  destruct (findMainChainSegmentContainingBlock _ _ hash) as [id|]; [|done].
  destruct Hf as (i & _ & _ & Hh & _). by apply list_elem_of_lookup_2 in Hh.
Qed.

Lemma find_known_hit currency c hash rest i :
  core_ok currency c -> 0 <= i -> main_hashes c !! Z.to_nat i = Some hash ->
  find_known c (hash :: rest) = Some i.
Proof.
  intros Hc H0 Hi. cbn. pose proof (main_find currency c hash Hc) as Hf.
  destruct (core_main _ _ Hc) as (_ & _ & _ & _ & Gm & _).
  destruct (findMainChainSegmentContainingBlock _ _ hash) as [id|].
  - destruct Hf as (j & -> & Hj & Hh & _). f_equal.
    pose proof (NoDup_lookup _ _ _ _ (gc_hashes _ _ Gm) Hi Hh). lia.
  - by apply list_elem_of_lookup_2 in Hi.
Qed.

(** ** Synchronisation *)

Section Sync.
Context (currency : Currency) (a b : Core) (Ha : core_ok currency a) (Hb : core_ok currency b).
Context (f top : Z) (Htop : Z.of_nat (length (main_hashes a)) = top + 1) (Hsmall : top < 2 ^ 31).

(** The first [f] blocks are common, the others of [a] are not known to [b]. *)
Context (Hf : 0 < f <= top + 1).
Context (Hcommon : forall i h, 0 <= i < f -> main_hashes a !! Z.to_nat i = Some h ->
  main_hashes b !! Z.to_nat i = Some h).
Context (Hforked : forall i h, f <= i -> main_hashes a !! Z.to_nat i = Some h -> h ∉ main_hashes b).

(** The blocks of [a] that [b] does not have. *)
Abbreviation d := (top + 1 - f).

Lemma hash_at i : 0 <= i <= top -> exists h, main_hashes a !! Z.to_nat i = Some h.
Proof. intros Hi. apply lookup_lt_is_Some_2. lia. Qed.

Context (chain : Cache) (Hok : cache_ok chain).
Context (Hchain : bi_blockHash <$> chain_blocks chain = main_hashes a).

(** The loop ends within its fuel. *)
Lemma sparse_loop_total fuel i :
  0 < i < 2 ^ 32 -> 2 ^ (33 - Z.of_nat fuel) <= i -> (fuel <= 33)%nat ->
  exists hs, sparse_loop fuel chain top i = Some hs.
Proof.
  revert i. induction fuel as [|fuel IH]; intros i Hi Hpow Hle.
  { change (33 - Z.of_nat 0) with 33 in Hpow. lia. }
  cbn [sparse_loop]. destruct (i <? top) eqn:E; bool_to_prop; [|by eexists].
  destruct (hash_at (top - i) ltac:(lia)) as [h Hh].
  rewrite getBlockHash_chain, Hchain, Hh by (done || lia). cbn [mbind option_bind].
  rewrite wrap_small by (split; words; lia). destruct (IH (i * 2)) as [hs ->]; [lia| |lia|by eexists].
  replace (33 - Z.of_nat fuel) with (33 - Z.of_nat (S fuel) + 1) by lia.
  rewrite Z.pow_add_r by lia. lia.
Qed.

(** What the other node finds in the hashes the loop lists. *)
Lemma sparse_loop_known fuel i g hs :
  main_hashes a !! 0%nat = Some g -> 0 < d -> 0 < i < 2 * d -> i < 2 ^ 32 ->
  sparse_loop fuel chain top i = Some hs ->
  exists s, find_known b (hs ++ [g]) = Some s /\ 0 <= s < f /\ f - 1 - s < d.
Proof.
  intros Hg Hd. revert i hs. induction fuel as [|fuel IH]; intros i hs Hi Hlt; [done|].
  cbn [sparse_loop]. destruct (i <? top) eqn:E; bool_to_prop.
  - destruct (hash_at (top - i) ltac:(lia)) as [h Hh].
    rewrite getBlockHash_chain, Hchain, Hh by (done || lia). cbn [mbind option_bind].
    rewrite wrap_small by (split; words; lia).
    destruct (sparse_loop fuel chain top (i * 2)) as [l|] eqn:El; [|done].
    cbn [mbind option_bind]. intros [= <-]. cbn [app]. destruct (decide (i < d)) as [Hid|Hid].
    + destruct (IH (i * 2) l ltac:(lia) ltac:(lia) El) as (s & Es & Hs). exists s. split; [|done].
      erewrite find_known_skip; [done|done|]. apply (Hforked (top - i)); [lia|done].
    + exists (top - i). split; [|lia]. eapply find_known_hit; [done|lia|].
      apply Hcommon; [lia|done].
  - intros [= <-]. exists 0. split; [|lia]. cbn [app].
    eapply find_known_hit; [done|lia|]. by apply Hcommon; [lia|].
Qed.
End Sync.

(** The top block of the main chain, found through the tree. *)
Lemma top_block currency c :
  core_ok currency c ->
  exists id h, core_getTopBlockHash c = Some h /\
    findSegmentContainingBlock (chainsStorage c) (chainsLeaves c) h = Some id /\
    index_in c id h = Some (height (main_chain c) - 1) /\ 0 < height (main_chain c) /\
    main_hashes c !! Z.to_nat (height (main_chain c) - 1) = Some h /\
    cache_ok (path (chainsStorage c) id) /\
    chain_blocks (path (chainsStorage c) id) = chain_blocks (main_chain c).
Proof.
  intros Hc. destruct (core_main _ _ Hc) as (leaf & rest & El & Em & Gm & Hne).
  assert (exists h, core_getTopBlockHash c = Some h /\ 0 < height (main_chain c) /\
    main_hashes c !! Z.to_nat (height (main_chain c) - 1) = Some h) as (h & Eh & Hpos & Hh).
  { unfold core_getTopBlockHash, BlockchainCache.getTopBlockHash. pose proof (gc_cache _ _ Gm) as Hok.
    destruct (main_chain c) as [|s l]; [done|]. destruct Hok as (_ & (_ & Hb & _) & _).
    destruct (last (blockInfos s)) as [x|] eqn:Ex; [|by apply last_None in Ex].
    exists (bi_blockHash x). split; [done|]. rewrite height_cons. pose proof (height_nonneg l).
    assert (0 < Z.of_nat (length (blockInfos s))) by (destruct (blockInfos s); [done|cbn; lia]).
    split; [lia|]. rewrite list_lookup_fmap. cbn [chain_blocks]. unfold height.
    rewrite lookup_app_r by lia. rewrite last_lookup in Ex.
    replace (Z.to_nat _ - _)%nat with (pred (length (blockInfos s))) by lia. by rewrite Ex. }
  pose proof (main_find currency c h Hc) as Hf. unfold findSegmentContainingBlock.
  destruct (findMainChainSegmentContainingBlock _ _ h) as [id|] eqn:Ef.
  2:{ by apply list_elem_of_lookup_2 in Hh. }
  destruct Hf as (i & Hi & H0 & Hih & Hip & Hcache & more & Hmore). exists id, h.
  assert (i = height (main_chain c) - 1) as ->.
  { pose proof (NoDup_lookup _ _ _ _ (gc_hashes _ _ Gm) Hih Hh). lia. }
  split; [done|]. split; [by rewrite Ef|]. split; [done|]. split; [done|]. split; [done|]. split; [done|].
  apply lookup_lt_Some in Hip. rewrite length_fmap in Hip. rewrite Hmore.
  assert (length (chain_blocks (main_chain c)) = (length (chain_blocks (path (chainsStorage c) id)) + length more)%nat)
    as Hl by (by rewrite Hmore, length_app).
  unfold height in Hip. destruct more; [by rewrite app_nil_r|cbn in Hl; lia].
Qed.

(** The common block that the locator of [a] leads [b] to. *)
Lemma sync_supplement currency a b f :
  core_ok currency a -> core_ok currency b ->
  height (main_chain a) <= 2 ^ 31 -> 0 < f <= height (main_chain a) ->
  (forall i h, 0 <= i < f -> main_hashes a !! Z.to_nat i = Some h -> main_hashes b !! Z.to_nat i = Some h) ->
  (forall i h, f <= i -> main_hashes a !! Z.to_nat i = Some h -> h ∉ main_hashes b) ->
  exists locator s, buildSparseChain a = Some locator /\ findBlockchainSupplement b locator = Some s /\
    0 <= s < f /\ (f = height (main_chain a) -> s = f - 1) /\
    (f < height (main_chain a) -> f - 1 - s < height (main_chain a) - f).
Proof.
  intros Ha Hb Hsmall Hf Hcommon Hforked.
  destruct (top_block currency a Ha) as (id & h & Eh & Efind & Eidx & Hpos & Hh & Hok & Hblocks).
  set (top := height (main_chain a) - 1) in *.
  assert (Z.of_nat (length (main_hashes a)) = top + 1) as Htop
    by (rewrite length_fmap; unfold top, height; lia).
  unfold buildSparseChain. rewrite Eh. cbn [mbind option_bind]. unfold doBuildSparseChain.
  rewrite Efind. cbn [mbind option_bind]. rewrite Eidx. cbn [mbind option_bind].
  set (chain := path (chainsStorage a) id) in *.
  assert (bi_blockHash <$> chain_blocks chain = main_hashes a) as Hchain by (by rewrite Hblocks).
  destruct (sparse_loop_total a f top Htop ltac:(lia) ltac:(lia) chain Hok Hchain 33 1) as [hs Ehs]; [lia|done|lia|].
  rewrite Ehs. cbn [mbind option_bind].
  destruct (hash_at a f top Htop ltac:(lia) 0 ltac:(lia)) as [g Hg].
  rewrite getBlockHash_chain, Hchain, Hg by (done || lia). cbn [mbind option_bind].
  eexists. destruct (decide (f = height (main_chain a))) as [->|Hne].
  - exists top. split; [reflexivity|]. split; [|unfold top; lia].
    eapply find_known_hit; [done|unfold top; lia|]. apply Hcommon; [unfold top; lia|done].
  - destruct (core_main _ _ Ha) as (_ & _ & _ & _ & Gm & _).
    assert (h <> g) as Hhg.
    { intros <-. pose proof (NoDup_lookup _ _ _ _ (gc_hashes _ _ Gm) Hh Hg). unfold top in *. lia. }
    rewrite bool_decide_false by done.
    destruct (sparse_loop_known currency a b Hb f top Htop ltac:(lia) ltac:(lia) Hcommon Hforked chain Hok Hchain
      33 1 g hs) as (s & Es & Hs & Hd); [done|unfold top in *; lia|unfold top in *; lia|lia|done|].
    exists s. split; [reflexivity|]. split; [|unfold top in *; lia].
    unfold findBlockchainSupplement. erewrite find_known_skip; [exact Es|done|].
    apply (Hforked top); [unfold top in *; lia|done].
Qed.

(** C10: when node [a] sends the sparse chain of its main chain to node [b],
    and the two main chains agree on their first [f] blocks and on none after, [b]
    finds a block that is common to both.  When [a] has no block that [b]
    lacks, it is the last block of [a]; otherwise [b] goes back from the last common
    block by fewer blocks than [a] has beyond it. *)
Theorem sync_supplement_correct currency a b f :
  core_ok currency a -> core_ok currency b ->
  height (main_chain a) <= 2 ^ 31 -> 0 < f <= height (main_chain a) ->
  (forall i h, 0 <= i < f -> main_hashes a !! Z.to_nat i = Some h -> main_hashes b !! Z.to_nat i = Some h) ->
  (forall i h, f <= i -> main_hashes a !! Z.to_nat i = Some h -> h ∉ main_hashes b) ->
  exists locator s, buildSparseChain a = Some locator /\ findBlockchainSupplement b locator = Some s /\
    0 <= s < f /\ (f = height (main_chain a) -> s = f - 1) /\
    (f < height (main_chain a) -> f - 1 - s < height (main_chain a) - f).
Proof. apply sync_supplement. Qed.

(** ** Blocks by index *)

(** The test of [findIndexInChain] on one segment. *)
Lemma segment_test s parents i :
  cache_ok (s :: parents) -> i < height (s :: parents) ->
  ((startIndex s <=? i) && (i <? u32 (startIndex s + getBlockCount s))) = (startIndex s <=? i).
Proof.
  intros Hc Hi. pose proof (chain_start _ _ Hc) as Es. pose proof Hc as (_ & (_ & _ & _ & Hh) & _).
  rewrite height_cons in *. pose proof (height_nonneg parents). unfold getBlockCount.
  rewrite (wrap_small 32 (Z.of_nat _)) by (split; words; lia). rewrite wrap_small by (split; words; lia).
  by rewrite (proj2 (Z.ltb_lt _ _)), andb_true_r by lia.
Qed.

Lemma chain_find_index t leaf l i :
  chain_of t leaf l -> (forall id k, chain_of t id k -> cache_ok (segments t k)) ->
  0 <= i < height (segments t l) ->
  exists id pre, findIndexInChain_index t leaf i = Some id /\ segments t l = pre ++ path t id /\
    cache_ok (path t id) /\ i < height (path t id).
Proof.
  intros Hl Hok. unfold findIndexInChain_index. rewrite (chain_ids_of _ _ _ Hl).
  assert (forall id n k, chain_of t id (id :: k) -> t !! id = Some n -> startIndex (segment n) <= i ->
    i < height (segments t (id :: k)) -> exists x pre, Some id = Some x /\
      segments t (id :: k) = pre ++ path t x /\ cache_ok (path t x) /\ i < height (path t x)) as Hhere.
  { intros id n k Hch En Hge Hlt. exists id, []. rewrite (tree_path _ _ _ Hch).
    split; [done|]. split; [done|]. split; [by apply (Hok id)|done]. }
  induction Hl as [id n En Ep|id n p l En Ep Hl IH]; intros Hi.
  - pose proof (chain_root t id n En Ep) as Hch. pose proof (Hok _ _ Hch) as Hc. cbn [find]. rewrite En.
    rewrite (segments_cons t id n) in Hc by done. pose proof (chain_start _ _ Hc) as Es. change (startIndex (segment n) = 0) in Es.
    rewrite (segment_test _ _ i Hc) by (rewrite <- (segments_cons t id n) by done; lia).
    rewrite (proj2 (Z.leb_le _ _)) by lia. eapply Hhere; [done|done|lia|lia].
  - pose proof (chain_step t id n p l En Ep Hl) as Hch. pose proof (Hok _ _ Hch) as Hc. cbn [find]. rewrite En.
    rewrite (segments_cons t id n) in Hc by done. pose proof (chain_start _ _ Hc) as Es.
    rewrite (segment_test _ _ i Hc) by (rewrite <- (segments_cons t id n) by done; lia).
    destruct (_ <=? i) eqn:E; bool_to_prop; [eapply Hhere; [done|done|lia|lia]|].
    destruct IH as (x & pre & Ex & Epre & Hx); [lia|]. exists x, (segment n :: pre).
    split; [done|]. split; [|done]. rewrite (segments_cons t id n) by done. by rewrite Epre.
Qed.

Lemma main_find_index currency c i :
  core_ok currency c -> 0 <= i < height (main_chain c) ->
  exists id, findMainChainSegmentContainingBlock_index c i = Some id /\
    BlockchainCache.getBlockHash (path (chainsStorage c) id) i = main_hashes c !! Z.to_nat i /\
    BlockchainCache.getBlockByIndex (path (chainsStorage c) id) i = chain_storage (main_chain c) !! Z.to_nat i.
Proof.
  intros Hc. destruct (core_main _ _ Hc) as (leaf & rest & El & Em & Gm & _).
  destruct (forest_chain _ _ leaf (co_forest _ _ Hc)) as [l Hl]; [rewrite El; by left|].
  rewrite Em, (tree_path _ _ _ Hl). intros Hi.
  destruct (chain_find_index _ leaf l i Hl (tree_cache _ (forest_tree _ _ (co_forest _ _ Hc))) Hi)
    as (id & pre & Ef & Ep & Hok & Hlt).
  exists id. unfold findMainChainSegmentContainingBlock_index. rewrite El. split; [done|].
  rewrite getBlockHash_chain, getBlockByIndex_chain, Ep by (done || lia).
  destruct (reaches_app pre (path (chainsStorage c) id)) as [[m1 ->] [m2 ->] _].
  pose proof (length_chain_storage _ Hok). unfold height in Hlt. rewrite fmap_app.
  split; by rewrite lookup_app_l by (rewrite ?length_fmap; lia).
Qed.

(** The loops that collect blocks by index. *)
Lemma fill_blocks_spec {A} (g : Cache -> Z -> option A) (e : Hash -> RawBlock -> option A) currency c start count :
  core_ok currency c -> 0 <= start -> start + count <= height (main_chain c) ->
  (forall cache i h raw, BlockchainCache.getBlockHash cache i = Some h ->
     BlockchainCache.getBlockByIndex cache i = Some raw -> g cache i = e h raw) ->
  fill_blocks g c start count =
    mapM (fun x => e x.1 x.2) (zip (take (Z.to_nat count) (drop (Z.to_nat start) (main_hashes c)))
      (take (Z.to_nat count) (drop (Z.to_nat start) (chain_storage (main_chain c))))).
Proof.
  intros Hc Hs Hcount Hg. unfold fill_blocks.
  destruct (core_main _ _ Hc) as (_ & _ & _ & _ & Gm & _).
  pose proof (length_chain_storage _ (gc_cache _ _ Gm)) as Hlen.
  destruct (decide (count <= 0)) as [Hle|Hpos].
  { rewrite seqZ_nil by lia. by replace (Z.to_nat count) with 0%nat by lia. }
  remember (Z.to_nat count) as k eqn:Ek. assert (count = Z.of_nat k) as -> by lia. clear Ek Hpos.
  revert start Hs Hcount. induction k as [|k IH]; intros start Hs Hcount; [by rewrite seqZ_nil by lia|].
  rewrite seqZ_cons by lia. replace (Z.pred (Z.of_nat (S k))) with (Z.of_nat k) by lia.
  destruct (main_find_index currency c start Hc) as (id & Ef & Eh & Eb); [lia|].
  unfold height in Hcount.
  destruct (lookup_lt_is_Some_2 (main_hashes c) (Z.to_nat start)) as [h Hh]; [rewrite length_fmap; lia|].
  destruct (lookup_lt_is_Some_2 (chain_storage (main_chain c)) (Z.to_nat start)) as [raw Hraw]; [lia|].
  cbn [mapM]. rewrite Ef. cbn [mbind option_bind]. rewrite (Hg _ _ h raw) by congruence.
  rewrite (drop_S _ _ _ Hh), (drop_S _ _ _ Hraw). cbn [take zip zip_with mapM fst snd].
  replace (S (Z.to_nat start)) with (Z.to_nat (Z.succ start)) by lia.
  destruct (e h raw) as [x|]; [|done]. cbn [mbind option_bind].
  rewrite IH by (unfold height; lia). done.
Qed.

(** ** [queryBlocks] *)

Lemma pushBlockHashes_spec currency c start full maxItems :
  core_ok currency c -> 0 <= start <= full -> full <= height (main_chain c) -> 0 <= maxItems < 2 ^ 32 ->
  pushBlockHashes c start full maxItems =
    Some (take (Z.to_nat (Z.min (full - start) maxItems)) (drop (Z.to_nat start) (main_hashes c))).
Proof.
  intros Hc Hs Hf Hm. destruct (core_main _ _ Hc) as (_ & _ & _ & _ & Gm & Hne).
  pose proof (gc_cache _ _ Gm) as Hok. assert (height (main_chain c) < 2 ^ 32).
  { destruct (main_chain c) as [|s l]; [done|]. by destruct Hok as (_ & (_ & _ & _ & ?) & _). }
  unfold pushBlockHashes. rewrite !wrap_small by (split; words; lia).
  destruct (_ =? 0) eqn:E; bool_to_prop.
  - by replace (Z.to_nat _) with 0%nat by lia.
  - unfold core_getBlockHashes. apply getBlockHashes_chain; [done|done|lia|lia].
Qed.

Lemma mapM_Some_fmap {A B} (f : A -> B) l : mapM (fun x => Some (f x)) l = Some (f <$> l).
Proof. induction l as [|x l IH]; [done|]. cbn. by rewrite IH. Qed.

Lemma fst_zip_take {A B} (l : list A) (k : list B) n :
  length l = length k -> (zip (take n l) (take n k)).*1 = take n l.
Proof. intros E. apply fst_zip. rewrite !length_take. lia. Qed.

(** The number of hashes and of blocks in an answer that starts at [start], with
    the blocks in full from [full] on. *)
Definition answer_length (start full available : Z) : Z :=
  let hashes := Z.min (full - start) BLOCKS_IDS_SYNCHRONIZING_DEFAULT_COUNT in
  if hashes =? full - start then hashes + Z.min BLOCKS_SYNCHRONIZING_DEFAULT_COUNT available else hashes.

(** [n] hashes and then [m] full blocks. *)
Lemma full_answer (hashes : list Hash) (st : list RawBlock) s n m :
  length hashes = length st -> (s + n + m <= length hashes)%nat ->
  let entries := ((fun h => mkBlockFullInfo (mkRawBlock [] []) h) <$> take n (drop s hashes)) ++
    ((fun x => mkBlockFullInfo x.2 x.1) <$> zip (take m (drop (s + n) hashes)) (take m (drop (s + n) st))) in
  block_id <$> entries = take (n + m) (drop s hashes) /\ length entries = (n + m)%nat /\
  (forall i e, (n <= i)%nat -> entries !! i = Some e -> st !! (s + i)%nat = Some (full_raw e)).
Proof.
  intros El Hn entries. assert (block_id <$> entries = take (n + m) (drop s hashes)) as Hids.
  { unfold entries. rewrite fmap_app, <- (list_fmap_compose _ block_id), list_fmap_id.
    assert (forall l : list (Hash * RawBlock), block_id <$> ((fun x => mkBlockFullInfo x.2 x.1) <$> l) = l.*1)
      as -> by (intros l; by rewrite <- list_fmap_compose).
    rewrite fst_zip by (rewrite !length_take, !length_drop; lia).
    by rewrite <- drop_drop, take_take_drop. }
  split; [done|]. split.
  { rewrite <- (length_fmap block_id), Hids, length_take, length_drop. lia. }
  intros i e Hi He. unfold entries in He. assert (length (take n (drop s hashes)) = n) as Hl
    by (rewrite length_take, length_drop; lia).
  rewrite lookup_app_r in He by (rewrite length_fmap; lia). rewrite length_fmap, Hl in He.
  apply list_lookup_fmap_Some in He as ([h raw] & -> & He). cbn.
  apply lookup_zip_Some in He as [_ He]. apply lookup_take_Some in He as [He _].
  rewrite lookup_drop in He. by replace (s + n + (i - n))%nat with (s + i)%nat in He by lia.
Qed.

(** C36: an answer to [queryBlocks] starts at the block found for the hashes sent,
    lists the hashes of consecutive blocks of the main chain from there,
    at most ten thousand, up to the first block with the timestamp asked for,
    and, when it gets that far, up to a hundred blocks in full from there
    on.  The last block of the main chain is never in the answer. *)
Theorem queryBlocks_correct currency c known timestamp start offset :
  core_ok currency c -> findBlockchainSupplement c known = Some start ->
  getTimestampLowerBoundBlockIndex (main_chain c) timestamp = Some offset ->
  let full := Z.max start offset in
  let top := height (main_chain c) - 1 in
  0 <= start -> full <= top ->
  exists r, queryBlocks c known timestamp = Some r /\
    qr_startIndex r = start /\ qr_currentIndex r = top /\ qr_fullOffset r = full /\
    block_id <$> qr_entries r =
      take (Z.to_nat (answer_length start full (top - full))) (drop (Z.to_nat start) (main_hashes c)) /\
    start + Z.of_nat (length (qr_entries r)) <= top /\
    (forall i e, full - start <= Z.of_nat i -> qr_entries r !! i = Some e ->
       chain_storage (main_chain c) !! (Z.to_nat start + i)%nat = Some (full_raw e)).
Proof.
  intros Hc Hstart Hoff full top H0 Hfull. destruct (core_main _ _ Hc) as (_ & _ & _ & _ & Gm & Hne).
  pose proof (gc_cache _ _ Gm) as Hok. pose proof (length_chain_storage _ Hok) as Hlen.
  assert (height (main_chain c) < 2 ^ 32) as Hh.
  { destruct (main_chain c) as [|s l]; [done|]. by destruct Hok as (_ & (_ & _ & _ & ?) & _). }
  unfold queryBlocks, core_getTopBlockIndex. rewrite top_of_chain by done. cbn [mbind option_bind].
  rewrite Hstart. cbn [mbind option_bind]. rewrite Hoff. cbn [mbind option_bind]. fold top.
  replace (if offset <? start then start else offset) with full
    by (unfold full; destruct (offset <? start) eqn:E; bool_to_prop; lia).
  assert (start <= full) as Hsf by (unfold full; lia). clearbody full.
  rewrite (pushBlockHashes_spec currency) by (done || (unfold top in *; lia) || (change BLOCKS_IDS_SYNCHRONIZING_DEFAULT_COUNT with 10000; lia)).
  cbn [mbind option_bind]. set (n := Z.min (full - start) BLOCKS_IDS_SYNCHRONIZING_DEFAULT_COUNT).
  assert (0 <= n <= full - start) as Hn
    by (unfold n; change BLOCKS_IDS_SYNCHRONIZING_DEFAULT_COUNT with 10000; lia).
  set (hs := take (Z.to_nat n) _).
  assert (Z.of_nat (length hs) = n) as Hhs.
  { unfold hs. rewrite length_take, length_drop, length_fmap. unfold top, height in *. lia. }
  rewrite Hhs. unfold answer_length. fold n. destruct (decide (n = full - start)) as [En|En].
  - rewrite (proj2 (Z.eqb_eq (start + n) full)), (proj2 (Z.eqb_eq n (full - start))) by lia. cbn [negb].
    unfold fillQueryBlockFullInfo. rewrite !wrap_small
      by (split; words; change BLOCKS_SYNCHRONIZING_DEFAULT_COUNT with 100; unfold top in *; lia).
    set (m := Z.min BLOCKS_SYNCHRONIZING_DEFAULT_COUNT (top - full)).
    assert (0 <= m <= top - full) as Hm
      by (unfold m; change BLOCKS_SYNCHRONIZING_DEFAULT_COUNT with 100; lia).
    erewrite (fill_blocks_spec full_info (fun h raw => Some (mkBlockFullInfo raw h)));
      [|done|lia|unfold top in *; lia|].
    2:{ intros cache i h raw E1 E2. unfold full_info. by rewrite E1, E2. }
    rewrite mapM_Some_fmap. cbn [mbind option_bind]. eexists. split; [reflexivity|]. cbn.
    split; [done|]. split; [done|]. split; [done|].
    destruct (full_answer (main_hashes c) (chain_storage (main_chain c)) (Z.to_nat start) (Z.to_nat n) (Z.to_nat m))
      as (H1 & H2 & H3); [by rewrite length_fmap|rewrite length_fmap; unfold top, height in *; lia|].
    replace (Z.to_nat full) with (Z.to_nat start + Z.to_nat n)%nat by lia. unfold hs.
    rewrite H1, H2. split; [f_equal; lia|]. split; [lia|]. intros i e Hi He. apply (H3 i e); [lia|done].
  - rewrite (proj2 (Z.eqb_neq (start + n) full)), (proj2 (Z.eqb_neq n (full - start))) by lia. cbn [negb].
    eexists. split; [reflexivity|]. cbn. split; [done|]. split; [done|]. split; [done|].
    rewrite length_fmap. split; [|split; [lia|]].
    + rewrite <- list_fmap_compose. by rewrite list_fmap_id.
    + intros i e Hi He. apply lookup_lt_Some in He. rewrite length_fmap in He. lia.
Qed.

(** ** Finding a transaction *)

Lemma outside_in mainSet ids id : id ∈ outside mainSet ids -> id ∈ ids.
Proof.
  induction ids as [|x ids IH]; cbn; [done|]. case_bool_decide; [by intros ?%elem_of_nil|].
  intros [->|?]%elem_of_cons; [by left|right; auto].
Qed.

(** Past the first segment of the main chain, a chain is the main chain. *)
Lemma outside_rest currency c leaf id :
  core_ok currency c -> leaf ∈ chainsLeaves c -> id ∈ chain_ids (chainsStorage c) leaf ->
  id ∈ outside (mainChainSet c) (chain_ids (chainsStorage c) leaf) \/ id ∈ mainChainSet c.
Proof.
  intros Hc Hleaf Hid. destruct (core_main _ _ Hc) as (main & rest & El & _).
  rewrite (co_set _ _ Hc main) by (by rewrite El).
  destruct (forest_chain _ _ leaf (co_forest _ _ Hc) Hleaf) as [l Hl].
  destruct (forest_chain _ _ main (co_forest _ _ Hc)) as [k Hk]; [rewrite El; by left|].
  rewrite (chain_ids_of _ _ _ Hl) in Hid |- *. unfold updateMainChainSet.
  rewrite (chain_ids_of _ _ _ Hk). clear El Hleaf.
  induction Hl as [x n En Ep|x n p l En Ep Hl IH].
  - apply list_elem_of_singleton in Hid as ->. cbn. case_bool_decide; [by right|left; by left].
  - cbn. case_bool_decide as Hx.
    + right. apply elem_of_list_to_set in Hx. apply elem_of_list_to_set.
      apply list_elem_of_split in Hx as (k1 & k2 & ->).
      pose proof (chain_of_suffix _ _ _ x k1 k2 Hk eq_refl) as Hs.
      pose proof (chain_of_fun _ _ _ _ (chain_step _ x n p l En Ep Hl) Hs) as E.
      rewrite <- E. apply elem_of_app. by right.
    + apply elem_of_cons in Hid as [->|Hid]; [left; by left|].
      destruct (IH Hid) as [?|?]; [left; by right|by right].
Qed.

Lemma elem_of_concat {A} (ll : list (list A)) x : x ∈ concat ll <-> exists l, l ∈ ll /\ x ∈ l.
Proof.
  rewrite list_elem_of_In, in_concat. by setoid_rewrite <- list_elem_of_In.
Qed.

Lemma search_order_complete currency c id leaf :
  core_ok currency c -> leaf ∈ chainsLeaves c -> id ∈ chain_ids (chainsStorage c) leaf ->
  id ∈ search_order c.
Proof.
  intros Hc Hleaf Hid. destruct (outside_rest currency c leaf id Hc Hleaf Hid) as [Ho|Hm].
  - unfold search_order. destruct (chainsLeaves c) as [|main rest] eqn:El; [by apply elem_of_nil in Hleaf|].
    apply elem_of_app. apply elem_of_cons in Hleaf as [->|Hleaf]; [by left|]. right.
    apply elem_of_concat. eexists. split; [|exact Ho].
    apply list_elem_of_fmap. by exists leaf.
  - destruct (core_main _ _ Hc) as (main & rest & El & _). rewrite (co_set _ _ Hc main) in Hm by (by rewrite El).
    unfold search_order. rewrite El. apply elem_of_app. left. by apply elem_of_list_to_set in Hm.
Qed.

Lemma search_order_sound currency c id :
  core_ok currency c -> id ∈ search_order c ->
  exists leaf, leaf ∈ chainsLeaves c /\ id ∈ chain_ids (chainsStorage c) leaf.
Proof.
  intros _. unfold search_order. destruct (chainsLeaves c) as [|main rest]; [by intros ?%elem_of_nil|].
  intros [H|H]%elem_of_app; [exists main; split; [by left|done]|].
  apply elem_of_concat in H as (l & (leaf & -> & Hl)%list_elem_of_fmap & H).
  exists leaf. split; [by right|]. by eapply outside_in.
Qed.

(** The transactions of a chain are those of its segments. *)
Lemma chain_transactions_segments t l tx :
  tx ∈ chain_transactions (segments t l) ->
  exists id n, id ∈ l /\ t !! id = Some n /\ tx ∈ transactions (segment n).
Proof.
  induction l as [|id l IH]; cbn; [by intros ?%elem_of_nil|].
  destruct (t !! id) as [n|] eqn:E; cbn.
  - intros [H|H]%elem_of_app; [|by exists id, n; repeat split; [left|..]].
    destruct (IH H) as (x & m & ? & ?). exists x, m. split; [by right|done].
  - intros H. destruct (IH H) as (x & m & ? & ?). exists x, m. split; [by right|done].
Qed.

Lemma has_transaction_spec t h id :
  has_transaction t h id = true <->
  exists n tx, t !! id = Some n /\ tx ∈ transactions (segment n) /\ ti_transactionHash tx = h.
Proof.
  unfold has_transaction. destruct (t !! id) as [n|]; [|split; [done|by intros (? & ? & ? & _)]].
  unfold hasTransaction. rewrite bool_decide_eq_true. unfold find_transaction. rewrite fmap_is_Some. split.
  - intros [[i tx] (E & Hh & _)%list_find_Some]. exists n, tx. split; [done|].
    by apply list_elem_of_lookup_2 in E.
  - intros (? & tx & [= <-] & Hin & Hh). by eapply list_find_elem_of.
Qed.

(** A transaction with the hash is in a block of some chain, or in the pool. *)
Definition in_block (c : Core) (h : Hash) : Prop :=
  exists leaf tx, leaf ∈ chainsLeaves c /\
    tx ∈ chain_transactions (path (chainsStorage c) leaf) /\ ti_transactionHash tx = h.
Definition in_pool (c : Core) (h : Hash) : Prop :=
  exists i, i ∈ pending (pool_of c) /\ getTransactionHash i = h.

Lemma segment_found currency c h id :
  core_ok currency c -> findSegmentContainingTransaction c h = Some id ->
  in_block c h /\ exists n parents, path (chainsStorage c) id = segment n :: parents /\
    cache_ok (segment n :: parents) /\ raw_ok (segment n :: parents) /\
    is_Some (find_transaction (segment n) h).
Proof.
  intros Hc E. apply find_some in E as [Hin Hh]. rewrite <- list_elem_of_In in Hin.
  destruct (search_order_sound currency c id Hc Hin) as (leaf & Hleaf & Hid).
  apply has_transaction_spec in Hh as (n & tx & En & Htx & Hh).
  pose proof (path_cons _ _ _ _ (co_forest _ _ Hc) En) as Ep.
  pose proof (node_good currency c id n Hc En) as Hg. rewrite Ep in Hg. split.
  - exists leaf, tx. split; [done|]. split; [|done].
    destruct (forest_chain _ _ leaf (co_forest _ _ Hc) Hleaf) as [l Hl].
    rewrite (chain_ids_of _ _ _ Hl) in Hid. rewrite (tree_path _ _ _ Hl).
    apply list_elem_of_split in Hid as (l1 & l2 & ->). unfold segments. rewrite omap_app.
    apply (re_transactions _ _ (reaches_app _ _)). cbn. rewrite En. cbn. apply elem_of_app. by right.
  - exists n, (parent_path (chainsStorage c) n). split; [done|]. split; [apply Hg|]. split; [apply Hg|].
    unfold find_transaction. apply fmap_is_Some. by eapply list_find_elem_of.
Qed.

Lemma segment_missed currency c h :
  core_ok currency c -> findSegmentContainingTransaction c h = None -> ~ in_block c h.
Proof.
  intros Hc E (leaf & tx & Hl & Htx & Hh).
  destruct (forest_chain _ _ leaf (co_forest _ _ Hc) Hl) as [l Hch]. rewrite (tree_path _ _ _ Hch) in Htx.
  apply chain_transactions_segments in Htx as (id & n & Hid & En & Htx).
  assert (has_transaction (chainsStorage c) h id = false) as Hno.
  { apply (proj1 (find_none_all _ _) E). eapply search_order_complete; [done|done|].
    by rewrite (chain_ids_of _ _ _ Hch). }
  assert (has_transaction (chainsStorage c) h id = true) by (apply has_transaction_spec; eauto). congruence.
Qed.

Lemma in_pool_spec currency c h :
  core_ok currency c -> checkIfTransactionPresent (pool_of c) h = true <-> in_pool c h.
Proof.
  intros Hc. unfold checkIfTransactionPresent. rewrite bool_decide_eq_true.
  pose proof (pool_hashes _ (wrapper_pool _ _ _ (co_pool _ _ Hc))) as Hnd. split.
  - intros [i Hi]. exists i. by apply (find_pending_iff _ _ _ Hnd).
  - intros (i & Hi). exists i. by apply (find_pending_iff _ _ _ Hnd).
Qed.

Lemma find_app {A} (f : A -> bool) l1 l2 :
  find f (l1 ++ l2) = match find f l1 with Some x => Some x | None => find f l2 end.
Proof. induction l1 as [|x l1 IH]; [done|]. cbn. by destruct (f x). Qed.

(** [getTransaction] completes for every hash and answers with nothing exactly
    when the transaction is neither in a block of any chain of the tree nor in the
    pool; [hasTransaction] says which; and the search for the segment of a
    transaction of the main chain ends on the main chain. *)
Theorem transaction_search_correct currency c h :
  core_ok currency c ->
  (exists r, core_getTransaction c h = Some r /\ (r = None <-> ~ in_block c h /\ ~ in_pool c h)) /\
  (core_hasTransaction c h = true <-> in_block c h \/ in_pool c h) /\
  (forall tx, tx ∈ chain_transactions (main_chain c) -> ti_transactionHash tx = h ->
     exists id, findSegmentContainingTransaction c h = Some id /\ id ∈ mainChainSet c).
Proof.
  intros Hc. pose proof (in_pool_spec currency c h Hc) as Hpool. split; [|split].
  - unfold core_getTransaction. destruct (findSegmentContainingTransaction c h) as [id|] eqn:E.
    + destruct (segment_found currency c h id Hc E) as (Hb & n & parents & Ep & Hok & Hraw & [tx Htx]).
      rewrite Ep. cbn [getRawTransactions]. rewrite Htx.
      assert (tx ∈ transactions (segment n)) as Hin.
      { unfold find_transaction in Htx. apply fmap_Some in Htx as ([j t'] & Htx & ->).
        apply list_find_Some in Htx as (Htx & _). by apply list_elem_of_lookup_2 in Htx. }
      destruct (Hraw tx) as ([H0 _] & raw & blob & Hr & Hblob & _); [cbn; apply elem_of_app; by right|].
      rewrite getRawTransaction_block, getBlockByIndex_chain, Hr by done. cbn [mbind option_bind].
      rewrite Hblob. cbn. eexists. split; [done|]. split; [done|]. by intros [? _].
    + pose proof (segment_missed currency c h Hc E) as Hb.
      destruct (checkIfTransactionPresent (pool_of c) h) eqn:Ec.
      * pose proof Ec as Hin. unfold checkIfTransactionPresent in Hin. apply bool_decide_eq_true in Hin as [i Hi].
        unfold getTransaction. rewrite Hi. cbn. eexists. split; [done|]. split; [done|].
        intros [_ Hn]. by destruct Hn; apply Hpool.
      * exists None. split; [done|]. split; [|done]. intros _. split; [done|]. intros Hin.
        apply Hpool in Hin. congruence.
  - unfold core_hasTransaction. rewrite orb_true_iff, Hpool, bool_decide_eq_true. split.
    + intros [[id E]|?]; [left; by destruct (segment_found currency c h id Hc E)|by right].
    + intros [Hb|?]; [left|by right]. destruct (findSegmentContainingTransaction c h) eqn:E; [by eexists|].
      by destruct (segment_missed currency c h Hc E).
  - intros tx Htx Hh. destruct (core_main _ _ Hc) as (main & rest & El & Em & _).
    destruct (forest_chain _ _ main (co_forest _ _ Hc)) as [l Hl]; [rewrite El; by left|].
    unfold findSegmentContainingTransaction, search_order. rewrite El, find_app, (chain_ids_of _ _ _ Hl).
    rewrite (co_set _ _ Hc main) by (by rewrite El). unfold updateMainChainSet.
    rewrite (chain_ids_of _ _ _ Hl). destruct (find _ l) as [id|] eqn:E.
    + exists id. split; [done|]. apply find_some in E as [Hin _]. apply elem_of_list_to_set.
      by rewrite list_elem_of_In.
    + rewrite Em, (tree_path _ _ _ Hl) in Htx. apply chain_transactions_segments in Htx as (id & n & Hid & En & Htx).
      assert (has_transaction (chainsStorage c) h id = true) by (apply has_transaction_spec; eauto).
      rewrite (proj1 (find_none_all _ _) E id Hid) in *. done.
Qed.

(** ** The difficulty of the next block *)

Lemma last_blocks_min l count i :
  0 <= i < Z.of_nat (length l) -> 0 <= count ->
  last_blocks l (Z.min i count) i false = last_blocks l count i false.
Proof.
  intros Hi Hc. unfold last_blocks. rewrite length_take, Nat.min_l by lia. cbn [negb andb].
  destruct (decide (count <= i)) as [Hle|Hgt]; [by rewrite Z.min_r by lia|].
  rewrite Z.min_l by lia. rewrite (proj2 (Nat.eqb_neq (Z.to_nat (i + 1) - Z.to_nat i) 0)) by lia.
  rewrite (proj2 (Nat.eqb_eq (Z.to_nat (i + 1) - Z.to_nat count) 0)) by lia.
  f_equal. lia.
Qed.

(** the difficulty that [Core::getDifficultyForNextBlock] announces to a miner, which
    it computes on its own, is the one [addBlock] will require of the
    next block of the main chain, as long as the next height does not start a new block
    version. *)
Theorem template_difficulty_agrees currency c :
  core_ok currency c ->
  let top := height (main_chain c) - 1 in
  getBlockMajorVersionForHeight currency top = getBlockMajorVersionForHeight currency (u32 (top + 1)) ->
  core_getDifficultyForNextBlock currency (UpgradeManager.core_upgrades currency) c =
    getDifficultyForNextBlock currency (main_chain c) top.
Proof.
  intros Hc top Hv. destruct (core_main _ _ Hc) as (_ & _ & _ & _ & Gm & Hne).
  pose proof (gc_cache _ _ Gm) as Hok.
  assert (0 < height (main_chain c)) as Hpos.
  { destruct (main_chain c) as [|s l]; [done|]. destruct Hok as (_ & (_ & Hb & _) & _).
    rewrite height_cons. pose proof (height_nonneg l). destruct (blockInfos s); [done|]. cbn. lia. }
  unfold core_getDifficultyForNextBlock, core_getTopBlockIndex. rewrite top_of_chain by done.
  cbn [mbind option_bind]. fold top. unfold getDifficultyForNextBlock. rewrite <- Hv.
  unfold getBlockMajorVersionForHeight.
  set (version := UpgradeManager.getBlockMajorVersion _ top).
  pose proof (difficultyBlocksCount_nonneg currency version top) as Hcount.
  set (count := difficultyBlocksCountByBlockVersion currency version top) in *.
  unfold getLastTimestamps, getLastCumulativeDifficulties.
  rewrite !getLastUnits_chain by (done || (unfold top; lia)). cbn [mbind option_bind].
  by rewrite last_blocks_min by (done || (unfold top, height in *; lia)).
Qed.

(** ** Ranges *)

(** [getBlocks], [getBlockHashes] and [getBlockByIndex] of the core return what lies
    at the indices asked for on the main chain read as one list, wherever its
    segments begin and end, and less when the chain ends before. *)
Theorem range_queries_correct currency c :
  core_ok currency c ->
  (forall minIndex count, 0 <= minIndex -> 0 < count -> minIndex + count <= 2 ^ 32 ->
     getBlocks c minIndex count =
       Some (take (Z.to_nat count) (drop (Z.to_nat minIndex) (chain_storage (main_chain c))))) /\
  (forall start maxCount, 0 <= start <= height (main_chain c) -> 0 <= maxCount < 2 ^ 32 ->
     core_getBlockHashes c start maxCount =
       Some (take (Z.to_nat maxCount) (drop (Z.to_nat start) (main_hashes c)))) /\
  (forall i, 0 <= i < height (main_chain c) ->
     core_getBlockByIndex c i =
       raw ← chain_storage (main_chain c) !! Z.to_nat i; fromBinaryArray read_block (block raw)).
Proof.
  intros Hc. destruct (core_main _ _ Hc) as (_ & _ & _ & _ & Gm & Hne). split; [|split].
  - intros. by apply (getBlocks_spec currency).
  - intros. apply getBlockHashes_chain; [apply Gm|done..].
  - intros i Hi. unfold core_getBlockByIndex.
    destruct (main_find_index currency c i Hc Hi) as (id & -> & _ & Eb). cbn [mbind option_bind].
    unfold restoreBlockTemplate. by rewrite Eb.
Qed.

(** ** The theorems on the small chain *)

Lemma sample_ok_1 : core_ok CurrencyBuilder (after_block sample_block_1).
Proof. apply after_block_ok. by left. Qed.

Lemma sample_ok_rival : core_ok CurrencyBuilder (after_block sample_rival_1).
Proof. apply after_block_ok. by right. Qed.

Lemma sync_supplement_correct_witness :
  exists locator, buildSparseChain (after_block sample_rival_1) = Some locator /\
    findBlockchainSupplement (after_block sample_block_1) locator = Some 0.
Proof.
  destruct (sync_supplement_correct CurrencyBuilder (after_block sample_rival_1) (after_block sample_block_1) 1)
    as (locator & s & E & Es & Hs & _).
  - exact sample_ok_rival.
  - exact sample_ok_1.
  - vm_compute. discriminate.
  - vm_compute. split; [reflexivity|discriminate].
  - intros i h Hi Hh. assert (i = 0) as -> by lia. vm_compute in Hh. injection Hh as <-. vm_compute. reflexivity.
  - intros i h Hi Hh. assert (main_hashes (after_block sample_rival_1) = [replicate 32 1; replicate 32 3]) as E
      by (vm_compute; reflexivity). rewrite E in Hh.
    assert (Z.to_nat i = 1%nat) as Ei by (apply lookup_lt_Some in Hh; cbn in Hh; lia).
    rewrite Ei in Hh. injection Hh as <-. apply (bool_decide_unpack _). vm_compute. exact I.
  - exists locator. split; [exact E|]. rewrite Es. f_equal. lia.
Defined.

Lemma queryBlocks_correct_witness :
  exists r, queryBlocks (after_block sample_block_1) [replicate 32 1] 1000 = Some r /\
    block_id <$> qr_entries r = [replicate 32 1] /\ qr_currentIndex r = 1.
Proof.
  destruct (queryBlocks_correct CurrencyBuilder (after_block sample_block_1) [replicate 32 1] 1000 0 0)
    as (r & E & _ & Ec & _ & Hids & _).
  - exact sample_ok_1.
  - vm_compute. reflexivity.
  - vm_compute. reflexivity.
  - lia.
  - vm_compute. discriminate.
  - exists r. split; [exact E|]. split; [rewrite Hids; vm_compute; reflexivity|rewrite Ec; vm_compute; reflexivity].
Defined.

Lemma transaction_search_correct_witness :
  core_hasTransaction (after_block sample_block_1) (replicate 32 102) = true /\
  exists id, findSegmentContainingTransaction (after_block sample_block_1) (replicate 32 102) = Some id.
Proof.
  destruct (transaction_search_correct CurrencyBuilder (after_block sample_block_1) (replicate 32 102) sample_ok_1)
    as (_ & Hhas & _).
  split; [|eexists; vm_compute; reflexivity]. apply Hhas. left.
  destruct (chain_transactions (path (chainsStorage (after_block sample_block_1)) 0%nat)) as [|t1 [|t2 l]] eqn:E;
    [vm_compute in E; discriminate..|].
  exists 0%nat, t2. split; [vm_compute; by left|]. rewrite E. split; [right; by left|].
  vm_compute in E. injection E as _ <- _. reflexivity.
Defined.

Lemma template_difficulty_agrees_witness :
  core_getDifficultyForNextBlock CurrencyBuilder (UpgradeManager.core_upgrades CurrencyBuilder) sample_core =
    Some 1 /\
  getDifficultyForNextBlock CurrencyBuilder (main_chain sample_core) 0 = Some 1.
Proof.
  rewrite (template_difficulty_agrees CurrencyBuilder sample_core sample_core_ok).
  - split; vm_compute; reflexivity.
  - vm_compute. reflexivity.
Defined.

Lemma range_queries_correct_witness :
  getBlocks (after_block sample_block_1) 1 5 = Some [sample_raw (cb_block sample_block_1)].
Proof.
  destruct (range_queries_correct CurrencyBuilder (after_block sample_block_1) sample_ok_1) as (H & _).
  rewrite (H 1 5); [vm_compute; reflexivity|lia|lia|lia].
Defined.
