(* ===== verification/BlockTemplate.v ===== *)
(** * Block templates

    What [Core::getBlockTemplate] (core.cpp) hands to a miner: the choice of
    transactions from the pool by [fillBlockTemplate], the reward transaction
    of [Currency::constructMinerTx] (currency.cpp), and the rounds that make
    the reward and the size of the block agree.

    The key pairs of the reward transactions come from a random generator and
    the keys of its outputs from the curve: both are arguments.  [keys n] is the
    key pair of the [n]-th call of [generateKeyPair].  The clock is read
    several times during a call; [now] is its value throughout.  [None] is an
    access through an invalid iterator or pointer, or an exception. *)

From stdpp Require Import base gmap sets list sorting.
From S2P Require Import Prelude Config Bytes Types Mixins TxExtra Serialization Block Median Upgrade.
From S2P Require Import Checkpoints Currency Difficulty BlockchainCache Validation TransactionPool.
From S2P Require Import PoolCleaner ChainTree Core CoreFacts CorePool CoreChecks CoreSteps CoreQueries.
Import parameters.

Section BlockTemplate.
Context {SecretKey KeyDerivation : Type}.
Context (generate_key_derivation : PublicKey -> SecretKey -> option KeyDerivation).
Context (derive_public_key : KeyDerivation -> Z -> PublicKey -> option PublicKey).
Context (keys : nat -> PublicKey * SecretKey).
Context (currency : Currency) (upgradeManager : UpgradeManager.t).
Context (now : Z).

(** ** The reward transaction *)

(** [while (maxOuts < outAmounts.size())]: the last amount is added to the one
    before it.  Every round takes one amount away. *)
Fixpoint merge_outs (fuel : nat) (maxOuts : nat) (outAmounts : list Z) : list Z :=
  match fuel with
  | O => outAmounts
  | S fuel =>
      if (maxOuts <? length outAmounts)%nat then
        let n := length outAmounts in
        merge_outs fuel maxOuts
          (take (n - 2) outAmounts ++
           [u64 (default 0 (outAmounts !! (n - 2)%nat) + default 0 (outAmounts !! (n - 1)%nat))])
      else outAmounts
  end.

Definition miner_output (minerAddress : AccountPublicAddress) (secretKey : SecretKey) (no : nat)
    (amount : Z) : option TransactionOutput :=
  derivation ← generate_key_derivation (viewPublicKey minerAddress) secretKey;
  outEphemeralPubKey ← derive_public_key derivation (Z.of_nat no) (spendPublicKey minerAddress);
  Some (mkTransactionOutput amount (KeyOutput outEphemeralPubKey)).

Fixpoint miner_outputs (minerAddress : AccountPublicAddress) (secretKey : SecretKey) (no : nat)
    (outAmounts : list Z) : option (list TransactionOutput) :=
  match outAmounts with
  | [] => Some []
  | amount :: rest =>
      out ← miner_output minerAddress secretKey no amount;
      outs ← miner_outputs minerAddress secretKey (S no) rest;
      Some (out :: outs)
  end.

(** [None] is the return value [false]; [txkey] is the new key pair.  [tx]
    keeps its signatures. *)
Definition constructMinerTx (txkey : PublicKey * SecretKey) (blockMajorVersion height medianSize
    alreadyGeneratedCoins currentBlockSize fee : Z) (minerAddress : AccountPublicAddress)
    (tx : Transaction) (extraNonce : list Z) (maxOuts : nat) : option Transaction :=
  let extra := addTransactionPublicKeyToExtra [] txkey.1 in
  extra ← match extraNonce with [] => Some extra | _ => addExtraNonceToTransactionExtra extra extraNonce end;
  '(blockReward, _) ← getBlockReward currency blockMajorVersion medianSize currentBlockSize
                        alreadyGeneratedCoins fee;
  let outAmounts := decompose_amount_into_digits blockReward (defaultDustThreshold currency height) in
  if (maxOuts <? 1)%nat then None
  else
    let outAmounts := merge_outs (length outAmounts) maxOuts outAmounts in
    outputs ← miner_outputs minerAddress txkey.2 0 outAmounts;
    let summaryAmounts := sum_u64 outAmounts in
    if negb (summaryAmounts =? blockReward) then None
    else Some (mkTransaction
                 (mkTransactionPrefix CURRENT_TRANSACTION_VERSION
                    (u32 (height + m_minedMoneyUnlockWindow currency)) [BaseInput height] outputs extra)
                 (signatures tx)).

(** ** The transactions *)

(** [TransactionSpentInputsChecker::haveSpentInputs]: the answer and
    [alreadSpentKeyImages]. *)
Fixpoint haveSpentInputs (l : list TransactionInput) (alreadSpentKeyImages : gset KeyImage)
  : bool * gset KeyImage :=
  match l with
  | [] => (false, alreadSpentKeyImages)
  | KeyInput _ _ keyImage :: rest =>
      if bool_decide (keyImage ∈ alreadSpentKeyImages) then (true, alreadSpentKeyImages)
      else haveSpentInputs rest ({[ keyImage ]} ∪ alreadSpentKeyImages)
  | BaseInput _ :: rest => haveSpentInputs rest alreadSpentKeyImages
  end.

Definition validateBlockTemplateTransaction (tx : CachedTx) (blockHeight : Z) : bool :=
  let t := ct_transaction tx in
  if MAX_EXTRA_SIZE_BLOCK <=? Z.of_nat (length (extra (prefix t))) then false
  else validate_transactions [t] blockHeight.

(** A transaction that may not go into a block leaves the pool when it is old. *)
Definition drop_if_old (tx : CachedTx) (w : TransactionPoolCleanWrapper TransactionPool)
  : option (TransactionPoolCleanWrapper TransactionPool) :=
  receive ← getTransactionReceiveTime (PoolCleaner.transactionPool w) (ct_hash tx);
  if CRYPTONOTE_MEMPOOL_TX_LIVETIME <=? u64 (now - receive)
  then Some (PoolCleaner.removeTransaction w (ct_hash tx)).2 else Some w.

(** What the loops change: the pool, the key images met, the hashes of the
    block, [transactionsSize] and [fee]. *)
Record Fill := mkFill {
  fl_pool : TransactionPoolCleanWrapper TransactionPool;
  fl_images : gset KeyImage;
  fl_hashes : list Hash;
  fl_size : Z;
  fl_fee : Z }.

(** The body shared by the two loops, for a limit on the size. *)
Definition fill_step (limit height : Z) (tx : CachedTx) (f : Fill) : option Fill :=
  let size := Z.of_nat (length (ct_binaryArray tx)) in
  if limit <? u64 (fl_size f + size) then Some f
  else if negb (validateBlockTemplateTransaction tx height) then
    w ← drop_if_old tx (fl_pool f);
    Some (mkFill w (fl_images f) (fl_hashes f) (fl_size f) (fl_fee f))
  else
    let '(spent, images) := haveSpentInputs (inputs (prefix (ct_transaction tx))) (fl_images f) in
    if spent then Some (mkFill (fl_pool f) images (fl_hashes f) (fl_size f) (fl_fee f))
    else Some (mkFill (fl_pool f) images (fl_hashes f ++ [ct_hash tx]) (u64 (fl_size f + size))
                 (u64 (fl_fee f + getTransactionFee (ct_transaction tx)))).

(** The first loop, over the transactions from the last one while they pay no
    fee; [fee] does not change, as theirs is 0. *)
Fixpoint fill_fusion (height : Z) (txs : list CachedTx) (f : Fill) : option Fill :=
  match txs with
  | [] => Some f
  | tx :: rest =>
      if getTransactionFee (ct_transaction tx) =? 0
      then f ← fill_step (m_fusionTxMaxSize currency) height tx f; fill_fusion height rest f
      else Some f
  end.

(** The second loop, over all transactions. *)
Fixpoint fill_all (medianSize maxTotalSize height : Z) (txs : list CachedTx) (f : Fill) : option Fill :=
  match txs with
  | [] => Some f
  | tx :: rest =>
      let blockSizeLimit := if getTransactionFee (ct_transaction tx) =? 0 then medianSize else maxTotalSize in
      f ← fill_step blockSizeLimit height tx f;
      fill_all medianSize maxTotalSize height rest f
  end.

Definition max_total_size (medianSize maxCumulativeSize : Z) : Z :=
  u64 (Z.min (u64 (125 * medianSize) / 100) maxCumulativeSize - m_minerTxBlobReservedSize currency).

Definition fillBlockTemplate (medianSize maxCumulativeSize height : Z)
    (w : TransactionPoolCleanWrapper TransactionPool) : option Fill :=
  let poolTransactions := getPoolTransactions (PoolCleaner.transactionPool w) in
  f ← fill_fusion height (reverse poolTransactions) (mkFill w ∅ [] 0 0);
  fill_all medianSize (max_total_size medianSize maxCumulativeSize) height poolTransactions f.

Definition calculateCumulativeBlocksizeLimit (c : Core) (height : Z) : option Z :=
  let nextBlockGrantedFullRewardZone := blockGrantedFullRewardZoneByBlockVersion currency
    (UpgradeManager.getBlockMajorVersion upgradeManager height) in
  top ← core_getTopBlockIndex c;
  sizes ← getLastBlocksSizes (main_chain c) (m_rewardBlocksWindow currency) top false;
  let median := medianValue sizes in
  Some (u64 ((if median <=? nextBlockGrantedFullRewardZone
              then nextBlockGrantedFullRewardZone else median) * 2)).

(** ** The template *)

(** [b.parentBlock] and [b.minorVersion] for the version.  The code assigns the
    minor version of the parent block to its major version. *)
Definition template_parent (majorVersion : Z) : ParentBlock :=
  if BLOCK_MAJOR_VERSION_2 <=? majorVersion
  then mkParentBlock BLOCK_MINOR_VERSION_0 0 NULL_HASH 1 []
         (mkTransactionPrefix 0 0 [] [] (appendMergeMiningTagToExtra [] (mkMergeMiningTag 0 NULL_HASH))) []
  else mkParentBlock 0 0 NULL_HASH 0 [] (mkTransactionPrefix 0 0 [] [] []) [].

Definition template_minor (majorVersion : Z) : Z :=
  if majorVersion =? BLOCK_MAJOR_VERSION_1
  then if upgradeHeight currency BLOCK_MAJOR_VERSION_2 =? UINT32_MAX
       then BLOCK_MINOR_VERSION_1 else BLOCK_MINOR_VERSION_0
  else if BLOCK_MAJOR_VERSION_2 <=? majorVersion
  then if upgradeHeight currency BLOCK_MAJOR_VERSION_3 =? UINT32_MAX
       then if majorVersion =? BLOCK_MAJOR_VERSION_2 then BLOCK_MINOR_VERSION_1 else BLOCK_MINOR_VERSION_0
       else BLOCK_MINOR_VERSION_0
  else 0.

Definition template_window (height : Z) : Z :=
  if LWMA_2_DIFFICULTY_BLOCK_INDEX <=? height
  then BLOCKCHAIN_TIMESTAMP_CHECK_WINDOW_V3 else BLOCKCHAIN_TIMESTAMP_CHECK_WINDOW.

(** [b.timestamp]: the clock, or the median of the last blocks if that is later. *)
Definition template_timestamp (c : Core) (height : Z) : option Z :=
  let window := template_window height in
  if window <=? height then
    timestamps ← mapM (getBlockTimestampByIndex c) (seqZ (height - window) window);
    let medianTimestamp := medianValue timestamps in
    Some (if now <? medianTimestamp then medianTimestamp else now)
  else Some now.

(** [b.baseTransaction.extra.insert(end, delta, 0)] and [extra.resize(size)]
    with a smaller size. *)
Definition with_extra (tx : Transaction) (extra : list Z) : Transaction :=
  mkTransaction (mkTransactionPrefix (version (prefix tx)) (unlockTime (prefix tx)) (inputs (prefix tx))
                   (outputs (prefix tx)) extra) (signatures tx).

Definition pad_extra (tx : Transaction) (delta : Z) : Transaction :=
  with_extra tx (extra (prefix tx) ++ replicate (Z.to_nat delta) 0).

Definition shrink_extra (tx : Transaction) : Transaction :=
  with_extra tx (take (length (extra (prefix tx)) - 1) (extra (prefix tx))).

(** The rounds of the second phase; [construct n size tx] is the call of
    [constructMinerTx] with the [n]-th key pair.  [None] is [return false]. *)
Fixpoint miner_rounds (construct : nat -> Z -> Transaction -> option Transaction) (tries : nat)
    (n : nat) (transactionsSize cumulativeSize : Z) (tx : Transaction) : option Transaction :=
  match tries with
  | O => None
  | S tries =>
      tx ← construct n cumulativeSize tx;
      let finish tx :=
        if cumulativeSize =? u64 (transactionsSize + getObjectBinarySize tx) then Some tx else None in
      let coinbaseBlobSize := getObjectBinarySize tx in
      let room := u64 (cumulativeSize - transactionsSize) in
      if room <? coinbaseBlobSize
      then miner_rounds construct tries (S n) transactionsSize (u64 (transactionsSize + coinbaseBlobSize)) tx
      else if coinbaseBlobSize <? room then
        let delta := u64 (room - coinbaseBlobSize) in
        let padded := pad_extra tx delta in
        if negb (cumulativeSize =? u64 (transactionsSize + getObjectBinarySize padded)) then
          if negb (u64 (cumulativeSize + 1) =? u64 (transactionsSize + getObjectBinarySize padded)) then None
          else
            let shrunk := shrink_extra padded in
            if negb (cumulativeSize =? u64 (transactionsSize + getObjectBinarySize shrunk))
            then miner_rounds construct tries (S n) transactionsSize (u64 (cumulativeSize + u64 (delta - 1))) shrunk
            else finish shrunk
        else finish padded
      else finish tx
  end.

(** Both phases of the reward transaction. *)
Definition reward_transaction (majorVersion height medianSize alreadyGeneratedCoins transactionsSize fee : Z)
    (adr : AccountPublicAddress) (extraNonce : list Z) : option Transaction :=
  let construct n currentBlockSize tx :=
    constructMinerTx (keys n) majorVersion height medianSize alreadyGeneratedCoins currentBlockSize fee
      adr tx extraNonce 11 in
  tx ← construct 0%nat transactionsSize (mkTransaction (mkTransactionPrefix 0 0 [] [] []) []);
  miner_rounds construct 10 1 transactionsSize (u64 (transactionsSize + getObjectBinarySize tx)) tx.

(** [getBlockTemplate]: the inner option is the return value [false], otherwise
    the block, [difficulty] and [height]; and the core, whose pool may have
    changed. *)
Definition getBlockTemplate (c : Core) (adr : AccountPublicAddress) (extraNonce : list Z)
  : option (option (BlockTemplate * Z * Z) * Core) :=
  top ← core_getTopBlockIndex c;
  let height := u32 (top + 1) in
  difficulty ← core_getDifficultyForNextBlock currency upgradeManager c;
  if difficulty =? 0 then Some (None, c)
  else
    let majorVersion := UpgradeManager.getBlockMajorVersion upgradeManager height in
    previousBlockHash ← core_getTopBlockHash c;
    timestamp ← template_timestamp c height;
    limit ← calculateCumulativeBlocksizeLimit c height;
    let medianSize := limit / 2 in
    alreadyGeneratedCoins ← getAlreadyGeneratedCoins (main_chain c) top;
    f ← fillBlockTemplate medianSize (maxBlockCumulativeSize currency height) height (transactionPool c);
    let c := set_pool c (fl_pool f) in
    Some (match reward_transaction majorVersion height medianSize alreadyGeneratedCoins (fl_size f)
                  (fl_fee f) adr extraNonce with
          | None => None
          | Some tx =>
              Some (mkBlockTemplate
                      (mkBlockHeader majorVersion (template_minor majorVersion) 0 timestamp previousBlockHash)
                      (template_parent majorVersion) tx (fl_hashes f), difficulty, height)
          end, c).
End BlockTemplate.
