(* ===== verification/TemplateTheorems.v ===== *)
(** * Block templates: theorems

    The transactions that [fillBlockTemplate] puts into a block are distinct
    valid transactions of the pool that spend different key images and keep to
    the limits; [getBlockTemplate] produces a block whose header, base
    transaction and reward pass the checks of [addBlock]. *)

From stdpp Require Import base gmap sets list sorting.
From S2P Require Import Prelude Config Bytes Types Mixins TxExtra Varint TreeHash Serialization Block Median Upgrade.
From S2P Require Import Checkpoints Currency Difficulty BlockchainCache CacheFacts CacheSteps Validation.
From S2P Require Import TransactionPool PoolCleaner ChainTree Core CoreFacts CorePool CoreChecks CoreSteps.
From S2P Require Import CoreTheorems CoreQueries QueryTheorems BlockTemplate.
Import parameters.

(** ** The transactions of a block *)

Definition tx_images (tx : CachedTx) : list KeyImage := key_images (inputs (prefix (ct_transaction tx))).
Definition tx_size (tx : CachedTx) : Z := Z.of_nat (length (ct_binaryArray tx)).
Definition tx_fee (tx : CachedTx) : Z := getTransactionFee (ct_transaction tx).

Lemma haveSpentInputs_spec l images :
  let '(spent, images') := haveSpentInputs l images in
  images ⊆ images' /\
  (spent = false -> NoDup (key_images l) /\ (forall k, k ∈ key_images l -> k ∉ images) /\
     images' = list_to_set (key_images l) ∪ images).
Proof.
  revert images. induction l as [|[bi|a idx k] l IH]; intros images; cbn [haveSpentInputs].
  - split; [done|]. intros _. split; [constructor|]. split; [by intros k ?%elem_of_nil|].
    cbn. by rewrite union_empty_l_L.
  - apply IH.
  - destruct (bool_decide_reflect (k ∈ images)) as [|Hk]; [done|].
    specialize (IH ({[ k ]} ∪ images)). destruct (haveSpentInputs l _) as [spent images'].
    destruct IH as [IH1 IH2]. split; [set_solver|]. intros Hs. destruct (IH2 Hs) as (Hn & Hd & ->). clear IH1 IH2.
    change (key_images (KeyInput a idx k :: l)) with (k :: key_images l).
    split; [|split; [|set_solver]].
    + constructor; [|done]. intros Hin. specialize (Hd _ Hin). set_solver.
    + intros x [->|Hx]%elem_of_cons; [done|]. specialize (Hd _ Hx). set_solver.
Qed.

Lemma mapM_fmap_back {A B} (f : A -> option B) (g : B -> A) l :
  (forall x, x ∈ l -> f (g x) = Some x) -> mapM f (g <$> l) = Some l.
Proof.
  induction l as [|x l IH]; intros H; [done|]. cbn. rewrite H by (by left). cbn.
  rewrite IH; [done|]. intros y Hy. apply H. by right.
Qed.

Section Fill.
Context (currency : Currency) (now height : Z).

Definition valid_tx (tx : CachedTx) : bool := validateBlockTemplateTransaction tx height.
Definition old (i : PendingTransactionInfo) : bool :=
  CRYPTONOTE_MEMPOOL_TX_LIVETIME <=? u64 (now - receiveTime i).
Abbreviation fill_pool f := (pending (PoolCleaner.transactionPool (fl_pool f))).

(** Both loops are runs of one step over a list of transactions with limits. *)
Fixpoint fill_list (l : list (Z * CachedTx)) (f : Fill) : option Fill :=
  match l with
  | [] => Some f
  | (limit, tx) :: rest => f ← fill_step now limit height tx f; fill_list rest f
  end.

Fixpoint free_prefix (txs : list CachedTx) : list CachedTx :=
  match txs with
  | [] => []
  | tx :: rest => if tx_fee tx =? 0 then tx :: free_prefix rest else []
  end.

Definition schedule (medianSize maxTotalSize : Z) (txs : list CachedTx) : list (Z * CachedTx) :=
  ((m_fusionTxMaxSize currency,.) <$> free_prefix (reverse txs)) ++
  ((fun tx => (if tx_fee tx =? 0 then medianSize else maxTotalSize, tx)) <$> txs).

Lemma fill_list_app l1 l2 f : fill_list (l1 ++ l2) f = (fill_list l1 f ≫= fill_list l2).
Proof.
  revert f. induction l1 as [|[limit tx] l1 IH]; intros f; cbn; [done|].
  destruct (fill_step now limit height tx f); cbn; [apply IH|done].
Qed.

Lemma fillBlockTemplate_schedule medianSize maxCumulativeSize w :
  fillBlockTemplate currency now medianSize maxCumulativeSize height w =
  fill_list (schedule medianSize (max_total_size currency medianSize maxCumulativeSize)
               (getPoolTransactions (PoolCleaner.transactionPool w))) (mkFill w ∅ [] 0 0).
Proof.
  unfold fillBlockTemplate, schedule. rewrite fill_list_app.
  set (txs := getPoolTransactions _). set (f0 := mkFill _ _ _ _ _).
  assert (forall l f, fill_fusion currency now height l f =
            fill_list ((m_fusionTxMaxSize currency,.) <$> free_prefix l) f) as ->.
  { induction l as [|tx l IH]; intros f; cbn [fill_fusion free_prefix]; [done|]. unfold tx_fee.
    destruct (getTransactionFee _ =? 0); [|done]. cbn.
    destruct (fill_step _ _ _ tx f); cbn; [apply IH|done]. }
  destruct (fill_list _ f0) as [f|]; cbn [mbind option_bind]; [|done].
  generalize txs. intros l. revert f. induction l as [|tx l IH]; intros f; [done|].
  cbn [fill_all fmap list_fmap fill_list]. unfold tx_fee at 1.
  destruct (fill_step _ _ _ tx f); cbn; [apply IH|done].
Qed.

(** What the steps keep: [chosen] are the transactions taken so far. *)
Record filled (w : TransactionPoolCleanWrapper TransactionPool) (bound : Z) (f : Fill)
    (chosen : list CachedTx) : Prop := {
  fi_hashes : fl_hashes f = ct_hash <$> chosen;
  fi_valid : Forall (fun tx => valid_tx tx = true) chosen;
  fi_pool tx : tx ∈ chosen -> tx ∈ getPoolTransactions (PoolCleaner.transactionPool w);
  fi_images : NoDup (concat (tx_images <$> chosen));
  fi_met k : k ∈ concat (tx_images <$> chosen) -> k ∈ fl_images f;
  fi_size : fl_size f = u64 (sumZ (tx_size <$> chosen));
  fi_bound : 0 <= fl_size f <= bound;
  fi_fee : fl_fee f = u64 (sumZ (tx_fee <$> chosen));
  fi_wrapper : core_wrapper_ok (fl_pool f);
  fi_kept i : i ∈ fill_pool f -> i ∈ pending (PoolCleaner.transactionPool w);
  fi_removed i : i ∈ pending (PoolCleaner.transactionPool w) ->
    valid_tx (cachedTransaction i) = true \/ old i = false -> i ∈ fill_pool f }.

Lemma drop_if_old_spec w tx w' :
  core_wrapper_ok w -> drop_if_old now tx w = Some w' ->
  core_wrapper_ok w' /\
  exists i, i ∈ pending (PoolCleaner.transactionPool w) /\ getTransactionHash i = ct_hash tx /\
    pending (PoolCleaner.transactionPool w') =
      if old i then filter (fun q => getTransactionHash q <> ct_hash tx) (pending (PoolCleaner.transactionPool w))
      else pending (PoolCleaner.transactionPool w).
Proof.
  intros Hw. unfold drop_if_old, getTransactionReceiveTime.
  destruct (find_pending _ _) as [i|] eqn:E; [|done]. cbn [fmap option_fmap option_map mbind option_bind].
  apply find_pending_Some in E as [Hi Hh]. fold (old i).
  destruct (old i) eqn:Eo; intros [= <-]; [|split; [done|]; exists i; by rewrite Eo].
  destruct (wrapper_remove_ok w (ct_hash tx) Hw) as [Hw' Hp]. split; [done|].
  exists i. by rewrite Eo.
Qed.
(** Pool entries with the same hash are one entry. *)
Lemma pending_unique w i j :
  core_wrapper_ok w -> i ∈ pending (PoolCleaner.transactionPool w) ->
  j ∈ pending (PoolCleaner.transactionPool w) -> getTransactionHash i = getTransactionHash j -> i = j.
Proof.
  intros Hw Hi Hj E. pose proof (pool_hashes _ (wrapper_pool _ _ _ Hw)) as Hn.
  pose proof (proj2 (find_pending_iff _ (getTransactionHash i) i Hn) (conj Hi eq_refl)).
  pose proof (proj2 (find_pending_iff _ (getTransactionHash i) j Hn) (conj Hj (eq_sym E))). congruence.
Qed.

Lemma filled_skip w bound f chosen images :
  filled w bound f chosen -> fl_images f ⊆ images ->
  filled w bound (mkFill (fl_pool f) images (fl_hashes f) (fl_size f) (fl_fee f)) chosen.
Proof. intros [] Hi. split; cbn; try done. auto. Qed.

Lemma filled_drop w bound f chosen tx w' :
  core_wrapper_ok w -> filled w bound f chosen ->
  tx ∈ getPoolTransactions (PoolCleaner.transactionPool w) -> valid_tx tx = false ->
  drop_if_old now tx (fl_pool f) = Some w' ->
  filled w bound (mkFill w' (fl_images f) (fl_hashes f) (fl_size f) (fl_fee f)) chosen.
Proof.
  intros Hw [] (j & -> & Hj)%list_elem_of_fmap Hv Hd.
  apply drop_if_old_spec in Hd as (Hw' & i & Hi & Hh & Hp); [|done].
  assert (i = j) as -> by (apply (pending_unique w); auto).
  split; cbn; try done; rewrite Hp; destruct (old j) eqn:Eo; try done.
  - intros k [_ Hk]%list_elem_of_filter. auto.
  - intros k Hk Hkeep. apply list_elem_of_filter. split; [|auto]. intros E.
    assert (k = j) as -> by (by apply (pending_unique w)).
    destruct Hkeep; congruence.
Qed.

Lemma filled_take w bound f chosen tx limit images :
  filled w bound f chosen -> tx ∈ getPoolTransactions (PoolCleaner.transactionPool w) ->
  valid_tx tx = true -> limit <= bound -> u64 (fl_size f + tx_size tx) <= limit ->
  haveSpentInputs (inputs (prefix (ct_transaction tx))) (fl_images f) = (false, images) ->
  filled w bound (mkFill (fl_pool f) images (fl_hashes f ++ [ct_hash tx]) (u64 (fl_size f + tx_size tx))
                    (u64 (fl_fee f + tx_fee tx))) (chosen ++ [tx]).
Proof.
  intros [] Htx Hv Hl Hs Hh. pose proof (haveSpentInputs_spec (inputs (prefix (ct_transaction tx))) (fl_images f)) as H.
  rewrite Hh in H. destruct H as [_ H]. destruct (H eq_refl) as (Hn & Hd & Him). clear H.
  fold (tx_images tx) in *.
  assert (forall g, sumZ (g <$> chosen ++ [tx]) = sumZ (g <$> chosen) + g tx) as Hsum.
  { intros g. rewrite fmap_app, sumZ_app. cbn. lia. }
  assert (concat (tx_images <$> chosen ++ [tx]) = concat (tx_images <$> chosen) ++ tx_images tx) as Hc
    by (rewrite fmap_app, concat_app; cbn; by rewrite app_nil_r).
  split; cbn [fl_pool fl_images fl_hashes fl_size fl_fee]; try done.
  - rewrite fmap_app. by f_equal.
  - apply Forall_app. by repeat constructor.
  - intros x [Hx|Hx%list_elem_of_singleton]%elem_of_app; [auto|by subst].
  - rewrite Hc. apply NoDup_app. split; [done|]. split; [|done]. intros k Hk Hk'. by apply (Hd k Hk'); auto.
  - intros k. rewrite Hc, Him. intros [Hk|Hk]%elem_of_app; [|apply elem_of_union; left; by apply elem_of_list_to_set].
    apply elem_of_union; right; auto.
  - by rewrite Hsum, fi_size0, wrap_add_l.
  - split; [apply (fits_wrap 64); lia|lia].
  - by rewrite Hsum, fi_fee0, wrap_add_l.
Qed.

Lemma fill_step_ok w bound f chosen limit tx f' :
  core_wrapper_ok w -> filled w bound f chosen -> limit <= bound ->
  tx ∈ getPoolTransactions (PoolCleaner.transactionPool w) ->
  fill_step now limit height tx f = Some f' -> exists chosen', filled w bound f' chosen'.
Proof.
  intros Hw Hf Hl Htx. unfold fill_step. fold (tx_size tx) (tx_fee tx) (valid_tx tx).
  destruct (Z.ltb_spec limit (u64 (fl_size f + tx_size tx))) as [|Hs]; [intros [= <-]; eauto|].
  destruct (valid_tx tx) eqn:Ev; cbn [negb].
  - pose proof (haveSpentInputs_spec (inputs (prefix (ct_transaction tx))) (fl_images f)) as Hsp.
    destruct (haveSpentInputs _ _) as [[] images] eqn:Eh; intros [= <-]; destruct Hsp as [Hsub _].
    + exists chosen. by apply filled_skip.
    + exists (chosen ++ [tx]). by eapply filled_take.
  - destruct (drop_if_old now tx (fl_pool f)) as [w'|] eqn:Ed; [|done]. intros [= <-].
    exists chosen. by eapply filled_drop.
Qed.

Lemma fill_list_ok w bound l f chosen f' :
  core_wrapper_ok w -> filled w bound f chosen ->
  Forall (fun p => p.1 <= bound /\ p.2 ∈ getPoolTransactions (PoolCleaner.transactionPool w)) l ->
  fill_list l f = Some f' -> exists chosen', filled w bound f' chosen'.
Proof.
  intros Hw. revert f chosen. induction l as [|[limit tx] l IH]; intros f chosen Hf Hl; cbn [fill_list].
  - intros [= <-]. eauto.
  - apply Forall_cons in Hl as [[H1 H2] Hl]. destruct (fill_step _ _ _ _ _) as [f1|] eqn:E; [|done].
    cbn. intros Hrun. edestruct fill_step_ok as [chosen1 Hf1]; [done..|]. by apply (IH f1 chosen1).
Qed.
(** A list of transactions that can be worked off: an old transaction that may
    not go into a block does not come up again. *)
Fixpoint workable (pool : list PendingTransactionInfo) (l : list (Z * CachedTx)) : Prop :=
  match l with
  | [] => True
  | (_, tx) :: rest =>
      (valid_tx tx = true \/ exists i, i ∈ pool /\ cachedTransaction i = tx /\
         (old i = false \/ (ct_hash tx ∉ (ct_hash ∘ snd <$> rest)))) /\ workable pool rest
  end.

Lemma workable_remove pool h l :
  h ∉ (ct_hash ∘ snd <$> l) -> workable pool l ->
  workable (filter (fun q => getTransactionHash q <> h) pool) l.
Proof.
  induction l as [|[limit tx] l IH]; cbn [workable fmap list_fmap]; [done|].
  intros [Hh Hl]%not_elem_of_cons [[Hv|(i & Hi & E & Ho)] Hr]; (split; [|auto]); [by left|].
  right. exists i. split; [|done]. apply list_elem_of_filter. split; [|done].
  unfold getTransactionHash. rewrite E. by intros <-.
Qed.

Lemma fill_list_total l f :
  core_wrapper_ok (fl_pool f) -> workable (fill_pool f) l -> is_Some (fill_list l f).
Proof.
  revert f. induction l as [|[limit tx] l IH]; intros f Hf; cbn [fill_list workable]; [done|].
  intros [Htx Hl]. unfold fill_step. fold (valid_tx tx).
  destruct (_ <? _); [by apply IH|]. destruct (valid_tx tx) eqn:Ev; cbn [negb].
  - destruct (haveSpentInputs _ _) as [[] images]; by apply IH.
  - destruct Htx as [|(i & Hi & Ei & Ho)]; [done|]. unfold drop_if_old, getTransactionReceiveTime.
    assert (find_pending (PoolCleaner.transactionPool (fl_pool f)) (ct_hash tx) = Some i) as ->.
    { apply find_pending_iff; [apply (pool_hashes _ (wrapper_pool _ _ _ Hf))|].
      split; [done|]. by rewrite <- Ei. }
    cbn [fmap option_fmap option_map mbind option_bind]. fold (old i).
    destruct (old i) eqn:Eo; cbn [mbind option_bind]; [|by apply IH].
    destruct Ho as [|Ho]; [done|]. destruct (wrapper_remove_ok (fl_pool f) (ct_hash tx) Hf) as [Hw' Hp].
    apply IH; cbn [fl_pool]; [done|]. rewrite Hp. by apply workable_remove.
Qed.

Lemma workable_app pool l1 l2 :
  (forall p, p ∈ l1 -> valid_tx p.2 = true \/
     exists i, i ∈ pool /\ cachedTransaction i = p.2 /\ old i = false) ->
  workable pool l2 -> workable pool (l1 ++ l2).
Proof.
  induction l1 as [|[limit tx] l1 IH]; intros H1 H2; [done|]. cbn [app workable]. split.
  - destruct (H1 (limit, tx)) as [|(i & ? & ? & ?)]; [by left|by left|]. right. exists i. auto.
  - apply IH; [|done]. intros p Hp. apply H1. by right.
Qed.

Lemma workable_pool g l pool :
  (forall i, i ∈ l -> i ∈ pool) -> NoDup (getTransactionHash <$> l) ->
  workable pool ((fun tx => (g tx, tx)) <$> (cachedTransaction <$> l)).
Proof.
  induction l as [|i l IH]; intros Hin; cbn [workable fmap list_fmap]; [done|].
  intros [Hh Hn]%NoDup_cons. split; [|apply IH; [|done]; intros j Hj; apply Hin; by right].
  right. exists i. split; [apply Hin; by left|]. split; [done|]. right. intros Hx. apply Hh.
  apply list_elem_of_fmap in Hx as ([z tx] & Ex & Hx). apply list_elem_of_fmap in Hx as (tx' & [= -> ->] & Hx).
  apply list_elem_of_fmap in Hx as (j & -> & Hj). unfold getTransactionHash. rewrite Ex.
  apply list_elem_of_fmap. by exists j.
Qed.

Lemma free_prefix_in txs tx : tx ∈ free_prefix txs -> tx ∈ txs /\ tx_fee tx = 0.
Proof.
  induction txs as [|x txs IH]; cbn [free_prefix]; [by intros ?%elem_of_nil|].
  destruct (Z.eqb_spec (tx_fee x) 0); [|by intros ?%elem_of_nil].
  intros [->|Hx]%elem_of_cons; [by split; [left|]|]. destruct (IH Hx). split; [by right|done].
Qed.

Lemma schedule_limits w medianSize maxTotalSize :
  Forall (fun p => p.1 <= Z.max (m_fusionTxMaxSize currency) (Z.max medianSize maxTotalSize) /\
                   p.2 ∈ getPoolTransactions (PoolCleaner.transactionPool w))
    (schedule medianSize maxTotalSize (getPoolTransactions (PoolCleaner.transactionPool w))).
Proof.
  unfold schedule. apply Forall_app. split; apply Forall_fmap, Forall_forall; cbn; intros tx Htx.
  - apply free_prefix_in in Htx as [Htx _]. rewrite elem_of_reverse in Htx. split; [lia|done].
  - split; [destruct (_ =? 0); lia|done].
Qed.

Lemma schedule_workable w medianSize maxTotalSize :
  core_wrapper_ok w ->
  (forall i, i ∈ pending (PoolCleaner.transactionPool w) -> info_fee i = 0 ->
     valid_tx (cachedTransaction i) = true \/ old i = false) ->
  workable (pending (PoolCleaner.transactionPool w))
    (schedule medianSize maxTotalSize (getPoolTransactions (PoolCleaner.transactionPool w))).
Proof.
  intros Hw Hfree. apply workable_app.
  - intros p (tx & -> & [Htx Hfee]%free_prefix_in)%list_elem_of_fmap. rewrite elem_of_reverse in Htx.
    apply list_elem_of_fmap in Htx as (i & -> & Hi). cbn. destruct (Hfree i Hi Hfee); eauto.
  - apply (workable_pool (fun tx => if tx_fee tx =? 0 then medianSize else maxTotalSize)); [done|].
    apply (pool_hashes _ (wrapper_pool _ _ _ Hw)).
Qed.

Lemma images_distinct chosen :
  Forall (fun tx => tx_images tx <> []) chosen -> NoDup (concat (tx_images <$> chosen)) -> NoDup chosen.
Proof.
  induction chosen as [|tx l IH]; intros Hne Hn; [constructor|]. apply Forall_cons in Hne as [Htx Hne].
  cbn in Hn. apply NoDup_app in Hn as (_ & Hd & Hn). constructor; [|by apply IH].
  intros Hin. destruct (tx_images tx) as [|k ks] eqn:Ek; [done|]. apply (Hd k); [by left|].
  apply elem_of_concat. exists (k :: ks). split; [|by left]. apply list_elem_of_fmap. by exists tx.
Qed.

Lemma filled_hashes w bound f chosen :
  core_wrapper_ok w -> filled w bound f chosen -> Forall (fun tx => tx_images tx <> []) chosen ->
  NoDup (fl_hashes f) /\
  mapM (getTransaction (PoolCleaner.transactionPool (fl_pool f))) (fl_hashes f) = Some chosen.
Proof.
  intros Hw [] Hne. rewrite fi_hashes0. split.
  - apply NoDup_fmap_2_strong; [|by apply images_distinct]. intros x y Hx Hy E.
    apply fi_pool0, list_elem_of_fmap in Hx as (i & -> & Hi), Hy as (j & -> & Hj).
    by rewrite (pending_unique w i j).
  - apply mapM_fmap_back. intros tx Htx. destruct (list_elem_of_fmap_1 _ _ _ (fi_pool0 _ Htx)) as (i & -> & Hi).
    unfold getTransaction. rewrite (proj2 (find_pending_iff _ _ i (pool_hashes _ (wrapper_pool _ _ _ fi_wrapper0)))); [done|].
    split; [|done]. apply fi_removed0; [done|left]. by rewrite Forall_forall in fi_valid0; apply fi_valid0.
Qed.
End Fill.

(** The result of the two loops. *)
Lemma fillBlockTemplate_filled currency now height medianSize maxCumulativeSize w f :
  core_wrapper_ok w -> 0 <= m_fusionTxMaxSize currency ->
  fillBlockTemplate currency now medianSize maxCumulativeSize height w = Some f ->
  exists chosen,
    filled now height w
      (Z.max (m_fusionTxMaxSize currency)
         (Z.max medianSize (max_total_size currency medianSize maxCumulativeSize))) f chosen.
Proof.
  intros Hw Hpos. rewrite fillBlockTemplate_schedule. apply (fill_list_ok _ _ _ _ _ _ [] _ Hw);
    [|apply schedule_limits].
  split; cbn; try done; try lia; try (constructor || by intros ? ?%elem_of_nil).
Qed.

(** choosing the transactions
    of a block template completes if no expired transaction without fee is in the
    pool that may not go into a block.  The transactions chosen are in the pool, pass the checks
    for the height, are pairwise different and spend pairwise different key images;
    their size and their fees are what the function reports, and the size keeps
    to the limits.  Every one of them can still be found in the pool by its hash, as
    [submitBlock] will do, and the pool loses expired transactions only. *)
Theorem fillBlockTemplate_correct currency now height medianSize maxCumulativeSize w :
  core_wrapper_ok w -> 0 <= m_fusionTxMaxSize currency ->
  let pool := PoolCleaner.transactionPool w in
  Forall (fun i => info_images i <> []) (pending pool) ->
  (forall i, i ∈ pending pool -> info_fee i = 0 ->
     validateBlockTemplateTransaction (cachedTransaction i) height = true \/
     u64 (now - receiveTime i) < CRYPTONOTE_MEMPOOL_TX_LIVETIME) ->
  exists f chosen,
    fillBlockTemplate currency now medianSize maxCumulativeSize height w = Some f /\
    fl_hashes f = ct_hash <$> chosen /\ NoDup (fl_hashes f) /\
    NoDup (concat (tx_images <$> chosen)) /\
    Forall (fun tx => tx ∈ getPoolTransactions pool /\
              validateBlockTemplateTransaction tx height = true) chosen /\
    fl_size f = u64 (sumZ (tx_size <$> chosen)) /\
    fl_size f <= Z.max (m_fusionTxMaxSize currency)
                   (Z.max medianSize (max_total_size currency medianSize maxCumulativeSize)) /\
    fl_fee f = u64 (sumZ (tx_fee <$> chosen)) /\
    mapM (getTransaction (PoolCleaner.transactionPool (fl_pool f))) (fl_hashes f) = Some chosen /\
    (forall i, i ∈ pending (PoolCleaner.transactionPool (fl_pool f)) -> i ∈ pending pool) /\
    (forall i, i ∈ pending pool -> u64 (now - receiveTime i) < CRYPTONOTE_MEMPOOL_TX_LIVETIME ->
       i ∈ pending (PoolCleaner.transactionPool (fl_pool f))).
Proof.
  intros Hw Hpos pool Hne Hfree.
  assert (forall i, u64 (now - receiveTime i) < CRYPTONOTE_MEMPOOL_TX_LIVETIME -> old now i = false)
    as Hyoung by (intros i Hi; by apply Z.leb_gt).
  destruct (fill_list_total now height
    (schedule currency medianSize (max_total_size currency medianSize maxCumulativeSize)
       (getPoolTransactions pool)) (mkFill w ∅ [] 0 0)) as [f Ef]; [done| |].
  { apply schedule_workable; [done|]. intros i Hi Hf. destruct (Hfree i Hi Hf); auto. }
  unfold pool in Ef. rewrite <- fillBlockTemplate_schedule in Ef.
  destruct (fillBlockTemplate_filled _ _ _ _ _ _ _ Hw Hpos Ef) as [chosen Hf].
  assert (Forall (fun tx => tx_images tx <> []) chosen) as Himg.
  { apply Forall_forall. intros tx Htx. apply (fi_pool _ _ _ _ _ _ Hf), list_elem_of_fmap in Htx as (i & -> & Hi).
    rewrite Forall_forall in Hne. by apply Hne. }
  destruct (filled_hashes _ _ _ _ _ _ Hw Hf Himg) as [Hn Hm]. destruct Hf. exists f, chosen.
  split_and!; try done; [|lia|]; [|intros i Hi Hy; apply fi_removed0; auto].
  apply Forall_forall. intros tx Htx. split; [by apply fi_pool0|]. rewrite Forall_forall in fi_valid0. by apply fi_valid0.
Qed.

(** a pool that holds one
    transaction without fee which may not go into a block and has expired makes the
    request for a block template read through an invalid iterator: the first loop
    removes the transaction from the pool, and the second loop asks the pool
    for its receive time. *)
Theorem template_expired_transaction currency now height medianSize maxCumulativeSize w i :
  pending (PoolCleaner.transactionPool w) = [i] -> info_fee i = 0 ->
  validateBlockTemplateTransaction (cachedTransaction i) height = false ->
  CRYPTONOTE_MEMPOOL_TX_LIVETIME <= u64 (now - receiveTime i) ->
  fits 64 (info_size i) -> info_size i <= m_fusionTxMaxSize currency -> info_size i <= medianSize ->
  fillBlockTemplate currency now medianSize maxCumulativeSize height w = None.
Proof.
  intros Hp Hfee Hv Hold Hfits Hs1 Hs2. unfold fillBlockTemplate, getPoolTransactions. rewrite Hp.
  cbn [fmap list_fmap reverse rev_append]. cbn [fill_fusion fill_all]. unfold info_fee in Hfee.
  rewrite Hfee, Z.eqb_refl. unfold fill_step. cbn [fl_size fl_pool fl_images fl_hashes fl_fee].
  fold (info_size i). rewrite Z.add_0_l, (wrap_small 64) by done.
  rewrite (proj2 (Z.ltb_ge _ _) Hs1), Hv. cbn [negb]. unfold drop_if_old, getTransactionReceiveTime.
  fold (getTransactionHash i).
  assert (find_pending (PoolCleaner.transactionPool w) (getTransactionHash i) = Some i) as Hfind.
  { unfold find_pending. rewrite Hp. cbn. by rewrite decide_True. }
  rewrite Hfind. cbn [fmap option_fmap option_map mbind option_bind]. rewrite (proj2 (Z.leb_le _ _) Hold).
  cbn [mbind option_bind fl_size fl_pool]. rewrite Z.add_0_l, (wrap_small 64) by done.
  rewrite (proj2 (Z.ltb_ge _ _) Hs2). unfold PoolCleaner.removeTransaction. cbn.
  unfold TransactionPool.removeTransaction. rewrite Hfind. cbn. rewrite Hp. cbn.
  by rewrite decide_False by auto.
Qed.

(** ** The reward transaction *)

(** The last two elements of a list. *)
Lemma split_last_two (l : list Z) :
  (2 <= length l)%nat ->
  l = take (length l - 2) l ++ [default 0 (l !! (length l - 2)%nat); default 0 (l !! (length l - 1)%nat)].
Proof.
  intros Hl. destruct (lookup_lt_is_Some_2 l (length l - 2)) as [a Ha]; [lia|].
  destruct (lookup_lt_is_Some_2 l (length l - 1)) as [b Hb]; [lia|].
  rewrite <- (take_drop (length l - 2) l) at 1. f_equal. rewrite Ha, Hb.
  rewrite (drop_S _ _ _ Ha). replace (S (length l - 2)) with (length l - 1)%nat by lia.
  rewrite (drop_S _ _ _ Hb), drop_ge by lia. done.
Qed.

Lemma sumZ_positive l : Forall (fun x => 0 < x) l -> 0 <= sumZ l.
Proof. induction 1 as [|x l]; [done|]. change (sumZ (x :: l)) with (x + sumZ l). lia. Qed.

Lemma merge_outs_spec fuel maxOuts l :
  (1 <= maxOuts)%nat -> Forall (fun x => 0 < x) l -> sumZ l < 2 ^ 64 ->
  sumZ (merge_outs fuel maxOuts l) = sumZ l /\ Forall (fun x => 0 < x) (merge_outs fuel maxOuts l) /\
  ((length l <= fuel + maxOuts)%nat -> (length (merge_outs fuel maxOuts l) <= maxOuts)%nat).
Proof.
  intros Hm. revert l. induction fuel as [|fuel IH]; intros l Hpos Hsum; cbn [merge_outs].
  { split; [done|]. split; [done|]. lia. }
  destruct (Nat.ltb_spec maxOuts (length l)) as [Hlt|Hge]; [|split; [done|split; [done|lia]]].
  pose proof (split_last_two l ltac:(lia)) as E.
  set (a := default 0 (l !! (length l - 2)%nat)) in *. set (b := default 0 (l !! (length l - 1)%nat)) in *.
  set (front := take (length l - 2) l) in *.
  assert (length front = (length l - 2)%nat) as Hlen by (unfold front; rewrite length_take; lia).
  assert (sumZ l = sumZ front + (a + b)) as Es by (rewrite E at 1; rewrite sumZ_app; cbn; lia).
  rewrite E in Hpos. apply Forall_app in Hpos as [Hfront Hab].
  inversion_clear Hab as [|? ? Ha Hb']. inversion_clear Hb' as [|? ? Hb _].
  pose proof (sumZ_positive _ Hfront). rewrite (wrap_small 64) by (words; lia).
  destruct (IH (front ++ [a + b])) as (IH1 & IH2 & IH3).
  - apply Forall_app. split; [done|]. repeat constructor. lia.
  - rewrite sumZ_app. cbn. lia.
  - split; [|split; [done|]]; [rewrite IH1, sumZ_app; cbn; lia|].
    intros Hf. apply IH3. rewrite length_app, Hlen. cbn. lia.
Qed.

Section Reward.
Context {SecretKey KeyDerivation : Type}.
Context (generate_key_derivation : PublicKey -> SecretKey -> option KeyDerivation).
Context (derive_public_key : KeyDerivation -> Z -> PublicKey -> option PublicKey).
Context (keys : nat -> PublicKey * SecretKey).
Context (currency : Currency).

(** What a reward transaction for the height [height] looks like. *)
Record miner_tx (height reward : Z) (tx : Transaction) : Prop := {
  mt_inputs : inputs (prefix tx) = [BaseInput height];
  mt_unlock : unlockTime (prefix tx) = u32 (height + m_minedMoneyUnlockWindow currency);
  mt_signatures : signatures tx = [];
  mt_sum : sumZ (output_amounts (outputs (prefix tx))) = reward;
  mt_count : (length (outputs (prefix tx)) <= 11)%nat;
  mt_outputs : Forall (fun o => 0 < amount o /\ exists d no spend key,
    target o = KeyOutput key /\ derive_public_key d no spend = Some key) (outputs (prefix tx)) }.

Lemma miner_outputs_spec adr sk no amounts outs :
  miner_outputs generate_key_derivation derive_public_key adr sk no amounts = Some outs ->
  output_amounts outs = amounts /\
  Forall (fun o => exists d no spend key,
    target o = KeyOutput key /\ derive_public_key d no spend = Some key) outs.
Proof.
  revert no outs. induction amounts as [|a l IH]; intros no outs; cbn [miner_outputs].
  - intros [= <-]. split; [done|constructor].
  - unfold miner_output. destruct (generate_key_derivation _ _) as [d|]; [|done]. cbn.
    destruct (derive_public_key d _ _) as [k|] eqn:Ek; [|done]. cbn.
    destruct (miner_outputs _ _ _ _ _ _) as [rest|] eqn:Er; [|done]. cbn. intros [= <-].
    destruct (IH _ _ Er) as [E Hall]. split; [unfold output_amounts in *; cbn; by rewrite E|].
    constructor; [|done]. by exists d, (Z.of_nat no), (spendPublicKey adr), k.
Qed.

Lemma getBlockReward_fits version median size coins fee reward e :
  getBlockReward currency version median size coins fee = Some (reward, e) -> fits 64 reward.
Proof.
  unfold getBlockReward. destruct (_ <? size); [done|]. intros [= <- _]. by apply fits_wrap.
Qed.

Lemma constructMinerTx_spec txkey version height median coins size fee adr tx nonce tx' :
  fits 64 (m_defaultDustThreshold currency) -> signatures tx = [] ->
  constructMinerTx generate_key_derivation derive_public_key currency txkey version height median coins
    size fee adr tx nonce 11 = Some tx' ->
  exists reward e, getBlockReward currency version median size coins fee = Some (reward, e) /\
    miner_tx height reward tx'.
Proof.
  intros Hd Hsig. unfold constructMinerTx. set (extra := match nonce with [] => _ | _ => _ end).
  destruct extra as [ex|]; [|done]. cbn [mbind option_bind].
  destruct (getBlockReward _ _ _ _ _ _) as [[reward e]|] eqn:Er; [|done]. cbn [mbind option_bind].
  assert (fits 64 (defaultDustThreshold currency height)) as Hthr
    by (unfold defaultDustThreshold; destruct (_ <=? _); [by split|done]).
  pose proof (getBlockReward_fits _ _ _ _ _ _ _ Er) as Hr.
  destruct (decomposeAmount_spec reward _ Hr Hthr) as (Hsum & _ & Hall).
  unfold decomposeAmount in Hsum, Hall. set (l := decompose_amount_into_digits _ _) in *.
  destruct (merge_outs_spec (length l) 11 l) as (Hs & Hpos & Hlen); [lia| |words; lia|].
  { eapply Forall_impl; [exact Hall|]. by intros x [? _]. }
  specialize (Hlen ltac:(lia)). change (11 <? 1)%nat with false. cbn [mbind option_bind].
  destruct (miner_outputs _ _ _ _ _ _) as [outs|] eqn:Eo; [|done]. cbn [mbind option_bind].
  destruct (negb _); [done|]. intros [= <-]. exists reward, e. split; [done|].
  apply miner_outputs_spec in Eo as [Ea Hk].
  split; cbn [prefix inputs outputs unlockTime Types.signatures]; try done.
  - by rewrite Ea, Hs.
  - by rewrite <- Ea in Hlen; unfold output_amounts in Hlen; rewrite length_map in Hlen.
  - rewrite <- Ea in Hpos. unfold output_amounts in Hpos. rewrite Forall_map in Hpos.
    apply Forall_and. by split.
Qed.

Lemma with_extra_miner height reward tx ex :
  miner_tx height reward tx -> miner_tx height reward (with_extra tx ex).
Proof. by intros []. Qed.

(** A round that ends does so with the size the reward was computed for. *)
Lemma miner_rounds_spec construct (good : Z -> Transaction -> Prop) tries n ts size tx tx' :
  (forall n size tx tx', signatures tx = [] -> construct n size tx = Some tx' -> good size tx' /\ signatures tx' = []) ->
  (forall size tx ex, good size tx -> good size (with_extra tx ex)) ->
  signatures tx = [] ->
  miner_rounds construct tries n ts size tx = Some tx' ->
  good (u64 (ts + getObjectBinarySize tx')) tx'.
Proof.
  intros Hc He. revert n size tx. induction tries as [|tries IH]; intros n size tx Hsig; [done|].
  cbn [miner_rounds]. destruct (construct n size tx) as [tx1|] eqn:E; [|done]. cbn [mbind option_bind].
  destruct (Hc _ _ _ _ Hsig E) as [Hg Hsig1].
  assert (forall t, good size t -> (if size =? u64 (ts + getObjectBinarySize t) then Some t else None) = Some tx' ->
            good (u64 (ts + getObjectBinarySize tx')) tx') as Hfin.
  { intros t Ht. destruct (Z.eqb_spec size (u64 (ts + getObjectBinarySize t))) as [->|]; [|done].
    by intros [= ->]. }
  destruct (_ <? getObjectBinarySize tx1); [by apply IH|]. destruct (getObjectBinarySize tx1 <? _); [|by apply Hfin].
  destruct (negb _); [|apply Hfin, He, Hg]. destruct (negb _); [done|].
  destruct (negb _); [by apply IH|apply Hfin, He, He, Hg].
Qed.

Lemma reward_transaction_spec version height median coins ts fee adr nonce tx :
  fits 64 (m_defaultDustThreshold currency) ->
  reward_transaction generate_key_derivation derive_public_key keys currency version height median coins
    ts fee adr nonce = Some tx ->
  exists reward e,
    getBlockReward currency version median (u64 (ts + getObjectBinarySize tx)) coins fee = Some (reward, e) /\
    miner_tx height reward tx.
Proof.
  intros Hd. unfold reward_transaction.
  destruct (constructMinerTx _ _ _ _ _ _ _ _ _ _ _ _ _ _) as [tx1|] eqn:E1; [|done]. cbn [mbind option_bind].
  apply constructMinerTx_spec in E1 as (r1 & e1 & _ & H1); [|done|done].
  apply (miner_rounds_spec _ (fun size tx => exists reward e,
    getBlockReward currency version median size coins fee = Some (reward, e) /\ miner_tx height reward tx)).
  - intros n size t t' Hs Hc. apply constructMinerTx_spec in Hc as (r & e & Hr & Ht); [|done|done].
    split; [eauto|apply Ht].
  - intros size t ex (r & e & Hr & Ht). exists r, e. split; [done|]. by apply with_extra_miner.
  - apply H1.
Qed.
End Reward.

(** ** The template against the checks *)

Lemma last_blocks_genesis l count i :
  0 <= count <= i -> i < Z.of_nat (length l) ->
  last_blocks l count i true = last_blocks l count i false.
Proof.
  intros Hc Hi. unfold last_blocks. rewrite length_take, Nat.min_l by lia. cbn [negb andb].
  by rewrite (proj2 (Nat.eqb_neq (Z.to_nat (i + 1) - Z.to_nat count) 0)) by lia.
Qed.

Lemma last_blocks_in l count i u x : x ∈ last_blocks l count i u -> x ∈ l.
Proof. unfold last_blocks. intros Hx. by eapply subseteq_take, subseteq_drop. Qed.

Lemma medianValue_range v : Forall (fits 63) v -> fits 63 (medianValue v).
Proof.
  intros Hv. destruct (decide (v = [])) as [->|Hne]; [by split|].
  destruct (medianValue_sorted v Hne Hv) as (a & b & Ha & Hb & Hab & ->).
  rewrite Forall_forall in Hv.
  assert (fits 63 a) by (apply Hv; rewrite <- sortZ_Permutation; by eapply list_elem_of_lookup_2).
  assert (fits 63 b) by (apply Hv; rewrite <- sortZ_Permutation; by eapply list_elem_of_lookup_2).
  unfold fits in *. split; [apply Z.div_pos; lia|]. apply Z.div_lt_upper_bound; lia.
Qed.

Lemma getBlockReward_zone currency version median size coins fee :
  getBlockReward currency version
    (Z.max median (blockGrantedFullRewardZoneByBlockVersion currency version)) size coins fee =
  getBlockReward currency version median size coins fee.
Proof. unfold getBlockReward. by rewrite <- Z.max_assoc, Z.max_id. Qed.

Section Checks.
Context (currency : Currency) (m : UpgradeManager.t) (c : Core).
Context (Hc : core_ok currency c).

Lemma main_ok : cache_ok (main_chain c) /\ main_chain c <> [] /\ 0 < height (main_chain c).
Proof.
  destruct (core_main _ _ Hc) as (_ & _ & _ & _ & Gm & Hne). pose proof (gc_cache _ _ Gm) as Hok.
  split; [done|]. split; [done|]. destruct (main_chain c) as [|s l]; [done|].
  destruct Hok as (_ & (_ & Hb & _) & _). rewrite height_cons. pose proof (height_nonneg l).
  destruct (blockInfos s); [done|]. cbn. lia.
Qed.

(** The median size of the template is the one [getBlockReward] would use. *)
Lemma template_median limit sizes :
  let top := height (main_chain c) - 1 in
  let zone := blockGrantedFullRewardZoneByBlockVersion currency
                (UpgradeManager.getBlockMajorVersion m (u32 (top + 1))) in
  0 <= m_rewardBlocksWindow currency <= top -> fits 63 zone ->
  Forall (fun x => fits 32 (bi_blockSize x)) (chain_blocks (main_chain c)) ->
  getLastBlocksSizes (main_chain c) (m_rewardBlocksWindow currency) top true = Some sizes ->
  calculateCumulativeBlocksizeLimit currency m c (u32 (top + 1)) = Some limit ->
  limit / 2 = Z.max (medianValue sizes) zone.
Proof.
  intros top zone Hw Hz Hs. destruct main_ok as (Hok & Hne & Hpos).
  unfold calculateCumulativeBlocksizeLimit, core_getTopBlockIndex. rewrite top_of_chain by done. fold top zone.
  cbn [mbind option_bind]. unfold getLastBlocksSizes.
  rewrite !getLastUnits_chain by (done || (unfold top in *; lia)). intros [= <-].
  rewrite last_blocks_genesis by (unfold top, height in *; lia). cbn [mbind option_bind].
  set (v := map _ _). intros [= <-].
  assert (fits 63 (medianValue v)) as Hm.
  { apply medianValue_range, Forall_map, Forall_forall. intros x Hx%last_blocks_in.
    rewrite Forall_forall in Hs. specialize (Hs x Hx). cbn. unfold fits in *. lia. }
  unfold fits in *. destruct (Z.leb_spec (medianValue v) zone); rewrite (wrap_small 64) by (unfold fits; lia);
    rewrite Z.div_mul by lia; lia.
Qed.

(** One timestamp after the other is the window of the last blocks. *)
Lemma timestamps_window start count :
  0 <= start -> 0 <= count -> start + count = height (main_chain c) ->
  mapM (getBlockTimestampByIndex c) (seqZ start count) =
  Some (map bi_timestamp (last_blocks (chain_blocks (main_chain c)) count (height (main_chain c) - 1) true)).
Proof.
  intros H0 H1 Hsum. destruct main_ok as (Hok & Hne & Hpos).
  assert (last_blocks (chain_blocks (main_chain c)) count (height (main_chain c) - 1) true =
          drop (Z.to_nat start) (chain_blocks (main_chain c))) as ->.
  { unfold last_blocks. rewrite take_ge by (unfold height; lia). cbn [negb andb]. f_equal. unfold height in *. lia. }
  revert start H0 Hsum. induction (Z.to_nat count) as [|n IH] eqn:En in count, H1 |- *; intros start H0 Hsum.
  { rewrite (seqZ_nil start count) by lia. by rewrite drop_ge by (unfold height in *; lia). }
  rewrite seqZ_cons by lia. cbn [mapM].
  destruct (lookup_lt_is_Some_2 (chain_blocks (main_chain c)) (Z.to_nat start)) as [x Hx]; [unfold height in *; lia|].
  assert (getBlockTimestampByIndex c start = Some (bi_timestamp x)) as ->.
  { unfold getBlockTimestampByIndex, getLastTimestamps. rewrite getLastUnits_chain by (done || lia).
    cbn [mbind option_bind]. unfold last_blocks. replace (Z.to_nat (start + 1)) with (S (Z.to_nat start)) by lia.
    rewrite (take_S_r _ _ x Hx), length_app, length_take, Nat.min_l by (unfold height in *; lia). cbn [length negb andb].
    rewrite drop_app_length' by (rewrite length_take; unfold height in *; lia). done. }
  cbn [mbind option_bind]. rewrite (IH (Z.pred count)) by lia. cbn.
  replace (Z.to_nat (Z.succ start)) with (S (Z.to_nat start)) by lia. by rewrite (drop_S _ _ _ Hx).
Qed.
End Checks.

(** The parent block of a template can be written and is small. *)
Lemma template_parent_written cn_fast_hash version minor nc ts prev base hashes :
  0 <= ts -> BLOCK_MAJOR_VERSION_2 <= version ->
  exists ba, getParentBlockBinaryArray cn_fast_hash false
    (mkBlockTemplate (mkBlockHeader version minor nc ts prev) (template_parent version) base hashes) = Some ba /\
  Z.of_nat (length ba) <= 2048.
Proof.
  intros Hts Hv. unfold getParentBlockBinaryArray, template_parent. cbn [header parentBlock timestamp nonce].
  rewrite (proj2 (Z.leb_le _ _) Hv). unfold write_parent. cbn [pb_transactionCount pb_baseTransactionBranch
    pb_baseTransaction pb_blockchainBranch pb_majorVersion pb_minorVersion pb_previousBlockHash extra].
  replace (getMergeMiningTagFromExtra _) with (Some (mkMergeMiningTag 0 NULL_HASH)) by (vm_compute; reflexivity).
  change (1 <? 1) with false. change (tree_depth 1) with 0. cbn -[Z.of_nat writeVarint write_base_transaction].
  eexists. split; [reflexivity|]. rewrite !length_app. pose proof (writeVarint_length _ Hts).
  set (w := write_base_transaction _). assert (length w <= 200)%nat by (vm_compute; lia).
  set (a := length (writeVarint BLOCK_MINOR_VERSION_0)). assert (a <= 10)%nat by (vm_compute; lia).
  set (b := length (writeVarint 0)). assert (b <= 10)%nat by (vm_compute; lia).
  set (d := length (writeVarint 1)). assert (d <= 10)%nat by (vm_compute; lia).
  cbn [length NULL_HASH replicate]. lia.
Qed.

(** The timestamp of a template is not below the median that [validateBlock]
    computes. *)
Lemma template_timestamp_ok currency c cache now ts :
  core_ok currency c -> cache_ok cache -> chain_blocks cache = chain_blocks (main_chain c) ->
  let top := height (main_chain c) - 1 in
  let window := template_window (top + 1) in
  0 <= now -> template_timestamp now c (top + 1) = Some ts ->
  0 <= ts /\ exists timestamps, getLastTimestamps cache window top true = Some timestamps /\
    (window <= Z.of_nat (length timestamps) -> medianValue timestamps <= ts).
Proof.
  intros Hc Hok Hbl top window Hnow Hts. destruct (main_ok _ _ Hc) as (_ & _ & Hpos).
  assert (0 <= window) as Hwin by (unfold window, template_window; destruct (_ <=? _); by compute).
  assert (height cache = height (main_chain c)) as Hh by (unfold height; by rewrite Hbl).
  unfold getLastTimestamps. rewrite getLastUnits_chain by (done || (unfold top; lia)). rewrite Hbl.
  unfold template_timestamp in Hts. fold window in Hts.
  destruct (Z.leb_spec window (top + 1)) as [Hle|Hgt].
  - rewrite (timestamps_window currency c Hc) in Hts by (unfold top; lia). cbn [mbind option_bind] in Hts.
    fold top in Hts. destruct (Z.ltb_spec now (medianValue (map bi_timestamp
      (last_blocks (chain_blocks (main_chain c)) window top true)))) as [Hlt|Hge];
      injection Hts as <-; (split; [lia|]); eexists; (split; [reflexivity|]); intros _; lia.
  - injection Hts as <-. split; [done|]. eexists. split; [reflexivity|]. intros Hlen. exfalso.
    rewrite length_map in Hlen. unfold last_blocks in Hlen. rewrite length_drop, length_take in Hlen.
    unfold top, height in *. lia.
Qed.

Lemma amount_le_sum l x : Forall (fun y => 0 < y) l -> x ∈ l -> x <= sumZ l.
Proof.
  induction 1 as [|y l Hy Hl IH]; [by intros ?%elem_of_nil|]. change (sumZ (y :: l)) with (y + sumZ l).
  pose proof (sumZ_positive l Hl). intros [->|Hx]%elem_of_cons; [lia|]. specialize (IH Hx). lia.
Qed.

(** The outputs of a reward transaction pass the checks and add up to the reward. *)
Lemma miner_outputs_check {KeyDerivation} (derive_public_key : KeyDerivation -> Z -> PublicKey -> option PublicKey)
    check_key currency next reward tx :
  (forall d no spend key, derive_public_key d no spend = Some key -> check_key key = true /\ pod_ok 32 key) ->
  miner_tx derive_public_key currency next reward tx -> fits 64 reward ->
  check_outputs check_key (outputs (prefix tx)) 0 = inr reward.
Proof.
  intros Hcurve [_ _ _ Hsum _ Hout] Hr.
  assert (Forall (fun y => 0 < y) (output_amounts (outputs (prefix tx)))) as Hpos.
  { apply Forall_map. eapply Forall_impl; [exact Hout|]. by intros o [? _]. }
  apply check_outputs_spec; [|by unfold UINT64_MAX|rewrite Z.add_0_l, Hsum; split; [|split; [|done]]].
  - apply Forall_forall. intros o Ho. rewrite Forall_forall in Hout.
    destruct (Hout o Ho) as (Ha & d & no & spend & key & Ek & Ed).
    split; [|rewrite Ek; by apply (Hcurve d no spend)].
    assert (amount o <= reward); [|unfold fits in *; lia]. rewrite <- Hsum.
    apply amount_le_sum; [done|]. apply list_elem_of_In, in_map. by apply list_elem_of_In.
  - eapply Forall_impl; [exact Hout|]. intros o (Ha & d & no & spend & key & Ek & Ed).
    unfold output_valid. rewrite Ek. split; [lia|]. by apply (Hcurve d no spend).
  - unfold fits, UINT64_MAX in *. lia.
Qed.

(** A block with the header and the reward transaction of a template passes
    [validateBlock] on a chain with the blocks of the main chain. *)
Lemma template_validates {KeyDerivation} (derive_public_key : KeyDerivation -> Z -> PublicKey -> option PublicKey)
    check_key cn_fast_hash currency m c cache nc prev ts tx hashes reward now now' :
  core_ok currency c -> cache_ok cache -> chain_blocks cache = chain_blocks (main_chain c) ->
  let top := height (main_chain c) - 1 in
  let version := UpgradeManager.getBlockMajorVersion m (top + 1) in
  let b := mkBlockTemplate (mkBlockHeader version (template_minor currency version) nc ts prev)
             (template_parent version) tx hashes in
  top + 1 < 2 ^ 32 -> 0 <= now ->
  (forall d no spend key, derive_public_key d no spend = Some key -> check_key key = true /\ pod_ok 32 key) ->
  template_window (top + 1) = timestampCheckWindow currency (top + 1) ->
  ic_getBlockIndex (IBlockchainCache := segments_cache currency now') cache prev = Some top ->
  template_timestamp now c (top + 1) = Some ts -> ts <= u64 (now' + blockFutureTimeLimit currency (top + 1)) ->
  miner_tx derive_public_key currency (top + 1) reward tx -> fits 64 reward ->
  validateBlock check_key cn_fast_hash currency m (H := segments_cache currency now') cache b now' = inr reward.
Proof.
  intros Hc Hok Hbl top version b Htop Hnow Hcurve Hwin Hidx Hts Hfut Htx Hr.
  destruct (main_ok _ _ Hc) as (_ & _ & Hpos).
  destruct (template_timestamp_ok _ _ _ _ _ Hc Hok Hbl Hnow Hts) as (Hts0 & stamps & Est & Hmed).
  fold top in Est, Hmed. rewrite Hwin in Est, Hmed. destruct (Htx) as [Hin Hul Hsig _ _ _].
  assert (u32 (top + 1) = top + 1) as En by (apply (wrap_small 32); unfold fits, top; lia).
  assert (Block.getBlockIndex b = top + 1) as Eidx by (unfold Block.getBlockIndex, b; cbn; by rewrite Hin).
  unfold validateBlock. rewrite Eidx. cbn [b header parentBlock baseTransaction previousBlockHash majorVersion timestamp].
  rewrite Hidx, En. fold version. rewrite Z.eqb_refl. cbn [negb].
  replace (BLOCK_MAJOR_VERSION_1 <? pb_majorVersion (template_parent version)) with false
    by (unfold template_parent; by destruct (_ <=? version)).
  rewrite andb_false_r.
  assert (exists parent, (if BLOCK_MAJOR_VERSION_2 <=? version then getParentBlockBinaryArray cn_fast_hash false b
            else Some []) = Some parent /\ Z.of_nat (length parent) <= 2048) as (parent & -> & Hpl).
  { destruct (Z.leb_spec BLOCK_MAJOR_VERSION_2 version); [by apply template_parent_written|]. by exists []. }
  rewrite (proj2 (Z.ltb_ge _ _) Hpl), (proj2 (Z.ltb_ge _ _) Hfut). cbn [ic_getLastTimestamps segments_cache].
  rewrite Est.
  assert ((timestampCheckWindow currency (top + 1) <=? Z.of_nat (length stamps)) && (ts <? medianValue stamps) = false) as ->.
  { apply andb_false_iff. destruct (Z.leb_spec (timestampCheckWindow currency (top + 1)) (Z.of_nat (length stamps)));
      [right; apply Z.ltb_ge; auto|by left]. }
  rewrite Hin, Z.eqb_refl, Hul, Z.eqb_refl, Hsig. cbn [negb]. rewrite bool_decide_true by done.
  cbn [negb]. rewrite andb_false_r.
  by rewrite (miner_outputs_check derive_public_key check_key currency (top + 1) reward tx).
Qed.

(** What a template is made of. *)
Lemma getBlockTemplate_inv {SecretKey KeyDerivation}
    (generate_key_derivation : PublicKey -> SecretKey -> option KeyDerivation)
    (derive_public_key : KeyDerivation -> Z -> PublicKey -> option PublicKey)
    keys currency m now c adr extraNonce b difficulty next c' :
  core_ok currency c -> let top := height (main_chain c) - 1 in top + 1 < 2 ^ 32 ->
  getBlockTemplate generate_key_derivation derive_public_key keys currency m now c adr extraNonce =
    Some (Some (b, difficulty, next), c') ->
  let version := UpgradeManager.getBlockMajorVersion m (top + 1) in
  exists hash ts limit coins f tx,
    core_getTopBlockHash c = Some hash /\ template_timestamp now c (top + 1) = Some ts /\
    calculateCumulativeBlocksizeLimit currency m c (u32 (top + 1)) = Some limit /\
    getAlreadyGeneratedCoins (main_chain c) top = Some coins /\
    fillBlockTemplate currency now (limit / 2) (maxBlockCumulativeSize currency (top + 1)) (top + 1)
      (transactionPool c) = Some f /\
    reward_transaction generate_key_derivation derive_public_key keys currency version (top + 1)
      (limit / 2) coins (fl_size f) (fl_fee f) adr extraNonce = Some tx /\
    b = mkBlockTemplate (mkBlockHeader version (template_minor currency version) 0 ts hash)
          (template_parent version) tx (fl_hashes f) /\
    next = top + 1 /\ c' = set_pool c (fl_pool f).
Proof.
  intros Hc top Htop. destruct (main_ok _ _ Hc) as (Hok & Hne & Hpos).
  assert (u32 (top + 1) = top + 1) as En by (apply (wrap_small 32); unfold fits, top; lia).
  unfold getBlockTemplate, core_getTopBlockIndex. rewrite top_of_chain by done. fold top.
  cbn [mbind option_bind]. rewrite En.
  destruct (core_getDifficultyForNextBlock _ _ _) as [d|]; [|done]. cbn [mbind option_bind].
  destruct (d =? 0); [done|]. destruct (core_getTopBlockHash c) as [hash|]; [|done]. cbn [mbind option_bind].
  destruct (template_timestamp _ _ _) as [ts|]; [|done]. cbn [mbind option_bind].
  destruct (calculateCumulativeBlocksizeLimit _ _ _ _) as [limit|] eqn:El; [|done]. cbn [mbind option_bind].
  destruct (getAlreadyGeneratedCoins _ _) as [coins|] eqn:Ecoins; [|done]. cbn [mbind option_bind].
  destruct (fillBlockTemplate _ _ _ _ _ _) as [f|] eqn:Ef; [|done]. cbn [mbind option_bind].
  destruct (reward_transaction _ _ _ _ _ _ _ _ _ _ _ _) as [tx|] eqn:Etx; [|done]. intros [= <- <- <- <-].
  exists hash, ts, limit, coins, f, tx. split_and!; done.
Qed.

(** *** The block that a miner makes of a template *)

(** A transaction as it comes over the network, not larger than allowed. *)
Definition from_blob (cn_fast_hash : list Z -> list Z) (currency : Currency) (tx : CachedTx) : Prop :=
  bytes_ok (ct_binaryArray tx) /\ Z.of_nat (length (ct_binaryArray tx)) <= m_maxTxSize currency /\
  CachedTransaction (ct_binaryArray tx) = Some (ct_transaction tx) /\
  ct_hash tx = Block.getTransactionHash cn_fast_hash (ct_binaryArray tx).

Definition with_nonce (b : BlockTemplate) (nonce : Z) : BlockTemplate :=
  mkBlockTemplate (mkBlockHeader (majorVersion (header b)) (minorVersion (header b)) nonce (timestamp (header b))
                     (previousBlockHash (header b))) (parentBlock b) (baseTransaction b) (transactionHashes b).

Lemma extract_chosen cn_fast_hash currency l size :
  Forall (from_blob cn_fast_hash currency) l -> fits 64 size ->
  extractTransactions cn_fast_hash currency (ct_binaryArray <$> l) size = Some (l, u64 (size + sumZ (tx_size <$> l))).
Proof.
  intros H. revert size. induction H as [|tx l (_ & Hs & Ht & Hh) _ IH]; intros size Hf.
  { cbn. by rewrite Z.add_0_r, wrap_small. }
  cbn [fmap list_fmap extractTransactions]. rewrite (proj2 (Z.ltb_ge _ _) Hs), Ht. cbn [mbind option_bind].
  rewrite IH by (by apply fits_wrap). cbn [mbind option_bind]. rewrite <- Hh, wrap_add_l. f_equal. f_equal; [by destruct tx|].
  change (sumZ (tx_size tx :: (tx_size <$> l))) with (tx_size tx + sumZ (tx_size <$> l)).
  unfold tx_size at 2. f_equal. lia.
Qed.

(** The fee of a valid transaction is the one the pool has for it. *)
Lemma validateSemantic_fee check_key scalarmultKey t fee :
  prefix_ok (prefix t) -> validateSemantic check_key scalarmultKey t = inr fee -> getTransactionFee t = fee.
Proof.
  intros Hp [(_ & _ & Hin & _ & H1 & H2) ->]%validateSemantic_spec; [|done]. unfold getTransactionFee, exact_fee.
  destruct Hp as (_ & _ & Hi & _ & Ho & _).
  destruct (existsb _ _) eqn:Eb.
  - apply existsb_exists in Eb as (i & Hx%list_elem_of_In & Hb). rewrite Forall_forall in Hin. specialize (Hin i Hx).
    by destruct i.
  - rewrite !sum_u64_wrap. assert (0 <= sumZ (output_amounts (outputs (prefix t)))) as H0.
    { apply sumZ_nonneg, Forall_map. eapply Forall_impl; [exact Ho|]. by intros o [[? _] _]. }
    unfold UINT64_MAX in *. by rewrite !wrap_small by (rewrite ?wrap_small by (words; lia); words; lia).
Qed.

Lemma validateTransactions_fee check_key scalarmultKey checkRingSignature cn_fast_hash
    {C} (H : IBlockchainCache C) points (cache : C) l state index fee fee' state' :
  Forall (fun t => prefix_ok (prefix t)) l -> fits 64 fee ->
  validateTransactions check_key scalarmultKey checkRingSignature cn_fast_hash points cache l state index fee =
    inr (fee', state') ->
  fee' = u64 (fee + sumZ (getTransactionFee <$> l)).
Proof.
  intros Hl. revert state fee. induction Hl as [|t l Ht _ IH]; intros state fee Hf; cbn [validateTransactions].
  { intros [= <- _]. cbn. by rewrite Z.add_0_r, wrap_small. }
  unfold validateTransaction. destruct (validateSemantic _ _ t) as [e|f] eqn:Es; [done|].
  apply validateSemantic_fee in Es as <-; [|done].
  destruct (validate_inputs _ _ _ _ _ _ _ _) as [[e|] st]; [done|]. intros E%IH; [|by apply fits_wrap].
  rewrite E, wrap_add_l, fmap_cons.
  change (sumZ (getTransactionFee t :: (getTransactionFee <$> l))) with (getTransactionFee t + sumZ (getTransactionFee <$> l)).
  f_equal. lia.
Qed.

Lemma from_blob_prefix cn_fast_hash currency tx :
  from_blob cn_fast_hash currency tx -> prefix_ok (prefix (ct_transaction tx)).
Proof.
  intros (Hb & _ & E & _). unfold CachedTransaction, fromBinaryArray in E.
  destruct (read_transaction _) as [[t [|? ?]]|] eqn:Er; try done. injection E as ->.
  apply transaction_read_canonical in Er as [Hr _]; [|done]. apply Hr.
Qed.

(** The hashes and the ring sizes of the transactions chosen are in order. *)
Lemma chosen_checks b height chosen :
  Block.getBlockIndex b = height -> transactionHashes b = ct_hash <$> chosen -> NoDup (transactionHashes b) ->
  Forall (fun tx => validateBlockTemplateTransaction tx height = true) chosen ->
  check_transaction_hashes b chosen = None /\ check_mixins b chosen = true.
Proof.
  intros Eh Et Hn Hv. split.
  - unfold check_transaction_hashes. rewrite <- Et. case_bool_decide; [|done].
    rewrite (bool_decide_true (NoDup _)), (bool_decide_true (_ = _)) by done. cbn [negb].
    rewrite (proj2 (forallb_forall _ _)); [done|]. intros h Hh%list_elem_of_In. by apply bool_decide_eq_true.
  - unfold check_mixins. apply orb_true_iff. left. rewrite Eh. unfold validate_transactions.
    destruct (getMixinAllowableRange height) as [[lo hi] d] eqn:Er. apply forallb_forall.
    intros t (tx & -> & Htx)%list_elem_of_In%list_elem_of_fmap. rewrite Forall_forall in Hv. specialize (Hv tx Htx).
    unfold validateBlockTemplateTransaction, validate_transactions in Hv. rewrite Er in Hv.
    destruct (_ <=? _); [done|]. cbn in Hv. by apply andb_true_iff in Hv as [? _].
Qed.

(** The checks of a block, but for the work, from its parts. *)
Lemma check_block_but_work check_key scalarmultKey checkRingSignature cn_fast_hash h0 h1 h2 genesisBlockHash points
    currency m now cache cb blob chosen top reward d fees st coins sizes e :
  let b := cb_block cb in
  let blockSize := u64 (getObjectBinarySize (baseTransaction b) + sumZ (tx_size <$> chosen)) in
  Forall (from_blob cn_fast_hash currency) chosen ->
  ic_getBlockIndex (IBlockchainCache := segments_cache currency now) cache (previousBlockHash (header b)) = Some top ->
  blockSize <= maxBlockCumulativeSize currency (u32 (top + 1)) ->
  validateBlock check_key cn_fast_hash currency m (H := segments_cache currency now) cache b now = inr reward ->
  getDifficultyForNextBlock currency cache top = Some d -> d <> 0 ->
  check_transaction_hashes b chosen = None -> check_mixins b chosen = true ->
  validateTransactions check_key scalarmultKey checkRingSignature cn_fast_hash (H := segments_cache currency now)
    points cache (ct_transaction <$> chosen) ∅ top 0 = inr (fees, st) ->
  getAlreadyGeneratedCoins cache top = Some coins ->
  getLastBlocksSizes cache (m_rewardBlocksWindow currency) top true = Some sizes ->
  getBlockReward currency (majorVersion (header b)) (medianValue sizes) blockSize coins (u64 (sumZ (tx_fee <$> chosen))) =
    Some (reward, e) ->
  check_block check_key scalarmultKey checkRingSignature cn_fast_hash h0 h1 h2 genesisBlockHash currency m points now
    cache cb (mkRawBlock blob (ct_binaryArray <$> chosen)) =
  match check_work cn_fast_hash h0 h1 h2 genesisBlockHash points cb d with
  | Some e => inl (Rejected e)
  | None => inr (mkCheckedBlock top chosen st blockSize e d)
  end.
Proof.
  intros b blockSize Hblob Hidx Hsize Hval Hd Hd0 Hh Hmix Hv Hcoins Hsizes Hr.
  unfold check_block, core_cache. cbn [Types.transactions]. fold b.
  rewrite (extract_chosen _ _ _ 0 Hblob) by done. rewrite Z.add_0_l, wrap_add_r. fold blockSize.
  rewrite Hidx, (proj2 (Z.ltb_ge _ _) Hsize), Hval, Hd, (proj2 (Z.eqb_neq _ _) Hd0), Hh, Hmix. cbn [negb]. rewrite Hv.
  apply validateTransactions_fee in Hv as ->; [|apply Forall_map; eapply Forall_impl; [exact Hblob|apply from_blob_prefix]|done].
  unfold check_reward. fold b. rewrite Hcoins, Hsizes, Z.add_0_l, <- list_fmap_compose.
  change (getTransactionFee ∘ ct_transaction) with tx_fee. rewrite Hr, Z.eqb_refl. cbn [negb].
  by destruct (check_work _ _ _ _ _ _ _ _).
Qed.

(** C8: a block template builds on the top block, and a block mined from it, with any nonce, passes
    the checks of [addBlock] but for what is named here.  [addBlock] finds the predecessor; the
    transactions named are found in the pool, and their bytes give them back with these hashes;
    [validateBlock] accepts the header and the reward transaction; the hashes and the ring sizes of
    the transactions are in order; and the reward claimed is the one due for the size of the block and the
    fees.  So, if the block is not larger than [maxBlockCumulativeSize] (which the template does not
    see to), the next difficulty is not 0 and [validateTransactions] accepts the transactions
    on the main chain, [check_block] leaves only the checkpoint or the proof of work to decide.  The chain is longer than
    the window of the reward, the height is not one where the two windows for timestamps differ, keys derived on the curve are valid
    keys, the transactions of the pool came as bytes, are not larger than a transaction may be and have key
    inputs, and the timestamp is not too far in the future when the block arrives. *)
Theorem getBlockTemplate_correct {SecretKey KeyDerivation}
    (generate_key_derivation : PublicKey -> SecretKey -> option KeyDerivation)
    (derive_public_key : KeyDerivation -> Z -> PublicKey -> option PublicKey)
    keys check_key scalarmultKey checkRingSignature cn_fast_hash h0 h1 h2 genesisBlockHash points currency m now now' c
    adr extraNonce b difficulty next c' :
  core_ok currency c ->
  let top := height (main_chain c) - 1 in
  top + 1 < 2 ^ 32 -> 0 <= now ->
  (forall d no spend key, derive_public_key d no spend = Some key -> check_key key = true /\ pod_ok 32 key) ->
  template_window (top + 1) = timestampCheckWindow currency (top + 1) ->
  0 <= m_rewardBlocksWindow currency <= top ->
  fits 63 (blockGrantedFullRewardZoneByBlockVersion currency (UpgradeManager.getBlockMajorVersion m (top + 1))) ->
  fits 64 (m_defaultDustThreshold currency) -> 0 <= m_fusionTxMaxSize currency ->
  Forall (fun x => fits 32 (bi_blockSize x)) (chain_blocks (main_chain c)) ->
  Forall (fun i => info_images i <> [] /\ from_blob cn_fast_hash currency (cachedTransaction i)) (pending (pool_of c)) ->
  getBlockTemplate generate_key_derivation derive_public_key keys currency m now c adr extraNonce =
    Some (Some (b, difficulty, next), c') ->
  timestamp (header b) <= u64 (now' + blockFutureTimeLimit currency next) ->
  next = top + 1 /\
  exists id chosen reward emissionChange,
    let cache := path (chainsStorage c') id in
    let blockSize := u64 (getObjectBinarySize (baseTransaction b) + sumZ (tx_size <$> chosen)) in
    findSegmentContainingBlock (chainsStorage c') (chainsLeaves c') (previousBlockHash (header b)) = Some id /\
    mapM (getTransaction (pool_of c')) (transactionHashes b) = Some chosen /\ NoDup (transactionHashes b) /\
    forall n, validateBlock check_key cn_fast_hash currency m (H := segments_cache currency now') cache (with_nonce b n) now' =
        inr reward /\
      forall cb blob currentDifficulty fees state, cb_block cb = with_nonce b n ->
        blockSize <= maxBlockCumulativeSize currency next ->
        getDifficultyForNextBlock currency cache top = Some currentDifficulty -> currentDifficulty <> 0 ->
        validateTransactions check_key scalarmultKey checkRingSignature cn_fast_hash (H := segments_cache currency now')
          points cache (ct_transaction <$> chosen) ∅ top 0 = inr (fees, state) ->
        check_block check_key scalarmultKey checkRingSignature cn_fast_hash h0 h1 h2 genesisBlockHash currency m points now'
          cache cb (mkRawBlock blob (ct_binaryArray <$> chosen)) =
        match check_work cn_fast_hash h0 h1 h2 genesisBlockHash points cb currentDifficulty with
        | Some e => inl (Rejected e)
        | None => inr (mkCheckedBlock top chosen state blockSize emissionChange currentDifficulty)
        end.
Proof.
  intros Hc top Htop Hnow Hcurve Hwin Hrw Hzone Hdust Hfus Hsizes Hpool Hrun Hfut.
  destruct (main_ok _ _ Hc) as (Hok & Hne & Hpos).
  destruct (top_block currency c Hc) as (id & hash & Eh & Efind & Eidx & _ & _ & Hcache & Hbl).
  assert (u32 (top + 1) = top + 1) as En by (apply (wrap_small 32); unfold fits, top; lia).
  apply getBlockTemplate_inv in Hrun
    as (hash' & ts & limit & coins & f & tx & Eh' & Ets & El & Ecoins & Ef & Etx & -> & -> & ->); [|done|done].
  rewrite Eh in Eh'. injection Eh' as <-. cbn [header timestamp] in Hfut.
  pose proof (co_pool _ _ Hc) as Hw.
  destruct (fillBlockTemplate_filled _ _ _ _ _ _ _ Hw Hfus Ef) as [chosen Hf].
  assert (Forall (fun tx => tx_images tx <> [] /\ from_blob cn_fast_hash currency tx) chosen) as [Hne' Hblob]%Forall_and.
  { apply Forall_forall. intros t Ht. apply (fi_pool _ _ _ _ _ _ Hf), list_elem_of_fmap in Ht as (i & -> & Hi).
    rewrite Forall_forall in Hpool. by apply Hpool. }
  destruct (filled_hashes _ _ _ _ _ _ Hw Hf Hne') as [Hn Hm].
  apply reward_transaction_spec in Etx as (reward & e & Er & Htx); [|done]. fold top in Ets, El, Ecoins, Er, Htx.
  destruct (getLastBlocksSizes (main_chain c) (m_rewardBlocksWindow currency) top true) as [sizes|] eqn:Es.
  2:{ unfold getLastBlocksSizes in Es. by rewrite getLastUnits_chain in Es by (done || (unfold top in *; lia)). }
  rewrite (template_median currency m c Hc limit sizes) in Er; [|fold top; done || (rewrite En; done)..].
  fold top in Er. rewrite En, getBlockReward_zone in Er.
  split; [done|]. exists id, chosen, reward, e. change (chainsStorage (set_pool c (fl_pool f))) with (chainsStorage c).
  split; [done|]. split; [done|]. split; [done|]. intros n.
  assert (ic_getBlockIndex (IBlockchainCache := segments_cache currency now') (path (chainsStorage c) id) hash = Some top) as Hidx.
  { fold top in Eidx. unfold index_in in Eidx. destruct (chainsStorage c !! id) as [nd|] eqn:En'; [|done].
    cbn [ic_getBlockIndex segments_cache]. by rewrite (path_cons _ _ _ _ (co_forest _ _ Hc) En'). }
  match goal with |- ?V = _ /\ _ => assert (V = inr reward) as Hval end.
  { apply (template_validates derive_public_key) with (now := now); try done; by eapply getBlockReward_fits. }
  split; [exact Hval|].
  intros cb blob d fees st Hcb Hsize Hd Hd0 Hv.
  assert (Block.getBlockIndex (cb_block cb) = top + 1) as Ei
    by (rewrite Hcb; unfold Block.getBlockIndex; cbn; by rewrite (mt_inputs _ _ _ _ _ Htx)).
  destruct (chosen_checks (cb_block cb) (top + 1) chosen) as [Hh Hmix];
    [done|rewrite Hcb; apply (fi_hashes _ _ _ _ _ _ Hf)|by rewrite Hcb|apply (fi_valid _ _ _ _ _ _ Hf)|].
  assert (height (path (chainsStorage c) id) = height (main_chain c)) as Hh'
    by (unfold height; by rewrite Hbl).
  replace (baseTransaction _) with (baseTransaction (cb_block cb)) in Hsize |- * by (by rewrite Hcb).
  eapply check_block_but_work; try done; try (by rewrite Hcb); [by rewrite En|..].
  - rewrite getAlreadyGeneratedCoins_chain in Ecoins |- * by (done || (unfold top in *; lia)). by rewrite Hbl.
  - unfold getLastBlocksSizes in Es |- *. rewrite getLastUnits_chain in Es |- * by (done || (unfold top in *; lia)).
    by rewrite Hbl.
  - rewrite Hcb. cbn [with_nonce header majorVersion baseTransaction].
    by rewrite (fi_size _ _ _ _ _ _ Hf), (fi_fee _ _ _ _ _ _ Hf), wrap_add_l, (Z.add_comm (sumZ _)) in Er.
Qed.

(** ** The theorems on small examples *)

Lemma fillBlockTemplate_correct_witness :
  exists f, fillBlockTemplate CurrencyBuilder 1000 100000 1000000 5 sample_wrapper = Some f /\
    fl_hashes f = [replicate 32 4; replicate 32 3] /\ NoDup (fl_hashes f) /\ fl_size f = 15 /\ fl_fee f = 20.
Proof.
  destruct (fillBlockTemplate_correct CurrencyBuilder 1000 5 100000 1000000 sample_wrapper sample_wrapper_ok)
    as (f & chosen & E & _ & Hn & _).
  - by compute.
  - apply (bool_decide_unpack _). vm_compute. exact I.
  - intros i Hi. vm_compute in Hi. intros Hf. exfalso. revert Hf.
    repeat (apply elem_of_cons in Hi as [->|Hi]; [by vm_compute|]). by apply elem_of_nil in Hi.
  - exists f. assert ((fun f => (fl_hashes f, fl_size f, fl_fee f)) <$>
      fillBlockTemplate CurrencyBuilder 1000 100000 1000000 5 sample_wrapper =
      Some ([replicate 32 4; replicate 32 3], 15, 20)) as E' by (vm_compute; reflexivity).
    rewrite E in E'. injection E' as E1 E2 E3. split; [exact E|]. split; [exact E1|]. split; [exact Hn|].
    split; [exact E2|exact E3].
Defined.

(** A transaction without fee whose extra field is too large for a block. *)
Definition expired_tx : CachedTx :=
  mkCachedTx (mkTransaction (mkTransactionPrefix 1 0
    [KeyInput 100 [1] (replicate 32 3)] [mkTransactionOutput 100 (KeyOutput [])] (replicate 200 0)) [])
    (replicate 32 3) (replicate 300 0).
Definition expired_wrapper : TransactionPoolCleanWrapper TransactionPool :=
  mkWrapper (TransactionPool.pushTransaction 7 expired_tx
    (extractSpentOutputs (ct_transaction expired_tx)) empty_pool).2 ∅ 100.

Lemma template_expired_transaction_witness :
  fillBlockTemplate CurrencyBuilder 90000 100000 1000000 5 expired_wrapper = None.
Proof.
  apply (template_expired_transaction CurrencyBuilder 90000 5 100000 1000000 expired_wrapper
    (new_info 7 expired_tx)); vm_compute; (reflexivity || (split; congruence) || congruence).
Defined.

(** The parameters of the currency with an empty window of the reward, so that a
    short chain is long enough. *)
Definition short_window : Currency :=
  let c := CurrencyBuilder in
  mkCurrency (m_maxBlockHeight c) (m_maxBlockBlobSize c) (m_maxTxSize c) (m_publicAddressBase58Prefix c)
    (m_minedMoneyUnlockWindow c) (m_timestampCheckWindow c) (m_blockFutureTimeLimit c) (m_moneySupply c)
    (m_emissionSpeedFactor c) (m_genesisBlockReward c) 0 (m_zawyDifficultyBlockIndex c)
    (m_zawyDifficultyV2 c) (m_zawyDifficultyBlockVersion c) (m_blockGrantedFullRewardZone c)
    (m_minerTxBlobReservedSize c) (m_numberOfDecimalPlaces c) (m_coin c) (m_mininumFee c)
    (m_defaultDustThreshold c) (m_difficultyTarget c) (m_difficultyWindow c) (m_difficultyLag c)
    (m_difficultyCut c) (m_maxBlockSizeInitial c) (m_maxBlockSizeGrowthSpeedNumerator c)
    (m_maxBlockSizeGrowthSpeedDenominator c) (m_lockedTxAllowedDeltaSeconds c)
    (m_lockedTxAllowedDeltaBlocks c) (m_mempoolTxLiveTime c) (m_mempoolTxFromAltBlockLiveTime c)
    (m_numberOfPeriodsToForgetTxDeletedFromPool c) (m_fusionTxMaxSize c) (m_fusionTxMinInputCount c)
    (m_fusionTxMinInOutCountRatio c) (m_upgradeHeightV2 c) (m_upgradeHeightV3 c) (m_upgradeHeightV4 c)
    (m_upgradeHeightV5 c) (m_upgradeVotingThreshold c) (m_upgradeVotingWindow c) (m_upgradeWindow c)
    (m_testnet c).

Lemma short_window_ok c : core_ok CurrencyBuilder c -> core_ok short_window c.
Proof.
  intros [F G Hv Hs St P]. split; try done. intros leaf Hl. destruct (G leaf Hl) as [H1 H2 H3 H4 H5].
  by split.
Qed.

Abbreviation sample_template := (getBlockTemplate (fun _ _ => Some tt) (fun _ _ _ => Some (replicate 32 4))
  (fun n => (replicate 32 (Z.of_nat n), tt)) short_window [] 1200 sample_core
  (mkAccountPublicAddress (replicate 32 5) (replicate 32 6)) [1; 2; 3]).

(** The block with a nonce and the checks of it against the chain of the template. *)
Definition sample_mined (b : BlockTemplate) : CachedBlock :=
  mkCachedBlock (with_nonce b 7) (replicate 32 9) (replicate 32 8).
Abbreviation sample_check := (check_block (fun _ => true) (fun _ x => x) (fun _ _ _ _ => true) digest no_work no_work
  no_work [] short_window [] ∅ 1300).

(** What the witness needs to know of the template. *)
Definition sample_facts (r : option (option (BlockTemplate * Z * Z) * Core)) :=
  match r with
  | Some (Some (b, _, n), c') =>
      Some (timestamp (header b), n, transactionHashes b,
            findSegmentContainingBlock (chainsStorage c') (chainsLeaves c') (previousBlockHash (header b)),
            getDifficultyForNextBlock short_window (path (chainsStorage c') 0%nat) 0,
            u64 (getObjectBinarySize (baseTransaction b) + 0) <=? maxBlockCumulativeSize short_window 1,
            check_work digest no_work no_work no_work [] ∅ (sample_mined b) 1)
  | _ => None
  end.

Lemma getBlockTemplate_correct_witness :
  exists b d c' id k, sample_template = Some (Some (b, d, 1), c') /\
    findSegmentContainingBlock (chainsStorage c') (chainsLeaves c') (previousBlockHash (header b)) = Some id /\
    sample_check (path (chainsStorage c') id) (sample_mined b) (mkRawBlock [] []) = inr k /\ ck_previousBlockIndex k = 0.
Proof.
  destruct sample_template as [[[[[b d] n]|] c']|] eqn:E; [|by vm_compute in E|by vm_compute in E].
  assert (sample_facts sample_template = Some (1200, 1, [], Some 0%nat, Some 1, true, None)) as H
    by (vm_compute; reflexivity).
  rewrite E in H. cbn [sample_facts] in H. injection H as Ets En Eh Efind Ed Esize Ework. rewrite En in E.
  assert (height (main_chain sample_core) = 1) as Hh by (vm_compute; reflexivity).
  pose proof (getBlockTemplate_correct (fun _ _ => Some tt) (fun _ _ _ => Some (replicate 32 4))
    (fun n => (replicate 32 (Z.of_nat n), tt)) (fun _ => true) (fun _ x => x) (fun _ _ _ _ => true) digest no_work no_work
    no_work [] ∅ short_window [] 1200 1300 sample_core (mkAccountPublicAddress (replicate 32 5) (replicate 32 6)) [1; 2; 3] b d 1 c'
    (short_window_ok _ sample_core_ok)) as H.
  cbv zeta in H. rewrite Hh in H. change (1 - 1) with 0 in H. change (0 + 1) with 1 in H.
  destruct H as (_ & id & chosen & reward & e & Hf & Hm & _ & Hn).
  - reflexivity.
  - vm_compute. congruence.
  - intros d' no spend key [= <-]. split; [reflexivity|]. apply (bool_decide_unpack _). vm_compute. exact I.
  - vm_compute. reflexivity.
  - vm_compute. split; congruence.
  - vm_compute. split; [congruence|reflexivity].
  - vm_compute. split; [congruence|reflexivity].
  - vm_compute. congruence.
  - apply (bool_decide_unpack _). vm_compute. exact I.
  - constructor.
  - exact E.
  - rewrite Ets. vm_compute. congruence.
  - rewrite Efind in Hf. injection Hf as <-. rewrite Eh in Hm. injection Hm as <-.
    destruct (Hn 7) as [_ Hcheck]. specialize (Hcheck (sample_mined b) [] 1 0 ∅ eq_refl).
    rewrite Ework in Hcheck. eexists b, d, c', 0%nat, _. split; [by rewrite En|]. split; [exact Efind|]. split.
    + apply Hcheck; [|exact Ed|discriminate|reflexivity].
      apply Z.leb_le. exact Esize.
    + reflexivity.
Defined.
