(* ===== verification/Utilities.v ===== *)
(** * Helpers of the wallets

    src/src/utilities/utilities.cpp and the overflow tests of utilities.h, for
    the unsigned 64-bit type.  The clock is the argument [now]. *)

From S2P Require Import Prelude Config.
Import parameters.

(** ** Sums *)

Definition getTransactionSum (destinations : list (list Z * Z)) : Z :=
  fold_left (fun amountSum d => u64 (amountSum + d.2)) destinations 0.

(** For an unsigned type neither number is negative. *)
Definition additionWillOverflow (a b : Z) : bool :=
  let result := u64 (a + b) in
  let larger := Z.max a b in
  result <? larger.

Fixpoint sum_overflow_loop (sum : Z) (amounts : list Z) : bool :=
  match amounts with
  | [] => false
  | item :: rest => if additionWillOverflow item sum then true else sum_overflow_loop (u64 (sum + item)) rest
  end.

Definition sumWillOverflow (amounts : list Z) : bool := sum_overflow_loop 0 amounts.

(** ** Rounding *)

Definition getLowerBound (val nearestMultiple : Z) : Z :=
  let remainder := val mod nearestMultiple in
  u64 (val - remainder).

Definition getUpperBound (val nearestMultiple : Z) : Z :=
  u64 (getLowerBound val nearestMultiple + nearestMultiple).

(** ** Sizes *)

Definition getMaxTxSize (currentHeight : Z) : Z :=
  let numerator := u64 (currentHeight * MAX_BLOCK_SIZE_GROWTH_SPEED_NUMERATOR) in
  let denominator := MAX_BLOCK_SIZE_GROWTH_SPEED_DENOMINATOR in
  let growth := numerator / denominator in
  let x := u64 (MAX_BLOCK_SIZE_INITIAL + growth) in
  let y := 125000 in
  u64 (Z.min x y - CRYPTONOTE_COINBASE_BLOB_RESERVED_SIZE).

(** ** Time *)

Definition isInputUnlocked (now unlockTime currentHeight : Z) : bool :=
  if unlockTime =? 0 then true
  else if CRYPTONOTE_MAX_BLOCK_NUMBER <=? unlockTime
  then
    let currentTimeAdjusted := u64 (now + CRYPTONOTE_LOCKED_TX_ALLOWED_DELTA_SECONDS) in
    unlockTime <=? currentTimeAdjusted
  else
    let currentHeightAdjusted := u64 (currentHeight + CRYPTONOTE_LOCKED_TX_ALLOWED_DELTA_BLOCKS) in
    unlockTime <=? currentHeightAdjusted.

Definition getCurrentTimestampAdjusted (now : Z) : Z :=
  let adjust := Z.max (Z.max CRYPTONOTE_BLOCK_FUTURE_TIME_LIMIT CRYPTONOTE_BLOCK_FUTURE_TIME_LIMIT_V3)
                  CRYPTONOTE_BLOCK_FUTURE_TIME_LIMIT_V4 in
  u64 (now - adjust).

Definition scanHeightToTimestamp (now scanHeight : Z) : Z :=
  if scanHeight =? 0 then 0
  else
    let secondsSinceLaunch := u64 (scanHeight * DIFFICULTY_TARGET) in
    let timestamp := u64 (GENESIS_BLOCK_TIMESTAMP + secondsSinceLaunch) in
    if getCurrentTimestampAdjusted now <=? timestamp then getCurrentTimestampAdjusted now else timestamp.

Definition timestampToScanHeight (timestamp : Z) : Z :=
  if timestamp =? 0 then 0
  else if timestamp <=? GENESIS_BLOCK_TIMESTAMP then 0
  else
    let launchTimestampDelta := u64 (timestamp - GENESIS_BLOCK_TIMESTAMP) in
    launchTimestampDelta / DIFFICULTY_TARGET.

(** ** Lemmas *)

Lemma getTransactionSum_wrap destinations : getTransactionSum destinations = u64 (sumZ (snd <$> destinations)).
Proof.
  unfold getTransactionSum. rewrite <- sum_u64_wrap. unfold sum_u64. generalize 0.
  induction destinations as [|d l IH]; intros acc; [done|]. cbn. apply IH.
Qed.

Lemma additionWillOverflow_spec a b : fits 64 a -> fits 64 b -> additionWillOverflow a b = (2 ^ 64 <=? a + b).
Proof.
  intros Ha Hb. unfold additionWillOverflow. destruct (Z.leb_spec (2 ^ 64) (a + b)).
  - apply Z.ltb_lt. words. zlia.
  - apply Z.ltb_ge. words. zlia.
Qed.

Lemma sum_overflow_loop_spec amounts sum :
  Forall (fits 64) amounts -> fits 64 sum ->
  sum_overflow_loop sum amounts = (2 ^ 64 <=? sum + sumZ amounts).
Proof.
  intros Hl. revert sum. induction Hl as [|x l Hx Hl IH]; intros sum Hs; cbn [sum_overflow_loop sumZ fold_right].
  { symmetry. apply Z.leb_gt. words. lia. }
  change (fold_right Z.add 0 l) with (sumZ l).
  assert (0 <= sumZ l) by (apply sumZ_nonneg; eapply Forall_impl; [exact Hl|by intros ? []]).
  rewrite additionWillOverflow_spec by done. destruct (Z.leb_spec (2 ^ 64) (x + sum)).
  - symmetry. apply Z.leb_le. lia.
  - rewrite wrap_small by (words; lia). rewrite IH by (words; lia). f_equal. lia.
Qed.

Lemma sumWillOverflow_spec amounts : Forall (fits 64) amounts -> sumWillOverflow amounts = (2 ^ 64 <=? sumZ amounts).
Proof. intros Hl. unfold sumWillOverflow. by rewrite sum_overflow_loop_spec by (done || by split). Qed.
