(* ===== verification/WalletTypes.v ===== *)
(** * Data of the wallets

    The structures of src/include/wallet_types.h and the members of the class
    [SubWallet] (src/src/sub_wallets/sub_wallet.h) and [SubWallets]
    (sub_wallets.h).  An [std::unordered_map] is a finite map; where the code goes
    over one, the order is that of [map_to_list], and no theorem depends on
    it. *)

From stdpp Require Import gmap.
From S2P Require Import Prelude Bytes Types.
#[local] Open Scope Z_scope.

(** An output of ours, as an input of the transactions we may make. *)
Record TransactionInput := mkTransactionInput {
  keyImage : list Z;
  amount : Z;
  blockHeight : Z;
  transactionPublicKey : PublicKey;
  transactionIndex : Z;
  globalOutputIndex : option Z;
  key : PublicKey;
  spendHeight : Z;
  unlockTime : Z;
  parentTransactionHash : Hash }.

Record TxInputAndOwner := mkTxInputAndOwner {
  input : TransactionInput;
  publicSpendKey : PublicKey;
  privateSpendKey : SecretKey }.

Record UnconfirmedInput := mkUnconfirmedInput {
  ui_amount : Z;
  ui_key : PublicKey;
  ui_parentTransactionHash : Hash }.

(** [class Transaction]; the amounts of [transfers] are 64-bit with sign. *)
Record WalletTransaction := mkWalletTransaction {
  transfers : gmap PublicKey Z;
  tx_hash : Hash;
  tx_fee : Z;
  tx_timestamp : Z;
  tx_blockHeight : Z;
  tx_paymentID : list Z;
  tx_unlockTime : Z;
  isCoinbaseTransaction : bool }.

#[global] Instance TransactionInput_eq_dec : EqDecision TransactionInput.
Proof. solve_decision. Defined.
#[global] Instance TxInputAndOwner_eq_dec : EqDecision TxInputAndOwner.
Proof. solve_decision. Defined.
#[global] Instance UnconfirmedInput_eq_dec : EqDecision UnconfirmedInput.
Proof. solve_decision. Defined.
#[global] Instance WalletTransaction_eq_dec : EqDecision WalletTransaction.
Proof. solve_decision. Defined.

Definition totalAmount (tx : WalletTransaction) : Z :=
  fold_left (fun sum p => s64 (sum + p.2)) (map_to_list (transfers tx)) 0.

Definition isFusionTransaction (tx : WalletTransaction) : bool :=
  (tx_fee tx =? 0) && negb (isCoinbaseTransaction tx).

(** ** Wallets *)

Record SubWallet := mkSubWallet {
  m_unspentInputs : list TransactionInput;
  m_lockedInputs : list TransactionInput;
  m_spentInputs : list TransactionInput;
  m_unconfirmedIncomingAmounts : list UnconfirmedInput;
  m_publicSpendKey : PublicKey;
  m_privateSpendKey : SecretKey;
  m_syncStartTimestamp : Z;
  m_syncStartHeight : Z;
  m_address : list Z;
  m_isPrimaryAddress : bool }.

Record SubWallets := mkSubWallets {
  m_publicSpendKeys : list PublicKey;
  m_subWallets : gmap PublicKey SubWallet;
  m_transactions : list WalletTransaction;
  m_lockedTransactions : list WalletTransaction;
  m_privateViewKey : SecretKey;
  m_isViewWallet : bool;
  m_transactionPrivateKeys : gmap Hash SecretKey }.
