(* ===== verification/SubWallet.v ===== *)
(** * One address of a wallet

    src/src/sub_wallets/sub_wallet.cpp: the outputs that belong to one spend
    key.  An input is unspent, locked by a transaction that has been sent, or spent.
    The clock is the argument [now]; the functions on the curve are arguments. *)

From stdpp Require Import gmap.
From S2P Require Import Prelude Bytes Types Utilities WalletTypes.
#[local] Open Scope Z_scope.

(** The wallet with other lists. *)
Definition with_inputs (w : SubWallet) unspent locked spent unconfirmed : SubWallet :=
  mkSubWallet unspent locked spent unconfirmed (m_publicSpendKey w) (m_privateSpendKey w)
    (m_syncStartTimestamp w) (m_syncStartHeight w) (m_address w) (m_isPrimaryAddress w).

Definition with_spendHeight (i : TransactionInput) (height : Z) : TransactionInput :=
  mkTransactionInput (keyImage i) (amount i) (blockHeight i) (transactionPublicKey i) (transactionIndex i)
    (globalOutputIndex i) (key i) height (unlockTime i) (parentTransactionHash i).

(** [Constants::BLANK_SECRET_KEY] *)
Definition BLANK_SECRET_KEY : SecretKey := replicate 32 0.

(** ** Constructors *)

Definition SubWallet_view (publicSpendKey : PublicKey) (address : list Z) (scanHeight scanTimestamp : Z)
    (isPrimaryAddress : bool) : SubWallet :=
  mkSubWallet [] [] [] [] publicSpendKey BLANK_SECRET_KEY scanTimestamp scanHeight address isPrimaryAddress.

Definition SubWallet_new (publicSpendKey : PublicKey) (privateSpendKey : SecretKey) (address : list Z)
    (scanHeight scanTimestamp : Z) (isPrimaryAddress : bool) : SubWallet :=
  mkSubWallet [] [] [] [] publicSpendKey privateSpendKey scanTimestamp scanHeight address isPrimaryAddress.

(** ** Inputs *)

Section Curve.
Context (derive_public_key : list Z -> Z -> PublicKey -> PublicKey)
  (derive_secret_key : list Z -> Z -> SecretKey -> SecretKey)
  (generate_key_image : PublicKey -> SecretKey -> list Z) (uninit : list Z).

(** The key image of a view wallet has no value: [uninit]. *)
Definition getTxInputKeyImage (w : SubWallet) (derivation : list Z) (outputIndex : Z) (isViewWallet : bool) : list Z :=
  if negb isViewWallet
  then
    generate_key_image (derive_public_key derivation outputIndex (m_publicSpendKey w))
      (derive_secret_key derivation outputIndex (m_privateSpendKey w))
  else uninit.

End Curve.

Definition storeTransactionInput (w : SubWallet) (i : TransactionInput) (isViewWallet : bool) : SubWallet :=
  let unconfirmed :=
    if negb isViewWallet
    then filter (fun storedInput => ui_key storedInput <> key i) (m_unconfirmedIncomingAmounts w)
    else m_unconfirmedIncomingAmounts w in
  with_inputs w (m_unspentInputs w ++ [i]) (m_lockedInputs w) (m_spentInputs w) unconfirmed.

Definition storeUnconfirmedIncomingInput (w : SubWallet) (i : UnconfirmedInput) : SubWallet :=
  with_inputs w (m_unspentInputs w) (m_lockedInputs w) (m_spentInputs w) (m_unconfirmedIncomingAmounts w ++ [i]).

(** The loops over the unspent inputs and over the unconfirmed amounts. *)
Definition balance_step (now currentHeight : Z) (b : Z * Z) (i : TransactionInput) : Z * Z :=
  let '(unlockedBalance, lockedBalance) := b in
  if isInputUnlocked now (unlockTime i) currentHeight
  then (u64 (unlockedBalance + amount i), lockedBalance)
  else (unlockedBalance, u64 (lockedBalance + amount i)).

Definition getBalance (now : Z) (w : SubWallet) (currentHeight : Z) : Z * Z :=
  let '(unlockedBalance, lockedBalance) := fold_left (balance_step now currentHeight) (m_unspentInputs w) (0, 0) in
  let lockedBalance := fold_left (fun b i => u64 (b + ui_amount i)) (m_unconfirmedIncomingAmounts w) lockedBalance in
  (unlockedBalance, lockedBalance).

Definition reset (w : SubWallet) (scanHeight : Z) : SubWallet :=
  mkSubWallet [] [] [] [] (m_publicSpendKey w) (m_privateSpendKey w) 0 scanHeight (m_address w) (m_isPrimaryAddress w).

Definition has_key_image (ki : list Z) (l : list TransactionInput) : bool :=
  existsb (fun i => bool_decide (keyImage i = ki)) l.

Definition hasKeyImage (w : SubWallet) (ki : list Z) : bool :=
  has_key_image ki (m_unspentInputs w) || has_key_image ki (m_lockedInputs w).

(** [std::find_if] with [erase]: the first input with the key image, and the
    others. *)
Fixpoint take_key_image (ki : list Z) (l : list TransactionInput) : option (TransactionInput * list TransactionInput) :=
  match l with
  | [] => None
  | i :: l =>
      if bool_decide (keyImage i = ki) then Some (i, l)
      else '(found, rest) ← take_key_image ki l; Some (found, i :: rest)
  end.

Definition markInputAsSpent (w : SubWallet) (ki : list Z) (height : Z) : option SubWallet :=
  match take_key_image ki (m_unspentInputs w) with
  | Some (i, rest) =>
      Some (with_inputs w rest (m_lockedInputs w) (m_spentInputs w ++ [with_spendHeight i height]) (m_unconfirmedIncomingAmounts w))
  | None =>
      match take_key_image ki (m_lockedInputs w) with
      | Some (i, rest) =>
          Some (with_inputs w (m_unspentInputs w) rest (m_spentInputs w ++ [with_spendHeight i height]) (m_unconfirmedIncomingAmounts w))
      | None => None
      end
  end.

Definition markInputAsLocked (w : SubWallet) (ki : list Z) : option SubWallet :=
  '(i, rest) ← take_key_image ki (m_unspentInputs w);
  Some (with_inputs w rest (m_lockedInputs w ++ [i]) (m_spentInputs w) (m_unconfirmedIncomingAmounts w)).

(** [std::remove_if] asks for each input once, in order; the second call
    appends to the unspent inputs. *)
Definition removeForkedInputs (w : SubWallet) (forkHeight : Z) : SubWallet :=
  let unspent := filter (fun i => blockHeight i < forkHeight) (m_unspentInputs w) in
  let returned := filter (fun i => forkHeight <= spendHeight i) (m_spentInputs w) in
  let spent := filter (fun i => spendHeight i < forkHeight) (m_spentInputs w) in
  with_inputs w (unspent ++ ((fun i => with_spendHeight i 0) <$> returned)) [] spent [].

Definition removeCancelledTransactions (w : SubWallet) (cancelledTransactions : gset Hash) : SubWallet :=
  let returned := filter (fun i => parentTransactionHash i ∈ cancelledTransactions) (m_lockedInputs w) in
  let locked := filter (fun i => parentTransactionHash i ∉ cancelledTransactions) (m_lockedInputs w) in
  let unconfirmed :=
    filter (fun i => ui_parentTransactionHash i ∉ cancelledTransactions) (m_unconfirmedIncomingAmounts w) in
  with_inputs w (m_unspentInputs w ++ ((fun i => with_spendHeight i 0) <$> returned)) locked (m_spentInputs w) unconfirmed.

Definition getSpendableInputs (now : Z) (w : SubWallet) (height : Z) : list TxInputAndOwner :=
  (fun i => mkTxInputAndOwner i (m_publicSpendKey w) (m_privateSpendKey w)) <$>
    filter (fun i => isInputUnlocked now (unlockTime i) height = true) (m_unspentInputs w).

Definition convertSyncTimestampToHeight (w : SubWallet) (timestamp height : Z) : SubWallet :=
  if negb (m_syncStartTimestamp w =? 0)
  then mkSubWallet (m_unspentInputs w) (m_lockedInputs w) (m_spentInputs w) (m_unconfirmedIncomingAmounts w)
         (m_publicSpendKey w) (m_privateSpendKey w) timestamp height (m_address w) (m_isPrimaryAddress w)
  else w.
