(* ===== verification/SubWallets.v ===== *)
(** * The addresses of a wallet

    src/src/sub_wallets/sub_wallets.cpp: the container of the sub wallets, with
    the transactions that have been seen and those that have been sent.  An
    exception is [None].  Random choices ([std::shuffle], the generated
    keys), the clock, the logarithm of the buckets and the functions on the curve are
    arguments. *)

From stdpp Require Import gmap.
From S2P Require Import Prelude Config Bytes Errors Types Addresses Currency Utilities WalletTypes SubWallet.
Import parameters.
#[local] Open Scope Z_scope.

(** The container with other sub wallets, or with other transactions. *)
Definition with_wallets (s : SubWallets) (wallets : gmap PublicKey SubWallet) : SubWallets :=
  mkSubWallets (m_publicSpendKeys s) wallets (m_transactions s) (m_lockedTransactions s) (m_privateViewKey s)
    (m_isViewWallet s) (m_transactionPrivateKeys s).

Definition with_transactions (s : SubWallets) (transactions locked : list WalletTransaction) : SubWallets :=
  mkSubWallets (m_publicSpendKeys s) (m_subWallets s) transactions locked (m_privateViewKey s)
    (m_isViewWallet s) (m_transactionPrivateKeys s).

(** A new sub wallet under its spend key. *)
Definition add_wallet (s : SubWallets) (spendKey : PublicKey) (w : SubWallet) : SubWallets :=
  mkSubWallets (m_publicSpendKeys s ++ [spendKey]) (<[spendKey := w]> (m_subWallets s)) (m_transactions s)
    (m_lockedTransactions s) (m_privateViewKey s) (m_isViewWallet s) (m_transactionPrivateKeys s).

(** [throwIfViewWallet] *)
Definition throwIfViewWallet (s : SubWallets) : option unit :=
  if m_isViewWallet s then None else Some ().

(** ** Sub wallets *)

Section Keys.
Context (cn_fast_hash : list Z -> list Z) (check_key : PublicKey -> bool)
  (secret_key_to_public_key : SecretKey -> option PublicKey) (now : Z).

Definition SubWallets_new (privateSpendKey privateViewKey : SecretKey) (address : list Z) (scanHeight : Z)
    (newWallet : bool) : option SubWallets :=
  publicSpendKey ← secret_key_to_public_key privateSpendKey;
  let timestamp := if newWallet then getCurrentTimestampAdjusted now else 0 in
  Some (add_wallet (mkSubWallets [] ∅ [] [] privateViewKey false ∅) publicSpendKey
          (SubWallet_new publicSpendKey privateSpendKey address scanHeight timestamp true)).

Definition SubWallets_view (privateViewKey : SecretKey) (address : list Z) (scanHeight : Z) (newWallet : bool)
    : option SubWallets :=
  '(publicSpendKey, _) ← addressToKeys cn_fast_hash check_key address;
  let timestamp := if newWallet then getCurrentTimestampAdjusted now else 0 in
  Some (add_wallet (mkSubWallets [] ∅ [] [] privateViewKey true ∅) publicSpendKey
          (SubWallet_view publicSpendKey address scanHeight timestamp true)).

(** The keys that [generate_keys] draws are arguments. *)
Definition addSubWallet (s : SubWallets) (publicKey : PublicKey) (secretKey : SecretKey)
    : option (ErrorCode * list Z * SubWallets) :=
  if m_isViewWallet s then Some (ILLEGAL_VIEW_WALLET_OPERATION, [], s)
  else
    address ← privateKeysToAddress cn_fast_hash secret_key_to_public_key secretKey (m_privateViewKey s);
    Some (SUCCESS, address,
      add_wallet s publicKey (SubWallet_new publicKey secretKey address 0 (getCurrentTimestampAdjusted now) false)).

Definition importSubWallet (s : SubWallets) (privateSpendKey : SecretKey) (scanHeight : Z)
    : option (ErrorCode * list Z * SubWallets) :=
  if m_isViewWallet s then Some (ILLEGAL_VIEW_WALLET_OPERATION, [], s)
  else
    publicSpendKey ← secret_key_to_public_key privateSpendKey;
    address ← privateKeysToAddress cn_fast_hash secret_key_to_public_key privateSpendKey (m_privateViewKey s);
    match m_subWallets s !! publicSpendKey with
    | Some _ => Some (SUBWALLET_ALREADY_EXISTS, [], s)
    | None =>
        Some (SUCCESS, address,
          add_wallet s publicSpendKey (SubWallet_new publicSpendKey privateSpendKey address scanHeight 0 false))
    end.

Definition importViewSubWallet (s : SubWallets) (publicSpendKey : PublicKey) (scanHeight : Z)
    : option (ErrorCode * list Z * SubWallets) :=
  if negb (m_isViewWallet s) then Some (ILLEGAL_NON_VIEW_WALLET_OPERATION, [], s)
  else
    match m_subWallets s !! publicSpendKey with
    | Some _ => Some (SUBWALLET_ALREADY_EXISTS, [], s)
    | None =>
        publicViewKey ← secret_key_to_public_key (m_privateViewKey s);
        address ← publicKeysToAddress cn_fast_hash publicSpendKey publicViewKey;
        Some (SUCCESS, address,
          add_wallet s publicSpendKey (SubWallet_view publicSpendKey address scanHeight 0 false))
    end.

(** The transfers of a deleted address; a transaction without others goes. *)
Definition delete_transfer (spendKey : PublicKey) (tx : WalletTransaction) : option WalletTransaction :=
  match transfers tx !! spendKey with
  | None => Some tx
  | Some _ =>
      if (size (transfers tx) =? 1)%nat then None
      else Some (mkWalletTransaction (delete spendKey (transfers tx)) (tx_hash tx) (tx_fee tx) (tx_timestamp tx)
                   (tx_blockHeight tx) (tx_paymentID tx) (tx_unlockTime tx) (isCoinbaseTransaction tx))
  end.

Definition deleteAddressTransactions (txs : list WalletTransaction) (spendKey : PublicKey) : list WalletTransaction :=
  omap (delete_transfer spendKey) txs.

Definition deleteSubWallet (s : SubWallets) (address : list Z) : option (ErrorCode * SubWallets) :=
  '(spendKey, _) ← addressToKeys cn_fast_hash check_key address;
  match m_subWallets s !! spendKey with
  | None => Some (ADDRESS_NOT_IN_WALLET, s)
  | Some w =>
      if m_isPrimaryAddress w then Some (CANNOT_DELETE_PRIMARY_ADDRESS, s)
      else
        Some (SUCCESS,
          mkSubWallets (filter (fun k => k <> spendKey) (m_publicSpendKeys s)) (delete spendKey (m_subWallets s))
            (deleteAddressTransactions (m_transactions s) spendKey)
            (deleteAddressTransactions (m_lockedTransactions s) spendKey)
            (m_privateViewKey s) (m_isViewWallet s) (m_transactionPrivateKeys s))
  end.

End Keys.

(** [std::min_element] over the values of the map, which is not empty. *)
Definition min_over (f : SubWallet -> Z) (s : SubWallets) : option Z :=
  match map_to_list (m_subWallets s) with
  | [] => None
  | (_, w) :: rest => Some (fold_left (fun least p => if f p.2 <? least then f p.2 else least) rest (f w))
  end.

Definition getMinInitialSyncStart (now : Z) (s : SubWallets) : option (Z * Z) :=
  minTimestamp ← min_over m_syncStartTimestamp s;
  minHeight ← min_over m_syncStartHeight s;
  if (minHeight =? 0) || (minTimestamp =? 0) then Some (minHeight, minTimestamp)
  else
    let timestampFromHeight := scanHeightToTimestamp now minHeight in
    if timestampFromHeight <? minTimestamp then Some (minHeight, 0) else Some (0, minTimestamp).

(** ** Transactions *)

Definition has_hash (hash : Hash) (txs : list WalletTransaction) : bool :=
  existsb (fun tx => bool_decide (tx_hash tx = hash)) txs.

Definition addUnconfirmedTransaction (s : SubWallets) (tx : WalletTransaction) : option SubWallets :=
  if has_hash (tx_hash tx) (m_lockedTransactions s) then None
  else Some (with_transactions s (m_transactions s) (m_lockedTransactions s ++ [tx])).

Definition addTransaction (s : SubWallets) (tx : WalletTransaction) : option SubWallets :=
  let locked := filter (fun t => tx_hash t <> tx_hash tx) (m_lockedTransactions s) in
  if has_hash (tx_hash tx) (m_transactions s) then None
  else Some (with_transactions s (m_transactions s ++ [tx]) locked).

(** ** Inputs *)

(** A change of one sub wallet, which must exist. *)
Definition at_wallet (s : SubWallets) (publicKey : PublicKey) (f : SubWallet -> option SubWallet) : option SubWallets :=
  w ← m_subWallets s !! publicKey;
  w' ← f w;
  Some (with_wallets s (<[publicKey := w']> (m_subWallets s))).

Section Curve.
Context (derive_public_key : list Z -> Z -> PublicKey -> PublicKey)
  (derive_secret_key : list Z -> Z -> SecretKey -> SecretKey)
  (generate_key_image : PublicKey -> SecretKey -> list Z) (uninit : list Z).

Definition SubWallets_getTxInputKeyImage (s : SubWallets) (publicSpendKey : PublicKey) (derivation : list Z) (outputIndex : Z)
    : option (list Z) :=
  w ← m_subWallets s !! publicSpendKey;
  Some (getTxInputKeyImage derive_public_key derive_secret_key generate_key_image uninit w derivation outputIndex
          (m_isViewWallet s)).

End Curve.

Definition SubWallets_storeTransactionInput (s : SubWallets) (publicSpendKey : PublicKey) (i : TransactionInput)
    : option SubWallets :=
  at_wallet s publicSpendKey (fun w => Some (storeTransactionInput w i (m_isViewWallet s))).

(** The sub wallet that has the key image, if there is one. *)
Definition getKeyImageOwner (s : SubWallets) (ki : list Z) : option PublicKey :=
  if m_isViewWallet s then None
  else
    match list_find (fun p => hasKeyImage p.2 ki = true) (map_to_list (m_subWallets s)) with
    | Some (_, (_, subWallet)) => Some (m_publicSpendKey subWallet)
    | None => None
    end.

(** The sub wallets to take from; [at] throws on a key that is not there. *)
Definition wallets_to_take (s : SubWallets) (takeFromAll : bool) (subWalletsToTakeFrom : list PublicKey)
    : option (list SubWallet) :=
  mapM (fun k => m_subWallets s !! k) (if takeFromAll then m_publicSpendKeys s else subWalletsToTakeFrom).

Definition SubWallets_getBalance (now : Z) (s : SubWallets) (subWalletsToTakeFrom : list PublicKey) (takeFromAll : bool)
    (currentHeight : Z) : option (Z * Z) :=
  wallets ← wallets_to_take s takeFromAll subWalletsToTakeFrom;
  Some (fold_left (fun b w => let '(unlocked, locked) := getBalance now w currentHeight in
                              (u64 (b.1 + unlocked), u64 (b.2 + locked))) wallets (0, 0)).

Definition getBalances (now : Z) (s : SubWallets) (currentHeight : Z) : list (list Z * Z * Z) :=
  (fun p => let '(unlocked, locked) := getBalance now p.2 currentHeight in (m_address p.2, unlocked, locked)) <$>
    map_to_list (m_subWallets s).

(** ** The choice of inputs *)

(** Inputs are added until there is enough money. *)
Fixpoint take_inputs (amount foundMoney : Z) (inputsToUse availableInputs : list TxInputAndOwner)
    : option (list TxInputAndOwner * Z) :=
  match availableInputs with
  | [] => None
  | walletAmount :: rest =>
      let inputsToUse := inputsToUse ++ [walletAmount] in
      let foundMoney := u64 (foundMoney + WalletTypes.amount (input walletAmount)) in
      if amount <=? foundMoney then Some (inputsToUse, foundMoney)
      else take_inputs amount foundMoney inputsToUse rest
  end.

(** The loops over the buckets, until there are enough inputs. *)
Fixpoint take_fusion (maxInputsToTake foundMoney : Z) (inputsToUse available : list TxInputAndOwner)
    : list TxInputAndOwner * Z :=
  match available with
  | [] => (inputsToUse, foundMoney)
  | walletAmount :: rest =>
      let inputsToUse := inputsToUse ++ [walletAmount] in
      let foundMoney := u64 (foundMoney + WalletTypes.amount (input walletAmount)) in
      if maxInputsToTake <=? Z.of_nat (length inputsToUse) then (inputsToUse, foundMoney)
      else take_fusion maxInputsToTake foundMoney inputsToUse rest
  end.

Section Choice.
Context (shuffle : list TxInputAndOwner -> list TxInputAndOwner)
  (shuffle_buckets : list (list TxInputAndOwner) -> list (list TxInputAndOwner)) (log10 : Z -> Z) (now : Z).

Definition available_inputs (wallets : list SubWallet) (height : Z) : list TxInputAndOwner :=
  concat ((fun w => getSpendableInputs now w height) <$> wallets).

Definition getTransactionInputsForAmount (s : SubWallets) (amount : Z) (takeFromAll : bool)
    (subWalletsToTakeFrom : list PublicKey) (height : Z) : option (list TxInputAndOwner * Z) :=
  _ ← throwIfViewWallet s;
  wallets ← wallets_to_take s takeFromAll subWalletsToTakeFrom;
  let availableInputs := shuffle (available_inputs wallets height) in
  take_inputs amount 0 [] availableInputs.

(** [buckets[numberOfDigits].push_back(walletAmount)] *)
Definition push_bucket (buckets : gmap Z (list TxInputAndOwner)) (walletAmount : TxInputAndOwner)
    : gmap Z (list TxInputAndOwner) :=
  let numberOfDigits := log10 (WalletTypes.amount (input walletAmount)) in
  <[numberOfDigits := default [] (buckets !! numberOfDigits) ++ [walletAmount]]> buckets.

Definition getFusionTransactionInputs (s : SubWallets) (takeFromAll : bool) (subWalletsToTakeFrom : list PublicKey)
    (mixin height : Z) : option (list TxInputAndOwner * Z * Z) :=
  _ ← throwIfViewWallet s;
  wallets ← wallets_to_take s takeFromAll subWalletsToTakeFrom;
  let maxInputsToTake :=
    getApproximateMaximumInputCount FUSION_TX_MAX_SIZE FUSION_TX_MIN_IN_OUT_COUNT_RATIO mixin in
  let availableInputs := shuffle (available_inputs wallets height) in
  let buckets := snd <$> map_to_list (fold_left push_bucket availableInputs ∅) in
  let fullBuckets := shuffle_buckets (filter (fun b => FUSION_TX_MIN_INPUT_COUNT <= Z.of_nat (length b)) buckets) in
  let bucketsToTakeFrom := match fullBuckets with bucket :: _ => [bucket] | [] => buckets end in
  let '(inputsToUse, foundMoney) := take_fusion maxInputsToTake 0 [] (concat bucketsToTakeFrom) in
  Some (inputsToUse, maxInputsToTake, foundMoney).

End Choice.

(** ** Spending *)

Definition SubWallets_markInputAsSpent (s : SubWallets) (ki : list Z) (publicKey : PublicKey) (height : Z)
    : option SubWallets :=
  _ ← throwIfViewWallet s;
  at_wallet s publicKey (fun w => markInputAsSpent w ki height).

Definition SubWallets_markInputAsLocked (s : SubWallets) (ki : list Z) (publicKey : PublicKey) : option SubWallets :=
  _ ← throwIfViewWallet s;
  at_wallet s publicKey (fun w => markInputAsLocked w ki).

Definition removeForkedTransactions (s : SubWallets) (forkHeight : Z) : SubWallets :=
  with_wallets
    (with_transactions s (filter (fun tx => tx_blockHeight tx < forkHeight) (m_transactions s)) (m_lockedTransactions s))
    ((fun w => removeForkedInputs w forkHeight) <$> m_subWallets s).

Definition SubWallets_removeCancelledTransactions (s : SubWallets) (cancelledTransactions : gset Hash) : option SubWallets :=
  _ ← throwIfViewWallet s;
  Some (with_wallets
    (with_transactions s (m_transactions s)
       (filter (fun tx => tx_hash tx ∉ cancelledTransactions) (m_lockedTransactions s)))
    ((fun w => removeCancelledTransactions w cancelledTransactions) <$> m_subWallets s)).

Definition SubWallets_storeUnconfirmedIncomingInput (s : SubWallets) (i : UnconfirmedInput) (publicSpendKey : PublicKey)
    : SubWallets :=
  match m_subWallets s !! publicSpendKey with
  | Some w => with_wallets s (<[publicSpendKey := storeUnconfirmedIncomingInput w i]> (m_subWallets s))
  | None => s
  end.

(** ** The rest *)

Definition getPrimaryAddress (s : SubWallets) : option (list Z) :=
  '(_, (_, w)) ← list_find (fun p => m_isPrimaryAddress p.2 = true) (map_to_list (m_subWallets s));
  Some (m_address w).

Definition getPrimaryPrivateSpendKey (s : SubWallets) : option SecretKey :=
  '(_, (_, w)) ← list_find (fun p => m_isPrimaryAddress p.2 = true) (map_to_list (m_subWallets s));
  Some (m_privateSpendKey w).

Definition getAddresses (s : SubWallets) : list (list Z) := (fun p => m_address p.2) <$> map_to_list (m_subWallets s).

Definition getWalletCount (s : SubWallets) : Z := Z.of_nat (size (m_subWallets s)).

Definition getPrivateSpendKey (s : SubWallets) (publicSpendKey : PublicKey) : option (ErrorCode * SecretKey) :=
  _ ← throwIfViewWallet s;
  match m_subWallets s !! publicSpendKey with
  | None => Some (ADDRESS_NOT_IN_WALLET, [])
  | Some w => Some (SUCCESS, m_privateSpendKey w)
  end.

Definition getPrivateSpendKeys (s : SubWallets) : list SecretKey :=
  (fun p => m_privateSpendKey p.2) <$> map_to_list (m_subWallets s).

Definition getLockedTransactionsHashes (s : SubWallets) : option (gset Hash) :=
  _ ← throwIfViewWallet s;
  Some (list_to_set (tx_hash <$> m_lockedTransactions s)).

Definition getAddress (s : SubWallets) (spendKey : PublicKey) : ErrorCode * list Z :=
  match m_subWallets s !! spendKey with
  | Some w => (SUCCESS, m_address w)
  | None => (ADDRESS_NOT_IN_WALLET, [])
  end.

Definition storeTxPrivateKey (s : SubWallets) (txPrivateKey : SecretKey) (txHash : Hash) : SubWallets :=
  mkSubWallets (m_publicSpendKeys s) (m_subWallets s) (m_transactions s) (m_lockedTransactions s) (m_privateViewKey s)
    (m_isViewWallet s) (<[txHash := txPrivateKey]> (m_transactionPrivateKeys s)).

Definition getTxPrivateKey (s : SubWallets) (txHash : Hash) : option SecretKey := m_transactionPrivateKeys s !! txHash.

(** The loop [for (auto [pubKey, subWallet] : m_subWallets)] works on copies of the
    elements: [copies] is what it changes. *)
Definition SubWallets_reset (s : SubWallets) (scanHeight : Z) : SubWallets :=
  let copies := (fun p => reset p.2 scanHeight) <$> map_to_list (m_subWallets s) in
  mkSubWallets (m_publicSpendKeys s) (m_subWallets s) [] [] (m_privateViewKey s) (m_isViewWallet s) ∅.

Definition SubWallets_convertSyncTimestampToHeight (s : SubWallets) (timestamp height : Z) : SubWallets :=
  let copies := (fun p => convertSyncTimestampToHeight p.2 timestamp height) <$> map_to_list (m_subWallets s) in
  s.
