(* ===== verification/WalletFacts.v ===== *)
(** * Facts about the wallets

    The invariant [container_ok] of the sub wallets, the operations as steps
    ([wallet_step]), and the lemmas behind [WalletTheorems]. *)

From stdpp Require Import gmap.
From S2P Require Import Prelude Bytes Errors Types Addresses Utilities WalletTypes SubWallet SubWallets.
#[local] Open Scope Z_scope.

(** ** The inputs of a sub wallet *)

Definition wallet_inputs (w : SubWallet) : list TransactionInput :=
  m_unspentInputs w ++ m_lockedInputs w ++ m_spentInputs w.

Definition key_images (w : SubWallet) : list (list Z) := keyImage <$> wallet_inputs w.

Lemma take_key_image_Some ki l i rest :
  take_key_image ki l = Some (i, rest) -> keyImage i = ki /\ l ≡ₚ i :: rest.
Proof.
  revert rest. induction l as [|x l IH]; intros rest; cbn [take_key_image]; [done|].
  case_bool_decide as Hx; [intros [= -> ->]; done|].
  destruct (take_key_image ki l) as [[found rest']|]; [|done]. cbn [mbind option_bind]. intros [= -> <-].
  destruct (IH rest' eq_refl) as [Hi Hp]. split; [done|]. rewrite Hp. apply Permutation_swap.
Qed.

Lemma take_key_image_None ki l : take_key_image ki l = None <-> ki ∉ keyImage <$> l.
Proof.
  induction l as [|x l IH]; cbn [take_key_image fmap list_fmap]; [split; [intros _; apply not_elem_of_nil|done]|].
  rewrite not_elem_of_cons. case_bool_decide as Hx; [split; [done|by intros [? _]]|].
  destruct (take_key_image ki l) as [[found rest]|]; cbn [mbind option_bind].
  - split; [done|]. intros [_ Hn]. by apply IH in Hn.
  - split; [|done]. intros _. split; [congruence|by apply IH].
Qed.

Lemma has_key_image_spec ki l : has_key_image ki l = true <-> ki ∈ keyImage <$> l.
Proof.
  unfold has_key_image. rewrite existsb_exists, list_elem_of_fmap. split.
  - intros (i & Hi & Hk). apply bool_decide_eq_true in Hk. exists i. split; [done|by apply list_elem_of_In].
  - intros (i & -> & Hi). exists i. split; [by apply list_elem_of_In|]. by apply bool_decide_eq_true.
Qed.

Lemma map_with_spendHeight (l : list TransactionInput) h : keyImage <$> ((fun i => with_spendHeight i h) <$> l) = keyImage <$> l.
Proof. rewrite <- list_fmap_compose. done. Qed.

(** The operations of a sub wallet move inputs and keep their key images. *)
Lemma markInputAsSpent_images w ki h w' :
  markInputAsSpent w ki h = Some w' -> key_images w' ≡ₚ key_images w.
Proof.
  unfold markInputAsSpent, key_images, wallet_inputs.
  destruct (take_key_image ki (m_unspentInputs w)) as [[i rest]|] eqn:E1.
  - intros [= <-]. cbn. apply take_key_image_Some in E1 as [_ ->]. rewrite !fmap_app. cbn.
    rewrite !app_assoc. symmetry. apply Permutation_cons_append.
  - destruct (take_key_image ki (m_lockedInputs w)) as [[i rest]|] eqn:E2; [|done]. intros [= <-]. cbn.
    apply take_key_image_Some in E2 as [_ ->]. rewrite !fmap_app. cbn.
    apply Permutation_app_head. rewrite !app_assoc. symmetry. apply Permutation_cons_append.
Qed.

Lemma markInputAsLocked_images w ki w' : markInputAsLocked w ki = Some w' -> key_images w' ≡ₚ key_images w.
Proof.
  unfold markInputAsLocked, key_images, wallet_inputs.
  destruct (take_key_image ki (m_unspentInputs w)) as [[i rest]|] eqn:E1; [|done]. cbn [mbind option_bind].
  intros [= <-]. cbn. apply take_key_image_Some in E1 as [_ ->]. rewrite !fmap_app. cbn.
  rewrite <- !app_assoc. cbn. rewrite <- !Permutation_middle. done.
Qed.

Lemma filter_split_perm {A} (P : A -> Prop) `{forall x, Decision (P x)} (l : list A) :
  filter P l ++ filter (fun x => ~ P x) l ≡ₚ l.
Proof.
  induction l as [|x l IH]; [done|]. destruct (decide (P x)).
  - rewrite filter_cons_True, (filter_cons_False _ x) by tauto. cbn. by rewrite IH.
  - rewrite filter_cons_False, (filter_cons_True _ x) by tauto. rewrite <- Permutation_middle. by rewrite IH.
Qed.

Lemma removeCancelled_images w cancelled : key_images (removeCancelledTransactions w cancelled) ≡ₚ key_images w.
Proof.
  unfold key_images, wallet_inputs. cbn. rewrite !fmap_app, map_with_spendHeight, <- !app_assoc.
  apply Permutation_app_head. rewrite (app_assoc (keyImage <$> _)). apply Permutation_app_tail.
  rewrite <- fmap_app. by rewrite (filter_split_perm (fun i => parentTransactionHash i ∈ cancelled)).
Qed.

(** The inputs that were locked are gone. *)
Lemma removeForked_kept w h : key_images (removeForkedInputs w h) ⊆+ keyImage <$> (m_unspentInputs w ++ m_spentInputs w).
Proof.
  unfold key_images, wallet_inputs. cbn. rewrite !fmap_app, map_with_spendHeight, <- !app_assoc.
  apply submseteq_app; [apply fmap_submseteq, sublist_submseteq, sublist_filter|]. cbn.
  rewrite <- fmap_app. apply Permutation_submseteq, fmap_Permutation.
  rewrite <- (filter_split_perm (fun i => h <= spendHeight i) (m_spentInputs w)) at 3. apply Permutation_app_head.
  apply reflexive_eq, filter_ext_in. intros i _. lia.
Qed.

Lemma removeForked_images w h : key_images (removeForkedInputs w h) ⊆+ key_images w.
Proof.
  etrans; [apply removeForked_kept|]. unfold key_images, wallet_inputs. apply fmap_submseteq, submseteq_app; [done|].
  by apply submseteq_inserts_l.
Qed.

(** ** The container *)

(** The spend keys are the keys of the map, each sub wallet has its own, one
    is the primary address, transactions are stored once, and in a wallet that can
    spend no key image is stored twice. *)
Record container_ok (s : SubWallets) : Prop := {
  keys_nodup : NoDup (m_publicSpendKeys s);
  keys_stored k : k ∈ m_publicSpendKeys s <-> is_Some (m_subWallets s !! k);
  keys_own k w : m_subWallets s !! k = Some w -> m_publicSpendKey w = k;
  primary_stored : exists k w, m_subWallets s !! k = Some w /\ m_isPrimaryAddress w = true;
  transactions_nodup : NoDup (tx_hash <$> m_transactions s);
  locked_nodup : NoDup (tx_hash <$> m_lockedTransactions s);
  images_nodup k w : m_isViewWallet s = false -> m_subWallets s !! k = Some w -> NoDup (key_images w);
  images_apart k k' w w' ki : m_isViewWallet s = false ->
    m_subWallets s !! k = Some w -> m_subWallets s !! k' = Some w' ->
    ki ∈ key_images w -> ki ∈ key_images w' -> k = k' }.

(** The key image is in none of the sub wallets. *)
Definition fresh_image (s : SubWallets) (ki : list Z) : Prop :=
  forall k w, m_subWallets s !! k = Some w -> ki ∉ key_images w.

(** [w'] is [w] after an operation on its inputs that brings in no key image. *)
Definition wallet_kept (w w' : SubWallet) : Prop :=
  m_publicSpendKey w' = m_publicSpendKey w /\ m_isPrimaryAddress w' = m_isPrimaryAddress w /\
  key_images w' ⊆+ key_images w.

Lemma NoDup_of_submseteq {A} (l k : list A) : l ⊆+ k -> NoDup k -> NoDup l.
Proof. intros [k' ->]%submseteq_Permutation. by intros [? _]%NoDup_app. Qed.

(** The sub wallets of a container replaced one by one. *)
Lemma container_map s (f : SubWallet -> SubWallet) txs locked :
  container_ok s -> (forall w, wallet_kept w (f w)) ->
  NoDup (tx_hash <$> txs) -> NoDup (tx_hash <$> locked) ->
  container_ok (with_wallets (with_transactions s txs locked) (f <$> m_subWallets s)).
Proof.
  intros [Hk1 Hk2 Hk3 (kp & wp & Hp & Hprim) _ _ Hi Ha] Hf Ht Hl. split; cbn; try done.
  - intros k. rewrite Hk2, lookup_fmap. by rewrite fmap_is_Some.
  - intros k w. rewrite lookup_fmap. intros (w0 & Hw & ->)%fmap_Some. destruct (Hf w0) as [-> _]. by apply Hk3.
  - exists kp, (f wp). rewrite lookup_fmap, Hp. split; [done|]. destruct (Hf wp) as (_ & -> & _). done.
  - intros k w Hv. rewrite lookup_fmap. intros (w0 & Hw & ->)%fmap_Some. destruct (Hf w0) as (_ & _ & Hs).
    eapply NoDup_of_submseteq; [exact Hs|]. by eapply Hi.
  - intros k k' w w' ki Hv. rewrite !lookup_fmap.
    intros (w0 & Hw & ->)%fmap_Some (w0' & Hw' & ->)%fmap_Some Hin Hin'.
    destruct (Hf w0) as (_ & _ & Hs), (Hf w0') as (_ & _ & Hs').
    apply (Ha k k' w0 w0' ki Hv Hw Hw'); [exact (elem_of_submseteq _ _ _ Hin Hs)|exact (elem_of_submseteq _ _ _ Hin' Hs')].
Qed.

(** One sub wallet replaced; the new key images are the old ones and fresh ones. *)
Lemma container_insert s k w w' :
  container_ok s -> m_subWallets s !! k = Some w ->
  m_publicSpendKey w' = m_publicSpendKey w -> m_isPrimaryAddress w' = m_isPrimaryAddress w ->
  (m_isViewWallet s = false -> NoDup (key_images w') /\ forall ki, ki ∈ key_images w' -> ki ∈ key_images w \/ fresh_image s ki) ->
  container_ok (with_wallets s (<[k := w']> (m_subWallets s))).
Proof.
  intros [Hk1 Hk2 Hk3 (kp & wp & Hp & Hprim) Ht Hl Hi Ha] Hw Hpub Hpr Himg. split; cbn; try done.
  - intros k'. rewrite Hk2. destruct (decide (k = k')) as [<-|Hne].
    + rewrite lookup_insert_eq, Hw. done.
    + by rewrite lookup_insert_ne.
  - intros k' x. destruct (decide (k = k')) as [<-|Hne].
    + rewrite lookup_insert_eq. intros [= <-]. rewrite Hpub. by apply Hk3.
    + rewrite lookup_insert_ne by done. apply Hk3.
  - destruct (decide (k = kp)) as [<-|Hne].
    + exists k, w'. rewrite lookup_insert_eq. split; [done|]. simplify_eq. congruence.
    + exists kp, wp. by rewrite lookup_insert_ne.
  - intros k' x Hv. destruct (decide (k = k')) as [<-|Hne].
    + rewrite lookup_insert_eq. intros [= <-]. by apply Himg.
    + rewrite lookup_insert_ne by done. by apply Hi.
  - assert (forall k' x ki, m_isViewWallet s = false -> k <> k' -> m_subWallets s !! k' = Some x ->
      ki ∈ key_images w' -> ki ∈ key_images x -> False) as Hcross.
    { intros k' x ki Hv Hne Hx Hin Hin'. destruct (proj2 (Himg Hv) ki Hin) as [Hold|Hfresh]; [|by eapply Hfresh].
      apply Hne. by eapply (Ha k k' w x ki). }
    intros k1 k2 x1 x2 ki Hv H1 H2 Hin1 Hin2.
    destruct (decide (k = k1)) as [<-|Hne1], (decide (k = k2)) as [<-|Hne2]; [done| | |];
      rewrite ?lookup_insert_eq in H1; rewrite ?lookup_insert_eq in H2;
      rewrite ?lookup_insert_ne in H1 by done; rewrite ?lookup_insert_ne in H2 by done; simplify_eq.
    + by destruct (Hcross k2 x2 ki).
    + by destruct (Hcross k1 x1 ki).
    + by eapply (Ha k1 k2 x1 x2 ki).
Qed.

(** ** Operations *)

Lemma add_wallet_ok s k w :
  container_ok s -> m_subWallets s !! k = None -> m_publicSpendKey w = k -> wallet_inputs w = [] ->
  container_ok (add_wallet s k w).
Proof.
  intros [Hk1 Hk2 Hk3 (kp & wp & Hp & Hprim) Ht Hl Hi Ha] Hnone Hpub Hin.
  assert (k ∉ m_publicSpendKeys s) as Hnk by (rewrite Hk2, Hnone; by intros [? ?]).
  assert (key_images w = []) as Him by (unfold key_images; by rewrite Hin).
  split; cbn; try done.
  - apply NoDup_app. split; [done|]. split; [|apply NoDup_singleton]. intros x Hx ->%list_elem_of_singleton. done.
  - intros k'. rewrite elem_of_app, list_elem_of_singleton, Hk2. destruct (decide (k = k')) as [<-|Hne].
    + rewrite lookup_insert_eq. split; [by eexists|by right].
    + rewrite lookup_insert_ne by done. split; [intros [?|?]; congruence || done|by left].
  - intros k' x. destruct (decide (k = k')) as [<-|Hne]; [rewrite lookup_insert_eq; by intros [= <-]|].
    rewrite lookup_insert_ne by done. apply Hk3.
  - exists kp, wp. rewrite lookup_insert_ne by congruence. done.
  - intros k' x Hv. destruct (decide (k = k')) as [<-|Hne].
    + rewrite lookup_insert_eq. intros [= <-]. rewrite Him. constructor.
    + rewrite lookup_insert_ne by done. by apply Hi.
  - intros k1 k2 x1 x2 ki Hv H1 H2 Hin1 Hin2.
    destruct (decide (k = k1)) as [<-|Hne1].
    { rewrite lookup_insert_eq in H1. simplify_eq. rewrite Him in Hin1. by apply elem_of_nil in Hin1. }
    destruct (decide (k = k2)) as [<-|Hne2].
    { rewrite lookup_insert_eq in H2. simplify_eq. rewrite Him in Hin2. by apply elem_of_nil in Hin2. }
    rewrite lookup_insert_ne in H1, H2 by done. by eapply (Ha k1 k2 x1 x2 ki).
Qed.

Lemma new_container_ok k w view viewKey :
  m_publicSpendKey w = k -> wallet_inputs w = [] -> m_isPrimaryAddress w = true ->
  container_ok (add_wallet (mkSubWallets [] ∅ [] [] viewKey view ∅) k w).
Proof.
  intros Hk Hi Hp. assert (key_images w = []) as Him by (unfold key_images; by rewrite Hi).
  split; cbn.
  - apply NoDup_singleton.
  - intros k'. rewrite list_elem_of_singleton. destruct (decide (k = k')) as [<-|Hne].
    + rewrite lookup_insert_eq. by split.
    + rewrite lookup_insert_ne, lookup_empty by done. split; [congruence|by intros [? ?]].
  - intros k' x [[<- <-]|[_ Hx]]%lookup_insert_Some; [done|]. by rewrite lookup_empty in Hx.
  - exists k, w. by rewrite lookup_insert_eq.
  - constructor.
  - constructor.
  - intros k' x _ [[<- <-]|[_ Hx]]%lookup_insert_Some; [rewrite Him; constructor|]. by rewrite lookup_empty in Hx.
  - intros k1 k2 x1 x2 ki _ [[<- <-]|[_ Hx]]%lookup_insert_Some; [|by rewrite lookup_empty in Hx].
    rewrite Him. intros _ Hin. by apply elem_of_nil in Hin.
Qed.

(** Deleted transfers leave the hashes that they leave in order. *)
Lemma delete_transfers_nodup k txs :
  NoDup (tx_hash <$> txs) -> NoDup (tx_hash <$> deleteAddressTransactions txs k).
Proof.
  intros Hn. apply (sublist_NoDup _ (tx_hash <$> txs)); [done|]. clear Hn. unfold deleteAddressTransactions.
  induction txs as [|tx txs IH]; [constructor|]. cbn [omap list_omap]. destruct (delete_transfer k tx) as [tx'|] eqn:E.
  - assert (tx_hash tx' = tx_hash tx) as Eh.
    { unfold delete_transfer in E. destruct (transfers tx !! k); [|by injection E as ->].
      destruct (_ =? _)%nat; [done|]. by injection E as <-. }
    cbn. rewrite Eh. by constructor.
  - cbn. by constructor.
Qed.

Lemma delete_wallet_ok s k w :
  container_ok s -> m_subWallets s !! k = Some w -> m_isPrimaryAddress w = false ->
  container_ok (mkSubWallets (filter (fun k' => k' <> k) (m_publicSpendKeys s)) (delete k (m_subWallets s))
    (deleteAddressTransactions (m_transactions s) k) (deleteAddressTransactions (m_lockedTransactions s) k)
    (m_privateViewKey s) (m_isViewWallet s) (m_transactionPrivateKeys s)).
Proof.
  intros [Hk1 Hk2 Hk3 (kp & wp & Hp & Hprim) Ht Hl Hi Ha] Hw Hnp. split; cbn.
  - by apply NoDup_filter.
  - intros k'. rewrite list_elem_of_filter, Hk2. destruct (decide (k = k')) as [<-|Hne].
    + rewrite lookup_delete_eq. split; [by intros [? _]|by intros [? ?]].
    + rewrite lookup_delete_ne by done. split; [by intros [_ ?]|by split].
  - intros k' x [_ Hx]%lookup_delete_Some. by apply Hk3.
  - exists kp, wp. split; [|done]. apply lookup_delete_Some. split; [|done]. intros ->. congruence.
  - by apply delete_transfers_nodup.
  - by apply delete_transfers_nodup.
  - intros k' x Hv [_ Hx]%lookup_delete_Some. by eapply Hi.
  - intros k1 k2 x1 x2 ki Hv [_ H1]%lookup_delete_Some [_ H2]%lookup_delete_Some. by eapply Ha.
Qed.

Lemma has_hash_spec h txs : has_hash h txs = true <-> h ∈ tx_hash <$> txs.
Proof.
  unfold has_hash. rewrite existsb_exists, list_elem_of_fmap. split.
  - intros (t & Hi & Hk). apply bool_decide_eq_true in Hk. exists t. split; [done|by apply list_elem_of_In].
  - intros (t & -> & Hi). exists t. split; [by apply list_elem_of_In|]. by apply bool_decide_eq_true.
Qed.

Lemma has_hash_snoc tx txs :
  has_hash (tx_hash tx) txs = false -> NoDup (tx_hash <$> txs) -> NoDup (tx_hash <$> (txs ++ [tx])).
Proof.
  intros Hh Hn. rewrite fmap_app. apply NoDup_app. split; [done|]. split; [|apply NoDup_singleton].
  intros x Hx ->%list_elem_of_singleton. apply has_hash_spec in Hx. congruence.
Qed.

Lemma filter_hashes_nodup (P : WalletTransaction -> Prop) `{forall x, Decision (P x)} txs :
  NoDup (tx_hash <$> txs) -> NoDup (tx_hash <$> filter P txs).
Proof. apply NoDup_of_submseteq, fmap_submseteq, sublist_submseteq, sublist_filter. Qed.

Lemma with_transactions_ok s txs locked :
  container_ok s -> NoDup (tx_hash <$> txs) -> NoDup (tx_hash <$> locked) -> container_ok (with_transactions s txs locked).
Proof. intros [Hk1 Hk2 Hk3 Hp Ht Hl Hi Ha] Ht' Hl'. by split. Qed.

(** A step of one sub wallet that brings in no key image. *)
Lemma at_wallet_ok s k (f : SubWallet -> option SubWallet) s' :
  container_ok s -> (forall w w', f w = Some w' -> wallet_kept w w') -> at_wallet s k f = Some s' -> container_ok s'.
Proof.
  intros Hok Hf. unfold at_wallet. destruct (m_subWallets s !! k) as [w|] eqn:Hw; [|done]. cbn [mbind option_bind].
  destruct (f w) as [w'|] eqn:Hfw; [|done]. cbn [mbind option_bind]. intros [= <-].
  destruct (Hf _ _ Hfw) as (Hpub & Hpr & Hsub). apply (container_insert s k w w' Hok Hw Hpub Hpr). intros Hv. split.
  - eapply NoDup_of_submseteq; [exact Hsub|]. by eapply images_nodup.
  - intros ki Hki. left. by eapply elem_of_submseteq.
Qed.

Lemma kept_perm w w' :
  m_publicSpendKey w' = m_publicSpendKey w -> m_isPrimaryAddress w' = m_isPrimaryAddress w ->
  key_images w' ≡ₚ key_images w -> wallet_kept w w'.
Proof. intros H1 H2 H3. split_and!; [done..|]. by apply Permutation_submseteq. Qed.

Lemma markInputAsSpent_kept w ki h w' : markInputAsSpent w ki h = Some w' -> wallet_kept w w'.
Proof.
  intros E. pose proof (markInputAsSpent_images _ _ _ _ E) as Hp. unfold markInputAsSpent in E.
  destruct (take_key_image ki (m_unspentInputs w)) as [[i r]|]; [|destruct (take_key_image ki (m_lockedInputs w)) as [[i r]|]; [|done]];
    injection E as <-; by apply kept_perm.
Qed.

Lemma markInputAsLocked_kept w ki w' : markInputAsLocked w ki = Some w' -> wallet_kept w w'.
Proof.
  intros E. pose proof (markInputAsLocked_images _ _ _ E) as Hp. unfold markInputAsLocked in E.
  destruct (take_key_image ki (m_unspentInputs w)) as [[i r]|]; [|done]. injection E as <-. by apply kept_perm.
Qed.

Lemma store_input_ok s k i s' :
  container_ok s -> (m_isViewWallet s = false -> fresh_image s (keyImage i)) ->
  SubWallets_storeTransactionInput s k i = Some s' -> container_ok s'.
Proof.
  intros Hok Hfresh. unfold SubWallets_storeTransactionInput, at_wallet.
  destruct (m_subWallets s !! k) as [w|] eqn:Hw; [|done]. cbn [mbind option_bind]. intros [= <-].
  apply (container_insert s k w _ Hok Hw); [done..|]. intros Hv.
  assert (key_images (storeTransactionInput w i (m_isViewWallet s)) ≡ₚ keyImage i :: key_images w) as Hp.
  { unfold key_images, wallet_inputs. cbn. rewrite !fmap_app. cbn. rewrite <- app_assoc. cbn. by rewrite <- Permutation_middle. }
  split.
  - rewrite Hp. constructor; [by eapply Hfresh|by eapply images_nodup].
  - intros ki. rewrite Hp, elem_of_cons. intros [->|?]; [right; by apply Hfresh|by left].
Qed.

(** ** Runs *)

Section Steps.
Context (cn_fast_hash : list Z -> list Z) (check_key : PublicKey -> bool)
  (secret_key_to_public_key : SecretKey -> option PublicKey).

(** The operations that change a container.  A key that is drawn is new, and a
    wallet that knows its key images is given each output once. *)
Inductive wallet_step : SubWallets -> SubWallets -> Prop :=
  | step_addSubWallet s now publicKey secretKey error address s' :
      m_subWallets s !! publicKey = None ->
      addSubWallet cn_fast_hash secret_key_to_public_key now s publicKey secretKey = Some (error, address, s') ->
      wallet_step s s'
  | step_importSubWallet s privateSpendKey scanHeight error address s' :
      importSubWallet cn_fast_hash secret_key_to_public_key s privateSpendKey scanHeight = Some (error, address, s') ->
      wallet_step s s'
  | step_importViewSubWallet s publicSpendKey scanHeight error address s' :
      importViewSubWallet cn_fast_hash secret_key_to_public_key s publicSpendKey scanHeight = Some (error, address, s') ->
      wallet_step s s'
  | step_deleteSubWallet s address error s' :
      deleteSubWallet cn_fast_hash check_key s address = Some (error, s') -> wallet_step s s'
  | step_addTransaction s tx s' : addTransaction s tx = Some s' -> wallet_step s s'
  | step_addUnconfirmedTransaction s tx s' : addUnconfirmedTransaction s tx = Some s' -> wallet_step s s'
  | step_storeTransactionInput s k i s' :
      (m_isViewWallet s = false -> fresh_image s (keyImage i)) ->
      SubWallets_storeTransactionInput s k i = Some s' -> wallet_step s s'
  | step_storeUnconfirmedIncomingInput s i k :
      wallet_step s (SubWallets_storeUnconfirmedIncomingInput s i k)
  | step_markInputAsSpent s ki k height s' : SubWallets_markInputAsSpent s ki k height = Some s' -> wallet_step s s'
  | step_markInputAsLocked s ki k s' : SubWallets_markInputAsLocked s ki k = Some s' -> wallet_step s s'
  | step_removeForkedTransactions s forkHeight : wallet_step s (removeForkedTransactions s forkHeight)
  | step_removeCancelledTransactions s cancelled s' :
      SubWallets_removeCancelledTransactions s cancelled = Some s' -> wallet_step s s'
  | step_storeTxPrivateKey s txPrivateKey txHash : wallet_step s (storeTxPrivateKey s txPrivateKey txHash)
  | step_reset s scanHeight : wallet_step s (SubWallets_reset s scanHeight)
  | step_convertSyncTimestampToHeight s timestamp height :
      wallet_step s (SubWallets_convertSyncTimestampToHeight s timestamp height).

Lemma forked_wallets_ok s h : container_ok s -> container_ok (removeForkedTransactions s h).
Proof using Type.
  intros Hok. unfold removeForkedTransactions. apply container_map; [done| |by apply filter_hashes_nodup, Hok|apply Hok].
  intros w. split_and!; [done..|]. apply removeForked_images.
Qed.

Lemma cancelled_ok s cancelled s' :
  container_ok s -> SubWallets_removeCancelledTransactions s cancelled = Some s' -> container_ok s'.
Proof using Type.
  intros Hok. unfold SubWallets_removeCancelledTransactions. destruct (throwIfViewWallet s); [|done]. cbn [mbind option_bind].
  intros [= <-]. apply container_map; [done| |apply Hok|by apply filter_hashes_nodup, Hok].
  intros w. by apply kept_perm, removeCancelled_images.
Qed.

Lemma store_unconfirmed_ok s i k : container_ok s -> container_ok (SubWallets_storeUnconfirmedIncomingInput s i k).
Proof using Type.
  intros Hok. unfold SubWallets_storeUnconfirmedIncomingInput. destruct (m_subWallets s !! k) as [w|] eqn:Hw; [|done].
  apply (container_insert s k w _ Hok Hw); [done..|]. intros Hv. split; [by eapply (images_nodup s Hok k w)|by left].
Qed.

Lemma wallet_step_ok s s' : wallet_step s s' -> container_ok s -> container_ok s'.
Proof using Type.
  destruct 1 as [s now pub sec e a s' Hn E|s sk h e a s' E|s k h e a s' E|s a e s' E|s tx s' E|s tx s' E|s k i s' Hf E
    |s i k|s ki k h s' E|s ki k s' E|s h|s c s' E|s sk h|s h|s t h]; intros Hok.
  - unfold addSubWallet in E. destruct (m_isViewWallet s); [by simplify_eq|].
    destruct (privateKeysToAddress _ _ _ _); [|done]. cbn [mbind option_bind] in E. injection E as <- <- <-. by apply add_wallet_ok.
  - unfold importSubWallet in E. destruct (m_isViewWallet s); [by simplify_eq|].
    destruct (secret_key_to_public_key sk) as [k|]; [|done]. cbn [mbind option_bind] in E.
    destruct (privateKeysToAddress _ _ _ _); [|done]. cbn [mbind option_bind] in E.
    destruct (m_subWallets s !! k) eqn:Hk; injection E as <- <- <-; [done|]. by apply add_wallet_ok.
  - unfold importViewSubWallet in E. destruct (negb _); [by simplify_eq|].
    destruct (m_subWallets s !! k) eqn:Hk; [by simplify_eq|]. destruct (secret_key_to_public_key _); [|done].
    cbn [mbind option_bind] in E. destruct (publicKeysToAddress _ _ _); [|done]. cbn [mbind option_bind] in E.
    injection E as <- <- <-. by apply add_wallet_ok.
  - unfold deleteSubWallet in E. destruct (addressToKeys _ _ _) as [[k v]|]; [|done]. cbn [mbind option_bind] in E.
    destruct (m_subWallets s !! k) as [w|] eqn:Hk; [|by simplify_eq].
    destruct (m_isPrimaryAddress w) eqn:Hp; [by simplify_eq|]. injection E as <- <-. by eapply delete_wallet_ok.
  - unfold addTransaction in E. destruct (has_hash (tx_hash tx) (m_transactions s)) eqn:Hh; [done|]. injection E as <-.
    apply with_transactions_ok; [done|by apply has_hash_snoc, Hok|by apply filter_hashes_nodup, Hok].
  - unfold addUnconfirmedTransaction in E. destruct (has_hash (tx_hash tx) (m_lockedTransactions s)) eqn:Hh; [done|].
    injection E as <-. apply with_transactions_ok; [done|apply Hok|by apply has_hash_snoc, Hok].
  - by eapply store_input_ok.
  - by apply store_unconfirmed_ok.
  - unfold SubWallets_markInputAsSpent in E. destruct (throwIfViewWallet s); [|done]. cbn [mbind option_bind] in E.
    eapply at_wallet_ok; [done| |exact E]. intros w w'. apply markInputAsSpent_kept.
  - unfold SubWallets_markInputAsLocked in E. destruct (throwIfViewWallet s); [|done]. cbn [mbind option_bind] in E.
    eapply at_wallet_ok; [done| |exact E]. intros w w'. apply markInputAsLocked_kept.
  - by apply forked_wallets_ok.
  - by eapply cancelled_ok.
  - destruct Hok. by split.
  - destruct Hok. split; try done; cbn; constructor.
  - done.
Qed.

End Steps.

(** ** Balances *)

Definition unlocked_inputs (now : Z) (w : SubWallet) (height : Z) : list TransactionInput :=
  filter (fun i => isInputUnlocked now (unlockTime i) height = true) (m_unspentInputs w).

Definition locked_inputs (now : Z) (w : SubWallet) (height : Z) : list TransactionInput :=
  filter (fun i => isInputUnlocked now (unlockTime i) height <> true) (m_unspentInputs w).

Definition inputs_sum (l : list TransactionInput) : Z := sumZ (amount <$> l).

Lemma balance_fold now height l a b :
  fold_left (balance_step now height) l (u64 a, u64 b) =
  (u64 (a + inputs_sum (filter (fun i => isInputUnlocked now (unlockTime i) height = true) l)),
   u64 (b + inputs_sum (filter (fun i => isInputUnlocked now (unlockTime i) height <> true) l))).
Proof.
  unfold inputs_sum. revert a b. induction l as [|i l IH]; intros a b; cbn [fold_left].
  { cbn. by rewrite !Z.add_0_r. }
  unfold balance_step at 2. destruct (isInputUnlocked now (unlockTime i) height) eqn:E.
  - rewrite wrap_add_l, IH. rewrite filter_cons_True, (filter_cons_False _ i) by (rewrite E; tauto || done). cbn.
    by rewrite Z.add_assoc.
  - rewrite wrap_add_l, IH. rewrite filter_cons_False, (filter_cons_True _ i) by (rewrite E; done). cbn.
    by rewrite Z.add_assoc.
Qed.

Lemma getBalance_spec now w height :
  getBalance now w height =
  (u64 (inputs_sum (unlocked_inputs now w height)),
   u64 (inputs_sum (locked_inputs now w height) + sumZ (ui_amount <$> m_unconfirmedIncomingAmounts w))).
Proof.
  unfold getBalance. change (0, 0) with (u64 0, u64 0). rewrite balance_fold, !Z.add_0_l. f_equal.
  unfold locked_inputs. generalize (inputs_sum (filter (fun i => isInputUnlocked now (unlockTime i) height <> true) (m_unspentInputs w))).
  induction (m_unconfirmedIncomingAmounts w) as [|i l IH]; intros a; cbn [fold_left fmap list_fmap]; [by rewrite Z.add_0_r|].
  rewrite wrap_add_l, IH. cbn. by rewrite Z.add_assoc.
Qed.

(** The money that can be spent and the money that cannot yet, in a list of sub wallets. *)
Definition spendable_sum (now : Z) (wallets : list SubWallet) (height : Z) : Z :=
  sumZ ((fun w => inputs_sum (unlocked_inputs now w height)) <$> wallets).

Definition locked_sum (now : Z) (wallets : list SubWallet) (height : Z) : Z :=
  sumZ ((fun w => inputs_sum (locked_inputs now w height) + sumZ (ui_amount <$> m_unconfirmedIncomingAmounts w)) <$> wallets).

Lemma SubWallets_getBalance_spec now s takeFrom all height :
  SubWallets_getBalance now s takeFrom all height =
  (wallets ← wallets_to_take s all takeFrom;
   Some (u64 (spendable_sum now wallets height), u64 (locked_sum now wallets height))).
Proof.
  unfold SubWallets_getBalance. destruct (wallets_to_take s all takeFrom) as [wallets|]; [|done]. cbn [mbind option_bind]. f_equal.
  unfold spendable_sum, locked_sum.
  assert (forall a b, fold_left (fun b w => let '(unlocked, locked) := getBalance now w height in
    (u64 (b.1 + unlocked), u64 (b.2 + locked))) wallets (u64 a, u64 b) =
    (u64 (a + sumZ ((fun w => inputs_sum (unlocked_inputs now w height)) <$> wallets)),
     u64 (b + sumZ ((fun w => inputs_sum (locked_inputs now w height) + sumZ (ui_amount <$> m_unconfirmedIncomingAmounts w)) <$> wallets)))) as H.
  { induction wallets as [|w l IH]; intros a b; cbn [fold_left fmap list_fmap]; [cbn; by rewrite !Z.add_0_r|].
    rewrite getBalance_spec. cbn [fst snd]. rewrite !wrap_add_l, !wrap_add_r, IH. cbn. by rewrite !Z.add_assoc. }
  exact (H 0 0).
Qed.

(** ** The choice of inputs *)

Definition owner_amount (o : TxInputAndOwner) : Z := amount (input o).
Definition owner_image (o : TxInputAndOwner) : list Z := keyImage (input o).

Lemma available_sum now wallets height : sumZ (owner_amount <$> available_inputs now wallets height) = spendable_sum now wallets height.
Proof.
  unfold available_inputs, spendable_sum. induction wallets as [|w l IH]; [done|]. cbn [fmap list_fmap concat].
  rewrite fmap_app, sumZ_app, IH. cbn. f_equal. unfold getSpendableInputs, inputs_sum. by rewrite <- list_fmap_compose.
Qed.

(** Where an available input comes from. *)
Definition spendable_from (now : Z) (s : SubWallets) (keys : list PublicKey) (height : Z) (o : TxInputAndOwner) : Prop :=
  exists w, publicSpendKey o ∈ keys /\ m_subWallets s !! publicSpendKey o = Some w /\ privateSpendKey o = m_privateSpendKey w /\
    input o ∈ m_unspentInputs w /\ isInputUnlocked now (unlockTime (input o)) height = true.

Lemma available_spec now s keys wallets height :
  container_ok s -> mapM (fun k => m_subWallets s !! k) keys = Some wallets ->
  Forall (spendable_from now s keys height) (available_inputs now wallets height).
Proof.
  intros Hok Hm. apply Forall_forall. intros o Ho. unfold available_inputs in Ho.
  apply list_elem_of_In, in_concat in Ho as (l & Hl & Ho). apply list_elem_of_In in Hl, Ho.
  apply list_elem_of_fmap in Hl as (w & -> & Hw). unfold getSpendableInputs in Ho.
  apply list_elem_of_fmap in Ho as (i & -> & [Hu Hi]%list_elem_of_filter). cbn in *.
  apply mapM_Some_1 in Hm. apply list_elem_of_lookup_1 in Hw as [n Hn].
  destruct (Forall2_lookup_r _ _ _ _ _ Hm Hn) as (k & Hk & E). pose proof (keys_own s Hok k w E) as Hown.
  exists w. cbn. rewrite Hown. split_and!; try done. by eapply list_elem_of_lookup_2.
Qed.

Lemma spendable_images now w height : owner_image <$> getSpendableInputs now w height ⊆+ key_images w.
Proof.
  unfold getSpendableInputs, key_images, wallet_inputs. rewrite <- list_fmap_compose.
  change (owner_image ∘ _) with keyImage. rewrite fmap_app.
  etrans; [|apply submseteq_inserts_r; reflexivity]. apply fmap_submseteq, sublist_submseteq, sublist_filter.
Qed.

Lemma available_nodup now s keys wallets height :
  container_ok s -> m_isViewWallet s = false -> NoDup keys -> mapM (fun k => m_subWallets s !! k) keys = Some wallets ->
  NoDup (owner_image <$> available_inputs now wallets height).
Proof.
  intros Hok Hv Hn. revert wallets. induction Hn as [|k keys Hk Hn IH]; intros wallets; cbn [mapM].
  { intros [= <-]. constructor. }
  destruct (m_subWallets s !! k) as [w|] eqn:Hw; [|done]. cbn [mbind option_bind].
  destruct (mapM _ keys) as [ws|] eqn:Hws; [|done]. cbn [mbind option_bind]. intros [= <-].
  unfold available_inputs. cbn [fmap list_fmap concat]. rewrite fmap_app. apply NoDup_app. split_and!.
  - eapply NoDup_of_submseteq; [apply spendable_images|]. by eapply images_nodup.
  - intros ki Hki Hin. apply Hk. apply list_elem_of_fmap in Hin as (o & -> & Ho).
    pose proof (available_spec now s keys ws height Hok Hws) as Hall. rewrite Forall_forall in Hall.
    destruct (Hall o Ho) as (w' & Hk' & Hw' & _ & Hin' & _).
    rewrite (images_apart s Hok k (publicSpendKey o) w w' (owner_image o) Hv Hw Hw'); [done|by eapply elem_of_submseteq; [|apply spendable_images]|].
    unfold key_images, wallet_inputs, owner_image. apply list_elem_of_fmap_2, elem_of_app. by left.
  - by apply IH.
Qed.

Lemma owner_sum_cons o l : sumZ (owner_amount <$> (o :: l)) = owner_amount o + sumZ (owner_amount <$> l).
Proof. done. Qed.

(** The loop stops at the first input with which there is enough. *)
Lemma take_inputs_spec need found used l :
  0 <= found -> found < need -> Forall (fun o => 0 <= owner_amount o) l -> found + sumZ (owner_amount <$> l) < 2 ^ 64 ->
  if need <=? found + sumZ (owner_amount <$> l)
  then exists l1 o l2, l = l1 ++ o :: l2 /\ found + sumZ (owner_amount <$> l1) < need /\
    need <= found + sumZ (owner_amount <$> (l1 ++ [o])) /\
    take_inputs need found used l = Some (used ++ l1 ++ [o], found + sumZ (owner_amount <$> (l1 ++ [o])))
  else take_inputs need found used l = None.
Proof.
  intros H0 Hlt Hl. revert found used H0 Hlt. induction Hl as [|o l Ho Hl IH]; intros found used H0 Hlt Hsum; cbn [take_inputs].
  { cbn. destruct (Z.leb_spec need (found + 0)); [lia|done]. }
  rewrite owner_sum_cons in Hsum |- *.
  assert (0 <= sumZ (owner_amount <$> l)) as Hnn by (apply sumZ_nonneg, Forall_fmap; exact Hl).
  change (WalletTypes.amount (input o)) with (owner_amount o). rewrite wrap_small by (words; lia).
  destruct (Z.leb_spec need (found + owner_amount o)) as [Hle|Hgt].
  - destruct (Z.leb_spec need (found + (owner_amount o + sumZ (owner_amount <$> l)))); [|lia].
    exists [], o, l. cbn. split_and!; [done|lia|lia|]. by rewrite Z.add_0_r.
  - specialize (IH (found + owner_amount o) (used ++ [o]) ltac:(lia) Hgt ltac:(lia)). rewrite <- Z.add_assoc in IH.
    destruct (Z.leb_spec need (found + (owner_amount o + sumZ (owner_amount <$> l)))); [|done].
    destruct IH as (l1 & o' & l2 & -> & H1 & H2 & ->). exists (o :: l1), o', l2.
    rewrite <- app_assoc. cbn [app]. rewrite !owner_sum_cons. split_and!; [done|lia|lia|].
    by rewrite Z.add_assoc.
Qed.
