(* ===== verification/ValidateParameters.v ===== *)
(** * Parameters of a transaction

    src/src/errors/validate_parameters.cpp: what a wallet checks before it makes a
    transaction.  The checks of addresses alone are in [Addresses]; these also look
    into the container.  An exception is [None]. *)

From stdpp Require Import gmap.
From S2P Require Import Prelude Config Bytes Errors Types Addresses Mixins Utilities WalletTypes SubWallet SubWallets.
Import parameters.
#[local] Open Scope Z_scope.

Definition validateMixin (mixin height : Z) : ErrorCode :=
  let '(minMixin, maxMixin, _) := getMixinAllowableRange height in
  if mixin <? minMixin then MIXIN_TOO_SMALL
  else if maxMixin <? mixin then MIXIN_TOO_BIG
  else SUCCESS.

(** [if (Error error = e; error != SUCCESS) return error;] *)
Definition or_else (e : option ErrorCode) (rest : option ErrorCode) : option ErrorCode :=
  error ← e;
  if bool_decide (error <> SUCCESS) then Some error else rest.

Section Checks.
Context (cn_fast_hash : list Z -> list Z) (check_key : PublicKey -> bool) (now : Z).

Definition validateAmount (destinations : list (list Z * Z)) (fee : Z) (subWalletsToTakeFrom : list (list Z))
    (subWallets : SubWallets) (currentHeight : Z) : option ErrorCode :=
  if fee <? MINIMUM_FEE then Some FEE_TOO_SMALL
  else
    keys ← addressesToSpendKeys cn_fast_hash check_key subWalletsToTakeFrom;
    '(availableBalance, _) ← SubWallets_getBalance now subWallets keys (bool_decide (subWalletsToTakeFrom = [])) currentHeight;
    let totalAmount := u64 (getTransactionSum destinations + fee) in
    let amounts := fee :: (snd <$> destinations) in
    if sumWillOverflow amounts then Some WILL_OVERFLOW
    else if availableBalance <? totalAmount then Some NOT_ENOUGH_BALANCE
    else Some SUCCESS.

(** The loop over the addresses after they have been checked. *)
Fixpoint our_addresses (addresses : list (list Z)) (subWallets : SubWallets) : option ErrorCode :=
  match addresses with
  | [] => Some SUCCESS
  | address :: rest =>
      '(spendKey, _) ← addressToKeys cn_fast_hash check_key address;
      if bool_decide (spendKey ∉ m_publicSpendKeys subWallets) then Some ADDRESS_NOT_IN_WALLET
      else our_addresses rest subWallets
  end.

Definition validateOurAddresses (addresses : list (list Z)) (subWallets : SubWallets) : option ErrorCode :=
  or_else (validateAddresses cn_fast_hash check_key addresses false) (our_addresses addresses subWallets).

Definition validateTransaction (destinations : list (list Z * Z)) (mixin fee : Z) (paymentID : list Z)
    (subWalletsToTakeFrom : list (list Z)) (changeAddress : list Z) (subWallets : SubWallets) (currentHeight : Z)
    : option ErrorCode :=
  or_else (validateDestinations cn_fast_hash check_key destinations)
  (or_else (validateIntegratedAddresses cn_fast_hash destinations paymentID)
  (or_else (validateOurAddresses subWalletsToTakeFrom subWallets)
  (or_else (validateAmount destinations fee subWalletsToTakeFrom subWallets currentHeight)
  (or_else (Some (validateMixin mixin currentHeight))
  (or_else (Some (validatePaymentID paymentID))
  (or_else (validateOurAddresses [changeAddress] subWallets) (Some SUCCESS))))))).

Definition validateFusionTransaction (mixin : Z) (subWalletsToTakeFrom : list (list Z)) (destinationAddress : list Z)
    (subWallets : SubWallets) (currentHeight : Z) : option ErrorCode :=
  or_else (Some (validateMixin mixin currentHeight))
  (or_else (validateOurAddresses subWalletsToTakeFrom subWallets)
  (or_else (validateOurAddresses [destinationAddress] subWallets) (Some SUCCESS))).

(** ** Lemmas *)

Lemma or_else_success e rest : or_else e rest = Some SUCCESS <-> e = Some SUCCESS /\ rest = Some SUCCESS.
Proof using Type.
  unfold or_else. destruct e as [error|]; cbn [mbind option_bind]; [|naive_solver].
  case_bool_decide as H; [naive_solver|]. naive_solver.
Qed.

Lemma our_addresses_keys addresses s :
  our_addresses addresses s = Some SUCCESS ->
  exists keys, addressesToSpendKeys cn_fast_hash check_key addresses = Some keys /\ Forall (fun k => k ∈ m_publicSpendKeys s) keys.
Proof using Type.
  induction addresses as [|a l IH]; cbn [our_addresses]; [intros _; exists []; by split|].
  unfold addressesToSpendKeys in *. cbn [mapM]. destruct (addressToKeys _ _ a) as [[k v]|]; [|done]. cbn [mbind option_bind].
  case_bool_decide as Hk; [done|]. intros H. destruct (IH H) as (keys & -> & Hkeys).
  exists (k :: keys). split; [done|]. by constructor.
Qed.

Lemma validateAmount_success destinations fee from s height :
  Forall (fits 64) (snd <$> destinations) -> fits 64 fee ->
  validateAmount destinations fee from s height = Some SUCCESS ->
  exists keys available locked,
    addressesToSpendKeys cn_fast_hash check_key from = Some keys /\
    SubWallets_getBalance now s keys (bool_decide (from = [])) height = Some (available, locked) /\
    MINIMUM_FEE <= fee /\ sumZ (snd <$> destinations) + fee < 2 ^ 64 /\
    u64 (getTransactionSum destinations + fee) = sumZ (snd <$> destinations) + fee /\
    sumZ (snd <$> destinations) + fee <= available.
Proof using Type.
  intros Hd Hf. unfold validateAmount. destruct (Z.ltb_spec fee MINIMUM_FEE); [done|].
  destruct (addressesToSpendKeys _ _ from) as [keys|]; [|done]. cbn [mbind option_bind].
  destruct (SubWallets_getBalance _ _ _ _ _) as [[available locked]|] eqn:Eb; [|done]. cbn [mbind option_bind].
  rewrite sumWillOverflow_spec by (by constructor).
  destruct (Z.leb_spec (2 ^ 64) (sumZ (fee :: (snd <$> destinations)))) as [|Hlt]; [done|].
  change (sumZ (fee :: (snd <$> destinations))) with (fee + sumZ (snd <$> destinations)) in Hlt.
  assert (0 <= sumZ (snd <$> destinations)) by (apply sumZ_nonneg; eapply Forall_impl; [exact Hd|by intros ? []]).
  rewrite getTransactionSum_wrap, wrap_add_l, wrap_small by (destruct Hf; words; lia).
  destruct (Z.ltb_spec available (sumZ (snd <$> destinations) + fee)); [done|]. intros _.
  exists keys, available, locked. split_and!; try done. lia.
Qed.

End Checks.
