(* ===== verification/WalletTheorems.v ===== *)
(** * Theorems about the wallets

    The invariant of the container along every run, the choice of inputs against
    the balance, and places where the code loses track of the inputs. *)

From stdpp Require Import gmap.
From S2P Require Import Prelude Config Bytes Errors Types Base58 Addresses Mixins Utilities WalletTypes SubWallet SubWallets WalletFacts ValidateParameters.
Import parameters.
#[local] Open Scope Z_scope.

(** ** Runs *)

Section Runs.
Context (cn_fast_hash : list Z -> list Z) (check_key : PublicKey -> bool)
  (secret_key_to_public_key : SecretKey -> option PublicKey).

(** every container that is reached from a new wallet by
    the operations of [SubWallets] is in order: the list of spend keys and the map of
    sub wallets agree, a primary address exists, no transaction is stored
    twice, and no key image is stored twice, in one sub wallet or in two. *)
Theorem wallet_run_ok now privateSpendKey privateViewKey address scanHeight newWallet s s' :
  SubWallets_new secret_key_to_public_key now privateSpendKey privateViewKey address scanHeight newWallet = Some s ->
  rtc (wallet_step cn_fast_hash check_key secret_key_to_public_key) s s' ->
  container_ok s' /\ is_Some (getPrimaryAddress s').
Proof.
  unfold SubWallets_new. destruct (secret_key_to_public_key privateSpendKey) as [k|]; [|done]. cbn [mbind option_bind].
  intros [= <-] Hrun. assert (container_ok s') as Hok.
  { remember (add_wallet _ _ _) as s0 eqn:E0 in Hrun. assert (container_ok s0) as Hok0 by (subst; by apply new_container_ok).
    clear E0. induction Hrun as [|x y z Hs Hr IH]; [done|]. apply IH. by eapply wallet_step_ok. }
  split; [done|]. destruct Hok as [_ _ _ (kp & wp & Hp & Hprim) _ _ _ _]. unfold getPrimaryAddress.
  destruct (list_find _ _) as [[n [k' w]]|] eqn:E; [by eexists|]. apply list_find_None in E. rewrite Forall_forall in E.
  exfalso. apply (E (kp, wp)); [by apply elem_of_map_to_list|done].
Qed.

End Runs.

(** ** The choice of inputs *)

Section Choice.
Context (shuffle : list TxInputAndOwner -> list TxInputAndOwner) (shuffle_perm : forall l, shuffle l ≡ₚ l) (now : Z).

(** The keys that are taken from. *)
Definition source_keys (s : SubWallets) (all : bool) (from : list PublicKey) : list PublicKey :=
  if all then m_publicSpendKeys s else from.

(** The amounts are 64-bit and so is their sum. *)
Definition money_fits (s : SubWallets) (all : bool) (from : list PublicKey) (height : Z) : Prop :=
  forall wallets, wallets_to_take s all from = Some wallets ->
    spendable_sum now wallets height < 2 ^ 64 /\ Forall (fun w => Forall (fun i => 0 <= amount i) (m_unspentInputs w)) wallets.

Lemma inputs_for_amount_spec s need all from height available locked :
  container_ok s -> m_isViewWallet s = false -> NoDup (source_keys s all from) -> money_fits s all from height -> 0 < need ->
  SubWallets_getBalance now s from all height = Some (available, locked) ->
  if need <=? available
  then exists inputs last,
    getTransactionInputsForAmount shuffle now s need all from height =
      Some (inputs ++ [last], sumZ (owner_amount <$> (inputs ++ [last]))) /\
    Forall (spendable_from now s (source_keys s all from) height) (inputs ++ [last]) /\
    NoDup (owner_image <$> (inputs ++ [last])) /\
    sumZ (owner_amount <$> inputs) < need /\ need <= sumZ (owner_amount <$> (inputs ++ [last]))
  else getTransactionInputsForAmount shuffle now s need all from height = None.
Proof using shuffle_perm.
  intros Hok Hv Hn Hfit Hneed. rewrite SubWallets_getBalance_spec.
  destruct (wallets_to_take s all from) as [wallets|] eqn:Ew; [|done]. cbn [mbind option_bind]. intros [= <- <-].
  destruct (Hfit wallets Ew) as [Hlt Hpos]. unfold getTransactionInputsForAmount, throwIfViewWallet. rewrite Hv, Ew.
  cbn [mbind option_bind]. set (l := shuffle (available_inputs now wallets height)).
  assert (l ≡ₚ available_inputs now wallets height) as Hl by apply shuffle_perm.
  pose proof (available_spec now s (source_keys s all from) wallets height Hok Ew) as Hfrom.
  pose proof (available_nodup now s _ wallets height Hok Hv Hn Ew) as Hnd. rewrite <- Hl in Hfrom, Hnd.
  assert (sumZ (owner_amount <$> l) = spendable_sum now wallets height) as Esum.
  { rewrite <- available_sum. by apply sumZ_Permutation, fmap_Permutation. }
  assert (Forall (fun o => 0 <= owner_amount o) l) as Hnn.
  { eapply Forall_impl; [exact Hfrom|]. intros o (w & Hk & Hw & _ & Hi & _). unfold wallets_to_take in Ew.
    apply mapM_Some_1 in Ew. apply list_elem_of_lookup_1 in Hk as [n Hk].
    destruct (Forall2_lookup_l _ _ _ _ _ Ew Hk) as (w' & Hw' & E). rewrite Hw in E. injection E as <-.
    rewrite Forall_lookup in Hpos. specialize (Hpos n w Hw'). rewrite Forall_forall in Hpos. by apply Hpos. }
  assert (0 <= spendable_sum now wallets height) by (rewrite <- Esum; by apply sumZ_nonneg, Forall_fmap).
  rewrite wrap_small by done. pose proof (take_inputs_spec need 0 [] l ltac:(lia) Hneed Hnn ltac:(lia)) as Htake.
  rewrite Z.add_0_l, Esum in Htake. destruct (need <=? spendable_sum now wallets height); [|done].
  destruct Htake as (l1 & o & l2 & El & H1 & H2 & E). rewrite El in Hfrom, Hnd. exists l1, o.
  change (o :: l2) with ([o] ++ l2) in Hfrom, Hnd. rewrite app_assoc in Hfrom, Hnd.
  apply Forall_app in Hfrom as [Hfrom _]. rewrite fmap_app in Hnd. apply NoDup_app in Hnd as [Hnd _].
  split_and!; [exact E|done|done|lia|lia].
Qed.

(** C14: in a container in order with private keys (not a view wallet), take distinct source addresses whose
    unlocked inputs, with amounts that are not negative, add up to less than 2^64.  For a positive amount up to the unlocked balance of
    these addresses inputs are found; their sum is at least
    the amount and without the last one would not be; each is unspent, unlocked
    and of one of these addresses, with the keys of its owner; and no
    key image is taken twice.  For a larger amount none are found.  This holds for every
    order the shuffle may produce.  For an address that is named twice it does not hold. *)
Theorem transaction_inputs_correct s need all from height available locked :
  container_ok s -> m_isViewWallet s = false -> NoDup (source_keys s all from) -> money_fits s all from height -> 0 < need ->
  SubWallets_getBalance now s from all height = Some (available, locked) ->
  if need <=? available
  then exists inputs last,
    getTransactionInputsForAmount shuffle now s need all from height =
      Some (inputs ++ [last], sumZ (owner_amount <$> (inputs ++ [last]))) /\
    Forall (spendable_from now s (source_keys s all from) height) (inputs ++ [last]) /\
    NoDup (owner_image <$> (inputs ++ [last])) /\
    sumZ (owner_amount <$> inputs) < need /\ need <= sumZ (owner_amount <$> (inputs ++ [last]))
  else getTransactionInputsForAmount shuffle now s need all from height = None.
Proof using shuffle_perm. apply inputs_for_amount_spec. Qed.

Context (cn_fast_hash : list Z -> list Z) (check_key : PublicKey -> bool).

(** C15: in a container in order with private keys (not a view wallet), when [validateTransaction] succeeds and
    no two of the addresses to take from have the same spend key, these addresses have spend keys, the total of the amounts and the fee does
    not overflow, and the inputs for it are found: the exceptions that the choice of
    inputs may throw do not occur.  The amounts and the fee are numbers of 64 bits, and the unlocked inputs
    of these addresses, with amounts that are not negative, add up to less than 2^64. *)
Theorem validated_transaction_funded destinations mixin fee paymentID from changeAddress s height :
  container_ok s -> m_isViewWallet s = false -> Forall (fits 64) (snd <$> destinations) -> fits 64 fee ->
  (forall keys, addressesToSpendKeys cn_fast_hash check_key from = Some keys ->
     NoDup keys /\ money_fits s (bool_decide (from = [])) keys height) ->
  validateTransaction cn_fast_hash check_key now destinations mixin fee paymentID from changeAddress s height = Some SUCCESS ->
  exists keys inputs sum,
    addressesToSpendKeys cn_fast_hash check_key from = Some keys /\
    getTransactionInputsForAmount shuffle now s (u64 (getTransactionSum destinations + fee)) (bool_decide (from = [])) keys height
      = Some (inputs, sum) /\
    sumZ (snd <$> destinations) + fee <= sum /\ sum = sumZ (owner_amount <$> inputs) /\
    NoDup (owner_image <$> inputs).
Proof using shuffle_perm.
  intros Hok Hv Hd Hf Hkeys. unfold validateTransaction. rewrite !or_else_success.
  intros (_ & _ & _ & Hamount & _). apply validateAmount_success in Hamount as (keys & available & locked & Ek & Eb & Hmin & Hlt & Etotal & Hle);
    [|done|done].
  destruct (Hkeys keys Ek) as [Hnd Hfit].
  assert (0 <= sumZ (snd <$> destinations)) by (apply sumZ_nonneg; eapply Forall_impl; [exact Hd|by intros ? []]).
  assert (0 < sumZ (snd <$> destinations) + fee) by (unfold MINIMUM_FEE in Hmin; lia).
  assert (NoDup (source_keys s (bool_decide (from = [])) keys)) as Hn.
  { unfold source_keys. destruct (bool_decide _); [apply Hok|done]. }
  pose proof (inputs_for_amount_spec s _ _ keys height available locked Hok Hv Hn Hfit H0 Eb) as Hsel.
  destruct (Z.leb_spec (sumZ (snd <$> destinations) + fee) available); [|lia].
  destruct Hsel as (inputs & last & E & _ & Hi & _ & Hge). rewrite Etotal.
  exists keys, (inputs ++ [last]), (sumZ (owner_amount <$> (inputs ++ [last]))). by split_and!.
Qed.

End Choice.

(** ** Inputs that are lost or come back *)

(** [SubWallets::reset] goes over copies of the
    sub wallets, so it does not reset them: all balances stay what they were, and
    when a rescan stores an input of the wallet again the container is no longer in
    order, the key image being there twice. *)
Theorem reset_keeps_inputs s scanHeight :
  (forall now from all height,
     SubWallets_getBalance now (SubWallets_reset s scanHeight) from all height = SubWallets_getBalance now s from all height) /\
  (forall k w i s', m_isViewWallet s = false -> m_subWallets s !! k = Some w -> i ∈ m_unspentInputs w ->
     SubWallets_storeTransactionInput (SubWallets_reset s scanHeight) k i = Some s' -> ~ container_ok s').
Proof.
  split; [done|]. intros k w i s' Hv Hw Hi. unfold SubWallets_storeTransactionInput, at_wallet. cbn. rewrite Hw. cbn.
  intros [= <-] Hok. pose proof (images_nodup _ Hok k _ Hv (lookup_insert_eq _ _ _)) as Hn.
  unfold key_images, wallet_inputs in Hn. cbn in Hn. rewrite !fmap_app in Hn. cbn in Hn.
  rewrite <- app_assoc in Hn. cbn in Hn. apply NoDup_app in Hn as (_ & Hn & _).
  apply (Hn (keyImage i)); [by apply list_elem_of_fmap_2|left].
Qed.

(** when the chain forks, an input that was spent in one of the blocks that are
    taken back becomes spendable again, also when it was received in one
    of these blocks itself.  A wallet all of whose inputs were received after the fork
    should be left without any; the code leaves it those it had spent. *)
Theorem forked_inputs_return w forkHeight :
  Forall (fun i => forkHeight <= blockHeight i) (wallet_inputs w) ->
  Forall (fun i => blockHeight i <= spendHeight i) (m_spentInputs w) ->
  m_unspentInputs (removeForkedInputs w forkHeight) = (fun i => with_spendHeight i 0) <$> m_spentInputs w /\
  m_spentInputs (removeForkedInputs w forkHeight) = [].
Proof.
  intros Hall Hs. unfold wallet_inputs in Hall. apply Forall_app in Hall as [Hu [_ Hsp]%Forall_app]. cbn.
  assert (Forall (fun i => forkHeight <= spendHeight i) (m_spentInputs w)) as Hge.
  { apply Forall_forall. intros i Hi. rewrite Forall_forall in Hs, Hsp. specialize (Hs i Hi). specialize (Hsp i Hi). lia. }
  split.
  - rewrite filter_empty by (eapply Forall_impl; [exact Hu|cbn; lia]). cbn. by rewrite filter_all.
  - apply filter_empty. eapply Forall_impl; [exact Hge|cbn; lia].
Qed.

(** an input knows the transaction that it was received in, not
    the one that spends it.  So when a transaction [hash] that was sent is cancelled,
    the input it had locked is not found among the inputs to return: it stays
    locked and counts in no balance. *)
Theorem cancelled_inputs_stay_locked s k w i hash s1 s2 :
  container_ok s -> m_subWallets s !! k = Some w -> i ∈ m_unspentInputs w -> parentTransactionHash i <> hash ->
  SubWallets_markInputAsLocked s (keyImage i) k = Some s1 ->
  SubWallets_removeCancelledTransactions s1 {[ hash ]} = Some s2 ->
  exists w2, m_subWallets s2 !! k = Some w2 /\ i ∈ m_lockedInputs w2 /\ i ∉ m_unspentInputs w2.
Proof.
  intros Hok Hw Hi Hh. unfold SubWallets_markInputAsLocked, throwIfViewWallet. destruct (m_isViewWallet s) eqn:Hv; [done|].
  unfold at_wallet. cbn [mbind option_bind]. rewrite Hw. cbn [mbind option_bind].
  destruct (markInputAsLocked w (keyImage i)) as [w1|] eqn:Em; [|done]. cbn [mbind option_bind]. intros [= <-].
  unfold SubWallets_removeCancelledTransactions, throwIfViewWallet. cbn. rewrite Hv. cbn. intros [= <-]. cbn.
  exists (removeCancelledTransactions w1 {[ hash ]}). rewrite lookup_fmap, lookup_insert_eq. split; [done|].
  pose proof (images_nodup s Hok k w Hv Hw) as Hn. pose proof (markInputAsLocked_images _ _ _ Em) as Hp.
  unfold markInputAsLocked in Em. destruct (take_key_image _ _) as [[j rest]|] eqn:Et; [|done]. injection Em as <-.
  apply take_key_image_Some in Et as [Hj Hperm].
  assert (i = j) as <-.
  { unfold key_images, wallet_inputs in Hn. rewrite fmap_app, Hperm in Hn. rewrite Hperm in Hi.
    apply elem_of_cons in Hi as [->|Hi]; [done|]. cbn in Hn. apply NoDup_cons in Hn as [Hn _]. exfalso. apply Hn.
    apply elem_of_app. left. rewrite Hj. by apply list_elem_of_fmap_2. }
  assert (i ∈ m_lockedInputs (removeCancelledTransactions (with_inputs w rest (m_lockedInputs w ++ [i]) (m_spentInputs w)
    (m_unconfirmedIncomingAmounts w)) {[ hash ]})) as Hlocked.
  { cbn. apply list_elem_of_filter. split; [set_solver|]. apply elem_of_app. right. by apply list_elem_of_singleton. }
  split; [exact Hlocked|]. intros Hu. rewrite <- Hp in Hn.
  pose proof (removeCancelled_images (with_inputs w rest (m_lockedInputs w ++ [i]) (m_spentInputs w)
    (m_unconfirmedIncomingAmounts w)) {[ hash ]}) as Hp2. rewrite <- Hp2 in Hn.
  unfold key_images, wallet_inputs in Hn. rewrite fmap_app in Hn. apply NoDup_app in Hn as (_ & Hn & _).
  apply (Hn (keyImage i)); [by apply list_elem_of_fmap_2|]. rewrite fmap_app. apply elem_of_app. left. by apply list_elem_of_fmap_2.
Qed.

Section Duplicates.
Context (shuffle : list TxInputAndOwner -> list TxInputAndOwner) (shuffle_perm : forall l, shuffle l ≡ₚ l) (now : Z).

(** an address that is given twice to take from is counted twice.
    With one unlocked input the balance appears doubled, and for the doubled amount the
    input is taken twice into one transaction. *)
Theorem duplicate_source_spends_twice s k w i height :
  m_isViewWallet s = false -> m_subWallets s !! k = Some w -> unlocked_inputs now w height = [i] ->
  0 < amount i -> 2 * amount i < 2 ^ 64 ->
  let o := mkTxInputAndOwner i (m_publicSpendKey w) (m_privateSpendKey w) in
  (exists locked, SubWallets_getBalance now s [k; k] false height = Some (2 * amount i, locked)) /\
  getTransactionInputsForAmount shuffle now s (2 * amount i) false [k; k] height = Some ([o; o], 2 * amount i).
Proof using shuffle_perm.
  intros Hv Hw Hu Hpos Hlt o. assert (wallets_to_take s false [k; k] = Some [w; w]) as Ew.
  { unfold wallets_to_take. cbn [mapM]. rewrite Hw. done. }
  assert (spendable_sum now [w; w] height = 2 * amount i) as Es.
  { unfold spendable_sum. cbn [fmap list_fmap]. rewrite Hu. unfold inputs_sum. cbn. lia. }
  split.
  - exists (u64 (locked_sum now [w; w] height)). rewrite SubWallets_getBalance_spec, Ew. cbn [mbind option_bind].
    by rewrite Es, wrap_small by (words; lia).
  - unfold getTransactionInputsForAmount, throwIfViewWallet. rewrite Hv, Ew. cbn [mbind option_bind].
    assert (available_inputs now [w; w] height = [o; o]) as ->.
    { unfold available_inputs. cbn [fmap list_fmap concat]. unfold getSpendableInputs.
      change (filter _ (m_unspentInputs w)) with (unlocked_inputs now w height). by rewrite Hu. }
    assert (shuffle [o; o] = [o; o]) as ->.
    { pose proof (shuffle_perm [o; o]) as Hp. assert (Forall (fun x => x = o) (shuffle [o; o])) as Hall by (rewrite Hp; by repeat constructor).
      apply Permutation_length in Hp. destruct (shuffle [o; o]) as [|x [|y [|]]]; try done.
      apply Forall_cons in Hall as [-> Hall]. by apply Forall_cons in Hall as [-> _]. }
    cbn [take_inputs app]. change (WalletTypes.amount (input o)) with (amount i). rewrite Z.add_0_l.
    rewrite (wrap_small 64 (amount i)) by (words; lia). destruct (Z.leb_spec (2 * amount i) (amount i)); [lia|].
    replace (amount i + amount i) with (2 * amount i) by lia. rewrite wrap_small by (words; lia). by rewrite Z.leb_refl.
Qed.

End Duplicates.

(** ** Where synchronisation starts *)

Definition sample_wallet (n : Z) (timestamp height : Z) (primary : bool) : SubWallet :=
  mkSubWallet [] [] [] [] (replicate 32 n) (replicate 32 n) timestamp height [] primary.

(** [getMinInitialSyncStart] is meant to ignore null values.  Every sub wallet has
    either a height or a timestamp, the other being zero, and the zeros take part in
    the two minima: with the two sub wallets of the example in its comment, of
    height 400,000 and of a timestamp, the answer is zero for both, and the
    synchronisation starts from the first block. *)
Theorem sync_start_ignores_nothing now s k1 k2 w1 w2 height timestamp :
  k1 <> k2 -> m_subWallets s = {[ k1 := w1; k2 := w2 ]} ->
  m_syncStartHeight w1 = height -> m_syncStartTimestamp w1 = 0 -> m_syncStartHeight w2 = 0 -> m_syncStartTimestamp w2 = timestamp ->
  0 < height -> 0 < timestamp ->
  getMinInitialSyncStart now s = Some (0, 0).
Proof.
  intros Hk Hs Hh1 Ht1 Hh2 Ht2 Hh Ht. unfold getMinInitialSyncStart, min_over. rewrite Hs.
  assert (map_to_list ({[k1 := w1; k2 := w2]} : gmap PublicKey SubWallet) ≡ₚ [(k1, w1); (k2, w2)]) as Hp.
  { rewrite map_to_list_insert by (by rewrite lookup_singleton_ne). by rewrite map_to_list_singleton. }
  symmetry in Hp. apply Permutation_length_2_inv in Hp as [->| ->]; cbn; rewrite ?Hh1, ?Hh2, ?Ht1, ?Ht2.
  - destruct (Z.ltb_spec timestamp 0); [lia|]. destruct (Z.ltb_spec 0 height); [done|lia].
  - destruct (Z.ltb_spec height 0); [lia|]. destruct (Z.ltb_spec 0 timestamp); [done|lia].
Qed.

(** ** Instances *)

Definition sample_input (n value : Z) : TransactionInput :=
  mkTransactionInput (replicate 32 n) value 10 (replicate 32 1) 0 (Some 7) (replicate 32 n) 0 0 (replicate 32 9).

(** An account with three unspent inputs of 5, 20 and 100. *)
Definition sample_sub_wallet : SubWallet :=
  mkSubWallet [sample_input 1 5; sample_input 2 20; sample_input 3 100] [] [] [] (replicate 32 17) (replicate 32 4) 0 0 [] true.

Definition sample_container : SubWallets :=
  mkSubWallets [replicate 32 17] {[ replicate 32 17 := sample_sub_wallet ]} [] [] (replicate 32 5) false ∅.

Lemma sample_lookup k w : m_subWallets sample_container !! k = Some w -> k = replicate 32 17 /\ w = sample_sub_wallet.
Proof. cbn. intros [<- <-]%lookup_singleton_Some. done. Qed.

Lemma sample_container_ok : container_ok sample_container.
Proof.
  split.
  - apply NoDup_singleton.
  - intros k. unfold sample_container. cbn [m_publicSpendKeys m_subWallets]. rewrite list_elem_of_singleton. split.
    + intros ->. rewrite lookup_singleton_eq. by eexists.
    + intros [w [<- _]%lookup_singleton_Some]. done.
  - by intros k w [-> ->]%sample_lookup.
  - exists (replicate 32 17), sample_sub_wallet. split; [apply lookup_singleton_eq|done].
  - constructor.
  - constructor.
  - intros k w _ [-> ->]%sample_lookup. apply (bool_decide_unpack _). vm_compute. exact I.
  - by intros k k' w w' ki _ [-> ->]%sample_lookup [-> ->]%sample_lookup.
Qed.

Lemma sample_money all from height :
  (length (source_keys sample_container all from) <= 1)%nat -> money_fits 0 sample_container all from height.
Proof.
  intros Hl wallets Hw. unfold wallets_to_take in Hw. fold (source_keys sample_container all from) in Hw.
  destruct (source_keys sample_container all from) as [|k [|]]; cbn [length] in Hl; [| |lia]; cbn [mapM] in Hw.
  - injection Hw as <-. split; [done|constructor].
  - destruct (m_subWallets sample_container !! k) as [w|] eqn:E; [|done]. cbn [mbind option_bind] in Hw. injection Hw as <-.
    apply sample_lookup in E as [-> ->]. split; [reflexivity|]. repeat constructor; cbn; lia.
Qed.

Lemma wallet_run_ok_witness :
  container_ok (SubWallets_reset (add_wallet (mkSubWallets [] ∅ [] [] (replicate 32 5) false ∅) (replicate 32 3)
    (SubWallet_new (replicate 32 3) (replicate 32 3) [] 100 0 true)) 50) /\
  is_Some (getPrimaryAddress (SubWallets_reset (add_wallet (mkSubWallets [] ∅ [] [] (replicate 32 5) false ∅) (replicate 32 3)
    (SubWallet_new (replicate 32 3) (replicate 32 3) [] 100 0 true)) 50)).
Proof.
  apply (wallet_run_ok toy_hash (fun _ => true) Some 0 (replicate 32 3) (replicate 32 5) [] 100 false
    (add_wallet (mkSubWallets [] ∅ [] [] (replicate 32 5) false ∅) (replicate 32 3)
      (SubWallet_new (replicate 32 3) (replicate 32 3) [] 100 0 true))); [reflexivity|].
  apply rtc_once, step_reset.
Defined.

Lemma transaction_inputs_correct_witness :
  exists inputs last,
    getTransactionInputsForAmount (fun l => l) 0 sample_container 22 true [] 50 =
      Some (inputs ++ [last], sumZ (owner_amount <$> (inputs ++ [last]))) /\
    Forall (spendable_from 0 sample_container (source_keys sample_container true []) 50) (inputs ++ [last]) /\
    NoDup (owner_image <$> (inputs ++ [last])) /\
    sumZ (owner_amount <$> inputs) < 22 /\ 22 <= sumZ (owner_amount <$> (inputs ++ [last])).
Proof.
  exact (transaction_inputs_correct (fun l => l) (fun l => reflexivity l) 0 sample_container 22 true [] 50 125 0
    sample_container_ok eq_refl (NoDup_singleton _) (sample_money true [] 50 (le_n 1)) eq_refl eq_refl).
Defined.

Lemma reset_keeps_inputs_witness :
  exists s', SubWallets_storeTransactionInput (SubWallets_reset sample_container 0) (replicate 32 17) (sample_input 1 5) = Some s' /\
    ~ container_ok s'.
Proof.
  eexists. split; [reflexivity|].
  eapply (proj2 (reset_keeps_inputs sample_container 0) (replicate 32 17) sample_sub_wallet (sample_input 1 5));
    [reflexivity|apply lookup_singleton_eq|left|reflexivity].
Defined.

Lemma forked_inputs_return_witness :
  let w := with_inputs sample_sub_wallet [] [] [with_spendHeight (sample_input 1 5) 11] [] in
  m_unspentInputs (removeForkedInputs w 10) = [sample_input 1 5] /\ m_spentInputs (removeForkedInputs w 10) = [].
Proof.
  apply (forked_inputs_return (with_inputs sample_sub_wallet [] [] [with_spendHeight (sample_input 1 5) 11] []) 10);
    repeat constructor; cbn; lia.
Defined.

Lemma cancelled_inputs_stay_locked_witness :
  exists s1 s2 w2, SubWallets_markInputAsLocked sample_container (replicate 32 1) (replicate 32 17) = Some s1 /\
    SubWallets_removeCancelledTransactions s1 {[ replicate 32 8 ]} = Some s2 /\
    m_subWallets s2 !! replicate 32 17 = Some w2 /\ sample_input 1 5 ∈ m_lockedInputs w2 /\ sample_input 1 5 ∉ m_unspentInputs w2.
Proof.
  eexists _, _. 
  destruct (cancelled_inputs_stay_locked sample_container (replicate 32 17) sample_sub_wallet (sample_input 1 5) (replicate 32 8)
    _ _ sample_container_ok (lookup_singleton_eq _ _) (list_elem_of_here _ _) ltac:(discriminate) eq_refl eq_refl) as (w2 & H1 & H2 & H3).
  exists w2. split; [reflexivity|]. split; [reflexivity|]. split; [exact H1|]. split; [exact H2|exact H3].
Defined.

Lemma duplicate_source_spends_twice_witness :
  let w := with_inputs sample_sub_wallet [sample_input 3 100] [] [] [] in
  let s := with_wallets sample_container {[ replicate 32 17 := w ]} in
  let o := mkTxInputAndOwner (sample_input 3 100) (replicate 32 17) (replicate 32 4) in
  (exists locked, SubWallets_getBalance 0 s [replicate 32 17; replicate 32 17] false 50 = Some (200, locked)) /\
  getTransactionInputsForAmount (fun l => l) 0 s 200 false [replicate 32 17; replicate 32 17] 50 = Some ([o; o], 200).
Proof.
  apply (duplicate_source_spends_twice (fun l => l) (fun l => reflexivity l) 0
    (with_wallets sample_container {[ replicate 32 17 := with_inputs sample_sub_wallet [sample_input 3 100] [] [] [] ]})
    (replicate 32 17) (with_inputs sample_sub_wallet [sample_input 3 100] [] [] []) (sample_input 3 100) 50);
    [reflexivity|apply lookup_singleton_eq|reflexivity|reflexivity|reflexivity].
Defined.

Lemma sync_start_ignores_nothing_witness :
  getMinInitialSyncStart 1600000000
    (mkSubWallets [replicate 32 1; replicate 32 2]
      {[ replicate 32 1 := sample_wallet 1 0 400000 true; replicate 32 2 := sample_wallet 2 1539800692 0 false ]}
      [] [] (replicate 32 5) false ∅) = Some (0, 0).
Proof.
  apply (sync_start_ignores_nothing 1600000000 _ (replicate 32 1) (replicate 32 2) (sample_wallet 1 0 400000 true)
    (sample_wallet 2 1539800692 0 false) 400000 1539800692); reflexivity || discriminate.
Defined.

(** The address of the sample account. *)
Definition sample_text : list Z := default [] (publicKeysToAddress toy_hash (replicate 32 17) (replicate 32 29)).

Lemma sample_validated :
  validateTransaction toy_hash (fun _ => true) 0 [(sample_text, 30)] 3 10 [] [] sample_text sample_container 1000000 = Some SUCCESS.
Proof. vm_compute. reflexivity. Qed.

Lemma validated_transaction_funded_witness :
  exists keys inputs sum,
    addressesToSpendKeys toy_hash (fun _ => true) [] = Some keys /\
    getTransactionInputsForAmount (fun l => l) 0 sample_container (u64 (getTransactionSum [(sample_text, 30)] + 10))
      (bool_decide (@nil (list Z) = [])) keys 1000000 = Some (inputs, sum) /\
    sumZ (snd <$> [(sample_text, 30)]) + 10 <= sum /\ sum = sumZ (owner_amount <$> inputs) /\ NoDup (owner_image <$> inputs).
Proof.
  apply (validated_transaction_funded (fun l => l) (fun l => reflexivity l) 0 toy_hash (fun _ => true) [(sample_text, 30)] 3 10 [] []
    sample_text sample_container 1000000 sample_container_ok eq_refl).
  - apply Forall_cons. split; [by split|constructor].
  - by split.
  - intros keys [= <-]. split; [constructor|]. apply sample_money. cbn. lia.
  - exact sample_validated.
Defined.
