(* ===== verification/WalletJson.v ===== *)
(** * The wallet file

    What a wallet writes to its file and reads from it: the members [toJSON] and
    [fromJSON] of the structures of wallet_types.h, of [SubWallet]
    and of [SubWallets], with the accessors of src/include/json_helper.h.  The text
    form of JSON and the encryption of the file belong to libraries; a value that is
    written is read back.  An exception is [None]. *)

From Stdlib Require Import String Ascii.
From stdpp Require Import gmap.
From S2P Require Import Prelude Bytes StringTools Types WalletTypes SubWallet SubWallets WalletFacts.
#[local] Open Scope list_scope.
#[local] Open Scope Z_scope.

(** ** Values

    A number is an integer here: the code writes no other, and reads every other as
    one of the wrong type. *)

Inductive JSON :=
  | JNull
  | JBool (b : bool)
  | JNumber (z : Z)
  | JString (s : list Z)
  | JArray (l : list JSON)
  | JObject (m : list (string * JSON)).

(** [FindMember]: the first member of the name. *)
Fixpoint find_member (name : string) (m : list (string * JSON)) : option JSON :=
  match m with
  | [] => None
  | (n, v) :: m => if String.eqb n name then Some v else find_member name m
  end.

Definition getJsonValue (j : JSON) (name : string) : option JSON :=
  match j with JObject m => find_member name m | _ => None end.

(** The text up to the first zero, which a [std::string] takes from a pointer. *)
Fixpoint c_string (s : list Z) : list Z :=
  match s with
  | [] => []
  | c :: s => if c =? 0 then [] else c :: c_string s
  end.

Definition getUint64FromJSON (j : JSON) (name : string) : option Z :=
  val ← getJsonValue j name;
  match val with JNumber z => if (0 <=? z) && (z <? 2 ^ 64) then Some z else None | _ => None end.

(** The function returns the number as unsigned. *)
Definition getInt64FromJSON (j : JSON) (name : string) : option Z :=
  val ← getJsonValue j name;
  match val with JNumber z => if (- 2 ^ 63 <=? z) && (z <? 2 ^ 63) then Some (u64 z) else None | _ => None end.

Definition getStringFromJSONString (j : JSON) : option (list Z) :=
  match j with JString s => Some (c_string s) | _ => None end.

Definition getStringFromJSON (j : JSON) (name : string) : option (list Z) :=
  val ← getJsonValue j name;
  getStringFromJSONString val.

Definition getArrayFromJSON (j : JSON) (name : string) : option (list JSON) :=
  val ← getJsonValue j name;
  match val with JArray l => Some l | _ => None end.

Definition getObjectFromJSON (j : JSON) (name : string) : option JSON :=
  val ← getJsonValue j name;
  match val with JObject m => Some (JObject m) | _ => None end.

Definition getBoolFromJSON (j : JSON) (name : string) : option bool :=
  val ← getJsonValue j name;
  match val with JBool b => Some b | _ => None end.

(** [toJSON] and [fromString] of hashes, keys and key images. *)
Definition pod_toJSON (data : list Z) : JSON := JString (podToHex data).
Definition pod_fromString (s : list Z) : option (list Z) := podFromHex 32 s.

Definition pod_member (j : JSON) (name : string) : option (list Z) :=
  s ← getStringFromJSON j name;
  pod_fromString s.

(** ** wallet_types.h *)

Definition TransactionInput_toJSON (i : TransactionInput) : JSON :=
  JObject [("keyImage", pod_toJSON (keyImage i)); ("amount", JNumber (amount i));
    ("blockHeight", JNumber (blockHeight i)); ("transactionPublicKey", pod_toJSON (transactionPublicKey i));
    ("transactionIndex", JNumber (transactionIndex i)); ("globalOutputIndex", JNumber (default 0 (globalOutputIndex i)));
    ("key", pod_toJSON (key i)); ("spendHeight", JNumber (spendHeight i)); ("unlockTime", JNumber (unlockTime i));
    ("parentTransactionHash", pod_toJSON (parentTransactionHash i))]%string.

Definition TransactionInput_fromJSON (j : JSON) : option TransactionInput :=
  keyImage ← pod_member j "keyImage";
  amount ← getUint64FromJSON j "amount";
  blockHeight ← getUint64FromJSON j "blockHeight";
  transactionPublicKey ← pod_member j "transactionPublicKey";
  transactionIndex ← getUint64FromJSON j "transactionIndex";
  globalOutputIndex ← getUint64FromJSON j "globalOutputIndex";
  key ← pod_member j "key";
  spendHeight ← getUint64FromJSON j "spendHeight";
  unlockTime ← getUint64FromJSON j "unlockTime";
  parentTransactionHash ← pod_member j "parentTransactionHash";
  Some (mkTransactionInput keyImage amount blockHeight transactionPublicKey transactionIndex (Some globalOutputIndex)
          key spendHeight unlockTime parentTransactionHash).

Definition UnconfirmedInput_toJSON (i : UnconfirmedInput) : JSON :=
  JObject [("amount", JNumber (ui_amount i)); ("key", pod_toJSON (ui_key i));
    ("parentTransactionHash", pod_toJSON (ui_parentTransactionHash i))]%string.

Definition UnconfirmedInput_fromJSON (j : JSON) : option UnconfirmedInput :=
  amount ← getUint64FromJSON j "amount";
  key ← pod_member j "key";
  parentTransactionHash ← pod_member j "parentTransactionHash";
  Some (mkUnconfirmedInput amount key parentTransactionHash).

Definition transfer_toJSON (p : PublicKey * Z) : JSON :=
  JObject [("publicKey", pod_toJSON p.1); ("amount", JNumber p.2)]%string.

Definition transfer_fromJSON (j : JSON) : option (PublicKey * Z) :=
  publicKey ← pod_member j "publicKey";
  amount ← getInt64FromJSON j "amount";
  Some (publicKey, s64 amount).

(** [map[k] = v] for the entries in order. *)
Definition insert_all {A} (entries : list (list Z * A)) : gmap (list Z) A :=
  fold_left (fun m p => <[p.1 := p.2]> m) entries ∅.

Definition Transaction_toJSON (t : WalletTransaction) : JSON :=
  JObject [("transfers", JArray (transfer_toJSON <$> map_to_list (transfers t))); ("hash", pod_toJSON (tx_hash t));
    ("fee", JNumber (tx_fee t)); ("blockHeight", JNumber (tx_blockHeight t)); ("timestamp", JNumber (tx_timestamp t));
    ("paymentID", JString (tx_paymentID t)); ("unlockTime", JNumber (tx_unlockTime t));
    ("isCoinbaseTransaction", JBool (isCoinbaseTransaction t))]%string.

Definition Transaction_fromJSON (j : JSON) : option WalletTransaction :=
  entries ← getArrayFromJSON j "transfers";
  entries ← mapM transfer_fromJSON entries;
  hash ← pod_member j "hash";
  fee ← getUint64FromJSON j "fee";
  blockHeight ← getUint64FromJSON j "blockHeight";
  timestamp ← getUint64FromJSON j "timestamp";
  paymentID ← getStringFromJSON j "paymentID";
  unlockTime ← getUint64FromJSON j "unlockTime";
  isCoinbaseTransaction ← getBoolFromJSON j "isCoinbaseTransaction";
  Some (mkWalletTransaction (insert_all entries) hash fee timestamp blockHeight paymentID unlockTime isCoinbaseTransaction).

(** ** [SubWallet] *)

Definition SubWallet_toJSON (w : SubWallet) : JSON :=
  JObject [("publicSpendKey", pod_toJSON (m_publicSpendKey w)); ("privateSpendKey", pod_toJSON (m_privateSpendKey w));
    ("address", JString (m_address w)); ("syncStartTimestamp", JNumber (m_syncStartTimestamp w));
    ("unspentInputs", JArray (TransactionInput_toJSON <$> m_unspentInputs w));
    ("lockedInputs", JArray (TransactionInput_toJSON <$> m_lockedInputs w));
    ("spentInputs", JArray (TransactionInput_toJSON <$> m_spentInputs w));
    ("syncStartHeight", JNumber (m_syncStartHeight w)); ("isPrimaryAddress", JBool (m_isPrimaryAddress w));
    ("unconfirmedIncomingAmounts", JArray (UnconfirmedInput_toJSON <$> m_unconfirmedIncomingAmounts w))]%string.

Definition inputs_member (j : JSON) (name : string) : option (list TransactionInput) :=
  l ← getArrayFromJSON j name;
  mapM TransactionInput_fromJSON l.

Definition SubWallet_fromJSON (j : JSON) : option SubWallet :=
  publicSpendKey ← pod_member j "publicSpendKey";
  privateSpendKey ← pod_member j "privateSpendKey";
  address ← getStringFromJSON j "address";
  syncStartTimestamp ← getUint64FromJSON j "syncStartTimestamp";
  unspentInputs ← inputs_member j "unspentInputs";
  lockedInputs ← inputs_member j "lockedInputs";
  spentInputs ← inputs_member j "spentInputs";
  syncStartHeight ← getUint64FromJSON j "syncStartHeight";
  isPrimaryAddress ← getBoolFromJSON j "isPrimaryAddress";
  amounts ← getArrayFromJSON j "unconfirmedIncomingAmounts";
  unconfirmedIncomingAmounts ← mapM UnconfirmedInput_fromJSON amounts;
  Some (mkSubWallet unspentInputs lockedInputs spentInputs unconfirmedIncomingAmounts publicSpendKey privateSpendKey
          syncStartTimestamp syncStartHeight address isPrimaryAddress).

(** ** [SubWallets] *)

Definition tx_key_toJSON (p : Hash * SecretKey) : JSON :=
  JObject [("transactionHash", pod_toJSON p.1); ("txPrivateKey", pod_toJSON p.2)]%string.

Definition tx_key_fromJSON (j : JSON) : option (Hash * SecretKey) :=
  txHash ← pod_member j "transactionHash";
  privateKey ← pod_member j "txPrivateKey";
  Some (txHash, privateKey).

Definition SubWallets_toJSON (s : SubWallets) : JSON :=
  JObject [("publicSpendKeys", JArray (pod_toJSON <$> m_publicSpendKeys s));
    ("subWallet", JArray (SubWallet_toJSON <$> (snd <$> map_to_list (m_subWallets s))));
    ("transactions", JArray (Transaction_toJSON <$> m_transactions s));
    ("lockedTransactions", JArray (Transaction_toJSON <$> m_lockedTransactions s));
    ("privateViewKey", pod_toJSON (m_privateViewKey s)); ("isViewWallet", JBool (m_isViewWallet s));
    ("txPrivateKeys", JArray (tx_key_toJSON <$> map_to_list (m_transactionPrivateKeys s)))]%string.

(** Into a container that is empty.  The loop over the locked transactions
    pushes them to [m_transactions]. *)
Definition SubWallets_fromJSON (j : JSON) : option SubWallets :=
  keys ← getArrayFromJSON j "publicSpendKeys";
  publicSpendKeys ← mapM (fun x => s ← getStringFromJSONString x; pod_fromString s) keys;
  wallets ← getArrayFromJSON j "subWallet";
  wallets ← mapM SubWallet_fromJSON wallets;
  transactions ← getArrayFromJSON j "transactions";
  transactions ← mapM Transaction_fromJSON transactions;
  locked ← getArrayFromJSON j "lockedTransactions";
  locked ← mapM Transaction_fromJSON locked;
  privateViewKey ← pod_member j "privateViewKey";
  isViewWallet ← getBoolFromJSON j "isViewWallet";
  txKeys ← getArrayFromJSON j "txPrivateKeys";
  txKeys ← mapM tx_key_fromJSON txKeys;
  Some (mkSubWallets publicSpendKeys (insert_all ((fun w => (m_publicSpendKey w, w)) <$> wallets)) (transactions ++ locked) []
          privateViewKey isViewWallet (insert_all txKeys)).

(** ** What the file keeps *)

(** The values a wallet holds are those of its C++ types; a text has no zero. *)
Definition text_ok (s : list Z) : Prop := Forall (fun c => c <> 0) s.

Record input_ok (i : TransactionInput) : Prop := {
  io_image : pod_ok 32 (keyImage i);
  io_amount : fits 64 (amount i);
  io_height : fits 64 (blockHeight i);
  io_txkey : pod_ok 32 (transactionPublicKey i);
  io_index : fits 64 (transactionIndex i);
  io_global : fits 64 (default 0 (globalOutputIndex i));
  io_key : pod_ok 32 (key i);
  io_spend : fits 64 (spendHeight i);
  io_unlock : fits 64 (unlockTime i);
  io_parent : pod_ok 32 (parentTransactionHash i) }.

Record unconfirmed_ok (i : UnconfirmedInput) : Prop := {
  uo_amount : fits 64 (ui_amount i);
  uo_key : pod_ok 32 (ui_key i);
  uo_parent : pod_ok 32 (ui_parentTransactionHash i) }.

Record transaction_ok (t : WalletTransaction) : Prop := {
  to_transfers : map_Forall (fun k a => pod_ok 32 k /\ - 2 ^ 63 <= a < 2 ^ 63) (transfers t);
  to_hash : pod_ok 32 (tx_hash t);
  to_fee : fits 64 (tx_fee t);
  to_time : fits 64 (tx_timestamp t);
  to_height : fits 64 (tx_blockHeight t);
  to_payment : text_ok (tx_paymentID t);
  to_unlock : fits 64 (tx_unlockTime t) }.

Record wallet_ok (w : SubWallet) : Prop := {
  wo_unspent : Forall input_ok (m_unspentInputs w);
  wo_locked : Forall input_ok (m_lockedInputs w);
  wo_spent : Forall input_ok (m_spentInputs w);
  wo_unconfirmed : Forall unconfirmed_ok (m_unconfirmedIncomingAmounts w);
  wo_public : pod_ok 32 (m_publicSpendKey w);
  wo_private : pod_ok 32 (m_privateSpendKey w);
  wo_timestamp : fits 64 (m_syncStartTimestamp w);
  wo_start : fits 64 (m_syncStartHeight w);
  wo_address : text_ok (m_address w) }.

Record values_ok (s : SubWallets) : Prop := {
  vo_keys : Forall (pod_ok 32) (m_publicSpendKeys s);
  vo_wallets : map_Forall (fun k w => m_publicSpendKey w = k /\ wallet_ok w) (m_subWallets s);
  vo_transactions : Forall transaction_ok (m_transactions s);
  vo_locked : Forall transaction_ok (m_lockedTransactions s);
  vo_view : pod_ok 32 (m_privateViewKey s);
  vo_txkeys : map_Forall (fun h k => pod_ok 32 h /\ pod_ok 32 k) (m_transactionPrivateKeys s) }.

(** What comes back: an input whose global index was not known has the index 0. *)
Definition input_back (i : TransactionInput) : TransactionInput :=
  mkTransactionInput (keyImage i) (amount i) (blockHeight i) (transactionPublicKey i) (transactionIndex i)
    (Some (default 0 (globalOutputIndex i))) (key i) (spendHeight i) (unlockTime i) (parentTransactionHash i).

Definition wallet_back (w : SubWallet) : SubWallet :=
  mkSubWallet (input_back <$> m_unspentInputs w) (input_back <$> m_lockedInputs w) (input_back <$> m_spentInputs w)
    (m_unconfirmedIncomingAmounts w) (m_publicSpendKey w) (m_privateSpendKey w) (m_syncStartTimestamp w)
    (m_syncStartHeight w) (m_address w) (m_isPrimaryAddress w).

(** The transactions that were waiting for a block are among the confirmed ones. *)
Definition reloaded (s : SubWallets) : SubWallets :=
  mkSubWallets (m_publicSpendKeys s) (wallet_back <$> m_subWallets s) (m_transactions s ++ m_lockedTransactions s) []
    (m_privateViewKey s) (m_isViewWallet s) (m_transactionPrivateKeys s).

(** ** Reading back what is written *)

Lemma c_string_text s : text_ok s -> c_string s = s.
Proof. induction 1 as [|c s Hc _ IH]; [done|]. cbn. by rewrite (proj2 (Z.eqb_neq c 0) Hc), IH. Qed.

Lemma hex_digit_nonzero v : 0 <= v < 16 -> hex_digit v <> 0.
Proof. intros H E. pose proof (fromHex_char_digit v H) as D. rewrite E in D. discriminate D. Qed.

Lemma podToHex_text p : bytes_ok p -> text_ok (podToHex p).
Proof.
  unfold podToHex. induction 1 as [|b p Hb _ IH]; [constructor|]. cbn.
  destruct (nibbles b Hb) as (? & ? & ?).
  repeat constructor; [apply hex_digit_nonzero; zlia..|exact IH].
Qed.

Lemma pod_fromString_back p : pod_ok 32 p -> pod_fromString (c_string (podToHex p)) = Some p.
Proof. intros H. rewrite c_string_text by apply podToHex_text, H. by apply podFromHex_toHex. Qed.

Section members.
Context (j : JSON) (name : string).

Lemma pod_member_at p : getJsonValue j name = Some (pod_toJSON p) -> pod_ok 32 p -> pod_member j name = Some p.
Proof. intros E H. unfold pod_member, getStringFromJSON. rewrite E. by apply pod_fromString_back. Qed.

Lemma uint64_member_at z : getJsonValue j name = Some (JNumber z) -> fits 64 z -> getUint64FromJSON j name = Some z.
Proof.
  intros E H. unfold getUint64FromJSON. rewrite E. cbn [mbind option_bind]. words.
  by rewrite (proj2 (Z.leb_le _ _) (proj1 H)), (proj2 (Z.ltb_lt _ _) (proj2 H)).
Qed.

Lemma int64_member_at z :
  getJsonValue j name = Some (JNumber z) -> - 2 ^ 63 <= z < 2 ^ 63 -> (fun a => s64 a) <$> getInt64FromJSON j name = Some z.
Proof.
  intros E H. unfold getInt64FromJSON. rewrite E. cbn [mbind option_bind].
  rewrite (proj2 (Z.leb_le _ _) (proj1 H)), (proj2 (Z.ltb_lt _ _) (proj2 H)). cbn [andb fmap option_fmap option_map].
  f_equal. words. wordlia.
Qed.

Lemma text_member_at s : getJsonValue j name = Some (JString s) -> text_ok s -> getStringFromJSON j name = Some s.
Proof. intros E H. unfold getStringFromJSON. rewrite E. cbn. by rewrite c_string_text. Qed.

Lemma bool_member_at b : getJsonValue j name = Some (JBool b) -> getBoolFromJSON j name = Some b.
Proof. intros E. unfold getBoolFromJSON. by rewrite E. Qed.

Lemma array_member_at l : getJsonValue j name = Some (JArray l) -> getArrayFromJSON j name = Some l.
Proof. intros E. unfold getArrayFromJSON. by rewrite E. Qed.
End members.

(** An array that is written element by element is read element by element. *)
Lemma mapM_written {A B} (to : A -> JSON) (from : JSON -> option B) (back : A -> B) (P : A -> Prop) l :
  (forall x, P x -> from (to x) = Some (back x)) -> Forall P l -> mapM from (to <$> l) = Some (back <$> l).
Proof. intros H. induction 1 as [|x l Hx _ IH]; [done|]. cbn. rewrite (H x Hx). cbn. by rewrite IH. Qed.

(** A member that a [fromJSON] reads. *)
Ltac read_member :=
  first
    [ erewrite pod_member_at by (first [reflexivity | eassumption])
    | erewrite uint64_member_at by (first [reflexivity | eassumption])
    | erewrite text_member_at by (first [reflexivity | eassumption])
    | erewrite bool_member_at by reflexivity
    | erewrite array_member_at by reflexivity ];
  cbn [mbind option_bind].

Lemma TransactionInput_back i : input_ok i -> TransactionInput_fromJSON (TransactionInput_toJSON i) = Some (input_back i).
Proof. intros []. unfold TransactionInput_fromJSON. by do 10 read_member. Qed.

Lemma UnconfirmedInput_back i : unconfirmed_ok i -> UnconfirmedInput_fromJSON (UnconfirmedInput_toJSON i) = Some i.
Proof. intros []. unfold UnconfirmedInput_fromJSON. do 3 read_member. by destruct i. Qed.

Lemma transfer_back p : pod_ok 32 p.1 /\ - 2 ^ 63 <= p.2 < 2 ^ 63 -> transfer_fromJSON (transfer_toJSON p) = Some p.
Proof.
  intros [Hk Ha]. unfold transfer_fromJSON. read_member.
  assert ((fun a => s64 a) <$> getInt64FromJSON (transfer_toJSON p) "amount" = Some p.2) as E by by apply int64_member_at.
  destruct (getInt64FromJSON _ _); cbn in *; [|done]. apply (inj Some) in E as ->. by destruct p.
Qed.

Lemma tx_key_back p : pod_ok 32 p.1 /\ pod_ok 32 p.2 -> tx_key_fromJSON (tx_key_toJSON p) = Some p.
Proof. intros [Hh Hk]. unfold tx_key_fromJSON. do 2 read_member. by destruct p. Qed.

Lemma insert_all_nodup {A} (l : list (list Z * A)) : NoDup l.*1 -> insert_all l = list_to_map l.
Proof.
  intros H. unfold insert_all.
  rewrite <- (fold_left_rev_right (fun p m => <[p.1 := p.2]> m)). symmetry.
  apply (list_to_map_proper l (rev l) H), Permutation_rev.
Qed.

Lemma insert_all_list {A} (m : gmap (list Z) A) : insert_all (map_to_list m) = m.
Proof. rewrite insert_all_nodup by apply NoDup_fst_map_to_list. apply list_to_map_to_list. Qed.

Lemma map_Forall_list {A} (P : list Z -> A -> Prop) (m : gmap (list Z) A) :
  map_Forall P m -> Forall (fun p => P p.1 p.2) (map_to_list m).
Proof. rewrite map_Forall_to_list. intros H. eapply Forall_impl; [exact H|]. by intros []. Qed.

Lemma Transaction_back t : transaction_ok t -> Transaction_fromJSON (Transaction_toJSON t) = Some t.
Proof.
  intros [Ht]. unfold Transaction_fromJSON. do 8 read_member.
  rewrite (mapM_written transfer_toJSON _ id _ _ transfer_back) by exact (map_Forall_list _ _ Ht).
  cbn [mbind option_bind]. rewrite list_fmap_id, insert_all_list. by destruct t.
Qed.

Lemma inputs_member_at j name l :
  getJsonValue j name = Some (JArray (TransactionInput_toJSON <$> l)) -> Forall input_ok l ->
  inputs_member j name = Some (input_back <$> l).
Proof.
  intros E H. unfold inputs_member. rewrite (array_member_at _ _ _ E). cbn [mbind option_bind].
  exact (mapM_written _ _ _ _ _ TransactionInput_back H).
Qed.

Lemma SubWallet_back w : wallet_ok w -> SubWallet_fromJSON (SubWallet_toJSON w) = Some (wallet_back w).
Proof.
  intros []. unfold SubWallet_fromJSON.
  do 10 first [read_member | erewrite inputs_member_at by (first [reflexivity | eassumption]); cbn [mbind option_bind]].
  by rewrite (mapM_written _ _ id _ _ UnconfirmedInput_back), list_fmap_id by done.
Qed.

Lemma wallets_back (m : gmap PublicKey SubWallet) :
  map_Forall (fun k w => m_publicSpendKey w = k) m ->
  insert_all ((fun w => (m_publicSpendKey w, w)) <$> (wallet_back <$> (map_to_list m).*2)) = wallet_back <$> m.
Proof.
  intros H. rewrite <- (insert_all_list (wallet_back <$> m)), map_to_list_fmap. f_equal.
  rewrite <- !list_fmap_compose. apply list_fmap_ext. intros i [k w] E.
  apply list_elem_of_lookup_2, elem_of_map_to_list, H in E. cbn. by rewrite <- E.
Qed.

Lemma keys_back l : Forall (pod_ok 32) l ->
  mapM (fun x => s ← getStringFromJSONString x; pod_fromString s) (pod_toJSON <$> l) = Some l.
Proof.
  intros H. rewrite (mapM_written pod_toJSON _ id (pod_ok 32)), list_fmap_id; [done| |done].
  intros p Hp. cbn. by apply pod_fromString_back.
Qed.

Lemma SubWallets_back s : values_ok s -> SubWallets_fromJSON (SubWallets_toJSON s) = Some (reloaded s).
Proof.
  intros [Hk Hw Ht Hl Hv Hx]. unfold SubWallets_fromJSON. do 7 read_member.
  rewrite keys_back by done. cbn [mbind option_bind].
  rewrite (mapM_written _ _ _ _ _ SubWallet_back).
  2: { apply Forall_fmap. eapply Forall_impl; [exact (map_Forall_list _ _ Hw)|]. by intros [k w] [_ ?]. }
  cbn [mbind option_bind]. rewrite (mapM_written _ _ id _ _ Transaction_back Ht). cbn [mbind option_bind].
  rewrite (mapM_written _ _ id _ _ Transaction_back Hl). cbn [mbind option_bind].
  rewrite (mapM_written _ _ id _ _ tx_key_back) by exact (map_Forall_list _ _ Hx). cbn [mbind option_bind].
  rewrite !list_fmap_id, insert_all_list, wallets_back; [done|].
  intros k w E. apply (Hw k w E).
Qed.

Lemma input_back_known i : is_Some (globalOutputIndex i) -> input_back i = i.
Proof. intros [g E]. unfold input_back. rewrite E. cbn. rewrite <- E. by destruct i. Qed.

Definition indices_known (w : SubWallet) : Prop :=
  Forall (fun i => is_Some (globalOutputIndex i)) (m_unspentInputs w ++ m_lockedInputs w ++ m_spentInputs w).

Lemma inputs_back_known l : Forall (fun i => is_Some (globalOutputIndex i)) l -> input_back <$> l = l.
Proof. induction 1 as [|i l Hi _ IH]; [done|]. cbn. by rewrite input_back_known, IH. Qed.

Lemma wallet_back_known w : indices_known w -> wallet_back w = w.
Proof.
  unfold indices_known, wallet_back. rewrite !Forall_app. intros (? & ? & ?).
  rewrite !inputs_back_known by done. by destruct w.
Qed.

(** a container that is written to the wallet file with
    [SubWallets::toJSON] is read back by [SubWallets::fromJSON] without an
    exception, with the sub wallets, the view key, the keys of the transactions and every
    confirmed transaction as they were.  It is the same container exactly where it has
    no transaction that waits for a block, and every input knows its global
    index. *)
Theorem wallet_file_roundtrip s :
  values_ok s ->
  SubWallets_fromJSON (SubWallets_toJSON s) = Some (reloaded s) /\
  (SubWallets_fromJSON (SubWallets_toJSON s) = Some s <->
   m_lockedTransactions s = [] /\ map_Forall (fun _ => indices_known) (m_subWallets s)).
Proof.
  intros H. rewrite (SubWallets_back s H). split; [done|]. split.
  - intros E. apply (inj Some) in E. split; [by rewrite <- E|].
    intros k w Hw. rewrite <- E in Hw. cbn in Hw. rewrite lookup_fmap in Hw.
    destruct (m_subWallets s !! k) as [v|]; [|done]. apply (inj Some) in Hw as <-.
    unfold indices_known. cbn. rewrite !Forall_app, !Forall_fmap.
    repeat split; apply Forall_true; intros i; by eexists.
  - intros [El Hw]. f_equal. unfold reloaded. rewrite El, app_nil_r.
    rewrite (map_fmap_ext _ id), map_fmap_id; [by destruct s; cbn in *; subst|].
    intros k w Hk. apply wallet_back_known, (Hw k w Hk).
Qed.

(** a wallet that is saved while a transaction it sent waits for a block
    reads that transaction back as a confirmed one: there is no transaction left to look for in
    the pool, and when the block comes, [addTransaction] throws, where without the
    saving it accepts the transaction. *)
Theorem saved_transaction_throws s pending tx :
  values_ok s -> m_isViewWallet s = false -> pending ∈ m_lockedTransactions s -> tx_hash tx = tx_hash pending ->
  tx_hash pending ∉ tx_hash <$> m_transactions s ->
  is_Some (addTransaction s tx) /\
  exists s', SubWallets_fromJSON (SubWallets_toJSON s) = Some s' /\
    getLockedTransactionsHashes s' = Some ∅ /\ addTransaction s' tx = None.
Proof.
  intros Hs Hv Hp E Hn. unfold addTransaction. rewrite E. split.
  - destruct (has_hash _ _) eqn:F; [by apply has_hash_spec in F|by eexists].
  - exists (reloaded s). rewrite (SubWallets_back s Hs). split; [done|]. split.
    { unfold getLockedTransactionsHashes, throwIfViewWallet. cbn [reloaded m_isViewWallet]. by rewrite Hv. }
    rewrite (proj2 (has_hash_spec _ _)); [done|]. cbn. rewrite fmap_app. apply elem_of_app. right.
    by apply list_elem_of_fmap_2.
Qed.

(** ** Witnesses *)

Definition saved_input : TransactionInput :=
  mkTransactionInput (replicate 32 1) 500 20 (replicate 32 2) 0 (Some 7) (replicate 32 3) 0 0 (replicate 32 4).

Definition saved_wallet : SubWallet :=
  mkSubWallet [saved_input] [] [] [] (replicate 32 17) (replicate 32 18) 0 0 (str "SEKReX") true.

Definition saved_transaction : WalletTransaction :=
  mkWalletTransaction {[ replicate 32 17 := -200 ]} (replicate 32 9) 10 0 0 [] 0 false.

Definition saved_container (locked : list WalletTransaction) : SubWallets :=
  mkSubWallets [replicate 32 17] {[ replicate 32 17 := saved_wallet ]} [] locked (replicate 32 5) false ∅.

Lemma pod_replicate b : 0 <= b < 256 -> pod_ok 32 (replicate 32 b).
Proof. intros H. split; [apply length_replicate|]. apply Forall_replicate. words. exact H. Qed.

Lemma saved_input_ok : input_ok saved_input.
Proof. split; cbn -[replicate]; try (apply pod_replicate; lia); words; lia. Qed.

Lemma saved_wallet_ok : wallet_ok saved_wallet.
Proof.
  split; cbn -[replicate str]; try (apply pod_replicate; lia); try (words; lia); try apply Forall_nil_2.
  - apply Forall_singleton, saved_input_ok.
  - apply (bool_decide_unpack _). vm_compute. exact I.
Qed.

Lemma saved_transaction_ok : transaction_ok saved_transaction.
Proof.
  split; cbn -[replicate]; try (apply pod_replicate; lia); try (words; lia); [|constructor].
  apply map_Forall_singleton. split; [apply pod_replicate; lia|lia].
Qed.

Lemma saved_container_ok locked : Forall transaction_ok locked -> values_ok (saved_container locked).
Proof.
  intros Hl. split; cbn -[replicate]; try (apply pod_replicate; lia).
  - apply Forall_singleton, pod_replicate. lia.
  - apply map_Forall_singleton. split; [done|apply saved_wallet_ok].
  - constructor.
  - exact Hl.
  - apply map_Forall_empty.
Qed.

Lemma wallet_file_roundtrip_witness :
  SubWallets_fromJSON (SubWallets_toJSON (saved_container [])) = Some (saved_container []).
Proof.
  apply (wallet_file_roundtrip (saved_container []) (saved_container_ok [] (Forall_nil_2 _))).
  split; [reflexivity|]. apply map_Forall_singleton. repeat constructor. by eexists.
Defined.

Lemma saved_transaction_throws_witness :
  exists s', SubWallets_fromJSON (SubWallets_toJSON (saved_container [saved_transaction])) = Some s' /\
    getLockedTransactionsHashes s' = Some ∅ /\ addTransaction s' saved_transaction = None.
Proof.
  apply (saved_transaction_throws (saved_container [saved_transaction]) saved_transaction saved_transaction);
    [apply saved_container_ok, Forall_singleton, saved_transaction_ok|reflexivity|left|reflexivity|apply not_elem_of_nil].
Defined.
