(* ===== verification/WalletSync.v ===== *)
(** * The synchroniser of the wallet

    src/src/wallet_backend/synchronization_status.cpp and wallet_synchronizer.cpp:
    the blocks that a daemon sends are searched for outputs of the container
    and for the key images it holds.  The daemon is an argument, a [Nigel] with
    its answers; so are the functions of the curve.  Threads, waiting and events are left
    out: a pass of [mainLoop] is one definition, with the number of blocks that are
    processed before the thread is asked to stop. *)

From stdpp Require Import gmap.
From S2P Require Import Prelude Bytes Types WalletBlocks Utilities WalletTypes SubWallet SubWallets WalletJson.
#[local] Open Scope Z_scope.

(** [Constants] *)
Definition LAST_KNOWN_BLOCK_HASHES_SIZE : nat := 100.
Definition BLOCK_HASH_CHECKPOINTS_INTERVAL : Z := 5000.
Definition GLOBAL_INDEXES_OBSCURITY : Z := 10.

(** [wallet_config::processCoinbaseTransactions] *)
Definition processCoinbaseTransactions : bool := true.

(** ** Known blocks *)

Record SynchronizationStatus := mkSynchronizationStatus {
  m_blockHashCheckpoints : list Hash;
  m_lastKnownBlockHashes : list Hash;
  m_lastKnownBlockHeight : Z }.

Definition getHeight (s : SynchronizationStatus) : Z := m_lastKnownBlockHeight s.

Definition storeBlockHash (s : SynchronizationStatus) (hash : Hash) (height : Z) : option SynchronizationStatus :=
  let last := m_lastKnownBlockHeight s in
  if (last <? height) && negb (last =? 0) && negb (height =? u64 (last + 1)) then None
  else
    let checkpoints :=
      if height mod BLOCK_HASH_CHECKPOINTS_INTERVAL =? 0 then hash :: m_blockHashCheckpoints s else m_blockHashCheckpoints s in
    let hashes := hash :: m_lastKnownBlockHashes s in
    let hashes := if (LAST_KNOWN_BLOCK_HASHES_SIZE <? length hashes)%nat then removelast hashes else hashes in
    Some (mkSynchronizationStatus checkpoints hashes height).

Definition getBlockHashCheckpoints (s : SynchronizationStatus) : list Hash :=
  m_lastKnownBlockHashes s ++ m_blockHashCheckpoints s.

(** ** The synchroniser and the daemon *)

(** The members; the container is shared with the wallet. *)
Record WalletSynchronizer := mkWalletSynchronizer {
  m_syncStatus : SynchronizationStatus;
  m_startTimestamp : Z;
  m_startHeight : Z;
  ws_privateViewKey : SecretKey;
  ws_subWallets : SubWallets }.

Definition with_status (ws : WalletSynchronizer) (status : SynchronizationStatus) : WalletSynchronizer :=
  mkWalletSynchronizer status (m_startTimestamp ws) (m_startHeight ws) (ws_privateViewKey ws) (ws_subWallets ws).

Definition with_container (ws : WalletSynchronizer) (s : SubWallets) : WalletSynchronizer :=
  mkWalletSynchronizer (m_syncStatus ws) (m_startTimestamp ws) (m_startHeight ws) (ws_privateViewKey ws) s.

Definition getCurrentScanHeight (ws : WalletSynchronizer) : Z := getHeight (m_syncStatus ws).

(** What [Nigel] answers; [None] is a request that failed. *)
Record Nigel := mkNigel {
  localDaemonBlockCount : Z;
  getWalletSyncData : list Hash -> Z -> Z -> option (list WalletBlockInfo);
  getGlobalIndexesForRange : Z -> Z -> option (gmap Hash (list Z));
  getTransactionsStatus : gset Hash -> option (gset Hash * gset Hash * gset Hash) }.

(** An empty answer stands for "nothing to do" too. *)
Definition downloadBlocks (daemon : Nigel) (ws : WalletSynchronizer) : list WalletBlockInfo * WalletSynchronizer :=
  if localDaemonBlockCount daemon <? getCurrentScanHeight ws then ([], ws)
  else
    let blockCheckpoints := getBlockHashCheckpoints (m_syncStatus ws) in
    match getWalletSyncData daemon blockCheckpoints (m_startHeight ws) (m_startTimestamp ws) with
    | None | Some [] => ([], ws)
    | Some (front :: rest) =>
        let ws :=
          if negb (m_startTimestamp ws =? 0)
          then mkWalletSynchronizer (m_syncStatus ws) 0 (wb_blockHeight front) (ws_privateViewKey ws)
                 (SubWallets_convertSyncTimestampToHeight (ws_subWallets ws) 0 (wb_blockHeight front))
          else ws in
        if bool_decide (blockCheckpoints = []) && (m_startTimestamp ws =? 0) &&
           negb (wb_blockHeight front =? m_startHeight ws)
        then ([], ws)
        else (front :: rest, ws)
    end.

(** ** Outputs of ours *)

Section Scan.
Context (generate_key_derivation : PublicKey -> SecretKey -> list Z)
  (underive_public_key : list Z -> Z -> PublicKey -> PublicKey)
  (derive_public_key : list Z -> Z -> PublicKey -> PublicKey)
  (derive_secret_key : list Z -> Z -> SecretKey -> SecretKey)
  (generate_key_image : PublicKey -> SecretKey -> list Z) (uninit : list Z).

(** The loop over the outputs. *)
Fixpoint scan_outputs (s : SubWallets) (rawTX : RawCoinbaseTransaction) (height : Z) (derivation : list Z)
    (outputIndex : Z) (outputs : list WalletKeyOutput) : option (list (PublicKey * TransactionInput)) :=
  match outputs with
  | [] => Some []
  | output :: outputs =>
      let derivedSpendKey := underive_public_key derivation outputIndex (ko_key output) in
      new ←
        (if bool_decide (derivedSpendKey ∈ m_publicSpendKeys s)
         then
           image ← SubWallets_getTxInputKeyImage derive_public_key derive_secret_key generate_key_image uninit s
             derivedSpendKey derivation outputIndex;
           Some [(derivedSpendKey,
             mkTransactionInput image (ko_amount output) height (rc_transactionPublicKey rawTX) outputIndex
               (ko_globalOutputIndex output) (ko_key output) 0 (rc_unlockTime rawTX) (rc_hash rawTX))]
         else Some []);
      inputs ← scan_outputs s rawTX height derivation (u64 (outputIndex + 1)) outputs;
      Some (new ++ inputs)
  end.

Definition processTransactionOutputs (ws : WalletSynchronizer) (rawTX : RawCoinbaseTransaction) (height : Z)
    : option (list (PublicKey * TransactionInput)) :=
  scan_outputs (ws_subWallets ws) rawTX height
    (generate_key_derivation (rc_transactionPublicKey rawTX) (ws_privateViewKey ws)) 0 (rc_keyOutputs rawTX).

Definition processBlockOutputs (ws : WalletSynchronizer) (block : WalletBlockInfo)
    : option (list (PublicKey * TransactionInput)) :=
  coinbase ← (if processCoinbaseTransactions
              then processTransactionOutputs ws (wb_coinbaseTransaction block) (wb_blockHeight block)
              else Some []);
  others ← mapM (fun tx => processTransactionOutputs ws (rt_base tx) (wb_blockHeight block)) (wb_transactions block);
  Some (coinbase ++ concat others).

(** ** Blocks *)

Definition getGlobalIndexes (daemon : Nigel) (height : Z) : gmap Hash (list Z) :=
  let startHeight := getLowerBound height GLOBAL_INDEXES_OBSCURITY in
  let endHeight := getUpperBound height GLOBAL_INDEXES_OBSCURITY in
  default ∅ (getGlobalIndexesForRange daemon startHeight endHeight).

Definition with_globalOutputIndex (i : TransactionInput) (index : Z) : TransactionInput :=
  mkTransactionInput (keyImage i) (amount i) (blockHeight i) (transactionPublicKey i) (transactionIndex i)
    (Some index) (key i) (spendHeight i) (unlockTime i) (parentTransactionHash i).

(** The loop that fills in the global indices; it asks the daemon until it has
    an answer that is not empty, and [None] is the early return. *)
Fixpoint fill_indexes (daemon : Nigel) (isViewWallet : bool) (height : Z) (globalIndexes : gmap Hash (list Z))
    (inputs : list (PublicKey * TransactionInput)) : option (list (PublicKey * TransactionInput)) :=
  match inputs with
  | [] => Some []
  | (publicKey, i) :: inputs =>
      if negb isViewWallet && bool_decide (globalOutputIndex i = None)
      then
        let globalIndexes := if decide (globalIndexes = ∅) then getGlobalIndexes daemon height else globalIndexes in
        indexes ← globalIndexes !! parentTransactionHash i;
        index ← indexes !! Z.to_nat (transactionIndex i);
        rest ← fill_indexes daemon isViewWallet height globalIndexes inputs;
        Some ((publicKey, with_globalOutputIndex i index) :: rest)
      else
        rest ← fill_indexes daemon isViewWallet height globalIndexes inputs;
        Some ((publicKey, i) :: rest)
  end.

(** [transfers[publicSpendKey] += amount], a signed number of 64 bits. *)
Definition add_transfer (transfers : gmap PublicKey Z) (publicSpendKey : PublicKey) (amount : Z) : gmap PublicKey Z :=
  <[publicSpendKey := s64 (default 0 (transfers !! publicSpendKey) + amount)]> transfers.

Definition received_transfers (hash : Hash) (inputs : list (PublicKey * TransactionInput)) : gmap PublicKey Z :=
  fold_left (fun transfers p => add_transfer transfers p.1 (amount p.2))
    (filter (fun p => parentTransactionHash p.2 = hash) inputs) ∅.

Definition processCoinbaseTransaction (block : WalletBlockInfo) (inputs : list (PublicKey * TransactionInput))
    : option WalletTransaction :=
  let tx := wb_coinbaseTransaction block in
  let transfers := received_transfers (rc_hash tx) inputs in
  if decide (transfers = ∅) then None
  else Some (mkWalletTransaction transfers (rc_hash tx) 0 (wb_blockTimestamp block) (wb_blockHeight block) []
               (rc_unlockTime tx) true).

(** The loop over the key inputs: those that one of our sub wallets owns. *)
Definition owned_inputs (s : SubWallets) (keyInputs : list (Z * list Z * KeyImage)) : list (PublicKey * (Z * KeyImage)) :=
  omap (fun k => let '(a, _, image) := k in owner ← getKeyImageOwner s image; Some (owner, (a, image))) keyInputs.

Definition transaction_fee (tx : RawTransaction) : Z :=
  let fee := fold_left (fun fee k => u64 (fee + k.1.1)) (rt_keyInputs tx) 0 in
  fold_left (fun fee o => u64 (fee - ko_amount o)) (rc_keyOutputs (rt_base tx)) fee.

Definition processTransaction (s : SubWallets) (block : WalletBlockInfo) (inputs : list (PublicKey * TransactionInput))
    (tx : RawTransaction) : option WalletTransaction * list (PublicKey * KeyImage) :=
  let hash := rc_hash (rt_base tx) in
  let spent := owned_inputs s (rt_keyInputs tx) in
  let transfers := fold_left (fun transfers p => add_transfer transfers p.1 (- p.2.1)) spent (received_transfers hash inputs) in
  if decide (transfers = ∅) then (None, [])
  else
    (Some (mkWalletTransaction transfers hash (transaction_fee tx) (wb_blockTimestamp block) (wb_blockHeight block)
             (rt_paymentID tx) (rc_unlockTime (rt_base tx)) false),
     (fun p => (p.1, p.2.2)) <$> spent).

Record BlockScanTmpInfo := mkBlockScanTmpInfo {
  transactionsToAdd : list WalletTransaction;
  inputsToAdd : list (PublicKey * TransactionInput);
  keyImagesToMarkSpent : list (PublicKey * KeyImage) }.

Definition processBlockTransactions (s : SubWallets) (block : WalletBlockInfo) (inputs : list (PublicKey * TransactionInput))
    : BlockScanTmpInfo :=
  let coinbase := if processCoinbaseTransactions then option_list (processCoinbaseTransaction block inputs) else [] in
  let others := processTransaction s block inputs <$> wb_transactions block in
  mkBlockScanTmpInfo (coinbase ++ omap fst others) inputs
    (concat ((fun r => if decide (r.1 = None) then [] else r.2) <$> others)).

(** The three loops that bring the results into the container. *)
Definition store_scan (s : SubWallets) (info : BlockScanTmpInfo) (height : Z) : option SubWallets :=
  s ← foldl (fun s tx => s ← s; addTransaction s tx) (Some s) (transactionsToAdd info);
  s ← foldl (fun s p => s ← s; SubWallets_storeTransactionInput s p.1 p.2) (Some s) (inputsToAdd info);
  foldl (fun s p => s ← s; SubWallets_markInputAsSpent s p.2 p.1 height) (Some s) (keyImagesToMarkSpent info).

Definition processBlock (daemon : Nigel) (ws : WalletSynchronizer) (block : WalletBlockInfo) : option WalletSynchronizer :=
  let height := wb_blockHeight block in
  let ws :=
    if height <=? getHeight (m_syncStatus ws) then with_container ws (removeForkedTransactions (ws_subWallets ws) height)
    else ws in
  ourInputs ← processBlockOutputs ws block;
  match fill_indexes daemon (m_isViewWallet (ws_subWallets ws)) height ∅ ourInputs with
  | None => Some ws
  | Some ourInputs =>
      s ← store_scan (ws_subWallets ws) (processBlockTransactions (ws_subWallets ws) block ourInputs) height;
      status ← storeBlockHash (m_syncStatus ws) (wb_blockHash block) height;
      Some (with_status (with_container ws s) status)
  end.

Definition process_blocks (daemon : Nigel) (ws : WalletSynchronizer) (blocks : list WalletBlockInfo) : option WalletSynchronizer :=
  foldl (fun ws block => ws ← ws; processBlock daemon ws block) (Some ws) blocks.

(** ** Transactions that wait *)

Definition checkLockedTransactions (daemon : Nigel) (s : SubWallets) : option SubWallets :=
  lockedTxHashes ← getLockedTransactionsHashes s;
  if decide (lockedTxHashes = ∅) then Some s
  else
    match getTransactionsStatus daemon lockedTxHashes with
    | None => Some s
    | Some (_, _, cancelledTransactions) =>
        if decide (cancelledTransactions = ∅) then Some s
        else SubWallets_removeCancelledTransactions s cancelledTransactions
    end.

Definition WalletSynchronizer_reset (ws : WalletSynchronizer) (startHeight : Z) : WalletSynchronizer :=
  mkWalletSynchronizer (mkSynchronizationStatus [] [] 0) 0 startHeight (ws_privateViewKey ws) (ws_subWallets ws).

(** ** A pass of [mainLoop] *)

(** [stop] is the number of blocks after which the thread is asked to stop. *)
Definition mainLoop_pass (daemon : Nigel) (ws : WalletSynchronizer) (stop : option nat) : option WalletSynchronizer :=
  let '(blocks, ws) := downloadBlocks daemon ws in
  match stop with
  | Some n => process_blocks daemon ws (take n blocks)
  | None =>
      if bool_decide (blocks = [])
      then
        if (localDaemonBlockCount daemon <=? getCurrentScanHeight ws) && negb (m_isViewWallet (ws_subWallets ws))
        then s ← checkLockedTransactions daemon (ws_subWallets ws); Some (with_container ws s)
        else Some ws
      else process_blocks daemon ws blocks
  end.

End Scan.
