(* ===== verification/WalletSyncFacts.v ===== *)
(** * What the synchroniser keeps

    Lemmas about WalletSync.v: the relation [scanned] between a container and the
    outputs and key images of the blocks it has seen, and its preservation by
    the operations that store and spend inputs. *)

From stdpp Require Import gmap.
From S2P Require Import Prelude Bytes Types WalletBlocks Utilities WalletTypes SubWallet SubWallets WalletFacts WalletSync.
#[local] Open Scope Z_scope.

(** ** What a chain gives to a sub wallet *)

(** The outputs received so far, with the key of their owner; the key images
    spent so far, with the height. *)
Notation outputs := (list (PublicKey * TransactionInput)).
Notation spends := (gmap (list Z) Z).

Definition image_of (p : PublicKey * TransactionInput) : list Z := keyImage p.2.

Definition unspent_of (k : PublicKey) (R : outputs) (Sp : spends) : list TransactionInput :=
  omap (fun p => if decide (p.1 = k /\ Sp !! image_of p = None) then Some p.2 else None) R.

Definition spent_of (k : PublicKey) (R : outputs) (Sp : spends) : list TransactionInput :=
  omap (fun p => if decide (p.1 = k) then with_spendHeight p.2 <$> Sp !! image_of p else None) R.

Definition spend_all (Sp : spends) (images : list (list Z)) (height : Z) : spends :=
  foldl (fun Sp image => <[image := height]> Sp) Sp images.

(** The container holds the outputs received and not spent, unspent or
    locked, and those that were spent, with the height. *)
Record scanned (s : SubWallets) (R : outputs) (Sp : spends) (hashes : list Hash) : Prop := {
  sc_ok : container_ok s;
  sc_full : m_isViewWallet s = false;
  sc_unspent k w : m_subWallets s !! k = Some w -> m_unspentInputs w ++ m_lockedInputs w ≡ₚ unspent_of k R Sp;
  sc_spent k w : m_subWallets s !! k = Some w -> m_spentInputs w ≡ₚ spent_of k R Sp;
  sc_owner p : p ∈ R -> p.1 ∈ m_publicSpendKeys s;
  sc_height p : p ∈ R -> spendHeight p.2 = 0;
  sc_images : NoDup (image_of <$> R);
  sc_hashes h : h ∈ tx_hash <$> m_transactions s -> h ∈ hashes }.

Lemma unspent_of_fresh k R Sp image h :
  image ∉ image_of <$> R -> unspent_of k R (<[image := h]> Sp) = unspent_of k R Sp.
Proof.
  unfold unspent_of. induction R as [|p R IH]; [done|]. rewrite fmap_cons, not_elem_of_cons. intros [Hp HR].
  cbn [omap list_omap]. rewrite lookup_insert_ne by done. by rewrite (IH HR).
Qed.

Lemma spent_of_fresh k R Sp image h :
  image ∉ image_of <$> R -> spent_of k R (<[image := h]> Sp) = spent_of k R Sp.
Proof.
  unfold spent_of. induction R as [|p R IH]; [done|]. rewrite fmap_cons, not_elem_of_cons. intros [Hp HR].
  cbn [omap list_omap]. rewrite lookup_insert_ne by done. by rewrite (IH HR).
Qed.

Lemma NoDup_image_inj (R : outputs) p p' :
  NoDup (image_of <$> R) -> p ∈ R -> p' ∈ R -> image_of p = image_of p' -> p = p'.
Proof.
  intros Hn (a & Ha)%list_elem_of_lookup_1 (b & Hb)%list_elem_of_lookup_1 E.
  assert (a = b) as <-; [|congruence].
  eapply NoDup_lookup; [exact Hn|rewrite list_lookup_fmap, Ha; reflexivity|rewrite list_lookup_fmap, Hb, E; reflexivity].
Qed.

Lemma unspent_of_app k R R' Sp : unspent_of k (R ++ R') Sp = unspent_of k R Sp ++ unspent_of k R' Sp.
Proof. apply omap_app. Qed.

Lemma spent_of_app k R R' Sp : spent_of k (R ++ R') Sp = spent_of k R Sp ++ spent_of k R' Sp.
Proof. apply omap_app. Qed.

Lemma elem_of_unspent k R Sp i : i ∈ unspent_of k R Sp <-> (k, i) ∈ R /\ Sp !! keyImage i = None.
Proof.
  unfold unspent_of. rewrite list_elem_of_omap. split.
  - intros ([k' i'] & Hin & E). case_decide as Hd; [|done]. destruct Hd as [Ek En]. cbn in *. simplify_eq. done.
  - intros [Hin Hn]. exists (k, i). split; [done|]. by rewrite decide_True.
Qed.

Lemma elem_of_spent k R Sp i : i ∈ spent_of k R Sp -> exists i0, (k, i0) ∈ R /\ keyImage i0 = keyImage i.
Proof.
  unfold spent_of. rewrite list_elem_of_omap. intros ([k' i'] & Hin & E). case_decide as Hd; [|done]. cbn in *. subst k'.
  apply fmap_Some in E as (h & _ & ->). by exists i'.
Qed.

(** One output that is spent goes from the one list to the other. *)
Lemma spend_one k i R Sp h k' :
  (k, i) ∈ R -> NoDup (image_of <$> R) -> Sp !! keyImage i = None ->
  unspent_of k' R Sp ≡ₚ (if decide (k' = k) then [i] else []) ++ unspent_of k' R (<[keyImage i := h]> Sp) /\
  spent_of k' R (<[keyImage i := h]> Sp) ≡ₚ (if decide (k' = k) then [with_spendHeight i h] else []) ++ spent_of k' R Sp.
Proof.
  intros (R1 & R2 & ->)%list_elem_of_split Hn Hs. rewrite fmap_app, fmap_cons in Hn.
  apply NoDup_app in Hn as (_ & H1 & [H2 _]%NoDup_cons).
  assert (keyImage i ∉ image_of <$> R1) as H1' by (intros Hin; apply (H1 _ Hin); left).
  rewrite !unspent_of_app, !spent_of_app, !(unspent_of_fresh _ R1), !(spent_of_fresh _ R1) by done.
  change (unspent_of k' ((k, i) :: R2)) with (fun Sp => unspent_of k' ([(k, i)] ++ R2) Sp).
  change (spent_of k' ((k, i) :: R2)) with (fun Sp => spent_of k' ([(k, i)] ++ R2) Sp). cbn beta.
  rewrite !unspent_of_app, !spent_of_app, !(unspent_of_fresh _ R2), !(spent_of_fresh _ R2) by done.
  unfold unspent_of, spent_of, image_of. cbn [omap list_omap fst snd]. rewrite !lookup_insert_eq, Hs.
  split; repeat case_decide; try naive_solver; cbn; by rewrite <- ?Permutation_middle.
Qed.

(** ** Operations on a container *)

Section Kept.
Context (R : outputs) (Sp : spends) (hashes : list Hash).

Lemma scanned_image s k w image :
  scanned s R Sp hashes -> m_subWallets s !! k = Some w -> image ∈ key_images w -> image ∈ image_of <$> R.
Proof.
  intros H Hw. unfold key_images, wallet_inputs. intros (i & -> & Hi)%list_elem_of_fmap_1.
  assert (exists i0, (k, i0) ∈ R /\ keyImage i0 = keyImage i) as (i0 & Hi0 & <-).
  { rewrite app_assoc in Hi. apply elem_of_app in Hi as [Hi|Hi].
    - rewrite (sc_unspent _ _ _ _ H k w Hw) in Hi. apply elem_of_unspent in Hi as [? _]. by exists i.
    - rewrite (sc_spent _ _ _ _ H k w Hw) in Hi. by eapply elem_of_spent. }
  by apply (list_elem_of_fmap_2 image_of _ (k, i0)).
Qed.

Lemma scanned_wallet s p : scanned s R Sp hashes -> p ∈ R -> exists w, m_subWallets s !! p.1 = Some w.
Proof. intros H Hp. apply (keys_stored _ (sc_ok _ _ _ _ H)). by eapply sc_owner. Qed.

(** The owner of a key image is the sub wallet that received the output, as
    long as it is not spent. *)
Lemma scanned_owner s image k : scanned s R Sp hashes ->
  getKeyImageOwner s image = Some k <-> Sp !! image = None /\ exists i, (k, i) ∈ R /\ keyImage i = image.
Proof.
  intros H. assert (forall w k', m_subWallets s !! k' = Some w ->
    (hasKeyImage w image = true <-> Sp !! image = None /\ exists i, (k', i) ∈ R /\ keyImage i = image)) as Hhas.
  { intros w k' Hw. unfold hasKeyImage. rewrite orb_true_iff, !has_key_image_spec, <- elem_of_app, <- fmap_app.
    rewrite (sc_unspent _ _ _ _ H k' w Hw), list_elem_of_fmap. setoid_rewrite elem_of_unspent. naive_solver. }
  unfold getKeyImageOwner. rewrite (sc_full _ _ _ _ H). destruct (list_find _ _) as [[n [k' w]]|] eqn:E.
  - apply list_find_Some in E as (Hl & Hh & _). apply list_elem_of_lookup_2, elem_of_map_to_list in Hl.
    rewrite (keys_own _ (sc_ok _ _ _ _ H) k' w Hl). cbn in Hh. apply (Hhas w k' Hl) in Hh as (Hn & i & Hi & Ei).
    split; [intros [= <-]; by eauto|]. intros (_ & i' & Hi' & Ei'). f_equal.
    assert ((k', i) = (k, i')); [|by simplify_eq].
    eapply (NoDup_image_inj R); [by eapply sc_images|done..|]. unfold image_of. cbn. congruence.
  - split; [done|]. intros (Hn & i & Hi & Ei). destruct (scanned_wallet s (k, i) H Hi) as [w Hw].
    apply list_find_None in E. rewrite Forall_forall in E.
    exfalso. apply (E (k, w)); [by apply elem_of_map_to_list|]. apply (Hhas w k Hw). by eauto.
Qed.
End Kept.

(** One sub wallet replaced. *)
Lemma scanned_insert s R Sp hashes R' Sp' k w w' :
  scanned s R Sp hashes -> m_subWallets s !! k = Some w ->
  container_ok (with_wallets s (<[k := w']> (m_subWallets s))) ->
  m_unspentInputs w' ++ m_lockedInputs w' ≡ₚ unspent_of k R' Sp' -> m_spentInputs w' ≡ₚ spent_of k R' Sp' ->
  (forall k', k' <> k -> unspent_of k' R Sp ≡ₚ unspent_of k' R' Sp' /\ spent_of k' R Sp ≡ₚ spent_of k' R' Sp') ->
  (forall p, p ∈ R' -> p ∈ R \/ p.1 = k /\ spendHeight p.2 = 0) -> NoDup (image_of <$> R') ->
  scanned (with_wallets s (<[k := w']> (m_subWallets s))) R' Sp' hashes.
Proof.
  intros H Hw Hok Hu Hs Hother HR Hn. pose proof H as [H1 H2 H3 H4 H5 H6 H7 H8].
  split; try done; cbn [with_wallets m_subWallets m_publicSpendKeys m_transactions].
  - intros k' x. rewrite lookup_insert_Some. intros [[<- <-]|[Hne Hx]]; [done|].
    rewrite (H3 k' x Hx). by apply Hother.
  - intros k' x. rewrite lookup_insert_Some. intros [[<- <-]|[Hne Hx]]; [done|].
    rewrite (H4 k' x Hx). by apply Hother.
  - intros p [Hp|[-> _]]%HR; [by apply H5|]. apply (keys_stored _ H1). by eexists.
  - intros p [Hp|[_ ?]]%HR; [by apply H6|done].
Qed.

Lemma store_scanned s R Sp hashes k i :
  scanned s R Sp hashes -> k ∈ m_publicSpendKeys s -> spendHeight i = 0 ->
  keyImage i ∉ image_of <$> R -> Sp !! keyImage i = None ->
  exists s', SubWallets_storeTransactionInput s k i = Some s' /\ scanned s' (R ++ [(k, i)]) Sp hashes /\
    m_publicSpendKeys s' = m_publicSpendKeys s /\ m_transactions s' = m_transactions s.
Proof.
  intros H Hk Hz Hf Hs. destruct (proj1 (keys_stored _ (sc_ok _ _ _ _ H) k) Hk) as [w Hw].
  assert (SubWallets_storeTransactionInput s k i =
    Some (with_wallets s (<[k := storeTransactionInput w i (m_isViewWallet s)]> (m_subWallets s)))) as E.
  { unfold SubWallets_storeTransactionInput, at_wallet. by rewrite Hw. }
  eexists. split; [exact E|]. split; [|done]. eapply (scanned_insert s R Sp hashes); [done|exact Hw|..].
  - eapply store_input_ok; [by eapply sc_ok| |exact E]. intros _ k' w' Hw' Hin. by eapply Hf, scanned_image.
  - cbn. rewrite unspent_of_app. cbn. rewrite decide_True by done.
    rewrite <- (sc_unspent _ _ _ _ H k w Hw), <- !app_assoc. by rewrite (Permutation_app_comm [i]).
  - cbn. rewrite spent_of_app. cbn. rewrite decide_True by done. unfold image_of. cbn. rewrite Hs. cbn.
    rewrite app_nil_r. by eapply sc_spent.
  - intros k' Hne. rewrite unspent_of_app, spent_of_app. cbn. rewrite !decide_False by naive_solver. by rewrite !app_nil_r.
  - intros p [Hp| ->%list_elem_of_singleton]%elem_of_app; [by left|by right].
  - rewrite fmap_app. apply NoDup_app. split; [by eapply sc_images|]. split; [|apply NoDup_singleton].
    by intros x Hx ->%list_elem_of_singleton.
Qed.

(** What [take_key_image] takes out of the outputs that are not spent. *)
Lemma take_unspent s R Sp hashes k w i j rest l :
  scanned s R Sp hashes -> m_subWallets s !! k = Some w -> (k, i) ∈ R ->
  take_key_image (keyImage i) l = Some (j, rest) -> l ⊆+ m_unspentInputs w ++ m_lockedInputs w ->
  j = i /\ l ≡ₚ i :: rest.
Proof.
  intros H Hw Hi E Hl. apply take_key_image_Some in E as (Ej & Hp).
  assert (j = i) as ->; [|done].
  assert ((k, j) ∈ R) as Hj.
  { apply (elem_of_unspent k R Sp). rewrite <- (sc_unspent _ _ _ _ H k w Hw). eapply elem_of_submseteq; [|exact Hl].
    rewrite Hp. left. }
  assert ((k, j) = (k, i)); [|by simplify_eq].
  eapply NoDup_image_inj; [by eapply sc_images|done..].
Qed.

(** The input that [markInputAsSpent] moves to the spent ones. *)
Lemma mark_wallet s R Sp hashes k w i h :
  scanned s R Sp hashes -> m_subWallets s !! k = Some w -> (k, i) ∈ R -> Sp !! keyImage i = None ->
  exists w', markInputAsSpent w (keyImage i) h = Some w' /\
    m_unspentInputs w ++ m_lockedInputs w ≡ₚ i :: (m_unspentInputs w' ++ m_lockedInputs w') /\
    m_spentInputs w' = m_spentInputs w ++ [with_spendHeight i h].
Proof.
  intros H Hw Hi Hs. unfold markInputAsSpent.
  destruct (take_key_image _ (m_unspentInputs w)) as [[j rest]|] eqn:E.
  { eapply (take_unspent s R Sp hashes k w i) in E as [-> Hp]; try done; [|by apply submseteq_inserts_r].
    eexists. split; [done|]. cbn. by rewrite Hp. }
  destruct (take_key_image _ (m_lockedInputs w)) as [[j rest]|] eqn:E'.
  { eapply (take_unspent s R Sp hashes k w i) in E' as [-> Hp]; try done; [|by apply submseteq_inserts_l].
    eexists. split; [done|]. cbn. rewrite Hp. by rewrite <- Permutation_middle. }
  apply take_key_image_None in E, E'. exfalso.
  assert (i ∈ m_unspentInputs w ++ m_lockedInputs w) as [Hin|Hin]%elem_of_app
    by (rewrite (sc_unspent _ _ _ _ H k w Hw); by apply elem_of_unspent).
  - by apply E, list_elem_of_fmap_2.
  - by apply E', list_elem_of_fmap_2.
Qed.

Lemma mark_scanned s R Sp hashes k i h :
  scanned s R Sp hashes -> (k, i) ∈ R -> Sp !! keyImage i = None ->
  exists s', SubWallets_markInputAsSpent s (keyImage i) k h = Some s' /\ scanned s' R (<[keyImage i := h]> Sp) hashes.
Proof.
  intros H Hi Hs. destruct (scanned_wallet _ _ _ s (k, i) H Hi) as [w Hw]. cbn in Hw.
  destruct (mark_wallet s R Sp hashes k w i h H Hw Hi Hs) as (w' & Em & Hu & Hsp).
  assert (SubWallets_markInputAsSpent s (keyImage i) k h = Some (with_wallets s (<[k := w']> (m_subWallets s)))) as E.
  { unfold SubWallets_markInputAsSpent, throwIfViewWallet, at_wallet. rewrite (sc_full _ _ _ _ H), Hw. cbn. by rewrite Em. }
  eexists. split; [exact E|].
  pose proof (fun k' => spend_one k i R Sp h k' Hi (sc_images _ _ _ _ H) Hs) as Hone.
  eapply (scanned_insert s R Sp hashes); [done|exact Hw|..].
  - unfold SubWallets_markInputAsSpent, throwIfViewWallet in E. rewrite (sc_full _ _ _ _ H) in E.
    eapply at_wallet_ok; [by eapply sc_ok| |exact E]. intros x x'. apply markInputAsSpent_kept.
  - apply (Permutation_cons_inv (a := i)). rewrite <- Hu, (sc_unspent _ _ _ _ H k w Hw), (proj1 (Hone k)).
    by rewrite decide_True.
  - rewrite Hsp, (proj2 (Hone k)), decide_True by done. rewrite (sc_spent _ _ _ _ H k w Hw).
    by rewrite (Permutation_app_comm _ [with_spendHeight i h]).
  - intros k' Hne. destruct (Hone k') as [-> ->]. by rewrite !decide_False.
  - by left.
  - by eapply sc_images.
Qed.

(** A key image that none of the sub wallets has. *)
Lemma foreign_scanned s R Sp hashes image h :
  scanned s R Sp hashes -> image ∉ image_of <$> R -> scanned s R (<[image := h]> Sp) hashes.
Proof.
  intros [H1 H2 H3 H4 H5 H6 H7 H8] Hf. split; try done; intros k w Hw; rewrite ?unspent_of_fresh, ?spent_of_fresh by done; auto.
Qed.

Lemma mark_all s R Sp hashes h images (owner : list Z -> option PublicKey) :
  scanned s R Sp hashes -> NoDup images -> (forall image, image ∈ images -> Sp !! image = None) ->
  (forall image k, image ∈ images -> owner image = Some k <-> exists i, (k, i) ∈ R /\ keyImage i = image) ->
  exists s',
    foldl (fun s p => s ← s; SubWallets_markInputAsSpent s p.2 p.1 h) (Some s)
      (omap (fun image => k ← owner image; Some (k, image)) images) = Some s' /\
    scanned s' R (spend_all Sp images h) hashes.
Proof.
  revert s Sp. induction images as [|image images IH]; intros s Sp H Hn Hs Ho; [by exists s|].
  apply NoDup_cons in Hn as [Hi Hn]. cbn [omap list_omap spend_all foldl].
  assert (forall s', scanned s' R (<[image := h]> Sp) hashes -> exists s'',
    foldl (fun s p => s ← s; SubWallets_markInputAsSpent s p.2 p.1 h) (Some s')
      (omap (fun image => k ← owner image; Some (k, image)) images) = Some s'' /\
    scanned s'' R (spend_all (<[image := h]> Sp) images h) hashes) as IH'.
  { intros s' H'. apply IH; [done|done| |].
    - intros x Hx. rewrite lookup_insert_ne by (intros ->; done). apply Hs. by right.
    - intros x k Hx. apply Ho. by right. }
  destruct (owner image) as [k|] eqn:Eo; cbn [mbind option_bind].
  - apply Ho in Eo as (i & Hik & <-); [|left].
    destruct (mark_scanned s R Sp hashes k i h H Hik (Hs _ (list_elem_of_here _ _))) as (s' & E & H').
    cbn [foldl mbind option_bind fst snd]. rewrite E. by apply IH'.
  - apply IH', foreign_scanned; [done|]. intros ([k i] & -> & Hki)%list_elem_of_fmap_1.
    rewrite (proj2 (Ho _ k (list_elem_of_here _ _))) in Eo; [done|]. by exists i.
Qed.

Lemma store_all s R Sp hashes new :
  scanned s R Sp hashes -> NoDup (image_of <$> (R ++ new)) ->
  (forall p, p ∈ new -> p.1 ∈ m_publicSpendKeys s /\ spendHeight p.2 = 0 /\ Sp !! image_of p = None) ->
  exists s', foldl (fun s p => s ← s; SubWallets_storeTransactionInput s p.1 p.2) (Some s) new = Some s' /\
    scanned s' (R ++ new) Sp hashes.
Proof.
  revert s R. induction new as [|[k i] new IH]; intros s R H Hn Hnew; [exists s; by rewrite app_nil_r|].
  destruct (Hnew (k, i) (list_elem_of_here _ _)) as (Hk & Hz & Hs).
  assert (keyImage i ∉ image_of <$> R) as Hf.
  { rewrite fmap_app in Hn. apply NoDup_app in Hn as (_ & Hd & _). intros Hin. apply (Hd _ Hin). left. }
  destruct (store_scanned s R Sp hashes k i H Hk Hz Hf Hs) as (s' & E & H' & Hkeys & _).
  cbn [foldl mbind option_bind fst snd]. rewrite E, cons_middle, app_assoc. apply IH; [done|by rewrite <- app_assoc|].
  intros p Hp. rewrite Hkeys. apply Hnew. by right.
Qed.

Lemma scanned_transactions s R Sp hashes hashes' txs locked :
  scanned s R Sp hashes -> NoDup (tx_hash <$> txs) -> NoDup (tx_hash <$> locked) ->
  (forall h, h ∈ tx_hash <$> txs -> h ∈ hashes') -> scanned (with_transactions s txs locked) R Sp hashes'.
Proof. intros [H1 H2 H3 H4 H5 H6 H7 H8] Ht Hl Hh. split; try done. by apply with_transactions_ok. Qed.

Lemma add_all s R Sp hashes txs :
  scanned s R Sp hashes -> NoDup (tx_hash <$> txs) -> (forall h, h ∈ tx_hash <$> txs -> h ∉ hashes) ->
  exists s', foldl (fun s tx => s ← s; addTransaction s tx) (Some s) txs = Some s' /\
    scanned s' R Sp (hashes ++ (tx_hash <$> txs)) /\ m_publicSpendKeys s' = m_publicSpendKeys s /\
    m_transactions s' = m_transactions s ++ txs.
Proof.
  revert s hashes. induction txs as [|tx txs IH]; intros s hashes H Hn Hf; [exists s; by rewrite !app_nil_r|].
  rewrite fmap_cons in Hn, Hf. apply NoDup_cons in Hn as [Hi Hn].
  assert (has_hash (tx_hash tx) (m_transactions s) = false) as Hh.
  { apply not_true_is_false. rewrite has_hash_spec. intros Hin%(sc_hashes _ _ _ _ H). apply (Hf (tx_hash tx)); [left|done]. }
  cbn [foldl mbind option_bind]. unfold addTransaction at 2. rewrite Hh.
  edestruct (IH (with_transactions s (m_transactions s ++ [tx]) (filter (fun t => tx_hash t <> tx_hash tx) (m_lockedTransactions s)))
    (hashes ++ [tx_hash tx])) as (s' & E & H' & Hk & Et).
  - eapply scanned_transactions; [exact H|apply has_hash_snoc, transactions_nodup, H; done|apply filter_hashes_nodup, locked_nodup, H|].
    intros h. rewrite fmap_app, !elem_of_app. intros [?%(sc_hashes _ _ _ _ H)|?]; auto.
  - done.
  - intros h Hin. rewrite not_elem_of_app, list_elem_of_singleton. split; [apply Hf; by right|by intros ->].
  - exists s'. split; [exact E|]. split; [by rewrite fmap_cons, cons_middle, app_assoc|]. split; [done|].
    rewrite Et. cbn. by rewrite <- app_assoc.
Qed.

(** ** Sending *)

Lemma lock_scanned s R Sp hashes image k s' :
  scanned s R Sp hashes -> SubWallets_markInputAsLocked s image k = Some s' -> scanned s' R Sp hashes.
Proof.
  intros H E. pose proof E as E0. unfold SubWallets_markInputAsLocked, throwIfViewWallet in E. rewrite (sc_full _ _ _ _ H) in E.
  cbn [mbind option_bind] in E. pose proof E as E1. unfold at_wallet in E.
  destruct (m_subWallets s !! k) as [w|] eqn:Hw; [|done]. cbn [mbind option_bind] in E.
  destruct (markInputAsLocked w image) as [w'|] eqn:El; [|done]. cbn [mbind option_bind] in E. apply (inj Some) in E as <-.
  eapply (scanned_insert s R Sp hashes); [done|exact Hw| | | |done|by left|by eapply sc_images].
  - eapply at_wallet_ok; [by eapply sc_ok| |exact E1]. intros x x'. apply markInputAsLocked_kept.
  - rewrite <- (sc_unspent _ _ _ _ H k w Hw). unfold markInputAsLocked in El.
    destruct (take_key_image image (m_unspentInputs w)) as [[i rest]|] eqn:Et; [|done]. cbn [mbind option_bind] in El.
    apply (inj Some) in El as <-. apply take_key_image_Some in Et as [_ ->]. cbn.
    rewrite app_assoc. by rewrite (Permutation_app_comm _ [i]).
  - rewrite <- (sc_spent _ _ _ _ H k w Hw). unfold markInputAsLocked in El.
    destruct (take_key_image image (m_unspentInputs w)) as [[i rest]|]; [|done]. by apply (inj Some) in El as <-.
Qed.

Lemma unconfirmed_scanned s R Sp hashes i k :
  scanned s R Sp hashes -> scanned (SubWallets_storeUnconfirmedIncomingInput s i k) R Sp hashes.
Proof.
  intros H. pose proof (store_unconfirmed_ok s i k (sc_ok _ _ _ _ H)) as Hok.
  unfold SubWallets_storeUnconfirmedIncomingInput in *. destruct (m_subWallets s !! k) as [w|] eqn:Hw; [|done].
  eapply (scanned_insert s R Sp hashes); [done|exact Hw|done|exact (sc_unspent _ _ _ _ H k w Hw)|exact (sc_spent _ _ _ _ H k w Hw)
    |done|by left|by eapply sc_images].
Qed.

Lemma pending_scanned s R Sp hashes tx s' :
  scanned s R Sp hashes -> addUnconfirmedTransaction s tx = Some s' -> scanned s' R Sp hashes.
Proof.
  intros H. unfold addUnconfirmedTransaction. destruct (has_hash _ _) eqn:Hh; [done|]. intros E. apply (inj Some) in E as <-.
  eapply scanned_transactions; [exact H|apply transactions_nodup, H|apply has_hash_snoc, locked_nodup, H; done|by eapply sc_hashes].
Qed.

Lemma spendHeight_zero i : spendHeight i = 0 -> with_spendHeight i 0 = i.
Proof. intros E. destruct i. cbn in *. by subst. Qed.

Lemma cancel_scanned s R Sp hashes cancelled s' :
  scanned s R Sp hashes -> SubWallets_removeCancelledTransactions s cancelled = Some s' -> scanned s' R Sp hashes.
Proof.
  intros H E. pose proof (cancelled_ok _ _ _ (sc_ok _ _ _ _ H) E) as Hok. pose proof H as [H1 H2 H3 H4 H5 H6 H7 H8].
  unfold SubWallets_removeCancelledTransactions, throwIfViewWallet in E. rewrite H2 in E. cbn [mbind option_bind] in E.
  apply (inj Some) in E as <-. split; try done; intros k w; cbn; rewrite lookup_fmap; intros (w0 & Hw & ->)%fmap_Some.
  - rewrite <- (H3 k w0 Hw). cbn. rewrite <- app_assoc. apply Permutation_app_head.
    assert ((fun i => with_spendHeight i 0) <$> filter (fun i => parentTransactionHash i ∈ cancelled) (m_lockedInputs w0) =
      filter (fun i => parentTransactionHash i ∈ cancelled) (m_lockedInputs w0)) as ->.
    { rewrite <- (list_fmap_id (filter _ (m_lockedInputs w0))) at 2. apply list_fmap_ext. intros n i Hi.
      apply list_elem_of_lookup_2, list_elem_of_filter in Hi as [_ Hi]. apply spendHeight_zero, (H6 (k, i)).
      apply (elem_of_unspent k R Sp). rewrite <- (H3 k w0 Hw). apply elem_of_app. by right. }
    by rewrite (filter_split_perm (fun i => parentTransactionHash i ∈ cancelled)).
  - exact (H4 k w0 Hw).
Qed.

Lemma check_scanned s R Sp hashes daemon :
  scanned s R Sp hashes -> exists s', checkLockedTransactions daemon s = Some s' /\ scanned s' R Sp hashes.
Proof.
  intros H. unfold checkLockedTransactions, getLockedTransactionsHashes, throwIfViewWallet. rewrite (sc_full _ _ _ _ H).
  cbn [mbind option_bind]. case_decide; [by exists s|].
  destruct (getTransactionsStatus _ _) as [[[p b] c]|]; [|by exists s]. case_decide; [by exists s|].
  assert (is_Some (SubWallets_removeCancelledTransactions s c)) as [s' E].
  { unfold SubWallets_removeCancelledTransactions, throwIfViewWallet. rewrite (sc_full _ _ _ _ H). by eexists. }
  exists s'. split; [exact E|]. by eapply cancel_scanned.
Qed.

(** ** Outputs of a block *)

Section Scan.
Context (generate_key_derivation : PublicKey -> SecretKey -> list Z)
  (underive_public_key : list Z -> Z -> PublicKey -> PublicKey)
  (derive_public_key : list Z -> Z -> PublicKey -> PublicKey)
  (derive_secret_key : list Z -> Z -> SecretKey -> SecretKey)
  (generate_key_image : PublicKey -> SecretKey -> list Z) (uninit : list Z).
Local Notation scan_outputs :=
  (scan_outputs underive_public_key derive_public_key derive_secret_key generate_key_image uninit).
Local Notation processBlockOutputs :=
  (processBlockOutputs generate_key_derivation underive_public_key derive_public_key derive_secret_key generate_key_image uninit).
Local Notation processTransactionOutputs :=
  (processTransactionOutputs generate_key_derivation underive_public_key derive_public_key derive_secret_key generate_key_image uninit).
Local Notation processBlock :=
  (processBlock generate_key_derivation underive_public_key derive_public_key derive_secret_key generate_key_image uninit).

(** The input that the output number [n] of a transaction gives to the sub wallet [w]. *)
Definition output_input (w : SubWallet) (isViewWallet : bool) (rawTX : RawCoinbaseTransaction) (height : Z)
    (derivation : list Z) (n : Z) (output : WalletKeyOutput) : TransactionInput :=
  mkTransactionInput
    (getTxInputKeyImage derive_public_key derive_secret_key generate_key_image uninit w derivation n isViewWallet)
    (ko_amount output) height (rc_transactionPublicKey rawTX) n (ko_globalOutputIndex output) (ko_key output) 0
    (rc_unlockTime rawTX) (rc_hash rawTX).

Lemma scan_outputs_spec s rawTX height derivation from l :
  container_ok s -> 0 <= from -> from + Z.of_nat (length l) < 2 ^ 64 ->
  exists inputs, scan_outputs s rawTX height derivation from l = Some inputs /\
    forall k i, (k, i) ∈ inputs <-> exists n output w, l !! n = Some output /\ m_subWallets s !! k = Some w /\
      underive_public_key derivation (from + Z.of_nat n) (ko_key output) = k /\
      i = output_input w (m_isViewWallet s) rawTX height derivation (from + Z.of_nat n) output.
Proof using Type.
  intros Hok. revert from. induction l as [|o l IH]; intros from Hf Hl.
  { exists []. split; [done|]. intros k i. split; [by intros ?%elem_of_nil|by intros (n & ? & ? & ? & _)]. }
  cbn [length] in Hl. destruct (IH (from + 1)) as (rest & E & Hrest); [lia..|].
  cbn [WalletSync.scan_outputs]. rewrite (wrap_small 64 (from + 1)) by (words; lia). rewrite E.
  set (k0 := underive_public_key derivation from (ko_key o)).
  assert (forall k i, (k, i) ∈ rest <-> exists n output w, l !! n = Some output /\ m_subWallets s !! k = Some w /\
      underive_public_key derivation (from + Z.of_nat (S n)) (ko_key output) = k /\
      i = output_input w (m_isViewWallet s) rawTX height derivation (from + Z.of_nat (S n)) output) as Hrest'.
  { intros k i. rewrite Hrest. do 3 (apply exist_proper; intros ?). rewrite Nat2Z.inj_succ. by replace (from + 1 + Z.of_nat x) with (from + Z.succ (Z.of_nat x)) by lia. }
  case_bool_decide as Hk.
  - destruct (proj1 (keys_stored _ Hok k0) Hk) as [w Hw]. unfold SubWallets_getTxInputKeyImage. rewrite Hw. cbn [mbind option_bind].
    eexists. split; [reflexivity|]. intros k i. cbn [app]. rewrite elem_of_cons, Hrest'. split.
    + intros [[= -> ->]|(n & out & w' & H)]; [exists 0%nat, o, w; rewrite Z.add_0_r; done|by exists (S n), out, w'].
    + intros ([|n] & out & w' & Ho & Hw' & Hu & Hi); [left|right; by exists n, out, w'].
      cbn in Ho. simplify_eq. rewrite Z.add_0_r in *. fold k0 in Hw'. rewrite Hw in Hw'. by simplify_eq.
  - cbn [mbind option_bind app]. eexists. split; [reflexivity|]. intros k i. rewrite Hrest'. split.
    + intros (n & out & w & H). by exists (S n), out, w.
    + intros ([|n] & out & w & Ho & Hw & Hu & Hi); [|by exists n, out, w].
      cbn in Ho. simplify_eq. exfalso. rewrite Z.add_0_r in Hw. apply Hk. apply (keys_stored _ Hok). by eexists.
Qed.

Lemma scan_outputs_own s rawTX height derivation from l inputs p :
  scan_outputs s rawTX height derivation from l = Some inputs -> p ∈ inputs ->
  p.1 ∈ m_publicSpendKeys s /\ spendHeight p.2 = 0 /\ parentTransactionHash p.2 = rc_hash rawTX.
Proof using Type.
  revert from inputs. induction l as [|o l IH]; intros from inputs; cbn [WalletSync.scan_outputs].
  { intros E. apply (inj Some) in E as <-. by intros ?%elem_of_nil. }
  case_bool_decide as Hk.
  - destruct (SubWallets_getTxInputKeyImage _ _ _ _ _ _ _ _); [|done]. cbn [mbind option_bind].
    destruct (scan_outputs _ _ _ _ _ _) as [rest|] eqn:Er; [|done]. cbn [mbind option_bind].
    intros E. apply (inj Some) in E as <-. cbn [app]. rewrite elem_of_cons. intros [->|Hp]; [done|by eapply IH].
  - cbn [mbind option_bind]. destruct (scan_outputs _ _ _ _ _ _) as [rest|] eqn:Er; [|done]. cbn [mbind option_bind].
    intros E. apply (inj Some) in E as <-. intros Hp. by eapply IH.
Qed.

Lemma block_outputs_own ws block raw p :
  processBlockOutputs ws block = Some raw -> p ∈ raw ->
  p.1 ∈ m_publicSpendKeys (ws_subWallets ws) /\ spendHeight p.2 = 0.
Proof using Type.
  unfold WalletSync.processBlockOutputs, processCoinbaseTransactions, WalletSync.processTransactionOutputs.
  destruct (scan_outputs _ _ _ _ _ _) as [c|] eqn:Ec; [|done]. cbn [mbind option_bind].
  destruct (mapM _ _) as [others|] eqn:Em; [|done]. cbn [mbind option_bind]. intros E. apply (inj Some) in E as <-.
  rewrite elem_of_app. intros [Hp|Hp].
  - destruct (scan_outputs_own _ _ _ _ _ _ _ _ Ec Hp) as (? & ? & _). done.
  - apply list_elem_of_In, in_concat in Hp as (l & Hl & Hp%list_elem_of_In). apply list_elem_of_In in Hl.
    apply mapM_Some_1 in Em. apply list_elem_of_lookup_1 in Hl as [n Hn].
    destruct (Forall2_lookup_r _ _ _ _ _ Em Hn) as (tx & _ & Et).
    destruct (scan_outputs_own _ _ _ _ _ _ _ _ Et Hp) as (? & ? & _). done.
Qed.

Lemma fill_indexes_keeps daemon view height indexes raw new :
  fill_indexes daemon view height indexes raw = Some new ->
  Forall2 (fun p q => q.1 = p.1 /\ image_of q = image_of p /\ spendHeight q.2 = spendHeight p.2 /\ amount q.2 = amount p.2) raw new.
Proof using Type.
  revert indexes new. induction raw as [|[k i] raw IH]; intros indexes new; cbn [fill_indexes].
  { intros E. apply (inj Some) in E as <-. constructor. }
  destruct (negb view && _).
  - destruct ((if decide (indexes = ∅) then _ else _) !! _) as [l|]; [|done]. cbn [mbind option_bind].
    destruct (l !! _) as [n|]; [|done]. cbn [mbind option_bind].
    destruct (fill_indexes _ _ _ _ _) as [rest|] eqn:E; [|done]. cbn [mbind option_bind].
    intros E'. apply (inj Some) in E' as <-. constructor; [done|by eapply IH].
  - destruct (fill_indexes _ _ _ _ _) as [rest|] eqn:E; [|done]. cbn [mbind option_bind].
    intros E'. apply (inj Some) in E' as <-. constructor; [done|by eapply IH].
Qed.

(** ** What a block sends to a container

    Seen from the sender: an output is for a spend key when its key is the one that is
    derived for that spend key, from what the transaction and the view key share and from
    its place in the transaction.  Nothing of the scan is in this. *)

Definition block_txs (block : WalletBlockInfo) : list RawCoinbaseTransaction :=
  wb_coinbaseTransaction block :: (rt_base <$> wb_transactions block).

Record Sent := mkSent {
  se_tx : RawCoinbaseTransaction;
  se_number : nat;
  se_output : WalletKeyOutput;
  se_key : PublicKey;
  se_secret : SecretKey }.

Section SentOutputs.
Context (viewKey : SecretKey) (s : SubWallets).

Definition shared (tx : RawCoinbaseTransaction) : list Z := generate_key_derivation (rc_transactionPublicKey tx) viewKey.

Definition sent_output (tx : RawCoinbaseTransaction) (n : nat) (output : WalletKeyOutput) (k : PublicKey) : option Sent :=
  w ← m_subWallets s !! k;
  if decide (derive_public_key (shared tx) (Z.of_nat n) k = ko_key output)
  then Some (mkSent tx n output k (m_privateSpendKey w)) else None.

Definition sent_by (tx : RawCoinbaseTransaction) : list Sent :=
  concat (imap (fun n output => omap (sent_output tx n output) (m_publicSpendKeys s)) (rc_keyOutputs tx)).

Definition sent_in (block : WalletBlockInfo) : list Sent := concat (sent_by <$> block_txs block).

(** The input that the wallet should have for it, with a given global index. *)
Definition sent_input (height : Z) (index : Sent -> option Z) (e : Sent) : PublicKey * TransactionInput :=
  (se_key e,
   mkTransactionInput
     (generate_key_image (ko_key (se_output e)) (derive_secret_key (shared (se_tx e)) (Z.of_nat (se_number e)) (se_secret e)))
     (ko_amount (se_output e)) height (rc_transactionPublicKey (se_tx e)) (Z.of_nat (se_number e)) (index e)
     (ko_key (se_output e)) 0 (rc_unlockTime (se_tx e)) (rc_hash (se_tx e))).

(** The index that came with the output, or the one of the daemon. *)
Definition own_index (e : Sent) : option Z := ko_globalOutputIndex (se_output e).
Definition daemon_index (daemon : Nigel) (height : Z) (e : Sent) : option Z :=
  match own_index e with
  | Some i => Some i
  | None => indexes ← getGlobalIndexes daemon height !! rc_hash (se_tx e); indexes !! se_number e
  end.

(** [underive_public_key] undoes [derive_public_key] on the keys of the outputs and
    the spend keys. *)
Definition curve_law (tx : RawCoinbaseTransaction) : Prop :=
  forall n output k, rc_keyOutputs tx !! n = Some output -> k ∈ m_publicSpendKeys s ->
    underive_public_key (shared tx) (Z.of_nat n) (ko_key output) = k <->
    derive_public_key (shared tx) (Z.of_nat n) k = ko_key output.

Context (Hok : container_ok s) (Hfull : m_isViewWallet s = false).

Lemma omap_none {A B} (f : A -> option B) l : (forall z, z ∈ l -> f z = None) -> omap f l = [].
Proof using Type.
  induction l as [|z l IH]; intros H; [done|]. cbn. rewrite (H z (list_elem_of_here _ _)). apply IH.
  intros u Hu. apply H. by right.
Qed.

Lemma omap_one {A B} (f : A -> option B) l x y :
  NoDup l -> x ∈ l -> f x = Some y -> (forall z, z ∈ l -> z <> x -> f z = None) -> omap f l = [y].
Proof using Type.
  intros Hn Hx Hf Hz. apply list_elem_of_split in Hx as (l1 & l2 & ->).
  apply NoDup_app in Hn as (_ & H1 & [H2 _]%NoDup_cons). rewrite omap_app. cbn [omap list_omap]. rewrite Hf.
  rewrite (omap_none f l1), (omap_none f l2); [done| |].
  - intros z Hin. apply Hz; [apply elem_of_app; right; by right|]. by intros ->.
  - intros z Hin. apply Hz; [apply elem_of_app; by left|]. intros ->. apply (H1 x Hin). by left.
Qed.

(** The scan of the outputs of a transaction finds what was sent. *)
Lemma scan_sent height tx from l :
  (forall n output k, l !! n = Some output -> k ∈ m_publicSpendKeys s ->
    underive_public_key (shared tx) (Z.of_nat (from + n)) (ko_key output) = k <->
    derive_public_key (shared tx) (Z.of_nat (from + n)) k = ko_key output) ->
  Z.of_nat (from + length l) < 2 ^ 64 ->
  scan_outputs s tx height (shared tx) (Z.of_nat from) l =
    Some (sent_input height own_index <$>
      concat (imap (fun n output => omap (sent_output tx (from + n) output) (m_publicSpendKeys s)) l)).
Proof using Hok Hfull.
  revert from. induction l as [|o l IH]; intros from Hlaw Hl; [done|]. cbn [length] in Hl.
  cbn [WalletSync.scan_outputs]. rewrite (wrap_small 64 (Z.of_nat from + 1)) by (words; lia).
  replace (Z.of_nat from + 1) with (Z.of_nat (S from)) by lia. rewrite IH.
  2: { intros n output k Hn Hk. replace (S from + n)%nat with (from + S n)%nat by lia. by apply Hlaw. } 2: lia.
  rewrite imap_cons. cbn [concat]. rewrite fmap_app. rewrite Nat.add_0_r.
  assert (imap ((fun n output => omap (sent_output tx (from + n) output) (m_publicSpendKeys s)) ∘ S) l =
    imap (fun n output => omap (sent_output tx (S from + n) output) (m_publicSpendKeys s)) l) as ->.
  { apply imap_ext. intros i x _. cbn. by rewrite Nat.add_succ_r. }
  set (k0 := underive_public_key (shared tx) (Z.of_nat from) (ko_key o)).
  pose proof (fun k Hk => Hlaw 0%nat o k eq_refl Hk) as Hlaw0. rewrite Nat.add_0_r in Hlaw0. fold k0 in Hlaw0.
  assert (forall z, z ∈ m_publicSpendKeys s -> z <> k0 -> sent_output tx from o z = None) as Hnone.
  { intros z Hz Hne. unfold sent_output. destruct (m_subWallets s !! z); [|done]. cbn [mbind option_bind].
    rewrite decide_False; [done|]. intros E%Hlaw0; [|done]. by apply Hne. }
  case_bool_decide as Hk.
  - destruct (proj1 (keys_stored _ Hok k0) Hk) as [w Hw]. unfold SubWallets_getTxInputKeyImage. rewrite Hw. cbn [mbind option_bind].
    assert (derive_public_key (shared tx) (Z.of_nat from) k0 = ko_key o) as Ed by (by apply Hlaw0).
    rewrite (omap_one _ _ k0 (mkSent tx from o k0 (m_privateSpendKey w))); [|apply Hok|done| |done].
    + cbn. unfold getTxInputKeyImage. rewrite Hfull, (keys_own _ Hok k0 w Hw), Ed. done.
    + unfold sent_output. rewrite Hw. cbn [mbind option_bind]. by rewrite decide_True.
  - cbn [mbind option_bind app]. rewrite omap_none; [done|]. intros z Hz. apply Hnone; [done|]. by intros ->.
Qed.

(** The loop over the indices gives each input its index, if there is one for all. *)
Lemma fill_sent daemon height l indexes :
  (indexes = ∅ \/ indexes = getGlobalIndexes daemon height) ->
  Forall (fun e => is_Some (daemon_index daemon height e)) l ->
  fill_indexes daemon false height indexes (sent_input height own_index <$> l) =
    Some (sent_input height (daemon_index daemon height) <$> l).
Proof using Type.
  intros Hi Hl. revert indexes Hi. induction Hl as [|e l [i Ei] _ IH]; intros indexes Hi; [done|].
  rewrite !fmap_cons. cbn [fill_indexes sent_input globalOutputIndex parentTransactionHash transactionIndex negb andb].
  pose proof Ei as Ed. unfold daemon_index in Ei. unfold sent_input at 3. rewrite Ed. case_bool_decide as Ho.
  - change (own_index e = None) in Ho. rewrite Ho in Ei. destruct (getGlobalIndexes daemon height !! rc_hash (se_tx e)) as [l'|] eqn:El; [|done]. cbn [mbind option_bind] in Ei.
    assert ((if decide (indexes = ∅) then getGlobalIndexes daemon height else indexes) = getGlobalIndexes daemon height) as ->
      by (case_decide; [done|by destruct Hi]).
    rewrite El. cbn [mbind option_bind]. rewrite Nat2Z.id, Ei. cbn [mbind option_bind]. rewrite IH by auto. cbn [mbind option_bind].
    done.
  - rewrite IH by done. cbn [mbind option_bind]. change (own_index e <> None) in Ho.
    destruct (own_index e) as [i'|] eqn:Eo; [|done]. by injection Ei as ->.
Qed.
End SentOutputs.

(** What a block sends to the container of a synchroniser, with the indices that the daemon gives. *)
Definition sent_outputs (daemon : Nigel) (ws : WalletSynchronizer) (block : WalletBlockInfo) : outputs :=
  sent_input (ws_privateViewKey ws) (wb_blockHeight block) (daemon_index daemon (wb_blockHeight block)) <$>
    sent_in (ws_privateViewKey ws) (ws_subWallets ws) block.

Lemma scan_transaction ws tx height :
  container_ok (ws_subWallets ws) -> m_isViewWallet (ws_subWallets ws) = false ->
  curve_law (ws_privateViewKey ws) (ws_subWallets ws) tx -> Z.of_nat (length (rc_keyOutputs tx)) < 2 ^ 64 ->
  processTransactionOutputs ws tx height =
    Some (sent_input (ws_privateViewKey ws) height own_index <$> sent_by (ws_privateViewKey ws) (ws_subWallets ws) tx).
Proof using Type. intros Hok Hv Hc Hl. by apply (scan_sent _ _ Hok Hv height tx 0). Qed.

(** The scan of a block finds what the block sends. *)
Lemma scan_block ws block :
  container_ok (ws_subWallets ws) -> m_isViewWallet (ws_subWallets ws) = false ->
  Forall (fun tx => curve_law (ws_privateViewKey ws) (ws_subWallets ws) tx /\ Z.of_nat (length (rc_keyOutputs tx)) < 2 ^ 64)
    (block_txs block) ->
  processBlockOutputs ws block = Some (sent_input (ws_privateViewKey ws) (wb_blockHeight block) own_index <$>
    sent_in (ws_privateViewKey ws) (ws_subWallets ws) block).
Proof using Type.
  intros Hok Hv [[Hc Hl] Hall]%Forall_cons. unfold WalletSync.processBlockOutputs, processCoinbaseTransactions, sent_in, block_txs.
  rewrite scan_transaction by done. cbn [mbind option_bind]. rewrite fmap_cons. cbn [concat]. rewrite fmap_app.
  rewrite Forall_fmap in Hall.
  assert (mapM (fun tx => processTransactionOutputs ws (rt_base tx) (wb_blockHeight block)) (wb_transactions block) =
    Some ((fun tx => sent_input (ws_privateViewKey ws) (wb_blockHeight block) own_index <$>
      sent_by (ws_privateViewKey ws) (ws_subWallets ws) (rt_base tx)) <$> wb_transactions block)) as ->.
  { induction Hall as [|tx l [Hc' Hl'] _ IH]; [done|]. cbn [mapM]. rewrite scan_transaction by done. cbn [mbind option_bind].
    rewrite IH. done. }
  cbn [mbind option_bind]. do 2 f_equal. clear Hall. induction (wb_transactions block) as [|tx l IH]; [done|].
  rewrite !fmap_cons. cbn [concat]. rewrite fmap_app. by f_equal.
Qed.

(** ** Transactions of a block *)

Definition block_images (block : WalletBlockInfo) : list (list Z) :=
  concat ((fun tx => snd <$> rt_keyInputs tx) <$> wb_transactions block).

Definition block_hashes (block : WalletBlockInfo) : list Hash :=
  rc_hash (wb_coinbaseTransaction block) :: ((fun tx => rc_hash (rt_base tx)) <$> wb_transactions block).

Definition owned_image (s : SubWallets) (image : list Z) : option (PublicKey * list Z) :=
  k ← getKeyImageOwner s image; Some (k, image).

Lemma owned_inputs_images s l : (fun p => (p.1, p.2.2)) <$> owned_inputs s l = omap (owned_image s) (snd <$> l).
Proof using Type.
  unfold owned_inputs, owned_image. induction l as [|[[a o] image] l IH]; [done|]. cbn.
  destruct (getKeyImageOwner s image); cbn; [f_equal|]; exact IH.
Qed.

Lemma spend_transfers_nonempty (spent : list (PublicKey * (Z * KeyImage))) transfers :
  fold_left (fun transfers p => add_transfer transfers p.1 (- p.2.1)) spent transfers = ∅ -> spent = [].
Proof using Type.
  destruct spent as [|p spent]; [done|]. cbn [fold_left]. generalize transfers at 1. intros t H. exfalso. revert H.
  assert (forall m : gmap PublicKey Z, m <> ∅ -> fold_left (fun transfers p => add_transfer transfers p.1 (- p.2.1)) spent m <> ∅) as Hne.
  { induction spent as [|q spent IH]; intros m Hm; [done|]. cbn [fold_left]. apply IH, insert_non_empty. }
  apply Hne, insert_non_empty.
Qed.

Lemma processTransaction_images s block inputs tx :
  (if decide ((processTransaction s block inputs tx).1 = None) then [] else (processTransaction s block inputs tx).2) =
  omap (owned_image s) (snd <$> rt_keyInputs tx).
Proof using Type.
  unfold processTransaction. rewrite <- owned_inputs_images. destruct (decide (fold_left _ _ _ = ∅)) as [Ht|Ht]; cbn.
  - apply spend_transfers_nonempty in Ht. by rewrite Ht.
  - done.
Qed.

Lemma scan_images s block inputs :
  keyImagesToMarkSpent (processBlockTransactions s block inputs) = omap (owned_image s) (block_images block).
Proof using Type.
  unfold processBlockTransactions, block_images. cbn [keyImagesToMarkSpent].
  induction (wb_transactions block) as [|tx l IH]; [done|]. rewrite !fmap_cons. cbn [concat].
  rewrite processTransaction_images, omap_app. f_equal. exact IH.
Qed.

Lemma scan_hashes s block inputs :
  sublist (tx_hash <$> transactionsToAdd (processBlockTransactions s block inputs)) (block_hashes block).
Proof using Type.
  unfold processBlockTransactions, block_hashes, processCoinbaseTransactions. cbn [transactionsToAdd]. rewrite fmap_app.
  assert (sublist (tx_hash <$> omap fst (processTransaction s block inputs <$> wb_transactions block))
    ((fun tx => rc_hash (rt_base tx)) <$> wb_transactions block)) as Hs.
  { induction (wb_transactions block) as [|tx l IH]; [constructor|]. cbn. unfold processTransaction at 1.
    case_decide; cbn; by constructor. }
  unfold processCoinbaseTransaction. case_decide; cbn; by constructor.
Qed.

(** ** A block *)

(** The synchroniser after the check for a fork. *)
Definition prepared (ws : WalletSynchronizer) (block : WalletBlockInfo) : WalletSynchronizer :=
  if wb_blockHeight block <=? getHeight (m_syncStatus ws)
  then with_container ws (removeForkedTransactions (ws_subWallets ws) (wb_blockHeight block)) else ws.

(** The outputs of ours in a block, with their global indices. *)
Definition block_inputs (daemon : Nigel) (ws : WalletSynchronizer) (block : WalletBlockInfo) : option outputs :=
  raw ← processBlockOutputs ws block;
  fill_indexes daemon (m_isViewWallet (ws_subWallets ws)) (wb_blockHeight block) ∅ raw.

(** The block is the next one of a chain in which no key image is spent twice or
    before it is received.  What it sends to the container has key images of its own, and the daemon
    knows the global indices. *)
Record block_extends (daemon : Nigel) (ws : WalletSynchronizer) (block : WalletBlockInfo) (R : outputs) (Sp : spends)
    (hashes : list Hash) : Prop := {
  be_curve : Forall (fun tx => curve_law (ws_privateViewKey ws) (ws_subWallets ws) tx /\
    Z.of_nat (length (rc_keyOutputs tx)) < 2 ^ 64) (block_txs block);
  be_indexes : Forall (fun p => is_Some (globalOutputIndex p.2)) (sent_outputs daemon ws block);
  be_images : NoDup (image_of <$> (R ++ sent_outputs daemon ws block));
  be_unspent p : p ∈ sent_outputs daemon ws block -> Sp !! image_of p = None;
  be_spends : NoDup (block_images block);
  be_once image : image ∈ block_images block -> Sp !! image = None /\ image ∉ image_of <$> sent_outputs daemon ws block;
  be_hashes : NoDup (block_hashes block);
  be_fresh h : h ∈ block_hashes block -> h ∉ hashes;
  be_fits : fits 64 (wb_blockHeight block);
  be_height : getCurrentScanHeight ws < wb_blockHeight block /\
                (getCurrentScanHeight ws = 0 \/ wb_blockHeight block = getCurrentScanHeight ws + 1) \/
              getCurrentScanHeight ws = 0 /\ wb_blockHeight block = 0 /\ R = [] }.

Lemma scanned_weaken s R Sp hashes hashes' :
  scanned s R Sp hashes -> (forall h, h ∈ hashes -> h ∈ hashes') -> scanned s R Sp hashes'.
Proof using Type. intros [H1 H2 H3 H4 H5 H6 H7 H8] Hw. split; try done. intros h Hh. by apply Hw, H8. Qed.

(** The fork that the first block of a chain seems to be. *)
Lemma fork_nothing s Sp hashes h : scanned s [] Sp hashes -> scanned (removeForkedTransactions s h) [] Sp hashes.
Proof using Type.
  intros [H1 H2 H3 H4 H5 H6 H7 H8]. split; try done.
  - by apply forked_wallets_ok.
  - intros k w. cbn. rewrite lookup_fmap. intros (w0 & Hw & ->)%fmap_Some.
    specialize (H3 k w0 Hw). specialize (H4 k w0 Hw). cbn in H3, H4. apply Permutation_nil_r in H3, H4.
    apply app_eq_nil in H3 as [H3 _]. cbn. by rewrite H3, H4.
  - intros k w. cbn. rewrite lookup_fmap. intros (w0 & Hw & ->)%fmap_Some.
    specialize (H4 k w0 Hw). cbn in H4. apply Permutation_nil_r in H4. cbn. by rewrite H4.
  - intros t. cbn. intros (tx & -> & [_ Htx]%list_elem_of_filter)%list_elem_of_fmap_1. by apply H8, list_elem_of_fmap_2.
Qed.

Lemma prepared_scanned daemon ws block R Sp hashes :
  scanned (ws_subWallets ws) R Sp hashes -> block_extends daemon ws block R Sp hashes ->
  scanned (ws_subWallets (prepared ws block)) R Sp hashes /\ m_syncStatus (prepared ws block) = m_syncStatus ws.
Proof using Type.
  intros H B. unfold prepared, getCurrentScanHeight in *. destruct (be_height _ _ _ _ _ _ B) as [[Hlt _]|(Hz & Hb & ->)].
  - rewrite (proj2 (Z.leb_gt _ _)) by exact Hlt. done.
  - destruct (_ <=? _); [|done]. split; [by apply fork_nothing|done].
Qed.

Lemma forked_sent viewKey s h tx : sent_by viewKey (removeForkedTransactions s h) tx = sent_by viewKey s tx.
Proof using Type.
  unfold sent_by. f_equal. apply imap_ext. intros n output _.
  change (m_publicSpendKeys (removeForkedTransactions s h)) with (m_publicSpendKeys s).
  induction (m_publicSpendKeys s) as [|k l IH]; [done|]. cbn [omap list_omap]. rewrite IH.
  assert (sent_output viewKey (removeForkedTransactions s h) tx n output k = sent_output viewKey s tx n output k) as ->; [|done].
  unfold sent_output. cbn. rewrite lookup_fmap. by destruct (m_subWallets s !! k).
Qed.

Lemma prepared_sent daemon ws block : sent_outputs daemon (prepared ws block) block = sent_outputs daemon ws block.
Proof using Type.
  unfold prepared. destruct (_ <=? _); [|done]. unfold sent_outputs, sent_in. cbn [with_container ws_privateViewKey ws_subWallets].
  do 2 f_equal. apply list_fmap_ext. intros _ tx _. apply forked_sent.
Qed.

(** The scan gives exactly what the block sends. *)
Lemma extends_inputs daemon ws block R Sp hashes :
  scanned (ws_subWallets ws) R Sp hashes -> block_extends daemon ws block R Sp hashes ->
  block_inputs daemon (prepared ws block) block = Some (sent_outputs daemon ws block).
Proof using Type.
  intros H B. destruct (prepared_scanned _ _ _ _ _ _ H B) as [Hp _]. rewrite <- (prepared_sent daemon ws block).
  pose proof (be_indexes _ _ _ _ _ _ B) as Hi. rewrite <- (prepared_sent daemon ws block) in Hi.
  assert (Forall (fun tx => curve_law (ws_privateViewKey (prepared ws block)) (ws_subWallets (prepared ws block)) tx /\
    Z.of_nat (length (rc_keyOutputs tx)) < 2 ^ 64) (block_txs block)) as Hc.
  { pose proof (be_curve _ _ _ _ _ _ B) as Hc. unfold prepared. by destruct (_ <=? _). }
  unfold block_inputs. rewrite scan_block by (done || apply Hp). cbn [mbind option_bind]. rewrite (sc_full _ _ _ _ Hp).
  apply fill_sent; [by left|]. unfold sent_outputs in Hi. by rewrite Forall_fmap in Hi.
Qed.

Lemma block_inputs_own daemon ws block new p :
  block_inputs daemon ws block = Some new -> p ∈ new -> p.1 ∈ m_publicSpendKeys (ws_subWallets ws) /\ spendHeight p.2 = 0.
Proof using Type.
  unfold block_inputs. destruct (processBlockOutputs ws block) as [raw|] eqn:Er; [|done]. cbn [mbind option_bind].
  intros E%fill_indexes_keeps [n Hn]%list_elem_of_lookup_1.
  destruct (Forall2_lookup_r _ _ _ _ _ E Hn) as (q & Hq & -> & _ & -> & _).
  eapply block_outputs_own; [exact Er|by eapply list_elem_of_lookup_2].
Qed.

Lemma store_scan_scanned s block new R Sp hashes h :
  scanned s R Sp hashes -> NoDup (image_of <$> (R ++ new)) ->
  (forall p, p ∈ new -> p.1 ∈ m_publicSpendKeys s /\ spendHeight p.2 = 0 /\ Sp !! image_of p = None) ->
  NoDup (block_images block) ->
  (forall image, image ∈ block_images block -> Sp !! image = None /\ image ∉ image_of <$> new) ->
  NoDup (block_hashes block) -> (forall t, t ∈ block_hashes block -> t ∉ hashes) ->
  exists s', store_scan s (processBlockTransactions s block new) h = Some s' /\
    scanned s' (R ++ new) (spend_all Sp (block_images block) h) (hashes ++ block_hashes block).
Proof using Type.
  intros H Hi Hnew Hs Ho Hh Hf. unfold store_scan. pose proof (scan_hashes s block new) as Hsub.
  destruct (add_all s R Sp hashes (transactionsToAdd (processBlockTransactions s block new)) H) as (s1 & -> & H1 & Hk1 & _).
  { by eapply sublist_NoDup. }
  { intros t Ht. apply Hf. eapply elem_of_submseteq; [exact Ht|by apply sublist_submseteq]. }
  cbn [mbind option_bind]. edestruct (store_all s1 R Sp _ new H1 Hi) as (s2 & E2 & H2); [by rewrite Hk1|].
  cbn [inputsToAdd processBlockTransactions]. rewrite E2. cbn [mbind option_bind]. rewrite scan_images.
  edestruct (mark_all s2 (R ++ new) Sp _ h (block_images block) (getKeyImageOwner s) H2 Hs) as (s3 & E3 & H3).
  - intros image Him. by apply Ho.
  - intros image k Him. destruct (Ho image Him) as [Hn Hnot]. rewrite (scanned_owner R Sp hashes s image k H). split.
    + intros (_ & i & Hin & Ei). exists i. split; [by apply elem_of_app; left|done].
    + intros (i & [Hin|Hin]%elem_of_app & Ei); [by eauto|]. exfalso. apply Hnot. rewrite <- Ei.
      exact (list_elem_of_fmap_2 image_of _ _ Hin).
  - exists s3. split; [exact E3|]. eapply scanned_weaken; [exact H3|]. intros t. rewrite !elem_of_app.
    intros [Ht|Ht]; [by left|right]. eapply elem_of_submseteq; [exact Ht|by apply sublist_submseteq].
Qed.

Lemma storeBlockHash_next s hash height :
  fits 64 height -> (m_lastKnownBlockHeight s = 0 \/ height <= m_lastKnownBlockHeight s \/ height = m_lastKnownBlockHeight s + 1) ->
  exists s', storeBlockHash s hash height = Some s' /\ m_lastKnownBlockHeight s' = height /\
    head (getBlockHashCheckpoints s') = Some hash.
Proof using Type.
  intros Hf Hh. unfold storeBlockHash.
  assert ((m_lastKnownBlockHeight s <? height) && negb (m_lastKnownBlockHeight s =? 0) &&
    negb (height =? u64 (m_lastKnownBlockHeight s + 1)) = false) as ->.
  { destruct Hh as [->|[Hh|Hh]]; [by rewrite andb_false_r|by rewrite (proj2 (Z.ltb_ge _ _) Hh)|].
    rewrite <- Hh, wrap_small by done. by rewrite Z.eqb_refl, andb_false_r. }
  eexists. split; [reflexivity|]. split; [done|]. unfold getBlockHashCheckpoints. cbn [m_lastKnownBlockHashes].
  destruct (Nat.ltb_spec LAST_KNOWN_BLOCK_HASHES_SIZE (length (hash :: m_lastKnownBlockHashes s))) as [Hl|]; [|done].
  destruct (m_lastKnownBlockHashes s); [|done]. unfold LAST_KNOWN_BLOCK_HASHES_SIZE in Hl. cbn in Hl. lia.
Qed.

Lemma processBlock_scanned daemon ws block R Sp hashes :
  scanned (ws_subWallets ws) R Sp hashes -> block_extends daemon ws block R Sp hashes ->
  exists ws', processBlock daemon ws block = Some ws' /\ getCurrentScanHeight ws' = wb_blockHeight block /\
    head (getBlockHashCheckpoints (m_syncStatus ws')) = Some (wb_blockHash block) /\
    scanned (ws_subWallets ws') (R ++ sent_outputs daemon ws block) (spend_all Sp (block_images block) (wb_blockHeight block))
      (hashes ++ block_hashes block).
Proof using Type.
  intros H B. destruct (prepared_scanned _ _ _ _ _ _ H B) as [Hp Est]. pose proof (extends_inputs _ _ _ _ _ _ H B) as Eb.
  unfold WalletSync.processBlock. fold (prepared ws block).
  pose proof (fun p => block_inputs_own daemon (prepared ws block) block _ p Eb) as Hown. unfold block_inputs in Eb.
  destruct (processBlockOutputs (prepared ws block) block) as [raw|]; [|done]. cbn [mbind option_bind] in Eb |- *. rewrite Eb.
  destruct B as [_ _ B2 B3 B4 B5 B6 B7 B8 B9].
  destruct (store_scan_scanned (ws_subWallets (prepared ws block)) block (sent_outputs daemon ws block) R Sp hashes (wb_blockHeight block))
    as (s' & -> & Hs'); try done.
  { intros p Hin. destruct (Hown p Hin) as [? ?]. split_and!; [done..|by apply B3]. }
  cbn [mbind option_bind]. rewrite Est. unfold getCurrentScanHeight in *.
  destruct (storeBlockHash_next (m_syncStatus ws) (wb_blockHash block) (wb_blockHeight block) B8) as (status & -> & Eh & Eck).
  { unfold getHeight in B9. destruct B9 as [[_ [?|?]]|(? & ? & _)]; auto. }
  eexists. split; [reflexivity|]. split; [exact Eh|]. split; [exact Eck|exact Hs'].
Qed.

End Scan.
