(* ===== verification/WalletSyncTheorems.v ===== *)
(** * Theorems about the synchroniser

    What a wallet that follows a chain holds, what of an output it needs to
    recognise it, the block hashes it keeps, and two ways in which it loses track
    of the chain. *)

From stdpp Require Import gmap.
From S2P Require Import Prelude Bytes Errors Types WalletBlocks Utilities Addresses WalletTypes SubWallet SubWallets WalletFacts WalletJson WalletSync WalletSyncFacts.
#[local] Open Scope Z_scope.

(** ** Following a chain *)

Lemma scanned_nothing s :
  container_ok s -> m_isViewWallet s = false -> m_transactions s = [] ->
  (forall k w, m_subWallets s !! k = Some w -> wallet_inputs w = []) -> scanned s [] ∅ [].
Proof.
  intros Hok Hv Ht Hw. split; try done.
  - intros k w E. specialize (Hw k w E). unfold wallet_inputs in Hw. rewrite app_assoc in Hw. by apply app_eq_nil in Hw as [-> _].
  - intros k w E. specialize (Hw k w E). unfold wallet_inputs in Hw. rewrite app_assoc in Hw. by apply app_eq_nil in Hw as [_ ->].
  - intros p ?%elem_of_nil. done.
  - intros p ?%elem_of_nil. done.
  - constructor.
  - rewrite Ht. by intros h ?%elem_of_nil.
Qed.

(** A sub wallet with a key of which nothing was received. *)
Lemma add_wallet_scanned s R Sp hashes k w :
  scanned s R Sp hashes -> m_subWallets s !! k = None -> m_publicSpendKey w = k -> wallet_inputs w = [] ->
  scanned (add_wallet s k w) R Sp hashes.
Proof.
  intros H Hn Hk Hi. pose proof H as [H1 H2 H3 H4 H5 H6 H7 H8].
  assert (forall p, p ∈ R -> p.1 <> k) as Hne.
  { intros p Hp <-. apply H5 in Hp. apply (keys_stored _ H1) in Hp. rewrite Hn in Hp. by destruct Hp. }
  assert (unspent_of k R Sp = [] /\ spent_of k R Sp = []) as [Hu Hs].
  { clear -Hne. unfold unspent_of, spent_of. induction R as [|p R IH]; [done|]. cbn [omap list_omap].
    assert (p.1 <> k) as Hp by (apply Hne; left).
    rewrite decide_False by naive_solver. rewrite decide_False by done. apply IH. intros q Hq. apply Hne. by right. }
  unfold wallet_inputs in Hi. rewrite app_assoc in Hi. apply app_eq_nil in Hi as [Hi1 Hi2].
  split; try done; [apply add_wallet_ok; try done; unfold wallet_inputs; by rewrite app_assoc, Hi1, Hi2|..].
  - intros k' x. cbn. intros [[<- <-]|[_ Hx]]%lookup_insert_Some; [by rewrite Hi1, Hu|by apply H3].
  - intros k' x. cbn. intros [[<- <-]|[_ Hx]]%lookup_insert_Some; [by rewrite Hi2, Hs|by apply H4].
  - intros p Hp. cbn. apply elem_of_app. left. by apply H5.
Qed.

Lemma inputs_sum_cons i l : inputs_sum (i :: l) = amount i + inputs_sum l.
Proof. done. Qed.

Lemma received_sum k R Sp :
  inputs_sum (unspent_of k R Sp) + inputs_sum (spent_of k R Sp) = inputs_sum (snd <$> filter (fun p => p.1 = k) R).
Proof.
  induction R as [|p R IH]; [done|]. unfold unspent_of, spent_of in *. cbn [omap list_omap].
  destruct (decide (p.1 = k)) as [Hk|Hk].
  - rewrite filter_cons_True, fmap_cons, inputs_sum_cons by done.
    destruct (Sp !! image_of p) as [h|] eqn:E; cbn [fmap option_fmap option_map].
    + rewrite decide_False by naive_solver. rewrite inputs_sum_cons. cbn [with_spendHeight amount]. lia.
    + rewrite decide_True by naive_solver. rewrite inputs_sum_cons. lia.
  - rewrite filter_cons_False by done. rewrite decide_False by naive_solver. exact IH.
Qed.

Section Sync.
Context (cn_fast_hash : list Z -> list Z) (secret_key_to_public_key : SecretKey -> option PublicKey)
  (generate_key_derivation : PublicKey -> SecretKey -> list Z)
  (underive_public_key : list Z -> Z -> PublicKey -> PublicKey)
  (derive_public_key : list Z -> Z -> PublicKey -> PublicKey)
  (derive_secret_key : list Z -> Z -> SecretKey -> SecretKey)
  (generate_key_image : PublicKey -> SecretKey -> list Z) (uninit : list Z).
Local Notation processBlock :=
  (processBlock generate_key_derivation underive_public_key derive_public_key derive_secret_key generate_key_image uninit).
Local Notation process_blocks :=
  (process_blocks generate_key_derivation underive_public_key derive_public_key derive_secret_key generate_key_image uninit).
Local Notation sent_outputs :=
  (sent_outputs generate_key_derivation derive_public_key derive_secret_key generate_key_image).
Local Notation block_extends :=
  (block_extends generate_key_derivation underive_public_key derive_public_key derive_secret_key generate_key_image).

(** A wallet from its creation on: blocks of a chain that only grows, one after the
    other; sub wallets that are added; transactions that are sent, with
    the inputs they lock and the change they announce; and the question whether they are
    still known to the daemon.  [R] are the outputs that the blocks so far have sent to the container, and
    [Sp] the key images in them. *)
Inductive sync_run : WalletSynchronizer -> outputs -> spends -> list Hash -> Prop :=
  | run_new now privateSpendKey privateViewKey address scanHeight newWallet s startTimestamp startHeight :
      SubWallets_new secret_key_to_public_key now privateSpendKey privateViewKey address scanHeight newWallet = Some s ->
      sync_run (mkWalletSynchronizer (mkSynchronizationStatus [] [] 0) startTimestamp startHeight privateViewKey s) [] ∅ []
  | run_block daemon ws R Sp hashes block ws' :
      sync_run ws R Sp hashes -> block_extends daemon ws block R Sp hashes -> processBlock daemon ws block = Some ws' ->
      sync_run ws' (R ++ sent_outputs daemon ws block) (spend_all Sp (block_images block) (wb_blockHeight block)) (hashes ++ block_hashes block)
  | run_addSubWallet ws R Sp hashes now publicKey secretKey error address s :
      sync_run ws R Sp hashes -> m_subWallets (ws_subWallets ws) !! publicKey = None ->
      addSubWallet cn_fast_hash secret_key_to_public_key now (ws_subWallets ws) publicKey secretKey = Some (error, address, s) ->
      sync_run (with_container ws s) R Sp hashes
  | run_lock ws R Sp hashes image k s :
      sync_run ws R Sp hashes -> SubWallets_markInputAsLocked (ws_subWallets ws) image k = Some s ->
      sync_run (with_container ws s) R Sp hashes
  | run_pending ws R Sp hashes tx s :
      sync_run ws R Sp hashes -> addUnconfirmedTransaction (ws_subWallets ws) tx = Some s ->
      sync_run (with_container ws s) R Sp hashes
  | run_unconfirmed ws R Sp hashes i k :
      sync_run ws R Sp hashes ->
      sync_run (with_container ws (SubWallets_storeUnconfirmedIncomingInput (ws_subWallets ws) i k)) R Sp hashes
  | run_check daemon ws R Sp hashes s :
      sync_run ws R Sp hashes -> checkLockedTransactions daemon (ws_subWallets ws) = Some s ->
      sync_run (with_container ws s) R Sp hashes.

Lemma sync_run_scanned ws R Sp hashes : sync_run ws R Sp hashes -> scanned (ws_subWallets ws) R Sp hashes.
Proof using Type.
  induction 1 as [now sk vk a h nw s st sh E|d ws R Sp hs b ws' _ IH B E|ws R Sp hs now pk sk e a s _ IH Hn E
    |ws R Sp hs im k s _ IH E|ws R Sp hs tx s _ IH E|ws R Sp hs i k _ IH|d ws R Sp hs s _ IH E]; cbn [ws_subWallets with_container].
  - unfold SubWallets_new in E. destruct (secret_key_to_public_key sk) as [k|]; [|done]. cbn [mbind option_bind] in E.
    apply (inj Some) in E as <-. apply scanned_nothing; [by apply new_container_ok|done|done|].
    intros k' w. cbn [add_wallet m_subWallets].
    intros [[<- <-]|[_ Hx]]%lookup_insert_Some; [done|]. by rewrite lookup_empty in Hx.
  - edestruct processBlock_scanned as (ws'' & E' & _ & _ & H); [exact IH|exact B|]. rewrite E in E'. by apply (inj Some) in E' as ->.
  - unfold addSubWallet in E. rewrite (sc_full _ _ _ _ IH) in E. destruct (privateKeysToAddress _ _ _ _); [|done].
    cbn [mbind option_bind] in E. injection E as <- <- <-. by apply add_wallet_scanned.
  - by eapply lock_scanned.
  - by eapply pending_scanned.
  - by apply unconfirmed_scanned.
  - destruct (check_scanned _ _ _ _ d IH) as (s' & E' & H). rewrite E in E'. by apply (inj Some) in E' as ->.
Qed.

(** C11: a wallet with its spend keys that follows a chain from its creation, while it sends
    transactions, never fails on the next block; each sub wallet holds exactly
    the outputs that the chain has sent to it and that no key image of the chain has
    spent, as unspent or locked inputs, and exactly the spent ones, with the
    height, as spent inputs, so that no money is lost or counted twice.  An output is sent to a sub wallet
    when its key is the one derived for the spend key of the sub wallet from the view key, the public key of the transaction and
    its place in the transaction, and the sub wallet was there when the block came; the input has the key image, the amount,
    the unlock time and the global index of that output.  The blocks come in order and without forks, the
    daemon knows the global indices, the outputs sent to the wallet have distinct key images, and
    [underive_public_key] undoes [derive_public_key] on the keys in question. *)
Theorem wallet_scan_correct ws R Sp hashes :
  sync_run ws R Sp hashes ->
  (forall k w, m_subWallets (ws_subWallets ws) !! k = Some w ->
     m_unspentInputs w ++ m_lockedInputs w ≡ₚ unspent_of k R Sp /\ m_spentInputs w ≡ₚ spent_of k R Sp /\
     inputs_sum (wallet_inputs w) = inputs_sum (snd <$> filter (fun p => p.1 = k) R)) /\
  (forall daemon block, block_extends daemon ws block R Sp hashes ->
     exists ws', processBlock daemon ws block = Some ws' /\ getCurrentScanHeight ws' = wb_blockHeight block).
Proof using Type.
  intros H%sync_run_scanned. split.
  - intros k w Hw. pose proof (sc_unspent _ _ _ _ H k w Hw) as Hu. pose proof (sc_spent _ _ _ _ H k w Hw) as Hs.
    split; [done|]. split; [done|]. rewrite <- (received_sum k R Sp). unfold wallet_inputs, inputs_sum.
    rewrite app_assoc, fmap_app, sumZ_app. f_equal; apply sumZ_Permutation, fmap_Permutation; done.
  - intros daemon block B. edestruct processBlock_scanned as (ws' & E & Eh & _); [exact H|exact B|]. by exists ws'.
Qed.
Local Notation processTransactionOutputs :=
  (processTransactionOutputs generate_key_derivation underive_public_key derive_public_key derive_secret_key generate_key_image uninit).
Local Notation output_input := (output_input derive_public_key derive_secret_key generate_key_image uninit).
Local Notation processBlockOutputs :=
  (processBlockOutputs generate_key_derivation underive_public_key derive_public_key derive_secret_key generate_key_image uninit).
Local Notation block_inputs :=
  (block_inputs generate_key_derivation underive_public_key derive_public_key derive_secret_key generate_key_image uninit).

(** [processTransactionOutputs] finds an input for exactly the outputs whose
    key gives a spend key of the container, with the key image, the number, the
    amount and the unlock time of the output.  Where [underive_public_key] undoes
    [derive_public_key] on what the transaction and the view key share, an
    output made for a sub wallet is found. *)
Theorem outputs_recognised ws rawTX height :
  container_ok (ws_subWallets ws) -> Z.of_nat (length (rc_keyOutputs rawTX)) < 2 ^ 64 ->
  let shared := generate_key_derivation (rc_transactionPublicKey rawTX) (ws_privateViewKey ws) in
  exists inputs, processTransactionOutputs ws rawTX height = Some inputs /\
    (forall k i, (k, i) ∈ inputs <->
       exists n output w, rc_keyOutputs rawTX !! n = Some output /\ m_subWallets (ws_subWallets ws) !! k = Some w /\
         underive_public_key shared (Z.of_nat n) (ko_key output) = k /\
         i = output_input w (m_isViewWallet (ws_subWallets ws)) rawTX height shared (Z.of_nat n) output) /\
    (forall n output k w,
       rc_keyOutputs rawTX !! n = Some output -> m_subWallets (ws_subWallets ws) !! k = Some w ->
       ko_key output = derive_public_key shared (Z.of_nat n) k ->
       underive_public_key shared (Z.of_nat n) (derive_public_key shared (Z.of_nat n) k) = k ->
       (k, output_input w (m_isViewWallet (ws_subWallets ws)) rawTX height shared (Z.of_nat n) output) ∈ inputs).
Proof using Type.
  intros Hok Hl shared.
  destruct (scan_outputs_spec underive_public_key derive_public_key derive_secret_key generate_key_image uninit
    (ws_subWallets ws) rawTX height shared 0 (rc_keyOutputs rawTX) Hok) as (inputs & E & H); [lia..|].
  exists inputs. split; [exact E|]. split; [exact H|].
  intros n output k w Hn Hw Hk Hu. apply H. exists n, output, w. cbn [Z.add]. rewrite Hk. done.
Qed.

(** A wallet holds no input that the blocks it has seen did not bring. *)
Lemma scanned_images s R Sp hashes k w image :
  scanned s R Sp hashes -> m_subWallets s !! k = Some w -> image ∈ key_images w -> image ∈ image_of <$> R.
Proof using Type.
  intros H Hw. unfold key_images, wallet_inputs. rewrite app_assoc, fmap_app, elem_of_app.
  rewrite (sc_unspent _ _ _ _ H k w Hw), (sc_spent _ _ _ _ H k w Hw).
  intros [(i & -> & Hi)%list_elem_of_fmap|(i & -> & Hi)%list_elem_of_fmap].
  - apply elem_of_unspent in Hi as [Hi _]. by apply (list_elem_of_fmap_2 image_of _ (k, i)).
  - apply elem_of_spent in Hi as (i0 & Hi & <-). by apply (list_elem_of_fmap_2 image_of _ (k, i0)).
Qed.

(** C39: a block for which the daemon does not give the global indices of an
    output of ours is left out, as the code says, so that it is asked for again.
    But the other blocks of the same answer are processed all the same.  If the block is the first
    one of a new wallet, the next one, which the daemon can complete, is accepted: the wallet then is at its height, its hash is the
    first of the checkpoints that the wallet sends, so that the block left out is not asked for
    again, and none of the outputs found in that block is in the wallet.  Any later
    block makes the synchroniser throw on the next one. *)
Theorem missing_index_skips_block daemon ws block next raw R Sp hashes :
  scanned (ws_subWallets ws) R Sp hashes ->
  getCurrentScanHeight ws < wb_blockHeight block -> wb_blockHeight next = wb_blockHeight block + 1 ->
  fits 64 (wb_blockHeight next) -> 0 <= getCurrentScanHeight ws ->
  processBlockOutputs ws block = Some raw ->
  block_inputs daemon ws block = None ->
  processBlock daemon ws block = Some ws /\
  (getCurrentScanHeight ws = 0 -> block_extends daemon ws next R Sp hashes ->
     exists ws', process_blocks daemon ws [block; next] = Some ws' /\ getCurrentScanHeight ws' = wb_blockHeight next /\
       head (getBlockHashCheckpoints (m_syncStatus ws')) = Some (wb_blockHash next) /\
       forall p k w, p ∈ raw -> image_of p ∉ image_of <$> (R ++ sent_outputs daemon ws next) ->
         m_subWallets (ws_subWallets ws') !! k = Some w -> image_of p ∉ key_images w) /\
  (getCurrentScanHeight ws <> 0 -> is_Some (block_inputs daemon ws next) -> process_blocks daemon ws [block; next] = None).
Proof using Type.
  intros Hs Hlt Hnext Hf H0 Er Eb. assert (processBlock daemon ws block = Some ws) as E.
  { unfold WalletSync.processBlock. unfold getCurrentScanHeight in Hlt. rewrite (proj2 (Z.leb_gt _ _)) by exact Hlt.
    unfold WalletSyncFacts.block_inputs in Eb. rewrite Er in Eb |- *. cbn [mbind option_bind] in Eb |- *. by rewrite Eb. }
  split; [done|]. unfold WalletSync.process_blocks. cbn [foldl mbind option_bind]. rewrite E. cbn [mbind option_bind]. split.
  { intros _ B. edestruct processBlock_scanned as (ws' & E' & Eh & Eck & Hs'); [exact Hs|exact B|].
    exists ws'. split; [exact E'|]. split; [exact Eh|]. split; [exact Eck|]. intros p k w _ Hp Hw Hi. apply Hp.
    by eapply scanned_images. }
  intros Hne [new En]. unfold WalletSync.processBlock. unfold getCurrentScanHeight, getHeight in *.
  rewrite (proj2 (Z.leb_gt _ _)) by (unfold getHeight; lia). unfold WalletSyncFacts.block_inputs in En.
  destruct (processBlockOutputs ws next) as [raw'|]; [|done]. cbn [mbind option_bind] in En |- *. rewrite En.
  destruct (store_scan _ _ _) as [s|]; [|done]. cbn [mbind option_bind]. unfold storeBlockHash.
  rewrite (proj2 (Z.ltb_lt _ _)) by lia. rewrite (proj2 (Z.eqb_neq _ 0)) by done.
  rewrite (proj2 (Z.eqb_neq (wb_blockHeight next) _)); [done|]. words. rewrite Z.mod_small by lia. lia.
Qed.

(** an input that a sent transaction has locked is forgotten when the chain
    forks, also when it was received below the fork: the sub wallet has no
    input with its key image any more, although nothing on the chain has spent it and
    the block that brought it is not read again. *)
Theorem fork_forgets_locked_input s R Sp hashes k w i forkHeight :
  scanned s R Sp hashes -> m_subWallets s !! k = Some w -> i ∈ m_lockedInputs w -> blockHeight i < forkHeight ->
  (k, i) ∈ R /\ Sp !! keyImage i = None /\
  exists w', m_subWallets (removeForkedTransactions s forkHeight) !! k = Some w' /\ keyImage i ∉ key_images w'.
Proof using Type.
  intros H Hw Hi Hb.
  assert (i ∈ unspent_of k R Sp) as [HR Hs]%elem_of_unspent
    by (rewrite <- (sc_unspent _ _ _ _ H k w Hw); apply elem_of_app; by right).
  split; [done|]. split; [done|]. exists (removeForkedInputs w forkHeight). cbn. rewrite lookup_fmap, Hw. split; [done|].
  pose proof (images_nodup _ (sc_ok _ _ _ _ H) k w (sc_full _ _ _ _ H) Hw) as Hn.
  intros Hin. pose proof (elem_of_submseteq _ _ _ Hin (removeForked_kept w forkHeight)) as Hin'.
  assert (keyImage i ∈ keyImage <$> m_lockedInputs w) as Hl by by apply list_elem_of_fmap_2.
  unfold key_images, wallet_inputs in Hn. rewrite !fmap_app in Hn. apply NoDup_app in Hn as (_ & Hd & (_ & Hd' & _)%NoDup_app).
  rewrite fmap_app in Hin'. apply elem_of_app in Hin' as [Hin'|Hin'].
  - apply (Hd _ Hin'). apply elem_of_app. by left.
  - by apply (Hd' _ Hl).
Qed.
End Sync.

(** ** Known blocks *)

(** The hashes of a chain from a height on, stored one after the other. *)
Fixpoint store_hashes (s : SynchronizationStatus) (height : Z) (l : list Hash) : option SynchronizationStatus :=
  match l with
  | [] => Some s
  | hash :: l => s ← storeBlockHash s hash height; store_hashes s (height + 1) l
  end.

(** The hashes at the heights of which the number is a multiple of the interval. *)
Fixpoint interval_hashes (height : Z) (l : list Hash) : list Hash :=
  match l with
  | [] => []
  | hash :: l =>
      (if height mod BLOCK_HASH_CHECKPOINTS_INTERVAL =? 0 then [hash] else []) ++ interval_hashes (height + 1) l
  end.

Lemma take_removelast {A} (x : A) l n : (length l <= n)%nat ->
  (if (n <? length (x :: l))%nat then removelast (x :: l) else x :: l) = take n (x :: l).
Proof.
  intros Hl. cbn [length]. destruct (Nat.ltb_spec n (S (length l))).
  - assert (n = length l) as -> by lia. by rewrite removelast_firstn_len.
  - by rewrite take_ge by (cbn; lia).
Qed.

Lemma store_hashes_spec l : forall s height,
  (length (m_lastKnownBlockHashes s) <= LAST_KNOWN_BLOCK_HASHES_SIZE)%nat -> 0 <= height ->
  height + Z.of_nat (length l) <= 2 ^ 64 ->
  m_lastKnownBlockHeight s = 0 \/ height = m_lastKnownBlockHeight s + 1 ->
  exists s', store_hashes s height l = Some s' /\
    m_lastKnownBlockHashes s' = take LAST_KNOWN_BLOCK_HASHES_SIZE (reverse l ++ m_lastKnownBlockHashes s) /\
    m_blockHashCheckpoints s' = reverse (interval_hashes height l) ++ m_blockHashCheckpoints s /\
    (l <> [] -> m_lastKnownBlockHeight s' = height + Z.of_nat (length l) - 1).
Proof.
  induction l as [|hash l IH]; intros s height Hl H0 Hh Hlast.
  { exists s. split; [done|]. split; [by rewrite take_ge|done]. }
  cbn [length] in Hh. destruct (storeBlockHash_next s hash height) as (s1 & E1 & Eh & _); [words; lia|tauto|].
  pose proof E1 as E1'. unfold storeBlockHash in E1'. destruct (_ && _ && _); [done|]. apply (inj Some) in E1'.
  rewrite take_removelast in E1' by done.
  destruct (IH s1 (height + 1)) as (s' & E & H1 & H2 & H3);
    [subst s1; cbn [m_lastKnownBlockHashes]; rewrite length_take; lia|lia|lia|right; lia|].
  exists s'. cbn [store_hashes]. rewrite E1. cbn [mbind option_bind]. split; [exact E|].
  rewrite H1, H2, <- E1'. cbn [m_lastKnownBlockHashes m_blockHashCheckpoints interval_hashes]. split_and!.
  - rewrite reverse_cons, <- app_assoc. cbn [app]. rewrite !take_app, take_take. f_equal. f_equal. lia.
  - rewrite reverse_app, <- app_assoc. f_equal. by destruct (_ =? 0).
  - intros _. cbn [length]. destruct l; [|rewrite H3 by done; cbn [length]; lia]. cbn in E. apply (inj Some) in E as <-. cbn. lia.
Qed.

(** along the blocks of a chain [storeBlockHash] never throws; the
    checkpoints a wallet sends are the hashes of the last hundred blocks, the
    latest first, and after them those of the blocks at multiples of five thousand,
    so their number is bounded. *)
Theorem known_blocks_correct l height :
  0 <= height -> height + Z.of_nat (length l) <= 2 ^ 64 ->
  exists s', store_hashes (mkSynchronizationStatus [] [] 0) height l = Some s' /\
    getBlockHashCheckpoints s' = take LAST_KNOWN_BLOCK_HASHES_SIZE (reverse l) ++ reverse (interval_hashes height l) /\
    Z.of_nat (length (getBlockHashCheckpoints s')) <= 100 + Z.of_nat (length l) / BLOCK_HASH_CHECKPOINTS_INTERVAL + 1.
Proof.
  intros H0 Hh. destruct (store_hashes_spec l (mkSynchronizationStatus [] [] 0) height) as (s' & E & H1 & H2 & _);
    [cbn; lia|done..|by left|].
  exists s'. split; [done|]. cbn in H1, H2. rewrite !app_nil_r in *. unfold getBlockHashCheckpoints. rewrite H1, H2. split; [done|].
  rewrite length_app, length_take, !length_reverse.
  assert (Z.of_nat (length (interval_hashes height l)) <= (height + Z.of_nat (length l) - 1) / BLOCK_HASH_CHECKPOINTS_INTERVAL -
    (height - 1) / BLOCK_HASH_CHECKPOINTS_INTERVAL) as Hi; [|].
  { clear. unfold BLOCK_HASH_CHECKPOINTS_INTERVAL. revert height. induction l as [|x l IH]; intros h; [cbn; rewrite Z.add_0_r; lia|].
    cbn [interval_hashes length]. rewrite length_app. specialize (IH (h + 1)). unfold BLOCK_HASH_CHECKPOINTS_INTERVAL in *.
    destruct (Z.eqb_spec (h mod 5000) 0); cbn [length]; zlia. }
  unfold LAST_KNOWN_BLOCK_HASHES_SIZE, BLOCK_HASH_CHECKPOINTS_INTERVAL in *. zlia.
Qed.

(** ** Witnesses *)

(** Keys on a curve of texts: a key is derived by adding its number and the sum of the
    derivation to each letter. *)
Definition toy_derivation (public : PublicKey) (secret : SecretKey) : list Z := public.
Definition toy_derive (derivation : list Z) (n : Z) (k : PublicKey) : PublicKey := (fun x => x + (n + sumZ derivation)) <$> k.
Definition toy_underive (derivation : list Z) (n : Z) (k : PublicKey) : PublicKey := (fun x => x - (n + sumZ derivation)) <$> k.

Lemma toy_curve d n p k : toy_underive d n p = k <-> toy_derive d n k = p.
Proof.
  unfold toy_underive, toy_derive. split; intros <-; rewrite <- list_fmap_compose, <- list_fmap_id;
    apply list_fmap_ext; intros _ x _; cbn; lia.
Qed.
Definition toy_secret (derivation : list Z) (n : Z) (k : SecretKey) : SecretKey := k.
Definition toy_image (public : PublicKey) (secret : SecretKey) : list Z := public.

Definition toy_block (height n : Z) (images : list (list Z)) : WalletBlockInfo :=
  mkWalletBlockInfo
    (mkRawCoinbaseTransaction [mkWalletKeyOutput (toy_derive [n] 0 [3]) 500 None] [n; 1] [n] 0)
    [mkRawTransaction (mkRawCoinbaseTransaction [] [n; 2] [n; 9] 0) [] ((fun image => (500, [], image)) <$> images)]
    height [n; 7] 1600000000.

(** A daemon that knows the indices of the base transactions of [known]. *)
Definition toy_daemon (known : list Z) : Nigel :=
  mkNigel 10 (fun _ _ _ => None) (fun _ _ => Some (list_to_map ((fun n => ([n; 1], [0])) <$> known))) (fun _ => None).

Local Notation toy_process := (processBlock toy_derivation toy_underive toy_derive toy_secret toy_image []).
Local Notation toy_inputs := (block_inputs toy_derivation toy_underive toy_derive toy_secret toy_image []).

Definition toy_start : WalletSynchronizer :=
  mkWalletSynchronizer (mkSynchronizationStatus [] [] 0) 0 1 [5]
    (default (mkSubWallets [] ∅ [] [] [] false ∅) (SubWallets_new Some 0 [3] [5] [] 1 false)).

Definition toy_one : WalletSynchronizer := default toy_start (toy_process (toy_daemon [11; 12]) toy_start (toy_block 1 11 [])).

(** The second block spends the output of the first one. *)
Definition toy_second : WalletBlockInfo := toy_block 2 12 [toy_derive [11] 0 [3]].
Definition toy_two : WalletSynchronizer := default toy_start (toy_process (toy_daemon [11; 12]) toy_one toy_second).

Local Notation toy_sent := (sent_outputs toy_derivation toy_derive toy_secret toy_image (toy_daemon [11; 12])).
Local Notation toy_extends := (block_extends toy_derivation toy_underive toy_derive toy_secret toy_image).

Local Ltac compute_fields :=
  split;
  [apply Forall_forall; intros tx Htx; split;
     [intros n o k _ _; apply toy_curve|revert tx Htx; apply Forall_forall; apply (bool_decide_unpack _); vm_compute; exact I]
  |apply (bool_decide_unpack _); vm_compute; exact I
  |try (vm_compute; reflexivity)..];
  try (apply (bool_decide_unpack _); vm_compute; exact I).

Lemma toy_extends_one : toy_extends (toy_daemon [11; 12]) toy_start (toy_block 1 11 []) [] ∅ [].
Proof.
  compute_fields.
  - intros image Hi. vm_compute in Hi. by apply elem_of_nil in Hi.
  - intros h _. apply not_elem_of_nil.
Qed.

Definition toy_spends : spends := spend_all ∅ (block_images (toy_block 1 11 [])) 1.

Lemma toy_extends_two :
  toy_extends (toy_daemon [11; 12]) toy_one toy_second ([] ++ toy_sent toy_start (toy_block 1 11 [])) toy_spends
    ([] ++ block_hashes (toy_block 1 11 [])).
Proof.
  compute_fields.
  - intros image Hi. split; [apply lookup_empty|]. apply list_elem_of_singleton in Hi as ->.
    apply (bool_decide_unpack _). vm_compute. exact I.
  - apply Forall_forall. apply (bool_decide_unpack _). vm_compute. exact I.
Qed.

Lemma toy_run :
  sync_run (fun _ => []) Some toy_derivation toy_underive toy_derive toy_secret toy_image [] toy_two
    (([] ++ toy_sent toy_start (toy_block 1 11 [])) ++ toy_sent toy_one toy_second)
    (spend_all toy_spends (block_images toy_second) 2)
    (([] ++ block_hashes (toy_block 1 11 [])) ++ block_hashes toy_second).
Proof.
  eapply (run_block _ _ _ _ _ _ _ _ (toy_daemon [11; 12]) toy_one); [|exact toy_extends_two|vm_compute; reflexivity].
  eapply (run_block _ _ _ _ _ _ _ _ (toy_daemon [11; 12]) toy_start); [|exact toy_extends_one|vm_compute; reflexivity].
  apply (run_new _ _ _ _ _ _ _ _ 0 [3] [5] [] 1 false). reflexivity.
Qed.

Lemma wallet_scan_correct_witness :
  exists w, m_subWallets (ws_subWallets toy_two) !! [3] = Some w /\
    inputs_sum (wallet_inputs w) = 1000 /\ inputs_sum (m_unspentInputs w) = 500.
Proof.
  destruct (m_subWallets (ws_subWallets toy_two) !! [3]) as [w|] eqn:E; [|discriminate (eq_trans (eq_sym E) eq_refl)].
  exists w. split; [reflexivity|].
  rewrite (proj2 (proj2 (proj1 (wallet_scan_correct _ _ _ _ _ _ _ _ _ _ _ _ toy_run) [3] w E))).
  split; [vm_compute; reflexivity|]. vm_compute in E. injection E as <-. reflexivity.
Defined.

Lemma outputs_recognised_witness :
  exists inputs,
    processTransactionOutputs toy_derivation toy_underive toy_derive toy_secret toy_image [] toy_start
      (wb_coinbaseTransaction (toy_block 1 11 [])) 1 = Some inputs /\
    exists i, ([3], i) ∈ inputs /\ amount i = 500 /\ keyImage i = toy_derive [11] 0 [3].
Proof.
  destruct (outputs_recognised toy_derivation toy_underive toy_derive toy_secret toy_image [] toy_start
    (wb_coinbaseTransaction (toy_block 1 11 [])) 1) as (inputs & E & _ & H).
  - apply new_container_ok; reflexivity.
  - reflexivity.
  - exists inputs. split; [exact E|]. eexists. split.
    + eapply (H 0%nat); [reflexivity|apply lookup_insert_eq|reflexivity|reflexivity].
    + split; reflexivity.
Defined.

(** The next block at the start, for a daemon that knows only that one. *)
Lemma toy_extends_next : toy_extends (toy_daemon [12]) toy_start (toy_block 2 12 []) [] ∅ [].
Proof.
  compute_fields.
  - intros image Hi. vm_compute in Hi. by apply elem_of_nil in Hi.
  - intros h _. apply not_elem_of_nil.
Qed.

Lemma toy_start_scanned : scanned (ws_subWallets toy_start) [] ∅ [].
Proof.
  eapply (sync_run_scanned (fun _ => []) Some toy_derivation toy_underive toy_derive toy_secret toy_image [] toy_start).
  apply (run_new _ _ _ _ _ _ _ _ 0 [3] [5] [] 1 false). reflexivity.
Qed.

Lemma toy_one_scanned :
  scanned (ws_subWallets toy_one) ([] ++ toy_sent toy_start (toy_block 1 11 [])) toy_spends ([] ++ block_hashes (toy_block 1 11 [])).
Proof.
  eapply (sync_run_scanned (fun _ => []) Some toy_derivation toy_underive toy_derive toy_secret toy_image [] toy_one).
  eapply (run_block _ _ _ _ _ _ _ _ (toy_daemon [11; 12]) toy_start); [|exact toy_extends_one|vm_compute; reflexivity].
  apply (run_new _ _ _ _ _ _ _ _ 0 [3] [5] [] 1 false). reflexivity.
Qed.

(** What the scan finds in the first block, before the indices. *)
Definition toy_raw : outputs :=
  default [] (processBlockOutputs toy_derivation toy_underive toy_derive toy_secret toy_image [] toy_start (toy_block 1 11 [])).

Definition toy_found : PublicKey * TransactionInput :=
  ([3], mkTransactionInput (toy_derive [11] 0 [3]) 500 1 [11] 0 None (toy_derive [11] 0 [3]) 0 0 [11; 1]).

Lemma missing_index_skips_block_witness :
  (exists ws', process_blocks toy_derivation toy_underive toy_derive toy_secret toy_image [] (toy_daemon [12]) toy_start
    [toy_block 1 11 []; toy_block 2 12 []] = Some ws' /\ getCurrentScanHeight ws' = 2 /\
    forall w, m_subWallets (ws_subWallets ws') !! [3] = Some w -> toy_derive [11] 0 [3] ∉ key_images w) /\
  process_blocks toy_derivation toy_underive toy_derive toy_secret toy_image [] (toy_daemon [13]) toy_one
    [toy_block 2 12 []; toy_block 3 13 []] = None.
Proof.
  split.
  - destruct (missing_index_skips_block toy_derivation toy_underive toy_derive toy_secret toy_image [] (toy_daemon [12]) toy_start
      (toy_block 1 11 []) (toy_block 2 12 []) toy_raw [] ∅ [] toy_start_scanned) as (_ & H & _).
    1-6: vm_compute; reflexivity || (split; congruence) || congruence.
    destruct (H eq_refl toy_extends_next) as (ws' & E & Eh & _ & Hw). exists ws'. split; [exact E|]. split; [exact Eh|].
    intros w Hl. refine (Hw toy_found [3] w _ _ Hl); [|apply (bool_decide_unpack _); vm_compute; exact I].
    assert (toy_raw = [toy_found]) as -> by (vm_compute; reflexivity). by left.
  - eapply (missing_index_skips_block toy_derivation toy_underive toy_derive toy_secret toy_image [] (toy_daemon [13]) toy_one
      (toy_block 2 12 []) (toy_block 3 13 []) _ _ _ _ toy_one_scanned);
      vm_compute; reflexivity || (split; congruence) || congruence || (eexists; reflexivity).
Defined.

(** The wallet after the first block, with a transaction on its way. *)
Definition toy_sending : SubWallets :=
  default (ws_subWallets toy_one) (SubWallets_markInputAsLocked (ws_subWallets toy_one) (toy_derive [11] 0 [3]) [3]).

Lemma toy_sending_scanned :
  scanned toy_sending ([] ++ toy_sent toy_start (toy_block 1 11 [])) toy_spends ([] ++ block_hashes (toy_block 1 11 [])).
Proof.
  eapply (sync_run_scanned (fun _ => []) Some toy_derivation toy_underive toy_derive toy_secret toy_image []
    (with_container toy_one toy_sending)).
  apply (run_lock _ _ _ _ _ _ _ _ toy_one _ _ _ (toy_derive [11] 0 [3]) [3]); [|vm_compute; reflexivity].
  eapply (run_block _ _ _ _ _ _ _ _ (toy_daemon [11; 12]) toy_start); [|exact toy_extends_one|vm_compute; reflexivity].
  apply (run_new _ _ _ _ _ _ _ _ 0 [3] [5] [] 1 false). reflexivity.
Qed.

Definition toy_locked : SubWallet :=
  default (SubWallet_new [] [] [] 0 0 false) (m_subWallets toy_sending !! [3]).
Definition toy_input : TransactionInput :=
  mkTransactionInput (toy_derive [11] 0 [3]) 500 1 [11] 0 (Some 0) (toy_derive [11] 0 [3]) 0 0 [11; 1].

Lemma fork_forgets_locked_input_witness :
  m_lockedInputs toy_locked = [toy_input] /\
  exists w', m_subWallets (removeForkedTransactions toy_sending 2) !! [3] = Some w' /\ toy_derive [11] 0 [3] ∉ key_images w'.
Proof.
  split; [vm_compute; reflexivity|].
  eapply (fork_forgets_locked_input toy_sending _ _ _ [3] toy_locked toy_input 2 toy_sending_scanned);
    [vm_compute; reflexivity| |reflexivity].
  assert (m_lockedInputs toy_locked = [toy_input]) as -> by (vm_compute; reflexivity). left.
Defined.

Lemma known_blocks_correct_witness :
  exists s', store_hashes (mkSynchronizationStatus [] [] 0) 4999 [[1]; [2]; [3]] = Some s' /\
    getBlockHashCheckpoints s' = [[3]; [2]; [1]; [2]].
Proof.
  destruct (known_blocks_correct [[1]; [2]; [3]] 4999) as (s' & E & H & _); [lia|cbn; lia|].
  exists s'. split; [exact E|]. rewrite H. reflexivity.
Defined.
