(* ===== verification/WalletBackend.v ===== *)
(** * The wallet backend

    src/src/wallet_backend/wallet_backend.cpp: creation, saving and opening of a
    wallet, and the operations that pause the synchroniser to change the
    container.  A wallet is its synchroniser with the container they share; the file is
    its bytes.  PBKDF2, AES and the text form of JSON belong to libraries and are
    arguments; so is the random salt. *)

From Stdlib Require Import String.
From stdpp Require Import gmap.
From S2P Require Import Prelude Bytes StringTools Errors Types Mnemonics Base58 Addresses Utilities WalletTypes SubWallet SubWallets WalletFacts WalletJson WalletSync.
#[local] Open Scope list_scope.
#[local] Open Scope Z_scope.

(** [Constants] *)
Definition IS_A_WALLET_IDENTIFIER : list Z :=
  [0x49; 0x66; 0x20; 0x49; 0x20; 0x70; 0x75; 0x6c; 0x6c; 0x20; 0x74; 0x68; 0x61; 0x74; 0x20; 0x6f; 0x66; 0x66; 0x2c;
   0x20; 0x77; 0x69; 0x6c; 0x6c; 0x20; 0x79; 0x6f; 0x75; 0x20; 0x64; 0x69; 0x65; 0x3f; 0x0a; 0x49; 0x74; 0x20; 0x77;
   0x6f; 0x75; 0x6c; 0x64; 0x20; 0x62; 0x65; 0x20; 0x65; 0x78; 0x74; 0x72; 0x65; 0x6d; 0x65; 0x6c; 0x79; 0x20; 0x70;
   0x61; 0x69; 0x6e; 0x66; 0x75; 0x6c; 0x2e].
Definition IS_CORRECT_PASSWORD_IDENTIFIER : list Z :=
  [0x59; 0x6f; 0x75; 0x27; 0x72; 0x65; 0x20; 0x61; 0x20; 0x62; 0x69; 0x67; 0x20; 0x67; 0x75; 0x79; 0x2e; 0x0a; 0x46;
   0x6f; 0x72; 0x20; 0x79; 0x6f; 0x75; 0x2e].
Definition WALLET_FILE_FORMAT_VERSION : Z := 0.

(** ** JSON of the synchroniser and of the wallet *)

Definition hashes_member (j : JSON) (name : string) : option (list Hash) :=
  l ← getArrayFromJSON j name;
  mapM (fun x => s ← getStringFromJSONString x; pod_fromString s) l.

Definition SynchronizationStatus_toJSON (s : SynchronizationStatus) : JSON :=
  JObject [("blockHashCheckpoints", JArray (pod_toJSON <$> m_blockHashCheckpoints s));
    ("lastKnownBlockHashes", JArray (pod_toJSON <$> m_lastKnownBlockHashes s));
    ("lastKnownBlockHeight", JNumber (m_lastKnownBlockHeight s))]%string.

Definition SynchronizationStatus_fromJSON (j : JSON) : option SynchronizationStatus :=
  blockHashCheckpoints ← hashes_member j "blockHashCheckpoints";
  lastKnownBlockHashes ← hashes_member j "lastKnownBlockHashes";
  lastKnownBlockHeight ← getUint64FromJSON j "lastKnownBlockHeight";
  Some (mkSynchronizationStatus blockHashCheckpoints lastKnownBlockHashes lastKnownBlockHeight).

Definition WalletSynchronizer_toJSON (ws : WalletSynchronizer) : JSON :=
  JObject [("transactionSynchronizerStatus", SynchronizationStatus_toJSON (m_syncStatus ws));
    ("startTimestamp", JNumber (m_startTimestamp ws)); ("startHeight", JNumber (m_startHeight ws));
    ("privateViewKey", pod_toJSON (ws_privateViewKey ws))]%string.

(** The container is given by [init]. *)
Definition WalletSynchronizer_fromJSON (j : JSON) (subWallets : SubWallets) : option WalletSynchronizer :=
  status ← getObjectFromJSON j "transactionSynchronizerStatus";
  status ← SynchronizationStatus_fromJSON status;
  startTimestamp ← getUint64FromJSON j "startTimestamp";
  startHeight ← getUint64FromJSON j "startHeight";
  privateViewKey ← pod_member j "privateViewKey";
  Some (mkWalletSynchronizer status startTimestamp startHeight privateViewKey subWallets).

Definition WalletBackend_toJSON (ws : WalletSynchronizer) : JSON :=
  JObject [("walletFileFormatVersion", JNumber WALLET_FILE_FORMAT_VERSION);
    ("subWallets", SubWallets_toJSON (ws_subWallets ws)); ("walletSynchronizer", WalletSynchronizer_toJSON ws)]%string.

(** A pointer to a wallet: none, a wallet that [std::make_shared] made and nothing was
    read into, whose synchroniser and container are null, or one that was read. *)
Inductive WalletPointer := NullWallet | UnreadWallet | ReadWallet (ws : WalletSynchronizer).

(** Into a wallet that was just made. *)
Definition WalletBackend_fromJSON (j : JSON) : option (ErrorCode * WalletPointer) :=
  version ← getUint64FromJSON j "walletFileFormatVersion";
  if negb (version =? WALLET_FILE_FORMAT_VERSION) then Some (UNSUPPORTED_WALLET_FILE_FORMAT_VERSION, UnreadWallet)
  else
    subWallets ← getObjectFromJSON j "subWallets";
    subWallets ← SubWallets_fromJSON subWallets;
    synchronizer ← getObjectFromJSON j "walletSynchronizer";
    ws ← WalletSynchronizer_fromJSON synchronizer subWallets;
    Some (SUCCESS, ReadWallet ws).

(** ** Files *)

(** The data without the identifier. *)
Definition hasMagicIdentifier (data identifier : list Z) (tooSmallError wrongIdentifierError : ErrorCode) : ErrorCode + list Z :=
  if (length data <? length identifier)%nat then inl tooSmallError
  else if bool_decide (take (length identifier) data <> identifier) then inl wrongIdentifierError
  else inr (drop (length identifier) data).

Section File.
Context (pbkdf2 : list Z -> list Z -> list Z) (aes_encrypt : list Z -> list Z -> list Z -> list Z)
  (aes_decrypt : list Z -> list Z -> list Z -> option (list Z))
  (json_text : JSON -> list Z) (json_parse : list Z -> option JSON).

(** The bytes of the file. *)
Definition unsafeSave (ws : WalletSynchronizer) (password salt : list Z) : list Z :=
  let walletData := IS_CORRECT_PASSWORD_IDENTIFIER ++ c_string (json_text (WalletBackend_toJSON ws)) in
  IS_A_WALLET_IDENTIFIER ++ salt ++ aes_encrypt (pbkdf2 password salt) salt walletData.

(** The bytes of the file, [None] where it cannot be opened.  A value of the wrong
    type throws [std::invalid_argument], which is caught.  A wallet
    of another version is returned beside the error, with nothing read into it. *)
Definition openWallet (file : option (list Z)) (password : list Z) : ErrorCode * WalletPointer :=
  match file with
  | None => (FILENAME_NON_EXISTENT, NullWallet)
  | Some buffer =>
  match hasMagicIdentifier buffer IS_A_WALLET_IDENTIFIER NOT_A_WALLET_FILE NOT_A_WALLET_FILE with
  | inl error => (error, NullWallet)
  | inr buffer =>
      if (length buffer <? 16)%nat then (WALLET_FILE_CORRUPTED, NullWallet)
      else
        let salt := take 16 buffer in
        let buffer := drop 16 buffer in
        match aes_decrypt (pbkdf2 password salt) salt buffer with
        | None => (WRONG_PASSWORD, NullWallet)
        | Some decryptedData =>
            match hasMagicIdentifier decryptedData IS_CORRECT_PASSWORD_IDENTIFIER WALLET_FILE_CORRUPTED WRONG_PASSWORD with
            | inl error => (error, NullWallet)
            | inr decryptedData =>
                match json_parse (c_string decryptedData) with
                | None => (WALLET_FILE_CORRUPTED, NullWallet)
                | Some walletJson => default (WALLET_FILE_CORRUPTED, NullWallet) (WalletBackend_fromJSON walletJson)
                end
            end
        end
  end
  end.
End File.

(** ** Creation *)

Section Keys.
Context (cn_fast_hash : list Z -> list Z) (check_key : PublicKey -> bool)
  (secret_key_to_public_key : SecretKey -> option PublicKey) (generateViewFromSpend : SecretKey -> SecretKey) (now : Z).

(** Of a wallet that was not read from a file. *)
Definition init (s : SubWallets) : option WalletSynchronizer :=
  '(startHeight, startTimestamp) ← getMinInitialSyncStart now s;
  Some (mkWalletSynchronizer (mkSynchronizationStatus [] [] 0) startTimestamp startHeight (m_privateViewKey s) s).

Definition WalletBackend_new (privateSpendKey privateViewKey : SecretKey) (scanHeight : Z) (newWallet : bool)
    : option WalletSynchronizer :=
  address ← privateKeysToAddress cn_fast_hash secret_key_to_public_key privateSpendKey privateViewKey;
  s ← SubWallets_new secret_key_to_public_key now privateSpendKey privateViewKey address scanHeight newWallet;
  init s.

(** [filenameError] and [saveError] are the answers of [checkNewWalletFilename] and of
    [save]. *)
Definition importWalletFromKeys (filenameError saveError : ErrorCode) (privateSpendKey privateViewKey : SecretKey)
    (scanHeight : Z) : option (ErrorCode * option WalletSynchronizer) :=
  if bool_decide (filenameError <> SUCCESS) then Some (filenameError, None)
  else
    wallet ← WalletBackend_new privateSpendKey privateViewKey scanHeight false;
    Some (saveError, Some wallet).

Definition importWalletFromSeed (filenameError saveError : ErrorCode) (mnemonicSeed : list Z) (scanHeight : Z)
    : option (ErrorCode * option WalletSynchronizer) :=
  if bool_decide (filenameError <> SUCCESS) then Some (filenameError, None)
  else
    match MnemonicToPrivateKey mnemonicSeed with
    | inl mnemonicError => Some (mnemonicError, None)
    | inr privateSpendKey =>
        wallet ← WalletBackend_new privateSpendKey (generateViewFromSpend privateSpendKey) scanHeight false;
        Some (saveError, Some wallet)
    end.

(** The spend key is drawn by [generate_keys]. *)
Definition createWallet (filenameError saveError : ErrorCode) (spendKey : SecretKey)
    : option (ErrorCode * option WalletSynchronizer) :=
  if bool_decide (filenameError <> SUCCESS) then Some (filenameError, None)
  else
    wallet ← WalletBackend_new spendKey (generateViewFromSpend spendKey) 0 true;
    Some (saveError, Some wallet).

(** ** Keys *)

Definition getSpendKeys (s : SubWallets) (address : list Z) : option (ErrorCode * PublicKey * SecretKey) :=
  '(publicSpendKey, _) ← addressToKeys cn_fast_hash check_key address;
  '(error, privateSpendKey) ← getPrivateSpendKey s publicSpendKey;
  Some (error, publicSpendKey, privateSpendKey).

Definition getMnemonicSeedForAddress (s : SubWallets) (address : list Z) : option (ErrorCode * list Z) :=
  '(error, _, privateSpendKey) ← getSpendKeys s address;
  if bool_decide (error <> SUCCESS) then Some (error, [])
  else if bool_decide (generateViewFromSpend privateSpendKey <> m_privateViewKey s) then Some (KEYS_NOT_DETERMINISTIC, [])
  else
    text ← PrivateKeyToMnemonic privateSpendKey;
    Some (SUCCESS, text).

Definition getMnemonicSeed (s : SubWallets) : option (ErrorCode * list Z) :=
  address ← getPrimaryAddress s;
  getMnemonicSeedForAddress s address.

(** ** Changes while the synchroniser rests *)

Definition WalletBackend_reset (ws : WalletSynchronizer) (scanHeight timestamp : Z) : WalletSynchronizer :=
  let scanHeight := if negb (timestamp =? 0) then timestampToScanHeight timestamp else scanHeight in
  let ws := WalletSynchronizer_reset ws scanHeight in
  with_container ws (SubWallets_reset (ws_subWallets ws) scanHeight).

(** A sub wallet that was imported is searched for from its height on. *)
Definition rescan_from (ws : WalletSynchronizer) (error : ErrorCode) (s : SubWallets) (scanHeight : Z) : WalletSynchronizer :=
  let ws := with_container ws s in
  if bool_decide (error = SUCCESS) && (scanHeight <=? getCurrentScanHeight ws)
  then let ws := WalletSynchronizer_reset ws scanHeight in with_container ws (SubWallets_reset (ws_subWallets ws) scanHeight)
  else ws.

Definition WalletBackend_importSubWallet (ws : WalletSynchronizer) (privateSpendKey : SecretKey) (scanHeight : Z)
    : option (ErrorCode * list Z * WalletSynchronizer) :=
  '(error, address, s) ← importSubWallet cn_fast_hash secret_key_to_public_key (ws_subWallets ws) privateSpendKey scanHeight;
  Some (error, address, rescan_from ws error s scanHeight).

Definition WalletBackend_importViewSubWallet (ws : WalletSynchronizer) (publicSpendKey : PublicKey) (scanHeight : Z)
    : option (ErrorCode * list Z * WalletSynchronizer) :=
  '(error, address, s) ← importViewSubWallet cn_fast_hash secret_key_to_public_key (ws_subWallets ws) publicSpendKey scanHeight;
  Some (error, address, rescan_from ws error s scanHeight).

Definition getTransactionsRange (s : SubWallets) (startHeight endHeight : Z) : list WalletTransaction :=
  filter (fun tx => startHeight <= tx_blockHeight tx /\ tx_blockHeight tx < endHeight) (m_transactions s).

End Keys.
