(* ===== verification/WalletBackendTheorems.v ===== *)
(** * Theorems about the wallet backend

    A saved wallet opens again, a seed restores a wallet, and what happens to the
    inputs of a wallet that is reset and reads its blocks again. *)

From Stdlib Require Import String.
From stdpp Require Import gmap.
From S2P Require Import Prelude Config Bytes StringTools Errors Types Mnemonics Base58 Addresses Utilities WalletBlocks WalletTypes SubWallet SubWallets WalletFacts WalletJson WalletSync WalletSyncFacts WalletSyncTheorems WalletBackend.
Import parameters.
#[local] Open Scope list_scope.
#[local] Open Scope Z_scope.

(** ** The file *)

Record sync_ok (ws : WalletSynchronizer) : Prop := {
  so_checkpoints : Forall (pod_ok 32) (m_blockHashCheckpoints (m_syncStatus ws));
  so_hashes : Forall (pod_ok 32) (m_lastKnownBlockHashes (m_syncStatus ws));
  so_height : fits 64 (m_lastKnownBlockHeight (m_syncStatus ws));
  so_timestamp : fits 64 (m_startTimestamp ws);
  so_start : fits 64 (m_startHeight ws);
  so_view : pod_ok 32 (ws_privateViewKey ws);
  so_values : values_ok (ws_subWallets ws) }.

Lemma object_member_at j name m : getJsonValue j name = Some (JObject m) -> getObjectFromJSON j name = Some (JObject m).
Proof. intros E. unfold getObjectFromJSON. by rewrite E. Qed.

Lemma hashes_member_at j name l :
  getJsonValue j name = Some (JArray (pod_toJSON <$> l)) -> Forall (pod_ok 32) l -> hashes_member j name = Some l.
Proof. intros E H. unfold hashes_member. rewrite (array_member_at _ _ _ E). by apply keys_back. Qed.

Lemma SynchronizationStatus_back s :
  Forall (pod_ok 32) (m_blockHashCheckpoints s) -> Forall (pod_ok 32) (m_lastKnownBlockHashes s) ->
  fits 64 (m_lastKnownBlockHeight s) -> SynchronizationStatus_fromJSON (SynchronizationStatus_toJSON s) = Some s.
Proof.
  intros H1 H2 H3. unfold SynchronizationStatus_fromJSON.
  rewrite (hashes_member_at (SynchronizationStatus_toJSON s) "blockHashCheckpoints" _ eq_refl H1). cbn [mbind option_bind].
  rewrite (hashes_member_at (SynchronizationStatus_toJSON s) "lastKnownBlockHashes" _ eq_refl H2). cbn [mbind option_bind].
  read_member. by destruct s.
Qed.

Lemma WalletSynchronizer_back ws s :
  sync_ok ws -> WalletSynchronizer_fromJSON (WalletSynchronizer_toJSON ws) s = Some (with_container ws s).
Proof.
  intros []. unfold WalletSynchronizer_fromJSON.
  rewrite (object_member_at (WalletSynchronizer_toJSON ws) "transactionSynchronizerStatus" _ eq_refl). cbn [mbind option_bind].
  fold (SynchronizationStatus_toJSON (m_syncStatus ws)). rewrite SynchronizationStatus_back by done. cbn [mbind option_bind].
  by do 3 read_member.
Qed.

Lemma WalletBackend_back ws :
  sync_ok ws -> WalletBackend_fromJSON (WalletBackend_toJSON ws) = Some (SUCCESS, ReadWallet (with_container ws (reloaded (ws_subWallets ws)))).
Proof.
  intros H. unfold WalletBackend_fromJSON.
  erewrite uint64_member_at; [|reflexivity|unfold WALLET_FILE_FORMAT_VERSION; words; lia]. cbn [mbind option_bind Z.eqb negb].
  rewrite (object_member_at (WalletBackend_toJSON ws) "subWallets" _ eq_refl). cbn [mbind option_bind].
  fold (SubWallets_toJSON (ws_subWallets ws)). rewrite SubWallets_back by apply H. cbn [mbind option_bind].
  rewrite (object_member_at (WalletBackend_toJSON ws) "walletSynchronizer" _ eq_refl). cbn [mbind option_bind].
  fold (WalletSynchronizer_toJSON ws). by rewrite WalletSynchronizer_back.
Qed.

Lemma hasMagicIdentifier_app identifier data e1 e2 : hasMagicIdentifier (identifier ++ data) identifier e1 e2 = inr data.
Proof.
  unfold hasMagicIdentifier. rewrite length_app, (proj2 (Nat.ltb_ge _ _)) by lia.
  rewrite take_app_length, bool_decide_eq_false_2 by (intros H; by apply H). by rewrite drop_app_length.
Qed.

Section File.
Context (pbkdf2 : list Z -> list Z -> list Z) (aes_encrypt : list Z -> list Z -> list Z -> list Z)
  (aes_decrypt : list Z -> list Z -> list Z -> option (list Z))
  (json_text : JSON -> list Z) (json_parse : list Z -> option JSON).

Lemma open_saved file ws password password' salt :
  length salt = 16%nat -> file = unsafeSave pbkdf2 aes_encrypt json_text ws password salt ->
  openWallet pbkdf2 aes_decrypt json_parse (Some file) password' =
  match aes_decrypt (pbkdf2 password' salt) salt (aes_encrypt (pbkdf2 password salt) salt
    (IS_CORRECT_PASSWORD_IDENTIFIER ++ c_string (json_text (WalletBackend_toJSON ws)))) with
  | None => (WRONG_PASSWORD, NullWallet)
  | Some data =>
      match hasMagicIdentifier data IS_CORRECT_PASSWORD_IDENTIFIER WALLET_FILE_CORRUPTED WRONG_PASSWORD with
      | inl error => (error, NullWallet)
      | inr data =>
          match json_parse (c_string data) with
          | None => (WALLET_FILE_CORRUPTED, NullWallet)
          | Some walletJson => default (WALLET_FILE_CORRUPTED, NullWallet) (WalletBackend_fromJSON walletJson)
          end
      end
  end.
Proof using Type.
  intros Hl ->. unfold openWallet, unsafeSave. rewrite hasMagicIdentifier_app.
  rewrite length_app, (proj2 (Nat.ltb_ge _ _)) by lia.
  by rewrite (take_app_length' salt), (drop_app_length' salt) by done.
Qed.

(** C26: a wallet that was saved is opened with its password and comes back
    with its synchroniser as it was and with the container that the file keeps; a password that
    decrypts to nothing, or to data of another beginning, is reported as wrong, and no
    wallet is returned. *)
Theorem saved_wallet_opens ws password salt :
  sync_ok ws -> length salt = 16%nat ->
  (forall key data, aes_decrypt key salt (aes_encrypt key salt data) = Some data) ->
  text_ok (json_text (WalletBackend_toJSON ws)) ->
  json_parse (json_text (WalletBackend_toJSON ws)) = Some (WalletBackend_toJSON ws) ->
  let file := unsafeSave pbkdf2 aes_encrypt json_text ws password salt in
  openWallet pbkdf2 aes_decrypt json_parse (Some file) password =
    (SUCCESS, ReadWallet (with_container ws (reloaded (ws_subWallets ws)))) /\
  (forall password',
     match aes_decrypt (pbkdf2 password' salt) salt (drop 80 file) with
     | None => True
     | Some data => (26 <= length data)%nat /\ take 26 data <> IS_CORRECT_PASSWORD_IDENTIFIER
     end -> openWallet pbkdf2 aes_decrypt json_parse (Some file) password' = (WRONG_PASSWORD, NullWallet)).
Proof using Type.
  intros Hws Hl Hd Ht Hp file. split.
  - rewrite (open_saved file ws password password salt Hl eq_refl), Hd, hasMagicIdentifier_app.
    rewrite (c_string_text _ Ht), (c_string_text _ Ht), Hp. by rewrite WalletBackend_back.
  - intros password' H. rewrite (open_saved file ws password password' salt Hl eq_refl).
    unfold file, unsafeSave in H. rewrite app_assoc, drop_app_length' in H by (rewrite length_app, Hl; reflexivity).
    destruct (aes_decrypt _ _ _) as [data|]; [|done]. destruct H as [Hlen Hne]. unfold hasMagicIdentifier.
    change (length IS_CORRECT_PASSWORD_IDENTIFIER) with 26%nat. rewrite (proj2 (Nat.ltb_ge _ _)) by lia.
    by rewrite bool_decide_eq_true_2.
Qed.
End File.

(** ** The seed *)

Section Seed.
Context (cn_fast_hash : list Z -> list Z) (hash_size : forall buf, pod_ok 32 (cn_fast_hash buf)).
Context (check_key : PublicKey -> bool)
  (secret_key_to_public_key : SecretKey -> option PublicKey) (generateViewFromSpend : SecretKey -> SecretKey) (now : Z).
Local Notation WalletBackend_new := (WalletBackend_new cn_fast_hash secret_key_to_public_key now).

(** The container of a new wallet. *)
Definition new_container (spend view : SecretKey) (public : PublicKey) (text : list Z) (scanHeight timestamp : Z) : SubWallets :=
  add_wallet (mkSubWallets [] ∅ [] [] view false ∅) public (SubWallet_new public spend text scanHeight timestamp true).

Lemma new_container_list spend view public text scanHeight timestamp :
  map_to_list (m_subWallets (new_container spend view public text scanHeight timestamp)) =
  [(public, SubWallet_new public spend text scanHeight timestamp true)].
Proof using Type. cbn. rewrite insert_empty. apply map_to_list_singleton. Qed.

Lemma new_container_primary spend view public text scanHeight timestamp :
  getPrimaryAddress (new_container spend view public text scanHeight timestamp) = Some text.
Proof using Type. unfold getPrimaryAddress. by rewrite new_container_list. Qed.

Lemma WalletBackend_new_spec spend view public publicView text scanHeight (newWallet : bool) :
  secret_key_to_public_key spend = Some public -> secret_key_to_public_key view = Some publicView ->
  publicKeysToAddress cn_fast_hash public publicView = Some text -> (if newWallet then scanHeight = 0 else True) ->
  let timestamp := if newWallet then getCurrentTimestampAdjusted now else 0 in
  WalletBackend_new spend view scanHeight newWallet =
  Some (mkWalletSynchronizer (mkSynchronizationStatus [] [] 0) timestamp scanHeight view
    (new_container spend view public text scanHeight timestamp)).
Proof using Type.
  intros Es Ev Ea Hn timestamp. unfold WalletBackend.WalletBackend_new, privateKeysToAddress, SubWallets_new.
  rewrite Es. cbn [mbind option_bind]. rewrite Ev. cbn [mbind option_bind]. rewrite Ea. cbn [mbind option_bind].
  fold timestamp. fold (new_container spend view public text scanHeight timestamp).
  unfold init, getMinInitialSyncStart, min_over. rewrite new_container_list. cbn [fold_left mbind option_bind SubWallet_new m_syncStartHeight m_syncStartTimestamp].
  assert ((scanHeight =? 0) || (timestamp =? 0) = true) as ->; [|done].
  unfold timestamp. destruct newWallet; [by rewrite Hn|by rewrite orb_true_r].
Qed.

(** C27: a wallet that is created shows a seed, and a wallet that is imported
    from the seed, from whatever height, has the same spend keys, view key and
    primary address; it is searched for from the height that was given. *)
Theorem seed_restores_wallet spendKey public publicView :
  pod_ok 32 spendKey -> secret_key_to_public_key spendKey = Some public ->
  secret_key_to_public_key (generateViewFromSpend spendKey) = Some publicView ->
  address_ok (mkAccountPublicAddress public publicView) -> keys_checked check_key (mkAccountPublicAddress public publicView) ->
  exists ws seed,
    createWallet cn_fast_hash secret_key_to_public_key generateViewFromSpend now SUCCESS SUCCESS spendKey = Some (SUCCESS, Some ws) /\
    getMnemonicSeed cn_fast_hash check_key generateViewFromSpend (ws_subWallets ws) = Some (SUCCESS, seed) /\
    forall scanHeight, exists ws',
      importWalletFromSeed cn_fast_hash secret_key_to_public_key generateViewFromSpend now SUCCESS SUCCESS seed scanHeight =
        Some (SUCCESS, Some ws') /\
      m_publicSpendKeys (ws_subWallets ws') = m_publicSpendKeys (ws_subWallets ws) /\
      getPrivateSpendKeys (ws_subWallets ws') = getPrivateSpendKeys (ws_subWallets ws) /\
      m_privateViewKey (ws_subWallets ws') = m_privateViewKey (ws_subWallets ws) /\
      getPrimaryAddress (ws_subWallets ws') = getPrimaryAddress (ws_subWallets ws) /\
      m_startHeight ws' = scanHeight /\ m_startTimestamp ws' = 0.
Proof using hash_size.
  intros Hk Es Ev Hok Hck. destruct (address_keys cn_fast_hash hash_size check_key _ Hok Hck) as (text & Ea & _ & _ & Eb).
  destruct (seed_back spendKey Hk) as (seed & Em & Er). cbn [spendPublicKey viewPublicKey] in Ea, Eb.
  eexists _, seed. split; [|split].
  - unfold createWallet. rewrite bool_decide_eq_false_2 by auto.
    rewrite (WalletBackend_new_spec _ _ public publicView text 0 true Es Ev Ea eq_refl). reflexivity.
  - cbn [ws_subWallets]. unfold getMnemonicSeed. rewrite new_container_primary. cbn [mbind option_bind].
    unfold getMnemonicSeedForAddress, getSpendKeys. rewrite Eb. cbn [mbind option_bind].
    unfold getPrivateSpendKey, throwIfViewWallet. cbn [new_container add_wallet m_isViewWallet m_subWallets mbind option_bind].
    rewrite lookup_insert_eq. cbn [mbind option_bind SubWallet_new m_privateSpendKey].
    rewrite !bool_decide_eq_false_2 by (intros Hn; by apply Hn). by rewrite Em.
  - intros scanHeight. eexists. split.
    + unfold importWalletFromSeed. rewrite bool_decide_eq_false_2 by auto. rewrite Er.
      rewrite (WalletBackend_new_spec _ _ public publicView text scanHeight false Es Ev Ea I). reflexivity.
    + cbn [ws_subWallets m_startHeight m_startTimestamp]. unfold getPrivateSpendKeys.
      rewrite !new_container_list, !new_container_primary. by split_and!.
Qed.
End Seed.

(** ** Reading the blocks again *)

Lemma foldl_fails {S A} (f : S -> A -> option S) l : foldl (fun s a => s ← s; f s a) None l = None.
Proof. by induction l. Qed.

(** What every step of a loop keeps. *)
Lemma foldl_keeps {S A} (f : S -> A -> option S) (P : S -> Prop) l s s' :
  (forall s a s', P s -> f s a = Some s' -> P s') -> P s -> foldl (fun s a => s ← s; f s a) (Some s) l = Some s' -> P s'.
Proof.
  intros Hf. revert s. induction l as [|a l IH]; intros s Hs; cbn [foldl mbind option_bind].
  - intros E. by apply (inj Some) in E as <-.
  - destruct (f s a) as [s1|] eqn:E; [by apply IH; [eapply Hf|..]|by rewrite foldl_fails].
Qed.

(** The sub wallet [k] of a container that can spend has these key images. *)
Definition has_images (k : PublicKey) (images : list (list Z)) (s : SubWallets) : Prop :=
  m_isViewWallet s = false /\ exists w, m_subWallets s !! k = Some w /\ key_images w ≡ₚ images.

Lemma store_has_images k images s k' i s' :
  has_images k images s -> SubWallets_storeTransactionInput s k' i = Some s' ->
  has_images k (images ++ (if decide (k' = k) then [keyImage i] else [])) s'.
Proof.
  intros (Hv & w & Hw & Hi). unfold SubWallets_storeTransactionInput, at_wallet.
  destruct (m_subWallets s !! k') as [w0|] eqn:E; [|done]. cbn [mbind option_bind]. intros E'. apply (inj Some) in E' as <-.
  split; [exact Hv|]. cbn [with_wallets m_subWallets]. case_decide as Hk.
  - subst k'. rewrite lookup_insert_eq. eexists. split; [done|]. rewrite <- Hi. simplify_eq.
    unfold key_images, wallet_inputs. cbn. rewrite !fmap_app, <- !app_assoc. apply Permutation_app_head. cbn.
    by rewrite app_assoc, <- Permutation_cons_append.
  - rewrite lookup_insert_ne, app_nil_r by done. by exists w.
Qed.

Lemma store_all_images k new images s s' :
  has_images k images s -> foldl (fun s p => s ← s; SubWallets_storeTransactionInput s p.1 p.2) (Some s) new = Some s' ->
  has_images k (images ++ (image_of <$> filter (fun p => p.1 = k) new)) s'.
Proof.
  revert images s. induction new as [|[k' i] new IH]; intros images s H; cbn [foldl mbind option_bind fst snd].
  { intros E. apply (inj Some) in E as <-. by rewrite app_nil_r. }
  destruct (SubWallets_storeTransactionInput s k' i) as [s1|] eqn:E; [|by rewrite foldl_fails].
  intros E'. apply (store_has_images k images s k' i s1 H) in E. apply (IH _ _ E) in E'. rewrite <- app_assoc in E'.
  case_decide as Hk; [rewrite filter_cons_True by done|rewrite filter_cons_False by done]; exact E'.
Qed.

Lemma mark_has_images k images s ki k' h s' :
  has_images k images s -> SubWallets_markInputAsSpent s ki k' h = Some s' -> has_images k images s'.
Proof.
  intros (Hv & w & Hw & Hi). unfold SubWallets_markInputAsSpent, throwIfViewWallet, at_wallet.
  rewrite Hv. cbn [mbind option_bind].
  destruct (m_subWallets s !! k') as [w0|] eqn:E; [|done]. cbn [mbind option_bind].
  destruct (markInputAsSpent w0 ki h) as [w1|] eqn:Em; [|done]. cbn [mbind option_bind]. intros E'. apply (inj Some) in E' as <-.
  split; [exact Hv|]. cbn [with_wallets m_subWallets]. destruct (decide (k' = k)) as [->|Hk].
  - rewrite lookup_insert_eq. exists w1. split; [done|]. rewrite <- Hi. simplify_eq. by eapply markInputAsSpent_images.
  - rewrite lookup_insert_ne by done. by exists w.
Qed.

Lemma store_scan_images s info h s' k images :
  store_scan s info h = Some s' -> has_images k images s ->
  has_images k (images ++ (image_of <$> filter (fun p => p.1 = k) (inputsToAdd info))) s'.
Proof.
  unfold store_scan. destruct (foldl _ (Some s) (transactionsToAdd info)) as [s1|] eqn:E1; [|done]. cbn [mbind option_bind].
  destruct (foldl _ (Some s1) (inputsToAdd info)) as [s2|] eqn:E2; [|done]. cbn [mbind option_bind]. intros E3 H.
  eapply (foldl_keeps (fun s p => SubWallets_markInputAsSpent s p.2 p.1 h)); [|eapply store_all_images; [|exact E2]|exact E3].
  - intros x a x' Hx Ex. by eapply mark_has_images.
  - eapply (foldl_keeps addTransaction); [|exact H|exact E1]. intros x tx x' (Hv & w & Hw & Hi). unfold addTransaction.
    destruct (has_hash _ _); [done|]. intros E. apply (inj Some) in E as <-. split; [done|]. by exists w.
Qed.

Section Rescan.
Context (generate_key_derivation : PublicKey -> SecretKey -> list Z)
  (underive_public_key : list Z -> Z -> PublicKey -> PublicKey)
  (derive_public_key : list Z -> Z -> PublicKey -> PublicKey)
  (derive_secret_key : list Z -> Z -> SecretKey -> SecretKey)
  (generate_key_image : PublicKey -> SecretKey -> list Z) (uninit : list Z).

(** a wallet that is reset, by the user or because a sub wallet is imported,
    reads its blocks again without having forgotten its inputs: once the block of an
    output it holds has been read again, it holds the output twice, and the container is
    not in order any more. *)
Theorem rescan_duplicates_inputs daemon ws scanHeight timestamp block new k i w ws' :
  m_isViewWallet (ws_subWallets ws) = false -> m_subWallets (ws_subWallets ws) !! k = Some w -> keyImage i ∈ key_images w ->
  0 < wb_blockHeight block ->
  block_inputs generate_key_derivation underive_public_key derive_public_key derive_secret_key generate_key_image uninit
    daemon (WalletBackend_reset ws scanHeight timestamp) block = Some new -> (k, i) ∈ new ->
  processBlock generate_key_derivation underive_public_key derive_public_key derive_secret_key generate_key_image uninit
    daemon (WalletBackend_reset ws scanHeight timestamp) block = Some ws' ->
  has_images k (key_images w ++ (image_of <$> filter (fun p => p.1 = k) new)) (ws_subWallets ws') /\
  ~ container_ok (ws_subWallets ws').
Proof using Type.
  intros Hv Hw Hi Hh Eb Hnew E. set (ws0 := WalletBackend_reset ws scanHeight timestamp) in *.
  unfold WalletSync.processBlock in E. rewrite (proj2 (Z.leb_gt _ _)) in E by exact Hh. unfold block_inputs in Eb.
  destruct (processBlockOutputs _ _ _ _ _ _ ws0 block) as [raw|]; [|done]. cbn [mbind option_bind] in E, Eb. rewrite Eb in E.
  destruct (store_scan _ _ _) as [s|] eqn:Es; [|done]. cbn [mbind option_bind] in E.
  destruct (storeBlockHash _ _ _) as [status|]; [|done]. cbn [mbind option_bind] in E. apply (inj Some) in E as <-.
  cbn [ws_subWallets with_status with_container].
  assert (has_images k (key_images w ++ (image_of <$> filter (fun p => p.1 = k) new)) s) as Himg.
  { eapply (store_scan_images _ _ _ _ k (key_images w)) in Es; [exact Es|]. split; [done|]. by exists w. }
  split; [done|]. destruct Himg as (Hvs & w' & Hw' & Hp). intros Hok.
  pose proof (images_nodup _ Hok k w' Hvs Hw') as Hn. rewrite Hp in Hn. apply NoDup_app in Hn as (_ & Hd & _).
  apply (Hd _ Hi), (list_elem_of_fmap_2 image_of _ (k, i)), list_elem_of_filter. done.
Qed.
End Rescan.

(** ** Witnesses *)

Definition toy_encrypt (key iv data : list Z) : list Z := data ++ key.
Definition toy_decrypt (key iv data : list Z) : option (list Z) :=
  let n := (length data - length key)%nat in
  if bool_decide (drop n data = key) then Some (take n data) else None.

Lemma toy_decrypt_encrypt key iv data : toy_decrypt key iv (toy_encrypt key iv data) = Some data.
Proof.
  unfold toy_decrypt, toy_encrypt. rewrite length_app, Nat.add_sub.
  by rewrite drop_app_length, take_app_length, bool_decide_eq_true_2.
Qed.

Definition saved_synchronizer : WalletSynchronizer :=
  mkWalletSynchronizer (mkSynchronizationStatus [replicate 32 6] [replicate 32 8; replicate 32 6] 5001) 0 1 (replicate 32 5)
    (saved_container [saved_transaction]).

Lemma saved_synchronizer_ok : sync_ok saved_synchronizer.
Proof.
  split; cbn -[replicate]; try (apply pod_replicate; lia); try (words; lia).
  - apply Forall_singleton, pod_replicate. lia.
  - apply Forall_cons. split; [|apply Forall_singleton]; apply pod_replicate; lia.
  - apply saved_container_ok, Forall_singleton, saved_transaction_ok.
Qed.

Lemma saved_wallet_opens_witness :
  let file := unsafeSave (fun p _ => p) toy_encrypt (fun _ => [123; 125]) saved_synchronizer [1; 2] (replicate 16 0) in
  let parse := fun _ => Some (WalletBackend_toJSON saved_synchronizer) in
  openWallet (fun p _ => p) toy_decrypt parse (Some file) [1; 2] =
    (SUCCESS, ReadWallet (with_container saved_synchronizer (reloaded (saved_container [saved_transaction])))) /\
  openWallet (fun p _ => p) toy_decrypt parse (Some file) [1; 3] = (WRONG_PASSWORD, NullWallet).
Proof.
  cbv zeta. split; apply (saved_wallet_opens (fun p _ => p) toy_encrypt toy_decrypt (fun _ => [123; 125])
    (fun _ => Some (WalletBackend_toJSON saved_synchronizer)) saved_synchronizer [1; 2] (replicate 16 0) saved_synchronizer_ok);
    try reflexivity; try (intros key data; apply toy_decrypt_encrypt); try (repeat constructor; discriminate).
Defined.

Lemma seed_restores_wallet_witness :
  exists ws seed, createWallet toy_hash Some (fun k => k) 0 SUCCESS SUCCESS (replicate 32 7) = Some (SUCCESS, Some ws) /\
    getMnemonicSeed toy_hash (fun _ => true) (fun k => k) (ws_subWallets ws) = Some (SUCCESS, seed).
Proof.
  destruct (seed_restores_wallet toy_hash toy_hash_size (fun _ => true) Some (fun k => k) 0 (replicate 32 7)
    (replicate 32 7) (replicate 32 7)) as (ws & seed & E1 & E2 & _);
    [apply pod_replicate; lia|reflexivity|reflexivity|split; apply pod_replicate; lia|split; reflexivity|].
  exists ws, seed. split; [exact E1|exact E2].
Defined.

Definition toy_reset : WalletSynchronizer := WalletBackend_reset toy_one 1 0.
Definition toy_again : WalletSynchronizer :=
  default toy_reset (processBlock toy_derivation toy_underive toy_derive toy_secret toy_image [] (toy_daemon [11; 12]) toy_reset
    (toy_block 1 11 [])).

Lemma rescan_duplicates_inputs_witness : ~ container_ok (ws_subWallets toy_again).
Proof.
  eapply (rescan_duplicates_inputs toy_derivation toy_underive toy_derive toy_secret toy_image [] (toy_daemon [11; 12]) toy_one 1 0
    (toy_block 1 11 []) [([3], toy_input)] [3] toy_input
    (default (SubWallet_new [] [] [] 0 0 false) (m_subWallets (ws_subWallets toy_one) !! [3])));
    try (vm_compute; reflexivity); [|left].
  apply (bool_decide_unpack _). vm_compute. exact I.
Defined.
