(* ===== verification/Transfer.v ===== *)
(** * Sending

    src/src/wallet_backend/transfer.cpp: transactions of the wallet, from the
    addresses and amounts to the transaction that is relayed and to what the container
    remembers of it.  The daemon is an argument, a [SendNode] with its answers; so are the
    curve, the hash, the random key of the transaction, the shuffling of inputs, and
    [std::sort] by amount, which leaves the order of equal amounts open. *)

From stdpp Require Import gmap.
From S2P Require Import Prelude Config Bytes Types WalletBlocks TxExtra Serialization Block Currency Validation Mixins Errors Addresses Utilities WalletTypes SubWallet SubWallets ValidateParameters WalletSync.
Import parameters.
#[local] Open Scope Z_scope.

(** ** Data *)

Record TransactionDestination := mkTransactionDestination {
  receiverPublicSpendKey : PublicKey;
  receiverPublicViewKey : PublicKey;
  td_amount : Z }.

Record GlobalIndexKey := mkGlobalIndexKey {
  gk_index : Z;
  gk_key : PublicKey }.

Record ObscuredInput := mkObscuredInput {
  oi_outputs : list GlobalIndexKey;
  realOutput : nat;
  realTransactionPublicKey : PublicKey;
  realOutputTransactionIndex : Z;
  oi_amount : Z;
  ownerPublicSpendKey : PublicKey;
  ownerPrivateSpendKey : SecretKey }.

(** [RandomOuts]: an amount with indices and keys of outputs of that amount. *)
Record RandomOuts := mkRandomOuts {
  ro_amount : Z;
  ro_outs : list GlobalIndexKey }.

(** What the daemon answers; [None] is a request that failed. *)
Record SendNode := mkSendNode {
  networkBlockCount : Z;
  nodeFee : Z * list Z;
  getRandomOutsByAmounts : list Z -> Z -> option (list RandomOuts);
  sendTransaction : Transaction -> bool * bool }.

(** ** Amounts *)

(** [Currency::PRETTY_AMOUNTS], row by row. *)
Definition PRETTY_AMOUNTS : list Z :=
  concat ((fun power => (fun digit => digit * 10 ^ power) <$> [1; 2; 3; 4; 5; 6; 7; 8; 9]) <$> seqZ 0 19) ++
  [10000000000000000000].

Fixpoint split_loop (fuel : nat) (amount multiplier : Z) (splitAmounts : list Z) : list Z :=
  match fuel with
  | O => splitAmounts
  | S fuel =>
      if amount =? 0 then splitAmounts
      else
        let denomination := u64 (multiplier * (amount mod 10)) in
        split_loop fuel (amount / 10) (u64 (multiplier * 10))
          (if denomination =? 0 then splitAmounts else splitAmounts ++ [denomination])
  end.

(** A number of 64 bits has at most twenty digits. *)
Definition splitAmountIntoDenominations (amount : Z) : list Z := split_loop 20 amount 1 [].

Definition verifyAmounts_list (amounts : list Z) : bool := forallb (fun a => bool_decide (a ∈ PRETTY_AMOUNTS)) amounts.

Definition verifyAmounts (tx : Transaction) : bool := verifyAmounts_list (Types.amount <$> outputs (prefix tx)).

(** [boost::get] throws on an input that is not a [KeyInput]. *)
Definition verifyTransactionFee (expectedFee : Z) (tx : Transaction) : option bool :=
  amounts ← mapM (fun i => match i with KeyInput a _ _ => Some a | BaseInput _ => None end) (inputs (prefix tx));
  let inputTotal := sum_u64 amounts in
  let outputTotal := sum_u64 (Types.amount <$> outputs (prefix tx)) in
  Some (expectedFee =? u64 (inputTotal - outputTotal)).

Section Send.
Context (cn_fast_hash : list Z -> list Z) (check_key : PublicKey -> bool).

Definition denominations (spend view : PublicKey) (amount : Z) : list TransactionDestination :=
  mkTransactionDestination spend view <$> splitAmountIntoDenominations amount.

Definition setupDestinations (addressesAndAmounts : list (list Z * Z)) (changeRequired : Z) (changeAddress : list Z)
    : option (list TransactionDestination) :=
  let addressesAndAmounts :=
    if negb (changeRequired =? 0) then addressesAndAmounts ++ [(changeAddress, changeRequired)] else addressesAndAmounts in
  destinations ← mapM (fun p => '(spend, view) ← addressToKeys cn_fast_hash check_key p.1; Some (denominations spend view p.2))
    addressesAndAmounts;
  Some (concat destinations).

Definition getTransactionHash (tx : Transaction) : option Hash := cn_fast_hash <$> write_transaction tx.

Definition isTransactionPayloadTooBig (tx : Transaction) (currentHeight : Z) : option ErrorCode :=
  data ← write_transaction tx;
  Some (if getMaxTxSize currentHeight <? Z.of_nat (length data) then TOO_MANY_INPUTS_TO_FIT_IN_BLOCK else SUCCESS).

Definition relayTransaction (daemon : SendNode) (tx : Transaction) : option (ErrorCode * Hash) :=
  let '(success, connectionError) := sendTransaction daemon tx in
  if connectionError then Some (DAEMON_OFFLINE, NULL_HASH)
  else if negb success then Some (DAEMON_ERROR, NULL_HASH)
  else hash ← getTransactionHash tx; Some (SUCCESS, hash).

(** ** Rings *)

Definition enough_outs (mixin : Z) (fakeOut : RandomOuts) : bool := mixin <=? Z.of_nat (length (ro_outs fakeOut)).

(** The error, or the fake outputs.  The last loop of the function sorts copies of
    the elements, so the answer of the daemon is returned in its own order. *)
Definition getRingParticipants (daemon : SendNode) (mixin : Z) (sources : list TxInputAndOwner)
    : ErrorCode + list RandomOuts :=
  let requestedOuts := u64 (mixin + 1) in
  if mixin =? 0 then inr []
  else
    let amounts := (fun s => amount (input s)) <$> sources in
    match getRandomOutsByAmounts daemon amounts requestedOuts with
    | None => inl DAEMON_OFFLINE
    | Some fakeOuts =>
        if negb (forallb (fun a => match list_find (fun o => ro_amount o = a) fakeOuts with
                                   | None => false
                                   | Some (_, o) => enough_outs mixin o
                                   end) amounts) then inl NOT_ENOUGH_FAKE_OUTPUTS
        else if negb (length fakeOuts =? length amounts)%nat then inl NOT_ENOUGH_FAKE_OUTPUTS
        else if negb (forallb (enough_outs mixin) fakeOuts) then inl NOT_ENOUGH_FAKE_OUTPUTS
        else inr fakeOuts
    end.

(** The loop over the fake outputs, without our own. *)
Fixpoint take_fakes (mixin : Z) (own : Z) (outs taken : list GlobalIndexKey) : list GlobalIndexKey :=
  match outs with
  | [] => taken
  | fakeOut :: outs =>
      if own =? gk_index fakeOut then take_fakes mixin own outs taken
      else
        let taken := taken ++ [fakeOut] in
        if mixin <=? Z.of_nat (length taken) then taken else take_fakes mixin own outs taken
  end.

(** Our output in front of the first one with an index that is not smaller, and
    its position. *)
Fixpoint insert_real (real : GlobalIndexKey) (outs : list GlobalIndexKey) : list GlobalIndexKey * nat :=
  match outs with
  | [] => ([real], O)
  | o :: rest =>
      if gk_index real <=? gk_index o then (real :: o :: rest, O)
      else let '(l, n) := insert_real real rest in (o :: l, S n)
  end.

(** One round of the loop over the sources; [value] throws without an index. *)
Definition obscure (mixin : Z) (fakeOuts : list RandomOuts) (i : nat) (walletAmount : TxInputAndOwner)
    : option (ErrorCode + ObscuredInput) :=
  let source := input walletAmount in
  own ← globalOutputIndex source;
  fakes ← (if negb (mixin =? 0) then fakeOut ← fakeOuts !! i; Some (take_fakes mixin own (ro_outs fakeOut) []) else Some []);
  if Z.of_nat (length fakes) <? mixin then Some (inl NOT_ENOUGH_FAKE_OUTPUTS)
  else
    let '(outs, position) := insert_real (mkGlobalIndexKey own (key source)) fakes in
    Some (inr (mkObscuredInput outs position (transactionPublicKey source) (transactionIndex source) (amount source)
                 (publicSpendKey walletAmount) (privateSpendKey walletAmount))).

Fixpoint obscure_all (mixin : Z) (fakeOuts : list RandomOuts) (i : nat) (sources : list TxInputAndOwner)
    : option (ErrorCode + list ObscuredInput) :=
  match sources with
  | [] => Some (inr [])
  | walletAmount :: sources =>
      r ← obscure mixin fakeOuts i walletAmount;
      match r with
      | inl error => Some (inl error)
      | inr obscuredInput =>
          rest ← obscure_all mixin fakeOuts (S i) sources;
          Some (match rest with inl error => inl error | inr result => inr (obscuredInput :: result) end)
      end
  end.

Context (sort_sources : list TxInputAndOwner -> list TxInputAndOwner).

Definition prepareRingParticipants (daemon : SendNode) (mixin : Z) (sources : list TxInputAndOwner)
    : option (ErrorCode + list ObscuredInput) :=
  let sources := sort_sources sources in
  match getRingParticipants daemon mixin sources with
  | inl error => Some (inl error)
  | inr fakeOuts => obscure_all mixin fakeOuts O sources
  end.

(** ** Inputs and outputs of the transaction *)

Context (generate_key_derivation : PublicKey -> SecretKey -> list Z)
  (underive_public_key : list Z -> Z -> PublicKey -> PublicKey)
  (derive_public_key : list Z -> Z -> PublicKey -> PublicKey)
  (derive_secret_key : list Z -> Z -> SecretKey -> SecretKey)
  (generate_key_image : PublicKey -> SecretKey -> list Z).

Definition genKeyImage (i : ObscuredInput) (privateViewKey : SecretKey) : PublicKey * SecretKey * KeyImage :=
  let derivation := generate_key_derivation (realTransactionPublicKey i) privateViewKey in
  let publicKey := derive_public_key derivation (realOutputTransactionIndex i) (ownerPublicSpendKey i) in
  let secretKey := derive_secret_key derivation (realOutputTransactionIndex i) (ownerPrivateSpendKey i) in
  (publicKey, secretKey, generate_key_image publicKey secretKey).

(** One round of the loop of [setupInputs]. *)
Definition setup_input (privateViewKey : SecretKey) (i : ObscuredInput) : option (ErrorCode + Types.TransactionInput * SecretKey) :=
  let '(publicKey, secretKey, keyImage) := genKeyImage i privateViewKey in
  real ← oi_outputs i !! realOutput i;
  if bool_decide (publicKey <> gk_key real) then Some (inl INVALID_GENERATED_KEYIMAGE)
  else
    let outputIndexes := absolute_output_offsets_to_relative ((fun o => u32 (gk_index o)) <$> oi_outputs i) in
    Some (inr (KeyInput (oi_amount i) outputIndexes keyImage, secretKey)).

Fixpoint setupInputs (inputsAndFakes : list ObscuredInput) (privateViewKey : SecretKey)
    : option (ErrorCode + list (Types.TransactionInput * SecretKey)) :=
  match inputsAndFakes with
  | [] => Some (inr [])
  | i :: rest =>
      r ← setup_input privateViewKey i;
      match r with
      | inl error => Some (inl error)
      | inr keyInput =>
          rest ← setupInputs rest privateViewKey;
          Some (match rest with inl error => inl error | inr result => inr (keyInput :: result) end)
      end
  end.

Context (sort_destinations : list TransactionDestination -> list TransactionDestination).

Fixpoint make_outputs (secretKey : SecretKey) (outputIndex : Z) (destinations : list TransactionDestination)
    : list WalletKeyOutput :=
  match destinations with
  | [] => []
  | destination :: rest =>
      let derivation := generate_key_derivation (receiverPublicViewKey destination) secretKey in
      let tmpPubKey := derive_public_key derivation outputIndex (receiverPublicSpendKey destination) in
      mkWalletKeyOutput tmpPubKey (td_amount destination) None :: make_outputs secretKey (u32 (outputIndex + 1)) rest
  end.

(** [randomTxKey] is the public and the secret key that are drawn. *)
Definition setupOutputs (destinations : list TransactionDestination) (randomTxKey : PublicKey * SecretKey) : list WalletKeyOutput :=
  make_outputs randomTxKey.2 0 (sort_destinations destinations).

Definition keyOutputToTransactionOutput (keyOutputs : list WalletKeyOutput) : list TransactionOutput :=
  (fun o => mkTransactionOutput (ko_amount o) (KeyOutput (ko_key o))) <$> keyOutputs.

Context (ops_generateRingSignatures : Hash -> KeyImage -> list PublicKey -> SecretKey -> nat -> option (list Signature))
  (ops_checkRingSignature : Hash -> KeyImage -> list PublicKey -> list Signature -> bool).

(** [boost::get<KeyInput>(tx.inputs[i]).keyImage] *)
Definition input_image (i : Types.TransactionInput) : option KeyImage :=
  match i with KeyInput _ _ keyImage => Some keyImage | BaseInput _ => None end.

(** The signatures of the inputs, one after the other; an exception is [None]. *)
Fixpoint sign_inputs (txPrefixHash : Hash) (rings : list (Types.TransactionInput * SecretKey * ObscuredInput))
    : option (ErrorCode + list (list Signature)) :=
  match rings with
  | [] => Some (inr [])
  | (txInput, tmpSecretKey, i) :: rings =>
      keyImage ← input_image txInput;
      match ops_generateRingSignatures txPrefixHash keyImage (gk_key <$> oi_outputs i) tmpSecretKey (realOutput i) with
      | None => Some (inl FAILED_TO_CREATE_RING_SIGNATURE)
      | Some signatures =>
          rest ← sign_inputs txPrefixHash rings;
          Some (match rest with inl error => inl error | inr l => inr (signatures :: l) end)
      end
  end.

Definition generateRingSignatures (tx : TransactionPrefix) (inputsAndFakes : list ObscuredInput) (tmpSecretKeys : list SecretKey)
    : option (ErrorCode + Transaction) :=
  let txPrefixHash := cn_fast_hash (write_prefix tx) in
  let rings := zip (zip (inputs tx) tmpSecretKeys) inputsAndFakes in
  r ← sign_inputs txPrefixHash rings;
  match r with
  | inl error => Some (inl error)
  | inr sigs =>
      checks ← mapM (fun p => let '(txInput, i, signature) := p in
                       keyImage ← input_image txInput;
                       Some (ops_checkRingSignature txPrefixHash keyImage (gk_key <$> oi_outputs i) signature))
                 (zip (zip (inputs tx) inputsAndFakes) sigs);
      Some (if forallb id checks then inr (mkTransaction tx sigs) else inl FAILED_TO_CREATE_RING_SIGNATURE)
  end.

(** The error, or the transaction with its outputs. *)
Definition makeTransaction (daemon : SendNode) (mixin : Z) (ourInputs : list TxInputAndOwner) (paymentID : list Z)
    (destinations : list TransactionDestination) (s : SubWallets) (unlockTime : Z) (randomTxKey : PublicKey * SecretKey)
    : option (ErrorCode + Transaction * list WalletKeyOutput) :=
  prepared ← prepareRingParticipants daemon mixin ourInputs;
  match prepared with
  | inl mixinError => Some (inl mixinError)
  | inr inputsAndFakes =>
      setup ← setupInputs inputsAndFakes (m_privateViewKey s);
      match setup with
      | inl inputError => Some (inl inputError)
      | inr transactionInputs =>
          let keyOutputs := setupOutputs destinations randomTxKey in
          let extra := if bool_decide (paymentID <> []) then default [] (createTxExtraWithPaymentId paymentID []) else [] in
          let extra := addTransactionPublicKeyToExtra extra randomTxKey.1 in
          let setupTX := mkTransactionPrefix CURRENT_TRANSACTION_VERSION unlockTime transactionInputs.*1
                           (keyOutputToTransactionOutput keyOutputs) extra in
          signed ← generateRingSignatures setupTX inputsAndFakes transactionInputs.*2;
          Some (match signed with inl error => inl error | inr tx => inr (tx, keyOutputs) end)
      end
  end.

(** ** What the container remembers *)

Definition storeSentTransaction (hash : Hash) (fee : Z) (paymentID : list Z) (ourInputs : list TxInputAndOwner)
    (changeAddress : list Z) (changeRequired : Z) (s : SubWallets) : option SubWallets :=
  let transfers := fold_left (fun t i => add_transfer t (publicSpendKey i) (- amount (input i))) ourInputs ∅ in
  '(spendKey, _) ← addressToKeys cn_fast_hash check_key changeAddress;
  let transfers := if negb (changeRequired =? 0) then add_transfer transfers spendKey changeRequired else transfers in
  addUnconfirmedTransaction s (mkWalletTransaction transfers hash fee 0 0 paymentID 0 false).

Fixpoint store_incoming (s : SubWallets) (derivation : list Z) (txHash : Hash) (outputIndex : Z) (keyOutputs : list WalletKeyOutput)
    : SubWallets :=
  match keyOutputs with
  | [] => s
  | output :: rest =>
      let spendKey := underive_public_key derivation outputIndex (ko_key output) in
      let s :=
        if bool_decide (spendKey ∈ m_publicSpendKeys s)
        then SubWallets_storeUnconfirmedIncomingInput s (mkUnconfirmedInput (ko_amount output) (ko_key output) txHash) spendKey
        else s in
      store_incoming s derivation txHash (u64 (outputIndex + 1)) rest
  end.

Definition storeUnconfirmedIncomingInputs (s : SubWallets) (keyOutputs : list WalletKeyOutput) (txPublicKey : PublicKey)
    (txHash : Hash) : SubWallets :=
  store_incoming s (generate_key_derivation txPublicKey (m_privateViewKey s)) txHash 0 keyOutputs.

Definition lock_inputs (s : SubWallets) (ourInputs : list TxInputAndOwner) : option SubWallets :=
  foldl (fun s i => s ← s; SubWallets_markInputAsLocked s (keyImage (input i)) (publicSpendKey i)) (Some s) ourInputs.

(** After the transaction was relayed. *)
Definition remember_sent (s : SubWallets) (txHash : Hash) (fee : Z) (paymentID : list Z) (ourInputs : list TxInputAndOwner)
    (changeAddress : list Z) (changeRequired : Z) (keyOutputs : list WalletKeyOutput) (txKey : PublicKey * SecretKey)
    : option SubWallets :=
  s ← storeSentTransaction txHash fee paymentID ourInputs changeAddress changeRequired s;
  let s := storeUnconfirmedIncomingInputs s keyOutputs txKey.1 txHash in
  let s := storeTxPrivateKey s txKey.2 txHash in
  lock_inputs s ourInputs.

(** ** Sending a transaction *)

Context (shuffle : list TxInputAndOwner -> list TxInputAndOwner) (now : Z).

(** Integrated addresses become addresses and the payment id of the last one. *)
Fixpoint extract_integrated (addressesAndAmounts : list (list Z * Z)) (paymentID : list Z) : option (list (list Z * Z) * list Z) :=
  match addressesAndAmounts with
  | [] => Some ([], paymentID)
  | (address, a) :: rest =>
      '(address, paymentID) ←
        (if negb (length address =? integratedAddressLength)%nat then Some (address, paymentID)
         else extractIntegratedAddressData cn_fast_hash address);
      '(rest, paymentID) ← extract_integrated rest paymentID;
      Some ((address, a) :: rest, paymentID)
  end.

(** The error and hash with the container; [randomTxKey] is the key that [makeTransaction]
    draws. *)
Definition sendTransactionAdvanced (daemon : SendNode) (addressesAndAmounts : list (list Z * Z)) (mixin fee : Z) (paymentID : list Z)
    (addressesToTakeFrom : list (list Z)) (changeAddress : list Z) (unlockTime : Z) (randomTxKey : PublicKey * SecretKey)
    (s : SubWallets) : option (ErrorCode * Hash * SubWallets) :=
  let height := networkBlockCount daemon in
  let '(feeAmount, feeAddress) := nodeFee daemon in
  let addressesAndAmounts :=
    if negb (feeAmount =? 0) then addressesAndAmounts ++ [(feeAddress, feeAmount)] else addressesAndAmounts in
  changeAddress ← (if bool_decide (changeAddress = []) then getPrimaryAddress s else Some changeAddress);
  error ← validateTransaction cn_fast_hash check_key now addressesAndAmounts mixin fee paymentID addressesToTakeFrom
            changeAddress s height;
  if bool_decide (error <> SUCCESS) then Some (error, NULL_HASH, s)
  else
    '(addressesAndAmounts, paymentID) ← extract_integrated addressesAndAmounts paymentID;
    let totalAmount := u64 (getTransactionSum addressesAndAmounts + fee) in
    subWalletsToTakeFrom ← addressesToSpendKeys cn_fast_hash check_key addressesToTakeFrom;
    '(ourInputs, sumOfInputs) ← getTransactionInputsForAmount shuffle now s totalAmount
      (bool_decide (addressesToTakeFrom = [])) subWalletsToTakeFrom height;
    let changeRequired := u64 (sumOfInputs - totalAmount) in
    destinations ← setupDestinations addressesAndAmounts changeRequired changeAddress;
    txResult ← makeTransaction daemon mixin ourInputs paymentID destinations s unlockTime randomTxKey;
    match txResult with
    | inl error => Some (error, NULL_HASH, s)
    | inr (tx, keyOutputs) =>
        error ← isTransactionPayloadTooBig tx height;
        if bool_decide (error <> SUCCESS) then Some (error, NULL_HASH, s)
        else if negb (verifyAmounts tx) then Some (AMOUNTS_NOT_PRETTY, NULL_HASH, s)
        else
          feeOk ← verifyTransactionFee fee tx;
          if negb feeOk then Some (UNEXPECTED_FEE, NULL_HASH, s)
          else
            '(sendError, txHash) ← relayTransaction daemon tx;
            if bool_decide (sendError <> SUCCESS) then Some (sendError, NULL_HASH, s)
            else
              s ← remember_sent s txHash fee paymentID ourInputs changeAddress changeRequired keyOutputs randomTxKey;
              Some (SUCCESS, txHash, s)
    end.

Definition sendTransactionBasic (daemon : SendNode) (destination : list Z) (a : Z) (paymentID : list Z)
    (randomTxKey : PublicKey * SecretKey) (s : SubWallets) : option (ErrorCode * Hash * SubWallets) :=
  let '(_, _, defaultMixin) := getMixinAllowableRange (networkBlockCount daemon) in
  changeAddress ← getPrimaryAddress s;
  sendTransactionAdvanced daemon [(destination, a)] defaultMixin MINIMUM_FEE paymentID [] changeAddress 0 randomTxKey s.

(** ** Fusion transactions *)

Context (shuffle_buckets : list (list TxInputAndOwner) -> list (list TxInputAndOwner)) (log10 : Z -> Z).

(** The loop takes inputs off the end until the transaction fits; [randomTxKeys] are
    the keys that the rounds draw.  It returns the error, or what is sent. *)
Fixpoint fusion_loop (fuel : nat) (daemon : SendNode) (mixin : Z) (destination : list Z) (s : SubWallets)
    (randomTxKeys : nat -> PublicKey * SecretKey) (ourInputs : list TxInputAndOwner) (foundMoney : Z)
    : Run (ErrorCode + Transaction * list WalletKeyOutput * list TxInputAndOwner * (PublicKey * SecretKey)) :=
  match fuel with
  | O => OutOfFuel
  | S fuel =>
      if Z.of_nat (length ourInputs) <? FUSION_TX_MIN_INPUT_COUNT then Returns (inl FULLY_OPTIMIZED)
      else
        '(publicSpendKey, publicViewKey) ← of_option (addressToKeys cn_fast_hash check_key destination);
        let destinations := denominations publicSpendKey publicViewKey foundMoney in
        last ← of_option (last ourInputs);
        let fewer := removelast ourInputs in
        let less := u64 (foundMoney - amount (input last)) in
        if (length destinations =? 0)%nat ||
           (Z.of_nat (length ourInputs) / Z.of_nat (length destinations) <? FUSION_TX_MIN_IN_OUT_COUNT_RATIO)
        then fusion_loop fuel daemon mixin destination s randomTxKeys fewer less
        else
          txResult ← of_option (makeTransaction daemon mixin ourInputs [] destinations s 0 (randomTxKeys (length ourInputs)));
          match txResult with
          | inl error => Returns (inl error)
          | inr (tx, keyOutputs) =>
              data ← of_option (write_transaction tx);
              if FUSION_TX_MAX_SIZE <? Z.of_nat (length data)
              then fusion_loop fuel daemon mixin destination s randomTxKeys fewer less
              else Returns (inr (tx, keyOutputs, ourInputs, randomTxKeys (length ourInputs)))
          end
  end.

Definition sendFusionTransactionAdvanced (daemon : SendNode) (mixin : Z) (addressesToTakeFrom : list (list Z)) (destination : list Z)
    (randomTxKeys : nat -> PublicKey * SecretKey) (s : SubWallets) : option (ErrorCode * Hash * SubWallets) :=
  let height := networkBlockCount daemon in
  destination ← (if bool_decide (destination = []) then getPrimaryAddress s else Some destination);
  error ← validateFusionTransaction cn_fast_hash check_key mixin addressesToTakeFrom destination s height;
  if bool_decide (error <> SUCCESS) then Some (error, NULL_HASH, s)
  else
    subWalletsToTakeFrom ← addressesToSpendKeys cn_fast_hash check_key addressesToTakeFrom;
    '(ourInputs, maxFusionInputs, foundMoney) ← getFusionTransactionInputs shuffle shuffle_buckets log10 now s
      (bool_decide (addressesToTakeFrom = [])) subWalletsToTakeFrom mixin height;
    if maxFusionInputs <? FUSION_TX_MIN_INPUT_COUNT then Some (FUSION_MIXIN_TOO_LARGE, NULL_HASH, s)
    else
      r ← to_option (fusion_loop (S (length ourInputs)) daemon mixin destination s randomTxKeys ourInputs foundMoney);
      match r with
      | inl error => Some (error, NULL_HASH, s)
      | inr (tx, keyOutputs, ourInputs, txKey) =>
          if negb (verifyAmounts tx) then Some (AMOUNTS_NOT_PRETTY, NULL_HASH, s)
          else
            feeOk ← verifyTransactionFee 0 tx;
            if negb feeOk then Some (UNEXPECTED_FEE, NULL_HASH, s)
            else
              '(sendError, txHash) ← relayTransaction daemon tx;
              if bool_decide (sendError <> SUCCESS) then Some (sendError, NULL_HASH, s)
              else
                s ← remember_sent s txHash 0 [] ourInputs destination 0 keyOutputs txKey;
                Some (SUCCESS, txHash, s)
      end.

Definition sendFusionTransactionBasic (daemon : SendNode) (randomTxKeys : nat -> PublicKey * SecretKey) (s : SubWallets)
    : option (ErrorCode * Hash * SubWallets) :=
  let '(_, _, defaultMixin) := getMixinAllowableRange (networkBlockCount daemon) in
  defaultAddress ← getPrimaryAddress s;
  sendFusionTransactionAdvanced daemon defaultMixin [] defaultAddress randomTxKeys s.

End Send.
