(* ===== verification/TransferTheorems.v ===== *)
(** * Theorems about sending

    Amounts are split into denominations and add up, what is made passes the checks
    before it is relayed, rings hold what they should, and the container
    remembers what was sent. *)

From stdpp Require Import gmap.
From S2P Require Import Prelude Config Bytes Median Types Base58 WalletBlocks TxExtra Serialization Block Currency Validation Mixins Errors Addresses Utilities WalletTypes SubWallet SubWallets WalletFacts ValidateParameters WalletSync WalletSyncFacts WalletTheorems Transfer.
Import parameters.
#[local] Open Scope Z_scope.

(** ** Denominations *)

Lemma pretty_amount d n : 1 <= d <= 9 -> 0 <= n <= 18 \/ n = 19 /\ d = 1 -> d * 10 ^ n ∈ PRETTY_AMOUNTS.
Proof.
  intros Hd [Hn|[-> ->]]; unfold PRETTY_AMOUNTS; apply elem_of_app; [left|right; left].
  apply list_elem_of_In, in_concat. exists ((fun digit => digit * 10 ^ n) <$> [1; 2; 3; 4; 5; 6; 7; 8; 9]).
  split; apply list_elem_of_In.
  - apply (list_elem_of_fmap_2 (fun power => (fun digit => digit * 10 ^ power) <$> [1; 2; 3; 4; 5; 6; 7; 8; 9])), elem_of_seqZ. lia.
  - apply (list_elem_of_fmap_2 (fun digit => digit * 10 ^ n)). rewrite !elem_of_cons. lia.
Qed.

Lemma split_loop_spec fuel : forall n a multiplier acc,
  Z.of_nat n + Z.of_nat fuel = 20 -> 0 <= a -> (0 < a -> multiplier = 10 ^ Z.of_nat n) -> a * 10 ^ Z.of_nat n < 2 ^ 64 ->
  Forall (fun x => x ∈ PRETTY_AMOUNTS) acc ->
  sumZ (split_loop fuel a multiplier acc) = sumZ acc + a * 10 ^ Z.of_nat n /\
  Forall (fun x => x ∈ PRETTY_AMOUNTS) (split_loop fuel a multiplier acc).
Proof.
  induction fuel as [|fuel IH]; intros n a multiplier acc Hn Ha Hm Hb Hacc; cbn [split_loop].
  { assert (Z.of_nat n = 20) as E by lia. rewrite E in Hb. assert (a = 0) as -> by (clear -Ha Hb; lia). split; [lia|done]. }
  destruct (Z.eqb_spec a 0) as [->|Hne]; [split; [lia|done]|].
  rewrite Hm by lia. assert (10 ^ Z.of_nat (S n) = 10 * 10 ^ Z.of_nat n) as Ep
    by (rewrite Nat2Z.inj_succ, Z.pow_succ_r by lia; lia).
  pose proof (Z.pow_pos_nonneg 10 (Z.of_nat n) ltac:(lia) ltac:(lia)) as Hp.
  pose proof (Z.div_mod a 10 ltac:(lia)) as Hdm. pose proof (Z.mod_pos_bound a 10 ltac:(lia)) as Hmod.
  pose proof (Z.div_pos a 10 ltac:(lia) ltac:(lia)) as Hdp.
  assert (fits 64 (10 ^ Z.of_nat n * (a mod 10))) as Hf by (unfold fits; nia).
  rewrite (wrap_small _ _ Hf).
  set (acc' := if 10 ^ Z.of_nat n * (a mod 10) =? 0 then acc else acc ++ [10 ^ Z.of_nat n * (a mod 10)]).
  assert (sumZ acc' = sumZ acc + 10 ^ Z.of_nat n * (a mod 10) /\ Forall (fun x => x ∈ PRETTY_AMOUNTS) acc') as [Es Hacc'].
  { unfold acc'. destruct (Z.eqb_spec (10 ^ Z.of_nat n * (a mod 10)) 0) as [->|Hz]; [split; [lia|done]|].
    rewrite sumZ_app. split; [cbn; lia|]. apply Forall_app. split; [done|]. apply Forall_singleton.
    rewrite Z.mul_comm. apply pretty_amount; [nia|]. destruct (decide (Z.of_nat n <= 18)); [lia|]. right.
    assert (Z.of_nat n = 19) as E by lia. rewrite E in *. lia. }
  destruct (IH (S n) (a / 10) (u64 (10 ^ Z.of_nat n * 10)) acc') as [E1 E2]; [lia|lia| |nia|done|].
  { intros H. rewrite wrap_small; [lia|]. unfold fits. nia. }
  split; [|done]. rewrite E1, Es. nia.
Qed.

Lemma split_spec a : fits 64 a ->
  sumZ (splitAmountIntoDenominations a) = a /\ Forall (fun x => x ∈ PRETTY_AMOUNTS) (splitAmountIntoDenominations a).
Proof.
  intros [H0 H1]. unfold splitAmountIntoDenominations.
  destruct (split_loop_spec 20 0 a 1 []) as [E1 E2]; [done|done|done|cbn; lia|constructor|].
  split; [rewrite E1; cbn; lia|exact E2].
Qed.

Lemma verifyAmounts_spec l : Forall (fun x => x ∈ PRETTY_AMOUNTS) l -> verifyAmounts_list l = true.
Proof.
  unfold verifyAmounts_list. induction 1 as [|x l Hx _ IH]; [done|]. cbn [forallb].
  rewrite IH, andb_true_r. by apply bool_decide_eq_true_2.
Qed.

(** an amount is split into numbers with one digit that is not zero, all of
    them in the table of amounts that may be sent, and they add up to it; the
    twenty rounds of the loop are enough for every 64-bit amount, up to the
    largest. *)
Theorem denominations_correct a : fits 64 a ->
  sumZ (splitAmountIntoDenominations a) = a /\ verifyAmounts_list (splitAmountIntoDenominations a) = true.
Proof. intros H. destruct (split_spec a H) as [E1 E2]. split; [exact E1|]. apply verifyAmounts_spec. exact E2. Qed.

(** The same list as the decomposition of [Currency]. *)
Lemma split_decompose fuel : forall a order acc, 0 <= a < 10 ^ Z.of_nat fuel ->
  split_loop fuel a order acc = decompose_loop (S fuel) a order 0 false 0 acc.
Proof.
  induction fuel as [|fuel IH]; intros a order acc Ha.
  { assert (a = 0) as -> by (cbn in Ha; lia). done. }
  cbn [split_loop]. remember (S fuel) as n. cbn [decompose_loop]. destruct (Z.eqb_spec a 0) as [->|Hne]; [done|]. subst n.
  rewrite (Z.mul_comm (a mod 10)). set (chunk := u64 (order * (a mod 10))).
  assert (fits 64 chunk) as Hc by (apply fits_wrap; lia). rewrite Z.add_0_l, (wrap_small _ _ Hc).
  assert (0 <= a / 10 < 10 ^ Z.of_nat fuel) as Hd.
  { rewrite Nat2Z.inj_succ, Z.pow_succ_r in Ha by lia. zlia. }
  destruct (Z.leb_spec chunk 0).
  - assert (chunk = 0) as -> by (destruct Hc; lia). by apply IH.
  - destruct (Z.eqb_spec chunk 0); [lia|]. by apply IH.
Qed.

Lemma split_is_decomposition a : fits 64 a -> splitAmountIntoDenominations a = decomposeAmount a 0.
Proof.
  intros [H0 H1]. unfold splitAmountIntoDenominations, decomposeAmount, decompose_amount_into_digits.
  rewrite split_decompose by (cbn; lia). by destruct (Z.eqb_spec a 0) as [->|].
Qed.

(** the denominations of the wallet and the decomposition of the daemon, which
    are written twice, are the same function when no amount is dust; it gives
    numbers that strictly increase. *)
Theorem denominations_are_decomposition a : fits 64 a ->
  splitAmountIntoDenominations a = decomposeAmount a 0 /\ StronglySorted Z.lt (splitAmountIntoDenominations a).
Proof.
  intros Ha. rewrite split_is_decomposition by done. split; [done|]. by apply decomposeAmount_spec.
Qed.


(** ** Rings *)

(** The ring of a source: its own output at [realOutput], among [mixin] others that
    the daemon gave. *)
Record ring_of (mixin : Z) (o : TxInputAndOwner) (i : ObscuredInput) : Prop := {
  ring_own : exists own, globalOutputIndex (input o) = Some own /\ oi_outputs i !! realOutput i = Some (mkGlobalIndexKey own (key (input o)));
  ring_others : exists own, globalOutputIndex (input o) = Some own /\
    forall n g, oi_outputs i !! n = Some g -> n <> realOutput i -> gk_index g <> own;
  ring_size : Z.of_nat (length (oi_outputs i)) = mixin + 1;
  ring_amount : oi_amount i = amount (input o);
  ring_key : realTransactionPublicKey i = transactionPublicKey (input o);
  ring_index : realOutputTransactionIndex i = transactionIndex (input o);
  ring_spend : ownerPublicSpendKey i = publicSpendKey o;
  ring_secret : ownerPrivateSpendKey i = privateSpendKey o }.

Lemma take_fakes_spec mixin own outs : forall taken,
  Forall (fun g => gk_index g <> own) taken -> Z.of_nat (length taken) < mixin ->
  Forall (fun g => gk_index g <> own) (take_fakes mixin own outs taken) /\
  Z.of_nat (length (take_fakes mixin own outs taken)) <= mixin.
Proof.
  induction outs as [|g outs IH]; intros taken Ht Hl; cbn [take_fakes]; [split; [done|lia]|].
  destruct (Z.eqb_spec own (gk_index g)) as [E|Hne]; [by apply IH|].
  assert (Forall (fun g => gk_index g <> own) (taken ++ [g])) as Ht'
    by (apply Forall_app; split; [done|]; by apply Forall_singleton).
  assert (length (taken ++ [g]) = S (length taken)) as El by (rewrite length_app; cbn; lia).
  destruct (Z.leb_spec mixin (Z.of_nat (length (taken ++ [g])))); [split; [done|lia]|]. apply IH; [done|lia].
Qed.

Lemma insert_real_spec real outs l n :
  insert_real real outs = (l, n) -> Forall (fun g => gk_index g <> gk_index real) outs ->
  l !! n = Some real /\ length l = S (length outs) /\
  forall j g, l !! j = Some g -> j <> n -> gk_index g <> gk_index real.
Proof.
  revert l n. induction outs as [|o outs IH]; intros l n; cbn [insert_real].
  { intros [= <- <-] _. split_and!; [done..|]. intros [|j] g H Hj; done. }
  rewrite Forall_cons. destruct (gk_index real <=? gk_index o).
  - intros [= <- <-] [Ho Hs]. split_and!; [done..|]. intros [|[|j]] g H Hj; [done| |].
    + cbn in H. by simplify_eq.
    + cbn in H. rewrite Forall_lookup in Hs. by eapply Hs.
  - destruct (insert_real real outs) as [l' n'] eqn:E. intros [= <- <-] [Ho Hs].
    destruct (IH l' n' eq_refl Hs) as (H1 & H2 & H3). split_and!; [done|cbn; lia|].
    intros [|j] g H Hj; cbn in H; [by simplify_eq|]. eapply H3; [exact H|lia].
Qed.

Lemma obscure_ring mixin fakeOuts n o i : 0 <= mixin -> obscure mixin fakeOuts n o = Some (inr i) -> ring_of mixin o i.
Proof.
  intros Hm. unfold obscure. destruct (globalOutputIndex (input o)) as [own|] eqn:Eo; [|done]. cbn [mbind option_bind].
  destruct (if negb (mixin =? 0) then _ else _) as [fakes|] eqn:Ef; [|done]. cbn [mbind option_bind].
  destruct (Z.ltb_spec (Z.of_nat (length fakes)) mixin) as [|Hl]; [done|].
  assert (Forall (fun g => gk_index g <> own) fakes /\ Z.of_nat (length fakes) <= mixin) as [Hf Hl'].
  { destruct (Z.eqb_spec mixin 0) as [->|Hne]; cbn [negb] in Ef; [apply (inj Some) in Ef as <-; by split|].
    destruct (fakeOuts !! n) as [r|]; [|done]. cbn [mbind option_bind] in Ef. apply (inj Some) in Ef as <-.
    apply take_fakes_spec; [constructor|cbn; lia]. }
  destruct (insert_real _ fakes) as [outs position] eqn:Ei. intros E. apply (inj Some) in E. injection E as <-.
  destruct (insert_real_spec _ _ _ _ Ei Hf) as (H1 & H2 & H3). split; try done; cbn.
  - by exists own.
  - exists own. split; [done|]. intros j g Hj Hne. by apply (H3 j g Hj Hne).
  - lia.
Qed.

Lemma obscure_all_rings mixin fakeOuts sources : forall n l, 0 <= mixin ->
  obscure_all mixin fakeOuts n sources = Some (inr l) -> Forall2 (ring_of mixin) sources l.
Proof.
  induction sources as [|o sources IH]; intros n l Hm; cbn [obscure_all].
  { intros E. apply (inj Some) in E. injection E as <-. constructor. }
  destruct (obscure mixin fakeOuts n o) as [[e|i]|] eqn:Eo; [done| |done]. cbn [mbind option_bind].
  destruct (obscure_all mixin fakeOuts (S n) sources) as [[e|rest]|] eqn:Er; [done| |done]. cbn [mbind option_bind].
  intros E. apply (inj Some) in E. injection E as <-. constructor; [by eapply obscure_ring|by eapply IH].
Qed.

Section Send.
Context (cn_fast_hash : list Z -> list Z) (check_key : PublicKey -> bool)
  (sort_sources : list TxInputAndOwner -> list TxInputAndOwner) (sort_sources_perm : forall l, sort_sources l ≡ₚ l)
  (generate_key_derivation : PublicKey -> SecretKey -> list Z)
  (underive_public_key : list Z -> Z -> PublicKey -> PublicKey)
  (derive_public_key : list Z -> Z -> PublicKey -> PublicKey)
  (derive_secret_key : list Z -> Z -> SecretKey -> SecretKey)
  (generate_key_image : PublicKey -> SecretKey -> list Z)
  (sort_destinations : list TransactionDestination -> list TransactionDestination)
  (sort_destinations_perm : forall l, sort_destinations l ≡ₚ l)
  (ops_generateRingSignatures : Hash -> KeyImage -> list PublicKey -> SecretKey -> nat -> option (list Signature))
  (ops_checkRingSignature : Hash -> KeyImage -> list PublicKey -> list Signature -> bool).
Local Notation setupInputs := (setupInputs generate_key_derivation derive_public_key derive_secret_key generate_key_image).
Local Notation makeTransaction :=
  (makeTransaction cn_fast_hash sort_sources generate_key_derivation derive_public_key derive_secret_key generate_key_image
     sort_destinations ops_generateRingSignatures ops_checkRingSignature).

(** The input of the transaction that spends a source. *)
Definition spends_source (mixin : Z) (view : SecretKey) (o : TxInputAndOwner) (i : Types.TransactionInput) : Prop :=
  exists ring own n,
    globalOutputIndex (input o) = Some own /\ ring !! n = Some (u32 own) /\ Z.of_nat (length ring) = mixin + 1 /\
    i = KeyInput (amount (input o)) (absolute_output_offsets_to_relative ring)
          (let derivation := generate_key_derivation (transactionPublicKey (input o)) view in
           generate_key_image (derive_public_key derivation (transactionIndex (input o)) (publicSpendKey o))
             (derive_secret_key derivation (transactionIndex (input o)) (privateSpendKey o))).

Lemma setupInputs_spec mixin view sources : forall rings l,
  Forall2 (ring_of mixin) sources rings -> setupInputs rings view = Some (inr l) ->
  Forall2 (spends_source mixin view) sources l.*1.
Proof using Type.
  induction sources as [|o sources IH]; intros rings l; inversion 1 as [|? i ? rest Hring Hrest]; subst; cbn [Transfer.setupInputs].
  { intros E. apply (inj Some) in E. injection E as <-. constructor. }
  unfold setup_input, genKeyImage. destruct Hring as [(own & Eo & Hown) _ Hsize Ha Hk Hi Hs Hp]. rewrite Hown. cbn [mbind option_bind].
  case_bool_decide; [done|]. cbn [mbind option_bind].
  destruct (setupInputs rest view) as [[e|lrest]|] eqn:Er; [done| |done]. cbn [mbind option_bind].
  intros E. apply (inj Some) in E. injection E as <-. rewrite fmap_cons. constructor; [|by eapply IH].
  exists ((fun g => u32 (gk_index g)) <$> oi_outputs i), own, (realOutput i).
  split; [done|]. split; [by rewrite list_lookup_fmap, Hown|]. split; [by rewrite length_fmap|].
  cbn [fst]. by rewrite Ha, Hk, Hi, Hs, Hp.
Qed.

Lemma signed_prefix tx rings secrets tx' :
  generateRingSignatures cn_fast_hash ops_generateRingSignatures ops_checkRingSignature tx rings secrets = Some (inr tx') ->
  prefix tx' = tx.
Proof using Type.
  unfold generateRingSignatures. destruct (sign_inputs _ _ _) as [[e|sigs]|]; [done| |done]. cbn [mbind option_bind].
  destruct (mapM _ _) as [checks|]; [|done]. cbn [mbind option_bind]. destruct (forallb id checks); [|done].
  intros E. apply (inj Some) in E. by injection E as <-.
Qed.

Lemma make_outputs_amounts secret n destinations :
  ko_amount <$> make_outputs generate_key_derivation derive_public_key secret n destinations = td_amount <$> destinations.
Proof using Type. revert n. induction destinations as [|d l IH]; intros n; [done|]. cbn. f_equal. apply IH. Qed.

Lemma makeTransaction_spec daemon mixin ourInputs paymentID destinations s unlock key tx outs :
  0 <= mixin -> makeTransaction daemon mixin ourInputs paymentID destinations s unlock key = Some (inr (tx, outs)) ->
  Forall2 (spends_source mixin (m_privateViewKey s)) (sort_sources ourInputs) (Types.inputs (prefix tx)) /\
  Types.amount <$> Types.outputs (prefix tx) = td_amount <$> sort_destinations destinations /\
  extra (prefix tx) = addTransactionPublicKeyToExtra
    (if bool_decide (paymentID <> []) then default [] (createTxExtraWithPaymentId paymentID []) else []) key.1.
Proof using Type.
  intros Hm. unfold Transfer.makeTransaction, prepareRingParticipants.
  destruct (getRingParticipants daemon mixin (sort_sources ourInputs)) as [e|fakeOuts]; [done|].
  destruct (obscure_all mixin fakeOuts 0 (sort_sources ourInputs)) as [[e|rings]|] eqn:Eo; [done| |done]. cbn [mbind option_bind].
  apply obscure_all_rings in Eo; [|done].
  destruct (setupInputs rings (m_privateViewKey s)) as [[e|l]|] eqn:Es; [done| |done]. cbn [mbind option_bind].
  apply (setupInputs_spec mixin _ _ _ _ Eo) in Es.
  destruct (generateRingSignatures _ _ _ _ _ _) as [[e|tx']|] eqn:Eg; [done| |done]. cbn [mbind option_bind].
  apply signed_prefix in Eg. intros E. apply (inj Some) in E. injection E as <- <-. rewrite Eg.
  cbn [Types.inputs Types.outputs extra]. split; [exact Es|]. split; [|done].
  unfold keyOutputToTransactionOutput, setupOutputs. rewrite <- list_fmap_compose. apply make_outputs_amounts.
Qed.

Lemma spent_amounts mixin view sources l :
  Forall2 (spends_source mixin view) sources l ->
  mapM (fun i => match i with KeyInput a _ _ => Some a | BaseInput _ => None end) l = Some (owner_amount <$> sources).
Proof using Type.
  induction 1 as [|o i sources l (ring & own & n & _ & _ & _ & ->) _ IH]; [done|]. cbn [mapM mbind option_bind]. by rewrite IH.
Qed.

Lemma spent_key_amounts mixin view sources l :
  Forall2 (spends_source mixin view) sources l -> key_amounts l = owner_amount <$> sources.
Proof using Type.
  induction 1 as [|o i sources l (ring & own & n & _ & _ & _ & ->) _ IH]; [done|]. cbn. by rewrite <- IH.
Qed.

Lemma setupDestinations_spec l change address ds :
  Forall (fun p => fits 64 p.2) l -> fits 64 change -> setupDestinations cn_fast_hash check_key l change address = Some ds ->
  sumZ (td_amount <$> ds) = sumZ (snd <$> l) + change /\ Forall (fun x => x ∈ PRETTY_AMOUNTS) (td_amount <$> ds).
Proof using Type.
  intros Hl Hc. unfold setupDestinations. set (l' := if negb (change =? 0) then l ++ [(address, change)] else l).
  assert (sumZ (snd <$> l') = sumZ (snd <$> l) + change /\ Forall (fun p => fits 64 p.2) l') as [<- Hl'].
  { unfold l'. destruct (Z.eqb_spec change 0) as [->|]; cbn [negb]; [split; [lia|done]|].
    rewrite fmap_app, sumZ_app. split; [cbn; lia|]. apply Forall_app. split; [done|]. by apply Forall_singleton. }
  clearbody l'. clear l Hl. destruct (mapM _ l') as [dss|] eqn:E; [|done]. cbn [mbind option_bind].
  intros E'. apply (inj Some) in E' as <-. apply mapM_Some_1 in E. induction E as [|p d l' dss Hd _ IH]; [split; [done|constructor]|].
  apply Forall_cons in Hl' as [Hp Hl']. destruct (IH Hl') as [IH1 IH2]. cbn [concat]. rewrite !fmap_app, fmap_cons, sumZ_app.
  destruct (addressToKeys _ _ p.1) as [[spend view]|]; [|done]. cbn [mbind option_bind] in Hd. apply (inj Some) in Hd as <-.
  assert (td_amount <$> denominations spend view p.2 = splitAmountIntoDenominations p.2) as ->.
  { unfold denominations. rewrite <- list_fmap_compose. apply list_fmap_id. }
  destruct (split_spec p.2 Hp) as [S1 S2]. rewrite S1, IH1. split; [done|]. apply Forall_app. split; [exact S2|exact IH2].
Qed.

(** The change gives back what the inputs have too much, whatever wraps around. *)
Lemma sub_wrap a b : u64 (u64 a - u64 b) = u64 (a - b).
Proof using Type. words. by rewrite <- Zminus_mod. Qed.

Lemma change_wrap a b c : u64 (a - (b + u64 (u64 a - u64 (b + c)))) = u64 c.
Proof using Type.
  rewrite sub_wrap, <- sub_wrap, wrap_add_r, sub_wrap. f_equal. lia.
Qed.

(** The amounts of a transaction, and the checks that follow from them. *)
Lemma made_amounts daemon mixin ourInputs paymentID l fee change address ds s unlock key tx outs :
  0 <= mixin -> Forall (fun p => fits 64 p.2) l -> fits 64 fee ->
  change = u64 (sum_u64 (owner_amount <$> ourInputs) - u64 (sumZ (snd <$> l) + fee)) ->
  setupDestinations cn_fast_hash check_key l change address = Some ds ->
  makeTransaction daemon mixin ourInputs paymentID ds s unlock key = Some (inr (tx, outs)) ->
  Forall (fun x => x ∈ PRETTY_AMOUNTS) (Types.amount <$> Types.outputs (prefix tx)) /\
  u64 (sumZ (owner_amount <$> ourInputs) - sumZ (Types.amount <$> Types.outputs (prefix tx))) = fee.
Proof using sort_destinations_perm.
  intros Hm Hl Hf Hc Ed Et. apply makeTransaction_spec in Et as (_ & -> & _); [|done].
  apply setupDestinations_spec in Ed as [Es Hp]; [|done|subst change; apply fits_wrap; lia].
  pose proof (fmap_Permutation td_amount _ _ (sort_destinations_perm ds)) as Hds. split; [by rewrite Hds|].
  rewrite (sumZ_Permutation _ _ Hds), Es, Hc, sum_u64_wrap.
  rewrite change_wrap. by apply wrap_small.
Qed.

Lemma amounts_checks mixin view ourInputs fee tx :
  Forall2 (spends_source mixin view) (sort_sources ourInputs) (Types.inputs (prefix tx)) ->
  Forall (fun x => x ∈ PRETTY_AMOUNTS) (Types.amount <$> Types.outputs (prefix tx)) ->
  u64 (sumZ (owner_amount <$> ourInputs) - sumZ (Types.amount <$> Types.outputs (prefix tx))) = fee ->
  verifyAmounts tx = true /\ verifyTransactionFee fee tx = Some true.
Proof using sort_sources_perm.
  intros Hin Hp Hf. unfold verifyAmounts, verifyTransactionFee. rewrite (spent_amounts _ _ _ _ Hin). cbn [mbind option_bind].
  split; [by apply verifyAmounts_spec|]. f_equal. apply Z.eqb_eq. rewrite !sum_u64_wrap, <- Hf.
  rewrite (sumZ_Permutation _ _ (fmap_Permutation owner_amount _ _ (sort_sources_perm ourInputs))).
  by rewrite sub_wrap.
Qed.

(** ** Errors *)

#[local] Ltac error_cases := unfold mbind, option_bind in *; repeat (case_match; simplify_eq; try by (repeat split)).

(** An error that is not one of the two last checks. *)
Definition earlier_error (e : ErrorCode) : Prop := e <> AMOUNTS_NOT_PRETTY /\ e <> UNEXPECTED_FEE.

Lemma or_else_earlier x rest e :
  (forall e, x = Some e -> earlier_error e) -> (forall e, rest = Some e -> earlier_error e) ->
  or_else x rest = Some e -> earlier_error e.
Proof using Type.
  intros Hx Hr. unfold or_else. destruct x as [e'|]; [|done]. cbn [mbind option_bind]. case_bool_decide; [|apply Hr].
  intros E. apply (inj Some) in E as <-. by apply Hx.
Qed.

Lemma addresses_earlier addresses allowed e :
  validateAddresses cn_fast_hash check_key addresses allowed = Some e -> earlier_error e.
Proof using Type.
  assert (forall a e, validate_address cn_fast_hash check_key allowed a = Some e -> earlier_error e) as Ha.
  { intros a e'. unfold validate_address, integrated_part. intros E. error_cases. }
  induction addresses as [|a l IH]; cbn [validateAddresses]; [by intros [= <-]|].
  destruct (validate_address _ _ _ a) as [e'|] eqn:E; [|done]. cbn [mbind option_bind]. case_bool_decide; [|done].
  intros E'. apply (inj Some) in E' as <-. by eapply Ha.
Qed.

Lemma our_earlier addresses s e : validateOurAddresses cn_fast_hash check_key addresses s = Some e -> earlier_error e.
Proof using Type.
  apply or_else_earlier; [intros e'; apply addresses_earlier|]. clear e. intros e.
  induction addresses as [|a l IH]; cbn [our_addresses]; [by intros [= <-]|].
  destruct (addressToKeys _ _ a) as [[k v]|]; [|done]. cbn [mbind option_bind]. case_bool_decide; [by intros [= <-]|done].
Qed.

Lemma integrated_earlier destinations : forall paymentID e,
  validateIntegratedAddresses cn_fast_hash destinations paymentID = Some e -> earlier_error e.
Proof using Type.
  induction destinations as [|[a x] l IH]; intros paymentID e; cbn [validateIntegratedAddresses]; [by intros [= <-]|].
  intros E. error_cases; by eapply IH.
Qed.

Lemma validate_earlier now destinations mixin fee paymentID from change s height e :
  validateTransaction cn_fast_hash check_key now destinations mixin fee paymentID from change s height = Some e -> earlier_error e.
Proof using Type.
  unfold validateTransaction.
  apply or_else_earlier; [intros e'|intros e'; apply or_else_earlier; [intros e''; apply integrated_earlier|intros e'';
    apply or_else_earlier; [intros e3; apply our_earlier|intros e3; apply or_else_earlier; [intros e4|intros e4;
      apply or_else_earlier; [intros e5|intros e5; apply or_else_earlier; [intros e6|intros e6;
        apply or_else_earlier; [intros e7; apply our_earlier|by intros e7 [= <-]]]]]]]].
  - unfold validateDestinations. destruct destinations; [by intros [= <-]|]. destruct (existsb _ _); [by intros [= <-]|].
    apply addresses_earlier.
  - unfold validateAmount. intros E. error_cases.
  - unfold validateMixin. intros E. error_cases.
  - unfold validatePaymentID. intros E. error_cases.
Qed.

Lemma make_earlier daemon mixin ourInputs paymentID destinations s unlock key e :
  makeTransaction daemon mixin ourInputs paymentID destinations s unlock key = Some (inl e) -> earlier_error e /\ e <> SUCCESS.
Proof using Type.
  unfold Transfer.makeTransaction, prepareRingParticipants.
  destruct (getRingParticipants daemon mixin (sort_sources ourInputs)) as [e'|fakes] eqn:Eg.
  { intros [= <-]. unfold getRingParticipants in Eg. error_cases. }
  assert (forall l n e, obscure_all mixin fakes n l = Some (inl e) -> earlier_error e /\ e <> SUCCESS) as Ho.
  { induction l as [|o l IH]; intros n e'; cbn [obscure_all]; [done|]. unfold obscure. intros E.
    error_cases; by eapply IH. }
  assert (forall l e, setupInputs l (m_privateViewKey s) = Some (inl e) -> earlier_error e /\ e <> SUCCESS) as Hs.
  { induction l as [|o l IH]; intros e'; cbn [Transfer.setupInputs]; [done|]. unfold setup_input. intros E.
    error_cases; by eapply IH. }
  assert (forall p l e, sign_inputs ops_generateRingSignatures p l = Some (inl e) -> earlier_error e /\ e <> SUCCESS) as Hg.
  { intros p. induction l as [|[[o x] i] l IH]; intros e'; cbn [sign_inputs]; [done|]. intros E.
    error_cases; by eapply IH. }
  destruct (obscure_all _ _ _ _) as [[e'|rings]|] eqn:Eo; [|cbn [mbind option_bind]|done].
  { intros [= <-]. by eapply Ho. }
  destruct (setupInputs rings _) as [[e'|l]|] eqn:Es; [|cbn [mbind option_bind]|done].
  { intros [= <-]. by eapply Hs. }
  unfold generateRingSignatures. destruct (sign_inputs _ _ _) as [[e'|sigs]|] eqn:Ei; [|cbn [mbind option_bind]|done].
  { intros [= <-]. by eapply Hg. }
  destruct (mapM _ _) as [checks|]; [|done]. cbn [mbind option_bind]. destruct (forallb id checks); [done|]. by intros [= <-].
Qed.

(** ** The outcome *)

Context (shuffle : list TxInputAndOwner -> list TxInputAndOwner) (shuffle_perm : forall l, shuffle l ≡ₚ l) (now : Z).
Local Notation remember_sent := (remember_sent cn_fast_hash check_key generate_key_derivation underive_public_key).
Local Notation sendTransactionAdvanced :=
  (sendTransactionAdvanced cn_fast_hash check_key sort_sources generate_key_derivation underive_public_key derive_public_key
     derive_secret_key generate_key_image sort_destinations ops_generateRingSignatures ops_checkRingSignature shuffle now).
Local Notation getTransactionInputsForAmount := (getTransactionInputsForAmount shuffle now).

Lemma extract_amounts l : forall paymentID l' paymentID',
  extract_integrated cn_fast_hash l paymentID = Some (l', paymentID') -> snd <$> l' = snd <$> l.
Proof using Type.
  induction l as [|[a x] l IH]; intros paymentID l' paymentID'; cbn [extract_integrated]; [by intros [= <- <-]|].
  destruct (if negb _ then _ else _) as [[a' p']|]; [|done]. cbn [mbind option_bind].
  destruct (extract_integrated _ l p') as [[rest p'']|] eqn:E; [|done]. cbn [mbind option_bind]. intros [= <- <-].
  rewrite !fmap_cons. f_equal. by eapply IH.
Qed.

(** The inputs are the first ones, and what is found is their sum. *)
Lemma take_inputs_found need l : forall found used inputs sum,
  take_inputs need found used l = Some (inputs, sum) ->
  exists l1 l2, l = l1 ++ l2 /\ inputs = used ++ l1 /\ sum = u64 (found + sumZ (owner_amount <$> l1)).
Proof using Type.
  induction l as [|o l IH]; intros found used inputs sum; cbn [take_inputs]; [done|].
  destruct (need <=? _).
  { intros [= <- <-]. exists [o], l. split_and!; [done..|]. by rewrite owner_sum_cons, Z.add_0_r. }
  intros E. apply IH in E as (l1 & l2 & -> & -> & ->). exists (o :: l1), l2. rewrite <- app_assoc.
  split_and!; [done..|]. rewrite owner_sum_cons, wrap_add_l. f_equal. unfold owner_amount. lia.
Qed.

Lemma chosen_inputs s need all from height inputs sum :
  container_ok s -> getTransactionInputsForAmount s need all from height = Some (inputs, sum) ->
  m_isViewWallet s = false /\ sum = sum_u64 (owner_amount <$> inputs) /\
  Forall (spendable_from now s (source_keys s all from) height) inputs /\
  (NoDup (source_keys s all from) -> NoDup (owner_image <$> inputs)).
Proof using shuffle_perm.
  intros Hok. unfold SubWallets.getTransactionInputsForAmount, throwIfViewWallet. destruct (m_isViewWallet s) eqn:Ev; [done|].
  destruct (wallets_to_take s all from) as [wallets|] eqn:Ew; [|done]. cbn [mbind option_bind].
  intros E. apply take_inputs_found in E as (l1 & l2 & El & -> & ->). cbn [app].
  split; [done|]. split; [by rewrite sum_u64_wrap|]. pose proof (shuffle_perm (available_inputs now wallets height)) as Hp.
  split.
  - pose proof (available_spec now s (source_keys s all from) wallets height Hok Ew) as Hf. rewrite <- Hp, El in Hf.
    by apply Forall_app in Hf as [? _].
  - intros Hn. pose proof (available_nodup now s _ wallets height Hok Ev Hn Ew) as Hd. rewrite <- Hp, El, fmap_app in Hd.
    by apply NoDup_app in Hd as [? _].
Qed.

(** What was sent: the inputs chosen, and the transaction that spends them. *)
Record was_sent (daemon : SendNode) (mixin fee : Z) (s : SubWallets) (ourInputs : list TxInputAndOwner) (tx : Transaction) : Prop := {
  sent_chosen : exists need all from sum,
    getTransactionInputsForAmount s need all from (networkBlockCount daemon) = Some (ourInputs, sum);
  sent_spends : Forall2 (spends_source mixin (m_privateViewKey s)) (sort_sources ourInputs) (Types.inputs (prefix tx));
  sent_pretty : Forall (fun x => x ∈ PRETTY_AMOUNTS) (Types.amount <$> Types.outputs (prefix tx));
  sent_fee : u64 (sumZ (owner_amount <$> ourInputs) - sumZ (Types.amount <$> Types.outputs (prefix tx))) = fee;
  sent_relayed : sendTransaction daemon tx = (true, false) }.

(** C13: an attempt to send has one of two outcomes.  With an error
    there is no hash and the container is as before, and the error is never one of the two
    last checks: the amounts of the outputs are always in the table and the fee is always
    the one asked for, also where the sums wrap around.  Without an error the
    transaction was accepted by the daemon, each of its inputs spends one of the inputs
    chosen, with the key image that belongs to it and with our output in a ring of
    [mixin + 1], inputs exceed outputs by the fee, and the container remembers it. *)
Theorem sending_outcome daemon l mixin fee paymentID from change unlock key s e h s' :
  container_ok s -> 0 <= mixin -> Forall (fun p => fits 64 p.2) l -> fits 64 (nodeFee daemon).1 -> fits 64 fee ->
  sendTransactionAdvanced daemon l mixin fee paymentID from change unlock key s = Some (e, h, s') ->
  if bool_decide (e = SUCCESS)
  then exists ourInputs tx, was_sent daemon mixin fee s ourInputs tx /\ getTransactionHash cn_fast_hash tx = Some h /\
    exists paymentID address required outs, remember_sent s h fee paymentID ourInputs address required outs key = Some s'
  else earlier_error e /\ h = NULL_HASH /\ s' = s.
Proof using shuffle_perm sort_sources_perm sort_destinations_perm.
  intros Hok Hm Hl Hn Hf. unfold Transfer.sendTransactionAdvanced. destruct (nodeFee daemon) as [feeAmount feeAddress]. cbn in Hn.
  set (l1 := if negb (feeAmount =? 0) then l ++ [(feeAddress, feeAmount)] else l).
  assert (Forall (fun p => fits 64 p.2) l1) as Hl1.
  { unfold l1. destruct (negb _); [|done]. apply Forall_app. split; [done|]. by apply Forall_singleton. }
  clearbody l1. clear Hl Hn l. destruct (if bool_decide (change = []) then _ else _) as [change'|]; [|done]. cbn [mbind option_bind].
  destruct (validateTransaction _ _ _ _ _ _ _ _ _ _ _) as [e0|] eqn:Ev; [|done]. cbn [mbind option_bind].
  apply validate_earlier in Ev. case_bool_decide as He0.
  { intros [= <- <- <-]. by rewrite bool_decide_eq_false_2. }
  destruct (extract_integrated _ l1 paymentID) as [[l2 pid]|] eqn:Ex; [|done]. cbn [mbind option_bind].
  assert (Forall (fun p => fits 64 p.2) l2) as Hl2.
  { apply extract_amounts in Ex. apply (Forall_fmap snd (fits 64)). rewrite Ex. by apply Forall_fmap. }
  destruct (addressesToSpendKeys _ _ from) as [keys|]; [|done]. cbn [mbind option_bind].
  destruct (getTransactionInputsForAmount _ _ _ _ _) as [[ourInputs sum]|] eqn:Ei; [|done]. cbn [mbind option_bind].
  pose proof (chosen_inputs _ _ _ _ _ _ _ Hok Ei) as (_ & Esum & _).
  destruct (setupDestinations _ _ _ _ _) as [ds|] eqn:Ed; [|done]. cbn [mbind option_bind].
  destruct (makeTransaction _ _ _ _ _ _ _ _) as [[e1|[tx outs]]|] eqn:Em; [|cbn [mbind option_bind]|done].
  { intros [= <- <- <-]. apply make_earlier in Em as [He1 Hne]. by rewrite bool_decide_eq_false_2. }
  eapply made_amounts in Ed as [Hpretty Hfee]; [|exact Hm|exact Hl2|exact Hf| |exact Em].
  2: { by rewrite Esum, getTransactionSum_wrap, wrap_add_l. }
  pose proof (makeTransaction_spec _ _ _ _ _ _ _ _ _ _ Hm Em) as (Hspend & _ & _).
  destruct (amounts_checks _ _ _ _ _ Hspend Hpretty Hfee) as [Ev1 Ev2].
  destruct (isTransactionPayloadTooBig tx _) as [e2|] eqn:Eb; [|done]. cbn [mbind option_bind].
  destruct (bool_decide (e2 <> SUCCESS)) eqn:He2.
  { apply bool_decide_eq_true in He2. intros [= <- <- <-]. rewrite bool_decide_eq_false_2 by done. unfold isTransactionPayloadTooBig in Eb. error_cases. }
  rewrite Ev1, Ev2. cbn [negb mbind option_bind]. unfold relayTransaction.
  destruct (sendTransaction daemon tx) as [[] []] eqn:Er; cbn [mbind option_bind negb]; try by intros [= <- <- <-].
  destruct (getTransactionHash _ tx) as [hash|] eqn:Eh; [|done]. cbn [mbind option_bind].
  rewrite bool_decide_eq_false_2 by (by intros []). destruct (remember_sent _ _ _ _ _ _ _ _ _) as [s''|] eqn:Es; [|done].
  cbn [mbind option_bind]. intros [= <- <- <-]. rewrite bool_decide_eq_true_2 by done.
  exists ourInputs, tx. split; [split; [by repeat eexists|done..]|]. split; [done|]. by repeat eexists.
Qed.

(** ** What is remembered *)

(** Where the container has an input. *)
Definition unspent_in (s : SubWallets) (o : TxInputAndOwner) : Prop :=
  exists w, m_subWallets s !! publicSpendKey o = Some w /\ input o ∈ m_unspentInputs w.

Definition locked_in (s : SubWallets) (o : TxInputAndOwner) : Prop :=
  exists w, m_subWallets s !! publicSpendKey o = Some w /\ input o ∈ m_lockedInputs w.

Lemma lock_one s R Sp hashes o :
  scanned s R Sp hashes -> unspent_in s o ->
  exists s', SubWallets_markInputAsLocked s (owner_image o) (publicSpendKey o) = Some s' /\ locked_in s' o /\
    m_lockedTransactions s' = m_lockedTransactions s /\
    forall o', (locked_in s o' -> locked_in s' o') /\ (unspent_in s o' -> owner_image o' <> owner_image o -> unspent_in s' o').
Proof using Type.
  intros H (w & Hw & Hi). unfold SubWallets_markInputAsLocked, throwIfViewWallet, at_wallet, markInputAsLocked.
  rewrite (sc_full _ _ _ _ H), Hw. cbn [mbind option_bind].
  assert ((publicSpendKey o, input o) ∈ R) as Hr.
  { apply (elem_of_unspent _ R Sp). rewrite <- (sc_unspent _ _ _ _ H _ _ Hw). apply elem_of_app. by left. }
  destruct (take_key_image (owner_image o) (m_unspentInputs w)) as [[j rest]|] eqn:E.
  2: { apply take_key_image_None in E. destruct E. by apply (list_elem_of_fmap_2 keyImage). }
  eapply (take_unspent s R Sp hashes _ w (input o)) in E as [-> Hp]; try done; [|by apply submseteq_inserts_r].
  cbn [mbind option_bind]. eexists. split; [done|]. split; [|split; [done|]].
  { eexists. cbn. rewrite lookup_insert_eq. split; [done|]. cbn. apply elem_of_app. right. left. }
  intros o'. destruct (decide (publicSpendKey o' = publicSpendKey o)) as [Ek|Hk]; (split; intros (w' & Hw' & Hi')).
  - rewrite Ek, Hw in Hw'. injection Hw' as <-. eexists. cbn. rewrite Ek, lookup_insert_eq. split; [done|]. cbn. apply elem_of_app. by left.
  - intros Hne. rewrite Ek, Hw in Hw'. injection Hw' as <-. eexists. cbn. rewrite Ek, lookup_insert_eq. split; [done|]. cbn.
    rewrite Hp in Hi'. apply elem_of_cons in Hi' as [Ei|]; [|done]. destruct Hne. unfold owner_image. by rewrite Ei.
  - exists w'. cbn. by rewrite lookup_insert_ne.
  - intros _. exists w'. cbn. by rewrite lookup_insert_ne.
Qed.

Lemma lock_all R Sp hashes l : forall s,
  scanned s R Sp hashes -> Forall (unspent_in s) l -> NoDup (owner_image <$> l) ->
  exists s', lock_inputs s l = Some s' /\ scanned s' R Sp hashes /\ m_lockedTransactions s' = m_lockedTransactions s /\
    Forall (locked_in s') l /\ forall o, locked_in s o -> locked_in s' o.
Proof using Type.
  induction l as [|o l IH]; intros s H; [intros _ _; exists s; by split_and!|].
  rewrite Forall_cons, fmap_cons, NoDup_cons. intros [Ho Hl] [Hn Hnd].
  destruct (lock_one s R Sp hashes o H Ho) as (s1 & E & Ho1 & Et & Hkeep).
  destruct (IH s1) as (s' & E' & H' & Et' & Hl' & Hkeep'); [by eapply lock_scanned| |done|].
  { apply Forall_forall. intros o' Ho'. rewrite Forall_forall in Hl. apply Hkeep; [by apply Hl|].
    intros Ei. apply Hn. rewrite <- Ei. by apply list_elem_of_fmap_2. }
  exists s'. unfold lock_inputs. cbn [foldl mbind option_bind]. change (keyImage (input o)) with (owner_image o). rewrite E.
  split; [exact E'|]. split; [done|]. split; [congruence|]. split; [constructor; [by apply Hkeep'|done]|].
  intros o' Ho'. by apply Hkeep', Hkeep.
Qed.

(** A locked input is not chosen. *)
Lemma locked_not_chosen s R Sp hashes o need all from height inputs sum :
  scanned s R Sp hashes -> locked_in s o -> getTransactionInputsForAmount s need all from height = Some (inputs, sum) ->
  owner_image o ∉ owner_image <$> inputs.
Proof using shuffle_perm.
  intros H (w & Hw & Hi) E. pose proof (chosen_inputs _ _ _ _ _ _ _ (sc_ok _ _ _ _ H) E) as (_ & _ & Hf & _).
  intros (o' & Eo & Ho')%list_elem_of_fmap_1. rewrite Forall_forall in Hf. destruct (Hf o' Ho') as (w' & _ & Hw' & _ & Hi' & _).
  assert (keyImage (input o) ∈ key_images w) as H1.
  { apply list_elem_of_fmap_2, elem_of_app. right. apply elem_of_app. by left. }
  assert (keyImage (input o) ∈ key_images w') as H2.
  { unfold owner_image in Eo. rewrite Eo. apply list_elem_of_fmap_2, elem_of_app. by left. }
  pose proof (images_apart s (sc_ok _ _ _ _ H) _ _ _ _ _ (sc_full _ _ _ _ H) Hw Hw' H1 H2) as Ek. rewrite <- Ek, Hw in Hw'.
  injection Hw' as <-. pose proof (images_nodup s (sc_ok _ _ _ _ H) _ _ (sc_full _ _ _ _ H) Hw) as Hn.
  unfold key_images, wallet_inputs in Hn. rewrite fmap_app in Hn. apply NoDup_app in Hn as (_ & Hd & _).
  apply (Hd (keyImage (input o'))); [by apply list_elem_of_fmap_2|]. unfold owner_image in Eo. rewrite <- Eo.
  apply list_elem_of_fmap_2, elem_of_app. by left.
Qed.

Lemma store_incoming_kept R Sp hashes derivation txHash outs : forall s n,
  let s' := store_incoming underive_public_key s derivation txHash n outs in
  (scanned s R Sp hashes -> scanned s' R Sp hashes) /\ m_lockedTransactions s' = m_lockedTransactions s /\
  forall o, unspent_in s o -> unspent_in s' o.
Proof using Type.
  induction outs as [|output outs IH]; intros s n; [done|]. cbn zeta. cbn [store_incoming].
  destruct (bool_decide _); [|apply IH].
  edestruct IH as (H1 & -> & H3). split_and!.
  - intros H. apply H1. by apply unconfirmed_scanned.
  - unfold SubWallets_storeUnconfirmedIncomingInput. by destruct (_ !! _).
  - intros o (w & Hw & Hi). apply H3. unfold SubWallets_storeUnconfirmedIncomingInput.
    destruct (m_subWallets s !! underive_public_key derivation n (ko_key output)) as [w0|] eqn:E; [|by exists w]. cbn.
    destruct (decide (publicSpendKey o = underive_public_key derivation n (ko_key output))) as [Ek|Hne].
    + rewrite Ek, E in Hw. injection Hw as <-. eexists. cbn. rewrite Ek, lookup_insert_eq. by split.
    + exists w. cbn. by rewrite lookup_insert_ne.
Qed.

Lemma private_key_scanned s R Sp hashes key hash : scanned s R Sp hashes -> scanned (storeTxPrivateKey s key hash) R Sp hashes.
Proof using Type. intros [[] ? ? ? ? ? ? ?]. split; [split|..]; done. Qed.

(** Locking keeps the private keys of transactions. *)
Lemma lock_inputs_keys l : forall s s', lock_inputs s l = Some s' -> m_transactionPrivateKeys s' = m_transactionPrivateKeys s.
Proof using Type.
  unfold lock_inputs. induction l as [|o l IH]; intros s s'; cbn [foldl mbind option_bind]; [by intros E; apply (inj Some) in E as ->|].
  destruct (SubWallets_markInputAsLocked s _ _) as [s1|] eqn:E1.
  - intros E%IH. rewrite E. unfold SubWallets_markInputAsLocked, at_wallet in E1.
    destruct (throwIfViewWallet s); [|done]. cbn [mbind option_bind] in E1. destruct (_ !! _) as [w|]; [|done].
    cbn [mbind option_bind] in E1. destruct (markInputAsLocked w _); [|done]. cbn [mbind option_bind] in E1.
    by apply (inj Some) in E1 as <-.
  - intros E. exfalso. revert E. clear. by induction l.
Qed.

(** C12: once the daemon has accepted a transaction with inputs that were chosen from a container that agrees with
    the chain, the container remembers it without fail: it still agrees with the chain, the
    transaction waits as unconfirmed and its private key is stored under its hash, every input that was
    chosen is locked, and no later choice of inputs, from any addresses and for any
    amount, takes one of them again.  The addresses that were taken from are distinct (named twice, an address
    gives its inputs twice, and locking them fails), the change address is valid, and no
    transaction with this hash waits already. *)
Theorem sent_inputs_locked s R Sp hashes need all from height ourInputs sum keys hash fee paymentID address required outs key :
  scanned s R Sp hashes -> NoDup (source_keys s all from) ->
  getTransactionInputsForAmount s need all from height = Some (ourInputs, sum) ->
  addressToKeys cn_fast_hash check_key address = Some keys -> hash ∉ tx_hash <$> m_lockedTransactions s ->
  exists s', remember_sent s hash fee paymentID ourInputs address required outs key = Some s' /\
    scanned s' R Sp hashes /\ hash ∈ tx_hash <$> m_lockedTransactions s' /\ getTxPrivateKey s' hash = Some key.2 /\
    Forall (locked_in s') ourInputs /\
    forall need' all' from' height' inputs sum', getTransactionInputsForAmount s' need' all' from' height' = Some (inputs, sum') ->
      Forall (fun o => owner_image o ∉ owner_image <$> ourInputs) inputs.
Proof using shuffle_perm.
  intros H Hn Ec Ea Hh. destruct keys as [spend view].
  pose proof (chosen_inputs _ _ _ _ _ _ _ (sc_ok _ _ _ _ H) Ec) as (_ & _ & Hfrom & Hnd).
  unfold Transfer.remember_sent, storeSentTransaction. rewrite Ea. cbn [mbind option_bind].
  set (tx := mkWalletTransaction _ _ _ _ _ _ _ _).
  assert (addUnconfirmedTransaction s tx = Some (with_transactions s (m_transactions s) (m_lockedTransactions s ++ [tx]))) as Ep.
  { unfold addUnconfirmedTransaction. destruct (has_hash _ _) eqn:E; [|done]. by apply has_hash_spec in E. }
  rewrite Ep. cbn [mbind option_bind]. apply (pending_scanned _ _ _ _ _ _ H) in Ep.
  set (s1 := with_transactions s _ _) in *. unfold storeUnconfirmedIncomingInputs.
  destruct (store_incoming_kept R Sp hashes (generate_key_derivation key.1 (m_privateViewKey s1)) hash outs s1 0) as (H2 & Et2 & Hu2).
  specialize (H2 Ep). set (s2 := store_incoming _ _ _ _ _ _) in *.
  destruct (lock_all R Sp hashes ourInputs (storeTxPrivateKey s2 key.2 hash)) as (s' & E & H' & Et' & Hl & _).
  - by apply private_key_scanned.
  - eapply Forall_impl; [exact Hfrom|]. intros o (w & _ & Hw & _ & Hi & _).
    destruct (Hu2 o) as (w' & Hw' & Hi'); [by exists w|]. by exists w'.
  - by apply Hnd.
  - exists s'. split; [exact E|]. split; [done|]. split; [|split; [|split; [done|]]].
    + rewrite Et'. cbn. rewrite Et2. cbn. rewrite fmap_app. apply elem_of_app. right. left.
    + unfold getTxPrivateKey. rewrite (lock_inputs_keys _ _ _ E). apply lookup_insert_eq.
    + intros need' all' from' height' inputs sum' E'. apply Forall_forall. intros o Ho (o' & Eo & Ho')%list_elem_of_fmap_1.
      rewrite Forall_forall in Hl. apply (locked_not_chosen _ _ _ _ o' _ _ _ _ _ _ H' (Hl o' Ho') E').
      rewrite <- Eo. by apply list_elem_of_fmap_2.
Qed.

(** ** Payment ids *)

(** a payment id of letters that are no hexadecimal digits
    passes [validatePaymentID], and [makeTransaction] ignores that it cannot be
    written: the transaction is the one without a payment id, for
    every wallet and every answer of the daemon. *)
Theorem payment_id_dropped daemon mixin ourInputs destinations s unlock key :
  validatePaymentID (replicate 64 103) = SUCCESS /\
  makeTransaction daemon mixin ourInputs (replicate 64 103) destinations s unlock key =
    makeTransaction daemon mixin ourInputs [] destinations s unlock key.
Proof using Type. split; [reflexivity|]. unfold Transfer.makeTransaction. reflexivity. Qed.

(** ** The order of the ring *)

(** the loop that is to sort the outputs of the daemon sorts
    copies.  With an answer that has the greater index first, the ring
    of our input is our own output followed by these two in the order of the
    daemon, so that the indices do not increase, as
    [setupInputs] says they must. *)
Theorem ring_not_sorted daemon o own a b c :
  globalOutputIndex (input o) = Some own -> own < gk_index a -> gk_index b < gk_index a -> gk_index b <> own ->
  getRandomOutsByAmounts daemon [owner_amount o] 3 = Some [mkRandomOuts (owner_amount o) [a; b; c]] ->
  exists i, prepareRingParticipants sort_sources daemon 2 [o] = Some (inr [i]) /\
    gk_index <$> oi_outputs i = [own; gk_index a; gk_index b].
Proof using sort_sources_perm.
  intros Eo Ha Hb Hne E. unfold prepareRingParticipants. rewrite (proj1 (Permutation_singleton_r _ _) (sort_sources_perm [o])).
  unfold getRingParticipants. change (u64 (2 + 1)) with 3. cbn [fmap list_fmap Z.eqb]. change (amount (input o)) with (owner_amount o). rewrite E. cbn [forallb list_find].
  assert (take_fakes 2 own [a; b; c] [] = [a; b]) as Et by (cbn [take_fakes]; by rewrite !(proj2 (Z.eqb_neq own _)) by lia).
  rewrite decide_True by done. unfold enough_outs. cbn [ro_outs length]. change (2 <=? Z.of_nat 3) with true.
  cbn [forallb andb negb Nat.eqb obscure_all length ro_outs enough_outs]. unfold obscure. rewrite Eo.
  cbn [mbind option_bind Z.eqb negb lookup list_lookup ro_outs]. rewrite Et. cbn [mbind option_bind insert_real gk_index].
  rewrite (proj2 (Z.leb_le own (gk_index a))) by lia. eexists. split; reflexivity.
Qed.

(** ** Fusion transactions *)

Context (sort_destinations_sorted : forall l, StronglySorted Z.le (td_amount <$> sort_destinations l)).
Local Notation fusion_loop :=
  (fusion_loop cn_fast_hash check_key sort_sources generate_key_derivation derive_public_key derive_secret_key generate_key_image
     sort_destinations ops_generateRingSignatures ops_checkRingSignature).

(** C34: the loop that takes inputs off until the fusion transaction fits ends: it returns or
    throws within as many rounds as there are inputs and one more, and any larger number of
    rounds gives the same outcome. *)
Theorem fusion_loop_terminates daemon mixin destination s keys ourInputs fuel money :
  (length ourInputs < fuel)%nat ->
  fusion_loop fuel daemon mixin destination s keys ourInputs money <> OutOfFuel /\
  fusion_loop fuel daemon mixin destination s keys ourInputs money =
    fusion_loop (S (length ourInputs)) daemon mixin destination s keys ourInputs money.
Proof using Type.
  enough (forall n fuel fuel' l money, (length l <= n)%nat -> (n < fuel)%nat -> (n < fuel')%nat ->
    fusion_loop fuel daemon mixin destination s keys l money <> OutOfFuel /\
    fusion_loop fuel daemon mixin destination s keys l money = fusion_loop fuel' daemon mixin destination s keys l money) as H.
  { intros Hf. apply (H (length ourInputs)); lia. }
  induction n as [|n IH]; intros [|f] [|f'] l m Hl Hf Hf'; try lia; cbn [Transfer.fusion_loop].
  { destruct l; [done|]. cbn in Hl. lia. }
  destruct (_ <? _); [done|]. destruct (addressToKeys _ _ _) as [[spend view]|]; [|done]. cbn [of_option mbind Run_bind].
  destruct (last l) as [o|] eqn:El; [|done]. cbn [of_option mbind Run_bind]. apply last_Some in El as (l' & ->).
  rewrite removelast_last. rewrite length_app in Hl. cbn in Hl.
  destruct (_ || _); [apply IH; lia|]. destruct (makeTransaction _ _ _ _ _ _ _ _) as [[e|[tx outs]]|]; [done| |done].
  cbn [of_option mbind Run_bind]. destruct (write_transaction tx); [|done]. cbn [of_option mbind Run_bind].
  destruct (_ <? _); [apply IH; lia|done].
Qed.

(** What the loop sends, within its limits. *)
Definition fusion_sent (daemon : SendNode) (mixin : Z) (s : SubWallets) (tx : Transaction) (outs : list WalletKeyOutput)
    (used : list TxInputAndOwner) (key : PublicKey * SecretKey) : Prop :=
  FUSION_TX_MIN_INPUT_COUNT <= Z.of_nat (length used) /\ fits 64 (sumZ (owner_amount <$> used)) /\
  exists spend view data, let ds := denominations spend view (sumZ (owner_amount <$> used)) in
    (0 < length ds)%nat /\ FUSION_TX_MIN_IN_OUT_COUNT_RATIO <= Z.of_nat (length used) / Z.of_nat (length ds) /\
    makeTransaction daemon mixin used [] ds s 0 key = Some (inr (tx, outs)) /\
    write_transaction tx = Some data /\ Z.of_nat (length data) <= FUSION_TX_MAX_SIZE.

Lemma fusion_loop_sent daemon mixin destination s keys tx outs used key : forall fuel ourInputs money,
  Forall (fun o => 0 <= owner_amount o) ourInputs -> sumZ (owner_amount <$> ourInputs) < 2 ^ 64 ->
  money = sumZ (owner_amount <$> ourInputs) ->
  fusion_loop fuel daemon mixin destination s keys ourInputs money = Returns (inr (tx, outs, used, key)) ->
  used `prefix_of` ourInputs /\ fusion_sent daemon mixin s tx outs used key.
Proof using Type.
  induction fuel as [|fuel IH]; intros l money Hp Hs Em; cbn [Transfer.fusion_loop]; [done|].
  destruct (Z.ltb_spec (Z.of_nat (length l)) FUSION_TX_MIN_INPUT_COUNT) as [|Hmin]; [done|].
  destruct (addressToKeys _ _ _) as [[spend view]|]; [|done]. cbn [of_option mbind Run_bind].
  destruct (last l) as [o|] eqn:El; [|done]. cbn [of_option mbind Run_bind]. apply last_Some in El as (l' & El).
  assert (fusion_loop fuel daemon mixin destination s keys (removelast l) (u64 (money - amount (input o))) =
    Returns (inr (tx, outs, used, key)) -> used `prefix_of` l' /\ fusion_sent daemon mixin s tx outs used key) as IH'.
  { subst l. rewrite removelast_last. rewrite fmap_app, sumZ_app in Hs, Em. change (sumZ (owner_amount <$> [o])) with (owner_amount o + 0) in Hs, Em. apply Forall_app in Hp as [Hp Ho].
    rewrite Forall_singleton in Ho. change (amount (input o)) with (owner_amount o). pose proof (sumZ_nonneg (owner_amount <$> l')) as Hnn.
    rewrite Forall_fmap in Hnn. specialize (Hnn Hp). apply IH; [done|lia|]. rewrite wrap_small by (words; lia). lia. }
  assert (used `prefix_of` l' -> used `prefix_of` l) as Hpre by (intros H; subst l; by apply prefix_app_r).
  destruct (_ || _) eqn:Eb; [intros E; apply IH' in E as [H1 H2]; split; [by apply Hpre|exact H2]|].
  apply orb_false_iff in Eb as [Eb1 Eb2]. apply Nat.eqb_neq in Eb1. apply Z.ltb_ge in Eb2.
  destruct (makeTransaction _ _ _ _ _ _ _ _) as [[e|[tx' outs']]|] eqn:Et; [done| |done]. cbn [of_option mbind Run_bind].
  destruct (write_transaction tx') as [data|] eqn:Ew; [|done]. cbn [of_option mbind Run_bind].
  destruct (Z.ltb_spec FUSION_TX_MAX_SIZE (Z.of_nat (length data))) as [|Hsize].
  { intros E; apply IH' in E as [H1 H2]; split; [by apply Hpre|exact H2]. }
  intros E. injection E as <- <- <- <-. rewrite Em in *. split; [done|]. split; [done|].
  split; [split; [by apply sumZ_nonneg, Forall_fmap|done]|]. exists spend, view, data. split_and!; try done. lia.
Qed.

Lemma isFusion_intro ins ins' size height :
  ins ≡ₚ ins' -> Forall (fun a => 0 <= a) ins' -> fits 64 (sumZ ins') -> FUSION_DUST_THRESHOLD_HEIGHT_V2 <= height ->
  size <= FUSION_TX_MAX_SIZE -> FUSION_TX_MIN_INPUT_COUNT <= Z.of_nat (length ins') ->
  FUSION_TX_MIN_IN_OUT_COUNT_RATIO * Z.of_nat (length (decomposeAmount (sumZ ins') 0)) <= Z.of_nat (length ins') ->
  Currency.isFusionTransaction CurrencyBuilder ins (decomposeAmount (sumZ ins') 0) size height = true.
Proof using Type.
  intros Hp Hnn Hfit Hh Hsize Hmin Hratio. unfold Currency.isFusionTransaction. cbn [m_fusionTxMaxSize m_fusionTxMinInputCount
    m_fusionTxMinInOutCountRatio CurrencyBuilder]. rewrite (Permutation_length Hp).
  set (outs := decomposeAmount _ _) in *.
  rewrite (proj2 (Z.ltb_ge _ _)) by done. rewrite (proj2 (Z.ltb_ge _ _)) by done. rewrite (proj2 (Z.ltb_ge _ _)).
  2: { etrans; [apply Z.mod_le; [unfold FUSION_TX_MIN_IN_OUT_COUNT_RATIO|]; lia|lia]. }
  assert (defaultFusionDustThreshold CurrencyBuilder height = 0) as Et.
  { unfold defaultFusionDustThreshold. by rewrite (proj2 (Z.leb_le _ _)). }
  rewrite fusion_input_amount_spec, Et. rewrite (proj2 (forallb_forall _ _)).
  2: { intros a Ha%list_elem_of_In. rewrite Hp in Ha. rewrite Forall_forall in Hnn. specialize (Hnn a Ha).
       by rewrite (proj2 (Z.ltb_ge _ _)). }
  rewrite (sumZ_Permutation _ _ Hp), (wrap_small _ _ Hfit). apply bool_decide_eq_true_2. apply sortZ_id.
  apply Zlt_sorted_le. by apply decomposeAmount_spec.
Qed.

(** C28: a fusion transaction of the wallet is one for the daemon: its fee is
    zero, and [Currency::isFusionTransaction] accepts it at every
    height from which there is no dust, with the size that it has.  Its inputs are the
    first ones of those that were found. *)
Theorem fusion_transaction_accepted daemon mixin destination s keys fuel ourInputs tx outs used key height :
  0 <= mixin -> FUSION_DUST_THRESHOLD_HEIGHT_V2 <= height ->
  Forall (fun o => 0 <= owner_amount o) ourInputs -> sumZ (owner_amount <$> ourInputs) < 2 ^ 64 ->
  fusion_loop fuel daemon mixin destination s keys ourInputs (sumZ (owner_amount <$> ourInputs)) = Returns (inr (tx, outs, used, key)) ->
  used `prefix_of` ourInputs /\ get_tx_fee tx = Some 0 /\
  exists data, write_transaction tx = Some data /\
    isFusionTransaction_tx CurrencyBuilder tx (Z.of_nat (length data)) height = true.
Proof using sort_sources_perm sort_destinations_perm sort_destinations_sorted.
  intros Hm Hh Hp Hs E. destruct (fusion_loop_sent _ _ _ _ _ _ _ _ _ _ _ _ Hp Hs eq_refl E)
    as (Hpre & Hmin & Hfit & spend & view & data & Hne & Hratio & Et & Ew & Hsize).
  split; [done|]. apply makeTransaction_spec in Et as (Hin & Hout & _); [|done].
  assert (td_amount <$> denominations spend view (sumZ (owner_amount <$> used)) = decomposeAmount (sumZ (owner_amount <$> used)) 0) as Ed.
  { rewrite <- split_is_decomposition by done. unfold denominations. rewrite <- list_fmap_compose. apply list_fmap_id. }
  destruct (decomposeAmount_spec (sumZ (owner_amount <$> used)) 0 Hfit ltac:(by split)) as (Hsum & Hsorted & _).
  assert (output_amounts (Types.outputs (prefix tx)) = decomposeAmount (sumZ (owner_amount <$> used)) 0) as Eo.
  { change (output_amounts (Types.outputs (prefix tx))) with (Types.amount <$> Types.outputs (prefix tx)). rewrite Hout, <- Ed.
    apply (StronglySorted_unique Z.le); [done|rewrite Ed; by apply Zlt_sorted_le|]. by apply fmap_Permutation. }
  assert (key_amounts (Types.inputs (prefix tx)) ≡ₚ owner_amount <$> used) as Ei.
  { rewrite (spent_key_amounts _ _ _ _ Hin). by apply fmap_Permutation. }
  split.
  - unfold get_tx_fee. rewrite Eo, !sum_u64_wrap, Hsum, (sumZ_Permutation _ _ Ei), Z.leb_refl, Z.sub_diag. done.
  - exists data. split; [done|]. unfold isFusionTransaction_tx, getInputsAmounts. rewrite Eo.
    apply isFusion_intro; [done|destruct Hpre as [rest ->]; by apply Forall_fmap, (Forall_app _ used rest)|done..|by rewrite length_fmap|].
    rewrite <- Ed, !length_fmap. etrans; [|apply (Z.mul_div_le _ (Z.of_nat (length (denominations spend view (sumZ (owner_amount <$> used)))))); lia].
    rewrite Z.mul_comm. apply Z.mul_le_mono_nonneg_l; [lia|exact Hratio].
Qed.

End Send.

(** ** Instances *)

(** The sort by amount. *)
Definition by_amount (a b : TransactionDestination) : Prop := td_amount a <= td_amount b.

#[local] Instance by_amount_dec a b : Decision (by_amount a b).
Proof. unfold by_amount. apply _. Defined.

Definition sample_sort : list TransactionDestination -> list TransactionDestination := merge_sort by_amount.

Lemma sample_sort_perm l : sample_sort l ≡ₚ l.
Proof. apply merge_sort_Permutation. Qed.

Lemma sample_sort_sorted l : StronglySorted Z.le (td_amount <$> sample_sort l).
Proof.
  apply (StronglySorted_fmap _ by_amount); [done|]. apply StronglySorted_merge_sort.
  - intros a b c. unfold by_amount. lia.
  - intros a b. unfold by_amount. lia.
Qed.

(** Keys of one output only, and signatures that are not looked at. *)
Definition toy_public (d : list Z) (n : Z) (k : PublicKey) : PublicKey := replicate 32 3.
Definition toy_secret (d : list Z) (n : Z) (k : SecretKey) : SecretKey := k.
Definition toy_image (k : PublicKey) (sk : SecretKey) : list Z := k.
Definition toy_derivation (k : PublicKey) (sk : SecretKey) : list Z := k.
Definition toy_sign (h : Hash) (ki : KeyImage) (keys : list PublicKey) (sk : SecretKey) (n : nat) : option (list Signature) :=
  Some ((fun _ => replicate 64 0) <$> keys).
Definition toy_verify (h : Hash) (ki : KeyImage) (keys : list PublicKey) (sigs : list Signature) : bool := true.

Definition toy_node : SendNode :=
  mkSendNode 1000000 (0, [])
    (fun amounts n => Some ((fun a => mkRandomOuts a ((fun j => mkGlobalIndexKey j (replicate 32 j)) <$> [11; 12; 13; 14])) <$> amounts))
    (fun _ => (true, false)).

Definition toy_send (s : SubWallets) : option (ErrorCode * Hash * SubWallets) :=
  sendTransactionAdvanced toy_hash (fun _ => true) (fun l => l) toy_derivation (fun _ _ k => k) toy_public toy_secret toy_image
    sample_sort toy_sign toy_verify (@reverse _) 0 toy_node [(sample_text, 30)] 3 10 [] [] sample_text 0
    (replicate 32 6, replicate 32 7) s.

Lemma toy_send_success : exists h s', toy_send sample_container = Some (SUCCESS, h, s').
Proof.
  assert ((r ← toy_send sample_container; Some (bool_decide (r.1.1 = SUCCESS))) = Some true) as H by (vm_compute; reflexivity).
  destruct (toy_send sample_container) as [[[e h] s']|]; [|done]. apply (inj Some), bool_decide_eq_true in H. cbn in H. subst e. eauto.
Qed.

Lemma denominations_correct_witness :
  sumZ (splitAmountIntoDenominations 18446744073709551615) = 18446744073709551615 /\
  verifyAmounts_list (splitAmountIntoDenominations 18446744073709551615) = true.
Proof. apply (denominations_correct 18446744073709551615). by split. Defined.

Lemma denominations_are_decomposition_witness :
  splitAmountIntoDenominations 1230 = decomposeAmount 1230 0 /\ StronglySorted Z.lt (splitAmountIntoDenominations 1230).
Proof. apply (denominations_are_decomposition 1230). by split. Defined.

Lemma sending_outcome_witness :
  exists h s' ourInputs tx, toy_send sample_container = Some (SUCCESS, h, s') /\
    was_sent (fun l => l) toy_derivation toy_public toy_secret toy_image (@reverse _) 0 toy_node 3 10 sample_container ourInputs tx.
Proof.
  destruct toy_send_success as (h & s' & E). exists h, s'.
  pose proof (sending_outcome toy_hash (fun _ => true) (fun l => l) (fun l => reflexivity l) toy_derivation (fun _ _ k => k)
    toy_public toy_secret toy_image sample_sort sample_sort_perm toy_sign toy_verify (@reverse _) (@reverse_Permutation _) 0
    toy_node [(sample_text, 30)] 3 10 [] [] sample_text 0 (replicate 32 6, replicate 32 7) sample_container SUCCESS h s'
    sample_container_ok) as H.
  destruct H as (ourInputs & tx & H & _); [lia|apply Forall_singleton; by split|by split|by split|exact E|].
  exists ourInputs, tx. split; [exact E|exact H].
Defined.

Definition sample_outputs : outputs := (fun i => (replicate 32 17, i)) <$> m_unspentInputs sample_sub_wallet.

Lemma sample_scanned : scanned sample_container sample_outputs ∅ [].
Proof.
  split; [apply sample_container_ok|done|..].
  - intros k w [-> ->]%sample_lookup. vm_compute. done.
  - intros k w [-> ->]%sample_lookup. vm_compute. done.
  - intros p (i & -> & _)%list_elem_of_fmap_1. cbn. left.
  - intros p (i & -> & Hi)%list_elem_of_fmap_1. cbn in *. rewrite !elem_of_cons in Hi.
    destruct Hi as [->|[->|[->|Hi]]]; [done..|]. by apply elem_of_nil in Hi.
  - apply (bool_decide_unpack _). vm_compute. exact I.
  - intros h Hh. by apply elem_of_nil in Hh.
Qed.

Lemma sent_inputs_locked_witness :
  let o := mkTxInputAndOwner (sample_input 3 100) (replicate 32 17) (replicate 32 4) in
  exists s', remember_sent toy_hash (fun _ => true) toy_derivation (fun _ _ k => k) sample_container (replicate 32 8) 10 [] [o]
      sample_text 60 [] (replicate 32 6, replicate 32 7) = Some s' /\
    getTxPrivateKey s' (replicate 32 8) = Some (replicate 32 7) /\ locked_in s' o /\
    getTransactionInputsForAmount (@reverse _) 0 s' 40 true [] 50 = None.
Proof.
  intros o. destruct (sent_inputs_locked toy_hash (fun _ => true) toy_derivation (fun _ _ k => k) (@reverse _)
    (@reverse_Permutation _) 0 sample_container sample_outputs ∅ [] 40 true [] 50 [o] 100 (replicate 32 17, replicate 32 29)
    (replicate 32 8) 10 [] sample_text 60 [] (replicate 32 6, replicate 32 7) sample_scanned) as (s' & E & _ & _ & Hk & Hl & _).
  - apply NoDup_singleton.
  - vm_compute. reflexivity.
  - vm_compute. reflexivity.
  - apply not_elem_of_nil.
  - exists s'. split; [exact E|]. split; [exact Hk|]. split; [exact (proj1 (Forall_singleton _ _) Hl)|].
    assert ((s' ← remember_sent toy_hash (fun _ => true) toy_derivation (fun _ _ k => k) sample_container (replicate 32 8) 10 [] [o]
      sample_text 60 [] (replicate 32 6, replicate 32 7); getTransactionInputsForAmount (@reverse _) 0 s' 40 true [] 50) = None) as H
      by (vm_compute; reflexivity).
    rewrite E in H. exact H.
Defined.

Lemma ring_not_sorted_witness :
  let o := mkTxInputAndOwner (sample_input 3 100) (replicate 32 17) (replicate 32 4) in
  let fake n := mkGlobalIndexKey n (replicate 32 n) in
  exists i, prepareRingParticipants (fun l => l)
      (mkSendNode 0 (0, []) (fun _ _ => Some [mkRandomOuts 100 [fake 9; fake 3; fake 11]]) (fun _ => (true, false))) 2 [o] =
      Some (inr [i]) /\
    gk_index <$> oi_outputs i = [7; 9; 3].
Proof.
  intros o fake. apply (ring_not_sorted (fun l => l) (fun l => reflexivity l)
    (mkSendNode 0 (0, []) (fun _ _ => Some [mkRandomOuts 100 [fake 9; fake 3; fake 11]]) (fun _ => (true, false))) o 7
    (fake 9) (fake 3) (fake 11)); reflexivity || discriminate.
Defined.

(** Sixteen inputs of 200. *)
Definition sample_fusion : list TxInputAndOwner :=
  replicate 16 (mkTxInputAndOwner (sample_input 3 200) (replicate 32 17) (replicate 32 4)).

Definition toy_fusion (fuel : nat) :=
  fusion_loop toy_hash (fun _ => true) (fun l => l) toy_derivation toy_public toy_secret toy_image sample_sort toy_sign toy_verify
    fuel toy_node 3 sample_text sample_container (fun _ => (replicate 32 6, replicate 32 7)) sample_fusion 3200.

Lemma fusion_loop_terminates_witness : toy_fusion 100 <> OutOfFuel /\ toy_fusion 100 = toy_fusion 17.
Proof.
  apply (fusion_loop_terminates toy_hash (fun _ => true) (fun l => l) toy_derivation toy_public toy_secret toy_image sample_sort
    toy_sign toy_verify toy_node 3 sample_text sample_container (fun _ => (replicate 32 6, replicate 32 7)) sample_fusion 100 3200).
  vm_compute. lia.
Defined.

Lemma toy_fusion_sent : exists tx outs used key, toy_fusion 17 = Returns (inr (tx, outs, used, key)).
Proof.
  assert ((r ← toy_fusion 17; Returns (match r with inl _ => false | inr _ => true end)) = Returns true) as H by (vm_compute; reflexivity).
  destruct (toy_fusion 17) as [[e|[[[tx outs] used] key]]| |]; [done| |done..]. by exists tx, outs, used, key.
Qed.

Lemma fusion_transaction_accepted_witness :
  exists tx outs used key, toy_fusion 17 = Returns (inr (tx, outs, used, key)) /\ get_tx_fee tx = Some 0.
Proof.
  destruct toy_fusion_sent as (tx & outs & used & key & E). exists tx, outs, used, key. split; [exact E|].
  destruct (fusion_transaction_accepted toy_hash (fun _ => true) (fun l => l) (fun l => reflexivity l) toy_derivation toy_public
    toy_secret toy_image sample_sort sample_sort_perm toy_sign toy_verify sample_sort_sorted toy_node 3 sample_text sample_container
    (fun _ => (replicate 32 6, replicate 32 7)) 17 sample_fusion tx outs used key 2000000) as (_ & H & _).
  - lia.
  - vm_compute. discriminate.
  - apply Forall_replicate. vm_compute. discriminate.
  - vm_compute. reflexivity.
  - exact E.
  - exact H.
Defined.
