(* ===== verification/KvBinary.v ===== *)
(** * The key-value format of messages

    src/src/serialization: the interface [ISerializer] with its two
    implementations for messages between nodes, KVBinaryOutputStreamSerializer and
    KVBinaryInputStreamSerializer, which reads the bytes into a [JsonValue] first and
    then is a JsonInputValueSerializer, and the templates of
    serialization_overloads.h.  An exception is [None]. *)

From S2P Require Import Prelude Bytes Parser.
#[local] Open Scope Z_scope.

(** ** kv_binary_common.h *)

Definition PORTABLE_STORAGE_SIGNATUREA : Z := 0x01011101.
Definition PORTABLE_STORAGE_SIGNATUREB : Z := 0x01020101.
Definition PORTABLE_STORAGE_FORMAT_VER : Z := 1.
Definition PORTABLE_RAW_SIZE_MARK_MASK : Z := 3.
Definition PORTABLE_RAW_SIZE_MARK_BYTE : Z := 0.
Definition PORTABLE_RAW_SIZE_MARK_WORD : Z := 1.
Definition PORTABLE_RAW_SIZE_MARK_DWORD : Z := 2.
Definition PORTABLE_RAW_SIZE_MARK_INT64 : Z := 3.
Definition BIN_KV_SERIALIZE_TYPE_INT64 : Z := 1.
Definition BIN_KV_SERIALIZE_TYPE_INT32 : Z := 2.
Definition BIN_KV_SERIALIZE_TYPE_INT16 : Z := 3.
Definition BIN_KV_SERIALIZE_TYPE_INT8 : Z := 4.
Definition BIN_KV_SERIALIZE_TYPE_UINT64 : Z := 5.
Definition BIN_KV_SERIALIZE_TYPE_UINT32 : Z := 6.
Definition BIN_KV_SERIALIZE_TYPE_UINT16 : Z := 7.
Definition BIN_KV_SERIALIZE_TYPE_UINT8 : Z := 8.
Definition BIN_KV_SERIALIZE_TYPE_DOUBLE : Z := 9.
Definition BIN_KV_SERIALIZE_TYPE_STRING : Z := 10.
Definition BIN_KV_SERIALIZE_TYPE_BOOL : Z := 11.
Definition BIN_KV_SERIALIZE_TYPE_OBJECT : Z := 12.
Definition BIN_KV_SERIALIZE_TYPE_ARRAY : Z := 13.
Definition BIN_KV_SERIALIZE_FLAG_ARRAY : Z := 0x80.

(** ** Values *)

(** An object is a [std::map]; the model keeps the members in the order in
    which they came, and a real number as its bytes. *)
Inductive JsonValue :=
  | ARRAY (l : list JsonValue)
  | BOOL (b : bool)
  | INTEGER (z : Z)
  | NIL
  | OBJECT (m : list (list Z * JsonValue))
  | REAL (bytes : list Z)
  | STRING (s : list Z).

(** [getObject().at(key)], and [contains] when there is one. *)
Fixpoint object_at (m : list (list Z * JsonValue)) (key : list Z) : option JsonValue :=
  match m with
  | [] => None
  | (k, v) :: m => if bool_decide (k = key) then Some v else object_at m key
  end.

(** [emplace] does nothing when the key is there. *)
Definition object_insert (m : list (list Z * JsonValue)) (key : list Z) (v : JsonValue) : list (list Z * JsonValue) :=
  match object_at m key with Some _ => m | None => m ++ [(key, v)] end.

(** ** Reading *)

(** The bytes of an integer type and whether it is signed. *)
Definition integer_type (type : Z) : option (Z * bool) :=
  if type =? BIN_KV_SERIALIZE_TYPE_INT64 then Some (8, true)
  else if type =? BIN_KV_SERIALIZE_TYPE_INT32 then Some (4, true)
  else if type =? BIN_KV_SERIALIZE_TYPE_INT16 then Some (2, true)
  else if type =? BIN_KV_SERIALIZE_TYPE_INT8 then Some (1, true)
  else if type =? BIN_KV_SERIALIZE_TYPE_UINT64 then Some (8, false)
  else if type =? BIN_KV_SERIALIZE_TYPE_UINT32 then Some (4, false)
  else if type =? BIN_KV_SERIALIZE_TYPE_UINT16 then Some (2, false)
  else if type =? BIN_KV_SERIALIZE_TYPE_UINT8 then Some (1, false)
  else None.

(** [readPod<T>] and the cast to [int64_t]. *)
Definition readIntegerJson (n : Z) (signed : bool) : parser JsonValue :=
  bytes ← read_bytes n;
  let v := le_combine bytes in
  mret (INTEGER (if signed then swrap (8 * n) v else s64 v)).

(** [value |= n << (i * 8)] for the bytes that follow. *)
Fixpoint or_bytes (value i : Z) (rest : list Z) : Z :=
  match rest with
  | [] => value
  | n :: rest => or_bytes (Z.lor value (Z.shiftl n (i * 8))) (i + 1) rest
  end.

Definition readVarint : parser Z :=
  b ← read_byte;
  let size_mask := Z.land b PORTABLE_RAW_SIZE_MARK_MASK in
  let bytesLeft :=
    if size_mask =? PORTABLE_RAW_SIZE_MARK_BYTE then 0
    else if size_mask =? PORTABLE_RAW_SIZE_MARK_WORD then 1
    else if size_mask =? PORTABLE_RAW_SIZE_MARK_DWORD then 3
    else 7 in
  rest ← read_bytes bytesLeft;
  mret (Z.shiftr (or_bytes b 1 rest) 2).

Definition readString : parser (list Z) :=
  size ← readVarint;
  read_bytes size.

(** A name without bytes leaves the last one. *)
Definition readName (name : list Z) : parser (list Z) :=
  len ← read_byte;
  if negb (len =? 0) then read_bytes len else mret name.

(** The loops read at least a byte in each round, so the length of the input is
    enough for them.  A loop or a depth that is cut off is told apart from an exception. *)
Fixpoint section_loop (loadEntry : runner JsonValue) (fuel : nat) (count : Z) (name : list Z)
    (sec : list (list Z * JsonValue)) : runner JsonValue :=
  if count =? 0 then mret (OBJECT sec)
  else
    match fuel with
    | O => fun _ => OutOfFuel
    | S fuel =>
        name ← throwing (readName name);
        v ← loadEntry;
        section_loop loadEntry fuel (count - 1) name (object_insert sec name v)
    end.

Definition loadSection (loadEntry : runner JsonValue) : runner JsonValue :=
  count ← throwing readVarint;
  ((fun s => section_loop loadEntry (S (length s)) count [] [] s) : runner JsonValue).

Fixpoint array_loop (loadItem : runner JsonValue) (fuel : nat) (count : Z) (arr : list JsonValue) : runner JsonValue :=
  if count =? 0 then mret (ARRAY arr)
  else
    match fuel with
    | O => fun _ => OutOfFuel
    | S fuel => v ← loadItem; array_loop loadItem fuel (count - 1) (arr ++ [v])
    end.

Definition loadArray (loadItem : runner JsonValue) : runner JsonValue :=
  count ← throwing readVarint;
  ((fun s => array_loop loadItem (S (length s)) count [] s) : runner JsonValue).

Definition loadEntry (loadValue : Z -> runner JsonValue) : runner JsonValue :=
  type ← throwing read_byte;
  if negb (Z.land type BIN_KV_SERIALIZE_FLAG_ARRAY =? 0) then loadArray (loadValue (Z.land type 127)) else loadValue type.

(** The fuel is the depth of the nesting. *)
Fixpoint load_value (fuel : nat) (type : Z) : runner JsonValue :=
  match fuel with
  | O => fun _ => OutOfFuel
  | S fuel =>
      match integer_type type with
      | Some (n, signed) => throwing (readIntegerJson n signed)
      | None =>
          if type =? BIN_KV_SERIALIZE_TYPE_DOUBLE then throwing (bytes ← read_bytes 8; mret (REAL bytes))
          else if type =? BIN_KV_SERIALIZE_TYPE_BOOL then throwing (b ← read_byte; mret (BOOL (negb (b =? 0))))
          else if type =? BIN_KV_SERIALIZE_TYPE_STRING then throwing (s ← readString; mret (STRING s))
          else if type =? BIN_KV_SERIALIZE_TYPE_OBJECT then loadSection (loadEntry (load_value fuel))
          else if type =? BIN_KV_SERIALIZE_TYPE_ARRAY then loadArray (load_value fuel type)
          else throwing pfail
      end
  end.

(** Every level takes a byte. *)
Definition loadValue (type : Z) : runner JsonValue := fun s => load_value (S (length s)) type s.

Definition parseBinary : parser JsonValue :=
  signature_a ← read_bytes 4;
  signature_b ← read_bytes 4;
  ver ← read_byte;
  if negb (le_combine signature_a =? PORTABLE_STORAGE_SIGNATUREA) || negb (le_combine signature_b =? PORTABLE_STORAGE_SIGNATUREB)
  then pfail
  else if negb (ver =? PORTABLE_STORAGE_FORMAT_VER) then pfail
  else running (loadSection (loadEntry loadValue)).

(** ** ISerializer *)

(** A serializer is an object with state; what it does to a value is what a call
    with the value by reference leaves in it. *)
Definition ser (S A : Type) : Type := S -> option (A * S).

#[global] Instance ser_ret S : MRet (ser S) := fun A x s => Some (x, s).
#[global] Instance ser_bind S : MBind (ser S) := fun A B f p s =>
  match p s with
  | Some (x, s') => f x s'
  | None => None
  end.

Inductive SerializerType := INPUT | OUTPUT.

(** The integer types that have an overload. *)
Inductive Number := Uint8 | Int16 | Uint16 | Int32 | Uint32 | Int64 | Uint64.

Definition number_bytes (k : Number) : nat :=
  match k with Uint8 => 1 | Int16 | Uint16 => 2 | Int32 | Uint32 => 4 | Int64 | Uint64 => 8 end.

Definition number_signed (k : Number) : bool :=
  match k with Int16 | Int32 | Int64 => true | Uint8 | Uint16 | Uint32 | Uint64 => false end.

(** [static_cast<T>] *)
Definition number_cast (k : Number) (z : Z) : Z :=
  let w := 8 * Z.of_nat (number_bytes k) in
  if number_signed k then swrap w z else wrap w z.

Class ISerializer (S : Type) := {
  type : SerializerType;
  beginObject : list Z -> ser S bool;
  endObject : ser S unit;
  beginArray : Z -> list Z -> ser S (bool * Z);
  endArray : ser S unit;
  serialize_number : Number -> Z -> list Z -> ser S (bool * Z);
  serialize_bool : bool -> list Z -> ser S (bool * bool);
  serialize_string : list Z -> list Z -> ser S (bool * list Z);
  binary : list Z -> list Z -> ser S (bool * list Z);
  binary_string : list Z -> list Z -> ser S (bool * list Z) }.

(** ** KVBinaryOutputStreamSerializer *)

Inductive State := Root | Object | ArrayPrefix | Array.

Record Level := mkLevel {
  state : State;
  level_name : list Z;
  count : Z }.

(** The vectors with their last element first. *)
Record KVOutput := mkKVOutput {
  m_stack : list Level;
  m_objectsStack : list (list Z) }.

(** [write(stream(), data)] *)
Definition write (data : list Z) : ser KVOutput unit := fun o =>
  match m_objectsStack o with
  | stream :: rest => Some (tt, mkKVOutput (m_stack o) ((stream ++ data) :: rest))
  | [] => None
  end.

(** [packVarint<T>] for a type of [bytes] bytes. *)
Definition packVarint (bytes : nat) (type_or pv : Z) : list Z :=
  let v := wrap (8 * Z.of_nat bytes) (u64 (Z.shiftl pv 2)) in
  le_split bytes (Z.lor v type_or).

Definition writeArraySize (val : Z) : option (list Z) :=
  if val <=? 63 then Some (packVarint 1 PORTABLE_RAW_SIZE_MARK_BYTE val)
  else if val <=? 16383 then Some (packVarint 2 PORTABLE_RAW_SIZE_MARK_WORD val)
  else if val <=? 1073741823 then Some (packVarint 4 PORTABLE_RAW_SIZE_MARK_DWORD val)
  else if 4611686018427387903 <? val then None
  else Some (packVarint 8 PORTABLE_RAW_SIZE_MARK_INT64 val).

Definition element_name (name : list Z) : option (list Z) :=
  if 255 <? Z.of_nat (length name) then None else Some (Z.of_nat (length name) :: name).

(** An answer of a function without state. *)
Definition lift {S A} (x : option A) : ser S A := fun s => x ← x; Some (x, s).

Definition writeElementName (name : list Z) : ser KVOutput unit := data ← lift (element_name name); write data.

Definition write_size (val : Z) : ser KVOutput unit := data ← lift (writeArraySize val); write data.

(** A change of [m_stack.back()]. *)
Definition set_level (level : Level) : ser KVOutput unit := fun o =>
  Some (tt, mkKVOutput (level :: tail (m_stack o)) (m_objectsStack o)).

Definition checkArrayPreamble (type : Z) : ser KVOutput unit := fun o =>
  match m_stack o with
  | [] => Some (tt, o)
  | level :: rest =>
      match state level with
      | ArrayPrefix =>
          (_ ← writeElementName (level_name level);
           _ ← write [Z.lor BIN_KV_SERIALIZE_FLAG_ARRAY type];
           _ ← write_size (count level);
           set_level (mkLevel Array (level_name level) (count level))) o
      | _ => Some (tt, o)
      end
  end.

(** [m_stack.back()] *)
Definition back : ser KVOutput Level := fun o => level ← head (m_stack o); Some (level, o).

Definition writeElementPrefix (type : Z) (name : list Z) : ser KVOutput unit :=
  _ ← checkArrayPreamble type;
  level ← back;
  match state level with
  | Array => mret tt
  | _ =>
      _ ← (if bool_decide (name <> []) then _ ← writeElementName name; write [type] else mret tt);
      set_level (mkLevel (state level) (level_name level) (u64 (count level + 1)))
  end.

Definition push_object (name : list Z) : ser KVOutput unit := fun o =>
  Some (tt, mkKVOutput (mkLevel Object name 0 :: m_stack o) ([] :: m_objectsStack o)).

Definition out_beginObject (name : list Z) : ser KVOutput bool :=
  _ ← checkArrayPreamble BIN_KV_SERIALIZE_TYPE_OBJECT;
  _ ← push_object name;
  mret true.

Definition out_endObject : ser KVOutput unit := fun o =>
  match m_stack o, m_objectsStack o with
  | level :: stack, objStream :: objects =>
      (_ ← writeElementPrefix BIN_KV_SERIALIZE_TYPE_OBJECT (level_name level);
       _ ← write_size (count level);
       write objStream) (mkKVOutput stack objects)
  | _, _ => None
  end.

Definition out_beginArray (size : Z) (name : list Z) : ser KVOutput (bool * Z) := fun o =>
  Some ((true, size), mkKVOutput (mkLevel ArrayPrefix name size :: m_stack o) (m_objectsStack o)).

Definition out_endArray : ser KVOutput unit := fun o =>
  match m_stack o with
  | inner :: outer :: rest =>
      let validArray := match state inner with Array => true | _ => false end in
      let isObject := match state outer with Object => true | _ => false end in
      let outer := if isObject && validArray then mkLevel (state outer) (level_name outer) (u64 (count outer + 1)) else outer in
      Some (tt, mkKVOutput (outer :: rest) (m_objectsStack o))
  | _ => None
  end.

Definition number_type (k : Number) : Z :=
  match k with
  | Uint8 => BIN_KV_SERIALIZE_TYPE_UINT8 | Int16 => BIN_KV_SERIALIZE_TYPE_INT16 | Uint16 => BIN_KV_SERIALIZE_TYPE_UINT16
  | Int32 => BIN_KV_SERIALIZE_TYPE_INT32 | Uint32 => BIN_KV_SERIALIZE_TYPE_UINT32 | Int64 => BIN_KV_SERIALIZE_TYPE_INT64
  | Uint64 => BIN_KV_SERIALIZE_TYPE_UINT64
  end.

Definition out_number (k : Number) (value : Z) (name : list Z) : ser KVOutput (bool * Z) :=
  _ ← writeElementPrefix (number_type k) name;
  _ ← write (le_split (number_bytes k) value);
  mret (true, value).

Definition out_bool (value : bool) (name : list Z) : ser KVOutput (bool * bool) :=
  _ ← writeElementPrefix BIN_KV_SERIALIZE_TYPE_BOOL name;
  _ ← write [if value then 1 else 0];
  mret (true, value).

Definition out_string (value name : list Z) : ser KVOutput (bool * list Z) :=
  _ ← writeElementPrefix BIN_KV_SERIALIZE_TYPE_STRING name;
  _ ← write_size (Z.of_nat (length value));
  _ ← write value;
  mret (true, value).

Definition out_binary (value name : list Z) : ser KVOutput (bool * list Z) :=
  if 0 <? Z.of_nat (length value)
  then
    _ ← writeElementPrefix BIN_KV_SERIALIZE_TYPE_STRING name;
    _ ← write_size (Z.of_nat (length value));
    _ ← write value;
    mret (true, value)
  else mret (true, value).

#[global] Instance KVBinaryOutputStreamSerializer : ISerializer KVOutput := {
  type := OUTPUT;
  beginObject := out_beginObject;
  endObject := out_endObject;
  beginArray := out_beginArray;
  endArray := out_endArray;
  serialize_number := out_number;
  serialize_bool := out_bool;
  serialize_string := out_string;
  binary := out_binary;
  binary_string := out_binary }.

(** The constructor begins an object without a name. *)
Definition KVOutput_new : option KVOutput := '(_, o) ← out_beginObject [] (mkKVOutput [] []); Some o.

Definition dump (o : KVOutput) : option (list Z) :=
  front ← last (m_stack o);
  size ← writeArraySize (count front);
  stream ← head (m_objectsStack o);
  Some (le_split 4 PORTABLE_STORAGE_SIGNATUREA ++ le_split 4 PORTABLE_STORAGE_SIGNATUREB ++ [PORTABLE_STORAGE_FORMAT_VER] ++
        size ++ stream).

(** ** KVBinaryInputStreamSerializer *)

(** The vectors with their last element first. *)
Record KVInput := mkKVInput {
  chain : list JsonValue;
  idxs : list Z }.

(** The item [idxs.back()++] of an array; [at] throws. *)
Definition next_item (l : list JsonValue) : ser KVInput JsonValue := fun i =>
  match idxs i with
  | idx :: rest => v ← l !! Z.to_nat idx; Some (v, mkKVInput (chain i) (u64 (idx + 1) :: rest))
  | [] => None
  end.

Definition push (v : JsonValue) : ser KVInput unit := fun i => Some (tt, mkKVInput (v :: chain i) (idxs i)).

(** [None] inside is the null pointer. *)
Definition getValue (name : list Z) : ser KVInput (option JsonValue) := fun i =>
  match chain i with
  | ARRAY l :: _ => (v ← next_item l; mret (Some v)) i
  | OBJECT m :: _ => Some (object_at m name, i)
  | _ => None
  end.

Definition in_beginObject (name : list Z) : ser KVInput bool := fun i =>
  match chain i with
  | ARRAY l :: _ => (v ← next_item l; _ ← push v; mret true) i
  | OBJECT m :: _ =>
      match object_at m name with
      | Some v => (_ ← push v; mret true) i
      | None => Some (false, i)
      end
  | _ => None
  end.

Definition in_endObject : ser KVInput unit := fun i =>
  match chain i with
  | _ :: rest => Some (tt, mkKVInput rest (idxs i))
  | [] => None
  end.

Definition in_beginArray (size : Z) (name : list Z) : ser KVInput (bool * Z) := fun i =>
  match chain i with
  | OBJECT m :: _ =>
      match object_at m name with
      | Some arr =>
          size ← match arr with
                 | ARRAY l => Some (Z.of_nat (length l))
                 | OBJECT m => Some (Z.of_nat (length m))
                 | _ => None
                 end;
          Some ((true, size), mkKVInput (arr :: chain i) (0 :: idxs i))
      | None => Some ((false, 0), i)
      end
  | _ => None
  end.

Definition in_endArray : ser KVInput unit := fun i =>
  match chain i, idxs i with
  | _ :: chain, _ :: idxs => Some (tt, mkKVInput chain idxs)
  | _, _ => None
  end.

(** [getNumber]; [getInteger] throws on another type. *)
Definition in_number (k : Number) (value : Z) (name : list Z) : ser KVInput (bool * Z) :=
  ptr ← getValue name;
  match ptr with
  | None => mret (false, value)
  | Some (INTEGER z) => mret (true, number_cast k z)
  | Some _ => lift None
  end.

Definition in_bool (value : bool) (name : list Z) : ser KVInput (bool * bool) :=
  ptr ← getValue name;
  match ptr with
  | None => mret (false, value)
  | Some (BOOL b) => mret (true, b)
  | Some _ => lift None
  end.

Definition in_string (value name : list Z) : ser KVInput (bool * list Z) :=
  ptr ← getValue name;
  match ptr with
  | None => mret (false, value)
  | Some (STRING s) => mret (true, s)
  | Some _ => lift None
  end.

(** The block has the size of the value. *)
Definition in_binary (value name : list Z) : ser KVInput (bool * list Z) :=
  '(found, str) ← in_string [] name;
  if negb found then mret (false, value)
  else if negb (length str =? length value)%nat then lift None
  else mret (true, str).

#[global] Instance KVBinaryInputStreamSerializer : ISerializer KVInput := {
  type := INPUT;
  beginObject := in_beginObject;
  endObject := in_endObject;
  beginArray := in_beginArray;
  endArray := in_endArray;
  serialize_number := in_number;
  serialize_bool := in_bool;
  serialize_string := in_string;
  binary := in_binary;
  binary_string := in_string }.

(** The constructor; the value is an object. *)
Definition KVInput_new (buf : list Z) : option KVInput :=
  '(value, _) ← parseBinary buf;
  match value with OBJECT _ => Some (mkKVInput [value] []) | _ => None end.

(** ** serialization_overloads.h and iserializer.h *)

Section Templates.
Context {S : Type} `{ISerializer S}.

(** [KV_MEMBER] and the like do not look at the answer. *)
Definition member {A} (m : ser S (bool * A)) : ser S A := '(_, v) ← m; mret v.

(** [serialize(T &, name, serializer)] for a structure *)
Definition serialize_object {A} (serialize : A -> ser S A) (value : A) (name : list Z) : ser S (bool * A) :=
  begun ← beginObject name;
  if negb begun then mret (false, value)
  else
    value ← serialize value;
    _ ← endObject;
    mret (true, value).

Fixpoint serialize_items {A} (item : A -> ser S A) (l : list A) : ser S (list A) :=
  match l with
  | [] => mret []
  | x :: l => x ← item x; l ← serialize_items item l; mret (x :: l)
  end.

(** [std::vector::resize] *)
Definition resize {A} (new : A) (n : nat) (l : list A) : list A := take n l ++ replicate (n - length l) new.

Definition serializeContainer {A} (new : A) (item : A -> ser S A) (value : list A) (name : list Z) : ser S (bool * list A) :=
  '(begun, size) ← beginArray (Z.of_nat (length value)) name;
  if negb begun then mret (false, match type with INPUT => [] | OUTPUT => value end)
  else
    value ← serialize_items item (resize new (Z.to_nat size) value);
    _ ← endArray;
    mret (true, value).

(** Elements of [sizeof] bytes one after the other. *)
Fixpoint chunks (sizeof : nat) (fuel : nat) (blob : list Z) : list (list Z) :=
  match fuel, blob with
  | O, _ | _, [] => []
  | Datatypes.S fuel, _ => take sizeof blob :: chunks sizeof fuel (drop sizeof blob)
  end.

(** For [std::vector]: the value is replaced. *)
Definition serializeAsBinary (sizeof : nat) (value : list (list Z)) (name : list Z) : ser S (list (list Z)) :=
  match type with
  | INPUT =>
      '(_, blob) ← binary_string [] name;
      if negb (length blob mod sizeof =? 0)%nat then lift None
      else mret (chunks sizeof (length blob) blob)
  | OUTPUT => _ ← binary_string (concat value) name; mret value
  end.

(** For [std::list]: the elements are added to the value. *)
Definition serializeAsBinary_list (sizeof : nat) (value : list (list Z)) (name : list Z) : ser S (list (list Z)) :=
  match type with
  | INPUT =>
      '(_, blob) ← binary_string [] name;
      if negb (length blob mod sizeof =? 0)%nat then lift None
      else mret (value ++ chunks sizeof (length blob) blob)
  | OUTPUT => _ ← binary_string (concat value) name; mret value
  end.

End Templates.
