(* ===== verification/KvFacts.v ===== *)
(** * What the key-value format keeps

    Lemmas about KvBinary.v: sizes, the depth that reading needs, and entries that are
    read back as they were written. *)

From S2P Require Import Prelude Bytes IntUtil Parser KvBinary.
#[local] Open Scope Z_scope.

(** ** Sizes *)

Lemma or_bytes_combine rest : forall value i, 1 <= i -> bytes_ok rest -> 0 <= value < 256 ^ i ->
  or_bytes value i rest = value + 256 ^ i * le_combine rest.
Proof.
  induction rest as [|n rest IH]; intros value i Hi Hr Hv; cbn [or_bytes le_combine]; [lia|].
  apply Forall_cons in Hr as [Hn Hr]. destruct Hn as [Hn0 Hn1]. change (2 ^ 8) with 256 in Hn1.
  assert (2 ^ (i * 8) = 256 ^ i) as Ep by (rewrite Z.mul_comm, Z.pow_mul_r by lia; done).
  assert (256 ^ (i + 1) = 256 * 256 ^ i) as Es by (rewrite Z.pow_add_r by lia; lia).
  rewrite lor_shiftl_add by (rewrite ?Ep; lia). rewrite Ep, IH by (done || nia). rewrite Es. ring.
Qed.

#[local] Ltac marks H :=
  rewrite !elem_of_cons, elem_of_nil in H; destruct H as [H|[H|[H|[H|[]]]]]; injection H as -> ->.

Lemma varint_back n mark v tl :
  (n, mark) ∈ [(1, 0); (2, 1); (4, 2); (8, 3)] -> 0 <= v < 2 ^ (8 * n - 2) ->
  readVarint (packVarint (Z.to_nat n) mark v ++ tl) = Some (v, tl).
Proof.
  intros Hn Hv. assert (1 <= n <= 8 /\ 0 <= mark < 4) as [Hn' Hm] by (marks Hn; lia).
  unfold packVarint. rewrite Z2Nat.id by lia.
  assert (2 ^ (8 * n) = 4 * 2 ^ (8 * n - 2)) as Ep by (replace (8 * n) with (8 * n - 2 + 2) at 1 by lia; rewrite Z.pow_add_r by lia; lia).
  assert (2 ^ (8 * n) <= 2 ^ 64) as Hle by (apply Z.pow_le_mono_r; lia).
  rewrite Z.shiftl_mul_pow2 by lia. change (2 ^ 2) with 4.
  rewrite (wrap_small 64), wrap_small by (words; lia).
  assert (Z.lor (v * 4) mark = 4 * v + mark) as El.
  { pose proof (lor_shiftl_add 2 mark v) as H. rewrite Z.shiftl_mul_pow2 in H by lia. change (2 ^ 2) with 4 in H. rewrite Z.lor_comm, H; lia. }
  rewrite El. destruct (Z.to_nat n) as [|k] eqn:Ek; [lia|]. cbn [le_split app]. unfold readVarint.
  erewrite pbind_run by done. set (b := (4 * v + mark) mod 256).
  assert (Z.land b PORTABLE_RAW_SIZE_MARK_MASK = mark) as Eb.
  { change PORTABLE_RAW_SIZE_MARK_MASK with (Z.ones 2). rewrite Z.land_ones by lia. unfold b. change (2 ^ 2) with 4. zlia. }
  rewrite Eb. set (left_ := if mark =? PORTABLE_RAW_SIZE_MARK_BYTE then 0 else _).
  assert (left_ = n - 1) as -> by (unfold left_; marks Hn; done).
  erewrite pbind_run; [|apply (codec_roundtrip _ _ _ (read_bytes_codec (n - 1) ltac:(lia)))].
  2: { split; [rewrite length_le_split; lia|apply le_split_ok]. }
  unfold mret, parser_ret. do 2 f_equal. rewrite Z.shiftr_div_pow2 by lia.
  rewrite or_bytes_combine by (lia || apply le_split_ok || (unfold b; zlia)).
  change (b + 256 ^ 1 * le_combine (le_split k ((4 * v + mark) / 256))) with (le_combine (le_split (S k) (4 * v + mark))).
  rewrite le_combine_split by lia. rewrite Z.mod_small; [change (2 ^ 2) with 4; zlia|]. rewrite <- Ek, Z2Nat.id by lia.
  replace (256 ^ n) with (2 ^ (8 * n)) by (rewrite Z.pow_mul_r by lia; done). lia.
Qed.

Lemma size_back v size tl : 0 <= v -> writeArraySize v = Some size -> readVarint (size ++ tl) = Some (v, tl).
Proof.
  intros Hv. unfold writeArraySize.
  destruct (Z.leb_spec v 63); [intros [= <-]; apply (varint_back 1 0); [set_solver|cbn; lia]|].
  destruct (Z.leb_spec v 16383); [intros [= <-]; apply (varint_back 2 1); [set_solver|cbn; lia]|].
  destruct (Z.leb_spec v 1073741823); [intros [= <-]; apply (varint_back 4 2); [set_solver|cbn; lia]|].
  destruct (Z.ltb_spec 4611686018427387903 v); [done|].
  intros [= <-]. apply (varint_back 8 3); [set_solver|cbn; lia].
Qed.

Lemma size_written v : v < 2 ^ 62 -> is_Some (writeArraySize v).
Proof. intros H. unfold writeArraySize. split_ifs; try by eexists. lia. Qed.

(** ** Depth *)

(** A reader that takes a byte at least, and one that gives nothing back. *)
Definition shrinks {A} (p : parser A) : Prop := forall s x s', p s = Some (x, s') -> (length s' < length s)%nat.
Definition keeps {A} (p : parser A) : Prop := forall s x s', p s = Some (x, s') -> (length s' <= length s)%nat.

Lemma read_byte_shrinks : shrinks read_byte.
Proof. intros [|b s] x s'; cbn; [done|]. intros [= _ <-]. lia. Qed.

Lemma read_bytes_keeps n : keeps (read_bytes n).
Proof. intros s x s'. unfold read_bytes. destruct (_ <=? _); [|done]. intros [= _ <-]. rewrite length_drop. lia. Qed.

Lemma read_bytes_shrinks n : 0 < n -> shrinks (read_bytes n).
Proof.
  intros Hn s x s'. unfold read_bytes. destruct (Z.leb_spec n (Z.of_nat (length s))); [|done]. intros [= _ <-].
  rewrite length_drop. lia.
Qed.

Lemma bind_shrinks {A B} (p : parser A) (f : A -> parser B) : shrinks p -> (forall x, keeps (f x)) -> shrinks (p ≫= f).
Proof.
  intros Hp Hf s x s' (y & s1 & E1 & E2)%pbind_Some. specialize (Hp _ _ _ E1). specialize (Hf _ _ _ _ E2). lia.
Qed.

Lemma bind_keeps {A B} (p : parser A) (f : A -> parser B) : keeps p -> (forall x, keeps (f x)) -> keeps (p ≫= f).
Proof.
  intros Hp Hf s x s' (y & s1 & E1 & E2)%pbind_Some. specialize (Hp _ _ _ E1). specialize (Hf _ _ _ _ E2). lia.
Qed.

Lemma ret_keeps {A} (x : A) : keeps (mret x).
Proof. intros s y s' [= _ <-]%pret_Some. lia. Qed.

Lemma shrinks_keeps {A} (p : parser A) : shrinks p -> keeps p.
Proof. intros Hp s x s' E. specialize (Hp _ _ _ E). lia. Qed.

(** The same of a reader with fuel. *)
Definition run_shrinks {A} (p : runner A) : Prop := forall s x s', p s = Returns (x, s') -> (length s' < length s)%nat.
Definition run_keeps {A} (p : runner A) : Prop := forall s x s', p s = Returns (x, s') -> (length s' <= length s)%nat.

Lemma throwing_shrinks {A} (p : parser A) : shrinks p -> run_shrinks (throwing p).
Proof. intros Hp s x s' E%throwing_Returns. by eapply Hp. Qed.

Lemma run_bind_shrinks {A B} (p : runner A) (f : A -> runner B) :
  run_shrinks p -> (forall x, run_keeps (f x)) -> run_shrinks (p ≫= f).
Proof.
  intros Hp Hf s x s' (y & s1 & E1 & E2)%rbind_Returns. specialize (Hp _ _ _ E1). specialize (Hf _ _ _ _ E2). lia.
Qed.

Lemma run_ret_keeps {A} (x : A) : run_keeps (mret x).
Proof. intros s y s' [= _ <-]. lia. Qed.

Lemma run_shrinks_keeps {A} (p : runner A) : run_shrinks p -> run_keeps p.
Proof. intros Hp s x s' E. specialize (Hp _ _ _ E). lia. Qed.

Create HintDb kv.
#[local] Hint Resolve read_byte_shrinks read_bytes_keeps bind_shrinks bind_keeps ret_keeps shrinks_keeps
  throwing_shrinks run_bind_shrinks run_ret_keeps run_shrinks_keeps : kv.

Lemma readVarint_shrinks : shrinks readVarint.
Proof. unfold readVarint. eauto with kv. Qed.

Lemma readName_shrinks name : shrinks (readName name).
Proof. unfold readName. apply bind_shrinks; [eauto with kv|]. intros len. destruct (negb _); eauto with kv. Qed.

#[local] Hint Resolve readVarint_shrinks readName_shrinks : kv.

Lemma section_loop_keeps p fuel : run_shrinks p -> forall count name sec, run_keeps (section_loop p fuel count name sec).
Proof.
  intros Hp. induction fuel as [|fuel IH]; intros count name sec; cbn [section_loop]; (destruct (_ =? _); [eauto with kv|]); [done|].
  eauto 7 with kv.
Qed.

Lemma array_loop_keeps p fuel : run_shrinks p -> forall count arr, run_keeps (array_loop p fuel count arr).
Proof.
  intros Hp. induction fuel as [|fuel IH]; intros count arr; cbn [array_loop]; (destruct (_ =? _); [eauto with kv|]); [done|].
  eauto 7 with kv.
Qed.

Lemma loadSection_shrinks p : run_shrinks p -> run_shrinks (loadSection p).
Proof.
  intros Hp. unfold loadSection. apply run_bind_shrinks; [eauto with kv|]. intros count s x s' E. by eapply section_loop_keeps in E.
Qed.

Lemma loadArray_shrinks p : run_shrinks p -> run_shrinks (loadArray p).
Proof.
  intros Hp. unfold loadArray. apply run_bind_shrinks; [eauto with kv|]. intros count s x s' E. by eapply array_loop_keeps in E.
Qed.

Lemma loadEntry_shrinks lv : (forall t, run_shrinks (lv t)) -> run_shrinks (loadEntry lv).
Proof.
  intros Hl. unfold loadEntry. apply run_bind_shrinks; [eauto with kv|]. intros t. apply run_shrinks_keeps.
  destruct (negb _); [by apply loadArray_shrinks|done].
Qed.

Lemma load_value_shrinks fuel : forall t, run_shrinks (load_value fuel t).
Proof.
  induction fuel as [|fuel IH]; intros t; cbn [load_value]; [done|].
  destruct (integer_type t) as [[n signed]|] eqn:E.
  { apply throwing_shrinks. unfold readIntegerJson. apply bind_shrinks; [|eauto with kv]. apply read_bytes_shrinks.
    unfold integer_type in E. repeat (case_match; simplify_eq; try lia). }
  repeat case_match; eauto using loadSection_shrinks, loadArray_shrinks, loadEntry_shrinks; apply throwing_shrinks; try done.
  all: unfold readString; apply bind_shrinks; [try by apply read_bytes_shrinks|eauto with kv]; eauto with kv.
Qed.

(** Readers that agree on what is shorter. *)
Lemma section_loop_agree p q fuel : forall count name sec s,
  run_shrinks p -> (forall s', (length s' < length s)%nat -> p s' = q s') ->
  section_loop p fuel count name sec s = section_loop q fuel count name sec s.
Proof.
  induction fuel as [|fuel IH]; intros count name sec s Hp Hq; cbn [section_loop]; (destruct (_ =? _); [done|]); [done|].
  unfold mbind, runner_bind, throwing. destruct (readName name s) as [[name' s1]|] eqn:E1; [|done]. cbn [of_option].
  apply readName_shrinks in E1. rewrite <- Hq by done. destruct (p s1) as [[v s2]| |] eqn:E2; [|done..]. apply Hp in E2.
  apply IH; [done|]. intros s' Hs'. apply Hq. lia.
Qed.

Lemma array_loop_agree p q fuel : forall count arr s,
  run_shrinks p -> (forall s', (length s' <= length s)%nat -> p s' = q s') ->
  array_loop p fuel count arr s = array_loop q fuel count arr s.
Proof.
  induction fuel as [|fuel IH]; intros count arr s Hp Hq; cbn [array_loop]; (destruct (_ =? _); [done|]); [done|].
  unfold mbind, runner_bind. rewrite <- Hq by done. destruct (p s) as [[v s1]| |] eqn:E; [|done..]. apply Hp in E.
  apply IH; [done|]. intros s' Hs'. apply Hq. lia.
Qed.

Lemma loadArray_agree p q s :
  run_shrinks p -> (forall s', (length s' < length s)%nat -> p s' = q s') -> loadArray p s = loadArray q s.
Proof.
  intros Hp Hq. unfold loadArray, mbind, runner_bind, throwing. destruct (readVarint s) as [[count s1]|] eqn:E; [|done].
  apply readVarint_shrinks in E. apply array_loop_agree; [done|]. intros s' Hs'. apply Hq. lia.
Qed.

Lemma loadEntry_agree p q s :
  (forall t, run_shrinks (p t)) -> (forall t s', (length s' < length s)%nat -> p t s' = q t s') -> loadEntry p s = loadEntry q s.
Proof.
  intros Hp Hq. unfold loadEntry, mbind, runner_bind, throwing. destruct (read_byte s) as [[t s1]|] eqn:E; [|done]. cbn [of_option].
  apply read_byte_shrinks in E. destruct (negb _); [|by apply Hq]. apply loadArray_agree; [done|]. intros s' Hs'. apply Hq. lia.
Qed.

Lemma loadSection_agree p q s :
  run_shrinks p -> (forall s', (length s' < length s)%nat -> p s' = q s') -> loadSection p s = loadSection q s.
Proof.
  intros Hp Hq. unfold loadSection, mbind, runner_bind, throwing. destruct (readVarint s) as [[count s1]|] eqn:E; [|done].
  apply readVarint_shrinks in E. apply section_loop_agree; [done|]. intros s' Hs'. apply Hq. lia.
Qed.

(** More depth than bytes makes no difference. *)
Lemma load_value_fuel f : forall f' t s, (length s < f)%nat -> (length s < f')%nat -> load_value f t s = load_value f' t s.
Proof.
  induction f as [|f IH]; intros [|f'] t s Hf Hf'; [lia..|]. cbn [load_value].
  assert (forall t' s', (length s' < length s)%nat -> load_value f t' s' = load_value f' t' s') as H
    by (intros t' s' Hs'; apply IH; lia).
  repeat case_match; try done.
  - apply loadSection_agree; [apply loadEntry_shrinks, load_value_shrinks|]. intros s' Hs'.
    apply loadEntry_agree; [apply load_value_shrinks|]. intros t' s'' Hs''. apply H. lia.
  - apply loadArray_agree; [apply load_value_shrinks|]. intros s' Hs'. by apply H.
Qed.

(** *** Enough fuel *)

Lemma section_loop_ends p fuel : forall count name sec s,
  run_shrinks p -> (forall s', (length s' < length s)%nat -> p s' <> OutOfFuel) -> (length s < fuel)%nat ->
  section_loop p fuel count name sec s <> OutOfFuel.
Proof.
  induction fuel as [|fuel IH]; intros count name sec s Hp He Hf; [lia|]. cbn [section_loop]. destruct (_ =? _); [done|].
  unfold mbind, runner_bind, throwing. destruct (readName name s) as [[name' s1]|] eqn:E1; [|done]. cbn [of_option].
  apply readName_shrinks in E1. specialize (He s1 E1) as He1. destruct (p s1) as [[v s2]| |] eqn:E2; [|done..]. apply Hp in E2.
  apply IH; [done| |lia]. intros s' Hs'. apply He. lia.
Qed.

Lemma array_loop_ends p fuel : forall count arr s,
  run_shrinks p -> (forall s', (length s' <= length s)%nat -> p s' <> OutOfFuel) -> (length s < fuel)%nat ->
  array_loop p fuel count arr s <> OutOfFuel.
Proof.
  induction fuel as [|fuel IH]; intros count arr s Hp He Hf; [lia|]. cbn [array_loop]. destruct (_ =? _); [done|].
  unfold mbind, runner_bind. specialize (He s ltac:(lia)) as He1. destruct (p s) as [[v s1]| |] eqn:E; [|done..]. apply Hp in E.
  apply IH; [done| |lia]. intros s' Hs'. apply He. lia.
Qed.

Lemma loadSection_ends p s :
  run_shrinks p -> (forall s', (length s' < length s)%nat -> p s' <> OutOfFuel) -> loadSection p s <> OutOfFuel.
Proof.
  intros Hp He. unfold loadSection, mbind, runner_bind, throwing. destruct (readVarint s) as [[count s1]|] eqn:E; [|done].
  apply readVarint_shrinks in E. apply section_loop_ends; [done| |lia]. intros s' Hs'. apply He. lia.
Qed.

Lemma loadArray_ends p s :
  run_shrinks p -> (forall s', (length s' < length s)%nat -> p s' <> OutOfFuel) -> loadArray p s <> OutOfFuel.
Proof.
  intros Hp He. unfold loadArray, mbind, runner_bind, throwing. destruct (readVarint s) as [[count s1]|] eqn:E; [|done].
  apply readVarint_shrinks in E. apply array_loop_ends; [done| |lia]. intros s' Hs'. apply He. lia.
Qed.

Lemma loadEntry_ends p s :
  (forall t, run_shrinks (p t)) -> (forall t s', (length s' < length s)%nat -> p t s' <> OutOfFuel) ->
  loadEntry p s <> OutOfFuel.
Proof.
  intros Hp He. unfold loadEntry, mbind, runner_bind, throwing. destruct (read_byte s) as [[t s1]|] eqn:E; [|done]. cbn [of_option].
  apply read_byte_shrinks in E. destruct (negb _); [|by apply He]. apply loadArray_ends; [done|]. intros s' Hs'. apply He. lia.
Qed.

Lemma throwing_ends {A} (p : parser A) s : throwing p s <> OutOfFuel.
Proof. unfold throwing. by destruct (p s). Qed.

Lemma load_value_ends f : forall t s, (length s < f)%nat -> load_value f t s <> OutOfFuel.
Proof.
  induction f as [|f IH]; intros t s Hf; [lia|]. cbn [load_value]. repeat case_match; try apply throwing_ends.
  - apply loadSection_ends; [apply loadEntry_shrinks, load_value_shrinks|]. intros s' Hs'.
    apply loadEntry_ends; [apply load_value_shrinks|]. intros t' s'' Hs''. apply IH. lia.
  - apply loadArray_ends; [apply load_value_shrinks|]. intros s' Hs'. apply IH. lia.
Qed.

Lemma loadValue_shrinks t : run_shrinks (loadValue t).
Proof. intros s x s' E. by apply load_value_shrinks in E. Qed.

(** [loadValue] as the code has it. *)
Lemma loadValue_unfold t s :
  loadValue t s =
    match integer_type t with
    | Some (n, signed) => throwing (readIntegerJson n signed)
    | None =>
        if t =? BIN_KV_SERIALIZE_TYPE_DOUBLE then throwing (bytes ← read_bytes 8; mret (REAL bytes))
        else if t =? BIN_KV_SERIALIZE_TYPE_BOOL then throwing (b ← read_byte; mret (BOOL (negb (b =? 0))))
        else if t =? BIN_KV_SERIALIZE_TYPE_STRING then throwing (s ← readString; mret (STRING s))
        else if t =? BIN_KV_SERIALIZE_TYPE_OBJECT then loadSection (loadEntry loadValue)
        else if t =? BIN_KV_SERIALIZE_TYPE_ARRAY then loadArray (loadValue t)
        else throwing pfail
    end s.
Proof.
  unfold loadValue at 1. cbn [load_value]. repeat case_match; try done.
  - apply loadSection_agree; [apply loadEntry_shrinks, load_value_shrinks|]. intros s' Hs'.
    apply loadEntry_agree; [apply load_value_shrinks|]. intros t' s'' Hs''. apply load_value_fuel; lia.
  - apply loadArray_agree; [apply load_value_shrinks|]. intros s' Hs'. apply load_value_fuel; lia.
Qed.

(** ** Entries and items *)

(** A member of an object: its name, the bytes after the name, and what is read from
    them. *)
Record entry := mkEntry {
  e_name : list Z;
  e_bytes : list Z;
  e_json : JsonValue }.

Definition name_ok (name : list Z) : Prop := name <> [] /\ Z.of_nat (length name) <= 255.

Definition entry_ok (e : entry) : Prop :=
  name_ok (e_name e) /\ forall tl, loadEntry loadValue (e_bytes e ++ tl) = Returns (e_json e, tl).

Definition enc_name (name : list Z) : list Z := Z.of_nat (length name) :: name.
Definition enc_entry (e : entry) : list Z := enc_name (e_name e) ++ e_bytes e.
Definition members (es : list entry) : list (list Z * JsonValue) := (fun e => (e_name e, e_json e)) <$> es.

(** An element of an array of the type [t]: its bytes and what is read from them. *)
Definition item_ok (t : Z) (p : list Z * JsonValue) : Prop := forall tl, loadValue t (p.1 ++ tl) = Returns (p.2, tl).

Lemma object_at_None m n : object_at m n = None <-> n ∉ m.*1.
Proof.
  induction m as [|[k v] m IH]; cbn [object_at fmap list_fmap fst]; [split; [intros _; apply not_elem_of_nil|done]|].
  rewrite not_elem_of_cons. case_bool_decide as Hk; [naive_solver|]. rewrite IH. naive_solver.
Qed.

Lemma object_at_app m m' n : object_at (m ++ m') n = match object_at m n with Some v => Some v | None => object_at m' n end.
Proof. induction m as [|[k v] m IH]; cbn [object_at app]; [done|]. by case_bool_decide. Qed.

Lemma members_names es : (members es).*1 = e_name <$> es.
Proof. unfold members. by rewrite <- list_fmap_compose. Qed.

Lemma members_app es es' : members (es ++ es') = members es ++ members es'.
Proof. apply fmap_app. Qed.

Lemma name_back name old tl : name_ok name -> readName old (enc_name name ++ tl) = Some (name, tl).
Proof.
  intros [Hne Hle]. unfold readName, enc_name. cbn [app]. erewrite pbind_run by done.
  assert (0 < length name)%nat by (destruct name; [done|cbn; lia]).
  destruct (Z.eqb_spec (Z.of_nat (length name)) 0); [lia|]. cbn [negb]. unfold read_bytes. rewrite length_app.
  destruct (Z.leb_spec (Z.of_nat (length name)) (Z.of_nat (length name + length tl))); [|lia].
  by rewrite Nat2Z.id, take_app_length, drop_app_length.
Qed.

Lemma section_back es tl : forall fuel name sec,
  Forall entry_ok es -> NoDup (sec.*1 ++ (e_name <$> es)) -> (length es <= fuel)%nat ->
  section_loop (loadEntry loadValue) fuel (Z.of_nat (length es)) name sec (concat (enc_entry <$> es) ++ tl) =
    Returns (OBJECT (sec ++ members es), tl).
Proof.
  induction es as [|e es IH]; intros fuel name sec; intros Hok Hn Hf.
  { destruct fuel; cbn [section_loop length]; cbn; by rewrite app_nil_r. }
  apply Forall_cons in Hok as [[Hname Hval] Hok]. destruct fuel as [|fuel]; [cbn in Hf; lia|]. cbn [section_loop length].
  destruct (Z.eqb_spec (Z.of_nat (S (length es))) 0); [lia|]. rewrite fmap_cons. cbn [concat]. unfold enc_entry at 1. rewrite <- !app_assoc.
  erewrite throwing_run by (by apply name_back). erewrite rbind_run by apply Hval.
  replace (Z.of_nat (S (length es)) - 1) with (Z.of_nat (length es)) by lia.
  assert (object_at sec (e_name e) = None) as Hnone.
  { apply object_at_None. intros Hin. apply NoDup_app in Hn as (_ & Hd & _). apply (Hd _ Hin). left. }
  unfold object_insert. rewrite Hnone, IH; [|done| |cbn in Hf; lia].
  - f_equal. f_equal. f_equal. rewrite <- app_assoc. done.
  - rewrite fmap_app. cbn. by rewrite <- app_assoc.
Qed.

Lemma entries_length es : Forall entry_ok es -> (length es <= length (concat (enc_entry <$> es)))%nat.
Proof. intros _. apply concat_length_ge, Forall_forall. intros e _. done. Qed.

Lemma loadSection_back es size tl :
  Forall entry_ok es -> NoDup (e_name <$> es) -> writeArraySize (Z.of_nat (length es)) = Some size ->
  loadSection (loadEntry loadValue) (size ++ concat (enc_entry <$> es) ++ tl) = Returns (OBJECT (members es), tl).
Proof.
  intros Hok Hn Hs. unfold loadSection. erewrite throwing_run by (apply (size_back (Z.of_nat (length es))); [lia|exact Hs]).
  apply (section_back es tl _ [] []); [done|done|]. pose proof (entries_length es Hok). rewrite length_app. lia.
Qed.

Lemma item_nonempty t p : item_ok t p -> p.1 <> [].
Proof.
  intros H E. specialize (H []). rewrite E in H. apply loadValue_shrinks in H. cbn in H. lia.
Qed.

Lemma array_back t ps tl : forall fuel arr, Forall (item_ok t) ps -> (length ps <= fuel)%nat ->
  array_loop (loadValue t) fuel (Z.of_nat (length ps)) arr (concat ps.*1 ++ tl) = Returns (ARRAY (arr ++ ps.*2), tl).
Proof.
  induction ps as [|p ps IH]; intros fuel arr Hok Hf.
  { destruct fuel; cbn [array_loop length]; cbn; by rewrite app_nil_r. }
  apply Forall_cons in Hok as [Hp Hok]. destruct fuel as [|fuel]; [cbn in Hf; lia|]. cbn [array_loop length].
  destruct (Z.eqb_spec (Z.of_nat (S (length ps))) 0); [lia|]. rewrite fmap_cons. cbn [concat]. rewrite <- app_assoc.
  erewrite rbind_run by apply Hp. replace (Z.of_nat (S (length ps)) - 1) with (Z.of_nat (length ps)) by lia.
  rewrite IH by (done || cbn in Hf; lia). by rewrite <- app_assoc.
Qed.

Lemma loadArray_back t ps size tl :
  Forall (item_ok t) ps -> writeArraySize (Z.of_nat (length ps)) = Some size ->
  loadArray (loadValue t) (size ++ concat ps.*1 ++ tl) = Returns (ARRAY ps.*2, tl).
Proof.
  intros Hok Hs. unfold loadArray. erewrite throwing_run by (apply (size_back (Z.of_nat (length ps))); [lia|exact Hs]).
  apply (array_back t ps tl _ []); [done|]. rewrite length_app.
  assert (length ps <= length (concat ps.*1))%nat; [|lia]. apply (concat_length_ge fst).
  eapply Forall_impl; [exact Hok|]. intros p. apply item_nonempty.
Qed.

Lemma string_back s size : writeArraySize (Z.of_nat (length s)) = Some size -> item_ok BIN_KV_SERIALIZE_TYPE_STRING (size ++ s, STRING s).
Proof.
  intros Hs tl. rewrite loadValue_unfold. cbn [integer_type]. change (integer_type BIN_KV_SERIALIZE_TYPE_STRING) with (@None (Z * bool)).
  cbn [Z.eqb]. change (BIN_KV_SERIALIZE_TYPE_STRING =? BIN_KV_SERIALIZE_TYPE_DOUBLE) with false.
  change (BIN_KV_SERIALIZE_TYPE_STRING =? BIN_KV_SERIALIZE_TYPE_BOOL) with false.
  change (BIN_KV_SERIALIZE_TYPE_STRING =? BIN_KV_SERIALIZE_TYPE_STRING) with true. cbn iota. cbn [fst snd].
  apply throwing_Returns. unfold readString. rewrite <- app_assoc. erewrite pbind_run; [reflexivity|].
  erewrite pbind_run by (apply (size_back (Z.of_nat (length s))); [lia|exact Hs]).
  unfold read_bytes. rewrite length_app. destruct (Z.leb_spec (Z.of_nat (length s)) (Z.of_nat (length s + length tl))); [|lia].
  by rewrite Nat2Z.id, take_app_length, drop_app_length.
Qed.

Lemma object_back es size : Forall entry_ok es -> NoDup (e_name <$> es) -> writeArraySize (Z.of_nat (length es)) = Some size ->
  item_ok BIN_KV_SERIALIZE_TYPE_OBJECT (size ++ concat (enc_entry <$> es), OBJECT (members es)).
Proof.
  intros Hok Hn Hs tl. rewrite loadValue_unfold. change (integer_type BIN_KV_SERIALIZE_TYPE_OBJECT) with (@None (Z * bool)).
  change (BIN_KV_SERIALIZE_TYPE_OBJECT =? BIN_KV_SERIALIZE_TYPE_DOUBLE) with false.
  change (BIN_KV_SERIALIZE_TYPE_OBJECT =? BIN_KV_SERIALIZE_TYPE_BOOL) with false.
  change (BIN_KV_SERIALIZE_TYPE_OBJECT =? BIN_KV_SERIALIZE_TYPE_STRING) with false.
  change (BIN_KV_SERIALIZE_TYPE_OBJECT =? BIN_KV_SERIALIZE_TYPE_OBJECT) with true. cbn iota. cbn [fst snd].
  rewrite <- app_assoc. by apply loadSection_back.
Qed.

(** A value behind its type. *)
Lemma value_entry name t p :
  name_ok name -> Z.land t 128 = 0 -> item_ok t p -> entry_ok (mkEntry name (t :: p.1) p.2).
Proof.
  intros Hn Ht Hp. split; [done|]. intros tl. cbn [e_bytes e_json app]. unfold loadEntry. erewrite throwing_run by done.
  unfold BIN_KV_SERIALIZE_FLAG_ARRAY. rewrite Ht. cbn [Z.eqb negb]. apply Hp.
Qed.

Lemma array_entry name t ps size :
  name_ok name -> t ∈ [BIN_KV_SERIALIZE_TYPE_STRING; BIN_KV_SERIALIZE_TYPE_OBJECT] -> Forall (item_ok t) ps ->
  writeArraySize (Z.of_nat (length ps)) = Some size ->
  entry_ok (mkEntry name (Z.lor BIN_KV_SERIALIZE_FLAG_ARRAY t :: size ++ concat ps.*1) (ARRAY ps.*2)).
Proof.
  intros Hn Ht Hp Hs. split; [done|]. intros tl. cbn [e_bytes e_json app]. unfold loadEntry. erewrite throwing_run by done.
  assert (Z.land (Z.lor BIN_KV_SERIALIZE_FLAG_ARRAY t) BIN_KV_SERIALIZE_FLAG_ARRAY = 128 /\
    Z.land (Z.lor BIN_KV_SERIALIZE_FLAG_ARRAY t) 127 = t) as [-> ->].
  { rewrite !elem_of_cons, elem_of_nil in Ht. destruct Ht as [->|[->|[]]]; done. }
  cbn [Z.eqb negb]. rewrite <- app_assoc. by apply loadArray_back.
Qed.

(** ** Numbers *)

Definition number_ok (k : Number) (v : Z) : Prop := number_cast k v = v.

Definition number_json (k : Number) (v : Z) : JsonValue :=
  let w := 8 * Z.of_nat (number_bytes k) in
  INTEGER (if number_signed k then swrap w (wrap w v) else s64 (wrap w v)).

Lemma le_combine_bytes n z : le_combine (le_split n z) = z mod 256 ^ Z.of_nat n.
Proof.
  revert z. induction n as [|n IH]; intros z; [cbn; by rewrite Z.mod_1_r|].
  cbn [le_split le_combine]. rewrite IH, Nat2Z.inj_succ, Z.pow_succ_r by lia. rewrite Z.rem_mul_r by lia. lia.
Qed.

Lemma number_back k v : item_ok (number_type k) (le_split (number_bytes k) v, number_json k v).
Proof.
  intros tl. rewrite loadValue_unfold.
  assert (integer_type (number_type k) = Some (Z.of_nat (number_bytes k), number_signed k)) as -> by (by destruct k).
  apply throwing_Returns. unfold readIntegerJson. cbn [fst snd].
  erewrite pbind_run; [|apply (codec_roundtrip _ _ _ (read_bytes_codec (Z.of_nat (number_bytes k)) ltac:(lia)))].
  2: { split; [by rewrite length_le_split, Nat2Z.id|apply le_split_ok]. }
  rewrite le_combine_bytes. unfold number_json, mret, parser_ret.
  replace (256 ^ Z.of_nat (number_bytes k)) with (2 ^ (8 * Z.of_nat (number_bytes k))) by (by destruct k). done.
Qed.

Lemma number_read k v : number_ok k v -> exists z, number_json k v = INTEGER z /\ number_cast k z = v.
Proof.
  intros Hv. eexists. split; [reflexivity|]. unfold number_ok, number_cast in *.
  destruct k; cbn [number_bytes number_signed] in *; words; zlia.
Qed.

(** ** Serialize functions *)

(** A [serialize] function for both serializers. *)
Definition serializer (A : Type) : Type := forall S, ISerializer S -> A -> ser S A.

(** What the function writes into an object as entries, and that it reads the same
    value from an object with these, and no others, under its names. *)
Record fields {A} (f : serializer A) (ok fresh : A -> Prop) (names : list (list Z)) (entries : A -> list entry) : Prop := {
  f_entries v : ok v -> Forall entry_ok (entries v) /\ sublist (e_name <$> entries v) names;
  f_out v nm c ls o os : ok v -> 0 <= c -> c + Z.of_nat (length (entries v)) < 2 ^ 64 ->
    f KVOutput _ v (mkKVOutput (mkLevel Object nm c :: ls) (o :: os)) =
      Some (v, mkKVOutput (mkLevel Object nm (c + Z.of_nat (length (entries v))) :: ls)
                 ((o ++ concat (enc_entry <$> entries v)) :: os));
  f_in v v0 m ch ix : ok v -> fresh v0 -> (forall n, n ∈ names -> object_at m n = object_at (members (entries v)) n) ->
    f KVInput _ v0 (mkKVInput (OBJECT m :: ch) ix) = Some (v, mkKVInput (OBJECT m :: ch) ix) }.

(** What the function writes as an element of an array of the type [t]. *)
Record items {A} (f : serializer A) (ok fresh : A -> Prop) (t : Z) (item : A -> list Z * JsonValue) : Prop := {
  i_item v : ok v -> item_ok t (item v);
  i_out v nm c ls o os : ok v ->
    f KVOutput _ v (mkKVOutput (mkLevel Array nm c :: ls) (o :: os)) =
      Some (v, mkKVOutput (mkLevel Array nm c :: ls) ((o ++ (item v).1) :: os));
  i_first v nm c ls o os size : ok v -> name_ok nm -> writeArraySize c = Some size ->
    f KVOutput _ v (mkKVOutput (mkLevel ArrayPrefix nm c :: ls) (o :: os)) =
      Some (v, mkKVOutput (mkLevel Array nm c :: ls)
                 ((o ++ enc_name nm ++ [Z.lor BIN_KV_SERIALIZE_FLAG_ARRAY t] ++ size ++ (item v).1) :: os));
  i_in v v0 arr k ch ix : ok v -> fresh v0 -> arr !! k = Some (item v).2 -> Z.of_nat k + 1 < 2 ^ 64 ->
    f KVInput _ v0 (mkKVInput (ARRAY arr :: ch) (Z.of_nat k :: ix)) =
      Some (v, mkKVInput (ARRAY arr :: ch) (Z.of_nat k + 1 :: ix)) }.

Lemma ser_run {S A B} (p : ser S A) (f : A -> ser S B) s x s' : p s = Some (x, s') -> (p ≫= f) s = f x s'.
Proof. intros H. unfold mbind, ser_bind. by rewrite H. Qed.

Lemma write_run data ls o os : write data (mkKVOutput ls (o :: os)) = Some (tt, mkKVOutput ls ((o ++ data) :: os)).
Proof. done. Qed.

Lemma size_run n size ls o os : writeArraySize n = Some size ->
  write_size n (mkKVOutput ls (o :: os)) = Some (tt, mkKVOutput ls ((o ++ size) :: os)).
Proof. intros H. unfold write_size. erewrite ser_run; [|unfold lift; by rewrite H]. done. Qed.

Lemma name_run name ls o os : name_ok name ->
  writeElementName name (mkKVOutput ls (o :: os)) = Some (tt, mkKVOutput ls ((o ++ enc_name name) :: os)).
Proof.
  intros [_ H]. unfold writeElementName, element_name. destruct (Z.ltb_spec 255 (Z.of_nat (length name))); [lia|].
  erewrite ser_run by reflexivity. apply write_run.
Qed.

Lemma prefix_object t name nm c ls o os : name_ok name ->
  writeElementPrefix t name (mkKVOutput (mkLevel Object nm c :: ls) (o :: os)) =
    Some (tt, mkKVOutput (mkLevel Object nm (u64 (c + 1)) :: ls) ((o ++ enc_name name ++ [t]) :: os)).
Proof.
  intros Hn. unfold writeElementPrefix. erewrite ser_run by done. erewrite ser_run by done. cbn [state].
  rewrite bool_decide_eq_true_2 by apply Hn.
  erewrite ser_run; [|erewrite ser_run by (by apply name_run); apply write_run]. cbn. by rewrite <- app_assoc.
Qed.

Lemma prefix_array t name nm c ls o os :
  writeElementPrefix t name (mkKVOutput (mkLevel Array nm c :: ls) (o :: os)) = Some (tt, mkKVOutput (mkLevel Array nm c :: ls) (o :: os)).
Proof. done. Qed.

Lemma preamble t nm c ls o os size : name_ok nm -> writeArraySize c = Some size ->
  checkArrayPreamble t (mkKVOutput (mkLevel ArrayPrefix nm c :: ls) (o :: os)) =
    Some (tt, mkKVOutput (mkLevel Array nm c :: ls) ((o ++ enc_name nm ++ [Z.lor BIN_KV_SERIALIZE_FLAG_ARRAY t] ++ size) :: os)).
Proof.
  intros Hn Hs. unfold checkArrayPreamble. cbn [m_stack state level_name count].
  erewrite ser_run by (by apply name_run). erewrite ser_run by apply write_run. erewrite ser_run by (by apply size_run).
  cbn. by rewrite <- !app_assoc.
Qed.

Lemma prefix_first t name nm c ls o os size : name_ok nm -> writeArraySize c = Some size ->
  writeElementPrefix t name (mkKVOutput (mkLevel ArrayPrefix nm c :: ls) (o :: os)) =
    Some (tt, mkKVOutput (mkLevel Array nm c :: ls) ((o ++ enc_name nm ++ [Z.lor BIN_KV_SERIALIZE_FLAG_ARRAY t] ++ size) :: os)).
Proof. intros Hn Hs. unfold writeElementPrefix. erewrite ser_run by (by apply preamble). done. Qed.

(** The size is a number of 62 bits. *)
Definition size_ok {A} (l : list A) : Prop := Z.of_nat (length l) < 2 ^ 62.

Definition enc_size {A} (l : list A) : list Z := default [] (writeArraySize (Z.of_nat (length l))).

Lemma size_enc {A} (l : list A) : size_ok l -> writeArraySize (Z.of_nat (length l)) = Some (enc_size l).
Proof. intros H. unfold enc_size. by destruct (size_written (Z.of_nat (length l)) H) as [size ->]. Qed.

(** ** The overloads *)

Lemma single_entry (f : entry) name : e_name f = name -> object_at (members [f]) name = Some (e_json f).
Proof. intros <-. cbn. by rewrite bool_decide_eq_true_2. Qed.

#[local] Ltac single := split; [by apply Forall_singleton|reflexivity].

Lemma fields_number k name : name_ok name ->
  fields (fun S _ v => member (serialize_number k v name)) (number_ok k) (fun _ => True) [name]
    (fun v => [mkEntry name (number_type k :: le_split (number_bytes k) v) (number_json k v)]).
Proof.
  intros Hn. split.
  - intros v Hv. assert (entry_ok (mkEntry name (number_type k :: le_split (number_bytes k) v) (number_json k v))); [|single].
    apply (value_entry name (number_type k) (le_split (number_bytes k) v, number_json k v)); [done|by destruct k|apply number_back].
  - intros v nm c ls o os Hv Hc Hlt. cbn [length] in *. unfold member. cbn [serialize_number KVBinaryOutputStreamSerializer].
    unfold out_number. erewrite ser_run; [|erewrite ser_run by (by apply prefix_object); erewrite ser_run by apply write_run; reflexivity].
    rewrite wrap_small by (words; lia). unfold mret, ser_ret, enc_entry.
    cbn [fmap list_fmap concat e_name e_bytes]. by rewrite app_nil_r, <- !app_assoc.
  - intros v v0 m ch ix Hv _ Hm. unfold member. cbn [serialize_number KVBinaryInputStreamSerializer]. unfold in_number.
    destruct (number_read k v Hv) as (z & Ez & Ec).
    assert (object_at m name = Some (INTEGER z)) as E by (rewrite Hm by left; rewrite single_entry by done; by rewrite <- Ez).
    erewrite ser_run; [|erewrite ser_run by reflexivity; cbn; rewrite E; reflexivity]. by rewrite Ec.
Qed.

Definition string_entry (name s : list Z) : entry := mkEntry name (BIN_KV_SERIALIZE_TYPE_STRING :: enc_size s ++ s) (STRING s).

Lemma string_entry_ok name s : name_ok name -> size_ok s -> entry_ok (string_entry name s).
Proof.
  intros Hn Hs. apply (value_entry name BIN_KV_SERIALIZE_TYPE_STRING (enc_size s ++ s, STRING s)); [done|done|].
  by apply string_back, size_enc.
Qed.

Lemma string_run name s nm c ls o os : name_ok name -> size_ok s -> fits 64 (c + 1) ->
  out_string s name (mkKVOutput (mkLevel Object nm c :: ls) (o :: os)) =
    Some ((true, s), mkKVOutput (mkLevel Object nm (c + 1) :: ls) ((o ++ enc_entry (string_entry name s)) :: os)).
Proof.
  intros Hn Hs Hc. unfold out_string. erewrite ser_run by (by apply prefix_object).
  erewrite ser_run by (by apply size_run, size_enc). erewrite ser_run by apply write_run. rewrite wrap_small by done.
  unfold mret, ser_ret, enc_entry, string_entry.
  cbn [e_name e_bytes]. by rewrite <- !app_assoc.
Qed.

Lemma in_string_at m name s v0 ch ix : object_at m name = Some (STRING s) ->
  in_string v0 name (mkKVInput (OBJECT m :: ch) ix) = Some ((true, s), mkKVInput (OBJECT m :: ch) ix).
Proof. intros E. unfold in_string. erewrite ser_run by reflexivity. cbn. by rewrite E. Qed.

Lemma in_string_none m name v0 ch ix : object_at m name = None ->
  in_string v0 name (mkKVInput (OBJECT m :: ch) ix) = Some ((false, v0), mkKVInput (OBJECT m :: ch) ix).
Proof. intros E. unfold in_string. erewrite ser_run by reflexivity. cbn. by rewrite E. Qed.

Lemma fields_string name : name_ok name ->
  fields (fun S _ v => member (serialize_string v name)) size_ok (fun _ => True) [name] (fun v => [string_entry name v]).
Proof.
  intros Hn. split.
  - intros v Hv. pose proof (string_entry_ok name v Hn Hv). single.
  - intros v nm c ls o os Hv Hc Hlt. cbn [length] in *. unfold member.
    erewrite ser_run by (apply string_run; [done|done|words; lia]). cbn [fmap list_fmap concat]. by rewrite app_nil_r.
  - intros v v0 m ch ix Hv _ Hm. unfold member. cbn [serialize_string KVBinaryInputStreamSerializer].
    erewrite ser_run by (apply in_string_at; rewrite Hm by left; by rewrite single_entry). done.
Qed.

Lemma fields_binary n name : name_ok name -> (0 < n)%nat ->
  fields (fun S _ v => member (binary v name)) (fun v => length v = n /\ size_ok v) (fun v0 => length v0 = n) [name]
    (fun v => [string_entry name v]).
Proof.
  intros Hn Hpos. split.
  - intros v [_ Hv]. pose proof (string_entry_ok name v Hn Hv). single.
  - intros v nm c ls o os [Hl Hv] Hc Hlt. cbn [length] in *. unfold member. cbn [binary KVBinaryOutputStreamSerializer].
    unfold out_binary. destruct (Z.ltb_spec 0 (Z.of_nat (length v))); [|lia].
    erewrite ser_run by (apply string_run; [done|done|words; lia]). cbn [fmap list_fmap concat]. by rewrite app_nil_r.
  - intros v v0 m ch ix [Hl Hv] H0 Hm. unfold member. cbn [binary KVBinaryInputStreamSerializer]. unfold in_binary.
    erewrite ser_run; [|erewrite ser_run by (apply in_string_at; rewrite Hm by left; by rewrite single_entry);
      cbn [negb]; rewrite Hl, H0, Nat.eqb_refl; reflexivity]. done.
Qed.

(** ** Vectors of plain structures *)

Lemma chunks_concat sizeof (l : list (list Z)) fuel : (0 < sizeof)%nat -> Forall (fun x => length x = sizeof) l -> (length (concat l) <= fuel)%nat ->
  chunks sizeof fuel (concat l) = l.
Proof.
  intros Hs Hl. revert fuel. induction Hl as [|x l Hx Hl IH]; intros fuel Hf; cbn [concat]; [by destruct fuel|].
  cbn [concat] in Hf. rewrite length_app in Hf.
  destruct fuel as [|fuel]; [lia|]. destruct (x ++ concat l) as [|b rest] eqn:E.
  { destruct x; [cbn in Hx; lia|done]. }
  cbn [chunks]. rewrite <- E, take_app_length', drop_app_length' by done. f_equal. apply IH. lia.
Qed.

Lemma concat_whole sizeof (l : list (list Z)) :
  Forall (fun x => length x = sizeof) l -> (length (concat l) mod sizeof =? 0)%nat = true.
Proof.
  intros Hl. assert (length (concat l) = (length l * sizeof)%nat) as ->.
  { induction Hl as [|x l Hx _ IH]; [done|]. cbn [concat length]. rewrite length_app, IH, Hx. lia. }
  by rewrite Nat.Div0.mod_mul.
Qed.

Definition blob_entries (name : list Z) (l : list (list Z)) : list entry :=
  match concat l with [] => [] | blob => [string_entry name blob] end.

Definition blob_ok (sizeof : nat) (l : list (list Z)) : Prop := Forall (fun x => length x = sizeof) l /\ size_ok (concat l).

Lemma blob_out name l nm c ls o os : name_ok name -> size_ok (concat l) -> 0 <= c -> c + Z.of_nat (length (blob_entries name l)) < 2 ^ 64 ->
  out_binary (concat l) name (mkKVOutput (mkLevel Object nm c :: ls) (o :: os)) =
    Some ((true, concat l), mkKVOutput (mkLevel Object nm (c + Z.of_nat (length (blob_entries name l))) :: ls)
            ((o ++ concat (enc_entry <$> blob_entries name l)) :: os)).
Proof.
  intros Hn Hs Hc. unfold blob_entries, out_binary. destruct (concat l) as [|b blob] eqn:E.
  { cbn. intros _. by rewrite Z.add_0_r, app_nil_r. }
  rewrite <- E in *. intros Hlt. cbn [length] in Hlt.
  destruct (Z.ltb_spec 0 (Z.of_nat (length (concat l)))) as [|Hl]; [|rewrite E in Hl; cbn in Hl; lia].
  etrans; [apply (string_run name (concat l)); [done|done|words; lia]|]. cbn [fmap list_fmap concat]. by rewrite app_nil_r.
Qed.

Lemma blob_in name l m ch ix :
  object_at m name = object_at (members (blob_entries name l)) name ->
  exists b, in_string [] name (mkKVInput (OBJECT m :: ch) ix) = Some ((b, concat l), mkKVInput (OBJECT m :: ch) ix).
Proof.
  unfold blob_entries. destruct (concat l) as [|b blob] eqn:E; intros Hm.
  - exists false. by rewrite in_string_none.
  - exists true. rewrite <- E in *. apply in_string_at. rewrite Hm. by rewrite single_entry.
Qed.

Lemma blob_entries_ok name l : name_ok name -> size_ok (concat l) ->
  Forall entry_ok (blob_entries name l) /\ sublist (e_name <$> blob_entries name l) [name].
Proof.
  intros Hn Hs. unfold blob_entries. destruct (concat l) as [|b blob] eqn:E; [split; [constructor|apply sublist_nil_l]|].
  pose proof (string_entry_ok name (b :: blob) Hn Hs). single.
Qed.

Lemma fields_vector sizeof name : name_ok name -> (0 < sizeof)%nat ->
  fields (fun S _ v => serializeAsBinary sizeof v name) (blob_ok sizeof) (fun _ => True) [name] (blob_entries name).
Proof.
  intros Hn Hs. split.
  - intros v [_ Hv]. by apply blob_entries_ok.
  - intros v nm c ls o os [_ Hv] Hc Hlt. unfold serializeAsBinary. cbn [type KVBinaryOutputStreamSerializer binary_string].
    by erewrite ser_run by (by apply blob_out).
  - intros v v0 m ch ix [Hl Hv] _ Hm. unfold serializeAsBinary. cbn [type KVBinaryInputStreamSerializer binary_string].
    destruct (blob_in name v m ch ix) as [b Eb]; [apply Hm; left|]. erewrite ser_run by exact Eb. cbn beta iota.
    rewrite (concat_whole sizeof) by done. cbn [negb]. by rewrite chunks_concat.
Qed.

Lemma fields_list sizeof name : name_ok name -> (0 < sizeof)%nat ->
  fields (fun S _ v => serializeAsBinary_list sizeof v name) (blob_ok sizeof) (fun v0 => v0 = []) [name] (blob_entries name).
Proof.
  intros Hn Hs. split.
  - intros v [_ Hv]. by apply blob_entries_ok.
  - intros v nm c ls o os [_ Hv] Hc Hlt. unfold serializeAsBinary_list. cbn [type KVBinaryOutputStreamSerializer binary_string].
    by erewrite ser_run by (by apply blob_out).
  - intros v v0 m ch ix [Hl Hv] -> Hm. unfold serializeAsBinary_list. cbn [type KVBinaryInputStreamSerializer binary_string].
    destruct (blob_in name v m ch ix) as [b Eb]; [apply Hm; left|]. erewrite ser_run by exact Eb. cbn beta iota.
    rewrite (concat_whole sizeof) by done. cbn [negb app]. by rewrite chunks_concat.
Qed.

(** ** Objects and arrays *)

Definition object_entry (name : list Z) (es : list entry) : entry :=
  mkEntry name (BIN_KV_SERIALIZE_TYPE_OBJECT :: enc_size es ++ concat (enc_entry <$> es)) (OBJECT (members es)).

(** The entries of an object: not too many. *)
Definition object_ok {A} (ok : A -> Prop) (entries : A -> list entry) (v : A) : Prop := ok v /\ size_ok (entries v).

Section Compose.
Context {A : Type} (f : serializer A) (ok fresh : A -> Prop) (names : list (list Z)) (entries : A -> list entry)
  (Hf : fields f ok fresh names entries) (Hnd : NoDup names).

Lemma names_nodup v : ok v -> NoDup (e_name <$> entries v).
Proof using Hf Hnd. intros Hv. eapply sublist_NoDup; [exact Hnd|]. exact (proj2 (f_entries _ _ _ _ _ Hf v Hv)). Qed.

Lemma object_item v : object_ok ok entries v ->
  item_ok BIN_KV_SERIALIZE_TYPE_OBJECT (enc_size (entries v) ++ concat (enc_entry <$> entries v), OBJECT (members (entries v))).
Proof using Hf Hnd.
  intros [Hv Hs]. apply object_back; [by apply (f_entries _ _ _ _ _ Hf)|by apply names_nodup|by apply size_enc].
Qed.

(** Between the braces. *)
Lemma object_body v nm ls os : object_ok ok entries v ->
  f KVOutput _ v (mkKVOutput (mkLevel Object nm 0 :: ls) ([] :: os)) =
    Some (v, mkKVOutput (mkLevel Object nm (Z.of_nat (length (entries v))) :: ls) (concat (enc_entry <$> entries v) :: os)).
Proof using Hf. intros [Hv Hs]. by rewrite (f_out _ _ _ _ _ Hf) by (done || unfold size_ok in Hs; lia). Qed.

Lemma object_read v v0 ch ix : ok v -> fresh v0 ->
  f KVInput _ v0 (mkKVInput (OBJECT (members (entries v)) :: ch) ix) = Some (v, mkKVInput (OBJECT (members (entries v)) :: ch) ix).
Proof using Hf. intros Hv H0. by apply (f_in _ _ _ _ _ Hf). Qed.

Lemma fields_object name : name_ok name ->
  fields (fun S I v => member (serialize_object (f S I) v name)) (object_ok ok entries) fresh [name]
    (fun v => [object_entry name (entries v)]).
Proof using Hf Hnd.
  intros Hn. split.
  - intros v Hv. assert (entry_ok (object_entry name (entries v))); [|single].
    apply (value_entry name BIN_KV_SERIALIZE_TYPE_OBJECT (_, _)); [done|done|by apply object_item].
  - intros v nm c ls o os Hv Hc Hlt. cbn [length] in *. unfold member, serialize_object.
    cbn [beginObject endObject KVBinaryOutputStreamSerializer].
    erewrite ser_run; [|erewrite ser_run by reflexivity; cbn [negb]; erewrite ser_run by (by apply object_body);
      erewrite ser_run; [reflexivity|]; unfold out_endObject; cbn [m_stack m_objectsStack level_name count];
      erewrite ser_run by (by apply prefix_object); erewrite ser_run by (apply size_run, size_enc, Hv); apply write_run].
    rewrite wrap_small by (words; lia). unfold mret, ser_ret, object_entry, enc_entry at 2.
    cbn [fmap list_fmap concat e_name e_bytes]. by rewrite app_nil_r, <- !app_assoc.
  - intros v v0 m ch ix [Hv _] H0 Hm. unfold member, serialize_object. cbn [beginObject endObject KVBinaryInputStreamSerializer].
    assert (object_at m name = Some (OBJECT (members (entries v)))) as E by (rewrite Hm by left; by rewrite single_entry).
    erewrite ser_run; [|erewrite ser_run by (unfold in_beginObject; cbn [chain]; rewrite E; reflexivity); cbn [negb];
      erewrite ser_run by (by apply object_read); erewrite ser_run by reflexivity; reflexivity]. done.
Qed.

Lemma items_object :
  items (fun S I v => member (serialize_object (f S I) v [])) (object_ok ok entries) fresh BIN_KV_SERIALIZE_TYPE_OBJECT
    (fun v => (enc_size (entries v) ++ concat (enc_entry <$> entries v), OBJECT (members (entries v)))).
Proof using Hf Hnd.
  split.
  - apply object_item.
  - intros v nm c ls o os Hv. unfold member, serialize_object. cbn [beginObject endObject KVBinaryOutputStreamSerializer].
    erewrite ser_run; [|erewrite ser_run by reflexivity; cbn [negb]; erewrite ser_run by (by apply object_body);
      erewrite ser_run; [reflexivity|]; unfold out_endObject; cbn [m_stack m_objectsStack level_name count];
      erewrite ser_run by apply prefix_array; erewrite ser_run by (apply size_run, size_enc, Hv); apply write_run].
    unfold mret, ser_ret. cbn [fst]. by rewrite <- !app_assoc.
  - intros v nm c ls o os size Hv Hnm Hs. unfold member, serialize_object. cbn [beginObject endObject KVBinaryOutputStreamSerializer].
    erewrite ser_run; [|erewrite ser_run by (unfold out_beginObject; erewrite ser_run by (by apply preamble); reflexivity);
      cbn [negb]; erewrite ser_run by (by apply object_body);
      erewrite ser_run; [reflexivity|]; unfold out_endObject; cbn [m_stack m_objectsStack level_name count];
      erewrite ser_run by apply prefix_array; erewrite ser_run by (apply size_run, size_enc, Hv); apply write_run].
    unfold mret, ser_ret. cbn [fst]. by rewrite <- !app_assoc.
  - intros v v0 arr k ch ix [Hv _] H0 Ha Hk. unfold member, serialize_object. cbn [beginObject endObject KVBinaryInputStreamSerializer].
    assert (next_item arr (mkKVInput (ARRAY arr :: ch) (Z.of_nat k :: ix)) =
      Some (OBJECT (members (entries v)), mkKVInput (ARRAY arr :: ch) (Z.of_nat k + 1 :: ix))) as En.
    { unfold next_item. cbn [idxs]. rewrite Nat2Z.id, Ha. cbn [mbind option_bind]. by rewrite wrap_small by (words; lia). }
    erewrite ser_run; [|erewrite ser_run by (unfold in_beginObject; cbn [chain]; erewrite ser_run by exact En; reflexivity); cbn [negb];
      erewrite ser_run by (by apply object_read); erewrite ser_run by reflexivity; reflexivity]. done.
Qed.
End Compose.

Lemma items_string :
  items (fun S _ v => member (serialize_string v [])) size_ok (fun _ => True) BIN_KV_SERIALIZE_TYPE_STRING
    (fun v => (enc_size v ++ v, STRING v)).
Proof.
  split.
  - intros v Hv. by apply string_back, size_enc.
  - intros v nm c ls o os Hv. unfold member. cbn [serialize_string KVBinaryOutputStreamSerializer]. unfold out_string.
    erewrite ser_run; [|erewrite ser_run by apply prefix_array; erewrite ser_run by (by apply size_run, size_enc);
      erewrite ser_run by apply write_run; reflexivity]. unfold mret, ser_ret. cbn [fst]. by rewrite <- app_assoc.
  - intros v nm c ls o os size Hv Hnm Hs. unfold member. cbn [serialize_string KVBinaryOutputStreamSerializer]. unfold out_string.
    erewrite ser_run; [|erewrite ser_run by (by apply prefix_first); erewrite ser_run by (by apply size_run, size_enc);
      erewrite ser_run by apply write_run; reflexivity]. unfold mret, ser_ret. cbn [fst]. by rewrite <- !app_assoc.
  - intros v v0 arr k ch ix Hv _ Ha Hk. unfold member. cbn [serialize_string KVBinaryInputStreamSerializer]. unfold in_string.
    assert (getValue [] (mkKVInput (ARRAY arr :: ch) (Z.of_nat k :: ix)) =
      Some (Some (STRING v), mkKVInput (ARRAY arr :: ch) (Z.of_nat k + 1 :: ix))) as En.
    { unfold getValue, next_item. cbn [chain idxs]. unfold mbind at 1, ser_bind. cbn [idxs chain]. rewrite Nat2Z.id, Ha. cbn.
      by rewrite wrap_small by (words; lia). }
    erewrite ser_run; [|erewrite ser_run by exact En; reflexivity]. done.
Qed.

Section Container.
Context {A : Type} (f : serializer A) (ok fresh : A -> Prop) (t : Z) (item : A -> list Z * JsonValue)
  (Hi : items f ok fresh t item) (Ht : t ∈ [BIN_KV_SERIALIZE_TYPE_STRING; BIN_KV_SERIALIZE_TYPE_OBJECT]) (new : A) (Hnew : fresh new).

Definition array_entries (name : list Z) (l : list A) : list entry :=
  match l with
  | [] => []
  | _ => [mkEntry name (Z.lor BIN_KV_SERIALIZE_FLAG_ARRAY t :: enc_size l ++ concat (fst <$> (item <$> l))) (ARRAY (snd <$> (item <$> l)))]
  end.

Lemma items_out l : forall nm c ls o os, Forall ok l ->
  serialize_items (f KVOutput _) l (mkKVOutput (mkLevel Array nm c :: ls) (o :: os)) =
    Some (l, mkKVOutput (mkLevel Array nm c :: ls) ((o ++ concat (fst <$> (item <$> l))) :: os)).
Proof using Hi.
  induction l as [|x l IH]; intros nm c ls o os; [intros _; cbn; by rewrite app_nil_r|].
  rewrite Forall_cons. intros [Hx Hl]. cbn [serialize_items]. erewrite ser_run by (by apply (i_out _ _ _ _ _ Hi)).
  erewrite ser_run by (by apply IH). unfold mret, ser_ret. rewrite !fmap_cons. cbn [concat]. by rewrite <- app_assoc.
Qed.

Lemma items_in l : forall k pre ch ix, Forall ok l -> Z.of_nat (length pre + length l) < 2 ^ 64 -> k = length pre ->
  serialize_items (f KVInput _) (replicate (length l) new) (mkKVInput (ARRAY (pre ++ (snd <$> (item <$> l))) :: ch) (Z.of_nat k :: ix)) =
    Some (l, mkKVInput (ARRAY (pre ++ (snd <$> (item <$> l))) :: ch) (Z.of_nat (k + length l) :: ix)).
Proof using Hi Hnew.
  induction l as [|x l IH]; intros k pre ch ix; [intros _ _ _; cbn; by rewrite Nat.add_0_r|].
  rewrite Forall_cons. intros [Hx Hl] Hb ->. cbn [length] in Hb. cbn [serialize_items replicate length].
  erewrite ser_run; [|apply (i_in _ _ _ _ _ Hi x); [done|done| |lia]].
  2: { rewrite !fmap_cons. by rewrite list_lookup_middle. }
  rewrite !fmap_cons. change (pre ++ (item x).2 :: (snd <$> (item <$> l))) with (pre ++ [(item x).2] ++ (snd <$> (item <$> l))).
  rewrite app_assoc. replace (Z.of_nat (length pre) + 1) with (Z.of_nat (length (pre ++ [(item x).2]))) by (rewrite length_app; cbn; lia).
  erewrite ser_run by (apply IH; [done|rewrite length_app; cbn; lia|done]). unfold mret, ser_ret. do 4 f_equal.
  rewrite length_app. cbn. lia.
Qed.

Lemma array_json_length l : length (snd <$> (item <$> l)) = length l.
Proof using Type. by rewrite !length_fmap. Qed.

Lemma fields_container name : name_ok name ->
  fields (fun S I v => member (serializeContainer new (f S I) v name)) (fun l => Forall ok l /\ size_ok l) (fun l0 => l0 = [])
    [name] (array_entries name).
Proof using Hi Ht Hnew.
  intros Hn. split.
  - intros l [Hl Hs]. unfold array_entries. destruct l as [|x l]; [split; [constructor|apply sublist_nil_l]|].
    assert (Forall (item_ok t) (item <$> x :: l)) as Hok.
    { apply Forall_fmap. eapply Forall_impl; [exact Hl|]. intros y. apply (i_item _ _ _ _ _ Hi). }
    split; [|reflexivity]. apply Forall_singleton. apply (array_entry name t (item <$> x :: l)); [done..|].
    rewrite length_fmap. by apply size_enc.
  - intros l nm c ls o os [Hl Hs] Hc Hlt. unfold member, serializeContainer.
    cbn [beginArray endArray KVBinaryOutputStreamSerializer]. unfold out_beginArray.
    assert (resize new (Z.to_nat (Z.of_nat (length l))) l = l) as Er.
    { unfold resize. rewrite Nat2Z.id, firstn_all, Nat.sub_diag. apply app_nil_r. }
    destruct l as [|x l].
    { cbn. by rewrite Z.add_0_r, app_nil_r. }
    apply Forall_cons in Hl as [Hx Hl]. cbn [array_entries length] in Hlt.
    erewrite ser_run; [|erewrite ser_run by reflexivity; cbn [negb]; rewrite Er; cbn [serialize_items];
      erewrite ser_run by (erewrite ser_run by (by apply (i_first _ _ _ _ _ Hi); [..|by apply size_enc]);
        erewrite ser_run by (by apply items_out); reflexivity); erewrite ser_run by reflexivity; reflexivity].
    cbn [m_stack state level_name count m_objectsStack andb tail]. rewrite wrap_small by (words; lia).
    unfold mret, ser_ret, array_entries, enc_entry. cbn [fmap list_fmap concat e_name e_bytes length]. rewrite app_nil_r, <- !app_assoc.
    done.
  - intros l l0 m ch ix [Hl Hs] -> Hm. unfold member, serializeContainer. cbn [beginArray endArray KVBinaryInputStreamSerializer].
    assert (object_at m name = object_at (members (array_entries name l)) name) as E by (apply Hm; left).
    unfold array_entries in E. destruct l as [|x l].
    { unfold in_beginArray. erewrite ser_run; [|erewrite ser_run by (cbn [chain]; rewrite E; reflexivity); reflexivity]. done. }
    rewrite single_entry in E by done. cbn [e_json] in E.
    erewrite ser_run; [|erewrite ser_run by (unfold in_beginArray; cbn [chain]; rewrite E, array_json_length; reflexivity); cbn [negb];
      unfold resize; rewrite Nat2Z.id, take_nil, Nat.sub_0_r; cbn [app];
      erewrite ser_run by (apply (items_in (x :: l) 0 []); [done|unfold size_ok in Hs; cbn [length] in *; lia|done]);
      erewrite ser_run by reflexivity; reflexivity]. done.
Qed.
End Container.

(** ** One after the other *)

Lemma fields_pair {A B} (f : serializer A) okA freshA namesA entriesA (g : serializer B) okB freshB namesB entriesB :
  fields f okA freshA namesA entriesA -> fields g okB freshB namesB entriesB -> (forall n, n ∈ namesA -> n ∉ namesB) ->
  fields (fun S I p => a ← f S I p.1; b ← g S I p.2; mret (a, b)) (fun p => okA p.1 /\ okB p.2) (fun p => freshA p.1 /\ freshB p.2)
    (namesA ++ namesB) (fun p => entriesA p.1 ++ entriesB p.2).
Proof.
  intros Hf Hg Hd. split.
  - intros [a b] [Ha Hb]. destruct (f_entries _ _ _ _ _ Hf a Ha), (f_entries _ _ _ _ _ Hg b Hb).
    rewrite Forall_app, fmap_app. split; [done|by apply sublist_app].
  - intros [a b] nm c ls o os [Ha Hb] Hc. cbn [fst snd] in *. rewrite length_app. intros Hlt.
    erewrite ser_run by (apply (f_out _ _ _ _ _ Hf); [done|done|lia]). erewrite ser_run by (apply (f_out _ _ _ _ _ Hg); [done|lia|lia]).
    unfold mret, ser_ret. rewrite fmap_app, concat_app, <- app_assoc. do 4 f_equal. f_equal. lia.
  - intros [a b] [a0 b0] m ch ix [Ha Hb] [Ha0 Hb0] Hm. cbn [fst snd] in *.
    destruct (f_entries _ _ _ _ _ Hf a Ha) as [_ Sa], (f_entries _ _ _ _ _ Hg b Hb) as [_ Sb].
    assert (forall es ns, sublist (e_name <$> es) ns -> forall n, n ∉ ns -> object_at (members es) n = None) as Hnone.
    { intros es ns Hs n Hn. apply object_at_None. rewrite members_names. intros Hin. apply Hn.
      eapply elem_of_submseteq; [exact Hin|by apply sublist_submseteq]. }
    erewrite ser_run by (apply (f_in _ _ _ _ _ Hf a); [done|done|]; intros n Hna; rewrite Hm by (apply elem_of_app; by left);
      rewrite members_app, object_at_app, (Hnone (entriesB b) namesB) by (done || by apply Hd); by destruct (object_at _ n)).
    erewrite ser_run by (apply (f_in _ _ _ _ _ Hg b); [done|done|]; intros n Hnb; rewrite Hm by (apply elem_of_app; by right);
      rewrite members_app, object_at_app, (Hnone (entriesA a) namesA) by (done || (intros Hna; by apply (Hd n))); done).
    done.
Qed.

(** The fields of a structure, for a function that may look at the type of the serializer. *)
Lemma fields_split {A B} (to : A -> B) (from fromI : B -> A) (f : serializer A) (g : serializer B) ok fresh (freshB : B -> Prop) names
    entries :
  fields f ok fresh names entries -> (forall b, to (from b) = b) ->
  (forall b s s', f KVOutput _ (from b) s = Some (from b, s') -> g KVOutput _ b s = Some (b, s')) ->
  (forall b s, freshB b -> fresh (fromI b) /\ g KVInput _ b s = (a ← f KVInput _ (fromI b); mret (to a)) s) ->
  fields g (fun b => ok (from b)) freshB names (fun b => entries (from b)).
Proof.
  intros Hf Hto Ho Hin. split.
  - intros b. apply (f_entries _ _ _ _ _ Hf).
  - intros b nm c ls o os Hb Hc Hlt. apply Ho. by apply (f_out _ _ _ _ _ Hf).
  - intros b b0 m ch ix Hb H0 Hm. destruct (Hin b0 (mkKVInput (OBJECT m :: ch) ix) H0) as [H1 ->].
    erewrite ser_run by (by apply (f_in _ _ _ _ _ Hf (from b))). unfold mret, ser_ret. by rewrite Hto.
Qed.

Lemma fields_weaken {A} (f : serializer A) (ok ok' fresh fresh' : A -> Prop) names entries :
  fields f ok fresh names entries -> (forall v, ok' v -> ok v) -> (forall v, fresh' v -> fresh v) ->
  fields f ok' fresh' names entries.
Proof.
  intros Hf Hok Hfr. split.
  - intros v Hv. apply (f_entries _ _ _ _ _ Hf), Hok, Hv.
  - intros v nm c ls o os Hv. apply (f_out _ _ _ _ _ Hf), Hok, Hv.
  - intros v v0 m ch ix Hv H0. apply (f_in _ _ _ _ _ Hf); [by apply Hok|by apply Hfr].
Qed.

Lemma fields_none : fields (fun S _ (v : unit) => mret v) (fun _ => True) (fun _ => True) [] (fun _ => []).
Proof.
  split.
  - intros v _. by split.
  - intros v nm c ls o os _ Hc _. cbn. by rewrite Z.add_0_r, app_nil_r.
  - by intros [] [] m ch ix _ _ _.
Qed.

(** ** Functions that keep their values *)

(** The entries do not matter for the reader of a structure. *)
Definition kept {A} (f : serializer A) (ok fresh : A -> Prop) (names : list (list Z)) : Prop :=
  (NoDup names /\ size_ok names) /\ exists entries, fields f ok fresh names entries.

Lemma kept_size {A} (f : serializer A) ok fresh names entries v :
  fields f ok fresh names entries -> size_ok names -> ok v -> size_ok (entries v).
Proof.
  intros Hf Hs Hv. destruct (f_entries _ _ _ _ _ Hf v Hv) as [_ Hsub]. apply sublist_length in Hsub. rewrite length_fmap in Hsub.
  unfold size_ok in *. lia.
Qed.

Lemma kept_one {A} (f : serializer A) ok fresh name entries : fields f ok fresh [name] entries -> kept f ok fresh [name].
Proof. intros Hf. split; [split; [apply NoDup_singleton|done]|by eexists]. Qed.

Lemma kept_pair {A B} (f : serializer A) okA freshA namesA (g : serializer B) okB freshB namesB :
  kept f okA freshA namesA -> kept g okB freshB namesB -> NoDup (namesA ++ namesB) -> size_ok (namesA ++ namesB) ->
  kept (fun S I p => a ← f S I p.1; b ← g S I p.2; mret (a, b)) (fun p => okA p.1 /\ okB p.2) (fun p => freshA p.1 /\ freshB p.2)
    (namesA ++ namesB).
Proof.
  intros (_ & ea & Ha) (_ & eb & Hb) Hn Hs. split; [done|]. eexists. apply fields_pair; [exact Ha|exact Hb|].
  intros n Hna Hnb. apply NoDup_app in Hn as (_ & Hd & _). by apply (Hd n).
Qed.

Lemma kept_copy {A B} (to : A -> B) (from fromI : B -> A) (f : serializer A) (g : serializer B) ok fresh (okB freshB : B -> Prop) names :
  kept f ok fresh names -> (forall b, to (from b) = b) -> (forall b, okB b -> ok (from b)) ->
  (forall b s s', f KVOutput _ (from b) s = Some (from b, s') -> g KVOutput _ b s = Some (b, s')) ->
  (forall b s, freshB b -> fresh (fromI b) /\ g KVInput _ b s = (a ← f KVInput _ (fromI b); mret (to a)) s) ->
  kept g okB freshB names.
Proof.
  intros (Hn & es & Hf) Hto Hok Ho Hi. split; [done|]. eexists.
  eapply fields_weaken; [by eapply (fields_split to from fromI)|exact Hok|done].
Qed.

Lemma kept_split {A B} (to : A -> B) (from fromI : B -> A) (f : serializer A) (g : serializer B) ok fresh (okB freshB : B -> Prop) names :
  kept f ok fresh names -> (forall b, to (from b) = b) -> (forall b, okB b -> ok (from b)) ->
  (forall b s, g KVOutput _ b s = (a ← f KVOutput _ (from b); mret (to a)) s) ->
  (forall b s, freshB b -> fresh (fromI b) /\ g KVInput _ b s = (a ← f KVInput _ (fromI b); mret (to a)) s) ->
  kept g okB freshB names.
Proof.
  intros Hf Hto Hok Ho Hi. eapply (kept_copy to from fromI); [exact Hf|exact Hto|exact Hok| |exact Hi].
  intros b s s' E. rewrite Ho. erewrite ser_run by exact E. unfold mret, ser_ret. by rewrite Hto.
Qed.

Lemma kept_object {A} (f : serializer A) ok fresh names name : name_ok name -> kept f ok fresh names ->
  kept (fun S I v => member (serialize_object (f S I) v name)) ok fresh [name].
Proof.
  intros Hname ([Hn Hs] & es & Hf). eapply kept_one, fields_weaken; [by eapply (fields_object f ok fresh names es)| |done].
  intros v Hv. split; [done|by eapply kept_size].
Qed.

Lemma kept_objects {A} (f : serializer A) (ok fresh : A -> Prop) names (new : A) name :
  name_ok name -> kept f ok fresh names -> fresh new ->
  kept (fun S I v => member (serializeContainer new (fun x => member (serialize_object (f S I) x [])) v name))
    (fun l => Forall ok l /\ size_ok l) (fun l0 => l0 = []) [name].
Proof.
  intros Hname ([Hn Hs] & es & Hf) Hnew. eapply kept_one, fields_weaken.
  - apply (fields_container (fun S I x => member (serialize_object (f S I) x [])) _ _ _ _ (items_object f ok fresh names es Hf Hn));
      [right; left|exact Hnew|exact Hname].
  - intros l [Hl Hsl]. split; [|done]. eapply Forall_impl; [exact Hl|]. intros v Hv. split; [done|by eapply kept_size].
  - done.
Qed.

Lemma kept_strings name : name_ok name ->
  kept (fun S I v => member (serializeContainer [] (fun x => member (serialize_string x [])) v name))
    (fun l : list (list Z) => Forall size_ok l /\ size_ok l) (fun l0 => l0 = []) [name].
Proof.
  intros Hname. eapply kept_one, (fields_container (fun S I x => member (serialize_string x [])) _ _ _ _ items_string); [left|done|done].
Qed.
