(* ===== verification/Messages.v ===== *)
(** * Messages between nodes

    The structures of src/src/p2p/p2p_protocol_definitions.h and
    src/src/cryptonote_protocol/cryptonote_protocol_definitions.h with their
    [serialize] functions, written once for both serializers as in the code, and
    [encode] and [decode] of src/src/p2p/levin_protocol.h with the frames of
    levin_protocol.cpp around them, the queue of messages of a connection in
    net_node.cpp, and the choice of the structure by the command in [handleCommand] of
    src/src/cryptonote_protocol/cryptonote_protocol_handler.cpp. *)

From Stdlib Require Import String.
From S2P Require Import Prelude Bytes StringTools Types KvBinary.
#[local] Open Scope list_scope.
#[local] Open Scope Z_scope.

(** ** p2p_protocol_types.h *)

Record NetworkAddress := mkNetworkAddress {
  ip : Z;
  port : Z }.

Record PeerlistEntry := mkPeerlistEntry {
  adr : NetworkAddress;
  id : Z;
  last_seen : Z }.

(** The structure in memory, 24 bytes without padding. *)
Definition peer_bytes (p : PeerlistEntry) : list Z :=
  le_split 4 (ip (adr p)) ++ le_split 4 (port (adr p)) ++ le_split 8 (id p) ++ le_split 8 (last_seen p).

Definition peer_of_bytes (b : list Z) : PeerlistEntry :=
  mkPeerlistEntry (mkNetworkAddress (le_combine (take 4 b)) (le_combine (take 4 (drop 4 b))))
    (le_combine (take 8 (drop 8 b))) (le_combine (take 8 (drop 16 b))).

(** ** Structures *)

Record basic_node_data := mkBasicNodeData {
  network_id : list Z;
  version : Z;
  local_time : Z;
  my_port : Z;
  peer_id : Z }.

Record CORE_SYNC_DATA := mkCoreSyncData {
  current_height : Z;
  top_id : Hash }.

Record handshake_request := mkHandshakeRequest {
  request_node_data : basic_node_data;
  request_payload_data : CORE_SYNC_DATA }.

Record handshake_response := mkHandshakeResponse {
  response_node_data : basic_node_data;
  response_payload_data : CORE_SYNC_DATA;
  response_local_peerlist : list PeerlistEntry }.

Record timed_sync_request := mkTimedSyncRequest {
  sync_payload_data : CORE_SYNC_DATA }.

Record timed_sync_response := mkTimedSyncResponse {
  sync_local_time : Z;
  sync_response_payload_data : CORE_SYNC_DATA;
  sync_local_peerlist : list PeerlistEntry }.

Record ping_response := mkPingResponse {
  status : list Z;
  ping_peer_id : Z }.

Record RawBlockLegacy := mkRawBlockLegacy {
  blockTemplate : list Z;
  transactions : list (list Z) }.

Record NOTIFY_NEW_BLOCK_request := mkNewBlock {
  new_block : RawBlockLegacy;
  new_block_height : Z;
  hop : Z }.

Record NOTIFY_NEW_TRANSACTIONS_request := mkNewTransactions {
  new_txs : list (list Z) }.

Record NOTIFY_REQUEST_GET_OBJECTS_request := mkRequestGetObjects {
  request_txs : list Hash;
  request_blocks : list Hash }.

Record NOTIFY_RESPONSE_GET_OBJECTS_request := mkResponseGetObjects {
  response_txs : list (list Z);
  response_blocks : list RawBlockLegacy;
  missed_ids : list Hash;
  response_height : Z }.

Record NOTIFY_REQUEST_CHAIN_request := mkRequestChain {
  block_ids : list Hash }.

Record NOTIFY_RESPONSE_CHAIN_ENTRY_request := mkResponseChainEntry {
  start_height : Z;
  total_height : Z;
  m_block_ids : list Hash }.

Record NOTIFY_REQUEST_TX_POOL_request := mkRequestTxPool {
  pool_txs : list Hash }.

Record NOTIFY_NEW_LITE_BLOCK_request := mkNewLiteBlock {
  lite_blockTemplate : list Z;
  lite_height : Z;
  lite_hop : Z }.

Record NOTIFY_MISSING_TXS_request := mkMissingTxs {
  missing_blockHash : Hash;
  missing_height : Z;
  missing_txs : list Hash }.

(** ** serialize *)

Section Serialize.
Context {S : Type} `{ISerializer S}.

Definition number (k : Number) (v : Z) (name : string) : ser S Z := member (serialize_number k v (str name)).
Definition text (v : list Z) (name : string) : ser S (list Z) := member (serialize_string v (str name)).
(** A plain structure, [serializePod]. *)
Definition pod (v : list Z) (name : string) : ser S (list Z) := member (binary v (str name)).
Definition object {A} (serialize : A -> ser S A) (v : A) (name : string) : ser S A :=
  member (serialize_object serialize v (str name)).
Definition texts (v : list (list Z)) (name : string) : ser S (list (list Z)) :=
  member (serializeContainer [] (fun s => member (serialize_string s [])) v (str name)).
Definition peers (v : list PeerlistEntry) (name : string) : ser S (list PeerlistEntry) :=
  l ← serializeAsBinary_list 24 (peer_bytes <$> v) (str name);
  mret (peer_of_bytes <$> l).
Definition hashes (v : list Hash) (name : string) : ser S (list Hash) := serializeAsBinary 32 v (str name).

Definition serialize_basic_node_data (d : basic_node_data) : ser S basic_node_data :=
  network_id' ← pod (network_id d) "network_id";
  let version0 := match type with INPUT => 0 | OUTPUT => version d end in
  version' ← number Uint8 version0 "version";
  peer_id' ← number Uint64 (peer_id d) "peer_id";
  local_time' ← number Uint64 (local_time d) "local_time";
  my_port' ← number Uint32 (my_port d) "my_port";
  mret (mkBasicNodeData network_id' version' local_time' my_port' peer_id').

Definition serialize_CORE_SYNC_DATA (d : CORE_SYNC_DATA) : ser S CORE_SYNC_DATA :=
  current_height' ← number Uint32 (current_height d) "current_height";
  top_id' ← pod (top_id d) "top_id";
  mret (mkCoreSyncData current_height' top_id').

Definition serialize_handshake_request (r : handshake_request) : ser S handshake_request :=
  node_data ← object serialize_basic_node_data (request_node_data r) "node_data";
  payload_data ← object serialize_CORE_SYNC_DATA (request_payload_data r) "payload_data";
  mret (mkHandshakeRequest node_data payload_data).

Definition serialize_handshake_response (r : handshake_response) : ser S handshake_response :=
  node_data ← object serialize_basic_node_data (response_node_data r) "node_data";
  payload_data ← object serialize_CORE_SYNC_DATA (response_payload_data r) "payload_data";
  local_peerlist ← peers (response_local_peerlist r) "local_peerlist";
  mret (mkHandshakeResponse node_data payload_data local_peerlist).

Definition serialize_timed_sync_request (r : timed_sync_request) : ser S timed_sync_request :=
  payload_data ← object serialize_CORE_SYNC_DATA (sync_payload_data r) "payload_data";
  mret (mkTimedSyncRequest payload_data).

Definition serialize_timed_sync_response (r : timed_sync_response) : ser S timed_sync_response :=
  local_time' ← number Uint64 (sync_local_time r) "local_time";
  payload_data ← object serialize_CORE_SYNC_DATA (sync_response_payload_data r) "payload_data";
  local_peerlist ← peers (sync_local_peerlist r) "local_peerlist";
  mret (mkTimedSyncResponse local_time' payload_data local_peerlist).

(** [COMMAND_PING::request] has no members. *)
Definition serialize_ping_request (r : unit) : ser S unit := mret r.

Definition serialize_ping_response (r : ping_response) : ser S ping_response :=
  status' ← text (status r) "status";
  peer_id' ← number Uint64 (ping_peer_id r) "peer_id";
  mret (mkPingResponse status' peer_id').

(** What is read is added to what the block has. *)
Definition serialize_RawBlockLegacy (rawBlock : RawBlockLegacy) : ser S RawBlockLegacy :=
  match type with
  | INPUT =>
      block ← text [] "block";
      txs ← texts [] "txs";
      mret (mkRawBlockLegacy (blockTemplate rawBlock ++ block) (transactions rawBlock ++ txs))
  | OUTPUT =>
      _ ← text (blockTemplate rawBlock) "block";
      _ ← texts (transactions rawBlock) "txs";
      mret rawBlock
  end.

Definition serialize_NOTIFY_NEW_BLOCK (r : NOTIFY_NEW_BLOCK_request) : ser S NOTIFY_NEW_BLOCK_request :=
  b ← object serialize_RawBlockLegacy (new_block r) "b";
  height ← number Uint32 (new_block_height r) "current_blockchain_height";
  hop' ← number Uint32 (hop r) "hop";
  mret (mkNewBlock b height hop').

Definition serialize_NOTIFY_NEW_TRANSACTIONS (r : NOTIFY_NEW_TRANSACTIONS_request) : ser S NOTIFY_NEW_TRANSACTIONS_request :=
  match type with
  | INPUT => txs ← texts [] "txs"; mret (mkNewTransactions (new_txs r ++ txs))
  | OUTPUT => _ ← texts (new_txs r) "txs"; mret r
  end.

Definition serialize_NOTIFY_REQUEST_GET_OBJECTS (r : NOTIFY_REQUEST_GET_OBJECTS_request) : ser S NOTIFY_REQUEST_GET_OBJECTS_request :=
  txs ← hashes (request_txs r) "txs";
  blocks ← hashes (request_blocks r) "blocks";
  mret (mkRequestGetObjects txs blocks).

Definition serialize_NOTIFY_RESPONSE_GET_OBJECTS (r : NOTIFY_RESPONSE_GET_OBJECTS_request)
    : ser S NOTIFY_RESPONSE_GET_OBJECTS_request :=
  txs ← texts (response_txs r) "txs";
  blocks ← member (serializeContainer (mkRawBlockLegacy [] []) (fun b => member (serialize_object serialize_RawBlockLegacy b []))
                     (response_blocks r) (str "blocks"));
  missed ← hashes (missed_ids r) "missed_ids";
  height ← number Uint32 (response_height r) "current_blockchain_height";
  mret (mkResponseGetObjects txs blocks missed height).

Definition serialize_NOTIFY_REQUEST_CHAIN (r : NOTIFY_REQUEST_CHAIN_request) : ser S NOTIFY_REQUEST_CHAIN_request :=
  ids ← hashes (block_ids r) "block_ids";
  mret (mkRequestChain ids).

Definition serialize_NOTIFY_RESPONSE_CHAIN_ENTRY (r : NOTIFY_RESPONSE_CHAIN_ENTRY_request)
    : ser S NOTIFY_RESPONSE_CHAIN_ENTRY_request :=
  start ← number Uint32 (start_height r) "start_height";
  total ← number Uint32 (total_height r) "total_height";
  ids ← hashes (m_block_ids r) "m_block_ids";
  mret (mkResponseChainEntry start total ids).

Definition serialize_NOTIFY_REQUEST_TX_POOL (r : NOTIFY_REQUEST_TX_POOL_request) : ser S NOTIFY_REQUEST_TX_POOL_request :=
  txs ← hashes (pool_txs r) "txs";
  mret (mkRequestTxPool txs).

Definition serialize_NOTIFY_NEW_LITE_BLOCK (r : NOTIFY_NEW_LITE_BLOCK_request) : ser S NOTIFY_NEW_LITE_BLOCK_request :=
  height ← number Uint32 (lite_height r) "current_blockchain_height";
  hop' ← number Uint32 (lite_hop r) "hop";
  match type with
  | INPUT => block ← text [] "blockTemplate"; mret (mkNewLiteBlock (lite_blockTemplate r ++ block) height hop')
  | OUTPUT => _ ← text (lite_blockTemplate r) "blockTemplate"; mret (mkNewLiteBlock (lite_blockTemplate r) height hop')
  end.

Definition serialize_NOTIFY_MISSING_TXS (r : NOTIFY_MISSING_TXS_request) : ser S NOTIFY_MISSING_TXS_request :=
  height ← number Uint32 (missing_height r) "current_blockchain_height";
  blockHash ← pod (missing_blockHash r) "blockHash";
  txs ← hashes (missing_txs r) "missing_txs";
  mret (mkMissingTxs blockHash height txs).

End Serialize.

(** ** LevinProtocol::encode and decode *)

Definition encode {A} (serialize : A -> ser KVOutput A) (value : A) : option (list Z) :=
  o ← KVOutput_new;
  '(_, o) ← serialize value o;
  dump o.

(** [None] is the answer false; [value] is what the message is read into. *)
Definition decode {A} (serialize : A -> ser KVInput A) (buf : list Z) (value : A) : option A :=
  i ← KVInput_new buf;
  '(value, _) ← serialize value i;
  Some value.

(** ** levin_protocol.cpp *)

Definition LEVIN_SIGNATURE : Z := 0x0101010101012101.
Definition LEVIN_PACKET_REQUEST : Z := 1.
Definition LEVIN_PACKET_RESPONSE : Z := 2.
Definition LEVIN_DEFAULT_MAX_PACKET_SIZE : Z := 100000000.
Definition LEVIN_PROTOCOL_VER_1 : Z := 1.

Record bucket_head2 := mkBucketHead2 {
  m_signature : Z;
  m_cb : Z;
  m_have_to_return_data : bool;
  m_command : Z;
  m_return_code : Z;
  m_flags : Z;
  m_protocol_version : Z }.

(** The packed structure, 33 bytes. *)
Definition head_bytes (h : bucket_head2) : list Z :=
  le_split 8 (m_signature h) ++ le_split 8 (m_cb h) ++ [if m_have_to_return_data h then 1 else 0] ++ le_split 4 (m_command h) ++
  le_split 4 (m_return_code h) ++ le_split 4 (m_flags h) ++ le_split 4 (m_protocol_version h).

Definition head_size : nat := 33.

Definition head_of_bytes (b : list Z) : bucket_head2 :=
  mkBucketHead2 (le_combine (take 8 b)) (le_combine (take 8 (drop 8 b))) (bool_decide (take 1 (drop 16 b) <> [0]))
    (le_combine (take 4 (drop 17 b))) (swrap 32 (le_combine (take 4 (drop 21 b)))) (le_combine (take 4 (drop 25 b)))
    (le_combine (take 4 (drop 29 b))).

Record Command := mkCommand {
  command : Z;
  isNotify : bool;
  isResponse : bool;
  buf : list Z }.

Definition needReply (c : Command) : bool := negb (isNotify c || isResponse c).

(** What is written to the connection. *)
Definition sendMessage (command : Z) (out : list Z) (needResponse : bool) : list Z :=
  head_bytes (mkBucketHead2 LEVIN_SIGNATURE (Z.of_nat (length out)) needResponse command 0 LEVIN_PACKET_REQUEST LEVIN_PROTOCOL_VER_1)
    ++ out.

Definition sendReply (command : Z) (out : list Z) (returnCode : Z) : list Z :=
  head_bytes (mkBucketHead2 LEVIN_SIGNATURE (Z.of_nat (length out)) false command returnCode LEVIN_PACKET_RESPONSE
    LEVIN_PROTOCOL_VER_1) ++ out.

(** A connection is the pieces in which its bytes arrive; [TcpConnection::read] gives
    what is there of the first piece, up to the size asked for, and nothing at the end. *)
Definition conn_read (size : nat) (conn : list (list Z)) : list Z * list (list Z) :=
  match conn with
  | [] => ([], [])
  | piece :: rest =>
      (take size piece, if (length piece <=? size)%nat then rest else drop size piece :: rest)
  end.

(** The loop reads at least one byte in each round. *)
Fixpoint readStrict (fuel size : nat) (conn : list (list Z)) : option (list Z * list (list Z)) :=
  match size, fuel with
  | O, _ => Some ([], conn)
  | _, O => None
  | _, S fuel =>
      let '(data, conn) := conn_read size conn in
      match data with
      | [] => None
      | _ =>
          '(rest, conn) ← readStrict fuel (size - length data) conn;
          Some (data ++ rest, conn)
      end
  end.

(** An exception, or false when the connection ends, or the command. *)
Inductive ReadResult := Throws | Ended | Read (c : Command) (conn : list (list Z)).

Definition readCommand (conn : list (list Z)) : ReadResult :=
  match readStrict head_size head_size conn with
  | None => Ended
  | Some (bytes, conn) =>
      let head := head_of_bytes bytes in
      if negb (m_signature head =? LEVIN_SIGNATURE) then Throws
      else if LEVIN_DEFAULT_MAX_PACKET_SIZE <? m_cb head then Throws
      else
        match (if negb (m_cb head =? 0) then readStrict (Z.to_nat (m_cb head)) (Z.to_nat (m_cb head)) conn else Some ([], conn)) with
        | None => Ended
        | Some (buf, conn) =>
            Read (mkCommand (m_command head) (negb (m_have_to_return_data head))
                    (Z.land (m_flags head) LEVIN_PACKET_RESPONSE =? LEVIN_PACKET_RESPONSE) buf) conn
        end
  end.

(** ** Notifications of cryptonote_protocol_definitions.h *)

Definition BC_COMMANDS_POOL_BASE : Z := 2000.

Inductive Notification :=
  | NOTIFY_NEW_BLOCK (r : NOTIFY_NEW_BLOCK_request)
  | NOTIFY_NEW_TRANSACTIONS (r : NOTIFY_NEW_TRANSACTIONS_request)
  | NOTIFY_REQUEST_GET_OBJECTS (r : NOTIFY_REQUEST_GET_OBJECTS_request)
  | NOTIFY_RESPONSE_GET_OBJECTS (r : NOTIFY_RESPONSE_GET_OBJECTS_request)
  | NOTIFY_REQUEST_CHAIN (r : NOTIFY_REQUEST_CHAIN_request)
  | NOTIFY_RESPONSE_CHAIN_ENTRY (r : NOTIFY_RESPONSE_CHAIN_ENTRY_request)
  | NOTIFY_REQUEST_TX_POOL (r : NOTIFY_REQUEST_TX_POOL_request)
  | NOTIFY_NEW_LITE_BLOCK (r : NOTIFY_NEW_LITE_BLOCK_request)
  | NOTIFY_MISSING_TXS (r : NOTIFY_MISSING_TXS_request).

Definition ID (n : Notification) : Z :=
  BC_COMMANDS_POOL_BASE +
  match n with
  | NOTIFY_NEW_BLOCK _ => 1
  | NOTIFY_NEW_TRANSACTIONS _ => 2
  | NOTIFY_REQUEST_GET_OBJECTS _ => 3
  | NOTIFY_RESPONSE_GET_OBJECTS _ => 4
  | NOTIFY_REQUEST_CHAIN _ => 6
  | NOTIFY_RESPONSE_CHAIN_ENTRY _ => 7
  | NOTIFY_REQUEST_TX_POOL _ => 8
  | NOTIFY_NEW_LITE_BLOCK _ => 9
  | NOTIFY_MISSING_TXS _ => 10
  end.

Definition encode_notification (n : Notification) : option (list Z) :=
  match n with
  | NOTIFY_NEW_BLOCK r => encode serialize_NOTIFY_NEW_BLOCK r
  | NOTIFY_NEW_TRANSACTIONS r => encode serialize_NOTIFY_NEW_TRANSACTIONS r
  | NOTIFY_REQUEST_GET_OBJECTS r => encode serialize_NOTIFY_REQUEST_GET_OBJECTS r
  | NOTIFY_RESPONSE_GET_OBJECTS r => encode serialize_NOTIFY_RESPONSE_GET_OBJECTS r
  | NOTIFY_REQUEST_CHAIN r => encode serialize_NOTIFY_REQUEST_CHAIN r
  | NOTIFY_RESPONSE_CHAIN_ENTRY r => encode serialize_NOTIFY_RESPONSE_CHAIN_ENTRY r
  | NOTIFY_REQUEST_TX_POOL r => encode serialize_NOTIFY_REQUEST_TX_POOL r
  | NOTIFY_NEW_LITE_BLOCK r => encode serialize_NOTIFY_NEW_LITE_BLOCK r
  | NOTIFY_MISSING_TXS r => encode serialize_NOTIFY_MISSING_TXS r
  end.

(** [notifyAdaptor] reads into a value-initialised request; an exception is [None]. *)
Definition notifyAdaptor {A} (serialize : A -> ser KVInput A) (make : A -> Notification) (initial : A) (reqBuf : list Z)
    : option Notification := make <$> decode serialize reqBuf initial.

Definition null_hash : Hash := repeat 0 32.

(** The request [handleCommand] hands to a handler: [None] when it throws, and nothing
    when [handled] is false. *)
Definition receive (command : Z) (reqBuf : list Z) : option (option Notification) :=
  match command - BC_COMMANDS_POOL_BASE with
  | 1 => Some <$> notifyAdaptor serialize_NOTIFY_NEW_BLOCK NOTIFY_NEW_BLOCK (mkNewBlock (mkRawBlockLegacy [] []) 0 0) reqBuf
  | 2 => Some <$> notifyAdaptor serialize_NOTIFY_NEW_TRANSACTIONS NOTIFY_NEW_TRANSACTIONS (mkNewTransactions []) reqBuf
  | 3 => Some <$> notifyAdaptor serialize_NOTIFY_REQUEST_GET_OBJECTS NOTIFY_REQUEST_GET_OBJECTS (mkRequestGetObjects [] []) reqBuf
  | 4 => Some <$> notifyAdaptor serialize_NOTIFY_RESPONSE_GET_OBJECTS NOTIFY_RESPONSE_GET_OBJECTS (mkResponseGetObjects [] [] [] 0) reqBuf
  | 6 => Some <$> notifyAdaptor serialize_NOTIFY_REQUEST_CHAIN NOTIFY_REQUEST_CHAIN (mkRequestChain []) reqBuf
  | 7 => Some <$> notifyAdaptor serialize_NOTIFY_RESPONSE_CHAIN_ENTRY NOTIFY_RESPONSE_CHAIN_ENTRY (mkResponseChainEntry 0 0 []) reqBuf
  | 8 => Some <$> notifyAdaptor serialize_NOTIFY_REQUEST_TX_POOL NOTIFY_REQUEST_TX_POOL (mkRequestTxPool []) reqBuf
  | 9 => Some <$> notifyAdaptor serialize_NOTIFY_NEW_LITE_BLOCK NOTIFY_NEW_LITE_BLOCK (mkNewLiteBlock [] 0 0) reqBuf
  | 10 => Some <$> notifyAdaptor serialize_NOTIFY_MISSING_TXS NOTIFY_MISSING_TXS (mkMissingTxs null_hash 0 []) reqBuf
  | _ => Some None
  end.

(** ** The messages of a connection, net_node.h and net_node.cpp *)

Inductive MessageType := COMMAND | REPLY | NOTIFY.
#[global] Instance MessageType_eq_dec : EqDecision MessageType.
Proof. solve_decision. Defined.

Record P2pMessage := mkP2pMessage {
  message_type : MessageType;
  message_command : Z;
  message_buffer : list Z;
  message_returnCode : Z }.

Definition P2P_CONNECTION_MAX_WRITE_BUFFER_SIZE : Z := 32 * 1024 * 1024.

Record WriteQueue := mkWriteQueue {
  writeQueue : list P2pMessage;
  writeQueueSize : Z;
  stopped : bool }.

Definition new_queue : WriteQueue := mkWriteQueue [] 0 false.

(** The size of a refused message stays counted, and the connection is interrupted. *)
Definition pushMessage (msg : P2pMessage) (q : WriteQueue) : bool * WriteQueue :=
  let size := u64 (writeQueueSize q + Z.of_nat (length (message_buffer msg))) in
  if P2P_CONNECTION_MAX_WRITE_BUFFER_SIZE <? size then (false, mkWriteQueue (writeQueue q) size true)
  else (true, mkWriteQueue (writeQueue q ++ [msg]) size (stopped q)).

(** Once there is something to write, or the connection is stopped. *)
Definition popBuffer (q : WriteQueue) : list P2pMessage * WriteQueue := (writeQueue q, mkWriteQueue [] 0 (stopped q)).

(** A message in the loop of [writeHandler]. *)
Definition write_message (msg : P2pMessage) : list Z :=
  match message_type msg with
  | COMMAND => sendMessage (message_command msg) (message_buffer msg) true
  | NOTIFY => sendMessage (message_command msg) (message_buffer msg) false
  | REPLY => sendReply (message_command msg) (message_buffer msg) (message_returnCode msg)
  end.

(** To the connection found in [m_connections]; a message the queue refuses is not reported. *)
Definition invoke_notify_to_peer (command : Z) (buffer : list Z) (q : option WriteQueue) : bool * option WriteQueue :=
  match q with
  | None => (false, None)
  | Some q => (true, Some (pushMessage (mkP2pMessage NOTIFY command buffer 0) q).2)
  end.

Definition post_notify (n : Notification) (q : option WriteQueue) : option (bool * option WriteQueue) :=
  buffer ← encode_notification n;
  Some (invoke_notify_to_peer (ID n) buffer q).

(** Notifications one after the other. *)
Fixpoint post_notifies (ns : list Notification) (q : option WriteQueue) : option (option WriteQueue) :=
  match ns with
  | [] => Some q
  | n :: ns => '(_, q) ← post_notify n q; post_notifies ns q
  end.

(** The commands the loop of [connectionHandler] reads, up to the end of the
    connection or an exception; each takes a frame of the connection. *)
Fixpoint readCommands (fuel : nat) (conn : list (list Z)) : list Command :=
  match fuel with
  | O => []
  | S fuel => match readCommand conn with Read c conn => c :: readCommands fuel conn | _ => [] end
  end.
