(* ===== verification/MessageTheorems.v ===== *)
(** * What messages keep

    Messages of Messages.v are read back as they were sent, through the key-value
    format, the frames, and pieces of any size on the connection. *)

From Stdlib Require Import String.
From S2P Require Import Prelude Bytes StringTools Types Parser KvBinary KvFacts Messages.
#[local] Open Scope list_scope.
#[local] Open Scope Z_scope.

(** ** encode and decode *)

Lemma header_back tl : parseBinary
  (le_split 4 PORTABLE_STORAGE_SIGNATUREA ++ le_split 4 PORTABLE_STORAGE_SIGNATUREB ++ [PORTABLE_STORAGE_FORMAT_VER] ++ tl) =
  running (loadSection (loadEntry loadValue)) tl.
Proof.
  unfold parseBinary. read_back (read_bytes_codec 4 ltac:(lia)); [|by split; [|apply le_split_ok]].
  read_back (read_bytes_codec 4 ltac:(lia)); [|by split; [|apply le_split_ok]]. erewrite pbind_run by reflexivity. reflexivity.
Qed.

Lemma message_decode {A} (f : serializer A) ok fresh names v v0 :
  kept f ok fresh names -> ok v -> fresh v0 ->
  exists buf, encode (f KVOutput _) v = Some buf /\ decode (f KVInput _) buf v0 = Some v.
Proof.
  intros ([Hnd Hsz] & entries & Hf) Hv H0. destruct (f_entries _ _ _ _ _ Hf v Hv) as [Hok Hsub].
  pose proof (kept_size _ _ _ _ _ _ Hf Hsz Hv) as Hs.
  exists (le_split 4 PORTABLE_STORAGE_SIGNATUREA ++ le_split 4 PORTABLE_STORAGE_SIGNATUREB ++ [PORTABLE_STORAGE_FORMAT_VER] ++
    enc_size (entries v) ++ concat (enc_entry <$> entries v)). split.
  - unfold encode. change KVOutput_new with (Some (mkKVOutput [mkLevel Object [] 0] [[]])). cbn [mbind option_bind].
    rewrite (f_out _ _ _ _ _ Hf v [] 0 [] [] []) by (done || unfold size_ok in Hs; lia). unfold dump. cbn [m_stack last].
    cbn [mbind option_bind m_stack last count]. rewrite Z.add_0_l, (size_enc _ Hs). reflexivity.
  - unfold decode, KVInput_new. rewrite header_back. unfold running. rewrite <- (app_nil_r (concat _)).
    rewrite loadSection_back by (done || (by apply size_enc) || (eapply sublist_NoDup; [exact Hnd|done])).
    cbn [to_option mbind option_bind]. by rewrite (f_in _ _ _ _ _ Hf v v0 (members (entries v)) [] [] Hv H0).
Qed.

(** ** The structures *)

(** Both sides run the same calls. *)
#[local] Ltac ser_eq :=
  unfold number, text, pod, object, texts, hashes, peers, mbind, ser_bind, mret, ser_ret;
  cbn beta iota delta [fst snd type KVBinaryOutputStreamSerializer KVBinaryInputStreamSerializer];
  repeat (match goal with |- context [match ?p with Some _ => _ | None => _ end] => destruct p as [[? ?]|] end;
    cbn beta iota delta [fst snd]); try done.

#[local] Ltac apart := apply (bool_decide_unpack _); vm_compute; exact I.

(** Values of the types of the members. *)
Definition hash_ok (h : list Z) : Prop := length h = 32%nat.
Definition node_data_ok (d : basic_node_data) : Prop :=
  length (network_id d) = 16%nat /\ fits 8 (version d) /\ fits 64 (peer_id d) /\ fits 64 (local_time d) /\ fits 32 (my_port d).
Definition sync_data_ok (d : CORE_SYNC_DATA) : Prop := fits 32 (current_height d) /\ hash_ok (top_id d).
Definition peer_ok (p : PeerlistEntry) : Prop :=
  fits 32 (ip (adr p)) /\ fits 32 (port (adr p)) /\ fits 64 (id p) /\ fits 64 (last_seen p).

Lemma fits_number k v : number_signed k = false -> fits (8 * Z.of_nat (number_bytes k)) v -> number_ok k v.
Proof. intros Hs Hv. unfold number_ok, number_cast. rewrite Hs. by apply wrap_small. Qed.


Lemma named (s : string) : ((0 <? length (str s)) && (length (str s) <=? 255))%nat = true -> name_ok (str s).
Proof. intros [H1%Nat.ltb_lt H2%Nat.leb_le]%andb_true_iff. split; [intros E; rewrite E in H1; cbn in H1|]; lia. Qed.

Lemma kept_number k name : name_ok name -> number_signed k = false ->
  kept (fun S _ v => member (serialize_number k v name)) (fits (8 * Z.of_nat (number_bytes k))) (fun _ => True) [name].
Proof.
  intros Hn Hs. eapply kept_one, fields_weaken; [by apply (fields_number k)| |done]. intros v. by apply fits_number.
Qed.

Lemma kept_pod n name : name_ok name -> (0 < n)%nat -> Z.of_nat n < 2 ^ 62 ->
  kept (fun S _ v => member (binary v name)) (fun v => length v = n) (fun v => length v = n) [name].
Proof.
  intros Hn Hpos Hlt. eapply kept_one, fields_weaken; [by apply (fields_binary n)| |done]. intros v <-. by split.
Qed.

Lemma kept_text name : name_ok name -> kept (fun S _ v => member (serialize_string v name)) size_ok (fun _ => True) [name].
Proof. intros Hn. by eapply kept_one, fields_string. Qed.

(** Lists that fit into a message. *)
Definition hashes_ok (l : list Hash) : Prop := Forall hash_ok l /\ size_ok (concat l).

Lemma kept_hashes name : name_ok name -> kept (fun S _ v => serializeAsBinary 32 v name) hashes_ok (fun _ => True) [name].
Proof. intros Hn. eapply kept_one, (fields_vector 32); [done|lia]. Qed.

Definition peer_entries_ok (l : list PeerlistEntry) : Prop := Forall peer_ok l /\ size_ok (concat (peer_bytes <$> l)).

Lemma le_back n z : fits (8 * Z.of_nat n) z -> le_combine (le_split n z) = z.
Proof. intros Hz. rewrite le_combine_bytes. apply Z.mod_small. unfold fits in Hz. by rewrite Z.pow_mul_r in Hz by lia. Qed.

Lemma peer_back p : peer_ok p -> peer_of_bytes (peer_bytes p) = p.
Proof.
  intros (H1 & H2 & H3 & H4). destruct p as [[i po] d ls]. cbn [ip port adr id last_seen] in *. unfold peer_of_bytes, peer_bytes.
  cbn [ip port adr id last_seen].
  f_equal; [f_equal; [exact (le_back 4%nat i H1)|exact (le_back 4%nat po H2)]|exact (le_back 8%nat d H3)|exact (le_back 8%nat ls H4)].
Qed.

Lemma kept_peers name : name_ok name ->
  kept (fun S _ v => l ← serializeAsBinary_list 24 (peer_bytes <$> v) name; mret (peer_of_bytes <$> l)) peer_entries_ok (fun l => l = []) [name].
Proof.
  intros Hn. pose proof (fields_list 24 name Hn ltac:(lia)) as Hf.
  assert (forall v, peer_entries_ok v -> blob_ok 24 (peer_bytes <$> v) /\ peer_of_bytes <$> (peer_bytes <$> v) = v) as Hv.
  { intros v [Hp Hs]. split; [split; [apply Forall_fmap, Forall_forall; by intros p _|done]|].
    rewrite <- list_fmap_compose. etrans; [|apply list_fmap_id]. apply list_fmap_ext_ne || apply Forall_fmap_ext_1.
    eapply Forall_impl; [exact Hp|]. intros p. apply peer_back. }
  split; [split; [apply NoDup_singleton|done]|]. exists (fun v => blob_entries name (peer_bytes <$> v)). split.
  - intros v H. apply (f_entries _ _ _ _ _ Hf), Hv, H.
  - intros v nm c ls o os H Hc Hlt. destruct (Hv v H) as [H1 H2]. erewrite ser_run by (by apply (f_out _ _ _ _ _ Hf)).
    unfold mret, ser_ret. by rewrite H2.
  - intros v v0 m ch ix H -> Hm. destruct (Hv v H) as [H1 H2]. cbn [fmap list_fmap].
    erewrite ser_run by (by apply (f_in _ _ _ _ _ Hf (peer_bytes <$> v))). unfold mret, ser_ret. by rewrite H2.
Qed.

Lemma node_data_kept :
  kept (fun S _ => serialize_basic_node_data) node_data_ok (fun d => length (network_id d) = 16%nat)
    [str "network_id"; str "version"; str "peer_id"; str "local_time"; str "my_port"].
Proof.
  eapply (kept_split (fun p => mkBasicNodeData p.1 p.2.1 p.2.2.2.1 p.2.2.2.2 p.2.2.1)
      (fun d => (network_id d, (version d, (peer_id d, (local_time d, my_port d)))))
      (fun d => (network_id d, (0, (peer_id d, (local_time d, my_port d)))))).
  - eapply (kept_pair _ _ _ [_] _ _ _ [_; _; _; _] (kept_pod 16 _ (named "network_id" eq_refl) ltac:(lia) ltac:(lia))); [|apart|done].
    eapply (kept_pair _ _ _ [_] _ _ _ [_; _; _] (kept_number Uint8 _ (named "version" eq_refl) eq_refl)); [|apart|done].
    eapply (kept_pair _ _ _ [_] _ _ _ [_; _] (kept_number Uint64 _ (named "peer_id" eq_refl) eq_refl)); [|apart|done].
    eapply (kept_pair _ _ _ [_] _ _ _ [_] (kept_number Uint64 _ (named "local_time" eq_refl) eq_refl)
      (kept_number Uint32 _ (named "my_port" eq_refl) eq_refl)); [apart|done].
  - by intros [].
  - intros d (H1 & H2 & H3 & H4 & H5). by split_and!.
  - intros b s. unfold serialize_basic_node_data. ser_eq.
  - intros b s Hb. split; [by split_and!|]. unfold serialize_basic_node_data. ser_eq.
Qed.

#[local] Ltac number_field k s := apply (kept_number k (str s) (named s eq_refl) eq_refl).
#[local] Ltac hashes_field s := apply (kept_hashes (str s) (named s eq_refl)).
#[local] Ltac text_field s := apply (kept_text (str s) (named s eq_refl)).
#[local] Ltac texts_field s := apply (kept_strings (str s) (named s eq_refl)).
#[local] Ltac pod_field n s := apply (kept_pod n (str s) (named s eq_refl)); lia.

Lemma sync_data_kept :
  kept (fun S _ => serialize_CORE_SYNC_DATA) sync_data_ok (fun d => hash_ok (top_id d)) [str "current_height"; str "top_id"].
Proof.
  eapply (kept_split (fun p => mkCoreSyncData p.1 p.2) (fun d => (current_height d, top_id d)) (fun d => (current_height d, top_id d))).
  - eapply (kept_pair _ _ _ [_] _ _ _ [_]); [number_field Uint32 "current_height"%string|pod_field 32%nat "top_id"%string|apart|done].
  - by intros [].
  - intros d [H1 H2]. by split.
  - intros b s. unfold serialize_CORE_SYNC_DATA. ser_eq.
  - intros b s Hb. split; [by split|]. unfold serialize_CORE_SYNC_DATA. ser_eq.
Qed.

Definition node_fresh (d : basic_node_data) : Prop := length (network_id d) = 16%nat.
Definition sync_fresh (d : CORE_SYNC_DATA) : Prop := hash_ok (top_id d).

Lemma handshake_request_kept :
  kept (fun S _ => serialize_handshake_request) (fun r => node_data_ok (request_node_data r) /\ sync_data_ok (request_payload_data r))
    (fun r => node_fresh (request_node_data r) /\ sync_fresh (request_payload_data r)) [str "node_data"; str "payload_data"].
Proof.
  eapply (kept_split (fun p => mkHandshakeRequest p.1 p.2) (fun r => (request_node_data r, request_payload_data r))
    (fun r => (request_node_data r, request_payload_data r))).
  - eapply (kept_pair _ _ _ [_] _ _ _ [_]); [apply (kept_object _ _ _ _ (str "node_data") (named "node_data" eq_refl) node_data_kept)
      |apply (kept_object _ _ _ _ (str "payload_data") (named "payload_data" eq_refl) sync_data_kept)|apart|done].
  - by intros [].
  - done.
  - intros b s. unfold serialize_handshake_request. ser_eq.
  - intros b s Hb. split; [done|]. unfold serialize_handshake_request. ser_eq.
Qed.

Lemma handshake_response_kept :
  kept (fun S _ => serialize_handshake_response)
    (fun r => node_data_ok (response_node_data r) /\ sync_data_ok (response_payload_data r) /\ peer_entries_ok (response_local_peerlist r))
    (fun r => node_fresh (response_node_data r) /\ sync_fresh (response_payload_data r) /\ response_local_peerlist r = [])
    [str "node_data"; str "payload_data"; str "local_peerlist"].
Proof.
  eapply (kept_split (fun p => mkHandshakeResponse p.1 p.2.1 p.2.2)
    (fun r => (response_node_data r, (response_payload_data r, response_local_peerlist r)))
    (fun r => (response_node_data r, (response_payload_data r, response_local_peerlist r)))).
  - eapply (kept_pair _ _ _ [_] _ _ _ [_; _]);
      [apply (kept_object _ _ _ _ (str "node_data") (named "node_data" eq_refl) node_data_kept)| |apart|done].
    eapply (kept_pair _ _ _ [_] _ _ _ [_]); [apply (kept_object _ _ _ _ (str "payload_data") (named "payload_data" eq_refl) sync_data_kept)
      |apply (kept_peers (str "local_peerlist") (named "local_peerlist" eq_refl))|apart|done].
  - by intros [].
  - done.
  - intros b s. unfold serialize_handshake_response. ser_eq.
  - intros b s Hb. split; [done|]. unfold serialize_handshake_response. ser_eq.
Qed.

Lemma timed_sync_request_kept :
  kept (fun S _ => serialize_timed_sync_request) (fun r => sync_data_ok (sync_payload_data r)) (fun r => sync_fresh (sync_payload_data r))
    [str "payload_data"].
Proof.
  eapply (kept_split mkTimedSyncRequest sync_payload_data sync_payload_data).
  - apply (kept_object _ _ _ _ (str "payload_data") (named "payload_data" eq_refl) sync_data_kept).
  - by intros [].
  - done.
  - intros b s. unfold serialize_timed_sync_request. ser_eq.
  - intros b s Hb. split; [done|]. unfold serialize_timed_sync_request. ser_eq.
Qed.

Lemma timed_sync_response_kept :
  kept (fun S _ => serialize_timed_sync_response)
    (fun r => fits 64 (sync_local_time r) /\ sync_data_ok (sync_response_payload_data r) /\ peer_entries_ok (sync_local_peerlist r))
    (fun r => sync_fresh (sync_response_payload_data r) /\ sync_local_peerlist r = [])
    [str "local_time"; str "payload_data"; str "local_peerlist"].
Proof.
  eapply (kept_split (fun p => mkTimedSyncResponse p.1 p.2.1 p.2.2)
    (fun r => (sync_local_time r, (sync_response_payload_data r, sync_local_peerlist r)))
    (fun r => (sync_local_time r, (sync_response_payload_data r, sync_local_peerlist r)))).
  - eapply (kept_pair _ _ _ [_] _ _ _ [_; _]); [number_field Uint64 "local_time"%string| |apart|done].
    eapply (kept_pair _ _ _ [_] _ _ _ [_]); [apply (kept_object _ _ _ _ (str "payload_data") (named "payload_data" eq_refl) sync_data_kept)
      |apply (kept_peers (str "local_peerlist") (named "local_peerlist" eq_refl))|apart|done].
  - by intros [].
  - done.
  - intros b s. unfold serialize_timed_sync_response. ser_eq.
  - intros b s [H1 H2]. split; [done|]. unfold serialize_timed_sync_response. ser_eq.
Qed.

Lemma ping_request_kept : kept (fun S _ => serialize_ping_request) (fun _ => True) (fun _ => True) [].
Proof. split; [split; [constructor|done]|]. eexists. apply fields_none. Qed.

Lemma ping_response_kept :
  kept (fun S _ => serialize_ping_response) (fun r => size_ok (status r) /\ fits 64 (ping_peer_id r)) (fun _ => True)
    [str "status"; str "peer_id"].
Proof.
  eapply (kept_split (fun p => mkPingResponse p.1 p.2) (fun r => (status r, ping_peer_id r)) (fun r => (status r, ping_peer_id r))).
  - eapply (kept_pair _ _ _ [_] _ _ _ [_]); [text_field "status"%string|number_field Uint64 "peer_id"%string|apart|done].
  - by intros [].
  - done.
  - intros b s. unfold serialize_ping_response. ser_eq.
  - intros b s _. split; [done|]. unfold serialize_ping_response. ser_eq.
Qed.

(** ** Messages of the chain *)

Definition texts_ok (l : list (list Z)) : Prop := Forall size_ok l /\ size_ok l.
Definition raw_ok (b : RawBlockLegacy) : Prop := size_ok (blockTemplate b) /\ texts_ok (transactions b).

(** The calls of the one side answer, and so do those of the other. *)
#[local] Ltac ser_same :=
  unfold number, text, pod, object, texts, hashes, peers, mbind, ser_bind, mret, ser_ret;
  cbn beta iota delta [fst snd type KVBinaryOutputStreamSerializer];
  repeat (match goal with |- context [match ?p with Some _ => _ | None => _ end] =>
      lazymatch p with match _ with Some _ => _ | None => _ end => fail | _ => destruct p as [[? ?]|] end end;
    cbn beta iota delta [fst snd]); try done.

Lemma raw_kept :
  kept (fun S _ => serialize_RawBlockLegacy) raw_ok (fun b => b = mkRawBlockLegacy [] []) [str "block"; str "txs"].
Proof.
  eapply (kept_copy (fun p => mkRawBlockLegacy p.1 p.2) (fun b => (blockTemplate b, transactions b)) (fun _ => ([], []))).
  - eapply (kept_pair _ _ _ [_] _ _ _ [_]); [text_field "block"%string|texts_field "txs"%string|apart|done].
  - by intros [].
  - done.
  - intros b s s'. unfold serialize_RawBlockLegacy. ser_same. by intros [= _ _ <-].
  - intros b s ->. split; [done|]. unfold serialize_RawBlockLegacy. ser_eq.
Qed.

Lemma new_block_kept :
  kept (fun S _ => serialize_NOTIFY_NEW_BLOCK) (fun r => raw_ok (new_block r) /\ fits 32 (new_block_height r) /\ fits 32 (hop r))
    (fun r => new_block r = mkRawBlockLegacy [] []) [str "b"; str "current_blockchain_height"; str "hop"].
Proof.
  eapply (kept_split (fun p => mkNewBlock p.1 p.2.1 p.2.2) (fun r => (new_block r, (new_block_height r, hop r)))
    (fun r => (new_block r, (new_block_height r, hop r)))).
  - eapply (kept_pair _ _ _ [_] _ _ _ [_; _]); [apply (kept_object _ _ _ _ (str "b") (named "b" eq_refl) raw_kept)| |apart|done].
    eapply (kept_pair _ _ _ [_] _ _ _ [_]); [number_field Uint32 "current_blockchain_height"%string|number_field Uint32 "hop"%string|apart|done].
  - by intros [].
  - done.
  - intros b s. unfold serialize_NOTIFY_NEW_BLOCK. ser_eq.
  - intros b s Hb. split; [done|]. unfold serialize_NOTIFY_NEW_BLOCK. ser_eq.
Qed.

Lemma new_transactions_kept :
  kept (fun S _ => serialize_NOTIFY_NEW_TRANSACTIONS) (fun r => texts_ok (new_txs r)) (fun r => new_txs r = []) [str "txs"].
Proof.
  eapply (kept_copy mkNewTransactions new_txs (fun _ => [])).
  - texts_field "txs"%string.
  - by intros [].
  - done.
  - intros b s s'. unfold serialize_NOTIFY_NEW_TRANSACTIONS. ser_same. by intros [= _ <-].
  - intros [txs] s E. cbn in E. subst txs. split; [done|]. unfold serialize_NOTIFY_NEW_TRANSACTIONS. ser_eq.
Qed.

Lemma request_objects_kept :
  kept (fun S _ => serialize_NOTIFY_REQUEST_GET_OBJECTS) (fun r => hashes_ok (request_txs r) /\ hashes_ok (request_blocks r))
    (fun _ => True) [str "txs"; str "blocks"].
Proof.
  eapply (kept_split (fun p => mkRequestGetObjects p.1 p.2) (fun r => (request_txs r, request_blocks r))
    (fun r => (request_txs r, request_blocks r))).
  - eapply (kept_pair _ _ _ [_] _ _ _ [_]); [hashes_field "txs"%string|hashes_field "blocks"%string|apart|done].
  - by intros [].
  - done.
  - intros b s. unfold serialize_NOTIFY_REQUEST_GET_OBJECTS. ser_eq.
  - intros b s Hb. split; [done|]. unfold serialize_NOTIFY_REQUEST_GET_OBJECTS. ser_eq.
Qed.

Lemma response_objects_kept :
  kept (fun S _ => serialize_NOTIFY_RESPONSE_GET_OBJECTS)
    (fun r => texts_ok (response_txs r) /\ (Forall raw_ok (response_blocks r) /\ size_ok (response_blocks r)) /\
              hashes_ok (missed_ids r) /\ fits 32 (response_height r))
    (fun r => response_txs r = [] /\ response_blocks r = [])
    [str "txs"; str "blocks"; str "missed_ids"; str "current_blockchain_height"].
Proof.
  eapply (kept_split (fun p => mkResponseGetObjects p.1 p.2.1 p.2.2.1 p.2.2.2)
    (fun r => (response_txs r, (response_blocks r, (missed_ids r, response_height r))))
    (fun r => (response_txs r, (response_blocks r, (missed_ids r, response_height r))))).
  - eapply (kept_pair _ _ _ [_] _ _ _ [_; _; _]); [texts_field "txs"%string| |apart|done].
    eapply (kept_pair _ _ _ [_] _ _ _ [_; _]);
      [apply (kept_objects _ _ _ _ (mkRawBlockLegacy [] []) (str "blocks") (named "blocks" eq_refl) raw_kept eq_refl)| |apart|done].
    eapply (kept_pair _ _ _ [_] _ _ _ [_]); [hashes_field "missed_ids"%string|number_field Uint32 "current_blockchain_height"%string|apart|done].
  - by intros [].
  - done.
  - intros b s. unfold serialize_NOTIFY_RESPONSE_GET_OBJECTS. ser_eq.
  - intros b s [H1 H2]. split; [done|]. unfold serialize_NOTIFY_RESPONSE_GET_OBJECTS. ser_eq.
Qed.

Lemma request_chain_kept :
  kept (fun S _ => serialize_NOTIFY_REQUEST_CHAIN) (fun r => hashes_ok (block_ids r)) (fun _ => True) [str "block_ids"].
Proof.
  eapply (kept_split mkRequestChain block_ids block_ids).
  - hashes_field "block_ids"%string.
  - by intros [].
  - done.
  - intros b s. unfold serialize_NOTIFY_REQUEST_CHAIN. ser_eq.
  - intros b s Hb. split; [done|]. unfold serialize_NOTIFY_REQUEST_CHAIN. ser_eq.
Qed.

Lemma response_chain_kept :
  kept (fun S _ => serialize_NOTIFY_RESPONSE_CHAIN_ENTRY)
    (fun r => fits 32 (start_height r) /\ fits 32 (total_height r) /\ hashes_ok (m_block_ids r)) (fun _ => True)
    [str "start_height"; str "total_height"; str "m_block_ids"].
Proof.
  eapply (kept_split (fun p => mkResponseChainEntry p.1 p.2.1 p.2.2) (fun r => (start_height r, (total_height r, m_block_ids r)))
    (fun r => (start_height r, (total_height r, m_block_ids r)))).
  - eapply (kept_pair _ _ _ [_] _ _ _ [_; _]); [number_field Uint32 "start_height"%string| |apart|done].
    eapply (kept_pair _ _ _ [_] _ _ _ [_]); [number_field Uint32 "total_height"%string|hashes_field "m_block_ids"%string|apart|done].
  - by intros [].
  - done.
  - intros b s. unfold serialize_NOTIFY_RESPONSE_CHAIN_ENTRY. ser_eq.
  - intros b s Hb. split; [done|]. unfold serialize_NOTIFY_RESPONSE_CHAIN_ENTRY. ser_eq.
Qed.

Lemma request_pool_kept :
  kept (fun S _ => serialize_NOTIFY_REQUEST_TX_POOL) (fun r => hashes_ok (pool_txs r)) (fun _ => True) [str "txs"].
Proof.
  eapply (kept_split mkRequestTxPool pool_txs pool_txs).
  - hashes_field "txs"%string.
  - by intros [].
  - done.
  - intros b s. unfold serialize_NOTIFY_REQUEST_TX_POOL. ser_eq.
  - intros b s Hb. split; [done|]. unfold serialize_NOTIFY_REQUEST_TX_POOL. ser_eq.
Qed.

Lemma lite_block_kept :
  kept (fun S _ => serialize_NOTIFY_NEW_LITE_BLOCK)
    (fun r => fits 32 (lite_height r) /\ fits 32 (lite_hop r) /\ size_ok (lite_blockTemplate r)) (fun r => lite_blockTemplate r = [])
    [str "current_blockchain_height"; str "hop"; str "blockTemplate"].
Proof.
  eapply (kept_copy (fun p => mkNewLiteBlock p.2.2 p.1 p.2.1) (fun r => (lite_height r, (lite_hop r, lite_blockTemplate r)))
    (fun r => (lite_height r, (lite_hop r, [])))).
  - eapply (kept_pair _ _ _ [_] _ _ _ [_; _]); [number_field Uint32 "current_blockchain_height"%string| |apart|done].
    eapply (kept_pair _ _ _ [_] _ _ _ [_]); [number_field Uint32 "hop"%string|text_field "blockTemplate"%string|apart|done].
  - by intros [].
  - done.
  - intros [t h p] s s'. unfold serialize_NOTIFY_NEW_LITE_BLOCK. cbn [lite_blockTemplate lite_height lite_hop]. ser_same.
    intros E. by simplify_eq.
  - intros [t h p] s E. cbn in E. subst t. split; [done|]. unfold serialize_NOTIFY_NEW_LITE_BLOCK. ser_eq.
Qed.

Lemma missing_txs_kept :
  kept (fun S _ => serialize_NOTIFY_MISSING_TXS)
    (fun r => fits 32 (missing_height r) /\ hash_ok (missing_blockHash r) /\ hashes_ok (missing_txs r))
    (fun r => hash_ok (missing_blockHash r)) [str "current_blockchain_height"; str "blockHash"; str "missing_txs"].
Proof.
  eapply (kept_split (fun p => mkMissingTxs p.2.1 p.1 p.2.2) (fun r => (missing_height r, (missing_blockHash r, missing_txs r)))
    (fun r => (missing_height r, (missing_blockHash r, missing_txs r)))).
  - eapply (kept_pair _ _ _ [_] _ _ _ [_; _]); [number_field Uint32 "current_blockchain_height"%string| |apart|done].
    eapply (kept_pair _ _ _ [_] _ _ _ [_]); [pod_field 32%nat "blockHash"%string|hashes_field "missing_txs"%string|apart|done].
  - by intros [].
  - done.
  - intros b s. unfold serialize_NOTIFY_MISSING_TXS. ser_eq.
  - intros b s Hb. split; [done|]. unfold serialize_NOTIFY_MISSING_TXS. ser_eq.
Qed.

(** ** Notifications *)

Definition notification_ok (n : Notification) : Prop :=
  match n with
  | NOTIFY_NEW_BLOCK r => raw_ok (new_block r) /\ fits 32 (new_block_height r) /\ fits 32 (hop r)
  | NOTIFY_NEW_TRANSACTIONS r => texts_ok (new_txs r)
  | NOTIFY_REQUEST_GET_OBJECTS r => hashes_ok (request_txs r) /\ hashes_ok (request_blocks r)
  | NOTIFY_RESPONSE_GET_OBJECTS r =>
      texts_ok (response_txs r) /\ (Forall raw_ok (response_blocks r) /\ size_ok (response_blocks r)) /\
      hashes_ok (missed_ids r) /\ fits 32 (response_height r)
  | NOTIFY_REQUEST_CHAIN r => hashes_ok (block_ids r)
  | NOTIFY_RESPONSE_CHAIN_ENTRY r => fits 32 (start_height r) /\ fits 32 (total_height r) /\ hashes_ok (m_block_ids r)
  | NOTIFY_REQUEST_TX_POOL r => hashes_ok (pool_txs r)
  | NOTIFY_NEW_LITE_BLOCK r => fits 32 (lite_height r) /\ fits 32 (lite_hop r) /\ size_ok (lite_blockTemplate r)
  | NOTIFY_MISSING_TXS r => fits 32 (missing_height r) /\ hash_ok (missing_blockHash r) /\ hashes_ok (missing_txs r)
  end.

Lemma received n : notification_ok n -> exists buf, encode_notification n = Some buf /\ receive (ID n) buf = Some (Some n).
Proof.
  destruct n; cbn [notification_ok]; intros Hn; cbn [encode_notification ID]; unfold receive, notifyAdaptor;
    cbn beta iota delta [Z.sub Z.add Z.opp BC_COMMANDS_POOL_BASE Z.pos_sub Pos.add Pos.succ Pos.sub Pos.pred_double Pos.add_carry];
    match goal with |- context [encode ?f _] => idtac end.
  - destruct (message_decode _ _ _ _ r (mkNewBlock (mkRawBlockLegacy [] []) 0 0) new_block_kept Hn eq_refl) as (buf & E & D).
    exists buf. split; [exact E|]. by rewrite D.
  - destruct (message_decode _ _ _ _ r (mkNewTransactions []) new_transactions_kept Hn eq_refl) as (buf & E & D).
    exists buf. split; [exact E|]. by rewrite D.
  - destruct (message_decode _ _ _ _ r (mkRequestGetObjects [] []) request_objects_kept Hn I) as (buf & E & D).
    exists buf. split; [exact E|]. by rewrite D.
  - destruct (message_decode _ _ _ _ r (mkResponseGetObjects [] [] [] 0) response_objects_kept Hn (conj eq_refl eq_refl)) as (buf & E & D).
    exists buf. split; [exact E|]. by rewrite D.
  - destruct (message_decode _ _ _ _ r (mkRequestChain []) request_chain_kept Hn I) as (buf & E & D).
    exists buf. split; [exact E|]. by rewrite D.
  - destruct (message_decode _ _ _ _ r (mkResponseChainEntry 0 0 []) response_chain_kept Hn I) as (buf & E & D).
    exists buf. split; [exact E|]. by rewrite D.
  - destruct (message_decode _ _ _ _ r (mkRequestTxPool []) request_pool_kept Hn I) as (buf & E & D).
    exists buf. split; [exact E|]. by rewrite D.
  - destruct (message_decode _ _ _ _ r (mkNewLiteBlock [] 0 0) lite_block_kept Hn eq_refl) as (buf & E & D).
    exists buf. split; [exact E|]. by rewrite D.
  - destruct (message_decode _ _ _ _ r (mkMissingTxs null_hash 0 []) missing_txs_kept Hn eq_refl) as (buf & E & D).
    exists buf. split; [exact E|]. by rewrite D.
Qed.

(** ** Frames *)

Definition pieces (conn : list (list Z)) : Prop := Forall (fun piece => piece <> []) conn.

Lemma conn_read_spec size conn : (0 < size)%nat -> pieces conn -> concat conn <> [] ->
  exists data conn', conn_read size conn = (data, conn') /\ data <> [] /\ (length data <= size)%nat /\
    concat conn = data ++ concat conn' /\ pieces conn'.
Proof.
  intros Hs Hp Hc. destruct conn as [|piece rest]; [done|]. apply Forall_cons in Hp as [Hn Hp].
  exists (take size piece), (if (length piece <=? size)%nat then rest else drop size piece :: rest).
  split; [done|]. split; [destruct piece; [done|]; by destruct size; [lia|]|]. split; [rewrite length_take; lia|].
  destruct (Nat.leb_spec (length piece) size) as [Hl|Hl]; cbn [concat].
  - by rewrite take_ge by lia.
  - rewrite app_assoc, take_drop. split; [done|]. constructor; [|done].
    intros E%(f_equal length). rewrite length_drop in E. cbn in E. lia.
Qed.

Lemma readStrict_spec fuel : forall size conn, (size <= fuel)%nat -> pieces conn -> (size <= length (concat conn))%nat ->
  exists conn', readStrict fuel size conn = Some (take size (concat conn), conn') /\ concat conn' = drop size (concat conn) /\ pieces conn'.
Proof.
  induction fuel as [|fuel IH]; intros size conn Hf Hp Hl.
  { replace size with 0%nat by lia. by exists conn. }
  destruct size as [|size]; [by exists conn|]. cbn [readStrict].
  destruct (conn_read_spec (S size) conn ltac:(lia) Hp) as (data & conn' & E & Hd & Hle & Ec & Hp').
  { intros E. rewrite E in Hl. cbn in Hl. lia. }
  rewrite E. destruct data as [|b data]; [done|]. rewrite Ec, length_app in *.
  destruct (IH (S size - length (b :: data))%nat conn') as (conn'' & E' & Ed & Hp''); [cbn [length] in *; lia|done|lia|].
  rewrite E'. exists conn''. cbn [mbind option_bind]. rewrite Ed, take_app, drop_app.
  rewrite (take_ge (b :: data)) by lia. rewrite (drop_ge (b :: data)) by lia. done.
Qed.

Lemma head_back h : fits 64 (m_signature h) -> fits 64 (m_cb h) -> fits 32 (m_command h) -> fits 32 (m_flags h) ->
  let h' := head_of_bytes (head_bytes h) in
  m_signature h' = m_signature h /\ m_cb h' = m_cb h /\ m_have_to_return_data h' = m_have_to_return_data h /\
  m_command h' = m_command h /\ m_flags h' = m_flags h.
Proof.
  intros Hs Hc Hm Hf. split_and!;
    [exact (le_back 8 _ Hs)|exact (le_back 8 _ Hc)|by unfold head_of_bytes, head_bytes; destruct (m_have_to_return_data h)
    |exact (le_back 4 _ Hm)|exact (le_back 4 _ Hf)].
Qed.

Lemma head_length h : length (head_bytes h) = head_size.
Proof. done. Qed.

(** A frame at the start of the connection is taken, whatever the pieces. *)
Lemma frame_read h out conn tl : pieces conn -> concat conn = head_bytes h ++ out ++ tl ->
  m_signature h = LEVIN_SIGNATURE -> m_cb h = Z.of_nat (length out) -> m_cb h <= LEVIN_DEFAULT_MAX_PACKET_SIZE ->
  fits 32 (m_command h) -> fits 32 (m_flags h) ->
  exists conn', readCommand conn = Read (mkCommand (m_command h) (negb (m_have_to_return_data h))
      (Z.land (m_flags h) LEVIN_PACKET_RESPONSE =? LEVIN_PACKET_RESPONSE) out) conn' /\ concat conn' = tl /\ pieces conn'.
Proof.
  intros Hp E Hs Hc Hm Hcm Hfl. unfold LEVIN_DEFAULT_MAX_PACKET_SIZE in Hm.
  destruct (head_back h) as (E1 & E2 & E3 & E4 & E5); [by rewrite Hs|unfold fits; lia|done|done|].
  destruct (readStrict_spec head_size head_size conn) as (conn1 & R1 & C1 & P1); [done|done|rewrite E, length_app, head_length; lia|].
  rewrite E, take_app_length' in R1 by done. rewrite E, drop_app_length' in C1 by done.
  unfold readCommand. rewrite R1, E1, E2, E3, E4, E5, Hs, Z.eqb_refl. cbn [negb].
  rewrite (proj2 (Z.ltb_ge _ _)) by (unfold LEVIN_DEFAULT_MAX_PACKET_SIZE; lia). rewrite Hc.
  destruct (Z.eqb_spec (Z.of_nat (length out)) 0) as [E0|E0]; cbn [negb].
  - destruct out; [|done]. by exists conn1.
  - rewrite Nat2Z.id. destruct (readStrict_spec (length out) (length out) conn1) as (conn2 & R2 & C2 & P2);
      [done|done|rewrite C1, length_app; lia|].
    rewrite C1, take_app_length in R2. rewrite C1, drop_app_length in C2. rewrite R2. by exists conn2.
Qed.

Definition message_ok (m : P2pMessage) : Prop :=
  fits 32 (message_command m) /\ Z.of_nat (length (message_buffer m)) <= LEVIN_DEFAULT_MAX_PACKET_SIZE.

(** The command a message is read as. *)
Definition message_read (m : P2pMessage) : Command :=
  mkCommand (message_command m) (negb (bool_decide (message_type m = COMMAND))) (bool_decide (message_type m = REPLY)) (message_buffer m).

Lemma message_back m conn tl : message_ok m -> pieces conn -> concat conn = write_message m ++ tl ->
  exists conn', readCommand conn = Read (message_read m) conn' /\ concat conn' = tl /\ pieces conn'.
Proof.
  intros [Hc Hm] Hp E. destruct m as [t c b r]. unfold write_message, sendMessage, sendReply in E.
  unfold message_read. cbn [message_type message_command message_buffer message_returnCode] in *.
  destruct t; rewrite <- app_assoc in E; by eapply (frame_read _ b conn tl Hp E).
Qed.

Lemma messages_back ms : forall fuel conn, Forall message_ok ms -> pieces conn -> concat conn = concat (write_message <$> ms) ->
  (length ms < fuel)%nat -> readCommands fuel conn = message_read <$> ms.
Proof.
  induction ms as [|m ms IH]; intros [|fuel] conn Hm Hp E Hf; [cbn in Hf; lia| |cbn in Hf; lia|]; cbn [readCommands].
  - destruct conn as [|[|b piece] conn]; [done|by apply Forall_cons in Hp as []|done].
  - apply Forall_cons in Hm as [Hm Hms]. destruct (message_back m conn _ Hm Hp E) as (conn' & -> & E' & Hp').
    cbn [fmap list_fmap]. f_equal. apply IH; [done|done|done|cbn in Hf; lia].
Qed.

Lemma frames_count ms : (length ms <= length (concat (write_message <$> ms)))%nat.
Proof.
  induction ms as [|m ms IH]; [done|]. cbn [fmap list_fmap concat length]. rewrite length_app.
  assert (1 <= length (write_message m))%nat; [|unfold fmap in *; lia].
  unfold write_message, sendMessage, sendReply. destruct (message_type m); rewrite length_app, head_length; unfold head_size; lia.
Qed.

(** ** The queue of a connection *)

(** The buffers are in memory. *)
Definition buffer_fits (n : Notification) : Prop :=
  match encode_notification n with Some buf => Z.of_nat (length buf) < 2 ^ 63 | None => True end.

Definition queued (n : Notification) (m : P2pMessage) : Prop :=
  message_ok m /\ receive (message_command m) (message_buffer m) = Some (Some n).

Lemma ID_fits n : fits 32 (ID n).
Proof. by destruct n. Qed.

Lemma post_one n q : notification_ok n -> buffer_fits n -> stopped q = true \/ 0 <= writeQueueSize q <= P2P_CONNECTION_MAX_WRITE_BUFFER_SIZE ->
  exists q', post_notify n (Some q) = Some (true, Some q') /\
    (stopped q' = true \/
     stopped q' = stopped q /\ 0 <= writeQueueSize q' <= P2P_CONNECTION_MAX_WRITE_BUFFER_SIZE /\
     (stopped q = false -> exists m, writeQueue q' = writeQueue q ++ [m] /\ queued n m)).
Proof.
  intros Hn Hb Hq. destruct (received n Hn) as (buf & E & R). unfold buffer_fits in Hb. rewrite E in Hb.
  unfold post_notify, invoke_notify_to_peer. rewrite E. cbn [mbind option_bind]. eexists. split; [done|].
  unfold pushMessage. cbn [message_buffer].
  destruct (Z.ltb_spec P2P_CONNECTION_MAX_WRITE_BUFFER_SIZE (u64 (writeQueueSize q + Z.of_nat (length buf)))) as [Hl|Hl]; cbn [snd stopped writeQueueSize writeQueue];
    [by left|]. destruct (stopped q) eqn:Es; [by left|]. destruct Hq as [|Hq]; [done|]. right.
  unfold P2P_CONNECTION_MAX_WRITE_BUFFER_SIZE in *. rewrite wrap_small in Hl |- * by (unfold fits; lia).
  split; [done|]. split; [lia|]. intros _. eexists. split; [done|]. split; [split; [apply ID_fits|]|exact R].
  unfold LEVIN_DEFAULT_MAX_PACKET_SIZE. cbn [message_buffer]. lia.
Qed.

Lemma post_all ns : forall q, Forall notification_ok ns -> Forall buffer_fits ns ->
  stopped q = true \/ 0 <= writeQueueSize q <= P2P_CONNECTION_MAX_WRITE_BUFFER_SIZE ->
  exists q', post_notifies ns (Some q) = Some (Some q') /\
    (stopped q' = false -> stopped q = false /\ exists ms, writeQueue q' = writeQueue q ++ ms /\ Forall2 queued ns ms).
Proof.
  induction ns as [|n ns IH]; intros q Hn Hb Hq.
  { exists q. split; [done|]. intros Hs. split; [done|]. exists []. by rewrite app_nil_r. }
  apply Forall_cons in Hn as [Hn Hns]. apply Forall_cons in Hb as [Hb Hbs]. cbn [post_notifies].
  destruct (post_one n q Hn Hb Hq) as (q1 & -> & H1). cbn [mbind option_bind].
  destruct (IH q1 Hns Hbs) as (q' & -> & H2); [by destruct H1 as [|(_ & ? & _)]; auto|].
  exists q'. split; [done|]. intros Hs. destruct (H2 Hs) as (Hs1 & ms & E2 & F2).
  destruct H1 as [H1|(Es & _ & H1)]; [congruence|]. rewrite Es in Hs1. split; [done|].
  destruct (H1 Hs1) as (m & E1 & F1). exists (m :: ms). rewrite E2, E1, <- app_assoc. split; [done|]. by constructor.
Qed.

Lemma queued_ok ns ms : Forall2 queued ns ms -> Forall message_ok ms.
Proof. induction 1 as [|n m ns ms [Hm _] _ IH]; by constructor. Qed.

(** C9: The notifications put on the queue of a connection, written by its writer and cut
    by the network into any pieces, are read by the other side as the same
    notifications in the same order; putting them there fails only by stopping the
    connection. *)
Theorem notifications_received ns : Forall notification_ok ns -> Forall buffer_fits ns ->
  exists q, post_notifies ns (Some new_queue) = Some (Some q) /\
    (stopped q = false -> forall conn, pieces conn -> concat conn = concat (write_message <$> (popBuffer q).1) ->
      (fun c => receive (command c) (buf c)) <$> readCommands (S (length (concat conn))) conn = (fun n => Some (Some n)) <$> ns).
Proof.
  intros Hn Hb. destruct (post_all ns new_queue Hn Hb) as (q & E & H); [by right|]. exists q. split; [done|].
  intros Hs conn Hp Ec. destruct (H Hs) as (_ & ms & Eq & F). cbn [popBuffer fst] in Ec. rewrite Eq in Ec. cbn [new_queue writeQueue app] in Ec.
  rewrite (messages_back ms); [|by eapply queued_ok|done|done|].
  2:{ rewrite Ec. pose proof (frames_count ms). lia. }
  clear -F. induction F as [|n m ns ms [_ Hr] F IH]; [done|]. cbn [fmap list_fmap]. f_equal; [exact Hr|exact IH].
Qed.

Lemma notifications_received_witness : exists q,
  post_notifies [NOTIFY_REQUEST_CHAIN (mkRequestChain [null_hash]); NOTIFY_NEW_TRANSACTIONS (mkNewTransactions [[1; 2]; [3]])] (Some new_queue)
    = Some (Some q) /\
  (fun c => receive (command c) (buf c)) <$> readCommands (S (length (concat (chunks 7 1000 (concat (write_message <$> (popBuffer q).1))))))
    (chunks 7 1000 (concat (write_message <$> (popBuffer q).1)))
    = [Some (Some (NOTIFY_REQUEST_CHAIN (mkRequestChain [null_hash])));
       Some (Some (NOTIFY_NEW_TRANSACTIONS (mkNewTransactions [[1; 2]; [3]])))].
Proof.
  destruct (notifications_received
    [NOTIFY_REQUEST_CHAIN (mkRequestChain [null_hash]); NOTIFY_NEW_TRANSACTIONS (mkNewTransactions [[1; 2]; [3]])]) as (q & E & H).
  - repeat constructor.
  - repeat constructor.
  - exists q. split; [exact E|]. vm_compute in E. apply (inj Some), (inj Some) in E. subst q. apply H; [reflexivity| |vm_compute; reflexivity].
    vm_compute. repeat (constructor; [discriminate|]). constructor.
Defined.

(** The messages of p2p_protocol_definitions.h are read back as they were sent, into
    structures the node has just declared. *)
Theorem p2p_messages_kept :
  (forall r r0, node_data_ok (request_node_data r) /\ sync_data_ok (request_payload_data r) ->
    node_fresh (request_node_data r0) /\ sync_fresh (request_payload_data r0) ->
    exists buf, encode serialize_handshake_request r = Some buf /\ decode serialize_handshake_request buf r0 = Some r) /\
  (forall r r0, node_data_ok (response_node_data r) /\ sync_data_ok (response_payload_data r) /\ peer_entries_ok (response_local_peerlist r) ->
    node_fresh (response_node_data r0) /\ sync_fresh (response_payload_data r0) /\ response_local_peerlist r0 = [] ->
    exists buf, encode serialize_handshake_response r = Some buf /\ decode serialize_handshake_response buf r0 = Some r) /\
  (forall r r0, sync_data_ok (sync_payload_data r) -> sync_fresh (sync_payload_data r0) ->
    exists buf, encode serialize_timed_sync_request r = Some buf /\ decode serialize_timed_sync_request buf r0 = Some r) /\
  (forall r r0, fits 64 (sync_local_time r) /\ sync_data_ok (sync_response_payload_data r) /\ peer_entries_ok (sync_local_peerlist r) ->
    sync_fresh (sync_response_payload_data r0) /\ sync_local_peerlist r0 = [] ->
    exists buf, encode serialize_timed_sync_response r = Some buf /\ decode serialize_timed_sync_response buf r0 = Some r) /\
  (forall r r0, size_ok (status r) /\ fits 64 (ping_peer_id r) ->
    exists buf, encode serialize_ping_response r = Some buf /\ decode serialize_ping_response buf r0 = Some r).
Proof.
  split_and!; intros r r0 Hr.
  - intros H0. by apply (message_decode _ _ _ _ r r0 handshake_request_kept).
  - intros H0. by apply (message_decode _ _ _ _ r r0 handshake_response_kept).
  - intros H0. by apply (message_decode _ _ _ _ r r0 timed_sync_request_kept).
  - intros H0. by apply (message_decode _ _ _ _ r r0 timed_sync_response_kept).
  - by apply (message_decode _ _ _ _ r r0 ping_response_kept).
Qed.

(** ** The depth of what is read *)

(** C35: Reading a value ends, for any bytes: with a bound on the depth of the recursion above the number
    of bytes, [loadValue] and the loops in it return a value or throw, and are never cut off;
    any such bound gives the same answer, which is that of the equation of the
    code for objects and arrays; and a value that is read has taken at least one byte. *)
Theorem kv_parse_terminates t s fuel : (length s < fuel)%nat ->
  load_value fuel t s <> OutOfFuel /\ load_value fuel t s = loadValue t s /\
  (t = BIN_KV_SERIALIZE_TYPE_OBJECT -> loadValue t s = loadSection (loadEntry loadValue) s) /\
  (t = BIN_KV_SERIALIZE_TYPE_ARRAY -> loadValue t s = loadArray (loadValue t) s) /\
  (forall v s', loadValue t s = Returns (v, s') -> (length s' < length s)%nat).
Proof.
  intros Hf. split_and!.
  - by apply load_value_ends.
  - apply load_value_fuel; lia.
  - intros ->. by rewrite loadValue_unfold.
  - intros ->. by rewrite loadValue_unfold.
  - intros v s' E. by apply loadValue_shrinks in E.
Qed.

Lemma kv_parse_terminates_witness :
  loadValue BIN_KV_SERIALIZE_TYPE_ARRAY [8; 0; 0] = Returns (ARRAY [ARRAY []; ARRAY []], []) /\
  load_value 9 BIN_KV_SERIALIZE_TYPE_ARRAY [8; 0; 0] = loadValue BIN_KV_SERIALIZE_TYPE_ARRAY [8; 0; 0].
Proof. split; [vm_compute; reflexivity|]. exact (proj1 (proj2 (kv_parse_terminates BIN_KV_SERIALIZE_TYPE_ARRAY [8; 0; 0] 9 ltac:(cbn; lia)))). Defined.

Fixpoint nested (n : nat) : JsonValue := ARRAY (match n with O => [] | S n => [nested n] end).

Lemma varint_one tl : readVarint (4 :: tl) = Some (1, tl).
Proof. apply (size_back 1 [4] tl); [lia|reflexivity]. Qed.

Lemma nested_step fuel n : load_value (S fuel) BIN_KV_SERIALIZE_TYPE_ARRAY (repeat 4 (S n) ++ [0]) =
  (p ← load_value fuel BIN_KV_SERIALIZE_TYPE_ARRAY (repeat 4 n ++ [0]); Returns (ARRAY [p.1], p.2)).
Proof.
  change (load_value (S fuel) BIN_KV_SERIALIZE_TYPE_ARRAY) with (loadArray (load_value fuel BIN_KV_SERIALIZE_TYPE_ARRAY)).
  unfold loadArray. cbn [repeat app]. erewrite throwing_run by apply varint_one. cbn [array_loop].
  change (1 =? 0) with false. unfold mbind, runner_bind, Run_bind. cbn beta iota.
  destruct (load_value fuel BIN_KV_SERIALIZE_TYPE_ARRAY (repeat 4 n ++ [0])) as [[v s']| |]; [|reflexivity..].
  by destruct (length (repeat 4 n ++ [0])).
Qed.

(** The depth is bounded by the length of the message alone: a value of [n + 1] bytes
    takes [n + 1] calls of [loadValue], each inside the one before, and is accepted. *)
Theorem kv_depth_unbounded n :
  load_value (S n) BIN_KV_SERIALIZE_TYPE_ARRAY (repeat 4 n ++ [0]) = Returns (nested n, []) /\
  load_value n BIN_KV_SERIALIZE_TYPE_ARRAY (repeat 4 n ++ [0]) = OutOfFuel.
Proof.
  induction n as [|n [IH1 IH2]]; [done|]. by rewrite !nested_step, IH1, IH2.
Qed.
