(* ===== verification/Ipv4.v ===== *)
(** * Addresses of the network

    [Ipv4Address] of src/src/syst/ipv4_address.cpp: the text of an address with its
    four numbers, and the ranges that are not reachable from outside; the order
    of bytes of src/src/p2p/p2p_protocol_types.h. *)

From Stdlib Require Import String.
From S2P Require Import Prelude Bytes StringTools IntUtil Base58.
#[local] Open Scope list_scope.
#[local] Open Scope Z_scope.

Definition is_digit (c : Z) : bool := (48 <=? c) && (c <=? 57).

(** The rest of the text stands for the offset. *)
Definition readUint8 (source : list Z) : option (Z * list Z) :=
  match source with
  | [] => None
  | c0 :: s1 =>
      if negb (is_digit c0) then None
      else
        let value := u8 (c0 - 48) in
        match s1 with
        | [] => Some (value, s1)
        | c1 :: s2 =>
            if negb (is_digit c1) then Some (value, s1)
            else if value =? 0 then None
            else
              let value := u8 (value * 10 + (c1 - 48)) in
              match s2 with
              | [] => Some (value, s2)
              | c2 :: s3 =>
                  if negb (is_digit c2) then Some (value, s2)
                  else if ((value =? 25) && (53 <? c2)) || (25 <? value) then None
                  else Some (u8 (value * 10 + (c2 - 48)), s3)
              end
        end
  end.

(** A number behind a dot. *)
Definition read_part (value : Z) (source : list Z) : option (Z * list Z) :=
  match source with
  | 46 :: source => '(b, source) ← readUint8 source; Some (u32 (Z.lor (Z.shiftl value 8) b), source)
  | _ => None
  end.

(** [Ipv4Address(const std::string &)]; [None] is the exception. *)
Definition Ipv4Address_of_string (dottedDecimal : list Z) : option Z :=
  '(value, rest) ← readUint8 dottedDecimal;
  '(value, rest) ← read_part value rest;
  '(value, rest) ← read_part value rest;
  '(value, rest) ← read_part value rest;
  match rest with [] => Some value | _ => None end.

(** [std::to_string] of a byte. *)
Definition byte_to_string (n : Z) : list Z :=
  (if 100 <=? n then [48 + n / 100] else []) ++ (if 10 <=? n then [48 + n / 10 mod 10] else []) ++ [48 + n mod 10].

Definition toDottedDecimal (value : Z) : list Z :=
  byte_to_string (Z.shiftr value 24) ++ str "." ++ byte_to_string (Z.land (Z.shiftr value 16) 255) ++ str "." ++
  byte_to_string (Z.land (Z.shiftr value 8) 255) ++ str "." ++ byte_to_string (Z.land value 255).

Definition isLoopback (value : Z) : bool := Z.land value 0xff000000 =? Z.shiftl 127 24.

Definition isPrivate (value : Z) : bool :=
  (Z.land value 0xff000000 =? Z.shiftl 10 24) ||
  (Z.land value 0xfff00000 =? Z.lor (Z.shiftl 172 24) (Z.shiftl 16 16)) ||
  (Z.land value 0xffff0000 =? Z.lor (Z.shiftl 192 24) (Z.shiftl 168 16)).

Definition hostToNetwork (n : Z) : Z :=
  Z.lor (Z.lor (Z.lor (u32 (Z.shiftl n 24)) (u32 (Z.shiftl (Z.land n 0xff00) 8))) (Z.shiftr (Z.land n 0xff0000) 8)) (Z.shiftr n 24).

Definition networkToHost (n : Z) : Z := hostToNetwork n.

(** ** Four bytes *)

Definition quad (a b c d : Z) : Z := ((a * 256 + b) * 256 + c) * 256 + d.

Lemma quad_fits a b c d : byte_ok a -> byte_ok b -> byte_ok c -> byte_ok d -> fits 32 (quad a b c d).
Proof. unfold byte_ok, fits, quad. change (2 ^ 8) with 256. change (2 ^ 32) with 4294967296. lia. Qed.

Lemma quad_of v : fits 32 v -> exists a b c d, byte_ok a /\ byte_ok b /\ byte_ok c /\ byte_ok d /\ v = quad a b c d.
Proof.
  intros Hv. exists (v / 2 ^ 24), (v / 2 ^ 16 mod 256), (v / 2 ^ 8 mod 256), (v mod 256). unfold byte_ok, fits, quad in *.
  change (2 ^ 32) with 4294967296 in Hv. change (2 ^ 24) with 16777216. change (2 ^ 16) with 65536. change (2 ^ 8) with 256.
  split_and!; zlia.
Qed.

(** A mask of [m] ones above [k] zeros. *)
Lemma land_ones x m k : 0 <= k -> 0 <= m -> Z.land x (Z.shiftl (Z.ones m) k) = (x / 2 ^ k) mod 2 ^ m * 2 ^ k.
Proof.
  intros Hk Hm. rewrite <- Z.shiftl_mul_pow2, <- Z.shiftr_div_pow2, <- Z.land_ones by done. apply Z.bits_inj'. intros n Hn.
  rewrite Z.land_spec, !Z.shiftl_spec, Z.land_spec by lia. destruct (Z.ltb_spec n k).
  - rewrite (Z.testbit_neg_r (Z.ones m)), (Z.testbit_neg_r (Z.shiftr x k)) by lia. apply andb_false_r.
  - rewrite Z.shiftr_spec by lia. by replace (n - k + k) with n by lia.
Qed.

(** ** Text *)

Lemma readUint8_back b rest : byte_ok b -> (match rest with c :: _ => is_digit c = false | [] => True end) ->
  readUint8 (byte_to_string b ++ rest) = Some (b, rest).
Proof.
  intros Hb Hr. unfold byte_ok, fits in Hb. change (2 ^ 8) with 256 in Hb. unfold byte_to_string.
  assert (forall n, 0 <= n < 10 -> is_digit (48 + n) = true) as Hd by (intros n Hn; unfold is_digit; lia).
  assert (forall n, 0 <= n < 256 -> u8 n = n) as Hu by (intros n Hn; apply wrap_small; unfold fits; lia).
  destruct (Z.leb_spec 100 b) as [H1|H1]; [|destruct (Z.leb_spec 10 b) as [H2|H2]].
  - rewrite (proj2 (Z.leb_le 10 b)) by lia. cbn [app]. unfold readUint8.
    rewrite !Hd by zlia. cbn [negb]. rewrite (Hu (48 + b / 100 - 48)) by zlia.
    rewrite (Hu ((48 + b / 100 - 48) * 10 + _)) by zlia.
    rewrite (proj2 (Z.eqb_neq (48 + b / 100 - 48) 0)) by zlia.
    replace ((48 + b / 100 - 48) * 10 + (48 + b / 10 mod 10 - 48)) with (b / 10) by zlia.
    rewrite (proj2 (Z.ltb_ge 25 (b / 10))) by zlia. rewrite orb_false_r.
    replace ((b / 10 =? 25) && (53 <? 48 + b mod 10)) with false by (symmetry; apply andb_false_iff; destruct (Z.eqb_spec (b / 10) 25); [right; apply Z.ltb_ge; zlia|by left]).
    f_equal. f_equal. rewrite Hu by zlia. zlia.
  - cbn [app]. unfold readUint8. rewrite !Hd by zlia. cbn [negb].
    rewrite (Hu (48 + b / 10 mod 10 - 48)) by zlia. rewrite (proj2 (Z.eqb_neq _ 0)) by zlia.
    rewrite (Hu ((48 + b / 10 mod 10 - 48) * 10 + _)) by zlia.
    replace ((48 + b / 10 mod 10 - 48) * 10 + (48 + b mod 10 - 48)) with b by zlia.
    destruct rest as [|c rest]; [done|]. by rewrite Hr.
  - cbn [app]. unfold readUint8. rewrite Hd by zlia. cbn [negb]. rewrite Hu by zlia. replace (48 + b mod 10 - 48) with b by zlia.
    destruct rest as [|c rest]; [done|]. by rewrite Hr.
Qed.

(** What is read is what would be written. *)
Lemma readUint8_canonical s b rest : readUint8 s = Some (b, rest) -> byte_ok b /\ s = byte_to_string b ++ rest.
Proof.
  unfold readUint8, byte_ok, fits. change (2 ^ 8) with 256. intros E.
  assert (forall n, 0 <= n < 256 -> u8 n = n) as Hu by (intros n Hn; apply wrap_small; unfold fits; lia).
  assert (forall c, is_digit c = true -> 48 <= c <= 57) as Hd by (intros c Hc; unfold is_digit in Hc; lia).
  assert (forall c, is_digit c = true -> byte_to_string (c - 48) = [c]) as H1.
  { intros c Hc%Hd. unfold byte_to_string. rewrite (proj2 (Z.leb_gt _ _)), (proj2 (Z.leb_gt _ _)) by lia. cbn [app]. f_equal. zlia. }
  destruct s as [|c0 s1]; [done|]. destruct (is_digit c0) eqn:E0; [|done]. cbn [negb] in E. pose proof (Hd _ E0).
  rewrite (Hu (c0 - 48)) in E by lia.
  destruct s1 as [|c1 s2]; [injection E as <- <-; rewrite H1 by done; split; [lia|done]|].
  destruct (is_digit c1) eqn:E1; cbn [negb] in E; [|injection E as <- <-; rewrite H1 by done; split; [lia|done]].
  pose proof (Hd _ E1). destruct (Z.eqb_spec (c0 - 48) 0) as [|Hz]; [done|]. rewrite (Hu ((c0 - 48) * 10 + _)) in E by lia.
  set (v := (c0 - 48) * 10 + (c1 - 48)) in *.
  assert (byte_to_string v = [c0; c1]) as H2.
  { unfold byte_to_string. rewrite (proj2 (Z.leb_gt _ _)), (proj2 (Z.leb_le _ _)) by lia. cbn [app]. f_equal; [zlia|]. f_equal. zlia. }
  destruct s2 as [|c2 s3]; [injection E as <- <-; rewrite H2; split; [lia|done]|].
  destruct (is_digit c2) eqn:E2; cbn [negb] in E; [|injection E as <- <-; rewrite H2; split; [lia|done]].
  pose proof (Hd _ E2). destruct ((v =? 25) && (53 <? c2)) eqn:E3; cbn [orb] in E; [done|]. destruct (Z.ltb_spec 25 v) as [|Hv]; [done|].
  assert (v * 10 + (c2 - 48) < 256) as Hlt.
  { apply andb_false_iff in E3 as [E3%Z.eqb_neq|E3%Z.ltb_ge]; lia. }
  rewrite Hu in E by lia. injection E as <- <-. split; [lia|]. unfold byte_to_string.
  rewrite (proj2 (Z.leb_le _ _)), (proj2 (Z.leb_le _ _)) by lia. cbn [app]. f_equal; [zlia|]. f_equal; [zlia|]. f_equal. zlia.
Qed.

Lemma read_part_back v b rest : 0 <= v < 2 ^ 24 -> byte_ok b -> (match rest with c :: _ => is_digit c = false | [] => True end) ->
  read_part v (str "." ++ byte_to_string b ++ rest) = Some (v * 256 + b, rest).
Proof.
  intros Hv Hb Hr. change (str ".") with [46]. cbn [app read_part]. rewrite readUint8_back by done. cbn [mbind option_bind].
  rewrite shift_or_byte by done. rewrite wrap_small; [do 2 f_equal; lia|]. unfold byte_ok, fits in *.
  change (2 ^ 8) with 256 in *. change (2 ^ 24) with 16777216 in *. change (2 ^ 32) with 4294967296. lia.
Qed.

Lemma quad_text a b c d : byte_ok a -> byte_ok b -> byte_ok c -> byte_ok d ->
  toDottedDecimal (quad a b c d) = byte_to_string a ++ str "." ++ byte_to_string b ++ str "." ++ byte_to_string c ++ str "." ++ byte_to_string d.
Proof.
  unfold byte_ok, fits. change (2 ^ 8) with 256. intros Ha Hb Hc Hd. unfold toDottedDecimal.
  change 255 with (Z.ones 8). rewrite !Z.land_ones by lia. rewrite !Z.shiftr_div_pow2 by lia. unfold quad.
  change (2 ^ 24) with 16777216. change (2 ^ 16) with 65536. change (2 ^ 8) with 256.
  do 2 f_equal; [zlia|]. do 2 f_equal; [f_equal; zlia|]. do 2 f_equal; [f_equal; zlia|]. do 2 f_equal. zlia.
Qed.

(** Every address is read back from the text it is written as, and a text that is read is
    the one the address would be written as: numbers without leading zeros, between
    0 and 255, three dots, nothing else. *)
Theorem ipv4_roundtrip v s : fits 32 v ->
  Ipv4Address_of_string (toDottedDecimal v) = Some v /\
  (Ipv4Address_of_string s = Some v -> s = toDottedDecimal v).
Proof.
  intros Hv. destruct (quad_of v Hv) as (a & b & c & d & Ha & Hb & Hc & Hd & ->). rewrite quad_text by done.
  pose proof Ha as Ha'. pose proof Hb as Hb'. pose proof Hc as Hc'. unfold byte_ok, fits in Ha', Hb', Hc'. change (2 ^ 8) with 256 in *.
  split.
  - unfold Ipv4Address_of_string. rewrite readUint8_back by done. cbn [mbind option_bind].
    rewrite read_part_back by (done || lia). cbn [mbind option_bind]. rewrite read_part_back by (done || lia). cbn [mbind option_bind].
    rewrite <- (app_nil_r (byte_to_string d)). rewrite read_part_back by (done || lia). done.
  - unfold Ipv4Address_of_string. intros E.
    assert (forall v s v' rest, read_part v s = Some (v', rest) -> exists x, byte_ok x /\ s = str "." ++ byte_to_string x ++ rest /\ v' = u32 (256 * v + x)) as Hp.
    { clear. intros v s v' rest E. unfold read_part in E. destruct s as [|z s]; [done|].
      destruct (decide (z = 46)) as [->|Hz].
      - destruct (readUint8 s) as [[x r]|] eqn:Ex; [|done]. cbn in E. injection E as <- <-.
        apply readUint8_canonical in Ex as [Hx ->]. exists x. split; [done|]. split; [done|]. by rewrite shift_or_byte.
      - exfalso. clear -E Hz. repeat (case_match; try done); lia. }
    destruct (readUint8 s) as [[a' r1]|] eqn:E1; [|done]. cbn [mbind option_bind] in E. apply readUint8_canonical in E1 as [Ha1 ->].
    destruct (read_part a' r1) as [[v1 r2]|] eqn:E2; [|done]. cbn [mbind option_bind] in E. apply Hp in E2 as (b' & Hb1 & -> & ->).
    destruct (read_part _ r2) as [[v2 r3]|] eqn:E3; [|done]. cbn [mbind option_bind] in E. apply Hp in E3 as (c' & Hc1 & -> & ->).
    destruct (read_part _ r3) as [[v3 r4]|] eqn:E4; [|done]. cbn [mbind option_bind] in E. apply Hp in E4 as (d' & Hd1 & -> & ->).
    destruct r4; [|done]. injection E as E. unfold byte_ok, fits, quad, wrap in *. change (2 ^ 8) with 256 in *. change (2 ^ 32) with 4294967296 in *.
    assert (a' = a /\ b' = b /\ c' = c /\ d' = d) as (-> & -> & -> & ->) by (split_and!; zlia). by rewrite app_nil_r.
Qed.

Lemma ipv4_roundtrip_witness :
  toDottedDecimal 0xC0A80001 = str "192.168.0.1" /\ Ipv4Address_of_string (str "192.168.0.1") = Some 0xC0A80001.
Proof.
  split; [vm_compute; reflexivity|]. change (str "192.168.0.1") with (toDottedDecimal 0xC0A80001).
  apply (ipv4_roundtrip 0xC0A80001 []). vm_compute. split; [discriminate|reflexivity].
Defined.

(** ** Ranges *)

Lemma quad_ranges a b c d : byte_ok a -> byte_ok b -> byte_ok c -> byte_ok d ->
  isLoopback (quad a b c d) = (a =? 127) /\
  isPrivate (quad a b c d) = (a =? 10) || ((a =? 172) && (16 <=? b) && (b <? 32)) || ((a =? 192) && (b =? 168)).
Proof.
  unfold byte_ok, fits. change (2 ^ 8) with 256. intros Ha Hb Hc Hd. unfold isLoopback, isPrivate.
  change 0xff000000 with (Z.shiftl (Z.ones 8) 24). change 0xfff00000 with (Z.shiftl (Z.ones 12) 20).
  change 0xffff0000 with (Z.shiftl (Z.ones 16) 16). rewrite !land_ones by lia. unfold quad.
  change (Z.shiftl 127 24) with (127 * 16777216). change (Z.shiftl 10 24) with (10 * 16777216).
  change (Z.lor (Z.shiftl 172 24) (Z.shiftl 16 16)) with ((172 * 16 + 1) * 1048576).
  change (Z.lor (Z.shiftl 192 24) (Z.shiftl 168 16)) with ((192 * 256 + 168) * 65536).
  change (2 ^ 24) with 16777216. change (2 ^ 20) with 1048576. change (2 ^ 16) with 65536. change (2 ^ 12) with 4096. change (2 ^ 8) with 256.
  replace ((((a * 256 + b) * 256 + c) * 256 + d) / 16777216 mod 256) with a by zlia.
  replace ((((a * 256 + b) * 256 + c) * 256 + d) / 1048576 mod 4096) with (a * 16 + b / 16) by zlia.
  replace ((((a * 256 + b) * 256 + c) * 256 + d) / 65536 mod 65536) with (a * 256 + b) by zlia.
  split; [lia|]. f_equal; [f_equal|]; [lia|apply eq_iff_eq_true; rewrite !andb_true_iff, !Z.eqb_eq, Z.leb_le, Z.ltb_lt; zlia|lia].
Qed.

Lemma quad_swap a b c d : byte_ok a -> byte_ok b -> byte_ok c -> byte_ok d -> hostToNetwork (quad a b c d) = quad d c b a.
Proof.
  intros Ha Hb Hc Hd. unfold hostToNetwork. change 0xff00 with (Z.shiftl (Z.ones 8) 8). change 0xff0000 with (Z.shiftl (Z.ones 8) 16).
  rewrite !land_ones by lia. pose proof Ha as Ha'. pose proof Hb as Hb'. pose proof Hc as Hc'. pose proof Hd as Hd'.
  unfold byte_ok, fits in Ha', Hb', Hc', Hd'. change (2 ^ 8) with 256 in *. rewrite !Z.shiftl_mul_pow2, !Z.shiftr_div_pow2 by lia.
  unfold quad, wrap. change (2 ^ 24) with 16777216. change (2 ^ 16) with 65536. change (2 ^ 8) with 256. change (2 ^ 32) with 4294967296.
  set (v := ((a * 256 + b) * 256 + c) * 256 + d).
  assert (v / 256 mod 256 = c /\ v / 65536 mod 256 = b /\ v / 16777216 = a /\ v * 16777216 mod 4294967296 = d * 16777216)
    as (-> & -> & -> & ->) by (subst v; split_and!; zlia).
  rewrite (Z.mod_small (c * 256 * 256)) by lia. replace (b * 65536 / 256) with (b * 256) by zlia.
  assert (forall x y n, 0 <= n -> 0 <= y < 2 ^ n -> Z.lor (x * 2 ^ n) y = x * 2 ^ n + y) as Hor.
  { clear. intros x y n Hn Hy. rewrite Z.lor_comm, <- Z.shiftl_mul_pow2 by done. rewrite lor_shiftl_add by done. rewrite Z.shiftl_mul_pow2 by done. lia. }
  change 16777216 with (2 ^ 24). rewrite Hor by lia. replace (d * 2 ^ 24 + c * 256 * 256) with ((d * 256 + c) * 2 ^ 16) by lia.
  rewrite Hor by lia. replace ((d * 256 + c) * 2 ^ 16 + b * 256) with (((d * 256 + c) * 256 + b) * 2 ^ 8) by lia. rewrite Hor by lia. done.
Qed.
