(* ===== verification/PeerList.v ===== *)
(** * The lists of peers

    [Peerlist] and [PeerlistManager] of src/src/p2p/peerlist.cpp and
    peer_list_manager.cpp: the peers a node has reached (white) and those it was
    told of (gray), with the list a peer sends after its times are set to the
    clock of the node ([handle_remote_peerlist] of net_node.cpp).  [std::sort] is an
    argument: peers seen at the same time may come in any order. *)

From stdpp Require Import list sorting.
From S2P Require Import Prelude Bytes Types Ipv4 KvBinary Messages.
#[local] Open Scope list_scope.
#[local] Open Scope Z_scope.

#[global] Instance NetworkAddress_eq_dec : EqDecision NetworkAddress.
Proof. solve_decision. Defined.

Definition P2P_LOCAL_WHITE_PEERLIST_LIMIT : nat := 1000.
Definition P2P_LOCAL_GRAY_PEERLIST_LIMIT : nat := 5000.
Definition P2P_DEFAULT_PEERS_IN_HANDSHAKE : Z := 250.

Record PeerlistManager := mkPeerlistManager {
  m_allow_local_ip : bool;
  m_peers_gray : list PeerlistEntry;
  m_peers_white : list PeerlistEntry }.

(** A manager as its constructor makes it; [serialize], which reads the lists of a state
    file into it, is not modelled. *)
Definition new_peerlist (allow_local_ip : bool) : PeerlistManager := mkPeerlistManager allow_local_ip [] [].

(** Whether the peer is there, and the peer replaced. *)
Definition has_address (a : NetworkAddress) (peers : list PeerlistEntry) : bool :=
  existsb (fun p => bool_decide (adr p = a)) peers.

Fixpoint update_first (p : PeerlistEntry) (peers : list PeerlistEntry) : list PeerlistEntry :=
  match peers with
  | [] => []
  | x :: rest => if bool_decide (adr x = adr p) then p :: rest else x :: update_first p rest
  end.

Fixpoint erase_first (a : NetworkAddress) (peers : list PeerlistEntry) : list PeerlistEntry :=
  match peers with
  | [] => []
  | x :: rest => if bool_decide (adr x = a) then rest else x :: erase_first a rest
  end.

Definition is_ip_allowed (m : PeerlistManager) (ip : Z) : bool :=
  let addr := networkToHost ip in
  if isLoopback addr then false
  else if negb (m_allow_local_ip m) && isPrivate addr then false
  else true.

Section Peers.
(** [std::sort] with the newer peers first. *)
Context (sort_peers : list PeerlistEntry -> list PeerlistEntry).

(** [Peerlist::trim]. *)
Definition trim (maxSize : nat) (peers : list PeerlistEntry) : list PeerlistEntry :=
  if (length peers <=? maxSize)%nat then peers else take maxSize (sort_peers peers).

(** [Peerlist::get]: the entry, and the list as it is left. *)
Definition Peerlist_get (i : nat) (peers : list PeerlistEntry) : option PeerlistEntry * list PeerlistEntry :=
  if (length peers <=? i)%nat then (None, peers) else (sort_peers peers !! i, sort_peers peers).

Definition append_with_peer_white (newPeer : PeerlistEntry) (m : PeerlistManager) : PeerlistManager :=
  if negb (is_ip_allowed m (ip (adr newPeer))) then m
  else
    let white := if negb (has_address (adr newPeer) (m_peers_white m))
                 then trim P2P_LOCAL_WHITE_PEERLIST_LIMIT (m_peers_white m ++ [newPeer])
                 else update_first newPeer (m_peers_white m) in
    mkPeerlistManager (m_allow_local_ip m) (erase_first (adr newPeer) (m_peers_gray m)) white.

Definition append_with_peer_gray (newPeer : PeerlistEntry) (m : PeerlistManager) : PeerlistManager :=
  if negb (is_ip_allowed m (ip (adr newPeer))) then m
  else if has_address (adr newPeer) (m_peers_white m) then m
  else
    let gray := if negb (has_address (adr newPeer) (m_peers_gray m))
                then trim P2P_LOCAL_GRAY_PEERLIST_LIMIT (m_peers_gray m ++ [newPeer])
                else update_first newPeer (m_peers_gray m) in
    mkPeerlistManager (m_allow_local_ip m) gray (m_peers_white m).

Definition merge_peerlist (outer_bs : list PeerlistEntry) (m : PeerlistManager) : PeerlistManager :=
  let m := fold_left (fun m be => append_with_peer_gray be m) outer_bs m in
  mkPeerlistManager (m_allow_local_ip m) (trim P2P_LOCAL_GRAY_PEERLIST_LIMIT (m_peers_gray m)) (m_peers_white m).

Definition set_peer_just_seen (now peer ip port : Z) (m : PeerlistManager) : PeerlistManager :=
  append_with_peer_white (mkPeerlistEntry (mkNetworkAddress ip port) peer now) m.

(** The loop of [get_peerlist_head]. *)
Fixpoint head_loop (peers : list PeerlistEntry) (i depth : Z) : list PeerlistEntry :=
  match peers with
  | [] => []
  | peer :: rest =>
      if last_seen peer =? 0 then head_loop rest i depth
      else if depth <? i then [peer]
      else peer :: head_loop rest (u32 (i + 1)) depth
  end.

Definition get_peerlist_head (depth : Z) (m : PeerlistManager) : list PeerlistEntry * PeerlistManager :=
  let white := sort_peers (m_peers_white m) in
  (head_loop white 0 depth, mkPeerlistManager (m_allow_local_ip m) (m_peers_gray m) white).

Definition get_white_peer_by_index (i : nat) (m : PeerlistManager) : option PeerlistEntry * PeerlistManager :=
  let '(p, white) := Peerlist_get i (m_peers_white m) in (p, mkPeerlistManager (m_allow_local_ip m) (m_peers_gray m) white).

Definition get_gray_peer_by_index (i : nat) (m : PeerlistManager) : option PeerlistEntry * PeerlistManager :=
  let '(p, gray) := Peerlist_get i (m_peers_gray m) in (p, mkPeerlistManager (m_allow_local_ip m) gray (m_peers_white m)).

(** [fix_time_delta] of net_node.cpp; [None] is the answer false. *)
Fixpoint fix_time_delta (now local_time : Z) (peers : list PeerlistEntry) : option (list PeerlistEntry) :=
  match peers with
  | [] => Some []
  | be :: rest =>
      if u64 local_time <? last_seen be then None
      else
        rest ← fix_time_delta now local_time rest;
        Some (mkPeerlistEntry (adr be) (id be) (u64 (last_seen be + (now - local_time))) :: rest)
  end.

Definition handle_remote_peerlist (now local_time : Z) (peerlist : list PeerlistEntry) (m : PeerlistManager) : option PeerlistManager :=
  peers ← fix_time_delta now local_time peerlist;
  Some (merge_peerlist peers m).

End Peers.

(** ** The lists stay in order *)

Record peers_ok (m : PeerlistManager) : Prop := {
  white_once : NoDup (adr <$> m_peers_white m);
  gray_once : NoDup (adr <$> m_peers_gray m);
  white_gray : forall a, a ∈ adr <$> m_peers_white m -> a ∈ adr <$> m_peers_gray m -> False;
  white_short : (length (m_peers_white m) <= P2P_LOCAL_WHITE_PEERLIST_LIMIT)%nat;
  gray_short : (length (m_peers_gray m) <= P2P_LOCAL_GRAY_PEERLIST_LIMIT)%nat;
  peers_allowed : Forall (fun p => is_ip_allowed m (ip (adr p)) = true) (m_peers_white m ++ m_peers_gray m) }.

Lemma has_address_spec a peers : has_address a peers = true <-> a ∈ adr <$> peers.
Proof.
  unfold has_address. rewrite existsb_exists, list_elem_of_fmap. split.
  - intros (p & Hp & E%bool_decide_eq_true). exists p. split; [done|]. by apply list_elem_of_In.
  - intros (p & -> & Hp). exists p. split; [by apply list_elem_of_In|]. by apply bool_decide_eq_true.
Qed.

Lemma update_first_adr p peers : adr <$> update_first p peers = adr <$> peers.
Proof. induction peers as [|x peers IH]; [done|]. cbn. case_bool_decide as E; cbn; congruence. Qed.

Lemma erase_first_sublist a peers : erase_first a peers `sublist_of` peers.
Proof. induction peers as [|x peers IH]; [done|]. cbn. case_bool_decide; [by apply sublist_cons|by apply sublist_skip]. Qed.

Lemma erase_first_gone a peers : NoDup (adr <$> peers) -> a ∉ adr <$> erase_first a peers.
Proof.
  induction peers as [|x peers IH]; [intros _ H; by apply elem_of_nil in H|]. cbn. intros [Hx Hn]%NoDup_cons. case_bool_decide as E.
  - by subst.
  - cbn. rewrite elem_of_cons. intros [->|H]; [done|]. by apply IH.
Qed.

Lemma update_first_Forall (P : PeerlistEntry -> Prop) p peers : P p -> Forall P peers -> Forall P (update_first p peers).
Proof. intros Hp. induction 1; cbn; [done|]. case_bool_decide; by constructor. Qed.

Section Order.
Context (sort_peers : list PeerlistEntry -> list PeerlistEntry) (sort_peers_perm : forall l, sort_peers l ≡ₚ l).

Lemma trim_perm maxSize l : exists dropped, trim sort_peers maxSize l ++ dropped ≡ₚ l.
Proof.
  unfold trim. destruct (length l <=? maxSize)%nat; [exists []; by rewrite app_nil_r|].
  exists (drop maxSize (sort_peers l)). by rewrite take_drop.
Qed.

Lemma trim_length maxSize l : (length (trim sort_peers maxSize l) <= maxSize)%nat.
Proof. unfold trim. destruct (Nat.leb_spec (length l) maxSize); [done|]. rewrite length_take. lia. Qed.

Lemma trim_once maxSize l : NoDup (adr <$> l) -> NoDup (adr <$> trim sort_peers maxSize l).
Proof.
  intros H. destruct (trim_perm maxSize l) as [d Hd]. rewrite <- Hd, fmap_app in H. by apply NoDup_app in H as [H _].
Qed.

Lemma trim_elem maxSize l p : p ∈ trim sort_peers maxSize l -> p ∈ l.
Proof. destruct (trim_perm maxSize l) as [d Hd]. intros Hp. rewrite <- Hd. apply elem_of_app. by left. Qed.

Lemma trim_adr maxSize l a : a ∈ adr <$> trim sort_peers maxSize l -> a ∈ adr <$> l.
Proof. intros (p & -> & Hp)%list_elem_of_fmap. apply list_elem_of_fmap_2. by apply trim_elem in Hp. Qed.

Lemma trim_Forall P maxSize l : Forall P l -> Forall P (trim sort_peers maxSize l).
Proof. rewrite !Forall_forall. intros H p Hp. apply H. by apply trim_elem in Hp. Qed.

(** A list with a peer appended or replaced. *)
Definition put (limit : nat) (p : PeerlistEntry) (l : list PeerlistEntry) : list PeerlistEntry :=
  if negb (has_address (adr p) l) then trim sort_peers limit (l ++ [p]) else update_first p l.

Lemma put_ok limit p l (P : PeerlistEntry -> Prop) : NoDup (adr <$> l) -> (length l <= limit)%nat -> P p -> Forall P l ->
  NoDup (adr <$> put limit p l) /\ (length (put limit p l) <= limit)%nat /\ Forall P (put limit p l) /\
  (forall a, a ∈ adr <$> put limit p l -> a ∈ adr <$> l \/ a = adr p).
Proof.
  intros Hn Hl Hp HP. unfold put. destruct (has_address (adr p) l) eqn:E; cbn [negb].
  - rewrite update_first_adr. split; [done|]. rewrite <- (length_fmap adr), update_first_adr, length_fmap. split; [done|].
    split; [by apply update_first_Forall|by left].
  - split; [|split; [apply trim_length|split]].
    + apply trim_once. rewrite fmap_app. apply NoDup_app. split; [done|]. split; [|apply NoDup_singleton].
      intros a Ha Hb. cbn in Hb. apply list_elem_of_singleton in Hb as ->. apply has_address_spec in Ha. congruence.
    + apply trim_Forall. apply Forall_app. split; [done|by apply Forall_singleton].
    + intros a Ha%trim_adr. rewrite fmap_app, elem_of_app in Ha. destruct Ha as [|Ha]; [by left|]. right. by apply list_elem_of_singleton in Ha.
Qed.

Lemma append_white_ok p m : peers_ok m -> peers_ok (append_with_peer_white sort_peers p m).
Proof.
  intros [Hw Hg Hd Hlw Hlg Ha]. unfold append_with_peer_white. destruct (is_ip_allowed m (ip (adr p))) eqn:Ei; cbn [negb]; [|by split].
  apply Forall_app in Ha as [Haw Hag]. fold (put P2P_LOCAL_WHITE_PEERLIST_LIMIT p (m_peers_white m)).
  destruct (put_ok _ p _ (fun p => is_ip_allowed m (ip (adr p)) = true) Hw Hlw Ei Haw) as (Hn & Hl & HP & Hin).
  pose proof (erase_first_sublist (adr p) (m_peers_gray m)) as Hs. split; cbn [m_peers_white m_peers_gray m_allow_local_ip].
  - done.
  - eapply sublist_NoDup; [exact Hg|by apply fmap_sublist].
  - intros a Ha1 Ha2. destruct (Hin a Ha1) as [Ha3| ->].
    + apply (Hd a); [done|]. eapply elem_of_sublist; [exact Ha2|by apply fmap_sublist].
    + exact (erase_first_gone _ _ Hg Ha2).
  - done.
  - apply sublist_length in Hs. lia.
  - apply Forall_app. split; [exact HP|]. rewrite Forall_forall in Hag |- *. intros q Hq. apply Hag. by eapply elem_of_sublist.
Qed.

Lemma append_gray_ok p m : peers_ok m -> peers_ok (append_with_peer_gray sort_peers p m).
Proof.
  intros [Hw Hg Hd Hlw Hlg Ha]. unfold append_with_peer_gray. destruct (is_ip_allowed m (ip (adr p))) eqn:Ei; cbn [negb]; [|by split].
  destruct (has_address (adr p) (m_peers_white m)) eqn:Eh; [by split|].
  apply Forall_app in Ha as [Haw Hag]. fold (put P2P_LOCAL_GRAY_PEERLIST_LIMIT p (m_peers_gray m)).
  destruct (put_ok _ p _ (fun p => is_ip_allowed m (ip (adr p)) = true) Hg Hlg Ei Hag) as (Hn & Hl & HP & Hin).
  split; cbn [m_peers_white m_peers_gray m_allow_local_ip]; [done|done| |done|done|].
  - intros a Ha1 Ha2. destruct (Hin a Ha2) as [Ha3| ->]; [by apply (Hd a)|]. apply has_address_spec in Ha1. congruence.
  - apply Forall_app. split; [exact Haw|exact HP].
Qed.

Lemma sorted_ok m gray white : peers_ok m -> gray ≡ₚ m_peers_gray m -> white ≡ₚ m_peers_white m ->
  peers_ok (mkPeerlistManager (m_allow_local_ip m) gray white).
Proof.
  intros [Hw Hg Hd Hlw Hlg Ha] Eg Ew. split; cbn [m_peers_white m_peers_gray m_allow_local_ip]; [by rewrite Ew|by rewrite Eg| | | |].
  - intros a. rewrite Ew, Eg. apply Hd.
  - by rewrite Ew.
  - by rewrite Eg.
  - change (Forall (fun p => is_ip_allowed m (ip (adr p)) = true) (white ++ gray)). by rewrite Ew, Eg.
Qed.

Lemma merge_ok peers m : peers_ok m -> peers_ok (merge_peerlist sort_peers peers m).
Proof.
  intros Hm. unfold merge_peerlist. assert (peers_ok (fold_left (fun m be => append_with_peer_gray sort_peers be m) peers m)) as H.
  { revert m Hm. induction peers as [|p peers IH]; intros m Hm; [done|]. cbn. apply IH. by apply append_gray_ok. }
  unfold trim. pose proof (gray_short _ H) as Hl. rewrite (proj2 (Nat.leb_le _ _) Hl). by apply sorted_ok.
Qed.

(** The operations of the node on its lists. *)
Inductive peer_step : PeerlistManager -> PeerlistManager -> Prop :=
  | step_white p m : peer_step m (append_with_peer_white sort_peers p m)
  | step_gray p m : peer_step m (append_with_peer_gray sort_peers p m)
  | step_seen now peer ip port m : peer_step m (set_peer_just_seen sort_peers now peer ip port m)
  | step_remote now local_time peers m m' : handle_remote_peerlist sort_peers now local_time peers m = Some m' -> peer_step m m'
  | step_head depth m : peer_step m (get_peerlist_head sort_peers depth m).2
  | step_get_white i m : peer_step m (get_white_peer_by_index sort_peers i m).2
  | step_get_gray i m : peer_step m (get_gray_peer_by_index sort_peers i m).2.

Lemma get_perm i l : (Peerlist_get sort_peers i l).2 ≡ₚ l.
Proof. unfold Peerlist_get. by destruct (length l <=? i)%nat; cbn. Qed.

Lemma peer_step_ok m m' : peers_ok m -> peer_step m m' -> peers_ok m'.
Proof.
  intros Hm Hs. destruct Hs as [p m|p m|now peer i port m|now local_time peers m m' E|depth m|i m|i m].
  - by apply append_white_ok.
  - by apply append_gray_ok.
  - by apply append_white_ok.
  - unfold handle_remote_peerlist in E. destruct (fix_time_delta _ _ _) as [l|]; [|done]. injection E as <-. by apply merge_ok.
  - by apply sorted_ok; cbn.
  - unfold get_white_peer_by_index. pose proof (get_perm i (m_peers_white m)). destruct (Peerlist_get _ _ _) as [p l]. by apply sorted_ok.
  - unfold get_gray_peer_by_index. pose proof (get_perm i (m_peers_gray m)). destruct (Peerlist_get _ _ _) as [p l]. by apply sorted_ok.
Qed.

(** C23: From empty lists, whatever peers the node reaches, is told of and asks for, both lists hold an address
    once, no address is in both, they keep their limits, and they hold only
    addresses that are allowed. *)
Theorem peer_lists_ok allow m : rtc peer_step (new_peerlist allow) m -> peers_ok m.
Proof.
  intros H. assert (peers_ok (new_peerlist allow)) as H0.
  { split; cbn; [constructor|constructor|by intros a ?%elem_of_nil|unfold P2P_LOCAL_WHITE_PEERLIST_LIMIT; lia|unfold P2P_LOCAL_GRAY_PEERLIST_LIMIT; lia|constructor]. }
  revert H0. induction H as [|m0 m1 m2 Hs _ IH]; [done|]. intros H0. apply IH. by eapply peer_step_ok.
Qed.

(** ** The order of the lists *)

Context (sort_peers_sorted : forall l, StronglySorted (fun p q => last_seen q <= last_seen p) (sort_peers l)).

(** A list that has grown too long loses the peers that were seen the longest time ago. *)
Theorem trim_keeps_newest maxSize l : exists dropped, trim sort_peers maxSize l ++ dropped ≡ₚ l /\
  (length (trim sort_peers maxSize l) = Nat.min maxSize (length l)) /\
  (forall p q, p ∈ trim sort_peers maxSize l -> q ∈ dropped -> last_seen q <= last_seen p).
Proof.
  unfold trim. destruct (Nat.leb_spec (length l) maxSize).
  - exists []. rewrite app_nil_r. split; [done|]. split; [lia|]. by intros p q _ ?%elem_of_nil.
  - exists (drop maxSize (sort_peers l)). rewrite take_drop. split; [done|]. split; [by rewrite length_take, (Permutation_length (sort_peers_perm l))|].
    intros p q Hp Hq. pose proof (sort_peers_sorted l) as Hs. rewrite <- (take_drop maxSize (sort_peers l)) in Hs.
    by apply (StronglySorted_app_1_elem_of _ _ _ p q Hs).
Qed.

Lemma head_loop_all peers i depth : Forall (fun p => last_seen p <> 0) peers -> fits 31 depth -> 0 <= i <= depth + 1 ->
  head_loop peers i depth = take (Z.to_nat (depth + 2 - i)) peers.
Proof.
  intros Hp Hd. unfold fits in Hd. revert i. induction Hp as [|p peers Hp _ IH]; intros i Hi; cbn [head_loop]; [by rewrite take_nil|].
  rewrite (proj2 (Z.eqb_neq _ _) Hp). destruct (Z.ltb_spec depth i).
  - replace (Z.to_nat (depth + 2 - i)) with 1%nat by lia. cbn [take]. by destruct peers.
  - destruct (decide (i + 1 = 2 ^ 32)) as [E|E].
    + exfalso. lia.
    + rewrite wrap_small by (unfold fits; lia). rewrite IH by lia. replace (Z.to_nat (depth + 2 - i)) with (S (Z.to_nat (depth + 2 - (i + 1)))) by lia. done.
Qed.

(** The peers a node sends at a handshake are those seen last, newest first; of a list
    that is long enough there are two more than [depth]. *)
Theorem peerlist_head_correct depth m : fits 31 depth -> Forall (fun p => last_seen p <> 0) (m_peers_white m) ->
  (get_peerlist_head sort_peers depth m).1 = take (Z.to_nat (depth + 2)) (sort_peers (m_peers_white m)) /\
  StronglySorted (fun p q => last_seen q <= last_seen p) (get_peerlist_head sort_peers depth m).1.
Proof.
  intros Hd Hp. unfold get_peerlist_head, fits in *. cbn [fst]. rewrite head_loop_all; [|by rewrite sort_peers_perm|done|lia].
  replace (depth + 2 - 0) with (depth + 2) by lia. split; [done|].
  pose proof (sort_peers_sorted (m_peers_white m)) as Hs. rewrite <- (take_drop (Z.to_nat (depth + 2)) (sort_peers (m_peers_white m))) in Hs.
  by apply StronglySorted_app_1_l in Hs.
Qed.
End Order.

(** An address, whose first byte is the lowest, may be in a list unless it is of the
    loopback network or, when local addresses are not allowed, of one of the private
    networks 10/8, 172.16/12 and 192.168/16. *)
Theorem is_ip_allowed_correct m a b c d : byte_ok a -> byte_ok b -> byte_ok c -> byte_ok d ->
  is_ip_allowed m (quad d c b a) = true <->
  a <> 127 /\ (m_allow_local_ip m = true \/ ~ (a = 10 \/ a = 172 /\ 16 <= b < 32 \/ a = 192 /\ b = 168)).
Proof.
  intros Ha Hb Hc Hd. unfold is_ip_allowed, networkToHost. rewrite quad_swap by done.
  destruct (quad_ranges a b c d Ha Hb Hc Hd) as [-> ->]. destruct (Z.eqb_spec a 127) as [->|Hl]; [split; [done|by intros [? _]]|].
  destruct (m_allow_local_ip m); cbn [negb andb]; [split; [auto|done]|].
  destruct ((a =? 10) || ((a =? 172) && (16 <=? b) && (b <? 32)) || ((a =? 192) && (b =? 168))) eqn:E.
  - split; [done|]. intros [_ [|H]]; [done|]. exfalso. apply H. lia.
  - split; [|done]. intros _. split; [done|]. right. lia.
Qed.

(** ** Times of other clocks *)

(** From a list whose times are not after the clock of its sender and go back no further than
    the clock of the node, every time is moved to the clock of the node and none
    is in the future. *)
Theorem fix_time_delta_correct now local_time peers : fits 62 now -> fits 62 local_time ->
  Forall (fun p => local_time - now <= last_seen p <= local_time /\ 0 <= last_seen p) peers ->
  exists fixed, fix_time_delta now local_time peers = Some fixed /\ adr <$> fixed = adr <$> peers /\
    last_seen <$> fixed = (fun p => now - (local_time - last_seen p)) <$> peers /\ Forall (fun p => last_seen p <= now) fixed.
Proof.
  intros Hn Hl Hp. induction Hp as [|p peers (Hp & Hz) _ (fixed & E & Ea & Es & Hf)]; [by exists []|].
  unfold fits in *. cbn [fix_time_delta]. rewrite (wrap_small 64 local_time) by (unfold fits; lia).
  rewrite (proj2 (Z.ltb_ge _ _)) by lia. rewrite E. cbn [mbind option_bind]. eexists. split; [done|].
  rewrite wrap_small by (unfold fits; lia). cbn [fmap list_fmap adr last_seen]. split; [by f_equal|]. split; [f_equal; [lia|exact Es]|].
  constructor; [cbn; lia|done].
Qed.

(** The check against times in the future misses some: when the sender gives a clock that
    is far ahead, times before the clock of the node wrap around to the end of the
    range, and such peers come before all others in every order. *)
Theorem far_future_peers now local_time p : fits 62 now -> fits 62 local_time -> fits 62 (last_seen p) -> last_seen p + now < local_time ->
  exists q, fix_time_delta now local_time [p] = Some [q] /\ adr q = adr p /\ 2 ^ 63 < last_seen q.
Proof.
  unfold fits. intros Hn Hl Hs H. cbn [fix_time_delta]. rewrite (wrap_small 64 local_time) by (unfold fits; lia).
  rewrite (proj2 (Z.ltb_ge _ _)) by lia. eexists. split; [done|]. split; [done|]. cbn [last_seen]. unfold wrap.
  rewrite <- (Z.mod_add _ 1) by lia. rewrite Z.mod_small; lia.
Qed.

(** ** Samples *)

Definition by_seen (p q : PeerlistEntry) : Prop := last_seen q <= last_seen p.
#[global] Instance by_seen_dec : RelDecision by_seen.
Proof. intros p q. unfold by_seen. apply _. Defined.
#[global] Instance by_seen_total : Total by_seen.
Proof. intros p q. unfold by_seen. lia. Qed.
#[global] Instance by_seen_trans : Transitive by_seen.
Proof. intros p q r. unfold by_seen. lia. Qed.

Definition newest_first (l : list PeerlistEntry) : list PeerlistEntry := merge_sort by_seen l.

Lemma newest_first_perm l : newest_first l ≡ₚ l.
Proof. apply merge_sort_Permutation. Qed.

Lemma newest_first_sorted l : StronglySorted (fun p q => last_seen q <= last_seen p) (newest_first l).
Proof. exact (StronglySorted_merge_sort by_seen l). Qed.

Definition sample_peer (n t : Z) : PeerlistEntry := mkPeerlistEntry (mkNetworkAddress (quad n 2 3 8) 11897) n t.

Lemma peer_lists_ok_witness : exists m, m_peers_white m = [sample_peer 1 50] /\ m_peers_gray m = [sample_peer 2 40] /\ peers_ok m.
Proof.
  exists (append_with_peer_white newest_first (sample_peer 1 50) (append_with_peer_gray newest_first (sample_peer 2 40) (new_peerlist false))).
  split; [vm_compute; reflexivity|]. split; [vm_compute; reflexivity|].
  apply (peer_lists_ok newest_first newest_first_perm false). eapply rtc_l; [apply step_gray|]. eapply rtc_l; [apply step_white|]. apply rtc_refl.
Defined.

Lemma trim_keeps_newest_witness : exists dropped,
  trim newest_first 1 [sample_peer 1 40; sample_peer 2 50] ++ dropped ≡ₚ [sample_peer 1 40; sample_peer 2 50] /\
  trim newest_first 1 [sample_peer 1 40; sample_peer 2 50] = [sample_peer 2 50].
Proof.
  destruct (trim_keeps_newest newest_first newest_first_perm newest_first_sorted 1 [sample_peer 1 40; sample_peer 2 50]) as (d & H & _).
  exists d. split; [exact H|vm_compute; reflexivity].
Defined.

Lemma peerlist_head_correct_witness :
  (get_peerlist_head newest_first 0 (mkPeerlistManager false [] [sample_peer 1 40; sample_peer 2 50; sample_peer 3 45])).1 =
  [sample_peer 2 50; sample_peer 3 45].
Proof.
  destruct (peerlist_head_correct newest_first newest_first_perm newest_first_sorted 0
    (mkPeerlistManager false [] [sample_peer 1 40; sample_peer 2 50; sample_peer 3 45])) as [E _].
  - vm_compute. split; [discriminate|reflexivity].
  - repeat constructor; vm_compute; discriminate.
  - rewrite E. vm_compute. reflexivity.
Defined.

Lemma is_ip_allowed_correct_witness : is_ip_allowed (new_peerlist false) (quad 1 0 0 8) = true.
Proof. apply (is_ip_allowed_correct (new_peerlist false) 8 0 0 1); [done|done|done|done|]. split; [lia|]. right. lia. Defined.

Lemma fix_time_delta_correct_witness : fix_time_delta 1000 1010 [sample_peer 1 900] = Some [sample_peer 1 890].
Proof.
  destruct (fix_time_delta_correct 1000 1010 [sample_peer 1 900]) as (fixed & E & _ & Es & _).
  - done.
  - done.
  - repeat constructor; vm_compute; discriminate.
  - rewrite E. vm_compute in E. injection E as <-. reflexivity.
Defined.

Lemma far_future_peers_witness : exists q, fix_time_delta 1000 2000000 [sample_peer 1 900] = Some [q] /\ 2 ^ 63 < last_seen q.
Proof.
  destruct (far_future_peers 1000 2000000 (sample_peer 1 900)) as (q & E & _ & H); [done|done|done|vm_compute; reflexivity|].
  exists q. split; [exact E|exact H].
Defined.
