(* ===== verification/ProtocolHandler.v ===== *)
(** * The protocol between nodes

    [CryptoNoteProtocolHandler] of
    src/src/cryptonote_protocol/cryptonote_protocol_handler.cpp: what a node does with the
    notifications of its peers and how it follows them.  The core is reached through
    the interface [ICore]; the network keeps the connections, and what is sent is
    listed in order.  A connection is a value of
    src/src/p2p/connection_context.h, under its identifier.

    Handlers run in the dispatcher of the node, one at a time.  The only
    place where another may run in between is [m_dispatcher.yield()] while blocks
    are added; what the others do there is the argument [yield].  Observers and
    logging are left out. *)

From stdpp Require Import base gmap sets list.
From S2P Require Import Prelude Config Bytes Types Serialization Block BlockchainCache Validation Core KvBinary Messages.
#[local] Open Scope list_scope.
#[local] Open Scope Z_scope.

Definition P2P_LITE_BLOCKS_PROPOGATION_VERSION : Z := 4.

(** ** connection_context.h *)

Inductive state :=
  | state_befor_handshake
  | state_synchronizing
  | state_idle
  | state_normal
  | state_sync_required
  | state_pool_sync_required
  | state_shutdown.
#[global] Instance state_eq_dec : EqDecision state.
Proof. solve_decision. Defined.

Record PendingLiteBlock := mkPendingLiteBlock {
  pending_request : NOTIFY_NEW_LITE_BLOCK_request;
  missed_transactions : gset Hash }.

(** With the identifier of the peer of [P2pConnectionContext], 0 before the handshake. *)
Record CryptoNoteConnectionContext := mkContext {
  peer_version : Z;
  m_is_income : bool;
  m_state : state;
  m_pending_lite_block : option PendingLiteBlock;
  m_needed_objects : list Hash;
  m_requested_objects : gset Hash;
  m_remote_blockchain_height : Z;
  m_last_response_height : Z;
  m_remote_ip : Z;
  m_remote_port : Z;
  peerId : Z }.

Definition set_state (s : state) (c : CryptoNoteConnectionContext) : CryptoNoteConnectionContext :=
  mkContext (peer_version c) (m_is_income c) s (m_pending_lite_block c) (m_needed_objects c) (m_requested_objects c)
    (m_remote_blockchain_height c) (m_last_response_height c) (m_remote_ip c) (m_remote_port c) (peerId c).

Definition set_pending (p : option PendingLiteBlock) (c : CryptoNoteConnectionContext) : CryptoNoteConnectionContext :=
  mkContext (peer_version c) (m_is_income c) (m_state c) p (m_needed_objects c) (m_requested_objects c)
    (m_remote_blockchain_height c) (m_last_response_height c) (m_remote_ip c) (m_remote_port c) (peerId c).

Definition set_objects (needed : list Hash) (requested : gset Hash) (c : CryptoNoteConnectionContext) : CryptoNoteConnectionContext :=
  mkContext (peer_version c) (m_is_income c) (m_state c) (m_pending_lite_block c) needed requested
    (m_remote_blockchain_height c) (m_last_response_height c) (m_remote_ip c) (m_remote_port c) (peerId c).

Definition set_heights (remote last : Z) (c : CryptoNoteConnectionContext) : CryptoNoteConnectionContext :=
  mkContext (peer_version c) (m_is_income c) (m_state c) (m_pending_lite_block c) (m_needed_objects c) (m_requested_objects c)
    remote last (m_remote_ip c) (m_remote_port c) (peerId c).

Definition set_peer (version peer : Z) (c : CryptoNoteConnectionContext) : CryptoNoteConnectionContext :=
  mkContext version (m_is_income c) (m_state c) (m_pending_lite_block c) (m_needed_objects c) (m_requested_objects c)
    (m_remote_blockchain_height c) (m_last_response_height c) (m_remote_ip c) (m_remote_port c) peer.

(** ** add_block_error_condition.h *)

Inductive AddBlockErrorCondition :=
  | BLOCK_ADDED
  | BLOCK_REJECTED
  | BLOCK_VALIDATION_FAILED
  | TRANSACTION_VALIDATION_FAILED
  | BLOCK_DESERIALIZATION_FAILED.
#[global] Instance AddBlockErrorCondition_eq_dec : EqDecision AddBlockErrorCondition.
Proof. solve_decision. Defined.

(** The condition an error code is [equivalent] to; an exception is none. *)
Definition condition_of (r : AddBlockResult) : option AddBlockErrorCondition :=
  match r with
  | AddBlockCode (ADDED_TO_MAIN | ADDED_TO_ALTERNATIVE | ADDED_TO_ALTERNATIVE_AND_SWITCHED | ALREADY_EXISTS) => Some BLOCK_ADDED
  | AddBlockCode DESERIALIZATION_FAILED => Some BLOCK_DESERIALIZATION_FAILED
  | AddBlockCode REJECTED_AS_ORPHANED => Some BLOCK_REJECTED
  | Rejected (BlockError _) => Some BLOCK_VALIDATION_FAILED
  | Rejected (TransactionError _) => Some TRANSACTION_VALIDATION_FAILED
  | Rejected Exception => None
  end.

(** ** ICore *)

(** The operations of the core the handler uses; [None] is an exception. *)
Class ICore (C : Type) := {
  core_hasBlock : C -> Hash -> bool;
  core_addBlock : CachedBlock -> RawBlock -> C -> option (AddBlockResult * C);
  core_addBlock_raw : RawBlock -> C -> option (AddBlockResult * C);
  core_addTransactionToPool : BinaryArray -> C -> option (bool * C);
  core_top : C -> option Z;
  core_top_hash : C -> option Hash;
  core_hash_at : C -> Z -> option Hash;
  core_sparse_chain : C -> option (list Hash);
  core_supplement : C -> list Hash -> Z -> option (list Hash * Z * Z);
  core_getBlocks : C -> list Hash -> option (list RawBlock * list Hash);
  core_transaction : C -> Hash -> option (option BinaryArray);
  core_transactions : C -> list Hash -> option (list BinaryArray * list Hash);
  core_pool_hashes : C -> list Hash;
  core_pool_changes : C -> Hash -> list Hash -> option (list BinaryArray) }.

(** ** The node *)

(** Where a notification goes: to one connection, to all but one, to those of a list. *)
Inductive Destination :=
  | ToPeer (id : Z)
  | ToAll (excludeConnection : option Z)
  | ToList (relayList : gset Z).

Record Node (C : Type) := mkNode {
  m_core : C;
  m_connections : gmap Z CryptoNoteConnectionContext;
  m_synchronized : bool;
  m_stop : bool;
  m_observedHeight : Z;
  m_blockchainHeight : Z;
  m_peersCount : Z;
  sent : list (Destination * Notification) }.
Arguments mkNode {C} _ _ _ _ _ _ _ _.
Arguments m_core {C} _.
Arguments m_connections {C} _.
Arguments m_synchronized {C} _.
Arguments m_stop {C} _.
Arguments m_observedHeight {C} _.
Arguments m_blockchainHeight {C} _.
Arguments m_peersCount {C} _.
Arguments sent {C} _.

(** A handler changes a state; it answers, or throws and leaves the state as it is then.
    [None] is an exception out of the core. *)
Definition act (S A : Type) : Type := S -> option (option A * S).
#[global] Instance act_ret {S} : MRet (act S) := fun A a s => Some (Some a, s).
#[global] Instance act_bind {S} : MBind (act S) := fun A B f m s =>
  match m s with
  | Some (Some a, s) => f a s
  | Some (None, s) => Some (None, s)
  | None => None
  end.

Definition throw {S A} : act S A := fun s => Some (None, s).
Definition get {S} : act S S := fun s => Some (Some s, s).
Definition ask {S A} (f : S -> option A) : act S A := fun s => a ← f s; Some (Some a, s).
Definition modify {S} (f : S -> S) : act S unit := fun s => Some (Some tt, f s).

Section Handler.
Context {C : Type} `{ICore C}.
Context (cn_fast_hash : list Z -> list Z).
Context (yield : Node C -> Node C).
#[local] Notation node_act := (act (Node C)).

Definition set_core (c : C) (n : Node C) : Node C :=
  mkNode c (m_connections n) (m_synchronized n) (m_stop n) (m_observedHeight n) (m_blockchainHeight n) (m_peersCount n) (sent n).
Definition set_connections (m : gmap Z CryptoNoteConnectionContext) (n : Node C) : Node C :=
  mkNode (m_core n) m (m_synchronized n) (m_stop n) (m_observedHeight n) (m_blockchainHeight n) (m_peersCount n) (sent n).
Definition set_synchronized (b : bool) (n : Node C) : Node C :=
  mkNode (m_core n) (m_connections n) b (m_stop n) (m_observedHeight n) (m_blockchainHeight n) (m_peersCount n) (sent n).
Definition set_observed (observed blockchain : Z) (n : Node C) : Node C :=
  mkNode (m_core n) (m_connections n) (m_synchronized n) (m_stop n) observed blockchain (m_peersCount n) (sent n).
Definition set_peersCount (count : Z) (n : Node C) : Node C :=
  mkNode (m_core n) (m_connections n) (m_synchronized n) (m_stop n) (m_observedHeight n) (m_blockchainHeight n) count (sent n).
Definition add_sent (d : Destination) (r : Notification) (n : Node C) : Node C :=
  mkNode (m_core n) (m_connections n) (m_synchronized n) (m_stop n) (m_observedHeight n) (m_blockchainHeight n) (m_peersCount n) (sent n ++ [(d, r)]).

(** The context of the handler, and a change of it. *)
Definition context (id : Z) : node_act CryptoNoteConnectionContext := ask (fun n => m_connections n !! id).
Definition update (id : Z) (f : CryptoNoteConnectionContext -> CryptoNoteConnectionContext) : node_act unit :=
  modify (fun n => set_connections (alter f id (m_connections n)) n).

(** An operation that changes the core. *)
Definition on_core {A} (f : C -> option (A * C)) : node_act A := fun n =>
  '(a, c) ← f (m_core n);
  Some (Some a, set_core c n).
Definition ask_core {A} (f : C -> option A) : node_act A := ask (fun n => f (m_core n)).

(** [post_notify]; the answer is whether the connection is still there. *)
Definition post (r : Notification) (id : Z) : node_act bool :=
  n ← get;
  match m_connections n !! id with
  | Some _ => _ ← modify (add_sent (ToPeer id) r); mret true
  | None => mret false
  end.
(** [relay_post_notify] and [externalRelayNotifyToList], which hand the message to the
    dispatcher and return.  It is recorded here at the call; the dispatcher sends it later, to
    those peers of [ToAll] or [ToList] that are then connected, have an identifier and are
    in the normal or the synchronizing state. *)
Definition relay (d : Destination) (r : Notification) : node_act unit := modify (add_sent d r).

(** ** Heights *)

Definition get_current_blockchain_height : node_act Z := top ← ask_core core_top; mret (u32 (top + 1)).

Definition get_payload_sync_data : node_act CORE_SYNC_DATA :=
  top_id ← ask_core core_top_hash;
  top ← ask_core core_top;
  mret (mkCoreSyncData (u32 (top + 1)) top_id).

(** The greatest height of the other peers. *)
Definition max_peer_height (id : Z) (connections : gmap Z CryptoNoteConnectionContext) : Z :=
  map_fold (fun id' ctx peerHeight => if id' =? id then peerHeight else Z.max peerHeight (m_remote_blockchain_height ctx)) 0 connections.

Definition recalculateMaxObservedHeight (id : Z) : node_act Z :=
  ctx ← context id;
  n ← get;
  top ← ask_core core_top;
  mret (if bool_decide (m_state ctx = state_normal) then top else Z.max (max_peer_height id (m_connections n)) (u32 (top + 1))).

Definition updateObservedHeight (peerHeight : Z) (id : Z) : node_act unit :=
  ctx ← context id;
  n ← get;
  let remote := m_remote_blockchain_height ctx in
  observed ←
    (if negb (remote =? 0) && (m_last_response_height ctx <=? u32 (remote - 1)) then mret (u32 (remote - 1))
     else if remote <? peerHeight then mret (Z.max (m_observedHeight n) peerHeight)
     else if negb (peerHeight =? remote) && (remote =? m_observedHeight n) then recalculateMaxObservedHeight id
     else mret (m_observedHeight n));
  modify (set_observed observed (if m_blockchainHeight n <? peerHeight then peerHeight else m_blockchainHeight n)).

Definition set_remote_height (height : Z) (id : Z) : node_act unit := update id (fun c => set_heights height (m_last_response_height c) c).

(** ** Synchronisation *)

Definition on_connection_synchronized : node_act unit :=
  n ← get;
  if m_synchronized n then mret tt
  else _ ← ask_core core_top; modify (set_synchronized true).

Definition post_request_chain (id : Z) : node_act unit :=
  block_ids ← ask_core core_sparse_chain;
  _ ← post (NOTIFY_REQUEST_CHAIN (mkRequestChain block_ids)) id;
  mret tt.

Definition start_sync (id : Z) : node_act bool :=
  ctx ← context id;
  if bool_decide (m_state ctx = state_synchronizing) then _ ← post_request_chain id; mret true else mret true.

Definition requestMissingPoolTransactions (id : Z) : node_act unit :=
  ctx ← context id;
  if peer_version ctx <? 1 then mret tt
  else
    n ← get;
    _ ← post (NOTIFY_REQUEST_TX_POOL (mkRequestTxPool (core_pool_hashes (m_core n)))) id;
    mret tt.

(** The answer is always true. *)
Definition process_payload_sync_data (hshd : CORE_SYNC_DATA) (id : Z) (is_initial : bool) : node_act bool :=
  ctx ← context id;
  if bool_decide (m_state ctx = state_befor_handshake) && negb is_initial then mret true
  else
    n ← get;
    _ ← (if bool_decide (m_state ctx = state_synchronizing) then mret tt
         else if core_hasBlock (m_core n) (top_id hshd) then
           if is_initial then _ ← on_connection_synchronized; update id (set_state state_pool_sync_required)
           else update id (set_state state_normal)
         else _ ← get_current_blockchain_height; update id (set_state state_sync_required));
    _ ← updateObservedHeight (current_height hshd) id;
    _ ← set_remote_height (current_height hshd) id;
    _ ← (if is_initial then modify (fun n => set_peersCount (u64 (m_peersCount n + 1)) n) else mret tt);
    mret true.

Definition onConnectionClosed (id : Z) : node_act unit :=
  observed ← recalculateMaxObservedHeight id;
  _ ← modify (fun n => set_observed observed (m_blockchainHeight n) n);
  ctx ← context id;
  if bool_decide (m_state ctx = state_befor_handshake) then mret tt
  else modify (fun n => set_peersCount (u64 (m_peersCount n - 1)) n).

(** The loop over [m_needed_objects]: what stays needed, what is asked for, and what has
    been asked for. *)
Fixpoint request_loop (c : C) (check_having_blocks : bool) (needed : list Hash) (count : Z) (blocks : list Hash) (requested : gset Hash)
    : list Hash * list Hash * gset Hash :=
  match needed with
  | [] => ([], blocks, requested)
  | h :: rest =>
      if count <? BLOCKS_SYNCHRONIZING_DEFAULT_COUNT then
        if negb (check_having_blocks && core_hasBlock c h)
        then request_loop c check_having_blocks rest (count + 1) (blocks ++ [h]) ({[ h ]} ∪ requested)
        else request_loop c check_having_blocks rest count blocks requested
      else (needed, blocks, requested)
  end.

Definition request_missing_objects (id : Z) (check_having_blocks : bool) : node_act bool :=
  ctx ← context id;
  n ← get;
  match m_needed_objects ctx with
  | _ :: _ =>
      let '(needed, blocks, requested) :=
        request_loop (m_core n) check_having_blocks (m_needed_objects ctx) 0 [] (m_requested_objects ctx) in
      _ ← update id (set_objects needed requested);
      _ ← post (NOTIFY_REQUEST_GET_OBJECTS (mkRequestGetObjects [] blocks)) id;
      mret true
  | [] =>
      if m_last_response_height ctx <? u32 (m_remote_blockchain_height ctx - 1) then _ ← post_request_chain id; mret true
      else if negb ((m_last_response_height ctx =? u32 (m_remote_blockchain_height ctx - 1)) && (size (m_requested_objects ctx) =? 0)%nat)
      then mret false
      else
        _ ← requestMissingPoolTransactions id;
        _ ← update id (set_state state_normal);
        _ ← on_connection_synchronized;
        mret true
  end.

Definition drop_connection (id : Z) : node_act Z := _ ← update id (set_state state_shutdown); mret 1.

(** The hashes from the first that is not known. *)
Fixpoint unknown_from (c : C) (hashes : list Hash) : list Hash :=
  match hashes with
  | [] => []
  | h :: rest => if core_hasBlock c h then unknown_from c rest else hashes
  end.

Definition handle_response_chain_entry (arg : NOTIFY_RESPONSE_CHAIN_ENTRY_request) (id : Z) : node_act Z :=
  match m_block_ids arg with
  | [] => drop_connection id
  | front :: _ =>
      n ← get;
      if negb (core_hasBlock (m_core n) front) then drop_connection id
      else
        let last := u32 (start_height arg + u32 (Z.of_nat (length (m_block_ids arg))) - 1) in
        _ ← update id (set_heights (total_height arg) last);
        _ ← (if total_height arg <? last then update id (set_state state_shutdown) else mret tt);
        _ ← update id (fun c => set_objects (m_needed_objects c ++ unknown_from (m_core n) (m_block_ids arg)) (m_requested_objects c) c);
        _ ← request_missing_objects id false;
        mret 1
  end.

Definition handle_request_chain (arg : NOTIFY_REQUEST_CHAIN_request) (id : Z) : node_act Z :=
  match last (block_ids arg) with
  | None => drop_connection id
  | Some back =>
      genesis ← ask_core (fun c => core_hash_at c 0);
      if negb (bool_decide (back = genesis)) then drop_connection id
      else
        '(ids, total, start) ← ask_core (fun c => core_supplement c (block_ids arg) BLOCKS_IDS_SYNCHRONIZING_DEFAULT_COUNT);
        _ ← post (NOTIFY_RESPONSE_CHAIN_ENTRY (mkResponseChainEntry start total ids)) id;
        mret 1
  end.

Definition convertRawBlocksToRawBlocksLegacy (rawBlocks : list RawBlock) : list RawBlockLegacy :=
  (fun b => mkRawBlockLegacy (block b) (Types.transactions b)) <$> rawBlocks.
Definition convertRawBlocksLegacyToRawBlocks (legacy : list RawBlockLegacy) : list RawBlock :=
  (fun b => mkRawBlock (blockTemplate b) (transactions b)) <$> legacy.

Definition handle_request_get_objects (arg : NOTIFY_REQUEST_GET_OBJECTS_request) (id : Z) : node_act Z :=
  height ← get_current_blockchain_height;
  '(rawBlocks, missed_ids) ← ask_core (fun c => core_getBlocks c (request_blocks arg));
  _ ← post (NOTIFY_RESPONSE_GET_OBJECTS (mkResponseGetObjects [] (convertRawBlocksToRawBlocksLegacy rawBlocks) missed_ids height)) id;
  mret 1.

(** ** Blocks of a peer that is followed *)

(** How the loop of [handle_response_get_objects] ends. *)
Inductive ObjectsResult :=
  | AllRead (cachedBlocks : list CachedBlock) (requested : gset Hash)
  | WrongBlock (requested : gset Hash)
  | KnownBlock
  | Thrown (requested : gset Hash).

Fixpoint objects_loop (c : C) (index : nat) (rawBlocks : list RawBlock) (cachedBlocks : list CachedBlock) (requested : gset Hash)
    : ObjectsResult :=
  match rawBlocks with
  | [] => AllRead cachedBlocks requested
  | raw :: rest =>
      match fromBinaryArray read_block (block raw) with
      | None => WrongBlock requested
      | Some template =>
          match cached_block cn_fast_hash template with
          | None => Thrown requested
          | Some cached =>
              if (index =? 1)%nat && core_hasBlock c (cb_hash cached) then KnownBlock
              else if negb (bool_decide (cb_hash cached ∈ requested)) then WrongBlock requested
              else if negb (length (transactionHashes template) =? length (Types.transactions raw))%nat then WrongBlock requested
              else objects_loop c (S index) rest (cachedBlocks ++ [cached]) (requested ∖ {[ cb_hash cached ]})
          end
      end
  end.

(** [processObjects]: 0 when the blocks were added. *)
Fixpoint processObjects (id : Z) (blocks : list (CachedBlock * RawBlock)) : node_act Z :=
  match blocks with
  | [] => mret 0
  | (cached, raw) :: rest =>
      n ← get;
      if m_stop n then mret 0
      else
        addResult ← on_core (core_addBlock cached raw);
        match condition_of addResult with
        | None => throw
        | Some (BLOCK_VALIDATION_FAILED | TRANSACTION_VALIDATION_FAILED | BLOCK_DESERIALIZATION_FAILED | BLOCK_REJECTED) => drop_connection id
        | Some BLOCK_ADDED =>
            match addResult with
            | AddBlockCode ALREADY_EXISTS =>
                _ ← update id (set_state state_idle);
                _ ← update id (set_objects [] ∅);
                mret 1
            | _ => _ ← modify yield; processObjects id rest
            end
        end
  end.

Definition handle_response_get_objects (arg : NOTIFY_RESPONSE_GET_OBJECTS_request) (id : Z) : node_act Z :=
  ctx ← context id;
  if response_height arg <? m_last_response_height ctx then drop_connection id
  else
    _ ← updateObservedHeight (response_height arg) id;
    _ ← set_remote_height (response_height arg) id;
    n ← get;
    let rawBlocks := convertRawBlocksLegacyToRawBlocks (response_blocks arg) in
    match objects_loop (m_core n) 0 rawBlocks [] (m_requested_objects ctx) with
    | WrongBlock requested =>
        _ ← update id (fun c => set_objects (m_needed_objects c) requested c);
        drop_connection id
    | Thrown requested =>
        _ ← update id (fun c => set_objects (m_needed_objects c) requested c);
        throw
    | KnownBlock =>
        _ ← update id (set_state state_idle);
        _ ← update id (set_objects [] ∅);
        mret 1
    | AllRead cachedBlocks requested =>
        _ ← update id (fun c => set_objects (m_needed_objects c) requested c);
        if negb (size requested =? 0)%nat then drop_connection id
        else
          result ← processObjects id (zip cachedBlocks rawBlocks);
          if negb (result =? 0) then mret result
          else
            _ ← ask_core core_top;
            n ← get;
            ctx ← context id;
            if negb (m_stop n) && bool_decide (m_state ctx = state_synchronizing)
            then _ ← request_missing_objects id true; mret 1
            else mret 1
    end.

(** ** New blocks and transactions *)

(** A node that takes lite blocks gets the template alone. *)
Definition lite_peers (connections : gmap Z CryptoNoteConnectionContext) : gset Z :=
  dom (filter (fun p => P2P_LITE_BLOCKS_PROPOGATION_VERSION <= peer_version p.2) connections).
Definition normal_peers (connections : gmap Z CryptoNoteConnectionContext) : gset Z :=
  dom (filter (fun p => peer_version p.2 < P2P_LITE_BLOCKS_PROPOGATION_VERSION) connections).

Definition relayBlock (arg : NOTIFY_NEW_BLOCK_request) : node_act unit :=
  let lite_arg := mkNewLiteBlock (blockTemplate (new_block arg)) (new_block_height arg) (hop arg) in
  n ← get;
  _ ← (if bool_decide (lite_peers (m_connections n) = ∅) then mret tt
       else relay (ToList (lite_peers (m_connections n))) (NOTIFY_NEW_LITE_BLOCK lite_arg));
  if bool_decide (normal_peers (m_connections n) = ∅) then mret tt
  else relay (ToList (normal_peers (m_connections n))) (NOTIFY_NEW_BLOCK arg).

Definition relayTransactions (txs : list BinaryArray) : node_act unit := relay (ToAll None) (NOTIFY_NEW_TRANSACTIONS (mkNewTransactions txs)).

(** What follows an attempt to add a new block; [announce] relays it. *)
Definition after_addBlock (result : AddBlockResult) (announce : node_act unit) (id : Z) : node_act Z :=
  match condition_of result with
  | None => throw
  | Some BLOCK_ADDED =>
      match result with
      | AddBlockCode ADDED_TO_ALTERNATIVE_AND_SWITCHED => _ ← announce; _ ← requestMissingPoolTransactions id; mret 1
      | AddBlockCode ADDED_TO_MAIN => _ ← announce; mret 1
      | _ => mret 1
      end
  | Some BLOCK_REJECTED =>
      _ ← update id (set_state state_synchronizing);
      _ ← post_request_chain id;
      mret 1
  | Some _ => drop_connection id
  end.

Definition handle_notify_new_block (arg : NOTIFY_NEW_BLOCK_request) (id : Z) : node_act Z :=
  _ ← updateObservedHeight (new_block_height arg) id;
  _ ← set_remote_height (new_block_height arg) id;
  ctx ← context id;
  if negb (bool_decide (m_state ctx = state_normal)) then mret 1
  else
    result ← on_core (core_addBlock_raw (mkRawBlock (blockTemplate (new_block arg)) (transactions (new_block arg))));
    after_addBlock result (relayBlock (mkNewBlock (new_block arg) (new_block_height arg) (u32 (hop arg + 1)))) id.

(** The transactions of a lite block: those of the peer, those the core has, and those
    that are missing. *)
Fixpoint find_txs (c : C) (provided_txs : gmap Hash BinaryArray) (hashes : list Hash) : option (list BinaryArray * list Hash) :=
  match hashes with
  | [] => Some ([], [])
  | h :: rest =>
      match provided_txs !! h with
      | Some tx => '(have_txs, need_txs) ← find_txs c provided_txs rest; Some (tx :: have_txs, need_txs)
      | None =>
          blob ← core_transaction c h;
          '(have_txs, need_txs) ← find_txs c provided_txs rest;
          match blob with
          | Some tx => Some (tx :: have_txs, need_txs)
          | None => Some (have_txs, h :: need_txs)
          end
      end
  end.

(** [None] when a transaction of the peer cannot be read. *)
Fixpoint provided (missingTxs : list BinaryArray) (provided_txs : gmap Hash BinaryArray) : option (gmap Hash BinaryArray) :=
  match missingTxs with
  | [] => Some provided_txs
  | tx :: rest => _ ← fromBinaryArray read_transaction tx; provided rest (<[ cn_fast_hash tx := tx ]> provided_txs)
  end.

Definition doPushLiteBlock (arg : NOTIFY_NEW_LITE_BLOCK_request) (id : Z) (missingTxs : list BinaryArray) : node_act Z :=
  match fromBinaryArray read_block (lite_blockTemplate arg) with
  | None => drop_connection id
  | Some newBlockTemplate =>
      match provided missingTxs ∅ with
      | None => throw
      | Some provided_txs =>
          ctx ← context id;
          let refused := match m_pending_lite_block ctx with
                         | Some p => negb (bool_decide (missed_transactions p ⊆ dom provided_txs))
                         | None => false
                         end in
          if refused then _ ← update id (set_pending None); drop_connection id
          else
            '(have_txs, need_txs) ← ask_core (fun c => find_txs c provided_txs (transactionHashes newBlockTemplate));
            match need_txs with
            | [] =>
                _ ← update id (set_pending None);
                result ← on_core (core_addBlock_raw (mkRawBlock (lite_blockTemplate arg) have_txs));
                after_addBlock result
                  (relay (ToAll (Some id)) (NOTIFY_NEW_LITE_BLOCK (mkNewLiteBlock (lite_blockTemplate arg) (lite_height arg) (u32 (lite_hop arg + 1))))) id
            | _ =>
                if bool_decide (is_Some (m_pending_lite_block ctx)) then
                  _ ← update id (set_pending None); drop_connection id
                else
                  match Block.getBlockHash cn_fast_hash newBlockTemplate with
                  | None => throw
                  | Some blockHash =>
                      _ ← update id (set_pending (Some (mkPendingLiteBlock arg (list_to_set need_txs))));
                      ok ← post (NOTIFY_MISSING_TXS (mkMissingTxs blockHash (lite_height arg) need_txs)) id;
                      if negb ok then drop_connection id else mret 1
                  end
            end
      end
  end.

Definition handle_notify_new_lite_block (arg : NOTIFY_NEW_LITE_BLOCK_request) (id : Z) : node_act Z :=
  _ ← updateObservedHeight (lite_height arg) id;
  _ ← set_remote_height (lite_height arg) id;
  ctx ← context id;
  if negb (bool_decide (m_state ctx = state_normal)) then mret 1 else doPushLiteBlock arg id [].

(** [std::remove_if] with [addTransactionToPool]: the transactions that were added. *)
Fixpoint add_transactions (txs : list BinaryArray) : node_act (list BinaryArray) :=
  match txs with
  | [] => mret []
  | tx :: rest =>
      added ← on_core (core_addTransactionToPool tx);
      rest ← add_transactions rest;
      mret (if (added : bool) then tx :: rest else rest)
  end.

Definition handle_notify_new_transactions (arg : NOTIFY_NEW_TRANSACTIONS_request) (id : Z) : node_act Z :=
  ctx ← context id;
  if negb (bool_decide (m_state ctx = state_normal)) then mret 1
  else
    match m_pending_lite_block ctx with
    | Some p => doPushLiteBlock (pending_request p) id (new_txs arg)
    | None =>
        txs ← add_transactions (new_txs arg);
        _ ← (match txs with [] => mret tt | _ => relay (ToAll (Some id)) (NOTIFY_NEW_TRANSACTIONS (mkNewTransactions txs)) end);
        mret 1
    end.

Definition handleRequestTxPool (arg : NOTIFY_REQUEST_TX_POOL_request) (id : Z) : node_act Z :=
  top ← ask_core core_top_hash;
  txs ← ask_core (fun c => core_pool_changes c top (pool_txs arg));
  _ ← (match txs with [] => mret true | _ => post (NOTIFY_NEW_TRANSACTIONS (mkNewTransactions txs)) id end);
  mret 1.

Definition handle_notify_missing_txs (arg : NOTIFY_MISSING_TXS_request) (id : Z) : node_act Z :=
  '(txs, missedHashes) ← ask_core (fun c => core_transactions c (missing_txs arg));
  match missedHashes with
  | _ :: _ => drop_connection id
  | [] => _ ← post (NOTIFY_NEW_TRANSACTIONS (mkNewTransactions txs)) id; mret 1
  end.

(** ** Dispatch *)

Definition handle_notification (r : Notification) (id : Z) : node_act Z :=
  match r with
  | NOTIFY_NEW_BLOCK arg => handle_notify_new_block arg id
  | NOTIFY_NEW_TRANSACTIONS arg => handle_notify_new_transactions arg id
  | NOTIFY_REQUEST_GET_OBJECTS arg => handle_request_get_objects arg id
  | NOTIFY_RESPONSE_GET_OBJECTS arg => handle_response_get_objects arg id
  | NOTIFY_REQUEST_CHAIN arg => handle_request_chain arg id
  | NOTIFY_RESPONSE_CHAIN_ENTRY arg => handle_response_chain_entry arg id
  | NOTIFY_REQUEST_TX_POOL arg => handleRequestTxPool arg id
  | NOTIFY_NEW_LITE_BLOCK arg => handle_notify_new_lite_block arg id
  | NOTIFY_MISSING_TXS arg => handle_notify_missing_txs arg id
  end.

(** The return code and [handled]. *)
Definition handleCommand (command : Z) (buffer : list Z) (id : Z) : node_act (Z * bool) :=
  match receive command buffer with
  | None => throw
  | Some None => mret (0, false)
  | Some (Some r) => ret ← handle_notification r id; mret (ret, true)
  end.

End Handler.
