(* ===== verification/NodeServer.v ===== *)
(** * Connections and the peer to peer commands

    [NodeServer] of src/src/p2p/net_node.cpp: handshakes, the exchange of heights and
    peers, pings, the loop of a connection from its acceptance to its end, and the
    relaying of notifications to the queues of the connections.  Sockets are
    arguments: what the peer answers to a ping or a handshake, and the clock. *)

From Stdlib Require Import String.
From stdpp Require Import base gmap sets list.
From S2P Require Import Prelude Config Bytes StringTools Types Core KvBinary Messages PeerList ProtocolHandler.
#[local] Open Scope list_scope.
#[local] Open Scope Z_scope.

Definition P2P_COMMANDS_POOL_BASE : Z := 1000.
Definition COMMAND_HANDSHAKE_ID : Z := P2P_COMMANDS_POOL_BASE + 1.
Definition COMMAND_TIMED_SYNC_ID : Z := P2P_COMMANDS_POOL_BASE + 2.
Definition COMMAND_PING_ID : Z := P2P_COMMANDS_POOL_BASE + 3.
Definition P2P_CURRENT_VERSION : Z := 5.
Definition P2P_MINIMUM_VERSION : Z := 4.
Definition PING_OK_RESPONSE_STATUS_TEXT : list Z := str "OK".
Definition ERROR_CONNECTION_HANDLER_NOT_DEFINED : Z := -6.

(** What a node says of itself. *)
Record NodeConfig := mkNodeConfig {
  m_peer_id : Z;
  m_network_id : list Z;
  m_hide_my_port : bool;
  m_external_port : Z;
  m_listeningPort : Z }.

Record Server (C : Type) := mkServer {
  server_node : Node C;
  m_peerlist : PeerlistManager;
  queues : gmap Z WriteQueue }.
Arguments mkServer {C} _ _ _.
Arguments server_node {C} _.
Arguments m_peerlist {C} _.
Arguments queues {C} _.

(** Value-initialised structures. *)
Definition empty_node_data : basic_node_data := mkBasicNodeData (repeat 0 16) 0 0 0 0.
Definition empty_sync_data : CORE_SYNC_DATA := mkCoreSyncData 0 null_hash.
Definition empty_handshake_request : handshake_request := mkHandshakeRequest empty_node_data empty_sync_data.
Definition empty_handshake_response : handshake_response := mkHandshakeResponse empty_node_data empty_sync_data [].

(** A connection as it is when it starts. *)
Definition new_context (is_income : bool) (ip port : Z) : CryptoNoteConnectionContext :=
  mkContext 0 is_income state_befor_handshake None [] ∅ 0 0 ip port 0.

Section Server.
Context {C : Type} `{ICore C}.
Context (cn_fast_hash : list Z -> list Z) (yield : Node C -> Node C).
Context (sort_peers : list PeerlistEntry -> list PeerlistEntry).
Context (config : NodeConfig) (now : Z).

(** What the peer at an address answers to [COMMAND_PING], if it does, and what happens in
    the node meanwhile. *)
Context (ping : NetworkAddress -> option ping_response) (pause : Server C -> Server C).
#[local] Notation server_act := (act (Server C)).

Definition set_node (n : Node C) (s : Server C) : Server C := mkServer n (m_peerlist s) (queues s).
Definition set_peerlist (p : PeerlistManager) (s : Server C) : Server C := mkServer (server_node s) p (queues s).
Definition set_queues (q : gmap Z WriteQueue) (s : Server C) : Server C := mkServer (server_node s) (m_peerlist s) q.

(** A call of the protocol handler. *)
Definition payload {A} (f : act (Node C) A) : server_act A := fun s =>
  '(r, n) ← f (server_node s);
  Some (r, set_node n s).

Definition push (id : Z) (msg : P2pMessage) : server_act unit :=
  modify (fun s => set_queues (alter (fun q => (pushMessage msg q).2) id (queues s)) s).

Definition shut (id : Z) : server_act unit := payload (update id (set_state state_shutdown)).

Definition get_local_node_data : basic_node_data :=
  mkBasicNodeData (m_network_id config) P2P_CURRENT_VERSION (u64 now)
    (if m_hide_my_port config then 0 else if negb (m_external_port config =? 0) then m_external_port config else m_listeningPort config)
    (m_peer_id config).

(** ** Commands of incoming connections *)

Definition try_ping (node_data : basic_node_data) (id : Z) : server_act bool :=
  if my_port node_data =? 0 then mret false
  else
    ctx ← payload (context id);
    s ← get;
    if negb (is_ip_allowed (m_peerlist s) (m_remote_ip ctx)) then mret false
    else
      _ ← modify pause;
      match ping (mkNetworkAddress (m_remote_ip ctx) (my_port node_data)) with
      | None => mret false
      | Some rsp => mret (bool_decide (status rsp = PING_OK_RESPONSE_STATUS_TEXT) && (peer_id node_data =? ping_peer_id rsp))
      end.

Definition peerlist_head : server_act (list PeerlistEntry) :=
  s ← get;
  let '(peers, p) := get_peerlist_head sort_peers P2P_DEFAULT_PEERS_IN_HANDSHAKE (m_peerlist s) in
  _ ← modify (set_peerlist p);
  mret peers.

Definition handle_handshake (arg : handshake_request) (id : Z) : server_act (Z * handshake_response) :=
  let node_data := request_node_data arg in
  let refuse := (_ ← shut id; mret (1, empty_handshake_response)) : server_act (Z * handshake_response) in
  _ ← payload (update id (fun c => set_peer (version node_data) (peerId c) c));
  ctx ← payload (context id);
  if negb (bool_decide (network_id node_data = m_network_id config)) then refuse
  else if version node_data <? P2P_MINIMUM_VERSION then refuse
  else if negb (m_is_income ctx) then refuse
  else if negb (peerId ctx =? 0) then refuse
  else
    ok ← payload (process_payload_sync_data (request_payload_data arg) id true);
    if negb ok then refuse
    else
      _ ← payload (update id (fun c => set_peer (peer_version c) (peer_id node_data) c));
      _ ← (if negb (peer_id node_data =? m_peer_id config) && negb (my_port node_data =? 0) then
             pinged ← try_ping node_data id;
             if (pinged : bool) then
               modify (fun s => set_peerlist (append_with_peer_white sort_peers
                 (mkPeerlistEntry (mkNetworkAddress (m_remote_ip ctx) (my_port node_data)) (peer_id node_data) (u64 now)) (m_peerlist s)) s)
             else mret tt
           else mret tt);
      local_peerlist ← peerlist_head;
      payload_data ← payload get_payload_sync_data;
      mret (1, mkHandshakeResponse get_local_node_data payload_data local_peerlist).

Definition handle_timed_sync (arg : timed_sync_request) (id : Z) : server_act (Z * timed_sync_response) :=
  ok ← payload (process_payload_sync_data (sync_payload_data arg) id false);
  if negb ok then _ ← shut id; mret (1, mkTimedSyncResponse 0 empty_sync_data [])
  else
    local_peerlist ← peerlist_head;
    payload_data ← payload get_payload_sync_data;
    mret (1, mkTimedSyncResponse (u64 now) payload_data local_peerlist).

Definition handle_ping : server_act (Z * ping_response) := mret (1, mkPingResponse PING_OK_RESPONSE_STATUS_TEXT (m_peer_id config)).

(** ** Peers of the other side *)

Definition remote_peerlist (peers : list PeerlistEntry) (local_time : Z) : server_act bool :=
  s ← get;
  match handle_remote_peerlist sort_peers now (s64 local_time) peers (m_peerlist s) with
  | None => mret false
  | Some p => _ ← modify (set_peerlist p); mret true
  end.

Definition handleTimedSyncResponse (buffer : list Z) (id : Z) : server_act bool :=
  match decode serialize_timed_sync_response buffer (mkTimedSyncResponse 0 empty_sync_data []) with
  | None => mret false
  | Some rsp =>
      ok ← remote_peerlist (sync_local_peerlist rsp) (sync_local_time rsp);
      if negb ok then mret false
      else
        ctx ← payload (context id);
        _ ← (if negb (m_is_income ctx)
             then modify (fun s => set_peerlist (set_peer_just_seen sort_peers (u64 now) (peerId ctx) (m_remote_ip ctx) (m_remote_port ctx) (m_peerlist s)) s)
             else mret tt);
        payload (process_payload_sync_data (sync_response_payload_data rsp) id false)
  end.

(** ** Dispatch *)

Definition invokeAdaptor {A B} (decode_request : ser KVInput A) (handler : A -> server_act (Z * B)) (encode_response : B -> option (list Z))
    (reqBuf : list Z) : server_act (Z * list Z) :=
  match (i ← KVInput_new reqBuf; decode_request i) with
  | None => throw
  | Some (req, _) =>
      '(ret, res) ← handler req;
      match encode_response res with
      | None => throw
      | Some resBuf => mret (ret, resBuf)
      end
  end.

(** The return code, the response and [handled]. *)
Definition server_handleCommand (cmd : Command) (id : Z) : server_act (Z * list Z * bool) :=
  if isResponse cmd && (command cmd =? COMMAND_TIMED_SYNC_ID) then
    ok ← handleTimedSyncResponse (buf cmd) id;
    _ ← (if negb ok then shut id else mret tt);
    mret (0, [], true)
  else if command cmd =? COMMAND_HANDSHAKE_ID then
    '(ret, out) ← invokeAdaptor (serialize_handshake_request empty_handshake_request) (fun arg => handle_handshake arg id)
                    (encode serialize_handshake_response) (buf cmd);
    mret (ret, out, true)
  else if command cmd =? COMMAND_TIMED_SYNC_ID then
    '(ret, out) ← invokeAdaptor (serialize_timed_sync_request (mkTimedSyncRequest empty_sync_data)) (fun arg => handle_timed_sync arg id)
                    (encode serialize_timed_sync_response) (buf cmd);
    mret (ret, out, true)
  else if command cmd =? COMMAND_PING_ID then
    '(ret, out) ← invokeAdaptor (serialize_ping_request tt) (fun _ => handle_ping) (encode serialize_ping_response) (buf cmd);
    mret (ret, out, true)
  else
    '(ret, handled) ← payload (handleCommand cn_fast_hash yield (command cmd) (buf cmd) id);
    mret (ret, [], handled).

(** ** The loop of a connection *)

(** Before a command is read. *)
Definition before_read (id : Z) : server_act unit :=
  ctx ← payload (context id);
  match m_state ctx with
  | state_sync_required =>
      _ ← payload (update id (set_state state_synchronizing));
      _ ← payload (start_sync id);
      mret tt
  | state_pool_sync_required =>
      _ ← payload (update id (set_state state_normal));
      payload (requestMissingPoolTransactions id)
  | _ => mret tt
  end.

(** The command that was read; false ends the connection. *)
Definition on_command (cmd : Command) (id : Z) : server_act bool :=
  '(retcode, response, handled) ← server_handleCommand cmd id;
  _ ← (if needReply cmd then
         if (handled : bool) then push id (mkP2pMessage REPLY (command cmd) response retcode)
         else push id (mkP2pMessage REPLY (command cmd) [] ERROR_CONNECTION_HANDLER_NOT_DEFINED)
       else mret tt);
  ctx ← payload (context id);
  mret (negb (bool_decide (m_state ctx = state_shutdown))).

(** [on_connection_close] and the end of [connectionHandler]. *)
Definition close_connection (id : Z) : server_act unit :=
  _ ← payload (onConnectionClosed id);
  modify (fun s => set_queues (delete id (queues s)) (set_node (set_connections (delete id (m_connections (server_node s))) (server_node s)) s)).

(** The connection starts, the peer sends a command, or the connection ends. *)
Inductive ConnectionEvent := Started | Received (cmd : Command) | Closed.

(** One round of the loop of [connectionHandler], up to the next read. *)
Definition connection_round (e : ConnectionEvent) (id : Z) : server_act unit := fun s =>
  match (match e with
         | Started => _ ← before_read id; mret true
         | Received cmd => go_on ← on_command cmd id; if (go_on : bool) then _ ← before_read id; mret true else mret false
         | Closed => mret false
         end : server_act bool) s with
  | None => None
  | Some (Some true, s) => Some (Some tt, s)
  | Some (_, s) => close_connection id s
  end.

(** [acceptLoop]: a connection from outside. *)
Definition accept (id ip port : Z) : server_act unit :=
  modify (fun s => set_queues (<[id := new_queue]> (queues s))
    (set_node (set_connections (<[id := new_context true ip port]> (m_connections (server_node s))) (server_node s)) s)).

(** ** Connections of the node *)

(** [handshake] after the response has come; the connection is in the map from here
    on, though the code adds it at the end. *)
Definition handshake (rsp : handshake_response) (id : Z) (just_take_peerlist : bool) : server_act bool :=
  let node_data := response_node_data rsp in
  _ ← payload (update id (fun c => set_peer (version node_data) (peerId c) c));
  if negb (bool_decide (network_id node_data = m_network_id config)) then mret false
  else if version node_data <? P2P_MINIMUM_VERSION then mret false
  else
    ok ← remote_peerlist (response_local_peerlist rsp) (local_time node_data);
    if negb ok then mret false
    else if just_take_peerlist then mret true
    else
      ok ← payload (process_payload_sync_data (response_payload_data rsp) id true);
      if negb ok then mret false
      else
        _ ← payload (update id (fun c => set_peer (peer_version c) (peer_id node_data) c));
        ctx ← payload (context id);
        _ ← modify (fun s => set_peerlist (set_peer_just_seen sort_peers (u64 now) (peer_id node_data) (m_remote_ip ctx) (m_remote_port ctx) (m_peerlist s)) s);
        mret (negb (peer_id node_data =? m_peer_id config)).

(** [try_to_connect_and_handshake_with_new_peer] with the response of the peer, if there is one. *)
Definition connect (na : NetworkAddress) (just_take_peerlist : bool) (answer : option handshake_response) (id : Z) : server_act bool :=
  match answer with
  | None => mret false
  | Some rsp =>
      _ ← modify (fun s => set_node (set_connections (<[id := new_context false (ip na) (port na)]> (m_connections (server_node s))) (server_node s)) s);
      ok ← handshake rsp id just_take_peerlist;
      let forget := modify (fun s => set_node (set_connections (delete id (m_connections (server_node s))) (server_node s)) s) : server_act unit in
      if negb ok then _ ← forget; mret false
      else if just_take_peerlist then _ ← forget; mret true
      else
        ctx ← payload (context id);
        _ ← modify (fun s => set_peerlist (append_with_peer_white sort_peers (mkPeerlistEntry na (peerId ctx) (u64 now)) (m_peerlist s)) s);
        _ ← modify (fun s => set_queues (<[id := new_queue]> (queues s)) s);
        mret true
  end.

(** ** Relaying *)

Definition relays_to (c : CryptoNoteConnectionContext) : bool :=
  negb (peerId c =? 0) && (bool_decide (m_state c = state_normal) || bool_decide (m_state c = state_synchronizing)).

(** The connections a notification is put on the queue of. *)
Definition receivers (d : Destination) (connections : gmap Z CryptoNoteConnectionContext) : gset Z :=
  match d with
  | ToPeer id => if bool_decide (is_Some (connections !! id)) then {[ id ]} else ∅
  | ToAll excludeConnection =>
      dom (filter (fun p => relays_to p.2 = true /\ Some p.1 <> excludeConnection) connections)
  | ToList relayList => dom (filter (fun p => p.1 ∈ relayList /\ relays_to p.2 = true) connections)
  end.

(** [invoke_notify_to_peer], [relay_notify_to_all] and [externalRelayNotifyToList]; [None] is an
    exception of [encode]. *)
Definition deliver (d : Destination) (r : Notification) (s : Server C) : option (Server C) :=
  buffer ← encode_notification r;
  let to := receivers d (m_connections (server_node s)) in
  Some (set_queues (map_imap (fun id q => Some (if bool_decide (id ∈ to) then (pushMessage (mkP2pMessage NOTIFY (ID r) buffer 0) q).2 else q))
          (queues s)) s).

End Server.
