(* ===== verification/ProtocolCore.v ===== *)
(** * The protocol over the core

    The core of Core.v and CoreQueries.v as the [ICore] of the protocol handler, what it answers
    about its main chain, and a small node for examples. *)

From stdpp Require Import base gmap sets list.
From S2P Require Import Prelude Config Bytes Types Serialization Block Upgrade Checkpoints Currency BlockchainCache CacheFacts.
From S2P Require Import TransactionPool ChainTree Core CoreFacts CorePool CoreSteps CoreTheorems CoreQueries QueryTheorems.
From S2P Require Import KvBinary Messages ProtocolHandler.
#[local] Open Scope list_scope.
#[local] Open Scope Z_scope.

Section Core.
Context (check_key : PublicKey -> bool).
Context (scalarmultKey : KeyImage -> KeyImage -> KeyImage).
Context (checkRingSignature : Hash -> KeyImage -> list PublicKey -> list Signature -> bool).
Context (cn_fast_hash : list Z -> list Z).
Context (cn_slow_hash_v0 cn_lite_slow_hash_v1 cn_turtle_lite_slow_hash_v2 : list Z -> list Z).
Context (genesisBlockHash : Hash) (currency : Currency) (upgradeManager : UpgradeManager.t) (points : Points) (now : Z).

Definition Core_ICore : ICore Core := {|
  core_hasBlock := hasBlock;
  core_addBlock cached raw c := addBlock check_key scalarmultKey checkRingSignature cn_fast_hash cn_slow_hash_v0 cn_lite_slow_hash_v1
    cn_turtle_lite_slow_hash_v2 genesisBlockHash currency upgradeManager points now c cached raw;
  core_addBlock_raw raw c := addBlock_raw check_key scalarmultKey checkRingSignature cn_fast_hash cn_slow_hash_v0 cn_lite_slow_hash_v1
    cn_turtle_lite_slow_hash_v2 genesisBlockHash currency upgradeManager points now c raw;
  core_addTransactionToPool tx c := addTransactionToPool_binary check_key scalarmultKey checkRingSignature cn_fast_hash currency points now c tx;
  core_top := core_getTopBlockIndex;
  core_top_hash := core_getTopBlockHash;
  core_hash_at := getBlockHashByIndex;
  core_sparse_chain := buildSparseChain;
  core_supplement := findBlockchainSupplement_hashes;
  core_getBlocks := getBlocks_hashes;
  core_transaction := core_getTransaction;
  core_transactions := getTransactions;
  core_pool_hashes c := getTransactionHashes (pool_of c);
  core_pool_changes c last known := (fun r => r.1.2) <$> getPoolChanges c last known |}.

(** ** What the core answers *)

Lemma top_index c : core_ok currency c -> core_getTopBlockIndex c = Some (height (main_chain c) - 1).
Proof. intros Hc. destruct (core_main _ _ Hc) as (_ & _ & _ & _ & Gm & Hne). unfold core_getTopBlockIndex. by rewrite (top_of_chain _ (gc_cache _ _ Gm) Hne). Qed.

Lemma main_known c h : core_ok currency c -> h ∈ main_hashes c -> hasBlock c h = true.
Proof.
  intros Hc Hh. apply bool_decide_eq_true_2. unfold findSegmentContainingBlock. pose proof (main_find currency c h Hc) as Hf.
  destruct (findMainChainSegmentContainingBlock _ _ h); [by eexists|done].
Qed.

(** The locator ends with the first block. *)
Lemma sparse_last c locator : core_ok currency c -> buildSparseChain c = Some locator -> last locator = main_hashes c !! 0%nat.
Proof.
  intros Hc E. destruct (top_block currency c Hc) as (id & h & Eh & Efind & Eidx & Hpos & Hh & Hok & Hblocks).
  unfold buildSparseChain in E. rewrite Eh in E. cbn [mbind option_bind] in E. unfold doBuildSparseChain in E.
  rewrite Efind in E. cbn [mbind option_bind] in E. rewrite Eidx in E. cbn [mbind option_bind] in E.
  destruct (sparse_loop _ _ _ _) as [steps|] eqn:Es; [|done]. cbn [mbind option_bind] in E.
  rewrite getBlockHash_chain, Hblocks in E by (done || lia). change (Z.to_nat 0) with 0%nat in E.
  destruct (main_hashes c !! 0%nat) as [g|] eqn:Eg; [|done]. cbn [mbind option_bind] in E. apply (inj Some) in E as <-.
  case_bool_decide as Ehg; [|by rewrite app_comm_cons, last_snoc].
  subst h. destruct (core_main _ _ Hc) as (_ & _ & _ & _ & Gm & _). pose proof (NoDup_lookup _ _ _ _ (gc_hashes _ _ Gm) Hh Eg) as Hz.
  replace (height (main_chain c) - 1) with 0 in Es by lia. cbn [sparse_loop Z.ltb Z.compare] in Es. injection Es as <-. done.
Qed.

(** A block of the main chain, found by its hash. *)
Lemma main_find_raw c h i raw : core_ok currency c -> main_hashes c !! i = Some h -> chain_storage (main_chain c) !! i = Some raw ->
  exists id, findSegmentContainingBlock (chainsStorage c) (chainsLeaves c) h = Some id /\ index_in c id h = Some (Z.of_nat i) /\
    BlockchainCache.getBlockByIndex (path (chainsStorage c) id) (Z.of_nat i) = Some raw.
Proof.
  intros Hc Hh Hr. destruct (core_main _ _ Hc) as (leaf & rest & El & Em & Gm & _).
  destruct (forest_chain _ _ leaf (co_forest _ _ Hc)) as [l Hl]; [rewrite El; by left|].
  unfold findSegmentContainingBlock, findMainChainSegmentContainingBlock. rewrite El. cbn [head mbind option_bind].
  pose proof (gc_cache _ _ Gm) as Hok. pose proof (gc_hashes _ _ Gm) as Hnd. rewrite Em, (tree_path _ _ _ Hl) in Hok, Hh, Hr, Hnd.
  pose proof (chain_find _ leaf l h Hl Hok) as Hf. destruct (findIndexInChain _ leaf h) as [id|].
  2:{ by apply list_elem_of_lookup_2 in Hh. }
  destruct Hf as (n & j & En & Ei & Hj & Hh2 & Hh' & pre & Ep). pose proof (NoDup_lookup _ _ _ _ Hnd Hh Hh2) as Hij.
  exists id. split; [done|]. assert (j = Z.of_nat i) as -> by lia. split; [unfold index_in; by rewrite En|].
  assert (cache_ok (path (chainsStorage c) id)) as Hok' by (apply (forest_path_ok _ _ _ (co_forest _ _ Hc)); eauto).
  rewrite getBlockByIndex_chain by (done || lia). rewrite Nat2Z.id. rewrite Ep in Hr. destruct (reaches_app pre (path (chainsStorage c) id)) as [_ [m2 Es] _].
  rewrite Es in Hr. apply lookup_lt_Some in Hh'. rewrite length_fmap, Nat2Z.id in Hh'. pose proof (length_chain_storage _ Hok') as Hlen.
  by rewrite lookup_app_l in Hr by lia.
Qed.
End Core.

(** ** A small node *)

(** A hash under which the blocks of the small chain have the hashes they are given there. *)
Definition sample_hash (l : list Z) : list Z :=
  match l with
  | 1 :: 20 :: _ => replicate 32 101
  | 1 :: 21 :: _ => replicate 32 102
  | _ :: 1 :: 0 :: 232 :: _ => replicate 32 1
  | _ :: 1 :: 0 :: 204 :: _ => replicate 32 2
  | _ => digest l
  end.

Definition sample_ICore : ICore Core :=
  Core_ICore (fun _ => true) (fun _ x => x) (fun _ _ _ _ => true) sample_hash no_work no_work no_work (replicate 32 1) CurrencyBuilder [] ∅ 1200.

Definition sample_context (s : state) : CryptoNoteConnectionContext := mkContext 4 true s None [] ∅ 2 0 7 8 9.
Definition sample_node (c : Core) (s : state) : Node Core := mkNode c {[ 5 := sample_context s ]} false false 0 0 1 [].
