(* ===== verification/ProtocolTheorems.v ===== *)
(** * What the protocol keeps

    Theorems about ProtocolHandler.v and NodeServer.v against the interface of the core:
    what a message of a peer can change, how a node catches up with another, lite
    blocks, relaying, and the places where the connections go wrong. *)

From stdpp Require Import base gmap sets list.
From S2P Require Import Prelude Config Bytes Types Serialization Block BlockchainCache Validation Core KvBinary Messages MessageTheorems PeerList ProtocolHandler NodeServer.
From S2P Require Import CoreTheorems ProtocolCore.
#[local] Open Scope list_scope.
#[local] Open Scope Z_scope.

(** ** Runs *)

Lemma act_run {S A B} (m : act S A) (f : A -> act S B) s a s' : m s = Some (Some a, s') -> (m ≫= f) s = f a s'.
Proof. intros E. unfold mbind, act_bind. by rewrite E. Qed.

(** What every step of an action keeps, a preorder on states, the action keeps. *)
Definition along {S A} (R : S -> S -> Prop) (m : act S A) : Prop := forall s r s', m s = Some (r, s') -> R s s'.

Section Along.
Context {S : Type} (R : S -> S -> Prop) `{!PreOrder R}.

Lemma along_ret {A} (a : A) : along R (mret a : act S A).
Proof. intros s r s' E. unfold mret, act_ret in E. by simplify_eq. Qed.
Lemma along_throw {A} : along R (throw : act S A).
Proof. intros s r s' E. unfold throw in E. by simplify_eq. Qed.
Lemma along_get : along R (get : act S S).
Proof. intros s r s' E. unfold get in E. by simplify_eq. Qed.
Lemma along_ask {A} (f : S -> option A) : along R (ask f).
Proof. intros s r s' E. unfold ask in E. destruct (f s); cbn in E; by simplify_eq. Qed.
Lemma along_bind {A B} (m : act S A) (f : A -> act S B) : along R m -> (forall a, along R (f a)) -> along R (m ≫= f).
Proof.
  intros Hm Hf s r s' E. unfold mbind, act_bind in E. destruct (m s) as [[[a|] s1]|] eqn:Em; [| |done].
  - etrans; [by eapply Hm|by eapply Hf].
  - simplify_eq. by eapply Hm.
Qed.
Lemma along_modify (f : S -> S) : (forall s, R s (f s)) -> along R (modify f).
Proof. intros Hf s r s' E. unfold modify in E. simplify_eq. apply Hf. Qed.
End Along.

Create HintDb acts.

(** Case analysis on the code of an action. *)
Ltac along_steps lemmas :=
  repeat first
    [ solve [first [apply along_ret | apply along_throw | apply along_get]; apply _]
    | solve [auto with acts]
    | solve [lemmas]
    | apply along_bind; [apply _| |intros]
    | match goal with
      | |- along _ (match ?x with _ => _ end) => destruct x
      | |- along _ (let _ := _ in _) => cbv zeta
      | |- along _ (if ?x then _ else _) => destruct x
      end ].

Section Protocol.
Context {C : Type} `{ICore C}.
Context (cn_fast_hash : list Z -> list Z) (yield : Node C -> Node C).

(** ** Changes of the core *)

(** The operations of the core that change it. *)
Inductive core_op : C -> C -> Prop :=
  | op_addBlock cached raw r c c' : core_addBlock cached raw c = Some (r, c') -> core_op c c'
  | op_addBlock_raw raw r c c' : core_addBlock_raw raw c = Some (r, c') -> core_op c c'
  | op_addTransaction tx r c c' : core_addTransactionToPool tx c = Some (r, c') -> core_op c c'.

(** What the handler of connection [id] may do in a step. *)
Inductive node_step (id : Z) : Node C -> Node C -> Prop :=
  | ns_context f n : node_step id n (set_connections (alter f id (m_connections n)) n)
  | ns_post r n : is_Some (m_connections n !! id) -> node_step id n (add_sent (ToPeer id) r n)
  | ns_relay_all r n : node_step id n (add_sent (ToAll (Some id)) r n)
  | ns_relay_list l r n : l ⊆ dom (m_connections n) -> node_step id n (add_sent (ToList l) r n)
  | ns_core c n : core_op (m_core n) c -> node_step id n (set_core c n)
  | ns_synchronized n : node_step id n (set_synchronized true n)
  | ns_observed observed height n : node_step id n (set_observed observed height n)
  | ns_yield n : node_step id n (yield n).

#[local] Notation walks id := (along (rtc (node_step id))).

Lemma walks_modify id f : (forall n, node_step id n (f n)) -> walks id (modify f).
Proof. intros Hf. apply along_modify. intros n. by apply rtc_once. Qed.

Lemma walks_on_core {A} id (f : C -> option (A * C)) : (forall c a c', f c = Some (a, c') -> core_op c c') -> walks id (on_core f).
Proof.
  intros Hf n r n' E. unfold on_core in E. destruct (f (m_core n)) as [[a c]|] eqn:Ef; [|done]. cbn in E. simplify_eq.
  apply rtc_once, ns_core. by eapply Hf.
Qed.

Lemma walks_update id f : walks id (update id f).
Proof. apply walks_modify. intros n. apply ns_context. Qed.
Lemma walks_post r id : walks id (post r id).
Proof.
  intros n x n' E. unfold post, get, mbind, act_bind in E. destruct (m_connections n !! id) eqn:Ec; [|by unfold mret, act_ret in E; simplify_eq].
  unfold modify, mret, act_ret in E. simplify_eq. apply rtc_once, ns_post. by rewrite Ec.
Qed.
Lemma walks_ask {A} id (f : Node C -> option A) : walks id (ask f).
Proof. apply along_ask. apply _. Qed.
Lemma walks_ask_core {A} id (f : C -> option A) : walks id (ask_core f).
Proof. apply walks_ask. Qed.
Lemma walks_context id' id : walks id' (context id).
Proof. apply walks_ask. Qed.
#[local] Hint Resolve walks_update walks_post walks_ask walks_ask_core walks_context : acts.

#[local] Ltac code := along_steps ltac:(first [apply walks_modify; intros; constructor; done | apply walks_on_core; intros; econstructor; eassumption]).

Lemma walks_drop id : walks id (drop_connection id).
Proof. unfold drop_connection. code. Qed.
Lemma walks_recalculate id : walks id (recalculateMaxObservedHeight id).
Proof. unfold recalculateMaxObservedHeight. code. Qed.
#[local] Hint Resolve walks_drop walks_recalculate : acts.
Lemma walks_observed h id : walks id (updateObservedHeight h id).
Proof. unfold updateObservedHeight. code. Qed.
#[local] Hint Resolve walks_observed : acts.
Lemma walks_remote h id : walks id (set_remote_height h id).
Proof. apply walks_update. Qed.
Lemma walks_synchronized id : walks id on_connection_synchronized.
Proof. unfold on_connection_synchronized. code. Qed.
Lemma walks_request_chain id : walks id (post_request_chain id).
Proof. unfold post_request_chain. code. Qed.
Lemma walks_missing_pool id : walks id (requestMissingPoolTransactions id).
Proof. unfold requestMissingPoolTransactions. code. Qed.
#[local] Hint Resolve walks_remote walks_synchronized walks_request_chain walks_missing_pool : acts.
Lemma walks_missing_objects id check : walks id (request_missing_objects id check).
Proof. unfold request_missing_objects. code. Qed.
#[local] Hint Resolve walks_missing_objects : acts.
Lemma walks_process id blocks : walks id (processObjects yield id blocks).
Proof. induction blocks as [|[cached raw] blocks IH]; cbn [processObjects]; code. Qed.
Lemma lite_peers_known (m : gmap Z CryptoNoteConnectionContext) : lite_peers m ⊆ dom m /\ normal_peers m ⊆ dom m.
Proof. split; apply dom_filter_subseteq. Qed.
Lemma walks_relayBlock arg id : walks id (relayBlock arg).
Proof.
  intros n r n' E. unfold relayBlock, relay, get, modify, mret, act_ret, mbind, act_bind in E.
  destruct (lite_peers_known (m_connections n)) as [H1 H2]. repeat case_bool_decide; simplify_eq.
  - done.
  - by apply rtc_once, ns_relay_list.
  - by apply rtc_once, ns_relay_list.
  - eapply rtc_l; [apply (ns_relay_list _ _ (NOTIFY_NEW_LITE_BLOCK (mkNewLiteBlock (blockTemplate (new_block arg)) (new_block_height arg) (hop arg))) n H1)|].
    by apply rtc_once, ns_relay_list.
Qed.
#[local] Hint Resolve walks_process walks_relayBlock : acts.
Lemma walks_after result announce id : walks id announce -> walks id (after_addBlock result announce id).
Proof. intros Ha. unfold after_addBlock. code. Qed.
Lemma walks_add_transactions id txs : walks id (add_transactions txs).
Proof. induction txs as [|tx txs IH]; cbn [add_transactions]; code. Qed.
#[local] Hint Resolve walks_after walks_add_transactions : acts.
Lemma walks_lite arg id txs : walks id (doPushLiteBlock cn_fast_hash arg id txs).
Proof. unfold doPushLiteBlock, relay. code. apply walks_after. code. Qed.
#[local] Hint Resolve walks_lite : acts.
Lemma walks_handle r id : walks id (handle_notification cn_fast_hash yield r id).
Proof.
  destruct r; cbn [handle_notification].
  - unfold handle_notify_new_block. code.
  - unfold handle_notify_new_transactions, relay. code.
  - unfold handle_request_get_objects, get_current_blockchain_height. code.
  - unfold handle_response_get_objects. code.
  - unfold handle_request_chain. code.
  - unfold handle_response_chain_entry. code.
  - unfold handleRequestTxPool. code.
  - unfold handle_notify_new_lite_block. code.
  - unfold handle_notify_missing_txs. code.
Qed.
Lemma walks_command command buffer id : walks id (handleCommand cn_fast_hash yield command buffer id).
Proof. pose proof walks_handle. unfold handleCommand. code. Qed.
End Protocol.

Section Effects.
Context {C : Type} `{ICore C}.
Context (cn_fast_hash : list Z -> list Z).

(** What a message from connection [id] can change: the core through its own
    operations, and the context of the connection; what is sent in answer goes back
    to it, or is relayed. *)
Record effects (id : Z) (n n' : Node C) : Prop := {
  eff_core : rtc core_op (m_core n) (m_core n');
  eff_others : forall j, j <> id -> m_connections n' !! j = m_connections n !! j;
  eff_known : is_Some (m_connections n' !! id) <-> is_Some (m_connections n !! id);
  eff_count : m_peersCount n' = m_peersCount n /\ m_stop n' = m_stop n;
  eff_sent : exists new, sent n' = sent n ++ new /\
    Forall (fun m => m.1 = ToPeer id \/ m.1 = ToAll (Some id) \/ exists l, m.1 = ToList l /\ l ⊆ dom (m_connections n)) new }.

Lemma effects_step id n n' : node_step (fun n => n) id n n' -> effects id n n'.
Proof.
  assert (exists new, sent n = sent n ++ new /\
    Forall (fun m => m.1 = ToPeer id \/ m.1 = ToAll (Some id) \/ exists l, m.1 = ToList l /\ l ⊆ dom (m_connections n)) new) as Hs
    by (exists []; by rewrite app_nil_r).
  intros Hstep. destruct Hstep; (split; cbn; [done || by apply rtc_once|try done|try done|done|try done]).
  - intros j Hj. by rewrite lookup_alter_ne.
  - rewrite lookup_alter_eq. by rewrite fmap_is_Some.
  - exists [(ToPeer id, r)]. split; [done|]. constructor; [by left|done].
  - exists [(ToAll (Some id), r)]. split; [done|]. constructor; [by right; left|done].
  - exists [(ToList l, r)]. split; [done|]. constructor; [|done]. right. right. by exists l.
Qed.

Lemma effects_run id n n' : rtc (node_step (fun n => n) id) n n' -> effects id n n'.
Proof.
  induction 1 as [n|n n1 n' Hs _ IH].
  - split; [done|done|done|done|]. exists []. by rewrite app_nil_r.
  - apply effects_step in Hs as [H1 H2 H3 [H4 H4'] (l1 & E1 & F1)]. destruct IH as [K1 K2 K3 [K4 K4'] (l2 & E2 & F2)].
    split.
    + by etrans.
    + intros j Hj. by rewrite K2, H2.
    + by rewrite K3.
    + split; congruence.
    + exists (l1 ++ l2). rewrite E2, E1, app_assoc. split; [done|]. apply Forall_app. split; [done|].
      eapply Forall_impl; [exact F2|]. intros m [|[|(l & El & Hl)]]; [by left|by right; left|]. right. right. exists l. split; [done|].
      etrans; [exact Hl|]. intros j. rewrite !elem_of_dom. destruct (decide (j = id)) as [->|Hj]; [by rewrite H3|by rewrite H2].
Qed.

(** C6: Whatever a peer sends in a notification, the node changes the core only by trying to add
    blocks and transactions, leaves the contexts of all other connections, the
    count of peers and the connections themselves alone, and sends messages only
    back to the peer, or as relays to connections it has. *)
Theorem message_effects command buffer id n r n' :
  handleCommand cn_fast_hash (fun n => n) command buffer id n = Some (r, n') -> effects id n n'.
Proof. intros E. apply effects_run. by eapply walks_command. Qed.
End Effects.

(** ** Catching up with a peer *)

(** A block as it is asked for, as it is sent, and as it is read. *)
Record Served := mkServed { s_hash : Hash; s_raw : RawBlock; s_cached : CachedBlock }.

Section Sync.
Context {C : Type} `{ICore C}.
Context (cn_fast_hash : list Z -> list Z).

(** The raw block is a block with this hash and as many transactions as hashes of them. *)
Definition genuine (e : Served) : Prop :=
  exists template, fromBinaryArray read_block (block (s_raw e)) = Some template /\
    cached_block cn_fast_hash template = Some (s_cached e) /\ cb_hash (s_cached e) = s_hash e /\
    length (transactionHashes template) = length (Types.transactions (s_raw e)).

(** What the answering node has of the blocks of [chain], for a peer with this locator. *)
Record serves (c : C) (chain : list Served) (locator : list Hash) (start : nat) : Prop := {
  srv_first : exists genesis, core_hash_at c 0 = Some genesis /\ last locator = Some genesis;
  srv_top : core_top c = Some (Z.of_nat (length chain) - 1);
  srv_supplement : core_supplement c locator BLOCKS_IDS_SYNCHRONIZING_DEFAULT_COUNT =
    Some (drop start (s_hash <$> chain), Z.of_nat (length chain), Z.of_nat start);
  srv_blocks : forall l, (forall e, e ∈ l -> e ∈ chain) -> core_getBlocks c (s_hash <$> l) = Some (s_raw <$> l, []);
  srv_genuine : Forall genuine chain;
  srv_once : NoDup (s_hash <$> chain);
  srv_length : Z.of_nat (length chain) < 2 ^ 32 }.

(** The asking node takes the blocks, one after the other; it knows each when it has taken it, the
    blocks it knew before stay known, and the others unknown. *)
Inductive accepts : list Hash -> C -> list Served -> C -> Prop :=
  | accepts_nil kept c : accepts kept c [] c
  | accepts_cons kept c e code c1 rest c' :
      core_addBlock (s_cached e) (s_raw e) c = Some (AddBlockCode code, c1) ->
      code ∈ [ADDED_TO_MAIN; ADDED_TO_ALTERNATIVE; ADDED_TO_ALTERNATIVE_AND_SWITCHED] ->
      is_Some (core_top c1) ->
      (forall h, h ∈ s_hash e :: kept -> core_hasBlock c1 h = true) ->
      (forall x, x ∈ rest -> core_hasBlock c1 (s_hash x) = false) ->
      accepts (s_hash e :: kept) c1 rest c' -> accepts kept c (e :: rest) c'.

Lemma accepts_app kept c l1 l2 c' : accepts kept c (l1 ++ l2) c' -> (forall x, x ∈ l2 -> core_hasBlock c (s_hash x) = false) ->
  exists kept1 c1, accepts kept c l1 c1 /\ accepts kept1 c1 l2 c' /\ (forall x, x ∈ l2 -> core_hasBlock c1 (s_hash x) = false).
Proof.
  revert kept c. induction l1 as [|e l1 IH]; intros kept c Ha Hu; [exists kept, c; split; [constructor|done]|].
  inversion Ha as [|? ? ? code c1 ? ? E Hc Ht Hk Hn Hr]; subst.
  destruct (IH _ c1 Hr) as (kept2 & c2 & H1 & H2 & H3); [intros x Hx; apply Hn, elem_of_app; by right|].
  exists kept2, c2. split; [|done]. econstructor; [done..| |done]. intros x Hx. apply Hn, elem_of_app. by left.
Qed.

Lemma accepts_known kept c l c' : accepts kept c l c' -> (forall h, h ∈ kept -> core_hasBlock c h = true) ->
  forall h, h ∈ kept \/ h ∈ s_hash <$> l -> core_hasBlock c' h = true.
Proof.
  induction 1 as [kept c|kept c e code c1 rest c' E Hc Ht Hk Hn Ha IH]; intros H0 h Hh.
  - destruct Hh as [|?%elem_of_nil]; [by apply H0|done].
  - apply IH; [done|]. cbn in Hh. rewrite !elem_of_cons in *. tauto.
Qed.

Lemma accepts_top kept c l c' : is_Some (core_top c) -> accepts kept c l c' -> is_Some (core_top c').
Proof. by induction 2; auto. Qed.

(** *** The steps of the asking node *)

Lemma process_accepts id l : forall kept (n : Node C) c', m_stop n = false -> accepts kept (m_core n) l c' ->
  processObjects (fun n => n) id (zip (s_cached <$> l) (s_raw <$> l)) n = Some (Some 0, set_core c' n).
Proof.
  induction l as [|e l IH]; intros kept n c' Hs Ha; inversion Ha as [|? ? ? code c1 ? ? E Hc Ht Hk Hu Hr]; subst.
  - by destruct n.
  - cbn [fmap list_fmap zip zip_with processObjects]. erewrite act_run by done. rewrite Hs.
    erewrite act_run by (unfold on_core; by rewrite E). cbn [condition_of].
    specialize (IH _ (set_core c1 n) c' Hs Hr). fold (zip (s_cached <$> l) (s_raw <$> l)).
    repeat (apply elem_of_cons in Hc as [->|Hc]; [erewrite act_run by done; exact IH|]). by apply elem_of_nil in Hc.
Qed.

Lemma objects_genuine c l : forall index cached requested, Forall genuine l -> NoDup (s_hash <$> l) ->
  (forall e, e ∈ l -> core_hasBlock c (s_hash e) = false) -> (forall e, e ∈ l -> s_hash e ∈ requested) ->
  objects_loop cn_fast_hash c index (s_raw <$> l) cached requested =
    AllRead (cached ++ (s_cached <$> l)) (requested ∖ list_to_set (s_hash <$> l)).
Proof.
  induction l as [|e l IH]; intros index cached requested Hg Hn Hk Hr; cbn [fmap list_fmap objects_loop].
  - rewrite app_nil_r. f_equal. set_solver.
  - apply Forall_cons in Hg as [(template & E1 & E2 & E3 & E4) Hg]. apply NoDup_cons in Hn as [Hne Hn]. rewrite E1, E2, E3, E4.
    rewrite (Hk e) by apply list_elem_of_here. rewrite andb_false_r. rewrite bool_decide_eq_true_2 by apply Hr, list_elem_of_here. cbn [negb].
    rewrite Nat.eqb_refl. cbn [negb]. rewrite IH.
    + rewrite <- app_assoc. cbn [app]. f_equal. cbn [list_to_set]. unfold fmap. set_solver.
    + done.
    + done.
    + intros x Hx. apply Hk. by apply list_elem_of_further.
    + intros x Hx. apply elem_of_difference. split; [by apply Hr, list_elem_of_further|]. intros E%elem_of_singleton.
      apply Hne. rewrite <- E. by apply list_elem_of_fmap_2.
Qed.

Lemma request_loop_unknown (c : C) check hs : forall count blocks requested, (forall h, h ∈ hs -> core_hasBlock c h = false) ->
  0 <= count <= BLOCKS_SYNCHRONIZING_DEFAULT_COUNT ->
  request_loop c check hs count blocks requested =
    (drop (Z.to_nat (BLOCKS_SYNCHRONIZING_DEFAULT_COUNT - count)) hs, blocks ++ take (Z.to_nat (BLOCKS_SYNCHRONIZING_DEFAULT_COUNT - count)) hs,
     list_to_set (take (Z.to_nat (BLOCKS_SYNCHRONIZING_DEFAULT_COUNT - count)) hs) ∪ requested).
Proof.
  induction hs as [|h hs IH]; intros count blocks requested Hk Hc; cbn [request_loop].
  - rewrite drop_nil, take_nil, app_nil_r. f_equal. set_solver.
  - unfold BLOCKS_SYNCHRONIZING_DEFAULT_COUNT in *. destruct (Z.ltb_spec count 100) as [Hl|Hl].
    + rewrite (Hk h) by apply list_elem_of_here. rewrite andb_false_r. cbn [negb]. rewrite IH by (try lia; intros x Hx; by apply Hk, list_elem_of_further).
      replace (Z.to_nat (100 - count)) with (S (Z.to_nat (100 - (count + 1)))) by lia. cbn [drop take list_to_set]. f_equal; [f_equal; by rewrite <- app_assoc|]. set_solver.
    + replace (Z.to_nat (100 - count)) with 0%nat by lia. cbn [drop take]. rewrite app_nil_r. f_equal. set_solver.
Qed.

Lemma unknown_from_spec (c : C) known unknown : (forall h, h ∈ known -> core_hasBlock c h = true) ->
  (forall h, h ∈ unknown -> core_hasBlock c h = false) -> unknown_from c (known ++ unknown) = unknown.
Proof.
  intros Hk Hu. induction known as [|h known IH]; cbn [app unknown_from].
  - destruct unknown as [|h unknown]; [done|]. cbn [unknown_from]. by rewrite Hu by apply list_elem_of_here.
  - rewrite Hk by apply list_elem_of_here. apply IH. intros x Hx. by apply Hk, list_elem_of_further.
Qed.
(** *** Runs on a connection *)

Definition knows (id : Z) (ctx : CryptoNoteConnectionContext) (n : Node C) : Prop := m_connections n !! id = Some ctx.

Lemma context_run id ctx (n : Node C) : knows id ctx n -> context id n = Some (Some ctx, n).
Proof. intros E. unfold context, ask. by rewrite E. Qed.

Lemma knows_update id ctx f (n : Node C) : knows id ctx n -> knows id (f ctx) (set_connections (alter f id (m_connections n)) n).
Proof. intros E. unfold knows. cbn. by rewrite lookup_alter_eq, E. Qed.

Lemma post_run id ctx r (n : Node C) : knows id ctx n -> post r id n = Some (Some true, add_sent (ToPeer id) r n).
Proof. intros E. unfold post. erewrite act_run by done. by rewrite E. Qed.

(** A node that follows its peer and has been told of its blocks. *)
Record follows (id : Z) (total : Z) (ctx : CryptoNoteConnectionContext) (n : Node C) : Prop := {
  fol_knows : knows id ctx n;
  fol_state : m_state ctx = state_synchronizing;
  fol_remote : m_remote_blockchain_height ctx = total;
  fol_last : m_last_response_height ctx = total - 1;
  fol_version : 1 <= peer_version ctx;
  fol_total : 0 < total < 2 ^ 32;
  fol_stop : m_stop n = false;
  fol_top : is_Some (core_top (m_core n)) }.

Lemma observed_run id total ctx (n : Node C) h : follows id total ctx n ->
  updateObservedHeight h id n = Some (Some tt, set_observed (total - 1) (if m_blockchainHeight n <? h then h else m_blockchainHeight n) n).
Proof.
  intros [Hk Hs Hr Hl Hv Ht _ _]. unfold updateObservedHeight. erewrite act_run by (by apply context_run). erewrite act_run by done.
  rewrite Hr, Hl. rewrite (wrap_small 32) by (unfold fits; lia). rewrite (proj2 (Z.eqb_neq _ _)), (proj2 (Z.leb_le _ _)) by lia. by erewrite act_run by done.
Qed.

(** The answer with the blocks: all are added, and the next are asked for. *)
Lemma response_run id total ctx (n : Node C) kept l c' : follows id total ctx n ->
  m_requested_objects ctx = list_to_set (s_hash <$> l) -> Forall genuine l -> NoDup (s_hash <$> l) ->
  (forall e, e ∈ l -> core_hasBlock (m_core n) (s_hash e) = false) -> accepts kept (m_core n) l c' ->
  exists n1, handle_response_get_objects cn_fast_hash (fun n => n) (mkResponseGetObjects [] (convertRawBlocksToRawBlocksLegacy (s_raw <$> l)) [] total) id n =
      (request_missing_objects id true ≫= fun _ => mret 1) n1 /\
    follows id total (set_objects (m_needed_objects ctx) ∅ ctx) n1 /\ m_core n1 = c' /\ sent n1 = sent n.
Proof.
  intros Hf Hr Hg Hn Hk Ha. pose proof Hf as [Hkn Hs Hre Hl Hv Ht Hst Htop].
  assert (convertRawBlocksLegacyToRawBlocks (convertRawBlocksToRawBlocksLegacy (s_raw <$> l)) = s_raw <$> l) as Econv.
  { unfold convertRawBlocksLegacyToRawBlocks, convertRawBlocksToRawBlocksLegacy. rewrite <- list_fmap_compose. etrans; [|apply list_fmap_id].
    apply list_fmap_ext. intros i [] _. done. }
  set (n0 := set_observed (total - 1) (if m_blockchainHeight n <? total then total else m_blockchainHeight n) n).
  set (n1 := set_connections (alter (fun c => set_heights total (m_last_response_height c) c) id (m_connections n0)) n0).
  assert (knows id ctx n1) as Hk1.
  { pose proof (knows_update id ctx (fun c => set_heights total (m_last_response_height c) c) n0 Hkn) as K. cbv beta in K.
    replace (set_heights total (m_last_response_height ctx) ctx) with ctx in K by (destruct ctx; cbn in *; by subst). exact K. }
  set (n2 := set_connections (alter (fun c => set_objects (m_needed_objects c) ∅ c) id (m_connections n1)) n1).
  assert (knows id (set_objects (m_needed_objects ctx) ∅ ctx) n2) as Hk2 by (by apply (knows_update id ctx (fun c => set_objects (m_needed_objects c) ∅ c))).
  exists (set_core c' n2). split; [|split; [|done]].
  - unfold handle_response_get_objects. erewrite act_run by (by apply context_run). cbn [response_height response_blocks].
    rewrite Hl. rewrite (proj2 (Z.ltb_ge _ _)) by lia. erewrite act_run by (by apply (observed_run id total ctx)). fold n0.
    erewrite act_run by reflexivity. fold n1. erewrite act_run by reflexivity. rewrite Econv.
    change (m_core n1) with (m_core n). rewrite objects_genuine; [|done|done|done|intros e He; rewrite Hr; apply elem_of_list_to_set; by apply list_elem_of_fmap_2].
    rewrite Hr. replace (list_to_set (s_hash <$> l) ∖ list_to_set (s_hash <$> l) : gset Hash) with (∅ : gset Hash) by set_solver.
    erewrite act_run by reflexivity. fold n2. rewrite size_empty. cbn [Nat.eqb negb].
    erewrite act_run by (by eapply process_accepts). cbn [Z.eqb negb].
    destruct (accepts_top _ _ _ _ Htop Ha) as [top Etop]. erewrite act_run by (unfold ask_core, ask; cbn; by rewrite Etop).
    erewrite act_run by reflexivity. erewrite act_run by (by apply context_run). cbn [m_stop set_core n2 n1 n0 set_connections set_observed].
    rewrite Hst. cbn [negb m_state set_objects]. rewrite Hs. done.
  - split; try done. cbn. by eapply accepts_top.
Qed.
(** What is asked for next, or the end. *)
Lemma request_next id total ctx (n : Node C) check h hs : follows id total ctx n -> m_requested_objects ctx = ∅ ->
  m_needed_objects ctx = h :: hs -> (forall x, x ∈ h :: hs -> core_hasBlock (m_core n) x = false) ->
  exists n', request_missing_objects id check n = Some (Some true, n') /\
    follows id total (set_objects (drop 100 (h :: hs)) (list_to_set (take 100 (h :: hs))) ctx) n' /\ m_core n' = m_core n /\
    sent n' = sent n ++ [(ToPeer id, NOTIFY_REQUEST_GET_OBJECTS (mkRequestGetObjects [] (take 100 (h :: hs))))].
Proof.
  intros Hf Hr Hn Hu. destruct Hf as [Hkn Hs Hre Hl Hv Ht Hst Htop]. unfold request_missing_objects.
  erewrite act_run by (by apply context_run). erewrite act_run by reflexivity. rewrite Hn, Hr.
  rewrite request_loop_unknown by (done || unfold BLOCKS_SYNCHRONIZING_DEFAULT_COUNT; lia).
  change (Z.to_nat (BLOCKS_SYNCHRONIZING_DEFAULT_COUNT - 0)) with 100%nat. rewrite union_empty_r_L. cbn [app].
  erewrite act_run by reflexivity. erewrite act_run by (eapply post_run; by eapply knows_update).
  eexists. split; [reflexivity|]. split; [|done]. split; try done. by eapply (knows_update id ctx (set_objects _ _)).
Qed.

Lemma request_end id total ctx (n : Node C) check : follows id total ctx n -> m_requested_objects ctx = ∅ -> m_needed_objects ctx = [] ->
  exists n', request_missing_objects id check n = Some (Some true, n') /\ knows id (set_state state_normal ctx) n' /\
    m_core n' = m_core n /\ m_synchronized n' = true /\
    sent n' = sent n ++ [(ToPeer id, NOTIFY_REQUEST_TX_POOL (mkRequestTxPool (core_pool_hashes (m_core n))))].
Proof.
  intros Hf Hr Hn. destruct Hf as [Hkn Hs Hre Hl Hv Ht Hst [top Etop]]. unfold request_missing_objects.
  erewrite act_run by (by apply context_run). erewrite act_run by reflexivity. rewrite Hn, Hr, Hl, Hre.
  rewrite (wrap_small 32) by (unfold fits; lia). rewrite Z.ltb_irrefl, Z.eqb_refl, size_empty. cbn [Nat.eqb andb negb].
  unfold requestMissingPoolTransactions. assert (peer_version ctx <? 1 = false) as Ev by (apply Z.ltb_ge; lia).
  erewrite act_run; [|erewrite act_run by (by apply context_run); rewrite Ev; erewrite act_run by reflexivity; erewrite act_run by (by eapply post_run); reflexivity].
  erewrite act_run by reflexivity. set (n1 := set_connections _ _). unfold on_connection_synchronized.
  assert (knows id (set_state state_normal ctx) n1) as Hk1 by (by eapply (knows_update id ctx (set_state state_normal))).
  destruct (m_synchronized n1) eqn:Esy.
  - exists n1. split; [|done]. erewrite act_run; [reflexivity|]. erewrite act_run by reflexivity. by rewrite Esy.
  - exists (set_synchronized true n1). split; [|done]. erewrite act_run; [reflexivity|]. erewrite act_run by reflexivity. rewrite Esy.
    erewrite act_run by (unfold ask_core, ask; cbn; by rewrite Etop). reflexivity.
Qed.

(** *** The conversation *)

(** The connection is there and not about to be closed. *)
Definition is_open (id : Z) (n : Node C) : bool :=
  match m_connections n !! id with Some ctx => bool_decide (m_state ctx <> state_shutdown) | None => false end.

Lemma knows_open id ctx n : knows id ctx n -> m_state ctx <> state_shutdown -> is_open id n = true.
Proof. unfold knows, is_open. intros -> Hs. by apply bool_decide_eq_true. Qed.

(** What a node sends when it has handled a notification and the connection is still open. *)
Definition reply (r : Notification) (id : Z) (n : Node C) : option (list Notification * Node C) :=
  match handle_notification cn_fast_hash (fun n => n) r id n with
  | Some (Some _, n') => if is_open id n' then Some ((drop (length (sent n)) (sent n')).*2, n') else None
  | _ => None
  end.

Lemma reply_run r id n v n' rs : handle_notification cn_fast_hash (fun n => n) r id n = Some (Some v, n') ->
  is_open id n' = true -> sent n' = sent n ++ ((fun x => (ToPeer id, x)) <$> rs) -> reply r id n = Some (rs, n').
Proof.
  intros E Eo Es. unfold reply. rewrite E, Eo, Es, drop_app_length. do 2 f_equal. rewrite <- list_fmap_compose. etrans; [|apply list_fmap_id].
  by apply list_fmap_ext.
Qed.

(** A request travels from the node that asks, over its connection [a], to the one that
    answers, over its connection [b], and the answer back, until the node that asks has all it wants
    and turns to the transactions of the pool. *)
Fixpoint converse (fuel : nat) (r : Notification) (a b : Z) (nA nB : Node C) : option (Node C * Node C) :=
  match fuel with
  | O => None
  | S fuel =>
      '(answers, nB) ← reply r b nB;
      match answers with
      | [answer] =>
          '(requests, nA) ← reply answer a nA;
          match requests with
          | [NOTIFY_REQUEST_GET_OBJECTS q] => converse fuel (NOTIFY_REQUEST_GET_OBJECTS q) a b nA nB
          | [NOTIFY_REQUEST_CHAIN q] => converse fuel (NOTIFY_REQUEST_CHAIN q) a b nA nB
          | [NOTIFY_REQUEST_TX_POOL _] => Some (nA, nB)
          | _ => None
          end
      | _ => None
      end
  end.

(** The connection of the node that asks stays open. *)
#[local] Ltac still_open :=
  match goal with
  | K : knows ?i _ ?n |- is_open ?i ?n = true => apply (knows_open _ _ _ K); discriminate
  | F : follows ?i _ _ ?n |- is_open ?i ?n = true =>
      apply (knows_open _ _ _ (fol_knows _ _ _ _ F)); rewrite (fol_state _ _ _ _ F); discriminate
  end.

Section Conversation.
Context (a b : Z) (chain : list Served) (locator : list Hash) (start : nat).
#[local] Notation total := (Z.of_nat (length chain)).

Lemma answer_objects ctx (nB : Node C) l : serves (m_core nB) chain locator start -> chain <> [] -> knows b ctx nB ->
  m_state ctx <> state_shutdown -> (forall e, e ∈ l -> e ∈ chain) ->
  exists nB', reply (NOTIFY_REQUEST_GET_OBJECTS (mkRequestGetObjects [] (s_hash <$> l))) b nB =
      Some ([NOTIFY_RESPONSE_GET_OBJECTS (mkResponseGetObjects [] (convertRawBlocksToRawBlocksLegacy (s_raw <$> l)) [] total)], nB') /\
    m_core nB' = m_core nB /\ knows b ctx nB'.
Proof.
  intros Hs Hne Hk Hop Hl. pose proof (srv_length _ _ _ _ Hs) as Hlen. assert (0 < total) by (destruct chain; [done|cbn; lia]).
  eexists. split; [|split]; [eapply reply_run with (rs := [_])| |].
  - cbn [handle_notification]. unfold handle_request_get_objects, get_current_blockchain_height.
    erewrite act_run; [|erewrite act_run by (unfold ask_core, ask; by rewrite (srv_top _ _ _ _ Hs)); reflexivity].
    cbn [request_blocks]. erewrite act_run by (unfold ask_core, ask; by rewrite (srv_blocks _ _ _ _ Hs)). cbn beta iota.
    erewrite act_run by (by eapply post_run). reflexivity.
  - by apply (knows_open b ctx).
  - cbn. do 4 f_equal. replace (total - 1 + 1) with total by lia. rewrite wrap_small by (unfold fits; lia). reflexivity.
  - reflexivity.
  - exact Hk.
Qed.

(** Blocks are asked for in batches until there are none left. *)
Lemma batches ctxB k : forall (nA nB : Node C) ctx kept l later c', (length later <= k)%nat -> chain <> [] ->
  serves (m_core nB) chain locator start -> knows b ctxB nB -> m_state ctxB <> state_shutdown -> follows a total ctx nA ->
  (forall e, e ∈ l ++ later -> e ∈ chain) -> NoDup (s_hash <$> l ++ later) ->
  (forall e, e ∈ l ++ later -> core_hasBlock (m_core nA) (s_hash e) = false) -> accepts kept (m_core nA) (l ++ later) c' ->
  m_requested_objects ctx = list_to_set (s_hash <$> l) -> m_needed_objects ctx = s_hash <$> later ->
  exists nA' nB' ctx', converse (S k) (NOTIFY_REQUEST_GET_OBJECTS (mkRequestGetObjects [] (s_hash <$> l))) a b nA nB = Some (nA', nB') /\
    m_core nA' = c' /\ m_core nB' = m_core nB /\ knows b ctxB nB' /\ knows a ctx' nA' /\ m_state ctx' = state_normal /\
    m_synchronized nA' = true.
Proof.
  induction k as [|k IH]; intros nA nB ctx kept l later c' Hk Hne Hs Hb Hop Hf Hin Hnd Hu Ha Hr Hn.
  all: destruct (answer_objects ctxB nB l Hs Hne Hb Hop) as (nB1 & E1 & C1 & K1); [intros e He; apply Hin, elem_of_app; by left|].
  all: destruct (accepts_app _ _ _ _ _ Ha) as (kept1 & c1 & Ha1 & Ha2 & Hu1); [intros e He; apply Hu, elem_of_app; by right|].
  all: destruct (response_run a total ctx nA kept l c1 Hf Hr) as (n1 & E2 & F1 & Cn1 & S1); [
    eapply Forall_forall; intros e He; eapply Forall_forall; [apply (srv_genuine _ _ _ _ Hs)|apply Hin, elem_of_app; by left]
    | rewrite fmap_app in Hnd; by apply NoDup_app in Hnd as [Hnd _] | intros e He; apply Hu, elem_of_app; by left | exact Ha1 |].
  all: cbn [converse]; rewrite E1; cbn [mbind option_bind].
  - destruct later as [|e later]; [|cbn in Hk; lia].
    destruct (request_end a total _ n1 true F1) as (n2 & E3 & K3 & C3 & Sy & S3); [done|done|].
    erewrite reply_run with (rs := [_]); [|cbn [handle_notification]; rewrite E2; erewrite act_run by exact E3; reflexivity|still_open|rewrite S3, S1; reflexivity].
    cbn [mbind option_bind]. exists n2, nB1. eexists. split; [reflexivity|]. inversion Ha2; subst. by rewrite C3.
  - destruct later as [|e later].
    + destruct (request_end a total _ n1 true F1) as (n2 & E3 & K3 & C3 & Sy & S3); [done|done|].
      erewrite reply_run with (rs := [_]); [|cbn [handle_notification]; rewrite E2; erewrite act_run by exact E3; reflexivity|still_open|rewrite S3, S1; reflexivity].
      cbn [mbind option_bind]. exists n2, nB1. eexists. split; [reflexivity|]. inversion Ha2; subst. by rewrite C3.
    + assert (forall x, x ∈ s_hash <$> e :: later -> core_hasBlock (m_core n1) x = false) as Hu2.
      { intros x (y & -> & Hy)%list_elem_of_fmap_1. rewrite Cn1. by apply Hu1. }
      destruct (request_next a total _ n1 true (s_hash e) (s_hash <$> later) F1) as (n2 & E3 & F3 & C3 & S3); [done|exact Hn|done|].
      rewrite <- fmap_cons, <- fmap_take, <- fmap_drop in *.
      erewrite reply_run with (rs := [_]); [|cbn [handle_notification]; rewrite E2; erewrite act_run by exact E3; reflexivity|still_open|rewrite S3, S1; reflexivity].
      cbn [mbind option_bind].
      match type of F3 with follows _ _ ?ctx2 _ =>
        destruct (IH n2 nB1 ctx2 kept1 (take 100 (e :: later)) (drop 100 (e :: later)) c') as (nA' & nB' & ctx' & E & Hc & HcB & HkB & Hkn & Hst & Hsy) end.
      6: exact F3.
      * rewrite length_drop. cbn [length] in *. lia.
      * done.
      * by rewrite C1.
      * done.
      * done.
      * rewrite take_drop. intros x Hx. apply Hin, elem_of_app. by right.
      * rewrite take_drop. rewrite fmap_app in Hnd. by apply NoDup_app in Hnd as (_ & _ & Hnd).
      * rewrite take_drop, C3. intros x Hx. apply Hu2. by apply list_elem_of_fmap_2.
      * by rewrite take_drop, C3, Cn1.
      * done.
      * done.
      * exists nA', nB', ctx'. split; [exact E|]. by rewrite <- C1.
Qed.
Lemma answer_chain ctx (nB : Node C) : serves (m_core nB) chain locator start -> knows b ctx nB -> m_state ctx <> state_shutdown ->
  exists nB', reply (NOTIFY_REQUEST_CHAIN (mkRequestChain locator)) b nB =
      Some ([NOTIFY_RESPONSE_CHAIN_ENTRY (mkResponseChainEntry (Z.of_nat start) total (drop start (s_hash <$> chain)))], nB') /\
    m_core nB' = m_core nB /\ knows b ctx nB'.
Proof.
  intros Hs Hk Hop. destruct (srv_first _ _ _ _ Hs) as (genesis & Eg & El).
  eexists. split; [|split]; [eapply reply_run with (rs := [_])| |].
  - cbn [handle_notification]. unfold handle_request_chain. cbn [block_ids]. rewrite El.
    erewrite act_run by (unfold ask_core, ask; by rewrite Eg). rewrite bool_decide_eq_true_2 by done. cbn [negb].
    erewrite act_run by (unfold ask_core, ask; by rewrite (srv_supplement _ _ _ _ Hs)). cbn beta iota.
    erewrite act_run by (by eapply post_run). reflexivity.
  - by apply (knows_open b ctx).
  - reflexivity.
  - reflexivity.
  - exact Hk.
Qed.

(** The list of the blocks of the peer: those that are not known are needed. *)
Lemma chain_entry_run ctx (nA : Node C) known unknown : knows a ctx nA -> m_state ctx = state_synchronizing -> 1 <= peer_version ctx ->
  m_needed_objects ctx = [] -> m_requested_objects ctx = ∅ -> m_stop nA = false -> is_Some (core_top (m_core nA)) ->
  chain = known ++ unknown -> (start < length known)%nat -> total < 2 ^ 32 ->
  (forall e, e ∈ known -> core_hasBlock (m_core nA) (s_hash e) = true) ->
  (forall e, e ∈ unknown -> core_hasBlock (m_core nA) (s_hash e) = false) ->
  exists n1 ctx1, handle_response_chain_entry (mkResponseChainEntry (Z.of_nat start) total (drop start (s_hash <$> chain))) a nA =
      (request_missing_objects a false ≫= fun _ => mret 1) n1 /\
    follows a total ctx1 n1 /\ m_core n1 = m_core nA /\ sent n1 = sent nA /\
    m_needed_objects ctx1 = s_hash <$> unknown /\ m_requested_objects ctx1 = ∅.
Proof.
  intros Hk Hs Hv Hn Hr Hst Htop Hch Hlt Hlen Hkn Hun.
  assert (drop start (s_hash <$> chain) = (s_hash <$> drop start known) ++ (s_hash <$> unknown)) as Ed.
  { rewrite Hch, fmap_app, drop_app_le by (rewrite length_fmap; lia). by rewrite fmap_drop. }
  assert (exists e rest, drop start known = e :: rest /\ e ∈ known) as (e & rest & Er & He).
  { destruct (drop start known) as [|e rest] eqn:E; [apply (f_equal length) in E; rewrite length_drop in E; cbn in E; lia|].
    exists e, rest. split; [done|]. rewrite <- (take_drop start known), E. apply elem_of_app. right. apply list_elem_of_here. }
  assert (length (drop start (s_hash <$> chain)) = (length chain - start)%nat) as El by (by rewrite length_drop, length_fmap).
  assert (length known <= length chain)%nat by (rewrite Hch, length_app; lia).
  set (n1 := set_connections (alter (set_heights total (total - 1)) a (m_connections nA)) nA).
  assert (knows a (set_heights total (total - 1) ctx) n1) as K1 by (by apply knows_update).
  set (f := fun c => set_objects (m_needed_objects c ++ unknown_from (m_core nA) (drop start (s_hash <$> chain))) (m_requested_objects c) c).
  set (n2 := set_connections (alter f a (m_connections n1)) n1).
  assert (knows a (f (set_heights total (total - 1) ctx)) n2) as K2 by (by apply knows_update).
  exists n2, (f (set_heights total (total - 1) ctx)). split; [|split; [|split; [done|split; [done|split; [|done]]]]].
  - unfold handle_response_chain_entry. cbn [m_block_ids start_height total_height]. rewrite Ed, Er. cbn [fmap list_fmap app].
    change (s_hash e :: (s_hash <$> rest) ++ (s_hash <$> unknown)) with ((s_hash <$> e :: rest) ++ (s_hash <$> unknown)). rewrite <- Er, <- Ed.
    erewrite act_run by reflexivity. rewrite (Hkn e He). cbn [negb]. rewrite El.
    replace (u32 (Z.of_nat start + u32 (Z.of_nat (length chain - start)) - 1)) with (total - 1)
      by (rewrite (wrap_small 32 (Z.of_nat (length chain - start))) by (unfold fits; lia); rewrite wrap_small by (unfold fits; lia); lia).
    erewrite act_run by reflexivity. fold n1. rewrite (proj2 (Z.ltb_ge _ _)) by lia. erewrite act_run by reflexivity.
    erewrite act_run by reflexivity. reflexivity.
  - split; cbn; try done. lia.
  - cbn. rewrite Hn, Ed. cbn [app]. apply unknown_from_spec.
    + intros h (x & -> & Hx)%list_elem_of_fmap_1. apply Hkn. rewrite <- (take_drop start known). apply elem_of_app. by right.
    + intros h (x & -> & Hx)%list_elem_of_fmap_1. by apply Hun.
Qed.
End Conversation.

(** A node that lacks the last blocks of its peer catches up with it: it asks for the chain, is
    told of the blocks from one that both have, asks for those it does not have, a hundred at a
    time, and adds them.  The peer holds the chain and finds a common block; the asking node
    accepts the blocks in order. *)
Lemma sync_exchange a b chain locator start known unknown (nA nB : Node C) ctxA ctxB c' :
  serves (m_core nB) chain locator start -> knows b ctxB nB -> m_state ctxB <> state_shutdown ->
  knows a ctxA nA -> m_state ctxA = state_synchronizing -> 1 <= peer_version ctxA ->
  m_needed_objects ctxA = [] -> m_requested_objects ctxA = ∅ -> m_stop nA = false -> is_Some (core_top (m_core nA)) ->
  core_sparse_chain (m_core nA) = Some locator ->
  chain = known ++ unknown -> (start < length known)%nat ->
  (forall e, e ∈ known -> core_hasBlock (m_core nA) (s_hash e) = true) ->
  (forall e, e ∈ unknown -> core_hasBlock (m_core nA) (s_hash e) = false) ->
  accepts (s_hash <$> known) (m_core nA) unknown c' ->
  exists n1 nA' nB' ctx', start_sync a nA = Some (Some true, n1) /\
    sent n1 = sent nA ++ [(ToPeer a, NOTIFY_REQUEST_CHAIN (mkRequestChain locator))] /\
    converse (S (S (length unknown))) (NOTIFY_REQUEST_CHAIN (mkRequestChain locator)) a b n1 nB = Some (nA', nB') /\
    m_core nA' = c' /\ m_core nB' = m_core nB /\ knows b ctxB nB' /\ knows a ctx' nA' /\ m_state ctx' = state_normal /\
    m_synchronized nA' = true /\ (forall e, e ∈ chain -> core_hasBlock (m_core nA') (s_hash e) = true).
Proof.
  intros Hs Hb Hop Hk Hst Hv Hn Hr Hstop Htop Hloc Hch Hlt Hkn Hun Ha.
  assert (forall e, e ∈ chain -> core_hasBlock c' (s_hash e) = true) as Hall.
  { intros e He. eapply accepts_known; [exact Ha|intros h (x & -> & Hx)%list_elem_of_fmap_1; by apply Hkn|].
    rewrite Hch, elem_of_app in He. destruct He; [left|right]; by apply list_elem_of_fmap_2. }
  assert (chain <> []) as Hne by (intros ->; destruct known; [cbn in Hlt; lia|done]).
  exists (add_sent (ToPeer a) (NOTIFY_REQUEST_CHAIN (mkRequestChain locator)) nA).
  set (n1 := add_sent _ _ nA).
  destruct (answer_chain b chain locator start ctxB nB Hs Hb Hop) as (nB1 & E1 & C1 & K1).
  destruct (chain_entry_run a chain start ctxA n1 known unknown) as (n2 & ctx2 & E2 & F2 & C2 & S2 & N2 & R2);
    [done..|by apply (srv_length _ _ _ _ Hs)|done|done|].
  assert (start_sync a nA = Some (Some true, n1)) as Estart.
  { unfold start_sync. erewrite act_run by (by apply context_run). rewrite bool_decide_eq_true_2 by done. unfold post_request_chain.
    erewrite act_run; [reflexivity|]. erewrite act_run by (unfold ask_core, ask; by rewrite Hloc). by erewrite act_run by (by eapply post_run). }
  remember (S (length unknown)) as fuel eqn:Ef. cbn [converse]. rewrite E1. cbn [mbind option_bind].
  destruct unknown as [|e unknown].
  - destruct (request_end a _ ctx2 n2 false F2 R2 N2) as (n3 & E3 & K3 & C3 & Sy & S3).
    erewrite reply_run with (rs := [_]); [|cbn [handle_notification]; rewrite E2; erewrite act_run by exact E3; reflexivity|still_open|rewrite S3, S2; reflexivity].
    cbn [mbind option_bind]. exists n3, nB1. eexists. split; [done|]. split; [done|]. split; [reflexivity|].
    inversion Ha; subst. rewrite C3, C2. done.
  - destruct (request_next a _ ctx2 n2 false (s_hash e) (fmap (M := list) s_hash unknown) F2 R2 N2) as (n3 & E3 & F3 & C3 & S3).
    { intros x Hx. rewrite C2. change (s_hash e :: (s_hash <$> unknown)) with (s_hash <$> e :: unknown) in Hx.
      apply list_elem_of_fmap_1 in Hx as (y & -> & Hy). by apply Hun. }
    rewrite <- fmap_cons, <- fmap_take, <- fmap_drop in *.
    erewrite reply_run with (rs := [_]); [|cbn [handle_notification]; rewrite E2; erewrite act_run by exact E3; reflexivity|still_open|rewrite S3, S2; reflexivity].
    cbn [mbind option_bind]. subst fuel.
    match type of F3 with follows _ _ ?ctx3 _ =>
      destruct (batches a b chain locator start ctxB (length (e :: unknown)) n3 nB1 ctx3 (fmap (M := list) s_hash known) (take 100 (e :: unknown)) (drop 100 (e :: unknown)) c')
        as (nA' & nB' & ctx' & E & Hc & HcB & HkB & Hkn' & Hst' & Hsy) end; rewrite ?take_drop; try done.
    + rewrite length_drop. lia.
    + by rewrite C1.
    + intros x Hx. rewrite Hch. apply elem_of_app. by right.
    + pose proof (srv_once _ _ _ _ Hs) as Hnd. rewrite Hch, fmap_app in Hnd. by apply NoDup_app in Hnd as (_ & _ & Hnd).
    + intros x Hx. rewrite C3, C2. by apply Hun.
    + by rewrite C3, C2.
    + exists nA', nB', ctx'. split; [done|]. split; [done|]. split; [exact E|]. rewrite Hc. rewrite HcB. done.
Qed.
End Sync.

(** ** Lite blocks *)

Section Lite.
Context {C : Type} `{ICore C}.
Context (cn_fast_hash : list Z -> list Z).












Lemma observed_total h id ctx (n : Node C) : knows id ctx n -> is_Some (core_top (m_core n)) ->
  exists o b, updateObservedHeight h id n = Some (Some tt, set_observed o b n).
Proof.
  intros Hk [top Et]. unfold updateObservedHeight. erewrite act_run by (by apply context_run). erewrite act_run by reflexivity.
  destruct (_ && _); [by do 2 eexists; erewrite act_run by reflexivity|]. destruct (m_remote_blockchain_height ctx <? h); [by do 2 eexists; erewrite act_run by reflexivity|].
  destruct (_ && _); [|by do 2 eexists; erewrite act_run by reflexivity].
  do 2 eexists. erewrite act_run; [reflexivity|]. unfold recalculateMaxObservedHeight. erewrite act_run by (by apply context_run).
  erewrite act_run by reflexivity. erewrite act_run by (unfold ask_core, ask; by rewrite Et). reflexivity.
Qed.

Lemma lite_start arg id ctx (n : Node C) : knows id ctx n -> m_state ctx = state_normal -> is_Some (core_top (m_core n)) ->
  exists n1 ctx1, handle_notify_new_lite_block cn_fast_hash arg id n = doPushLiteBlock cn_fast_hash arg id [] n1 /\
    knows id ctx1 n1 /\ m_state ctx1 = state_normal /\ m_pending_lite_block ctx1 = m_pending_lite_block ctx /\ m_core n1 = m_core n /\ sent n1 = sent n.
Proof.
  intros Hk Hs Ht. destruct (observed_total (lite_height arg) id ctx n Hk Ht) as (o & b & E).
  set (n1 := set_connections (alter (fun c => set_heights (lite_height arg) (m_last_response_height c) c) id (m_connections (set_observed o b n))) (set_observed o b n)).
  assert (knows id (set_heights (lite_height arg) (m_last_response_height ctx) ctx) n1) as K by
    (by apply (knows_update id ctx (fun c => set_heights (lite_height arg) (m_last_response_height c) c))).
  exists n1, (set_heights (lite_height arg) (m_last_response_height ctx) ctx). split; [|done].
  unfold handle_notify_new_lite_block. erewrite act_run by exact E. erewrite act_run by reflexivity. fold n1.
  erewrite act_run by (by apply context_run). cbn [m_state set_heights]. by rewrite Hs.
Qed.


Lemma provided_total txs : forall m, (forall tx, tx ∈ txs -> is_Some (fromBinaryArray read_transaction tx)) ->
  exists prov, provided cn_fast_hash txs m = Some prov /\ dom prov = list_to_set (cn_fast_hash <$> txs) ∪ dom m.
Proof.
  induction txs as [|tx txs IH]; intros m Htx; cbn [provided].
  - exists m. split; [done|]. set_solver.
  - destruct (Htx tx (list_elem_of_here _ _)) as [t Et]. rewrite Et. cbn [mbind option_bind].
    destruct (IH (<[cn_fast_hash tx := tx]> m)) as (prov & E & Hd); [intros x Hx; by apply Htx, list_elem_of_further|].
    exists prov. split; [done|]. rewrite Hd, dom_insert_L. cbn. set_solver.
Qed.

Lemma not_all_provided (p : PendingLiteBlock) (prov : gmap Hash BinaryArray) h : h ∈ missed_transactions p -> h ∉ dom prov ->
  bool_decide (missed_transactions p ⊆ dom prov) = false.
Proof. intros Hh Hn. apply bool_decide_eq_false_2. set_solver. Qed.

Lemma pending_dropped arg id ctx (n : Node C) p txs prov template : knows id ctx n -> m_pending_lite_block ctx = Some p ->
  fromBinaryArray read_block (lite_blockTemplate arg) = Some template -> provided cn_fast_hash txs ∅ = Some prov ->
  bool_decide (missed_transactions p ⊆ dom prov) = false ->
  exists n1 ctx1, doPushLiteBlock cn_fast_hash arg id txs n = Some (Some 1, n1) /\ knows id ctx1 n1 /\ m_state ctx1 = state_shutdown /\ m_core n1 = m_core n.
Proof.
  intros Hk Hp Et Epr Hb. unfold doPushLiteBlock. rewrite Et, Epr. erewrite act_run by (by apply context_run). rewrite Hp, Hb. cbn [negb].
  erewrite act_run by reflexivity. do 2 eexists. split; [reflexivity|]. split; [|split; [|reflexivity]].
  - apply (knows_update id (set_pending None ctx) (set_state state_shutdown)). by apply (knows_update id ctx (set_pending None)).
  - reflexivity.
Qed.

(** C37: While a lite block waits for its transactions, a connection is dropped at the next relay of
    other transactions, and at the next lite block, though the peer has done
    nothing wrong: the answer is not told apart from a relay. *)
Theorem pending_lite_block_race id ctx (n : Node C) p txs arg template :
  knows id ctx n -> m_state ctx = state_normal -> m_pending_lite_block ctx = Some p -> is_Some (core_top (m_core n)) ->
  is_Some (fromBinaryArray read_block (lite_blockTemplate (pending_request p))) ->
  (forall tx, tx ∈ txs -> is_Some (fromBinaryArray read_transaction tx)) ->
  (exists h, h ∈ missed_transactions p /\ h ∉ cn_fast_hash <$> txs) ->
  fromBinaryArray read_block (lite_blockTemplate arg) = Some template ->
  (exists n1 ctx1, handle_notify_new_transactions cn_fast_hash (mkNewTransactions txs) id n = Some (Some 1, n1) /\
     knows id ctx1 n1 /\ m_state ctx1 = state_shutdown /\ m_core n1 = m_core n) /\
  (exists n1 ctx1, handle_notify_new_lite_block cn_fast_hash arg id n = Some (Some 1, n1) /\
     knows id ctx1 n1 /\ m_state ctx1 = state_shutdown /\ m_core n1 = m_core n).
Proof.
  intros Hk Hs Hp Ht [tp Etp] Htx (h & Hh & Hnh) Et. split.
  - assert (exists prov, provided cn_fast_hash txs ∅ = Some prov /\ h ∉ dom prov) as (prov & Epr & Hpr).
    { destruct (provided_total txs ∅ Htx) as (prov & E & Hd). exists prov. split; [done|]. rewrite Hd, dom_empty_L, elem_of_union, elem_of_list_to_set. set_solver. }
    edestruct (pending_dropped (pending_request p) id ctx n p txs prov tp Hk Hp Etp Epr) as (n1 & ctx1 & E & H1 & H2 & H3); [by eapply not_all_provided|].
    exists n1, ctx1. split; [|done]. unfold handle_notify_new_transactions. erewrite act_run by (by apply context_run).
    rewrite Hs, bool_decide_eq_true_2 by done. cbn [negb new_txs]. by rewrite Hp.
  - destruct (lite_start arg id ctx n Hk Hs Ht) as (n0 & ctx0 & E0 & K0 & S0 & P0 & C0 & _). rewrite Hp in P0.
    edestruct (pending_dropped arg id ctx0 n0 p [] ∅ template K0 P0 Et) as (n1 & ctx1 & E & H1 & H2 & H3); [done|eapply not_all_provided; [exact Hh|set_solver]|].
    exists n1, ctx1. rewrite E0, H3, C0 in *. done.
Qed.
End Lite.

(** ** Relaying *)

Section Relay.
Context {C : Type} `{ICore C}.
Context (cn_fast_hash : list Z -> list Z).

(** The notifications put on the queue of connection [j] when what was sent is delivered. *)
Definition delivered (connections : gmap Z CryptoNoteConnectionContext) (j : Z) (l : list (Destination * Notification)) : list Notification :=
  (List.filter (fun m => bool_decide (j ∈ receivers m.1 connections)) l).*2.

Lemma receivers_list l (m : gmap Z CryptoNoteConnectionContext) j ctx : m !! j = Some ctx -> relays_to ctx = true ->
  j ∈ receivers (ToList l) m <-> j ∈ l.
Proof.
  intros E Hr. cbn [receivers]. rewrite elem_of_dom. split.
  - intros [x Hx]. apply map_lookup_filter_Some in Hx as [_ [Hx _]]. done.
  - intros Hj. exists ctx. apply map_lookup_filter_Some. done.
Qed.

Lemma delivered_app connections j l1 l2 : delivered connections j (l1 ++ l2) = delivered connections j l1 ++ delivered connections j l2.
Proof. unfold delivered. by rewrite List.filter_app, fmap_app. Qed.

Lemma relay_members (m : gmap Z CryptoNoteConnectionContext) j ctx : m !! j = Some ctx ->
  (j ∈ lite_peers m <-> P2P_LITE_BLOCKS_PROPOGATION_VERSION <= peer_version ctx) /\
  (j ∈ normal_peers m <-> peer_version ctx < P2P_LITE_BLOCKS_PROPOGATION_VERSION).
Proof.
  intros E. unfold lite_peers, normal_peers. rewrite !elem_of_dom. unfold is_Some. setoid_rewrite map_lookup_filter_Some. rewrite E. cbn.
  split; (split; [intros (x & [= <-] & Hx); done|by exists ctx]).
Qed.

(** C22: A new block that is relayed reaches every peer that has shaken hands and is in the
    states for relays exactly once: as a lite block when the peer takes these, and
    whole otherwise; and no other connection. *)
Theorem block_relay_once arg (n : Node C) :
  exists new, relayBlock arg n = Some (Some tt, mkNode (m_core n) (m_connections n) (m_synchronized n) (m_stop n) (m_observedHeight n)
      (m_blockchainHeight n) (m_peersCount n) (sent n ++ new)) /\
    (forall j ctx, m_connections n !! j = Some ctx -> delivered (m_connections n) j new =
      if relays_to ctx then
        [if P2P_LITE_BLOCKS_PROPOGATION_VERSION <=? peer_version ctx
         then NOTIFY_NEW_LITE_BLOCK (mkNewLiteBlock (blockTemplate (new_block arg)) (new_block_height arg) (hop arg))
         else NOTIFY_NEW_BLOCK arg]
      else []).
Proof.
  set (m := m_connections n). set (lite := NOTIFY_NEW_LITE_BLOCK (mkNewLiteBlock (blockTemplate (new_block arg)) (new_block_height arg) (hop arg))).
  exists ((if bool_decide (lite_peers m = ∅) then [] else [(ToList (lite_peers m), lite)]) ++
          (if bool_decide (normal_peers m = ∅) then [] else [(ToList (normal_peers m), NOTIFY_NEW_BLOCK arg)])). split.
  - unfold relayBlock, relay, get, modify, mret, act_ret, mbind, act_bind. fold m lite.
    destruct (bool_decide (lite_peers m = ∅)), (bool_decide (normal_peers m = ∅)); cbn [app]; unfold add_sent; cbn; fold m;
      rewrite ?app_nil_r, <- ?app_assoc; by destruct n.
  - intros j ctx Ej. fold m in Ej.
    assert (forall l r, delivered m j (if bool_decide (l = ∅) then [] else [(ToList l, r)]) =
      if relays_to ctx && bool_decide (j ∈ l) then [r] else []) as Hd.
    { intros l r. unfold delivered. destruct (relays_to ctx) eqn:Er; cbn [andb].
      - case_bool_decide as E1; [subst l; cbn; by rewrite bool_decide_eq_false_2 by set_solver|]. cbn [List.filter fst].
        destruct (decide (j ∈ l)) as [Hj|Hj].
        + by rewrite !bool_decide_eq_true_2 by (done || by apply (receivers_list l m j ctx)).
        + rewrite !bool_decide_eq_false_2 by (done || by intros ?%(receivers_list l m j ctx)). done.
      - case_bool_decide; [done|]. cbn [List.filter fst]. rewrite bool_decide_eq_false_2; [done|]. cbn [receivers]. rewrite elem_of_dom.
        intros [x Hx]. apply map_lookup_filter_Some in Hx as [Hx [_ Hx']]. cbn in *. congruence. }
    rewrite delivered_app, !Hd. destruct (relays_to ctx); [|done]. cbn [andb].
    destruct (relay_members m j ctx Ej) as [H1 H2]. destruct (Z.leb_spec P2P_LITE_BLOCKS_PROPOGATION_VERSION (peer_version ctx)).
    + by rewrite (bool_decide_eq_true_2 _ (proj2 H1 ltac:(lia))), bool_decide_eq_false_2 by (intros ?%H2; lia).
    + by rewrite bool_decide_eq_false_2, (bool_decide_eq_true_2 _ (proj2 H2 ltac:(lia))) by (intros ?%H1; lia).
Qed.
End Relay.

(** ** Connections *)

Section Connections.
Context {C : Type} `{ICore C}.
Context (cn_fast_hash : list Z -> list Z) (yield : Node C -> Node C).
Context (sort_peers : list PeerlistEntry -> list PeerlistEntry) (config : NodeConfig) (now : Z).
Context (ping : NetworkAddress -> option ping_response) (pause : Server C -> Server C).

(** Every queue a notification goes to has it at the end, unless it is full; the others stay. *)
Lemma deliver_queues d r (s s' : Server C) j : deliver d r s = Some s' ->
  exists buffer, encode_notification r = Some buffer /\ m_connections (server_node s') = m_connections (server_node s) /\
    queues s' !! j = (fun q => if bool_decide (j ∈ receivers d (m_connections (server_node s)))
                               then (pushMessage (mkP2pMessage NOTIFY (ID r) buffer 0) q).2 else q) <$> queues s !! j.
Proof.
  unfold deliver. destruct (encode_notification r) as [buffer|]; [|done]. cbn [mbind option_bind]. intros [= <-]. exists buffer.
  split; [done|]. split; [done|]. cbn. rewrite map_lookup_imap. by destruct (queues s !! j).
Qed.

(** A connection needs no handshake to count as synchronised: to a peer that has said nothing yet, one
    notification with the hash of any block of the node, for instance the first,
    puts the connection into the state [state_normal] and the node into the state of one
    that has caught up with the network. *)
Theorem no_handshake_needed ip port id (n : Node C) h :
  knows id (new_context true ip port) n -> core_hasBlock (m_core n) h = true -> is_Some (core_top (m_core n)) ->
  exists n' ctx', handle_notification cn_fast_hash yield (NOTIFY_RESPONSE_CHAIN_ENTRY (mkResponseChainEntry 0 1 [h])) id n = Some (Some 1, n') /\
    knows id ctx' n' /\ m_state ctx' = state_normal /\ peerId ctx' = 0 /\ m_synchronized n' = true.
Proof.
  intros Hk Hh [top Et]. cbn [handle_notification]. unfold handle_response_chain_entry. cbn [m_block_ids start_height total_height].
  erewrite act_run by reflexivity. rewrite Hh. cbn [negb].
  change (u32 (0 + u32 (Z.of_nat (length [h])) - 1)) with 0. erewrite act_run by reflexivity. cbn [Z.ltb Z.compare].
  erewrite act_run by reflexivity. erewrite act_run by reflexivity. cbn [unknown_from]. rewrite Hh. set (n2 := set_connections _ _).
  set (ctx2 := set_objects [] ∅ (set_heights 1 0 (new_context true ip port))).
  assert (knows id ctx2 n2) as K2.
  { apply (knows_update id (set_heights 1 0 (new_context true ip port)) (fun c => set_objects (m_needed_objects c ++ []) (m_requested_objects c) c)).
    by apply (knows_update id _ (set_heights 1 0)). }
  set (n3 := set_connections (alter (set_state state_normal) id (m_connections n2)) n2).
  assert (knows id (set_state state_normal ctx2) n3) as K3 by (by apply (knows_update id ctx2)).
  assert (request_missing_objects id false n2 = Some (Some true, if m_synchronized n then n3 else set_synchronized true n3)) as E.
  { unfold request_missing_objects. erewrite act_run by (by apply context_run). erewrite act_run by reflexivity.
    cbn [ctx2 m_needed_objects set_objects set_heights new_context m_last_response_height m_remote_blockchain_height m_requested_objects].
    change (u32 (1 - 1)) with 0. rewrite size_empty. cbn [Z.ltb Z.compare Z.eqb Nat.eqb andb negb].
    erewrite act_run; [|unfold requestMissingPoolTransactions; erewrite act_run by (by apply context_run); reflexivity].
    erewrite act_run by reflexivity. fold n3. unfold on_connection_synchronized.
    destruct (m_synchronized n) eqn:Es; (erewrite act_run; [reflexivity|]; erewrite act_run by reflexivity);
      change (m_synchronized n3) with (m_synchronized n); rewrite Es; [done|].
    erewrite act_run by (unfold ask_core, ask; cbn; by rewrite Et). reflexivity. }
  erewrite act_run by exact E. do 2 eexists. split; [reflexivity|]. destruct (m_synchronized n) eqn:Es; (split; [exact K3|]); done.
Qed.

Lemma payload_run {A} (f : act (Node C) A) (s : Server C) r n : f (server_node s) = Some (r, n) -> payload f s = Some (r, set_node n s).
Proof. intros E. unfold payload. by rewrite E. Qed.

(** The handshake of a node as it arrives. *)
Lemma handshake_read r : node_data_ok (request_node_data r) -> sync_data_ok (request_payload_data r) ->
  exists buf i i', encode serialize_handshake_request r = Some buf /\ KVInput_new buf = Some i /\
    serialize_handshake_request empty_handshake_request i = Some (r, i').
Proof.
  intros H1 H2. destruct (message_decode _ _ _ _ r empty_handshake_request handshake_request_kept (conj H1 H2) ltac:(split; vm_compute; reflexivity)) as (buf & E & D).
  unfold decode in D. destruct (KVInput_new buf) as [i|] eqn:Ei; [|done]. cbn [mbind option_bind] in D.
  destruct (serialize_handshake_request empty_handshake_request i) as [[v i']|] eqn:Er; [|done]. cbn in D. simplify_eq. by exists buf, i, i'.
Qed.

Lemma closed_run id ctx (s : Server C) : knows id ctx (server_node s) -> is_Some (core_top (m_core (server_node s))) -> m_state ctx <> state_befor_handshake ->
  exists s', close_connection id s = Some (Some tt, s') /\ m_connections (server_node s') !! id = None /\
    m_peersCount (server_node s') = u64 (m_peersCount (server_node s) - 1).
Proof.
  intros Hk [top Et] Hs. eexists. split; [|split].
  - unfold close_connection. erewrite act_run; [reflexivity|]. apply payload_run. unfold onConnectionClosed.
    erewrite act_run; [|unfold recalculateMaxObservedHeight; erewrite act_run by (by apply context_run); erewrite act_run by reflexivity;
      erewrite act_run by (unfold ask_core, ask; by rewrite Et); reflexivity].
    erewrite act_run by reflexivity. erewrite act_run by (by apply context_run). rewrite bool_decide_eq_false_2 by done. reflexivity.
  - cbn. apply lookup_delete_eq.
  - reflexivity.
Qed.

(** C38: A connection from outside that is refused at its handshake, for a wrong network, was never
    counted, but when it is closed the count of peers goes down by one; a node
    without peers then reports [2 ^ 64 - 1] of them. *)
Theorem refused_peer_uncounted ip port id (s : Server C) r :
  knows id (new_context true ip port) (server_node s) -> is_Some (core_top (m_core (server_node s))) ->
  node_data_ok (request_node_data r) -> sync_data_ok (request_payload_data r) -> network_id (request_node_data r) <> m_network_id config ->
  exists buf s', encode serialize_handshake_request r = Some buf /\
    connection_round cn_fast_hash yield sort_peers config now ping pause (Received (mkCommand COMMAND_HANDSHAKE_ID false false buf)) id s = Some (Some tt, s') /\
    m_connections (server_node s') !! id = None /\ m_peersCount (server_node s') = u64 (m_peersCount (server_node s) - 1).
Proof.
  intros Hk Ht H1 H2 Hn. destruct (handshake_read r H1 H2) as (buf & i & i' & Eb & Ei & Er). exists buf.
  set (f1 := fun c => set_peer (version (request_node_data r)) (peerId c) c).
  set (n1 := set_connections (alter f1 id (m_connections (server_node s))) (server_node s)).
  assert (knows id (f1 (new_context true ip port)) n1) as K1 by (by apply (knows_update id _ f1)).
  set (n2 := set_connections (alter (set_state state_shutdown) id (m_connections n1)) n1).
  assert (knows id (set_state state_shutdown (f1 (new_context true ip port))) n2) as K2 by (by apply (knows_update id _ (set_state state_shutdown))).
  assert (exists out, encode serialize_handshake_response empty_handshake_response = Some out) as [out Eo] by (eexists; vm_compute; reflexivity).
  set (s2 := set_queues (alter (fun q => (pushMessage (mkP2pMessage REPLY COMMAND_HANDSHAKE_ID out 1) q).2) id (queues s)) (set_node n2 s)).
  destruct (closed_run id _ s2 K2 Ht) as (s' & Ec & Hd & Hc); [done|].
  exists s'. split; [done|]. split; [|done]. unfold connection_round.
  assert (handle_handshake sort_peers config now ping pause r id s = Some (Some (1, empty_handshake_response), set_node n2 s)) as E1.
  { unfold handle_handshake. erewrite act_run by (apply payload_run; reflexivity). erewrite act_run by (apply payload_run; by apply context_run).
    rewrite bool_decide_eq_false_2 by done. cbn [negb]. erewrite act_run by (apply payload_run; reflexivity). reflexivity. }
  assert (server_handleCommand cn_fast_hash yield sort_peers config now ping pause (mkCommand COMMAND_HANDSHAKE_ID false false buf) id s =
    Some (Some (1, out, true), set_node n2 s)) as E2.
  { unfold server_handleCommand. cbn [isResponse command andb Messages.buf]. change (COMMAND_HANDSHAKE_ID =? COMMAND_HANDSHAKE_ID) with true. cbn iota.
    assert (forall A B (m : act (Server C) A) (g : A -> act (Server C) B) v s1, m s = Some (Some v, s1) -> (m ≫= g) s = g v s1) as Hrun by (intros; by apply act_run).
    rewrite (Hrun _ _ _ _ (1, out) (set_node n2 s)); [done|]. unfold invokeAdaptor. rewrite Ei. cbn [mbind option_bind]. rewrite Er.
    erewrite act_run by exact E1. cbn beta iota. by rewrite Eo. }
  assert (on_command cn_fast_hash yield sort_peers config now ping pause (mkCommand COMMAND_HANDSHAKE_ID false false buf) id s = Some (Some false, s2)) as E.
  { unfold on_command. erewrite act_run by exact E2. cbn beta iota.
    change (needReply (mkCommand COMMAND_HANDSHAKE_ID false false buf)) with true. cbn iota.
    erewrite act_run by reflexivity. erewrite act_run by (apply payload_run; by apply context_run). reflexivity. }
  erewrite act_run by exact E. cbn iota. exact Ec.
Qed.

(** The first data of a peer: it counts, and is followed when it has a block the node lacks. *)
Lemma initial_run hshd id ctx (n : Node C) : knows id ctx n -> m_state ctx = state_befor_handshake -> is_Some (core_top (m_core n)) ->
  exists n', process_payload_sync_data hshd id true n = Some (Some true, n') /\ m_core n' = m_core n /\ sent n' = sent n /\
    m_peersCount n' = u64 (m_peersCount n + 1) /\
    knows id (set_heights (current_height hshd) (m_last_response_height ctx)
      (set_state (if core_hasBlock (m_core n) (top_id hshd) then state_pool_sync_required else state_sync_required) ctx)) n'.
Proof.
  intros Hk Hs [top Et]. set (st := if core_hasBlock (m_core n) (top_id hshd) then state_pool_sync_required else state_sync_required).
  assert (exists n1, (if bool_decide (m_state ctx = state_synchronizing) then mret tt
         else if core_hasBlock (m_core n) (top_id hshd) then
           if true then on_connection_synchronized ≫= fun _ => update id (set_state state_pool_sync_required)
           else update id (set_state state_normal)
         else get_current_blockchain_height ≫= fun _ => update id (set_state state_sync_required)) n = Some (Some tt, n1) /\
      m_core n1 = m_core n /\ sent n1 = sent n /\ m_peersCount n1 = m_peersCount n /\ knows id (set_state st ctx) n1) as (n1 & E1 & C1 & S1 & P1 & K1).
  { rewrite Hs. rewrite bool_decide_eq_false_2 by done. subst st. destruct (core_hasBlock (m_core n) (top_id hshd)).
    - unfold on_connection_synchronized. destruct (m_synchronized n) eqn:Es.
      + eexists. split; [erewrite act_run; [reflexivity|]; erewrite act_run by reflexivity; by rewrite Es|]. split_and!; try done. by apply knows_update.
      + eexists. split; [erewrite act_run; [reflexivity|]; erewrite act_run by reflexivity; rewrite Es;
          erewrite act_run by (unfold ask_core, ask; by rewrite Et); reflexivity|]. split_and!; try done. by apply (knows_update id ctx).
    - eexists. split; [erewrite act_run; [reflexivity|]; unfold get_current_blockchain_height; erewrite act_run by (unfold ask_core, ask; by rewrite Et); reflexivity|].
      split_and!; try done. by apply knows_update. }
  destruct (observed_total (current_height hshd) id _ n1 K1) as (o & b & E2); [by rewrite C1, Et|].
  eexists. split; [|split; [|split; [|split]]].
  - unfold process_payload_sync_data. erewrite act_run by (by apply context_run). cbn [negb]. rewrite andb_false_r.
    erewrite act_run by reflexivity. erewrite act_run by exact E1. erewrite act_run by exact E2. erewrite act_run by reflexivity.
    erewrite act_run by reflexivity. reflexivity.
  - done.
  - done.
  - cbn. by rewrite P1.
  - by apply (knows_update id (set_state st ctx) (fun c => set_heights (current_height hshd) (m_last_response_height c) c)).
Qed.

(** A connection of the node to itself is refused after it was counted: the connection is
    forgotten and the count of peers stays one too high for the rest of the run. *)
Theorem self_connection_counted na rsp id (s : Server C) m' :
  m_connections (server_node s) !! id = None -> is_Some (core_top (m_core (server_node s))) ->
  network_id (response_node_data rsp) = m_network_id config -> P2P_MINIMUM_VERSION <= version (response_node_data rsp) ->
  peer_id (response_node_data rsp) = m_peer_id config ->
  handle_remote_peerlist sort_peers now (s64 (local_time (response_node_data rsp))) (response_local_peerlist rsp) (m_peerlist s) = Some m' ->
  exists s', connect sort_peers config now na false (Some rsp) id s = Some (Some false, s') /\
    m_connections (server_node s') !! id = None /\ m_peersCount (server_node s') = u64 (m_peersCount (server_node s) + 1).
Proof.
  intros Hnone Ht Hnet Hver Hself Hpeers.
  set (n0 := set_connections (<[id := new_context false (ip na) (port na)]> (m_connections (server_node s))) (server_node s)).
  set (f1 := fun c => set_peer (version (response_node_data rsp)) (peerId c) c).
  set (n1 := set_connections (alter f1 id (m_connections n0)) n0).
  assert (knows id (f1 (new_context false (ip na) (port na))) n1) as K1 by (apply (knows_update id _ f1); apply lookup_insert_eq).
  destruct (initial_run (response_payload_data rsp) id _ n1 K1) as (n2 & E2 & C2 & S2 & P2 & K2); [done|done|].
  match type of K2 with knows _ ?c _ => set (ctx2 := c) in K2 end.
  set (f3 := fun c => set_peer (peer_version c) (peer_id (response_node_data rsp)) c).
  set (n3 := set_connections (alter f3 id (m_connections n2)) n2).
  assert (knows id (f3 ctx2) n3) as K3 by (by apply (knows_update id _ f3)).
  set (s3 := set_node n3 (set_peerlist m' (set_node n1 (set_node n0 s)))).
  set (s4 := set_peerlist (set_peer_just_seen sort_peers (u64 now) (peer_id (response_node_data rsp)) (m_remote_ip (f3 ctx2)) (m_remote_port (f3 ctx2)) (m_peerlist s3)) s3).
  assert (handshake sort_peers config now rsp id false (set_node n0 s) = Some (Some false, s4)) as Eh.
  { unfold handshake. erewrite act_run by (apply payload_run; reflexivity). rewrite bool_decide_eq_true_2 by done. cbn [negb].
    rewrite (proj2 (Z.ltb_ge _ _)) by lia. erewrite act_run; [|unfold remote_peerlist; erewrite act_run by reflexivity; cbn [m_peerlist set_node]; rewrite Hpeers;
      erewrite act_run by reflexivity; reflexivity].
    cbn [negb]. erewrite act_run by (apply payload_run; exact E2). cbn [negb]. erewrite act_run by (apply payload_run; reflexivity).
    erewrite act_run by (apply payload_run; apply context_run; exact K3). erewrite act_run by reflexivity. rewrite (proj2 (Z.eqb_eq _ _) Hself). reflexivity. }
  eexists. split; [|split].
  - unfold connect. erewrite act_run by reflexivity. fold n0. erewrite act_run by exact Eh. cbn [negb]. erewrite act_run by reflexivity. reflexivity.
  - cbn. apply lookup_delete_eq.
  - cbn. by rewrite P2.
Qed.

(** The height the node reports of the network is not the greatest it has heard of: after a peer
    has announced a height, each later announcement sets it to one less than the height
    that the peer announced before, whatever the new height and the other peers say. *)
Theorem observed_height_stale h id ctx (n : Node C) : knows id ctx n ->
  0 < m_remote_blockchain_height ctx < 2 ^ 32 -> m_last_response_height ctx < m_remote_blockchain_height ctx ->
  exists n', updateObservedHeight h id n = Some (Some tt, n') /\ m_observedHeight n' = m_remote_blockchain_height ctx - 1.
Proof.
  intros Hk Hr Hl. unfold updateObservedHeight. erewrite act_run by (by apply context_run). erewrite act_run by reflexivity.
  rewrite (wrap_small 32) by (unfold fits; lia). rewrite (proj2 (Z.eqb_neq _ _)), (proj2 (Z.leb_le _ _)) by lia. cbn [negb andb].
  erewrite act_run by reflexivity. eexists. split; [reflexivity|]. reflexivity.
Qed.
End Connections.

(** ** The theorems on a small node *)

#[local] Existing Instance sample_ICore.

Definition sample_transaction : BinaryArray := [1; 3; 1; 2; 9; 1; 0] ++ repeat 5 32 ++ [0; 0] ++ repeat 6 64.
Definition sample_lite_template : BlockTemplate :=
  let b := mined 1 1100 47683715 (replicate 32 1) in mkBlockTemplate (header b) (parentBlock b) (baseTransaction b) [sample_hash sample_transaction].
Definition sample_lite : NOTIFY_NEW_LITE_BLOCK_request := mkNewLiteBlock (default [] (write_block sample_hash sample_lite_template)) 2 0.
Definition sample_pending : CryptoNoteConnectionContext :=
  set_pending (Some (mkPendingLiteBlock sample_lite {[ sample_hash sample_transaction ]})) (sample_context state_normal).



Lemma pending_lite_block_race_witness : exists n1 ctx1,
  handle_notify_new_transactions sample_hash (mkNewTransactions []) 5 (mkNode sample_core {[ 5 := sample_pending ]} false false 0 0 1 []) = Some (Some 1, n1) /\
  knows 5 ctx1 n1 /\ m_state ctx1 = state_shutdown.
Proof.
  destruct (pending_lite_block_race sample_hash 5 sample_pending (mkNode sample_core {[ 5 := sample_pending ]} false false 0 0 1 [])
    (mkPendingLiteBlock sample_lite {[ sample_hash sample_transaction ]}) [] sample_lite sample_lite_template) as [(n1 & ctx1 & E & K & S & _) _].
  - reflexivity.
  - reflexivity.
  - reflexivity.
  - eexists. vm_compute. reflexivity.
  - eexists. vm_compute. reflexivity.
  - intros tx Hx. by apply elem_of_nil in Hx.
  - exists (sample_hash sample_transaction). cbn [missed_transactions]. split; [by apply elem_of_singleton|apply not_elem_of_nil].
  - vm_compute. reflexivity.
  - exists n1, ctx1. split; [exact E|]. split; [exact K|exact S].
Defined.

Lemma message_effects_witness : exists buffer r n',
  encode_notification (NOTIFY_REQUEST_CHAIN (mkRequestChain [replicate 32 1])) = Some buffer /\
  handleCommand sample_hash (fun n => n) 2006 buffer 5 (sample_node sample_core state_normal) = Some (r, n') /\
  sent n' <> [] /\ effects 5 (sample_node sample_core state_normal) n'.
Proof.
  eexists. eexists. eexists. split; [vm_compute; reflexivity|]. split; [vm_compute; reflexivity|]. split; [vm_compute; discriminate|].
  apply (message_effects sample_hash 2006 (default [] (encode_notification (NOTIFY_REQUEST_CHAIN (mkRequestChain [replicate 32 1])))) 5 _ (Some (1, true))).
  vm_compute. reflexivity.
Defined.

Definition sample_fresh : Node Core := mkNode sample_core {[ 5 := new_context true 7 8 ]} false false 0 0 0 [].

Lemma no_handshake_needed_witness : exists n' ctx',
  handle_notification sample_hash (fun n => n) (NOTIFY_RESPONSE_CHAIN_ENTRY (mkResponseChainEntry 0 1 [replicate 32 1])) 5 sample_fresh = Some (Some 1, n') /\
  knows 5 ctx' n' /\ m_state ctx' = state_normal /\ m_synchronized n' = true.
Proof.
  destruct (no_handshake_needed sample_hash (fun n => n) 7 8 5 sample_fresh (replicate 32 1)) as (n' & ctx' & E & K & S & _ & Sy).
  - reflexivity.
  - vm_compute. reflexivity.
  - eexists. vm_compute. reflexivity.
  - exists n', ctx'. split; [exact E|]. split; [exact K|]. split; [exact S|exact Sy].
Defined.

Definition sample_config : NodeConfig := mkNodeConfig 11 (repeat 1 16) false 0 0.
Definition sample_stranger : handshake_request := mkHandshakeRequest (mkBasicNodeData (repeat 2 16) 4 0 0 13) (mkCoreSyncData 1 (replicate 32 1)).

Lemma refused_peer_uncounted_witness : exists buf s', encode serialize_handshake_request sample_stranger = Some buf /\
  connection_round sample_hash (fun n => n) (fun l => l) sample_config 1200 (fun _ => None) (fun s => s)
    (Received (mkCommand COMMAND_HANDSHAKE_ID false false buf)) 5 (mkServer sample_fresh (new_peerlist false) ∅) = Some (Some tt, s') /\
  m_peersCount (server_node s') = 2 ^ 64 - 1.
Proof.
  destruct (refused_peer_uncounted sample_hash (fun n => n) (fun l => l) sample_config 1200 (fun _ => None) (fun s => s) 7 8 5
    (mkServer sample_fresh (new_peerlist false) ∅) sample_stranger) as (buf & s' & E1 & E2 & _ & E3).
  - reflexivity.
  - eexists. vm_compute. reflexivity.
  - repeat split; vm_compute; try reflexivity; discriminate.
  - split; [split; vm_compute; [discriminate|reflexivity]|]. vm_compute. reflexivity.
  - vm_compute. discriminate.
  - exists buf, s'. split; [exact E1|]. split; [exact E2|exact E3].
Defined.
