(* ===== verification/NodeSync.v ===== *)
(** * Two nodes that synchronise

    The core serves its main chain as the protocol expects it of a peer, and a node whose chain
    has forked from that of its peer catches up with it over the messages of the protocol. *)

From stdpp Require Import base gmap sets list.
From S2P Require Import Prelude Config Bytes Types Serialization Block Upgrade Checkpoints Currency BlockchainCache CacheFacts.
From S2P Require Import TransactionPool ChainTree Core CoreFacts CorePool CoreChecks CoreSteps CoreTheorems CoreQueries QueryTheorems.
From S2P Require Import KvBinary Messages ProtocolHandler ProtocolCore ProtocolTheorems.
#[local] Open Scope list_scope.
#[local] Open Scope Z_scope.

Section Nodes.
Context (check_key : PublicKey -> bool).
Context (scalarmultKey : KeyImage -> KeyImage -> KeyImage).
Context (checkRingSignature : Hash -> KeyImage -> list PublicKey -> list Signature -> bool).
Context (cn_fast_hash : list Z -> list Z).
Context (cn_slow_hash_v0 cn_lite_slow_hash_v1 cn_turtle_lite_slow_hash_v2 : list Z -> list Z).
Context (genesisBlockHash : Hash) (currency : Currency) (upgradeManager : UpgradeManager.t) (points : Points) (now : Z).

#[local] Instance node_core : ICore Core := Core_ICore check_key scalarmultKey checkRingSignature cn_fast_hash cn_slow_hash_v0
  cn_lite_slow_hash_v1 cn_turtle_lite_slow_hash_v2 genesisBlockHash currency upgradeManager points now.

(** ** Serving the chain *)

(** The blocks of the main chain, as they are sent. *)
Record holds (c : Core) (chain : list Served) : Prop := {
  hd_hashes : s_hash <$> chain = main_hashes c;
  hd_raw : s_raw <$> chain = chain_storage (main_chain c);
  hd_genuine : Forall (genuine cn_fast_hash) chain }.

Lemma holds_length c chain : holds c chain -> Z.of_nat (length chain) = height (main_chain c).
Proof. intros H. unfold height. rewrite <- (length_fmap bi_blockHash), <- (hd_hashes _ _ H), length_fmap. done. Qed.

Lemma main_height c : core_ok currency c -> 0 < height (main_chain c) < 2 ^ 32.
Proof.
  intros Hc. destruct (core_main _ _ Hc) as (_ & _ & _ & _ & Gm & Hne). pose proof (gc_cache _ _ Gm) as Hok.
  destruct (top_block currency c Hc) as (id & h & _ & _ & _ & Hpos & _). destruct (main_chain c) as [|s parents]; [done|].
  destruct Hok as (_ & (_ & _ & _ & Hh) & _). rewrite height_cons in *. lia.
Qed.

Lemma main_blocks c chain : core_ok currency c -> holds c chain ->
  forall l, (forall e, e ∈ l -> e ∈ chain) -> getBlocks_hashes c (s_hash <$> l) = Some (s_raw <$> l, []).
Proof.
  intros Hc Hh. induction l as [|e l IH]; intros Hin; [done|].
  destruct (list_elem_of_lookup_1 _ _ (Hin e (list_elem_of_here _ _))) as [i Ei].
  destruct (main_find_raw currency c (s_hash e) i (s_raw e) Hc) as (id & E1 & E2 & E3).
  { rewrite <- (hd_hashes _ _ Hh), list_lookup_fmap, Ei. done. }
  { rewrite <- (hd_raw _ _ Hh), list_lookup_fmap, Ei. done. }
  cbn [fmap list_fmap getBlocks_hashes]. rewrite E1. rewrite E2. cbn [mbind option_bind]. rewrite E3. cbn [mbind option_bind].
  rewrite IH by (intros x Hx; apply Hin; by right). done.
Qed.

(** The core keeps what the protocol expects of a peer that is ahead. *)
Lemma core_serves c chain locator start : core_ok currency c -> holds c chain ->
  last locator = main_hashes c !! 0%nat -> findBlockchainSupplement c locator = Some start -> 0 <= start < height (main_chain c) ->
  height (main_chain c) - start <= BLOCKS_IDS_SYNCHRONIZING_DEFAULT_COUNT ->
  serves cn_fast_hash c chain locator (Z.to_nat start).
Proof.
  intros Hc Hh Hl Hs Hr Hmax. pose proof (holds_length _ _ Hh) as Hlen. pose proof (main_height _ Hc) as Hht.
  destruct (core_main _ _ Hc) as (_ & _ & _ & _ & Gm & Hne). pose proof (gc_cache _ _ Gm) as Hok. unfold BLOCKS_IDS_SYNCHRONIZING_DEFAULT_COUNT in *.
  split.
  - destruct (main_hashes c !! 0%nat) as [g|] eqn:Eg; [|apply lookup_ge_None in Eg; rewrite length_fmap in Eg; unfold height in *; lia].
    exists g. split; [|done]. unfold core_hash_at, node_core, Core_ICore, getBlockHashByIndex. rewrite getBlockHash_chain by (done || lia). exact Eg.
  - unfold core_top, node_core, Core_ICore. rewrite (top_index currency) by done. by rewrite Hlen.
  - unfold core_supplement, node_core, Core_ICore, findBlockchainSupplement_hashes. rewrite (top_index currency) by done. cbn [mbind option_bind].
    rewrite Hs. cbn [mbind option_bind]. unfold core_getBlockHashes. change (u32 BLOCKS_IDS_SYNCHRONIZING_DEFAULT_COUNT) with 10000. rewrite getBlockHashes_chain by (done || lia).
    cbn [mbind option_bind]. rewrite take_ge by (rewrite length_drop, length_fmap; unfold height in *; lia).
    rewrite (hd_hashes _ _ Hh), Hlen, (Z2Nat.id start) by lia.
    replace (height (main_chain c) - 1 + 1) with (height (main_chain c)) by lia. by rewrite wrap_small by (unfold fits; lia).
  - unfold core_getBlocks, node_core, Core_ICore. by apply main_blocks.
  - apply (hd_genuine _ _ Hh).
  - rewrite (hd_hashes _ _ Hh). apply (gc_hashes _ _ Gm).
  - lia.
Qed.

(** ** Two nodes *)

(** The main chains agree on the first [f] blocks, and the asking node has none of the others. *)
Record behind (a : Core) (chain : list Served) (f : nat) : Prop := {
  bh_common : s_hash <$> take f chain = take f (main_hashes a);
  bh_range : (0 < f <= length (main_hashes a))%nat;
  bh_length : (f <= length chain)%nat;
  bh_unknown : forall e, e ∈ drop f chain -> hasBlock a (s_hash e) = false }.

Lemma behind_common a b chain f : behind a chain f -> holds b chain ->
  forall i h, 0 <= i < Z.of_nat f -> main_hashes a !! Z.to_nat i = Some h -> main_hashes b !! Z.to_nat i = Some h.
Proof.
  intros Hf Hh i h Hi E. rewrite <- (hd_hashes _ _ Hh). rewrite <- (lookup_take_lt (s_hash <$> chain) f) by lia.
  rewrite <- fmap_take, (bh_common _ _ _ Hf), lookup_take_lt by lia. done.
Qed.

Lemma behind_forked a b chain f : core_ok currency a -> behind a chain f -> holds b chain ->
  forall i h, Z.of_nat f <= i -> main_hashes a !! Z.to_nat i = Some h -> h ∉ main_hashes b.
Proof.
  intros Ha Hf Hh i h Hi E. rewrite <- (hd_hashes _ _ Hh). intros Hin. rewrite <- (take_drop f chain), fmap_app in Hin.
  destruct (core_main _ _ Ha) as (_ & _ & _ & _ & Gm & _). apply elem_of_app in Hin as [Hin|Hin].
  - rewrite (bh_common _ _ _ Hf) in Hin. apply list_elem_of_lookup_1 in Hin as [j Ej]. apply lookup_take_Some in Ej as [Ej Hj].
    pose proof (NoDup_lookup _ _ _ _ (gc_hashes _ _ Gm) E Ej). lia.
  - apply list_elem_of_fmap_1 in Hin as (e & -> & He). apply list_elem_of_lookup_2 in E. apply (main_known currency) in E; [|done].
    by rewrite (bh_unknown _ _ _ Hf e He) in E.
Qed.

(** ** Taking the blocks *)

(** The predecessor of the block is known, and the block passes the checks of [addBlock] on the chain of it, fits, and does not
    make a fork off another fork the main chain. *)
Definition acceptable (c : Core) (e : Served) : Prop :=
  fits_on cn_fast_hash currency points c (s_cached e) (s_raw e) /\
  forks_from_main check_key scalarmultKey checkRingSignature cn_fast_hash cn_slow_hash_v0 cn_lite_slow_hash_v1
    cn_turtle_lite_slow_hash_v2 genesisBlockHash currency upgradeManager points now c (s_cached e) (s_raw e) /\
  exists id k, findSegmentContainingBlock (chainsStorage c) (chainsLeaves c)
      (previousBlockHash (header (cb_block (s_cached e)))) = Some id /\
    check_block check_key scalarmultKey checkRingSignature cn_fast_hash cn_slow_hash_v0 cn_lite_slow_hash_v1
      cn_turtle_lite_slow_hash_v2 genesisBlockHash currency upgradeManager points now
      (path (chainsStorage c) id) (s_cached e) (s_raw e) = inr k.

(** Each block is acceptable when its turn comes. *)
Fixpoint acceptable_all (c : Core) (l : list Served) : Prop :=
  match l with
  | [] => True
  | e :: rest => acceptable c e /\
      forall r c1, addBlock check_key scalarmultKey checkRingSignature cn_fast_hash cn_slow_hash_v0 cn_lite_slow_hash_v1
        cn_turtle_lite_slow_hash_v2 genesisBlockHash currency upgradeManager points now c (s_cached e) (s_raw e) = Some (r, c1) ->
        acceptable_all c1 rest
  end.

(** The core adds such a block, and knows it and what it knew, and nothing else. *)
Lemma acceptable_added c e :
  0 <= m_rewardBlocksWindow currency -> core_ok currency c -> acceptable c e -> hasBlock c (cb_hash (s_cached e)) = false ->
  exists code c1, core_addBlock (s_cached e) (s_raw e) c = Some (AddBlockCode code, c1) /\
    code ∈ [ADDED_TO_MAIN; ADDED_TO_ALTERNATIVE; ADDED_TO_ALTERNATIVE_AND_SWITCHED] /\ core_ok currency c1 /\
    forall h, hasBlock c1 h = true <-> hasBlock c h = true \/ h = cb_hash (s_cached e).
Proof.
  intros Hw Hc (Hfit & Hfork & id & k & Hid & Hk) Hnew.
  pose proof (findSegment_spec (chainsStorage c) (chainsLeaves c) (previousBlockHash (header (cb_block (s_cached e))))) as Hyes.
  rewrite Hid in Hyes. destruct Hyes as (leaf & _ & _ & (n & En & _)%segment_has_node).
  destruct (addBlock_inserts _ _ _ _ _ _ _ _ _ _ _ _ c (s_cached e) (s_raw e) id n k Hw Hc Hfork Hfit Hnew Hid En Hk) as (c1 & E & Hins).
  exists (expected_code c k id n), c1. split; [exact E|]. split; [|split; [apply Hins|]].
  - pose proof (in_outcome _ _ _ _ _ _ _ Hins) as [_ Ho]. rewrite !elem_of_cons. destruct (expected_code c k id n); try done; auto.
  - intros h. split; [by eapply inserted_only|]. intros [Hh| ->]; [by eapply inserted_keeps|].
    eapply outcome_known; [|apply Hins]. apply (co_forest _ _ (in_ok _ _ _ _ _ _ _ Hins)).
Qed.

Lemma acceptable_accepts l : forall kept c,
  0 <= m_rewardBlocksWindow currency -> core_ok currency c -> acceptable_all c l -> Forall (genuine cn_fast_hash) l -> NoDup (s_hash <$> l) ->
  (forall e, e ∈ l -> hasBlock c (s_hash e) = false) -> (forall h, h ∈ kept -> hasBlock c h = true) ->
  exists c', accepts kept c l c' /\ core_ok currency c'.
Proof.
  induction l as [|e l IH]; intros kept c Hw Hc Hall Hg Hn Hnew Hkept; [exists c; split; [constructor|done]|].
  destruct Hall as [He Hrest]. apply Forall_cons in Hg as [(template & _ & _ & Eh & _) Hg].
  rewrite fmap_cons in Hn. apply NoDup_cons in Hn as [Hne Hn].
  destruct (acceptable_added c e Hw Hc He) as (code & c1 & E & Hcode & Hc1 & Hknow); [rewrite Eh; apply Hnew; by left|].
  rewrite Eh in Hknow.
  assert (forall x, x ∈ l -> hasBlock c1 (s_hash x) = false) as Hunknown.
  { intros x Hx. apply not_true_iff_false. intros [Ht|Ex]%Hknow.
    - rewrite (Hnew x) in Ht by (by right). done.
    - apply Hne. rewrite <- Ex. by apply list_elem_of_fmap_2. }
  destruct (IH (s_hash e :: kept) c1) as (c' & Ha & Hc'); try done.
  - by eapply Hrest.
  - intros h [->|Hh]%elem_of_cons; apply Hknow; [by right|left; by apply Hkept].
  - exists c'. split; [|done]. econstructor; [exact E|done|eexists; by apply (top_index currency)| | |exact Ha].
    + intros h [->|Hh]%elem_of_cons; apply Hknow; [by right|left; by apply Hkept].
    + done.
Qed.

(** C5: A node catches up with a peer over the wire protocol.  Their main chains agree on
    the first [f] blocks, the node has none of the later blocks of the peer, and
    the blocks of both nodes above the fork are together fewer than ten thousand.  Each block that the node lacks passes the checks of
    [addBlock] when its turn comes, fits, as for [addBlock_correct], and does not make a fork off another fork the main chain.  Then the
    exchange that begins with its request for the chain, with no other event in between, ends: every
    block is added, the state of the node is in order and every block of the main chain of the peer is in its core; its connection is in
    the state of one that has synchronised, and the peer has its core and its open connection as they were. *)
Theorem nodes_synchronise ida idb chain f (nA nB : Node Core) ctxA ctxB :
  0 <= m_rewardBlocksWindow currency ->
  core_ok currency (m_core nA) -> core_ok currency (m_core nB) -> holds (m_core nB) chain -> behind (m_core nA) chain f ->
  height (main_chain (m_core nA)) <= 2 ^ 31 ->
  height (main_chain (m_core nA)) + height (main_chain (m_core nB)) - 2 * Z.of_nat f < BLOCKS_IDS_SYNCHRONIZING_DEFAULT_COUNT ->
  knows idb ctxB nB -> m_state ctxB <> state_shutdown ->
  knows ida ctxA nA -> m_state ctxA = state_synchronizing -> 1 <= peer_version ctxA ->
  m_needed_objects ctxA = [] -> m_requested_objects ctxA = ∅ -> m_stop nA = false ->
  acceptable_all (m_core nA) (drop f chain) ->
  exists locator n1 nA' nB' ctx', start_sync ida nA = Some (Some true, n1) /\
    buildSparseChain (m_core nA) = Some locator /\ sent n1 = sent nA ++ [(ToPeer ida, NOTIFY_REQUEST_CHAIN (mkRequestChain locator))] /\
    converse cn_fast_hash (S (S (length (drop f chain)))) (NOTIFY_REQUEST_CHAIN (mkRequestChain locator)) ida idb n1 nB = Some (nA', nB') /\
    core_ok currency (m_core nA') /\ m_core nB' = m_core nB /\ knows idb ctxB nB' /\
    knows ida ctx' nA' /\ m_state ctx' = state_normal /\ m_synchronized nA' = true /\
    (forall h, h ∈ main_hashes (m_core nB) -> hasBlock (m_core nA') h = true).
Proof.
  intros Hw Ha Hb Hh Hf Hs Hmax Kb Hop Ka Hst Hv Hn Hr Hstop Hall. pose proof (main_height _ Ha) as HA. pose proof (holds_length _ _ Hh) as Hl.
  pose proof Hf as [F1 F2 F3 F4]. rewrite length_fmap in F2.
  assert (0 < Z.of_nat f <= height (main_chain (m_core nA))) as F2' by (unfold height; lia).
  destruct (sync_supplement currency (m_core nA) (m_core nB) (Z.of_nat f)) as (locator & s & El & Es & Hsf & Hend & Hfork);
    [done..|by eapply behind_common|by eapply behind_forked|].
  assert (serves cn_fast_hash (m_core nB) chain locator (Z.to_nat s)) as Hserve.
  { apply core_serves; [done|done| |done|lia|].
    2:{ unfold BLOCKS_IDS_SYNCHRONIZING_DEFAULT_COUNT in *. lia. }
    rewrite (sparse_last currency _ _ Ha El).
    destruct (main_hashes (m_core nA) !! 0%nat) as [g|] eqn:Eg; [|apply lookup_ge_None in Eg; rewrite length_fmap in Eg; lia].
    symmetry. apply (behind_common _ _ _ _ Hf Hh 0); [lia|done]. }
  assert (forall e, e ∈ take f chain -> hasBlock (m_core nA) (s_hash e) = true) as Hknown.
  { intros e He. apply (main_known currency); [done|]. apply (list_elem_of_fmap_2 s_hash) in He. rewrite F1 in He.
    rewrite <- (take_drop f (main_hashes (m_core nA))). apply elem_of_app. by left. }
  destruct (core_main _ _ Hb) as (_ & _ & _ & _ & Gb & _).
  destruct (acceptable_accepts (drop f chain) (s_hash <$> take f chain) (m_core nA)) as (c' & Hacc & Hc'); try done.
  { pose proof (hd_genuine _ _ Hh) as Hg. rewrite <- (take_drop f chain) in Hg. by apply Forall_app in Hg as [_ ?]. }
  { pose proof (gc_hashes _ _ Gb) as Hnd. change (NoDup (main_hashes (m_core nB))) in Hnd. rewrite <- (hd_hashes _ _ Hh), <- (take_drop f chain), fmap_app in Hnd.
    by apply NoDup_app in Hnd as (_ & _ & ?). }
  { intros h (e & -> & He)%list_elem_of_fmap_1. by apply Hknown. }
  edestruct (sync_exchange cn_fast_hash ida idb chain locator (Z.to_nat s) (take f chain) (drop f chain) nA nB ctxA ctxB c')
    as (n1 & nA' & nB' & ctx' & E1 & E0 & E2 & C1 & C2 & KB & K & S1 & S2 & Hhas); try done.
  - eexists. by apply (top_index currency).
  - by rewrite take_drop.
  - rewrite length_take. lia.
  - exists locator, n1, nA', nB', ctx'. rewrite C1. repeat (split; [done|]). rewrite <- C1. intros h Hin. rewrite <- (hd_hashes _ _ Hh) in Hin.
    apply list_elem_of_fmap_1 in Hin as (e & -> & He). by apply Hhas.
Qed.
End Nodes.

(** ** Two nodes of the small chain *)

#[local] Existing Instance sample_ICore.

Definition sample_served (b : CachedBlock) : Served := mkServed (cb_hash b) (sample_raw (cb_block b)) b.

Lemma sample_holds : holds sample_hash (after_block sample_block_1) [sample_served genesis; sample_served sample_block_1].
Proof.
  split; [vm_compute; reflexivity..|]. repeat constructor.
  - exists (cb_block genesis). repeat split; vm_compute; reflexivity.
  - exists (cb_block sample_block_1). repeat split; vm_compute; reflexivity.
Qed.

Lemma sample_behind : behind sample_core [sample_served genesis; sample_served sample_block_1] 1.
Proof.
  split; [vm_compute; reflexivity|vm_compute; lia|vm_compute; lia|].
  intros e He. apply list_elem_of_singleton in He as ->. vm_compute. reflexivity.
Qed.

Lemma sample_acceptable :
  acceptable_all (fun _ => true) (fun _ x => x) (fun _ _ _ _ => true) sample_hash no_work no_work no_work (replicate 32 1)
    CurrencyBuilder [] ∅ 1200 sample_core [sample_served sample_block_1].
Proof.
  split; [|done]. split; [apply sample_fits_both; by left|]. split; [apply sample_forks|].
  exists 0%nat. eexists. split; vm_compute; reflexivity.
Qed.

Lemma nodes_synchronise_witness : exists locator n1 nA' nB',
  start_sync 5 (sample_node sample_core state_synchronizing) = Some (Some true, n1) /\
  converse sample_hash 3 (NOTIFY_REQUEST_CHAIN (mkRequestChain locator)) 5 5 n1 (sample_node (after_block sample_block_1) state_normal) = Some (nA', nB') /\
  core_ok CurrencyBuilder (m_core nA') /\ hasBlock (m_core nA') (replicate 32 2) = true /\ is_open 5 nB' = true.
Proof.
  destruct (nodes_synchronise (fun _ => true) (fun _ x => x) (fun _ _ _ _ => true) sample_hash no_work no_work no_work (replicate 32 1)
    CurrencyBuilder [] ∅ 1200 5 5 [sample_served genesis; sample_served sample_block_1] 1
    (sample_node sample_core state_synchronizing) (sample_node (after_block sample_block_1) state_normal)
    (sample_context state_synchronizing) (sample_context state_normal))
    as (locator & n1 & nA' & nB' & ctx' & E1 & _ & _ & E2 & Hc & _ & KB & _ & _ & _ & Hall).
  - vm_compute. discriminate.
  - exact sample_core_ok.
  - exact sample_ok_1.
  - exact sample_holds.
  - exact sample_behind.
  - vm_compute. discriminate.
  - vm_compute. reflexivity.
  - reflexivity.
  - discriminate.
  - reflexivity.
  - reflexivity.
  - vm_compute. discriminate.
  - reflexivity.
  - reflexivity.
  - reflexivity.
  - exact sample_acceptable.
  - exists locator, n1, nA', nB'. split; [exact E1|]. split; [exact E2|]. split; [exact Hc|].
    split; [apply Hall; vm_compute; right; left|]. apply (knows_open _ _ _ KB). discriminate.
Defined.
